(* ===== verification/_CoqProject ===== *)
-Q . S2P
Prelude.v
Strings.v
Proto.v
Sync.v
Node.v
NodeFacts.v
Daemon.v
DaemonFacts.v
Main.v
Cluster.v
ClusterInv.v
Safety.v
Election.v
Service.v
Demangle.v
DemangleFacts.v
Vlog.v
Symbolize.v
SymbolizeFacts.v
Regex.v
TestRun.v
TestRunFacts.v
Matching.v
MatchingFacts.v
Utf8.v
Utf8Facts.v
EditDistance.v
EditDistanceFacts.v
Cardinality.v
Expectation.v
ExpectationFacts.v
Mocker.v
MockerFacts.v
MockSafety.v
LogFile.v
LogFileFacts.v
Logging.v
LoggingFacts.v
LogTools.v
Signal.v
SignalFacts.v
Runner.v
RunnerFacts.v
Printers.v
PrintersFacts.v
Assertions.v
AssertionsFacts.v
Floats.v
FloatsFacts.v
RecordedFacts.v
Xml.v
XmlFacts.v
Streaming.v
StreamingFacts.v
FilePath.v
FilePathFacts.v
Flags.v
FlagsFacts.v
DeathTest.v
DeathTestFacts.v
Matchers.v
MatchersFacts.v
Actions.v
ActionsFacts.v
MockFlags.v
ParamTest.v
ParamTestFacts.v
Console.v
ConsoleFacts.v
TypedTests.v
TypedTestsFacts.v
