(* ===== verification/Prelude.v ===== *)
(** RaftCPP: a verification library.

    RaftCPP is a Raft node in C++ ([src/src]) with the libraries it is built with
    kept in its tree ([src/lib]): the logging library glog, and Google Test and
    Google Mock.  This development models the node and the cluster it forms, and of
    the libraries the parts that compute something: log files, messages and where they
    go, the verbosity of a module, what a crashing process does (demangler,
    symbolizer, signal handler); the choice, the order and the run of tests, regular
    expressions, diffs, UTF-8, printed values, the messages of assertions, floating-point
    numbers, the reports of a run, the command line, paths of files, death tests, the
    pairing of elements and matchers, and the expectations of mock functions.

    * Parts of the program and how they interact

    [main.cpp] reads "address port" lines and constructs one [Raft] per line, each
    with the addresses of all.  The constructor starts two threads.  One serves the
    four calls of [raft.proto] through the generated dispatcher [raft.rpcz.cc]; each
    handler runs under [lock_].  The other is the daemon, [LaunchRaftDemon]: it
    sleeps, builds one stub per peer, and then loops under [lock_] as follower (watch
    the election timer), candidate (ask every peer for its vote) or leader (send
    heartbeats); its remote calls are made while it holds [lock_].  [Kill] sets
    [is_dead_] and joins the threads.

    * Files

    - [Prelude]: machine integers ([uint64_t], [int], [long long] as integers with
      their conversions written out), counting in lists, tactics.
    - [Strings]: decimal numbers, [operator>>], [getline]; the language of the
      patterns with stars and question marks.
    - [Proto]: the messages of [raft.proto] as records of optional fields, with
      [IsInitialized] (all required fields set) and default values; [struct.h].
    - [Sync]: [RWLock] over an interface to a POSIX read-write lock (type class
      [PthreadRWLock], with the laws that the handlers rely on) and an instance; the
      [std::mutex] that is [lock_], held or not.
    - [Node], [NodeFacts]: [class Raft] as a record, its constructor, the handlers
      [GetStatus], [Op], [Vote] and [AppendMsg], and [Kill].
    - [Daemon], [DaemonFacts]: [LaunchRaftDemon]: the stubs as owned heap cells
      (deleting or calling through a dangling one is [None]), the bodies of the
      three roles, and the control points ([Pc]) at which other threads run.
    - [Main]: [main.cpp].
    - [Cluster]: all processes and the calls in flight.  [daemon_step] is the daemon
      from one control point to the next, [proc_step] the same as a relation that
      the executable one implements, [step] a step of the cluster: a thread's step,
      the delivery of a call to a handler, or a step of [Kill].  The mutex of a process
      is part of its state: daemon and handlers take it and give it back, and who finds
      it held does not move.  A call may be lost, time out after it was handled, or be
      handled late.
    - [ClusterInv], [Safety], [Election]: the invariant of reachable clusters and the
      properties of runs; [Election] keeps a history of votes for them.
    - [Service]: [raft.rpcz.cc] and [raft.rpcz.h]: dispatch by index, prototypes,
      stubs, registration of descriptors; channel and descriptor pool are parameters.
    - [Demangle], [DemangleFacts]: [glog/src/demangle.cc], every parsing function, as
      state transformers over the cursor state and the output buffer.
    - [Vlog]: [glog/src/vlog_is_on.cc].
    - [Symbolize], [SymbolizeFacts]: [glog/src/symbolize.cc]; what [read] returns is a
      parameter, with short reads and interruptions.
    - [Signal], [SignalFacts]: [glog/src/signalhandler.cc]: the formatter and the lines
      of a report, and the handler in all threads of a process as a machine, up to its
      flush of the logs of [Logging] and the default action of the signal.
    - [LogFile], [LogFileFacts]: [LogFileObject] of [glog/src/logging.cc] over a file
      system, with the helpers of [utilities.cc] it calls.
    - [Logging], [LoggingFacts]: destinations, sinks and messages of the same file, from
      the constructors of [LogMessage] to [Flush]; what leaves the process for the code
      of the user, a mailer or the system log is a list of events.
    - [LogTools]: [TruncateLogFile], the texts of failed checks, [raw_logging.cc].
    - [Regex]: the simple regular expressions of [googletest/src/gtest-port.cc].
    - [TestRun], [TestRunFacts]: filters, shards, seeds and shuffling of
      [googletest/src/gtest.cc] and [gtest-internal-inl.h].
    - [Runner], [RunnerFacts]: tests, cases and iterations of [gtest.cc] with results,
      exceptions and events; what the user's code does is a list of actions.
    - [Matching], [MatchingFacts]: the bipartite matching and [UnorderedElementsAre]
      of [googlemock/src/gmock-matchers.cc] and [gmock-matchers.h].
    - [Utf8], [Utf8Facts]: wide strings of [googletest/src/gtest.cc].
    - [EditDistance], [EditDistanceFacts]: edits and unified diffs of the same file.
    - [Printers], [PrintersFacts]: characters, strings, bytes and containers as
      [gtest-printers.cc] and [gtest-printers.h] print them; a reader of C++ literals.
    - [Assertions], [AssertionsFacts]: equality of integers and C strings with its diff,
      comparisons, substrings, of [gtest.cc].
    - [Floats], [FloatsFacts]: [FloatingPoint] of [gtest-internal.h], the assertions and
      the matcher that compare with it; the class [Format] is [float] or [double].
    - [RecordedFacts]: the properties tests record: an invariant of [Runner], and the
      values that the calls of an iteration leave.
    - [Xml], [XmlFacts]: [XmlUnitTestResultPrinter] of [gtest.cc] over the state of the
      runner; a grammar of XML documents.
    - [Streaming], [StreamingFacts]: [StreamingListener] of [gtest-internal-inl.h], which
      sends the events of a run to a server; the server.
    - [FilePath], [FilePathFacts]: [gtest-filepath.cc] over a file system (type class
      [FileSystem], with laws), and the name of the report of [gtest.cc].
    - [Flags], [FlagsFacts]: the flags of [gtest.cc]: environment ([gtest-port.cc]),
      command line, flag files, the colours of the help text.
    - [DeathTest], [DeathTestFacts]: [gtest-death-test.cc] with its macro: a process is a
      state and the answers of the operating system to come, in a monad whose outcome is a
      value, a death, another program, or undefined; parent and child are two runs.
    - [Cardinality]: [googlemock/src/gmock-cardinalities.cc]; the class [Counting] is
      what the clients of a cardinality rely on, and [Between] is an instance.
    - [Expectation], [ExpectationFacts]: an expectation of [gmock-spec-builders.h] with
      its clauses, and the walks over pre-requisites in the heap of expectations.
    - [Mocker], [MockerFacts], [MockSafety]: mock functions, sequences, calls,
      verification and the registry of [gmock-spec-builders.cc] over one state and an
      outcome (value, exception, abort, undefined); the invariant; a test as steps.
    - [Matchers], [MatchersFacts]: the matchers of [gmock-matchers.h] as records of
      functions; the class [Lawful] is the contract of [MatchAndExplain], and every
      matcher is an instance; setoid equality of matchers.
    - [Actions], [ActionsFacts]: the actions of [gmock-actions.h], [gmock-more-actions.h] and
      [gmock-generated-actions.h] as objects that handles share, beside the memory of the
      user; conversions, and default values.
    - [MockFlags]: the flags of Google Mock and [InitGoogleMock] of [gmock.cc].
    - [ParamTest], [ParamTestFacts]: generators of parameters ([Range], [ValuesIn], [Combine])
      and the registration of parameterised tests of [gtest-param-util.h] and
      [gtest-param-util-generated.h]; a generator is a record with its iterators.
    - [TypedTests], [TypedTestsFacts]: [gtest-typed-test.cc] and the registration of
      type-parameterised tests of [gtest-internal.h].
    - [Console], [ConsoleFacts]: [PrettyUnitTestResultPrinter] of [gtest.cc] over the events
      of the runner, as coloured pieces of text, and [--gtest_list_tests].

    Definitions carry the names of the C++ functions they translate; a loop of a
    function is a [Fixpoint] beside it.  A function that can abort, block or do
    something undefined returns an [option] or a sum; one that throws does too.

    * What the theorems show

    The node.  A vote is granted exactly when the node neither leads nor runs and
    its vote is free; [AppendMsg] refines "accept a term not older than mine" for
    terms that fit an [int], and misreads others.  Stubs are never used or deleted
    when they do not exist, for any vote and order of peers, and all are deleted at
    the end.  Elections, heartbeat rounds and the election timer are described on
    every branch.

    The cluster.  No reachable cluster can do anything undefined; a waiting request can
    be handled exactly outside the sections of the daemon that hold the lock; no daemon
    deadlocks; a killed daemon ends in at most twice its peers plus four steps, and then
    [Kill] returns; [Kill]ed processes are frozen; peers only shrink.  Whoever leads had the
    votes of a majority of its peers; two leaders with the same peers had a common
    voter that took a vote back in between; so as long as no vote is taken back there
    is at most one leader.  Votes are taken back by the timer and given again whatever
    the term, and then there are two leaders of one term: a run is given.  A leader that
    is refused expels itself and is elected again by half of its peers.  A stub returns
    what the method of the same name computes, over a channel that delivers.  Heartbeats lack required fields, so a transport that
    sends initialised messages only never delivers one.

    The libraries.  The demangler never writes outside its buffer, keeps the state
    where parsing fails, and ends on names without negative or overflowing numbers;
    it does not end on all.  [LineReader], [itoa_r] and [FindSymbol] do what they are
    for, with the limits of the last.  One report at a time is written by the signal
    handler, which flushes the logs and ends the process unless it is re-entered in the
    only thread or the signal came inside the code of the logs.
    A message whose files are open with room is in the file of every severity up to its
    own, in order and whole; a fatal one is flushed before the process ends; a file stays
    within its limit and one message, up to a limit of 4094 megabytes; where files cannot be made messages are lost, and
    the theorems say which.  A run of tests makes its iterations, each with every chosen
    test once, in the order of the shuffle, between the events of its case; [TearDown] is
    called whenever [SetUp] was; the status is 0 exactly when nothing failed.
    Regular expressions, globs and filters decide their languages; shards partition
    the tests and shuffles permute them; the matching is maximum, and
    [UnorderedElementsAre] matches the permutations; diffs, applied, give the other
    list, though the edits are not the fewest; UTF-8 is read back.  A printed string is
    a literal that C++ reads as the string (but for one case of NUL), and the message of
    a failed [ASSERT_STREQ] holds both and a diff of their lines.  Numbers are almost
    equal when they are four steps of the format or less apart.  The report of every run
    is well-formed XML with all failures and their texts, since recorded keys stay
    distinct and unreserved; the value of a key is the last one recorded; a server
    reads every event of a run of which no byte is lost.  The loop over
    the command line filters [argv] in place and flags are read back; paths are normal, and
    the directories of a report are made.  A death test passes exactly when its statement
    died, with the status and the text that are expected; a child of the threadsafe style
    reads from its command line which death test it is, and runs that one only.  The newest
    expectation that may take a call takes it; expectations of a sequence are consumed
    in their order across mock functions; the verification misses nothing and blames
    nothing else, as long as no call throws (a test that catches an exception is
    given, whose excessive call goes unreported); explanations are never empty.
    Matchers give the same result whoever listens; [AnyOf] is [AllOf] by the law of De
    Morgan, texts included; [ElementsAre], [Pointwise], [Contains], [Each], [ContainerEq]
    and the matchers of strings decide what they say, and explain the first mismatch.
    Every action that a conversion makes can be performed and comes to an end; [DoAll] does
    its actions in order; a value that is moved is given once by one action, but not by all
    that share it; [InitGoogleMock] leaves the arguments that are no flags.
    [Combine] enumerates the product of its generators; parameterised tests are registered for
    every parameter unless a name is bad, which a name by default never is; a list of typed
    tests is accepted exactly if it is the tests that are defined, and then gives each of them
    for each type.  Colours only add escape sequences to the console; its list of failed tests
    is exact, and the listing of tests is read back; after a failed set-up it claims success.

    * Bounds and fuel

    [decimal] has fuel for the digits of the type printed.  [Demangle] takes the depth
    of calls as fuel: nine times the length of the name plus ten is enough
    ([Demangle_terminates]) where it ends at all.  [TryAugment] takes the number of
    matchers plus one ([FindMaxBipartiteMatching_maximum] has no hypothesis).
    [reconstruct] and [diff_loop] take the lengths of the lists, and the theorems
    about them say that a result is there.  [FindSymbol] and [ReadLine] are shown to
    end where they do.  The copy of [TruncateLogFile] takes the length of the file plus
    one, since every round reads a byte.  [CreateDirectoriesRecursively] takes the
    length of the path plus one ([CreateDirectories_spec]; it does not end everywhere),
    [unique_loop] one more than the names that are taken, [flags_loop] the number of
    arguments ([ParseFlags_filters] has no hypothesis), loops over a text its length.  An
    action refers to older ones, so its number is fuel ([converted_action_ends]).  The
    loops that repeat a system call take an answer every round, so the answers are fuel.  The iterations of a run are counted (for ever
    is every count).  The walks over pre-requisites take the number of expectations
    plus one, since an expectation depends on older ones only, an invariant of every
    test.  Loops over a list or up to a given count need none.

    * Not modelled

    The wire format of protobuf, sockets, threads' scheduling and the network below a
    call: not in the sources; their outcomes are parameters or steps.  The race on
    fields that are read without [lock_] ([status_], [term_], [is_dead_]): a read is a
    step of its own with the value at that time, as on machines where such reads are
    atomic.  The memory of generated messages.  The macros of the logging library with
    conditions and counters, and what C++ streams and [printf] make of a value.  The
    macros of Google Test and its lists of types, with the warnings about flags; the
    regular expressions of the C library, a parameter of the death tests; the clock,
    which is a parameter of the reports; [std::sort] and the printers and operators of the
    types of the user, parameters of the matchers; functions of the user that change actions
    or mock objects while they are called: the model of the expectations takes actions as
    functions without effects on mock objects; the [MATCHER] and [ACTION] macros.  The code for Windows
    and Mac OS.  [common.h], [consensus_log.cpp] and the build files hold no code that
    runs. *)

From stdpp Require Import base gmap sets list strings.
From Stdlib Require Import ZArith Lia.

(** * Machine integers

    [uint64_t], [int] (32 bits, two's complement) and [long long] (64 bits)
    are integers of [Z] with the conversion written out. *)

Declare Scope cint_scope.
Delimit Scope cint_scope with cint.
Open Scope Z_scope.

Definition U64 : Z := 18446744073709551616.
Definition I64_MAX : Z := 9223372036854775807.
Definition I32_MAX : Z := 2147483647.
Definition U32 : Z := 4294967296.

(** Conversion to [uint64_t]. *)
Definition u64 (z : Z) : Z := z mod U64.

(** Conversion to [int]: the value modulo 2^32, read in two's complement. *)
Definition i32 (z : Z) : Z := (z + 2147483648) mod U32 - 2147483648.

(** Conversion to [long long]. *)
Definition i64 (z : Z) : Z := (z + 9223372036854775808) mod U64 - 9223372036854775808.

Notation "a '+u' b" := (u64 (a + b)) (at level 50, left associativity) : cint_scope.
Notation "a '-i64' b" := (i64 (a - b)) (at level 50, left associativity) : cint_scope.

Definition is_u64 (z : Z) : Prop := 0 <= z < U64.
Definition is_i32 (z : Z) : Prop := -2147483648 <= z <= I32_MAX.

#[export] Instance is_u64_dec z : Decision (is_u64 z).
Proof. unfold is_u64. apply _. Defined.

#[export] Instance is_i32_dec z : Decision (is_i32 z).
Proof. unfold is_i32. apply _. Defined.

(** [cint] unfolds the width constants and calls [lia] with [Z.modulo]
    understood. *)
Ltac cint :=
  unfold is_u64, is_i32, u64, i32, i64, U64, U32, I32_MAX, I64_MAX in *;
  Z.div_mod_to_equations; lia.

(** [bd] decides a closed goal by its decision procedure. *)
Ltac bd := refine (bool_decide_unpack _ _); vm_compute; exact I.

Create HintDb raft.

Lemma u64_range z : is_u64 (u64 z).
Proof. cint. Qed.

Lemma u64_small z : is_u64 z → u64 z = z.
Proof. cint. Qed.

Lemma u64_idem z : u64 (u64 z) = u64 z.
Proof. cint. Qed.

Lemma i32_range z : is_i32 (i32 z).
Proof. cint. Qed.

Lemma i32_small z : is_i32 z → i32 z = z.
Proof. cint. Qed.

(** Storing a [uint64_t] in an [int] and converting it back keeps exactly the
    values below 2^31 and the top 2^31 ones. *)
Lemma u64_i32_small z : 0 <= z <= I32_MAX → u64 (i32 z) = z.
Proof. cint. Qed.

Lemma u64_i32_negative z :
  2147483648 <= z < U32 → u64 (i32 z) = z + (U64 - U32).
Proof. cint. Qed.

#[export] Hint Resolve u64_range i32_range : raft.
#[export] Hint Rewrite u64_idem : raft.

(** * Lists and options *)

(** [count_true f l]: how many elements of [l] satisfy [f]. *)
Definition count_true {A} (f : A → bool) (l : list A) : nat :=
  length (filter (λ x, f x = true) l).

Section CountTrue.
Context {A : Type}.
Implicit Types (f g : A → bool) (l : list A).

Lemma count_true_nil f : count_true f [] = 0%nat.
Proof. reflexivity. Qed.

Lemma count_true_cons f x l :
  count_true f (x :: l) = ((if f x then 1 else 0) + count_true f l)%nat.
Proof.
  unfold count_true. rewrite filter_cons.
  destruct (f x); case_decide; simpl; congruence.
Qed.

Lemma count_true_app f l l' :
  count_true f (l ++ l') = (count_true f l + count_true f l')%nat.
Proof. unfold count_true. by rewrite filter_app, length_app. Qed.

Lemma count_true_le f l : (count_true f l <= length l)%nat.
Proof. unfold count_true. apply length_filter. Qed.

Lemma count_true_perm f l l' : l ≡ₚ l' → count_true f l = count_true f l'.
Proof. unfold count_true. by intros ->. Qed.

(** Two predicates that together cover more than the whole list meet. *)
Lemma count_true_overlap f g l :
  (length l < count_true f l + count_true g l)%nat →
  ∃ x, x ∈ l ∧ f x = true ∧ g x = true.
Proof.
  induction l as [|a l IH]; rewrite ?count_true_nil, ?count_true_cons; simpl;
    [lia|].
  intros H. destruct (f a) eqn:Hf, (g a) eqn:Hg.
  1: exists a; set_solver.
  all: destruct IH as (x & ? & ? & ?); [lia|]; exists x; set_solver.
Qed.
End CountTrue.

(** [by_cases] splits every [if] and [match] of the goal and closes the easy
    branches. *)
Ltac by_cases := repeat (case_match || case_decide); simplify_eq/=; try done.
