(* ===== verification/Strings.v ===== *)
(** Decimal text and stream extraction: [std::to_string(int)],
    [operator>>(std::string)], [operator>>(int)] and [std::getline], as
    [main.cpp] and [raft.cpp] use them (standard library, "C" locale). *)

From S2P Require Import Prelude.
From stdpp Require Import base list strings.
From Stdlib Require Import ZArith Lia Ascii.

Open Scope string_scope.
Open Scope Z_scope.

#[local] Arguments String.append !_ _ : simpl nomatch.

(** * Characters *)

Definition code (c : ascii) : Z := Z.of_N (N_of_ascii c).
Definition is_space (c : ascii) : bool :=
  (code c =? 32) || ((9 <=? code c) && (code c <=? 13)).
Definition is_digit (c : ascii) : bool := (48 <=? code c) && (code c <=? 57).
Definition digit_ascii (d : Z) : ascii := ascii_of_N (Z.to_N (48 + d)).

Lemma code_digit_ascii d : 0 <= d < 10 → code (digit_ascii d) = 48 + d.
Proof.
  intros. unfold code, digit_ascii. rewrite N_ascii_embedding by lia. lia.
Qed.

Lemma is_digit_digit_ascii d : 0 <= d < 10 → is_digit (digit_ascii d) = true.
Proof. intros. unfold is_digit. rewrite code_digit_ascii by lia. lia. Qed.

Lemma is_digit_not_space c : is_digit c = true → is_space c = false.
Proof. unfold is_digit, is_space. lia. Qed.

Fixpoint all_chars (P : ascii → bool) (s : string) : bool :=
  match s with "" => true | String c s => P c && all_chars P s end.

Lemma all_chars_app P s t : all_chars P (s +:+ t) = all_chars P s && all_chars P t.
Proof.
  induction s as [|c s IH]; simpl; [done|]. rewrite IH. by rewrite andb_assoc.
Qed.

Lemma all_chars_impl (P Q : ascii → bool) s :
  (∀ c, P c = true → Q c = true) → all_chars P s = true → all_chars Q s = true.
Proof.
  intros H. induction s as [|c s IH]; simpl; [done|].
  intros [Hc Hs]%andb_true_iff. by rewrite H, IH.
Qed.

Lemma string_app_nil_r s : s +:+ "" = s.
Proof. induction s as [|c s IH]; simpl; [done|by f_equal]. Qed.

Lemma string_app_cons c s t : String c s +:+ t = String c (s +:+ t).
Proof. done. Qed.

Lemma string_app_assoc s t u : (s +:+ t) +:+ u = s +:+ (t +:+ u).
Proof. induction s as [|c s IH]; simpl; [done|by f_equal]. Qed.

(** * Glob patterns *)

(** [*] stands for any characters, [?] for one, and another character for
    itself. *)
Inductive glob : list ascii → list ascii → Prop :=
  | glob_nil : glob [] []
  | glob_char c p s : c ≠ "*"%char → glob p s → glob (c :: p) (c :: s)
  | glob_any d p s : glob p s → glob ("?"%char :: p) (d :: s)
  | glob_star p s1 s2 : glob p s2 → glob ("*"%char :: p) (s1 ++ s2).

(** * [std::to_string] *)

(** Decimal digits of [n >= 0], most significant first, in front of [acc]. *)
Fixpoint decimal (fuel : nat) (n : Z) (acc : string) : string :=
  match fuel with
  | O => acc
  | S fuel =>
      let acc := String (digit_ascii (n mod 10)) acc in
      if n / 10 =? 0 then acc else decimal fuel (n / 10) acc
  end.

(** [std::to_string(int)]: ten digits are enough for 32 bits. *)
Definition to_string (n : Z) : string :=
  if n <? 0 then String "-" (decimal 10 (- n) "") else decimal 10 n "".

(** * [operator>>] *)

Fixpoint skip_ws (s : string) : string :=
  match s with
  | String c s' => if is_space c then skip_ws s' else s
  | "" => ""
  end.

(** The characters up to the next white space, and the rest. *)
Fixpoint take_word (s : string) : string * string :=
  match s with
  | String c s' =>
      if is_space c then ("", s)
      else let '(w, r) := take_word s' in (String c w, r)
  | "" => ("", "")
  end.

(** [stream >> std::string]: [None] is the failed stream. *)
Definition read_word (s : string) : option (string * string) :=
  let '(w, r) := take_word (skip_ws s) in
  match w with "" => None | _ => Some (w, r) end.

Fixpoint take_digits (s : string) (v : Z) : Z * string :=
  match s with
  | String c s' => if is_digit c then take_digits s' (10 * v + (code c - 48)) else (v, s)
  | "" => (v, "")
  end.

Definition starts_with_digit (s : string) : bool :=
  match s with String c _ => is_digit c | "" => false end.

(** [stream >> int]: an optional sign and at least one digit; a value outside
    [int] sets the fail bit. *)
Definition read_int (s : string) : option (Z * string) :=
  let s := skip_ws s in
  let '(neg, s) :=
    match s with
    | String "-" s' => (true, s')
    | String "+" s' => (false, s')
    | _ => (false, s)
    end in
  if starts_with_digit s then
    let '(v, r) := take_digits s 0 in
    let v := if neg then - v else v in
    if decide (is_i32 v) then Some (v, r) else None
  else None.

(** The lines [std::getline] returns one after the other; a last line without
    a newline counts when it has a character. *)
Fixpoint getlines_from (cur s : string) : list string :=
  match s with
  | "" => match cur with "" => [] | _ => [cur] end
  | String c s' =>
      if code c =? 10 then cur :: getlines_from "" s'
      else getlines_from (cur +:+ String c "") s'
  end.
Definition getlines (s : string) : list string := getlines_from "" s.

(** * Lemmas *)

Lemma decimal_app fuel n acc : decimal fuel n acc = decimal fuel n "" +:+ acc.
Proof.
  revert n acc. induction fuel as [|f IH]; intros n acc; [done|].
  simpl. destruct (n / 10 =? 0); [done|].
  rewrite (IH _ (String _ acc)), (IH _ (String _ "")).
  by rewrite string_app_assoc.
Qed.

Lemma decimal_digits fuel n : 0 <= n → all_chars is_digit (decimal fuel n "") = true.
Proof.
  revert n. induction fuel as [|f IH]; intros n Hn; [done|].
  assert (is_digit (digit_ascii (n mod 10)) = true) as Hd
    by (apply is_digit_digit_ascii, Z.mod_pos_bound; lia).
  simpl. destruct (n / 10 =? 0); simpl; [by rewrite Hd|].
  rewrite decimal_app, all_chars_app, IH by (apply Z.div_pos; lia).
  simpl. by rewrite Hd.
Qed.

Lemma take_digits_decimal fuel n acc :
  0 <= n < 10 ^ Z.of_nat fuel → take_digits (decimal fuel n acc) 0 = take_digits acc n.
Proof.
  revert n acc. induction fuel as [|f IH]; intros n acc Hn.
  { simpl in Hn. replace n with 0 by lia. done. }
  rewrite Nat2Z.inj_succ, Z.pow_succ_r in Hn by lia.
  assert (take_digits (String (digit_ascii (n mod 10)) acc) (n / 10)
          = take_digits acc n) as Hstep.
  { pose proof (Z.mod_pos_bound n 10 ltac:(lia)).
    cbn [take_digits].
    rewrite is_digit_digit_ascii by lia. rewrite code_digit_ascii by lia.
    f_equal. Z.div_mod_to_equations; lia. }
  cbn [decimal]. destruct (n / 10 =? 0) eqn:Hz.
  - rewrite Z.eqb_eq in Hz. by rewrite Hz in Hstep.
  - rewrite IH; [done|]. split; [apply Z.div_pos; lia|].
    apply Z.div_lt_upper_bound; lia.
Qed.

Lemma decimal_nonempty fuel n :
  0 <= n → starts_with_digit (decimal (S fuel) n "") = true.
Proof.
  intros Hn. pose proof (decimal_digits (S fuel) n Hn) as Hd.
  destruct (decimal (S fuel) n "") eqn:E; simpl in *.
  - exfalso. revert E. destruct (n / 10 =? 0); [done|].
    rewrite decimal_app. by destruct (decimal fuel (n / 10) "").
  - by destruct (is_digit a).
Qed.

Lemma skip_ws_id s :
  (match s with String c _ => is_space c | "" => false end) = false → skip_ws s = s.
Proof. destruct s; simpl; [done|]. by intros ->. Qed.

Lemma starts_with_digit_app s t :
  starts_with_digit s = true → starts_with_digit (s +:+ t) = true.
Proof. by destruct s. Qed.

Lemma take_digits_stop s v : starts_with_digit s = false → take_digits s v = (v, s).
Proof. destruct s; simpl; [done|]. by intros ->. Qed.

(** Reading back a number [to_string] wrote, when no digit follows it. *)
Lemma read_int_to_string n r :
  is_i32 n → starts_with_digit r = false → read_int (to_string n +:+ r) = Some (n, r).
Proof.
  intros Hn Hr. pose proof Hn as Hn'. unfold is_i32, I32_MAX in Hn'. unfold to_string, read_int.
  assert (∀ m, 0 <= m < 10 ^ Z.of_nat 10 →
    take_digits (decimal 10 m "" +:+ r) 0 = (m, r)) as Htd.
  { intros m Hm. rewrite <- decimal_app, take_digits_decimal by done.
    by apply take_digits_stop. }
  destruct (n <? 0) eqn:Hneg.
  - rewrite skip_ws_id by done. cbn -[decimal take_digits decide].
    rewrite starts_with_digit_app by (apply decimal_nonempty; lia).
    rewrite Htd by lia. rewrite Z.opp_involutive. by rewrite decide_True.
  - pose proof (decimal_nonempty 9 n ltac:(lia)) as Hd.
    destruct (decimal 10 n "") as [|c s] eqn:E; [done|]. simpl in Hd.
    rewrite skip_ws_id by (simpl; by apply is_digit_not_space).
    assert (∀ (X : Type) (a b d : X),
      match String c s +:+ r with String "-" _ => a | String "+" _ => b | _ => d end = d) as Hc.
    { intros. simpl. revert Hd. clear.
      destruct c as [[] [] [] [] [] [] [] []]; done. }
    assert (match String c s +:+ r with
            | String "-" s' => (true, s') | String "+" s' => (false, s')
            | _ => (false, String c s +:+ r) end = (false, String c s +:+ r)) as ->.
    { simpl. revert Hd. clear. destruct c as [[] [] [] [] [] [] [] []]; done. }
    rewrite starts_with_digit_app by done.
    specialize (Htd n ltac:(lia)). rewrite E in Htd. rewrite Htd.
    by rewrite decide_True.
Qed.

Lemma to_string_inj n m : is_i32 n → is_i32 m → to_string n = to_string m → n = m.
Proof.
  intros Hn Hm E.
  pose proof (read_int_to_string n "" Hn eq_refl) as H1.
  pose proof (read_int_to_string m "" Hm eq_refl) as H2.
  rewrite E in H1. congruence.
Qed.

(** No character of a printed number is [c], for [c] neither a digit nor a
    minus sign. *)
Lemma to_string_avoids n (c : ascii) :
  is_digit c = false → c ≠ "-"%char →
  all_chars (λ x, negb (bool_decide (x = c))) (to_string n) = true.
Proof.
  intros Hc Hm.
  assert (∀ s, all_chars is_digit s = true →
    all_chars (λ x, negb (bool_decide (x = c))) s = true) as Himp.
  { induction s as [|x s IH]; simpl; [done|]. intros [Hx Hs]%andb_true_iff.
    rewrite IH by done. rewrite bool_decide_eq_false_2 by congruence. done. }
  unfold to_string. destruct (n <? 0) eqn:E; cbn [all_chars].
  - rewrite bool_decide_eq_false_2 by congruence.
    rewrite Himp by (apply decimal_digits; lia). done.
  - apply Himp, decimal_digits. lia.
Qed.

Lemma take_word_app w r :
  all_chars (λ c, negb (is_space c)) w = true →
  (match r with String c _ => is_space c | "" => true end) = true →
  take_word (w +:+ r) = (w, r).
Proof.
  induction w as [|c w IH]; simpl; intros Hw Hr.
  - destruct r as [|c r]; simpl; [done|]. by rewrite Hr.
  - apply andb_true_iff in Hw as [Hc Hw]. rewrite (IH Hw Hr).
    by destruct (is_space c).
Qed.

(** Reading back a word without white space. *)
Lemma read_word_app w r :
  w ≠ "" → all_chars (λ c, negb (is_space c)) w = true →
  (match r with String c _ => is_space c | "" => true end) = true →
  read_word (w +:+ r) = Some (w, r).
Proof.
  intros Hne Hw Hr. unfold read_word.
  rewrite skip_ws_id.
  - rewrite take_word_app by done. by destruct w.
  - destruct w as [|c w]; [done|]. simpl in *. by destruct (is_space c).
Qed.

Lemma getlines_from_app cur l s :
  all_chars (λ c, negb (code c =? 10)) l = true →
  getlines_from cur (l +:+ s) = getlines_from (cur +:+ l) s.
Proof.
  revert cur. induction l as [|c l IH]; intros cur H; simpl.
  - by rewrite string_app_nil_r.
  - apply andb_true_iff in H as [Hc Hl]. destruct (code c =? 10); [done|].
    rewrite IH by done. by rewrite string_app_assoc.
Qed.

Lemma getlines_line l s :
  all_chars (λ c, negb (code c =? 10)) l = true →
  getlines (l +:+ String (ascii_of_N 10) s) = l :: getlines s.
Proof.
  intros H. unfold getlines. rewrite getlines_from_app by done. done.
Qed.
