(* ===== verification/Proto.v ===== *)
(** The types of [src/src/struct.h] and the messages and enumerations of
    [src/protofiles/raft.proto].

    A proto2 field is an [option]: [None] is the field whose has-bit is clear.
    Reading an unset field gives the declared default; [IsInitialized] asks
    that every [required] field is set. *)

From S2P Require Import Prelude.
From stdpp Require Import base list strings.

Open Scope Z_scope.

(** * [struct.h]: the node's own types *)

(** [enum RaftStatus]: the role of a node. *)
Inductive RaftStatus : Set := UNKNOWN | DEAD | LEADER | FOLLOWER | CANDIDATE.

#[export] Instance RaftStatus_eq_dec : EqDecision RaftStatus.
Proof. solve_decision. Defined.

(** [enum RaftOp] and [struct LogEntry] of [namespace raft]. *)
Module Struct.
Inductive RaftOp : Set := INSERT | DELETE | QUERY | INVALID.

Record LogEntry := mkLogEntry {
  term : Z;
  index : Z;
  op : RaftOp;
  key : string;
  val : string
}.
End Struct.

(** * [raft.proto] *)

(** [enum EntryOp], with the wire numbers of the file. *)
Module EntryOp.
Inductive t : Set := INVALID | INSERT | DELETE | QUERY.

Definition number (o : t) : Z :=
  match o with INVALID => 0 | INSERT => 1 | DELETE => 2 | QUERY => 3 end.

Definition of_number (n : Z) : option t :=
  if n =? 0 then Some INVALID
  else if n =? 1 then Some INSERT
  else if n =? 2 then Some DELETE
  else if n =? 3 then Some QUERY
  else None.

#[export] Instance eq_dec : EqDecision t.
Proof. solve_decision. Defined.
End EntryOp.

(** [PeerStatus.Status]. *)
Module Status.
Inductive t : Set := UNKNOWN | FOLLOWER | CANDIDATE | LEADER.

Definition number (s : t) : Z :=
  match s with UNKNOWN => 0 | FOLLOWER => 1 | CANDIDATE => 2 | LEADER => 3 end.

#[export] Instance eq_dec : EqDecision t.
Proof. solve_decision. Defined.
End Status.

Module VoteRequest.
Record t := mk {
  term : option Z;
  candidate_id : option string;
  last_log_index : option Z;
  last_term_index : option Z
}.
Definition empty : t := mk None None None None.
Definition get_term (m : t) : Z := default 0 m.(term).
Definition get_candidate_id (m : t) : string := default ""%string m.(candidate_id).
Definition IsInitialized (m : t) : bool :=
  bool_decide (is_Some m.(term)) && bool_decide (is_Some m.(candidate_id))
  && bool_decide (is_Some m.(last_log_index))
  && bool_decide (is_Some m.(last_term_index)).
End VoteRequest.

Module VoteReply.
Record t := mk { term : option Z; vote : option bool }.
Definition empty : t := mk None None.
Definition get_term (m : t) : Z := default 0 m.(term).
Definition get_vote (m : t) : bool := default false m.(vote).
Definition IsInitialized (m : t) : bool :=
  bool_decide (is_Some m.(term)) && bool_decide (is_Some m.(vote)).
End VoteReply.

(** The [LogEntry] message: the one [consensus_log.h] stores, being the
    [LogEntry] of the global namespace. *)
Module LogEntry.
Record t := mk {
  op : option EntryOp.t;
  key : option string;
  value : option string
}.
Definition get_op (m : t) : EntryOp.t := default EntryOp.INVALID m.(op).
End LogEntry.

Module AppendRequest.
Record t := mk {
  term : option Z;
  candidate_id : option string;
  prev_log_index : option Z;
  prev_log_term : option Z;
  entries : list LogEntry.t
}.
Definition empty : t := mk None None None None [].
Definition get_term (m : t) : Z := default 0 m.(term).
Definition get_candidate_id (m : t) : string := default ""%string m.(candidate_id).
Definition IsInitialized (m : t) : bool :=
  bool_decide (is_Some m.(term)) && bool_decide (is_Some m.(candidate_id))
  && bool_decide (is_Some m.(prev_log_index))
  && bool_decide (is_Some m.(prev_log_term))
  && forallb (λ e, bool_decide (is_Some e.(LogEntry.op))) m.(entries).
End AppendRequest.

Module AppendReply.
Record t := mk { term : option Z; success : option bool }.
Definition empty : t := mk None None.
Definition get_term (m : t) : Z := default 0 m.(term).
Definition get_success (m : t) : bool := default false m.(success).
Definition IsInitialized (m : t) : bool :=
  bool_decide (is_Some m.(term)) && bool_decide (is_Some m.(success)).
End AppendReply.

Module PeerStatus.
Record t := mk { term : option Z; status : option Status.t }.
Definition empty : t := mk None None.
Definition get_status (m : t) : Status.t := default Status.FOLLOWER m.(status).
Definition IsInitialized (m : t) : bool :=
  bool_decide (is_Some m.(term)) && bool_decide (is_Some m.(status)).
End PeerStatus.

Module OpRequest.
Record t := mk {
  op : option EntryOp.t;
  key : option string;
  value : option string
}.
Definition empty : t := mk None None None.
Definition get_op (m : t) : EntryOp.t := default EntryOp.INVALID m.(op).
Definition IsInitialized (m : t) : bool := bool_decide (is_Some m.(op)).
End OpRequest.

Module OpReply.
Record t := mk { success : option bool }.
Definition empty : t := mk None.
Definition get_success (m : t) : bool := default false m.(success).
Definition IsInitialized (m : t) : bool := bool_decide (is_Some m.(success)).
End OpReply.

(** [message Empty {}]. *)
Module Empty.
Inductive t : Set := mk.
End Empty.

Lemma entry_op_number_inv (o : EntryOp.t) : EntryOp.of_number (EntryOp.number o) = Some o.
Proof. by destruct o. Qed.
