(* ===== verification/Sync.v ===== *)
(** The locks of a node ([src/src/raft.h]): the reader-writer lock [log_lock_]
    ([struct RWLock]) over the platform's [pthread_rwlock_t], and the
    [std::mutex] [lock_] that the daemon and the handlers take.

    The platform lock is an interface: [PthreadRWLock] has its calls and
    [PthreadRWLockLaws] what POSIX documents of them.  [ReadLock], [WriteLock]
    and [Unlock] are the wrappers of the source, written against the
    interface; [counting] is an implementation that meets the laws. *)

From S2P Require Import Prelude.
From stdpp Require Import base tactics.

(** A call that would block returns [None]. *)
Class PthreadRWLock (L : Type) := {
  pthread_rwlock_init : L;
  pthread_rwlock_rdlock : L → option L;
  pthread_rwlock_wrlock : L → option L;
  pthread_rwlock_unlock : L → L
}.

(** A lock taken and released is as it was; no reader enters beside a writer
    and no writer beside anyone; a lock nobody holds blocks nobody. *)
Class PthreadRWLockLaws (L : Type) `{PthreadRWLock L} := {
  unlock_rdlock : ∀ l l', pthread_rwlock_rdlock l = Some l' → pthread_rwlock_unlock l' = l;
  unlock_wrlock : ∀ l l', pthread_rwlock_wrlock l = Some l' → pthread_rwlock_unlock l' = l;
  rdlock_init : is_Some (pthread_rwlock_rdlock pthread_rwlock_init);
  wrlock_init : is_Some (pthread_rwlock_wrlock pthread_rwlock_init);
  wrlock_excludes : ∀ l l', pthread_rwlock_wrlock l = Some l' →
    pthread_rwlock_rdlock l' = None ∧ pthread_rwlock_wrlock l' = None;
  rdlock_excludes_writer : ∀ l l', pthread_rwlock_rdlock l = Some l' →
    pthread_rwlock_wrlock l' = None
}.

Section RWLock.
Context {L : Type} `{PthreadRWLock L}.

Definition ReadLock (rw_lock : L) : option L := pthread_rwlock_rdlock rw_lock.
Definition WriteLock (rw_lock : L) : option L := pthread_rwlock_wrlock rw_lock.
Definition Unlock (rw_lock : L) : L := pthread_rwlock_unlock rw_lock.
End RWLock.

(** * A lock that counts its readers *)

Record counting := Counting { readers : nat; writer : bool }.

#[export] Instance counting_rwlock : PthreadRWLock counting := {
  pthread_rwlock_init := Counting 0 false;
  pthread_rwlock_rdlock l :=
    if writer l then None else Some (Counting (S (readers l)) false);
  pthread_rwlock_wrlock l :=
    match readers l, writer l with
    | O, false => Some (Counting 0 true)
    | _, _ => None
    end;
  pthread_rwlock_unlock l :=
    if writer l then Counting (readers l) false
    else Counting (pred (readers l)) false
}.

#[export] Instance counting_rwlock_laws : PthreadRWLockLaws counting.
Proof.
  split; simpl.
  - intros [r w] l' E; simpl in *; by_cases.
  - intros [r w] l' E; simpl in *; by_cases.
  - by eexists.
  - by eexists.
  - intros [r w] l' E; simpl in *; by_cases.
  - intros [r w] l' E; simpl in *; by_cases.
Qed.

(** * [std::mutex]

    [lock_] is a [std::mutex] of the Standard Library of C++: it is held or it
    is not.  [std::unique_lock<std::mutex> locker(lock_)] takes it - the thread
    waits, [None], as long as another one holds it - and [locker.unlock()] gives
    it back. *)

Inductive mutex := Unlocked | Locked.

#[export] Instance mutex_eq_dec : EqDecision mutex.
Proof. solve_decision. Defined.

Definition mutex_lock (m : mutex) : option mutex :=
  match m with Unlocked => Some Locked | Locked => None end.

Definition mutex_unlock (m : mutex) : mutex := Unlocked.

(** Who takes the mutex finds it free and leaves it held. *)
Lemma mutex_lock_Some a b : mutex_lock a = Some b → a = Unlocked ∧ b = Locked.
Proof. by destruct a; intros [= <-]. Qed.
