(* ===== verification/Node.v ===== *)
(** The node: the state of [class Raft] ([src/src/raft.h]), its constructor,
    the four service methods, the status mappings and [Kill].

    A method that takes [lock_] is the function its critical section
    computes; who holds the lock is the business of [Cluster].  The clock is
    an argument: [now] is the millisecond count of
    [std::chrono::system_clock]. *)

From S2P Require Import Prelude Strings Proto Sync.
From stdpp Require Import base gmap sets list strings.

Open Scope Z_scope.

(** [class ConsensusLog]: a vector of [LogEntry] messages with its size. *)
Module ConsensusLog.
Record t := mk { logs_ : list LogEntry.t }.
Definition init : t := mk [].
Definition size (l : t) : Z := Z.of_nat (length l.(logs_)).
End ConsensusLog.

(** The data members of [class Raft].  [commit_index_] and [last_applied_]
    have no initialiser: [None] is their indeterminate value.  The stubs of
    [LaunchRaftDemon] are local to the daemon ([Daemon]); [log_lock_] is the
    argument of [Op]. *)
Record Raft := mkRaft {
  rpc_addr_ : string;
  rpc_port_ : Z;
  self_id_ : string;
  vote_for_ : string;
  term_ : Z;
  status_ : RaftStatus;
  leader_active_time_ : Z;
  is_dead_ : bool;
  commit_index_ : option Z;
  last_applied_ : option Z;
  peers_ : gset string;
  peers_next_index_ : gmap string Z;
  logs_ : ConsensusLog.t
}.

(** * Assignments to one member *)

Definition set_vote_for (v : string) (r : Raft) : Raft :=
  mkRaft r.(rpc_addr_) r.(rpc_port_) r.(self_id_) v r.(term_) r.(status_)
    r.(leader_active_time_) r.(is_dead_) r.(commit_index_) r.(last_applied_)
    r.(peers_) r.(peers_next_index_) r.(logs_).
Definition set_term (t : Z) (r : Raft) : Raft :=
  mkRaft r.(rpc_addr_) r.(rpc_port_) r.(self_id_) r.(vote_for_) t r.(status_)
    r.(leader_active_time_) r.(is_dead_) r.(commit_index_) r.(last_applied_)
    r.(peers_) r.(peers_next_index_) r.(logs_).
Definition set_status (s : RaftStatus) (r : Raft) : Raft :=
  mkRaft r.(rpc_addr_) r.(rpc_port_) r.(self_id_) r.(vote_for_) r.(term_) s
    r.(leader_active_time_) r.(is_dead_) r.(commit_index_) r.(last_applied_)
    r.(peers_) r.(peers_next_index_) r.(logs_).
Definition set_active_time (t : Z) (r : Raft) : Raft :=
  mkRaft r.(rpc_addr_) r.(rpc_port_) r.(self_id_) r.(vote_for_) r.(term_) r.(status_)
    t r.(is_dead_) r.(commit_index_) r.(last_applied_)
    r.(peers_) r.(peers_next_index_) r.(logs_).
Definition set_is_dead (b : bool) (r : Raft) : Raft :=
  mkRaft r.(rpc_addr_) r.(rpc_port_) r.(self_id_) r.(vote_for_) r.(term_) r.(status_)
    r.(leader_active_time_) b r.(commit_index_) r.(last_applied_)
    r.(peers_) r.(peers_next_index_) r.(logs_).
Definition set_indices (ci la : option Z) (r : Raft) : Raft :=
  mkRaft r.(rpc_addr_) r.(rpc_port_) r.(self_id_) r.(vote_for_) r.(term_) r.(status_)
    r.(leader_active_time_) r.(is_dead_) ci la
    r.(peers_) r.(peers_next_index_) r.(logs_).
Definition set_peers (p : gset string) (r : Raft) : Raft :=
  mkRaft r.(rpc_addr_) r.(rpc_port_) r.(self_id_) r.(vote_for_) r.(term_) r.(status_)
    r.(leader_active_time_) r.(is_dead_) r.(commit_index_) r.(last_applied_)
    p r.(peers_next_index_) r.(logs_).
Definition set_next_index (m : gmap string Z) (r : Raft) : Raft :=
  mkRaft r.(rpc_addr_) r.(rpc_port_) r.(self_id_) r.(vote_for_) r.(term_) r.(status_)
    r.(leader_active_time_) r.(is_dead_) r.(commit_index_) r.(last_applied_)
    r.(peers_) m r.(logs_).

(** * Construction, identity and addresses *)

(** [Raft::Raft]: [peers_addrs[peer_id]] is undefined outside the vector
    ([None]); [term_(-1)] is the largest [uint64_t]. *)
Definition construct (addr : string) (port : Z) (peer_id : Z)
    (peers_addrs : list string) (now : Z) : option Raft :=
  if decide (0 <= peer_id) then
    match peers_addrs !! Z.to_nat peer_id with
    | None => None
    | Some self =>
        Some (mkRaft addr port self "" (u64 (-1)) FOLLOWER now false None None
                (list_to_set peers_addrs) ∅ ConsensusLog.init)
    end
  else None.

(** The address [ThreadMain] binds the server to. *)
Definition bind_address (r : Raft) : string :=
  "tcp://" +:+ r.(rpc_addr_) +:+ ":" +:+ to_string r.(rpc_port_).

Definition GetInfo (r : Raft) : string := r.(rpc_addr_) +:+ to_string r.(rpc_port_).

(** * Status mappings *)

Definition StatusMapping (r : Raft) : Status.t :=
  match r.(status_) with
  | FOLLOWER => Status.FOLLOWER
  | CANDIDATE => Status.CANDIDATE
  | LEADER => Status.LEADER
  | _ => Status.UNKNOWN
  end.

Definition PeerStatusMapping (status : Status.t) : RaftStatus :=
  match status with
  | Status.FOLLOWER => FOLLOWER
  | Status.CANDIDATE => CANDIDATE
  | Status.LEADER => LEADER
  | _ => UNKNOWN
  end.

(** * The service methods *)

Definition GetStatus (e : Empty.t) (r : Raft) : PeerStatus.t :=
  PeerStatus.mk (Some r.(term_)) (Some (StatusMapping r)).

(** [Op]: [None] is a call still blocked on [log_lock_]. *)
Definition Op {L} `{PthreadRWLock L} (e : OpRequest.t) (r : Raft) (log_lock_ : L)
    : option (L * OpReply.t) :=
  if decide (r.(status_) ≠ LEADER) then Some (log_lock_, OpReply.mk (Some false))
  else
    match OpRequest.get_op e with
    | EntryOp.DELETE | EntryOp.INSERT =>
        l ← WriteLock log_lock_; Some (Unlock l, OpReply.mk (Some true))
    | EntryOp.QUERY =>
        l ← ReadLock log_lock_; Some (Unlock l, OpReply.mk (Some true))
    | _ => Some (log_lock_, OpReply.mk (Some true))
    end.

Definition Vote (request : VoteRequest.t) (now : Z) (r : Raft) : Raft * VoteReply.t :=
  if decide (r.(status_) = LEADER ∨ r.(status_) = CANDIDATE) then
    (r, VoteReply.mk (Some r.(term_)) (Some false))
  else if decide (r.(vote_for_) ≠ "") then
    (r, VoteReply.mk (Some r.(term_)) (Some false))
  else
    (set_active_time now (set_vote_for (VoteRequest.get_candidate_id request) r),
     VoteReply.mk (Some r.(term_)) (Some true)).

(** [int term = request.term()] narrows to 32 bits, and the comparison and the
    assignment convert it back to [uint64_t]. *)
Definition AppendMsg (request : AppendRequest.t) (now : Z) (r : Raft)
    : Raft * AppendReply.t :=
  let reply_term := r.(term_) in
  let r := set_active_time now r in
  let term := i32 (AppendRequest.get_term request) in
  let leader_id := AppendRequest.get_candidate_id request in
  if r.(term_) <=? u64 term then
    let r := set_term (u64 term) r in
    let r :=
      if decide (r.(status_) = CANDIDATE ∨ r.(status_) = LEADER) then
        set_vote_for leader_id (set_status FOLLOWER r)
      else r in
    (r, AppendReply.mk (Some reply_term) (Some true))
  else (r, AppendReply.mk (Some reply_term) (Some false)).

(** * Kill

    [Kill] runs outside [lock_] and waits for the two threads, so it is three
    writes with waits between them: [Kill_begin] decides whether there is
    anything to do, [Kill_end] is the last write. *)

Definition Kill_begin (r : Raft) : option Raft :=
  if decide (r.(is_dead_) = false) then Some (set_is_dead true r) else None.

Definition Kill_end (r : Raft) : Raft := set_status DEAD r.
