(* ===== verification/NodeFacts.v ===== *)
(** What the methods of the node do: voting, heartbeats, operations, status
    and addresses.  The lemmas in the [raft] hint databases are the ones the
    cluster files use. *)

From S2P Require Import Prelude Strings Proto Sync Node.
From stdpp Require Import base gmap sets list strings.

Open Scope Z_scope.

(** * The abstract rules the handlers are measured against *)

(** Adoption of a term from a leader's message over unbounded integers: a
    message of an older term is refused, any other is accepted and its term
    adopted. *)
Definition spec_append (current request : Z) : bool * Z :=
  if current <=? request then (true, request) else (false, current).

(** A request as a client of the node's service sees it. *)
Inductive Call :=
  | CVote (request : VoteRequest.t) (now : Z)
  | CAppend (request : AppendRequest.t) (now : Z).

(** The identity the caller gives. *)
Definition caller_id (c : Call) : string :=
  match c with
  | CVote q _ => VoteRequest.get_candidate_id q
  | CAppend q _ => AppendRequest.get_candidate_id q
  end.

(** One call: the new state and whether it granted a vote. *)
Definition serve (c : Call) (r : Raft) : Raft * bool :=
  match c with
  | CVote q now => let '(r', rep) := Vote q now r in (r', VoteReply.get_vote rep)
  | CAppend q now => let '(r', _) := AppendMsg q now r in (r', false)
  end.

(** A sequence of calls between two iterations of the daemon: the final state
    and the number of votes granted. *)
Fixpoint serve_all (cs : list Call) (r : Raft) : Raft * nat :=
  match cs with
  | [] => (r, O)
  | c :: cs =>
      let '(r, g) := serve c r in
      let '(r, n) := serve_all cs r in
      (r, ((if g then 1 else 0) + n)%nat)
  end.

(** * Concrete nodes and messages for the witnesses *)

Definition sample_addrs : list string := ["tcp://a:1"; "tcp://b:2"; "tcp://c:3"].

(** A follower in term 4 that has not voted. *)
Definition sample_node : Raft :=
  mkRaft "a" 1 "tcp://a:1" "" 4 FOLLOWER 1000 false None None
    (list_to_set sample_addrs) ∅ ConsensusLog.init.

Definition sample_vote (id : string) (t : Z) : VoteRequest.t :=
  VoteRequest.mk (Some t) (Some id) (Some (u64 (-1))) (Some (u64 (-1))).

Definition sample_heartbeat (id : string) (t : Z) : AppendRequest.t :=
  AppendRequest.mk (Some t) (Some id) None None [].

(** * Case analysis of the handlers *)

Lemma Vote_cases q now r :
  (r.(status_) ≠ LEADER ∧ r.(status_) ≠ CANDIDATE ∧ r.(vote_for_) = "" ∧
   Vote q now r = (set_active_time now (set_vote_for (VoteRequest.get_candidate_id q) r),
                   VoteReply.mk (Some r.(term_)) (Some true)))
  ∨ ((r.(status_) = LEADER ∨ r.(status_) = CANDIDATE ∨ r.(vote_for_) ≠ "") ∧
     Vote q now r = (r, VoteReply.mk (Some r.(term_)) (Some false))).
Proof. unfold Vote. case_decide; [|case_decide]; naive_solver. Qed.

Lemma AppendMsg_cases q now r :
  let t := u64 (i32 (AppendRequest.get_term q)) in
  (t < r.(term_) ∧
   AppendMsg q now r = (set_active_time now r, AppendReply.mk (Some r.(term_)) (Some false)))
  ∨ (r.(term_) <= t ∧ (r.(status_) = CANDIDATE ∨ r.(status_) = LEADER) ∧
     AppendMsg q now r =
       (set_vote_for (AppendRequest.get_candidate_id q)
          (set_status FOLLOWER (set_term t (set_active_time now r))),
        AppendReply.mk (Some r.(term_)) (Some true)))
  ∨ (r.(term_) <= t ∧ r.(status_) ≠ CANDIDATE ∧ r.(status_) ≠ LEADER ∧
     AppendMsg q now r =
       (set_term t (set_active_time now r), AppendReply.mk (Some r.(term_)) (Some true))).
Proof.
  intros t. unfold AppendMsg. fold t.
  change (term_ (set_active_time now r)) with (term_ r).
  change (status_ (set_term t (set_active_time now r))) with (status_ r).
  destruct (Z.leb_spec r.(term_) t).
  - case_decide; naive_solver.
  - left. naive_solver.
Qed.

Lemma serve_grant c r r' :
  serve c r = (r', true) → r.(vote_for_) = "" ∧ r'.(vote_for_) = caller_id c.
Proof.
  destruct c as [q now|q now]; simpl.
  - destruct (Vote_cases q now r) as [(?&?&?&->)|[? ->]]; simpl;
      intros [= <-]; done.
  - destruct (AppendMsg q now r); naive_solver.
Qed.

Lemma serve_keeps_vote c r :
  caller_id c ≠ "" → r.(vote_for_) ≠ "" → (serve c r).1.(vote_for_) ≠ "" ∧ (serve c r).2 = false.
Proof.
  intros Hid Hv. destruct c as [q now|q now]; simpl in *.
  - destruct (Vote_cases q now r) as [(?&?&?&->)|[? ->]]; simpl; naive_solver.
  - destruct (AppendMsg_cases q now r) as [[? ->]|[(?&?&->)|(?&?&?&->)]]; simpl; done.
Qed.

Lemma serve_all_voted cs r :
  Forall (λ c, caller_id c ≠ "") cs → r.(vote_for_) ≠ "" → (serve_all cs r).2 = O.
Proof.
  intros Hcs. revert r. induction Hcs as [|c cs Hc Hcs IH]; intros r Hv; [done|].
  simpl. pose proof (serve_keeps_vote c r Hc Hv) as [Hv' Hg].
  destruct (serve c r) as [r1 g]; simpl in *. subst g.
  specialize (IH r1 Hv'). destruct (serve_all cs r1); simpl in *. lia.
Qed.

Lemma serve_term c r : is_u64 r.(term_) →
  r.(term_) <= (serve c r).1.(term_) ∧ is_u64 (serve c r).1.(term_).
Proof.
  intros Ht. destruct c as [q now|q now]; simpl.
  - destruct (Vote_cases q now r) as [(?&?&?&->)|[? ->]]; simpl; split; done || lia.
  - pose proof (u64_range (i32 (AppendRequest.get_term q))).
    destruct (AppendMsg_cases q now r) as [[? ->]|[(?&?&->)|(?&?&?&->)]]; simpl;
      split; done || lia.
Qed.

Lemma serve_identity c r :
  let r' := (serve c r).1 in
  r'.(self_id_) = r.(self_id_) ∧ r'.(peers_) = r.(peers_) ∧ r'.(is_dead_) = r.(is_dead_)
  ∧ r'.(logs_) = r.(logs_).
Proof.
  destruct c as [q now|q now]; simpl.
  - by destruct (Vote_cases q now r) as [(?&?&?&->)|[? ->]].
  - by destruct (AppendMsg_cases q now r) as [[? ->]|[(?&?&->)|(?&?&?&->)]].
Qed.

(** * Votes *)

(** C11: the vote handler grants exactly when the node neither leads nor runs
    for election and its vote is free; a grant records the candidate and the
    time and nothing else; a refusal changes nothing; every reply carries the
    node's own term. *)
Theorem vote_grants_iff_free q now r :
  let '(r', reply) := Vote q now r in
  VoteReply.term reply = Some r.(term_) ∧
  (VoteReply.get_vote reply = true ↔
     r.(status_) ≠ LEADER ∧ r.(status_) ≠ CANDIDATE ∧ r.(vote_for_) = "") ∧
  r' = (if VoteReply.get_vote reply
        then set_active_time now (set_vote_for (VoteRequest.get_candidate_id q) r) else r).
Proof.
  destruct (Vote_cases q now r) as [(?&?&?&->)|[? ->]]; simpl; naive_solver.
Qed.

(** However vote requests and heartbeats interleave between two
    iterations of the daemon, the node grants at most one vote. *)
Theorem at_most_one_grant_between_iterations cs r :
  Forall (λ c, caller_id c ≠ "") cs → ((serve_all cs r).2 <= 1)%nat.
Proof.
  intros Hcs. revert r. induction Hcs as [|c cs Hc Hcs IH]; intros r; [simpl; lia|].
  simpl. destruct (serve c r) as [r1 g] eqn:E.
  destruct g.
  - destruct (serve_grant c r r1 E) as [_ Hv].
    pose proof (serve_all_voted cs r1 Hcs ltac:(by rewrite Hv)).
    destruct (serve_all cs r1); simpl in *; lia.
  - specialize (IH r1). destruct (serve_all cs r1); simpl in *; lia.
Qed.

Lemma at_most_one_grant_between_iterations_witness :
  let cs := [CVote (sample_vote "tcp://b:2" 5) 7; CAppend (sample_heartbeat "tcp://c:3" 5) 8;
             CVote (sample_vote "tcp://c:3" 6) 9] in
  (serve_all cs sample_node).2 = 1%nat ∧ ((serve_all cs sample_node).2 <= 1)%nat.
Proof.
  split; [vm_compute; reflexivity|].
  apply at_most_one_grant_between_iterations. repeat constructor; discriminate.
Defined.

(** The vote handler never reads the term or the log position of the
    request: requests of the same candidate are answered alike whatever they
    carry, so a candidate of an old term is granted a free vote and one of a
    new term is refused a vote given in an old one. *)
Theorem vote_ignores_term_and_log q q' now r :
  VoteRequest.get_candidate_id q = VoteRequest.get_candidate_id q' →
  Vote q now r = Vote q' now r.
Proof. intros E. unfold Vote. by rewrite E. Qed.

Lemma vote_ignores_term_and_log_witness :
  Vote (sample_vote "tcp://b:2" 0) 7 sample_node = Vote (sample_vote "tcp://b:2" 9) 7 sample_node
  ∧ VoteReply.get_vote (Vote (sample_vote "tcp://b:2" 0) 7 sample_node).2 = true.
Proof. split; [by apply vote_ignores_term_and_log|vm_compute; reflexivity]. Defined.

(** * Heartbeats *)

(** C12: for terms that fit a non-negative [int], [AppendMsg] implements the
    abstract rule: it succeeds exactly on a term not older than the node's,
    adopts it, and replies with the term it had. *)
Theorem append_refines_spec q now r :
  0 <= AppendRequest.get_term q <= I32_MAX →
  let '(r', reply) := AppendMsg q now r in
  (AppendReply.get_success reply, r'.(term_))
    = spec_append r.(term_) (AppendRequest.get_term q)
  ∧ AppendReply.term reply = Some r.(term_).
Proof.
  intros Hq. unfold spec_append.
  pose proof (u64_i32_small _ Hq) as E.
  destruct (AppendMsg_cases q now r) as [[Hlt ->]|[(Hle&?&->)|(Hle&?&?&->)]]; simpl in *;
    rewrite ?E in *; split; try done; destruct (Z.leb_spec r.(term_) (AppendRequest.get_term q));
    done || lia.
Qed.

Lemma append_refines_spec_witness :
  let '(r', reply) := AppendMsg (sample_heartbeat "tcp://b:2" 6) 7 sample_node in
  (AppendReply.get_success reply, r'.(term_)) = spec_append sample_node.(term_) 6
  ∧ AppendReply.term reply = Some sample_node.(term_).
Proof.
  apply (append_refines_spec (sample_heartbeat "tcp://b:2" 6) 7 sample_node).
  vm_compute. split; discriminate.
Defined.

(** A request whose term does not fit an [int] is read as a term near
    2^64: any node below it accepts the request and is left with that term
    instead of the one sent. *)
Theorem append_wide_term_is_misread q now r :
  2147483648 <= AppendRequest.get_term q < U32 →
  r.(term_) <= AppendRequest.get_term q →
  let '(r', reply) := AppendMsg q now r in
  AppendReply.get_success reply = true ∧
  r'.(term_) = AppendRequest.get_term q + (U64 - U32).
Proof.
  intros Hq Hr. pose proof (u64_i32_negative _ Hq) as E.
  destruct (AppendMsg_cases q now r) as [[Hlt ->]|[(Hle&?&->)|(Hle&?&?&->)]]; simpl in *;
    rewrite ?E in *; [|done|done].
  unfold U64, U32 in *. lia.
Qed.

Lemma append_wide_term_is_misread_witness :
  let '(r', reply) := AppendMsg (sample_heartbeat "tcp://b:2" 2147483648) 7 sample_node in
  AppendReply.get_success reply = true ∧ r'.(term_) = 18446744071562067968.
Proof.
  apply (append_wide_term_is_misread (sample_heartbeat "tcp://b:2" 2147483648) 7 sample_node);
    vm_compute; [split; [discriminate|reflexivity]|discriminate].
Defined.

(** No sequence of vote requests and heartbeats, whatever they carry,
    ever lowers a node's term or takes it out of [uint64_t]. *)
Theorem handlers_never_lower_term cs r :
  is_u64 r.(term_) →
  r.(term_) <= (serve_all cs r).1.(term_) ∧ is_u64 (serve_all cs r).1.(term_).
Proof.
  revert r. induction cs as [|c cs IH]; intros r Hr; [simpl; split; done || lia|].
  simpl. pose proof (serve_term c r Hr) as [Hle Hr1].
  destruct (serve c r) as [r1 g]; simpl in *.
  specialize (IH r1 Hr1). destruct (serve_all cs r1); simpl in *. split; lia || tauto.
Qed.

Lemma handlers_never_lower_term_witness :
  let cs := [CAppend (sample_heartbeat "tcp://b:2" (-1)) 7;
             CAppend (sample_heartbeat "tcp://b:2" 3) 8] in
  4 <= (serve_all cs sample_node).1.(term_) ∧ is_u64 (serve_all cs sample_node).1.(term_).
Proof.
  apply (handlers_never_lower_term _ sample_node). vm_compute. split; [discriminate|reflexivity].
Defined.

(** Every heartbeat, accepted or refused, postpones the election timer;
    it makes a candidate or a leader step down and follow the sender exactly
    when it is accepted. *)
Theorem heartbeat_effect q now r :
  let '(r', reply) := AppendMsg q now r in
  r'.(leader_active_time_) = now ∧
  (if AppendReply.get_success reply
   then r'.(status_) ≠ LEADER ∧ r'.(status_) ≠ CANDIDATE ∧
        r'.(vote_for_) = (if decide (r.(status_) = CANDIDATE ∨ r.(status_) = LEADER)
                          then AppendRequest.get_candidate_id q else r.(vote_for_))
   else r' = set_active_time now r).
Proof.
  destruct (AppendMsg_cases q now r) as [[? ->]|[(?&?&->)|(?&?&?&->)]]; simpl;
    split; try done.
  - rewrite decide_True by done. done.
  - rewrite decide_False by tauto. done.
Qed.

(** C16: a node as constructed holds the term 2^64 - 1, the value of
    [term_(-1)], so it refuses the heartbeat of a leader of any term below
    2^31, and the reply carries that term back to the leader. *)
Theorem fresh_node_refuses_leader addr port id addrs t0 r q now :
  construct addr port id addrs t0 = Some r →
  0 <= AppendRequest.get_term q <= I32_MAX →
  AppendMsg q now r =
    (set_active_time now r, AppendReply.mk (Some (U64 - 1)) (Some false)).
Proof.
  intros Hr Hq. unfold construct in Hr.
  repeat (case_decide || case_match); simplify_eq. unfold AppendMsg; simpl.
  rewrite (u64_i32_small _ Hq).
  destruct (Z.leb_spec (u64 (-1)) (AppendRequest.get_term q)) as [Hle|]; [|done].
  exfalso. revert Hle. unfold I32_MAX in Hq. cint.
Qed.

Lemma fresh_node_refuses_leader_witness :
  ∃ r, construct "b" 2 1 sample_addrs 0 = Some r ∧
    AppendMsg (sample_heartbeat "tcp://a:1" 0) 7 r =
      (set_active_time 7 r, AppendReply.mk (Some (U64 - 1)) (Some false)).
Proof.
  eexists. split; [reflexivity|].
  apply (fresh_node_refuses_leader "b" 2 1 sample_addrs 0); [reflexivity|].
  vm_compute. split; discriminate.
Defined.

(** * Operations, status, identity *)

Section OpSpec.
Context {L : Type} `{PthreadRWLockLaws L}.

(** The lock a client operation takes, by its kind. *)
Definition op_lock (o : EntryOp.t) (l : L) : option L :=
  match o with
  | EntryOp.INSERT | EntryOp.DELETE => WriteLock l
  | EntryOp.QUERY => ReadLock l
  | EntryOp.INVALID => Some l
  end.

(** A client operation succeeds exactly on a leader; it leaves the log
    lock as it found it and waits only on a leader whose lock is held
    against it; an operation that is not [QUERY], [INSERT] or [DELETE] is
    reported done all the same. *)
Theorem op_balanced_and_leader_only e r (log_lock_ : L) :
  Op e r log_lock_ =
    (if decide (r.(status_) = LEADER)
     then (λ _, (log_lock_, OpReply.mk (Some true))) <$> op_lock (OpRequest.get_op e) log_lock_
     else Some (log_lock_, OpReply.mk (Some false))).
Proof.
  unfold Op, op_lock, ReadLock, WriteLock, Unlock.
  destruct (decide (r.(status_) = LEADER)) as [Hl|Hl];
    [rewrite decide_False by tauto|by rewrite decide_True].
  destruct (OpRequest.get_op e); simpl; try done.
  - destruct (pthread_rwlock_wrlock log_lock_) as [l|] eqn:E; simpl; [|done].
    by rewrite (unlock_wrlock _ _ E).
  - destruct (pthread_rwlock_wrlock log_lock_) as [l|] eqn:E; simpl; [|done].
    by rewrite (unlock_wrlock _ _ E).
  - destruct (pthread_rwlock_rdlock log_lock_) as [l|] eqn:E; simpl; [|done].
    by rewrite (unlock_rdlock _ _ E).
Qed.
End OpSpec.

Lemma op_balanced_and_leader_only_witness :
  let leader := set_status LEADER sample_node in
  let e := OpRequest.mk (Some EntryOp.INSERT) None None in
  Op e leader (Counting 0 false) = Some (Counting 0 false, OpReply.mk (Some true))
  ∧ Op e leader (Counting 2 false) = None.
Proof.
  split; rewrite (op_balanced_and_leader_only (L := counting)); reflexivity.
Defined.

(** [GetStatus] reports the node's term and a status that maps back to
    the node's role, except that a dead node is reported [UNKNOWN]; and every
    status on the wire is the report of its own image. *)
Theorem status_report_roundtrip r s :
  PeerStatus.term (GetStatus Empty.mk r) = Some r.(term_) ∧
  PeerStatusMapping (PeerStatus.get_status (GetStatus Empty.mk r))
    = (if decide (r.(status_) = DEAD) then UNKNOWN else r.(status_)) ∧
  StatusMapping (set_status (PeerStatusMapping s) r) = s.
Proof.
  split; [done|]. split; [|by destruct s].
  unfold GetStatus, StatusMapping; simpl. by destruct (status_ r).
Qed.

(** Killing is one-shot: the first call marks the node dead, every later
    one finds nothing to do, and the node ends [DEAD] with its term, vote and
    peers as they were. *)
Theorem kill_once r r' :
  Kill_begin r = Some r' →
  r'.(is_dead_) = true ∧ Kill_begin r' = None ∧ Kill_begin (Kill_end r') = None ∧
  (Kill_end r').(status_) = DEAD ∧
  StatusMapping (Kill_end r') = Status.UNKNOWN ∧
  (Kill_end r').(term_) = r.(term_) ∧ (Kill_end r').(vote_for_) = r.(vote_for_) ∧
  (Kill_end r').(peers_) = r.(peers_).
Proof. unfold Kill_begin. intros E. case_decide; naive_solver. Qed.

Lemma kill_once_witness :
  Kill_begin sample_node = Some (set_is_dead true sample_node) ∧
  Kill_begin (set_is_dead true sample_node) = None.
Proof.
  pose proof (kill_once sample_node (set_is_dead true sample_node) eq_refl) as H.
  split; [reflexivity|apply H].
Defined.
