(* ===== verification/Daemon.v ===== *)
(** The daemon of a node: [Raft::LaunchRaftDemon] ([src/src/raft.h]).

    The loop is cut where another thread can run: at the test of [is_dead_],
    at the acquisition of [lock_], and at each remote call, during which
    [lock_] stays held.  [Pc] says where the thread is; the functions below
    are the code between two cuts.  Random draws, the clock and the iteration
    order of [peers_] are arguments.

    The map [channels] holds [std::unique_ptr]s: [None] is the null pointer,
    [Some p] owns the stub [p].  [stubs] are the stubs allocated and not yet
    deleted.  A null dereference, a use after free and a double delete are the
    result [None] of the function that would do it. *)

From S2P Require Import Prelude Strings Proto Node.
From stdpp Require Import base gmap sets list strings.

Open Scope Z_scope.

(** * The stubs *)

Record Channels := mkChannels {
  channels : gmap string (option nat);
  stubs : gset nat;
  next_stub : nat
}.

Definition no_channels : Channels := mkChannels ∅ ∅ 0.

(** [channels[s] = unique_ptr(new RaftService_Stub(create_rpc_channel(s), true))]:
    the pointer the entry held before, if any, is deleted. *)
Definition assign_new_stub (s : string) (c : Channels) : Channels :=
  let p := c.(next_stub) in
  mkChannels (<[s := Some p]> c.(channels))
    ({[p]} ∪ (match c.(channels) !! s with
              | Some (Some q) => c.(stubs) ∖ {[q]}
              | _ => c.(stubs)
              end))
    (S p).

(** The loop over [peers_] that creates one stub per peer but the node itself. *)
Fixpoint create_channels (self : string) (order : list string) (c : Channels) : Channels :=
  match order with
  | [] => c
  | s :: order =>
      if decide (s = self) then create_channels self order c
      else create_channels self order (assign_new_stub s c)
  end.

(** [channels[peer]->...]: [operator[]] inserts a null pointer for a missing
    key, and calling through a null or dangling pointer is undefined. *)
Definition deref (peer : string) (c : Channels) : option nat :=
  match c.(channels) !! peer with
  | Some (Some p) => if decide (p ∈ c.(stubs)) then Some p else None
  | _ => None
  end.

(** [delete channel_ptr]: nothing for a null pointer; undefined for a pointer
    that is not allocated. *)
Definition delete_stub (p : option nat) (c : Channels) : option Channels :=
  match p with
  | None => Some c
  | Some p =>
      if decide (p ∈ c.(stubs))
      then Some (mkChannels c.(channels) (c.(stubs) ∖ {[p]}) c.(next_stub)) else None
  end.

(** [channels[v].release()], [channels.erase(channels.find(v))],
    [delete channel_ptr]: what is done to the map for an expelled peer. *)
Definition drop_channel (v : string) (c : Channels) : option Channels :=
  let channel_ptr := default None (c.(channels) !! v) in
  delete_stub channel_ptr (mkChannels (delete v c.(channels)) c.(stubs) c.(next_stub)).

(** The end of the thread: the destructor of [channels] deletes every stub the
    map still owns. *)
Definition owned (c : Channels) : list nat :=
  omap (λ kv, kv.2) (map_to_list c.(channels)).
Definition destroy_channels (c : Channels) : Channels :=
  mkChannels ∅ (c.(stubs) ∖ list_to_set (owned c)) c.(next_stub).

(** * Where the thread is *)

Inductive Pc :=
  | PSleep
  | PTest
  | PLock
  | PVote (request : VoteRequest.t) (todo : list string) (vote_count : Z)
  | PVoteWait (request : VoteRequest.t) (peer : string) (call : nat)
      (todo : list string) (vote_count : Z)
  | PBeat (todo : list string)
  | PBeatWait (peer : string) (call : nat) (todo : list string)
  | PExit.

(** The daemon holds [lock_] from the acquisition to the end of the body. *)
Definition holds_lock (pc : Pc) : bool :=
  match pc with
  | PVote _ _ _ | PVoteWait _ _ _ _ _ | PBeat _ | PBeatWait _ _ _ => true
  | PSleep | PTest | PLock | PExit => false
  end.

(** * The follower *)

(** [abs(leader_active_time_ - cur_milli)] in [long long]. *)
Definition silence (r : Raft) (cur_milli : Z) : Z :=
  Z.abs (r.(leader_active_time_) - cur_milli).

(** [draw] is the value of [int_dist_(mt)], between 200 and 350. *)
Definition patience (draw : Z) : Z := draw * 25.

Definition follower_body (draw cur_milli : Z) (r : Raft) (c : Channels)
    : option (Raft * Channels) :=
  if silence r cur_milli <? patience draw then Some (r, c)
  else if decide (r.(vote_for_) = "") then Some (set_status CANDIDATE r, c)
  else
    c ← drop_channel r.(vote_for_) c;
    Some (set_vote_for "" (set_peers (r.(peers_) ∖ {[r.(vote_for_)]}) r), c).

(** * The candidate *)

Definition election_begin (r : Raft) : Raft :=
  set_vote_for r.(self_id_) (set_term (u64 (r.(term_) + 1)) r).

Definition vote_request (r : Raft) : VoteRequest.t :=
  VoteRequest.mk (Some r.(term_)) (Some r.(self_id_)) (Some (u64 (-1))) (Some (u64 (-1))).

Definition count_vote (reply : VoteReply.t) (vote_count : Z) : Z :=
  if VoteReply.get_vote reply then vote_count + 1 else vote_count.

(** [vote_count >= (peers_.size()/2+1)]: [int] against [size_t]. *)
Definition has_majority (r : Raft) (vote_count : Z) : bool :=
  Z.of_nat (size r.(peers_)) / 2 + 1 <=? u64 vote_count.

(** The initialisation of a first leader. *)
Definition leader_init (r : Raft) : Raft :=
  if ConsensusLog.size r.(logs_) =? 0 then
    set_indices (Some 0) (Some 0)
      (set_next_index (set_to_map (λ p, (p, 0)) r.(peers_) ∪ r.(peers_next_index_)) r)
  else r.

Definition election_end (vote_count now : Z) (r : Raft) : Raft :=
  if has_majority r vote_count then leader_init (set_status LEADER r)
  else set_vote_for "" (set_status FOLLOWER (set_active_time now r)).

(** * The leader *)

Definition heartbeat (r : Raft) : AppendRequest.t :=
  AppendRequest.mk (Some r.(term_)) (Some r.(self_id_)) None None [].

(** The answer to a heartbeat; [true] is the [break] out of the loop. *)
Definition heartbeat_reply (reply : AppendReply.t) (now : Z) (r : Raft) : Raft * bool :=
  if AppendReply.get_success reply then (r, false)
  else (set_active_time now (set_term (AppendReply.get_term reply) (set_status FOLLOWER r)), true).

(** * Whole bodies

    The candidate's and the leader's loops with the outcome of each remote
    call given by [rpc]: [None] is a call that throws [rpc_error], which the
    loop catches and logs. *)

Fixpoint collect_votes (self : string) (rpc : string → option VoteReply.t)
    (order : list string) (vote_count : Z) : Z :=
  match order with
  | [] => vote_count
  | peer :: order =>
      let reply := if decide (peer = self) then VoteReply.mk None (Some false)
                   else default (VoteReply.mk None (Some false)) (rpc peer) in
      collect_votes self rpc order (count_vote reply vote_count)
  end.

Definition candidate_body (rpc : string → option VoteReply.t) (order : list string)
    (now : Z) (r : Raft) : Raft :=
  let r := election_begin r in
  election_end (collect_votes r.(self_id_) rpc order 1) now r.

Fixpoint leader_body (rpc : string → AppendRequest.t → option AppendReply.t)
    (order : list string) (now : Z) (r : Raft) : Raft :=
  match order with
  | [] => r
  | peer :: order =>
      if decide (peer = r.(self_id_)) then leader_body rpc order now r
      else
        match rpc peer (heartbeat r) with
        | None => leader_body rpc order now r
        | Some reply =>
            let '(r, stop) := heartbeat_reply reply now r in
            if stop then r else leader_body rpc order now r
        end
  end.
