(* ===== verification/DaemonFacts.v ===== *)
(** What one iteration of the daemon does: the election timer, the life of the
    stubs, the outcome of an election and of a round of heartbeats. *)

From S2P Require Import Prelude Strings Proto Node NodeFacts Daemon.
From stdpp Require Import base gmap sets list strings.

Open Scope Z_scope.

(** * The stubs: definitions *)

(** Every peer but the node itself has a live stub of its own, and nothing
    else is allocated. *)
Record channels_ok (self : string) (peers : gset string) (c : Channels) : Prop := {
  ok_live : ∀ s v, c.(channels) !! s = Some v → ∃ p, v = Some p ∧ p ∈ c.(stubs);
  ok_owned : ∀ p, p ∈ c.(stubs) → ∃ s, c.(channels) !! s = Some (Some p);
  ok_inj : ∀ s s' p, c.(channels) !! s = Some (Some p) → c.(channels) !! s' = Some (Some p) → s = s';
  ok_fresh : ∀ p, p ∈ c.(stubs) → (p < c.(next_stub))%nat;
  ok_dom : dom c.(channels) = peers ∖ {[self]}
}.

(** Votes granted by the peers of [order] other than [self]. *)
Definition granted (self : string) (rpc : string → option VoteReply.t) (peer : string) : bool :=
  negb (bool_decide (peer = self)) && default false (VoteReply.get_vote <$> rpc peer).

(** The first heartbeat reply of a round that refuses, if any. *)
Fixpoint first_refusal (r : Raft) (rpc : string → AppendRequest.t → option AppendReply.t)
    (order : list string) : option AppendReply.t :=
  match order with
  | [] => None
  | peer :: order =>
      if decide (peer = r.(self_id_)) then first_refusal r rpc order
      else
        match rpc peer (heartbeat r) with
        | Some reply =>
            if AppendReply.get_success reply then first_refusal r rpc order else Some reply
        | None => first_refusal r rpc order
        end
  end.

(** * The stubs: lemmas *)

Lemma no_channels_ok self : channels_ok self ∅ no_channels.
Proof. split; simpl; set_solver. Qed.

Lemma assign_new_stub_ok self peers s c :
  channels_ok self peers c → s ∉ peers → s ≠ self →
  channels_ok self ({[s]} ∪ peers) (assign_new_stub s c).
Proof.
  intros [Hl Ho Hi Hf Hd] Hs Hne.
  assert (c.(channels) !! s = None) as Hnone.
  { apply not_elem_of_dom. rewrite Hd. set_solver. }
  unfold assign_new_stub. rewrite Hnone. split; simpl.
  - intros s' v. destruct (decide (s = s')) as [->|]; simplify_map_eq; [set_solver|].
    intros H. destruct (Hl _ _ H) as (p & -> & ?). set_solver.
  - intros p [->%elem_of_singleton|Hp]%elem_of_union.
    + exists s. by simplify_map_eq.
    + destruct (Ho p Hp) as [s' Hs']. exists s'.
      rewrite lookup_insert_ne; [done|]. intros ->. congruence.
  - intros s1 s2 p. rewrite !lookup_insert. repeat case_decide; intros; simplify_eq; try done.
    + exfalso. destruct (Hl _ _ H2) as (p & [= <-] & Hp). apply Hf in Hp. lia.
    + exfalso. destruct (Hl _ _ H1) as (p & [= <-] & Hp). apply Hf in Hp. lia.
    + eauto.
  - intros p [->%elem_of_singleton|Hp]%elem_of_union; [lia|]. apply Hf in Hp. lia.
  - rewrite dom_insert_L, Hd. set_solver.
Qed.

Lemma create_channels_ok self order c peers :
  channels_ok self peers c → NoDup order → (∀ s, s ∈ order → s ∉ peers) →
  channels_ok self (list_to_set order ∪ peers) (create_channels self order c).
Proof.
  revert c peers. induction order as [|s order IH]; intros c peers Hok Hnd Hfresh; simpl.
  { by rewrite (left_id_L ∅ (∪)). }
  apply NoDup_cons in Hnd as [Hs Hnd].
  case_decide as Heq.
  - subst s. assert (channels_ok self ({[self]} ∪ peers) c) as Hok'.
    { destruct Hok as [? ? ? ? Hd]. split; try done. rewrite Hd. set_solver. }
    replace ({[self]} ∪ list_to_set order ∪ peers)
      with (list_to_set order ∪ ({[self]} ∪ peers) : gset string) by set_solver.
    apply IH; [done..|]. intros s' Hs'. specialize (Hfresh s'). set_solver.
  - replace ({[s]} ∪ list_to_set order ∪ peers)
      with (list_to_set order ∪ ({[s]} ∪ peers) : gset string) by set_solver.
    apply IH; [|done|].
    + apply assign_new_stub_ok; [done|apply Hfresh; set_solver|done].
    + intros s' Hs'. specialize (Hfresh s'). set_solver.
Qed.

Lemma drop_channel_ok self peers v c :
  channels_ok self peers c →
  ∃ c', drop_channel v c = Some c' ∧ channels_ok self (peers ∖ {[v]}) c'.
Proof.
  intros [Hl Ho Hi Hf Hd]. unfold drop_channel.
  destruct (c.(channels) !! v) as [w|] eqn:Hv; simpl.
  - destruct (Hl _ _ Hv) as (p & -> & Hp). simpl. rewrite decide_True by done.
    eexists; split; [done|]. split; simpl.
    + intros s w. rewrite lookup_delete_Some. intros [Hne Hs].
      destruct (Hl _ _ Hs) as (q & -> & Hq). exists q. split; [done|].
      apply elem_of_difference. split; [done|]. intros ->%elem_of_singleton. eauto.
    + intros q [Hq Hne]%elem_of_difference. destruct (Ho q Hq) as [s Hs].
      exists s. rewrite lookup_delete_ne; [done|]. intros ->. set_solver.
    + intros s s' q. rewrite !lookup_delete_Some. intros [_ H1] [_ H2]. eauto.
    + intros q [Hq _]%elem_of_difference. eauto.
    + rewrite dom_delete_L, Hd. set_solver.
  - eexists; split; [done|]. rewrite delete_id by done. split; simpl; try done.
    apply not_elem_of_dom in Hv. rewrite Hd in *. set_solver.
Qed.

Lemma deref_ok self peers c s :
  channels_ok self peers c → s ∈ peers → s ≠ self → is_Some (deref s c).
Proof.
  intros [Hl _ _ _ Hd] Hs Hne. unfold deref.
  destruct (c.(channels) !! s) as [v|] eqn:E.
  - destruct (Hl _ _ E) as (p & -> & Hp). rewrite decide_True by done. by eexists.
  - apply not_elem_of_dom in E. set_solver.
Qed.

Lemma elem_of_owned c p : p ∈ owned c ↔ ∃ s, c.(channels) !! s = Some (Some p).
Proof.
  unfold owned. rewrite list_elem_of_omap. split.
  - intros ([s v] & Hin%elem_of_map_to_list & E); simpl in *; subst. eauto.
  - intros [s Hs]. exists (s, Some p). split; [|done]. by apply elem_of_map_to_list.
Qed.

Lemma destroy_channels_ok self peers c :
  channels_ok self peers c → (destroy_channels c).(stubs) = ∅.
Proof.
  intros [_ Ho _ _ _]. unfold destroy_channels; simpl. apply set_eq. intros p.
  rewrite elem_of_difference, elem_of_list_to_set, elem_of_owned.
  split; [|set_solver]. intros [Hp Hn]. exfalso. eauto.
Qed.

#[export] Hint Resolve no_channels_ok : raft.

(** * Elections: lemmas *)

Lemma collect_votes_count self rpc order n :
  collect_votes self rpc order n = n + Z.of_nat (count_true (granted self rpc) order).
Proof.
  revert n. induction order as [|p order IH]; intros n; simpl.
  { rewrite count_true_nil. lia. }
  rewrite IH, count_true_cons. unfold granted at 2.
  destruct (decide (p = self)) as [->|Hne].
  - rewrite bool_decide_eq_true_2 by done. unfold count_vote; simpl. lia.
  - rewrite bool_decide_eq_false_2 by done. unfold count_vote.
    destruct (rpc p) as [[t [[]|]]|]; simpl; lia.
Qed.

Lemma has_majority_spec r n :
  0 <= n < U64 → has_majority r n = true ↔ Z.of_nat (size r.(peers_)) < 2 * n.
Proof.
  intros Hn. unfold has_majority. rewrite u64_small by done.
  rewrite Z.leb_le. Z.div_mod_to_equations. lia.
Qed.

Lemma election_end_cases n now r :
  (has_majority r n = true ∧ election_end n now r = leader_init (set_status LEADER r))
  ∨ (has_majority r n = false ∧
     election_end n now r = set_vote_for "" (set_status FOLLOWER (set_active_time now r))).
Proof. unfold election_end. destruct (has_majority r n); auto. Qed.

Lemma leader_init_frame r :
  let r' := leader_init r in
  r'.(status_) = r.(status_) ∧ r'.(vote_for_) = r.(vote_for_) ∧ r'.(term_) = r.(term_) ∧
  r'.(peers_) = r.(peers_) ∧ r'.(self_id_) = r.(self_id_) ∧ r'.(is_dead_) = r.(is_dead_) ∧
  r'.(logs_) = r.(logs_) ∧ r'.(leader_active_time_) = r.(leader_active_time_).
Proof. unfold leader_init. by case_match. Qed.

Lemma create_channels_all self peers order :
  order ≡ₚ elements peers →
  channels_ok self peers (create_channels self order no_channels).
Proof.
  intros Ho.
  replace peers with (list_to_set order ∪ ∅ : gset string).
  - apply create_channels_ok; [apply no_channels_ok| |set_solver].
    rewrite Ho. apply NoDup_elements.
  - rewrite Ho, list_to_set_elements_L. set_solver.
Qed.

(** * The stubs: theorems *)

(** The stubs built at the start of the daemon cover exactly the other
    peers, whatever the iteration order of the set. *)
Theorem create_channels_cover_peers self peers order :
  order ≡ₚ elements peers →
  channels_ok self peers (create_channels self order no_channels).
Proof. apply create_channels_all. Qed.

Lemma create_channels_cover_peers_witness :
  let peers : gset string := {["a"; "b"; "c"]} in
  channels_ok "b" peers (create_channels "b" (elements peers) no_channels).
Proof. intros peers. by apply create_channels_cover_peers. Defined.

(** A follower's iteration never dereferences a null or dangling stub and
    never deletes one twice, whatever it voted for - itself, a peer, or an
    address that is no peer - and afterwards the stubs still cover exactly
    the other peers. *)
Theorem follower_body_memory_safe self draw now r c :
  channels_ok self r.(peers_) c →
  ∃ r' c', follower_body draw now r c = Some (r', c') ∧ channels_ok self r'.(peers_) c'.
Proof.
  intros Hok. unfold follower_body.
  destruct (silence r now <? patience draw); [by eauto|].
  case_decide; [by eauto|].
  destruct (drop_channel_ok self _ r.(vote_for_) c Hok) as (c' & -> & Hok').
  simpl. eauto.
Qed.

Lemma follower_body_memory_safe_witness :
  let r := set_vote_for "tcp://b:2" sample_node in
  let c := create_channels "tcp://a:1" (elements r.(peers_)) no_channels in
  ∃ r' c', follower_body 200 9000 r c = Some (r', c') ∧ channels_ok "tcp://a:1" r'.(peers_) c'
    ∧ size (stubs c) = 2%nat ∧ size (stubs c') = 1%nat.
Proof.
  intros r c.
  destruct (follower_body_memory_safe "tcp://a:1" 200 9000 r c) as (r' & c' & E & Hok').
  - by apply create_channels_all.
  - exists r', c'. split; [done|]. split; [done|].
    vm_compute in E. injection E as _ <-. split; vm_compute; reflexivity.
Defined.

(** When the daemon returns, every stub it allocated has been deleted. *)
Theorem daemon_frees_every_stub self peers c :
  channels_ok self peers c → stubs (destroy_channels c) = ∅ ∧ channels (destroy_channels c) = ∅.
Proof. intros H. split; [by eapply destroy_channels_ok|done]. Qed.

Lemma daemon_frees_every_stub_witness :
  let peers : gset string := {["a"; "b"]} in
  let c := create_channels "b" (elements peers) no_channels in
  stubs c ≠ ∅ ∧ stubs (destroy_channels c) = ∅.
Proof.
  intros peers c. split; [vm_compute; discriminate|].
  apply (daemon_frees_every_stub "b" peers). by apply create_channels_all.
Defined.

(** * The election timer *)

(** A follower that heard from a leader or a candidate less than 5000 ms
    ago keeps waiting whatever it draws; one that has not for 8750 ms acts
    whatever it draws: it becomes a candidate if it has no vote out, and
    otherwise expels the node it voted for and takes the vote back. *)
Theorem election_timer_window draw now r c :
  200 <= draw <= 350 →
  (silence r now < 5000 → follower_body draw now r c = Some (r, c)) ∧
  (8750 <= silence r now →
     if decide (r.(vote_for_) = "")
     then follower_body draw now r c = Some (set_status CANDIDATE r, c)
     else ∀ r' c', follower_body draw now r c = Some (r', c') →
       r'.(vote_for_) = "" ∧ r'.(peers_) = r.(peers_) ∖ {[r.(vote_for_)]} ∧
       r'.(status_) = r.(status_) ∧ channels c' = delete r.(vote_for_) (channels c)).
Proof.
  intros Hd. unfold follower_body, patience. split.
  - intros Hs. destruct (Z.ltb_spec (silence r now) (draw * 25)); [done|lia].
  - intros Hs. destruct (Z.ltb_spec (silence r now) (draw * 25)); [lia|].
    case_decide; [done|]. intros r' c'. unfold drop_channel, delete_stub.
    intros E. repeat (case_match || case_decide); simplify_option_eq; done.
Qed.

Lemma election_timer_window_witness :
  follower_body 350 5999 sample_node no_channels = Some (sample_node, no_channels) ∧
  follower_body 350 9750 sample_node no_channels
    = Some (set_status CANDIDATE sample_node, no_channels).
Proof.
  split.
  - apply (election_timer_window 350 5999 sample_node no_channels ltac:(lia)).
    vm_compute. reflexivity.
  - apply (election_timer_window 350 9750 sample_node no_channels ltac:(lia)).
    vm_compute. discriminate.
Defined.

(** With clock values a [long long] counts from the epoch the subtraction
    and [abs] of the timer stay within [long long], and the patience within
    [int]. *)
Theorem election_timer_in_range draw now r :
  200 <= draw <= 350 → 0 <= now <= I64_MAX → 0 <= r.(leader_active_time_) <= I64_MAX →
  i64 (r.(leader_active_time_) - now) = r.(leader_active_time_) - now ∧
  0 <= silence r now <= I64_MAX ∧ 5000 <= patience draw <= 8750 ∧ is_i32 (patience draw).
Proof.
  intros. unfold silence, patience. repeat split; try (unfold I64_MAX in *; lia).
  all: cint.
Qed.

Lemma election_timer_in_range_witness :
  0 <= silence sample_node 1461000000000 <= I64_MAX ∧ is_i32 (patience 275).
Proof.
  destruct (election_timer_in_range 275 1461000000000 sample_node) as (_ & ? & _ & ?);
    [lia|vm_compute; split; discriminate..|split; assumption].
Defined.

(** * Elections *)

Lemma candidate_body_cases rpc order now r :
  Z.of_nat (length order) < I32_MAX →
  let k := Z.of_nat (count_true (granted r.(self_id_) rpc) order) in
  (Z.of_nat (size r.(peers_)) < 2 * (1 + k) ∧
   candidate_body rpc order now r = leader_init (set_status LEADER (election_begin r)))
  ∨ (2 * (1 + k) <= Z.of_nat (size r.(peers_)) ∧
     candidate_body rpc order now r =
       set_vote_for "" (set_status FOLLOWER (set_active_time now (election_begin r)))).
Proof.
  intros Hlen k. unfold candidate_body. rewrite collect_votes_count.
  change (self_id_ (election_begin r)) with (self_id_ r). fold k.
  pose proof (count_true_le (granted (self_id_ r) rpc) order).
  assert (0 <= 1 + k < U64) as Hk by (unfold I32_MAX, U64 in *; lia).
  destruct (election_end_cases (1 + k) now (election_begin r)) as [[H1 H2]|[H1 H2]].
  - left. split; [by apply (has_majority_spec (election_begin r) (1 + k))|done].
  - right. split; [|done].
    assert (¬ Z.of_nat (size (peers_ r)) < 2 * (1 + k)); [|lia].
    intros Hlt. apply (has_majority_spec (election_begin r) (1 + k)) in Hlt; [congruence|done].
Qed.

(** C13: a candidate becomes a leader exactly when its own vote and the votes
    granted are more than half of its peer set; otherwise it is a follower
    again with its vote free and its timer reset.  Either way its term is the
    next one and it wrote its own name as its vote during the election. *)
Theorem election_outcome rpc order now r :
  order ≡ₚ elements r.(peers_) → Z.of_nat (size r.(peers_)) < I32_MAX →
  let r' := candidate_body rpc order now r in
  let votes := 1 + Z.of_nat (count_true (granted r.(self_id_) rpc) order) in
  r'.(term_) = u64 (r.(term_) + 1) ∧ r'.(peers_) = r.(peers_) ∧
  (if decide (Z.of_nat (size r.(peers_)) < 2 * votes)
   then r'.(status_) = LEADER ∧ r'.(vote_for_) = r.(self_id_)
   else r'.(status_) = FOLLOWER ∧ r'.(vote_for_) = "" ∧ r'.(leader_active_time_) = now).
Proof.
  intros Ho Hs r' votes.
  assert (length order = size r.(peers_)) as Hlen by (rewrite Ho; done).
  destruct (candidate_body_cases rpc order now r ltac:(by rewrite Hlen))
    as [[H1 H2]|[H1 H2]]; fold r' in H2; fold votes in H1; rewrite H2.
  - destruct (leader_init_frame (set_status LEADER (election_begin r)))
      as (-> & -> & -> & -> & _). simpl. by rewrite decide_True.
  - simpl. rewrite decide_False by lia. done.
Qed.

Lemma election_outcome_witness :
  let rpc p := if decide (p = "tcp://b:2") then Some (VoteReply.mk (Some 0) (Some true)) else None in
  let r' := candidate_body rpc (elements sample_node.(peers_)) 7 sample_node in
  r'.(status_) = LEADER ∧ r'.(term_) = 5.
Proof.
  intros rpc r'.
  destruct (election_outcome rpc (elements sample_node.(peers_)) 7 sample_node)
    as (Ht & _ & H); [done|vm_compute; done|].
  split; [|exact Ht].
  revert H. case_decide as Hd; [tauto|]. exfalso. apply Hd. vm_compute. done.
Defined.

(** A first leader has no log entry committed or applied, and its
    next-index table sends every peer entry 0. *)
Theorem first_leader_initialised rpc order now r :
  r.(logs_) = ConsensusLog.init →
  (candidate_body rpc order now r).(status_) = LEADER →
  (candidate_body rpc order now r).(commit_index_) = Some 0 ∧
  (candidate_body rpc order now r).(last_applied_) = Some 0 ∧
  ∀ p, p ∈ r.(peers_) → (candidate_body rpc order now r).(peers_next_index_) !! p = Some 0.
Proof.
  intros Hl. unfold candidate_body.
  destruct (election_end_cases (collect_votes (self_id_ (election_begin r)) rpc order 1) now
              (election_begin r)) as [[_ ->]|[_ ->]]; [|done].
  intros _. unfold leader_init. cbn [logs_ set_status election_begin set_vote_for set_term].
  rewrite Hl. simpl. split; [done|]. split; [done|]. intros p Hp.
  apply lookup_union_Some_l, lookup_set_to_map; [done|]. by exists p.
Qed.

Lemma first_leader_initialised_witness :
  let rpc p := Some (VoteReply.mk (Some 0) (Some true)) in
  let r' := candidate_body rpc (elements sample_node.(peers_)) 7 sample_node in
  r'.(commit_index_) = Some 0 ∧ r'.(peers_next_index_) !! "tcp://c:3" = Some 0.
Proof.
  intros rpc r'.
  destruct (first_leader_initialised rpc (elements sample_node.(peers_)) 7 sample_node)
    as (H1 & _ & H2); [reflexivity|vm_compute; reflexivity|].
  split; [exact H1|apply H2]. apply (bool_decide_unpack _). vm_compute. exact I.
Defined.

(** * Rounds of heartbeats *)

Lemma leader_body_spec rpc order now r :
  leader_body rpc order now r =
    match first_refusal r rpc order with
    | None => r
    | Some reply => (heartbeat_reply reply now r).1
    end.
Proof.
  induction order as [|p order IH]; simpl; [done|].
  case_decide; [done|]. destruct (rpc p (heartbeat r)) as [reply|]; [|done].
  unfold heartbeat_reply. destruct (AppendReply.get_success reply) eqn:E; simpl; [done|].
  by rewrite E.
Qed.

Lemma first_refusal_refuses r rpc order reply :
  first_refusal r rpc order = Some reply → AppendReply.get_success reply = false.
Proof.
  induction order as [|p order IH]; simpl; [done|].
  case_decide; [done|]. destruct (rpc p (heartbeat r)) as [rep|]; [|done].
  destruct (AppendReply.get_success rep) eqn:E; [done|]. by intros [= <-].
Qed.

(** A round of heartbeats keeps a leader as it is unless a peer answers
    with a refusal; failed calls are skipped; the first refusal ends the round
    and leaves a follower in the term of the reply, whose vote, peers and
    log indices are those of the leader it was. *)
Theorem heartbeat_round_outcome rpc order now r :
  r.(status_) = LEADER →
  let r' := leader_body rpc order now r in
  match first_refusal r rpc order with
  | None => r' = r
  | Some reply =>
      r'.(status_) = FOLLOWER ∧ r'.(term_) = AppendReply.get_term reply ∧
      r'.(leader_active_time_) = now ∧ r'.(vote_for_) = r.(vote_for_) ∧
      r'.(peers_) = r.(peers_) ∧ r'.(commit_index_) = r.(commit_index_)
  end.
Proof.
  intros Hst r'. unfold r'. rewrite leader_body_spec.
  destruct (first_refusal r rpc order) as [reply|] eqn:E; [|done].
  unfold heartbeat_reply. by rewrite (first_refusal_refuses _ _ _ _ E).
Qed.

Lemma heartbeat_round_outcome_witness :
  let l := set_status LEADER sample_node in
  let rpc p (q : AppendRequest.t) :=
    if decide (p = "tcp://c:3") then Some (AppendReply.mk (Some 9) (Some false)) else None in
  let r' := leader_body rpc sample_addrs 7 l in
  r'.(status_) = FOLLOWER ∧ r'.(term_) = 9.
Proof.
  intros l rpc r'. pose proof (heartbeat_round_outcome rpc sample_addrs 7 l eq_refl) as H.
  cbv zeta in H.
  assert (first_refusal l rpc sample_addrs = Some (AppendReply.mk (Some 9) (Some false))) as E
    by (vm_compute; reflexivity).
  rewrite E in H. destruct H as (H1 & H2 & _). exact (conj H1 H2).
Defined.

(** A peer that refuses makes some refusal the first one. *)
Lemma first_refusal_some r rpc order peer reply :
  peer ∈ order → peer ≠ r.(self_id_) → rpc peer (heartbeat r) = Some reply →
  AppendReply.get_success reply = false → ∃ reply', first_refusal r rpc order = Some reply'.
Proof.
  intros Hin Hne Hrpc Hs. induction order as [|p order IH]; [by apply not_elem_of_nil in Hin|].
  simpl. case_decide as Hp; [apply IH; set_solver|].
  destruct (decide (p = peer)) as [->|Hpp]; [rewrite Hrpc, Hs; by eexists|].
  destruct (rpc p (heartbeat r)) as [rep|]; [destruct (AppendReply.get_success rep)|];
    solve [by eexists|apply IH; set_solver].
Qed.

(** An iteration of a follower whose patience ran out. *)
Lemma follower_body_impatient self draw now r c :
  channels_ok self r.(peers_) c → patience draw <= silence r now →
  ∃ c', follower_body draw now r c =
    Some (if decide (r.(vote_for_) = "") then set_status CANDIDATE r
          else set_vote_for "" (set_peers (r.(peers_) ∖ {[r.(vote_for_)]}) r), c') ∧
    (r.(vote_for_) ≠ "" → channels_ok self (r.(peers_) ∖ {[r.(vote_for_)]}) c').
Proof.
  intros Hok Hp. unfold follower_body. rewrite (proj2 (Z.ltb_ge _ _)) by done.
  case_decide; [by exists c|].
  destruct (drop_channel_ok self _ r.(vote_for_) c Hok) as (c' & -> & ?). by exists c'.
Qed.

(** C15: A leader with a vote for itself, among fewer than 2^31 peers and with stubs
    for the others, that one of them refuses keeps that vote; so when its patience
    has run out since, its next iteration expels it from its own peers and the one
    after makes it a candidate; as its own vote still counts, it is elected again
    exactly when the votes, its own included, are at least half of the peers it had: with an
    even number of them one vote less than a majority. *)
Theorem deposed_leader_needs_half rpc0 order0 now0 r peer reply c draw1 now1 draw2 now2 :
  r.(status_) = LEADER → r.(self_id_) ≠ "" → r.(vote_for_) = r.(self_id_) →
  r.(self_id_) ∈ r.(peers_) → Z.of_nat (size r.(peers_)) < I32_MAX →
  channels_ok r.(self_id_) r.(peers_) c →
  peer ∈ order0 → peer ≠ r.(self_id_) → rpc0 peer (heartbeat r) = Some reply →
  AppendReply.get_success reply = false →
  patience draw1 <= Z.abs (now0 - now1) → patience draw2 <= Z.abs (now0 - now2) →
  ∃ r2 c2 r3 c3,
    follower_body draw1 now1 (leader_body rpc0 order0 now0 r) c = Some (r2, c2) ∧
    follower_body draw2 now2 r2 c2 = Some (r3, c3) ∧ r3.(status_) = CANDIDATE ∧
    r3.(peers_) = r.(peers_) ∖ {[r.(self_id_)]} ∧
    ∀ rpc order now3, order ≡ₚ elements r3.(peers_) →
      (candidate_body rpc order now3 r3).(status_) = LEADER ↔
      (size r.(peers_) <= 2 * (1 + count_true (granted r.(self_id_) rpc) order))%nat.
Proof.
  intros Hst Hne Hv Hself Hsz Hok Hin Hpeer Hrpc Href Hp1 Hp2.
  destruct (first_refusal_some _ _ _ _ _ Hin Hpeer Hrpc Href) as [reply' Hfirst].
  rewrite leader_body_spec, Hfirst. unfold heartbeat_reply.
  rewrite (first_refusal_refuses _ _ _ _ Hfirst). cbn [fst].
  set (r1 := set_active_time now0 _).
  destruct (follower_body_impatient r.(self_id_) draw1 now1 r1 c Hok Hp1) as (c2 & E1 & Hok2).
  change (vote_for_ r1) with (vote_for_ r) in E1, Hok2. rewrite Hv in E1, Hok2.
  specialize (Hok2 Hne).
  rewrite decide_False in E1 by done. set (r2 := set_vote_for "" _) in E1.
  destruct (follower_body_impatient r.(self_id_) draw2 now2 r2 c2 Hok2 Hp2) as (c3 & E2 & _).
  rewrite decide_True in E2 by done.
  exists r2, c2, (set_status CANDIDATE r2), c3. do 4 (split; [done|]).
  intros rpc order now3 Ho. change (peers_ (set_status CANDIDATE r2))
    with (r.(peers_) ∖ {[r.(self_id_)]}) in Ho.
  assert (length order = size r.(peers_) - 1)%nat as Hlen.
  { rewrite Ho. change (length (elements ?X)) with (size X).
    rewrite size_difference, size_singleton by set_solver. done. }
  assert (0 < size r.(peers_))%nat.
  { destruct (size r.(peers_)) eqn:E; [|lia]. apply size_empty_inv in E. set_solver. }
  destruct (candidate_body_cases rpc order now3 (set_status CANDIDATE r2) ltac:(lia))
    as [[H1 ->]|[H1 ->]]; revert H1;
    change (size (peers_ (set_status CANDIDATE r2))) with (size (r.(peers_) ∖ {[r.(self_id_)]}));
    change (self_id_ (set_status CANDIDATE r2)) with r.(self_id_);
    rewrite size_difference, size_singleton by set_solver; intros H1.
  - destruct (leader_init_frame (set_status LEADER (election_begin (set_status CANDIDATE r2))))
      as (-> & _). split; [lia|done].
  - split; [done|lia].
Qed.

(** Four peers; one of them refuses a heartbeat, another one grants its vote:
    two votes of four. *)
Definition four_peers : gset string := {["tcp://a:1"; "tcp://b:2"; "tcp://c:3"; "tcp://d:4"]}.

Lemma deposed_leader_needs_half_witness :
  let r := set_vote_for "tcp://a:1" (set_peers four_peers (set_status LEADER sample_node)) in
  let refuse p (q : AppendRequest.t) :=
    if decide (p = "tcp://c:3") then Some (AppendReply.mk (Some 9) (Some false)) else None in
  let grant p := if decide (p = "tcp://b:2") then Some (VoteReply.mk (Some 0) (Some true)) else None in
  ∃ r3, r3.(peers_) = four_peers ∖ {["tcp://a:1"]} ∧
    (candidate_body grant (elements r3.(peers_)) 30000 r3).(status_) = LEADER.
Proof.
  intros r refuse grant.
  destruct (deposed_leader_needs_half refuse (elements four_peers) 0 r "tcp://c:3"
    (AppendReply.mk (Some 9) (Some false))
    (create_channels "tcp://a:1" (elements four_peers) no_channels) 200 10000 200 20000)
    as (r2 & c2 & r3 & c3 & _ & _ & _ & Hp & H).
  - reflexivity.
  - discriminate.
  - reflexivity.
  - apply (bool_decide_unpack _). vm_compute. exact I.
  - vm_compute. reflexivity.
  - by apply create_channels_all.
  - apply (bool_decide_unpack _). vm_compute. exact I.
  - discriminate.
  - vm_compute. reflexivity.
  - reflexivity.
  - vm_compute. discriminate.
  - vm_compute. discriminate.
  - exists r3. split; [exact Hp|]. apply H; [done|]. rewrite Hp. vm_compute. lia.
Defined.

(** One heartbeat between a leader whose term fits a non-negative [int]
    and any node: the sender ends in the larger of the two terms, and leads on
    exactly when the receiver was not ahead; the receiver never ends ahead of
    the sender. *)
Theorem heartbeat_exchange_terms l f now now' :
  l.(status_) = LEADER → 0 <= l.(term_) <= I32_MAX →
  let '(f', reply) := AppendMsg (heartbeat l) now f in
  let '(l', _) := heartbeat_reply reply now' l in
  l'.(term_) = Z.max l.(term_) f.(term_) ∧ f'.(term_) = l'.(term_) ∧
  (l'.(status_) = LEADER ↔ f.(term_) <= l.(term_)).
Proof.
  intros Hst Ht. pose proof (u64_i32_small _ Ht) as E.
  destruct (AppendMsg_cases (heartbeat l) now f) as [[H ->]|[(H&?&->)|(H&?&?&->)]];
    cbn in *; rewrite ?E in *; rewrite ?Hst; (split; [lia|]); (split; [lia|]);
    split; done || lia.
Qed.

Lemma heartbeat_exchange_terms_witness :
  let l := set_status LEADER sample_node in
  let f := set_term 6 sample_node in
  let '(f', reply) := AppendMsg (heartbeat l) 5 f in
  let '(l', _) := heartbeat_reply reply 5 l in
  l'.(term_) = 6 ∧ l'.(status_) = FOLLOWER.
Proof.
  pose proof (heartbeat_exchange_terms (set_status LEADER sample_node)
    (set_term 6 sample_node) 5 5 eq_refl ltac:(vm_compute; split; discriminate)) as H.
  vm_compute in H. vm_compute. split; [apply H|reflexivity].
Defined.

(** A leader refused by a peer keeps its own name as its vote, so if no
    leader is heard before its timer runs out it expels itself from its own
    peer set; no stub is touched. *)
Theorem deposed_leader_expels_itself reply now draw now' l c :
  l.(vote_for_) = l.(self_id_) → l.(self_id_) ≠ "" →
  channels_ok l.(self_id_) l.(peers_) c →
  AppendReply.get_success reply = false →
  patience draw <= silence (heartbeat_reply reply now l).1 now' →
  follower_body draw now' (heartbeat_reply reply now l).1 c =
    Some (set_vote_for "" (set_peers (l.(peers_) ∖ {[l.(self_id_)]})
            (heartbeat_reply reply now l).1), c).
Proof.
  intros Hv Hne [_ _ _ _ Hd] Hrep. unfold heartbeat_reply. rewrite Hrep. simpl.
  intros Hs. unfold follower_body. destruct (Z.ltb_spec (silence
    (set_active_time now (set_term (AppendReply.get_term reply) (set_status FOLLOWER l))) now')
    (patience draw)); [lia|].
  simpl. rewrite Hv, decide_False by done. unfold drop_channel.
  assert (channels c !! self_id_ l = None) as Hnone.
  { apply not_elem_of_dom. rewrite Hd. set_solver. }
  rewrite Hnone, delete_id by done. simpl. by destruct c.
Qed.

Lemma deposed_leader_expels_itself_witness :
  let l := set_vote_for "tcp://a:1" (set_status LEADER sample_node) in
  let refusal := AppendReply.mk (Some (U64 - 1)) (Some false) in
  let c := create_channels "tcp://a:1" (elements l.(peers_)) no_channels in
  ∃ r', follower_body 300 20000 (heartbeat_reply refusal 7 l).1 c = Some (r', c) ∧
    "tcp://a:1" ∉ r'.(peers_).
Proof.
  intros l refusal c. eexists. split.
  - apply (deposed_leader_expels_itself refusal 7 300 20000 l c);
      [reflexivity|discriminate| |reflexivity|vm_compute; discriminate].
    by apply create_channels_all.
  - apply (bool_decide_unpack _). vm_compute. exact I.
Defined.

(** The vote request carries every field [raft.proto] requires; the
    heartbeat never does: the leader sets neither [prev_log_index] nor
    [prev_log_term]. *)
Theorem requests_initialised r :
  VoteRequest.IsInitialized (vote_request r) = true ∧
  AppendRequest.IsInitialized (heartbeat r) = false.
Proof. split; reflexivity. Qed.

(** The term after the term of a fresh node is 0, and the term after
    2^64 - 1 is always 0: a candidate's term grows except at that wrap. *)
Theorem candidate_term_wraps r :
  is_u64 r.(term_) →
  (r.(term_) = U64 - 1 → (election_begin r).(term_) = 0) ∧
  (r.(term_) ≠ U64 - 1 → (election_begin r).(term_) = r.(term_) + 1).
Proof. intros H. simpl. split; intros; [|]; cint. Qed.

Lemma candidate_term_wraps_witness :
  (election_begin (set_term (U64 - 1) sample_node)).(term_) = 0.
Proof.
  apply candidate_term_wraps; [split; [discriminate|reflexivity]|reflexivity].
Defined.
