(* ===== verification/Main.v ===== *)
(** The program: [src/src/main.cpp].  The configuration file is text, one
    "address port" per line; [main] builds the service list and one node per
    line. *)

From S2P Require Import Prelude Strings Proto Node.
From stdpp Require Import base gmap sets list strings.
From Stdlib Require Import Ascii.

Open Scope Z_scope.

(** * Definitions *)

Definition BuildRPCAddr (addr : string) (port : Z) : string :=
  "tcp://" +:+ addr +:+ ":" +:+ to_string port.

(** [iss >> addr >> port]; what follows the port on the line is not read. *)
Definition parse_line (line : string) : option (string * Z) :=
  '(addr, rest) ← read_word line;
  '(port, _) ← read_int rest;
  Some (addr, port).

(** The [while (getline)] loop: the first line that does not parse ends it. *)
Fixpoint read_lines (lines : list string) : list (string * Z) :=
  match lines with
  | [] => []
  | line :: lines =>
      match parse_line line with
      | Some ap => ap :: read_lines lines
      | None => []
      end
  end.

Definition read_config (text : string) : list (string * Z) := read_lines (getlines text).

Definition service (cfg : list (string * Z)) : list string :=
  (λ ap, BuildRPCAddr ap.1 ap.2) <$> cfg.

(** The loop that constructs the nodes, from index [i] on. *)
Fixpoint launch_from (i : nat) (rest : list (string * Z)) (peers_addrs : list string)
    (t0 : nat → Z) : option (list Raft) :=
  match rest with
  | [] => Some []
  | (addr, port) :: rest =>
      r ← construct addr port (Z.of_nat i) peers_addrs (t0 i);
      rs ← launch_from (S i) rest peers_addrs t0;
      Some (r :: rs)
  end.

Definition launch (cfg : list (string * Z)) (t0 : nat → Z) : option (list Raft) :=
  launch_from 0 cfg (service cfg) t0.

(** What [main] runs on the text of the file its single argument names; the
    [assert] refuses any other argument count. *)
Definition main (argc : Z) (file : string) (t0 : nat → Z) : option (list Raft) :=
  if decide (argc = 2) then launch (read_config file) t0 else None.

(** A configuration as a file holds it. *)
Definition print_line (ap : string * Z) : string := ap.1 +:+ " " +:+ to_string ap.2.
Fixpoint print_config (cfg : list (string * Z)) : string :=
  match cfg with
  | [] => ""
  | ap :: cfg => print_line ap +:+ String (ascii_of_N 10) (print_config cfg)
  end.

(** An entry a configuration file can hold: an address of at least one
    character and no white space, and a port that is an [int]. *)
Definition entry_ok (ap : string * Z) : bool :=
  negb (bool_decide (ap.1 = "")) && all_chars (λ c, negb (is_space c)) ap.1
  && bool_decide (is_i32 ap.2).

(** What the constructor leaves in a node of the membership [addrs]. *)
Definition newly_built (addrs : list string) (r : Raft) : Prop :=
  r.(self_id_) ∈ addrs ∧ r.(vote_for_) = "" ∧ r.(term_) = U64 - 1 ∧ r.(status_) = FOLLOWER ∧
  r.(is_dead_) = false ∧ r.(peers_) = list_to_set addrs ∧ r.(logs_) = ConsensusLog.init.

(** * Lemmas *)

Lemma no_space_no_newline s :
  all_chars (λ c, negb (is_space c)) s = true → all_chars (λ c, negb (code c =? 10)) s = true.
Proof. apply all_chars_impl. unfold is_space. intros c. lia. Qed.

Lemma to_string_no_newline n : all_chars (λ c, negb (code c =? 10)) (to_string n) = true.
Proof.
  eapply all_chars_impl; [|apply (to_string_avoids n (ascii_of_N 10)); done].
  intros c Hc. apply negb_true_iff. apply negb_true_iff in Hc.
  apply bool_decide_eq_false in Hc. apply Z.eqb_neq. intros E. apply Hc.
  unfold code in E. rewrite <- (ascii_N_embedding c). f_equal. lia.
Qed.

Lemma print_line_no_newline ap :
  entry_ok ap = true → all_chars (λ c, negb (code c =? 10)) (print_line ap) = true.
Proof.
  unfold entry_ok, print_line. intros [[_ Hs]%andb_true_iff _]%andb_true_iff.
  rewrite all_chars_app, no_space_no_newline by done. simpl. apply to_string_no_newline.
Qed.

Lemma parse_print_line ap : entry_ok ap = true → parse_line (print_line ap) = Some ap.
Proof.
  destruct ap as [a p]. unfold entry_ok, print_line, parse_line; cbn [fst snd].
  intros [[Hne Hs]%andb_true_iff Hp]%andb_true_iff.
  apply bool_decide_eq_true in Hp. apply negb_true_iff, bool_decide_eq_false in Hne.
  rewrite read_word_app by done. simpl.
  assert (∀ s, read_int (" " +:+ s) = read_int s) as Hsp by (intros s; reflexivity).
  rewrite Hsp. rewrite <- (string_app_nil_r (to_string p)).
  by rewrite read_int_to_string.
Qed.

Lemma launch_from_spec cfg rest addrs t0 i :
  drop i cfg = rest → addrs = service cfg →
  ∃ rs, launch_from i rest addrs t0 = Some rs ∧ length rs = length rest ∧
    ∀ j r, rs !! j = Some r →
      newly_built addrs r ∧ leader_active_time_ r = t0 (i + j)%nat ∧
      ∃ ap, cfg !! (i + j)%nat = Some ap ∧ rpc_addr_ r = ap.1 ∧ rpc_port_ r = ap.2 ∧
        self_id_ r = BuildRPCAddr ap.1 ap.2.
Proof.
  intros Hd ->. revert i Hd. induction rest as [|[a p] rest IH]; intros i Hd.
  { exists []. split; [done|]. split; [done|]. intros j r. by rewrite lookup_nil. }
  assert (cfg !! i = Some (a, p)) as Hi.
  { rewrite <- (Nat.add_0_r i), <- lookup_drop. by rewrite Hd. }
  assert (drop (S i) cfg = rest) as Hd'.
  { rewrite <- Nat.add_1_r, <- drop_drop, Hd. done. }
  destruct (IH (S i) Hd') as (rs & E & Hlen & Hrs).
  assert (service cfg !! i = Some (BuildRPCAddr a p)) as Hs.
  { unfold service. by rewrite list_lookup_fmap, Hi. }
  simpl. unfold construct. rewrite decide_True by lia. rewrite Nat2Z.id, Hs. simpl. rewrite E.
  eexists. split; [done|]. split; [simpl; by rewrite Hlen|].
  intros [|j] r; simpl.
  - intros [= <-]. rewrite Nat.add_0_r. split; [|split; [done|]].
    + unfold newly_built; simpl. split; [|done]. eapply list_elem_of_lookup_2. exact Hs.
    + by exists (a, p).
  - intros Hr. destruct (Hrs j r Hr) as (H1 & H2 & H3).
    rewrite Nat.add_succ_r. done.
Qed.

Lemma launch_newly_built cfg t0 rs :
  launch cfg t0 = Some rs → Forall (newly_built (service cfg)) rs.
Proof.
  intros H. destruct (launch_from_spec cfg cfg _ t0 0 eq_refl eq_refl) as (rs' & E & _ & Hrs).
  unfold launch in H. rewrite E in H. injection H as <-.
  apply Forall_lookup. intros j r Hr. by apply Hrs in Hr as [? _].
Qed.

Lemma service_nonempty cfg : "" ∉ service cfg.
Proof. unfold service. rewrite list_elem_of_fmap. intros ([a p] & E & _). done. Qed.

#[export] Hint Resolve launch_newly_built service_nonempty : raft.

(** * Theorems *)

(** [main] always constructs a node for every entry it read - the vector
    access in the constructor is never out of range - and the node of entry
    [i] is as constructed, knows the whole membership and itself by its own address,
    and serves at exactly the address its peers will connect to. *)
Theorem launch_builds_every_node cfg t0 :
  ∃ rs, launch cfg t0 = Some rs ∧ length rs = length cfg ∧
    ∀ i a p, cfg !! i = Some (a, p) →
      ∃ r, rs !! i = Some r ∧ newly_built (service cfg) r ∧
        r.(self_id_) = BuildRPCAddr a p ∧ bind_address r = r.(self_id_) ∧
        leader_active_time_ r = t0 i.
Proof.
  destruct (launch_from_spec cfg cfg _ t0 0 eq_refl eq_refl) as (rs & E & Hlen & Hrs).
  exists rs. split; [done|]. split; [done|]. intros i a p Hi.
  destruct (rs !! i) as [r|] eqn:Hr.
  - exists r. split; [done|]. destruct (Hrs i r Hr) as (Hf & Ht & ap & Hap & Ha & Hp & Hself).
    simpl in *. rewrite Hap in Hi. injection Hi as ->. simpl in *.
    split; [done|]. split; [done|]. split; [|done].
    unfold bind_address. rewrite Ha, Hp, Hself. done.
  - apply lookup_ge_None in Hr. apply lookup_lt_Some in Hi. lia.
Qed.

(** C17: a configuration written one "address port" per line is read back as
    it was. *)
Theorem config_roundtrip cfg :
  Forall (λ ap, entry_ok ap = true) cfg → read_config (print_config cfg) = cfg.
Proof.
  unfold read_config. induction 1 as [|ap cfg Hap Hcfg IH]; [done|].
  cbn [print_config]. rewrite getlines_line by by apply print_line_no_newline.
  cbn [read_lines]. rewrite parse_print_line by done. by f_equal.
Qed.

Definition sample_config : list (string * Z) := [("127.0.0.1", 5555); ("127.0.0.1", 5556)].

Lemma config_roundtrip_witness : read_config (print_config sample_config) = sample_config.
Proof. apply config_roundtrip. repeat constructor. Defined.

(** The first line that is not "address port" - a blank one, say - ends
    the configuration: the lines before it are kept, those after it are not
    read. *)
Theorem config_stops_at_bad_line cfg bad text :
  Forall (λ ap, entry_ok ap = true) cfg →
  all_chars (λ c, negb (code c =? 10)) bad = true → parse_line bad = None →
  read_config (print_config cfg +:+ (bad +:+ String (ascii_of_N 10) text)) = cfg.
Proof.
  intros Hcfg Hbad Hp. unfold read_config. induction Hcfg as [|ap cfg Hap Hcfg IH].
  - cbn [print_config].
    change (read_lines (getlines (bad +:+ String (ascii_of_N 10) text)) = []).
    rewrite getlines_line by done. cbn [read_lines]. by rewrite Hp.
  - cbn [print_config]. rewrite string_app_assoc.
    rewrite string_app_cons.
    rewrite getlines_line by by apply print_line_no_newline.
    cbn [read_lines]. rewrite parse_print_line by done. by rewrite IH.
Qed.

Lemma config_stops_at_bad_line_witness :
  read_config (print_config sample_config +:+ ("" +:+ String (ascii_of_N 10) "10.0.0.1 80"))
    = sample_config.
Proof.
  apply config_stops_at_bad_line; [repeat constructor|reflexivity|reflexivity].
Defined.

Lemma app_colon_inj a b s t :
  all_chars (λ c, negb (bool_decide (c = ":"%char))) s = true →
  all_chars (λ c, negb (bool_decide (c = ":"%char))) t = true →
  a +:+ ":" +:+ s = b +:+ ":" +:+ t → a = b ∧ s = t.
Proof.
  intros Hs Ht. revert b. induction a as [|x a IH]; intros [|y b] E.
  - by injection E.
  - exfalso. injection E as <- E. change ("" +:+ s) with s in E.
    rewrite E, all_chars_app in Hs.
    apply andb_true_iff in Hs as [_ Hs]. done.
  - exfalso. injection E as -> E. change ("" +:+ t) with t in E.
    rewrite <- E, all_chars_app in Ht.
    apply andb_true_iff in Ht as [_ Ht]. done.
  - injection E as -> E. destruct (IH b E) as [-> ->]. done.
Qed.

(** Two entries with the same service address are the same entry, also
    when the address contains colons of its own; so distinct entries give
    nodes with distinct identities. *)
Theorem service_address_injective a p b q :
  is_i32 p → is_i32 q → BuildRPCAddr a p = BuildRPCAddr b q → a = b ∧ p = q.
Proof.
  unfold BuildRPCAddr. intros Hp Hq E.
  repeat injection E as E.
  destruct (app_colon_inj a b (to_string p) (to_string q)) as [-> E'].
  - by apply to_string_avoids.
  - by apply to_string_avoids.
  - done.
  - split; [done|by apply to_string_inj].
Qed.

Lemma service_address_injective_witness :
  BuildRPCAddr "::1" 80 = BuildRPCAddr "::1" 80 ∧ "::1" = "::1" ∧ 80 = 80.
Proof.
  split; [reflexivity|].
  apply (service_address_injective "::1" 80 "::1" 80);
    [vm_compute; split; discriminate..|reflexivity].
Defined.
