(* ===== verification/Cluster.v ===== *)
(** A cluster of nodes: daemons, request handlers, remote calls and [Kill],
    interleaved.

    One step is one atomic piece of one thread: a piece of a daemon between
    two cuts of [Daemon], one whole handler, one write of [Kill], or the outcome
    of a remote call at its caller.  The mutex [lock_] is part of the state of
    the process: the daemon takes it at [PLock] and gives it back at the end of
    the body, a handler takes it and gives it back, and a thread that finds it
    held does not move.

    The transport, rpcz over ZeroMQ, is not part of the repository.  Its
    [call_method] is the environment: a request put on the wire is handled at
    most once, at any later time, or never; the waiting caller gets the reply
    once there is one, or an [rpc_error] at any time - also when the request
    is handled later.  Whether rpcz sends a message whose required fields are
    not all set is the parameter [deliverable]. *)

From S2P Require Import Prelude Strings Proto Sync Node Daemon.
From stdpp Require Import base gmap sets list strings relations.

Open Scope Z_scope.

(** * State *)

Inductive Msg := MVote (request : VoteRequest.t) | MAppend (request : AppendRequest.t).
Inductive Reply := RVote (reply : VoteReply.t) | RAppend (reply : AppendReply.t).

(** A remote call made through a stub: who made it, to whom, and the reply of
    the handler once it ran. *)
Record RemoteCall := mkCall {
  caller : string;
  callee : string;
  message : Msg;
  answer : option Reply
}.

(** Where [Kill] is: not called, joining the daemon, stopping the server,
    joining the server thread, returned. *)
Inductive Killer := KNone | KJoinDaemon | KTerminate | KJoinServer | KDone.

(** One process: the object, the locals of its daemon, whether its rpcz
    application serves, [Kill], and the object's mutex [lock_]. *)
Record Proc := mkProc {
  raft : Raft;
  pc : Pc;
  chans : Channels;
  serving : bool;
  killer : Killer;
  lock_ : mutex
}.

Record Cluster := mkCluster {
  procs : gmap string Proc;
  calls : gmap nat RemoteCall;
  next_call : nat
}.

(** A process with a new object and a new program counter. *)
Definition at_pc (p : Proc) (r : Raft) (l : Pc) : Proc :=
  mkProc r l p.(chans) p.(serving) p.(killer) p.(lock_).

(** The same process, its mutex taken or given back. *)
Definition set_lock (m : mutex) (p : Proc) : Proc :=
  mkProc p.(raft) p.(pc) p.(chans) p.(serving) p.(killer) m.
Definition unlock (p : Proc) : Proc := set_lock (mutex_unlock p.(lock_)) p.

(** A process as the constructor leaves it, its two threads started. *)
Definition spawn (r : Raft) : Proc := mkProc r PSleep no_channels true KNone Unlocked.

(** The processes [main] started, nothing on the wire. *)
Definition boot (rs : list Raft) : Cluster :=
  mkCluster (list_to_map ((λ r, (r.(self_id_), spawn r)) <$> rs)) ∅ 0.

(** * Steps of one process *)

(** Who acts: the daemon (first nine), or the thread that called [Kill]. *)
Inductive Label :=
  | LStart (order : list string)
  | LTest
  | LFollower (draw now : Z)
  | LElect (order : list string)
  | LLead (order : list string)
  | LSend
  | LReply (now : Z)
  | LError
  | LFinish (now : Z)
  | LKill
  | LKillNext.

(** What a step leaves: the process and the remote call it made, if any; or
    undefined behaviour. *)
Inductive Outcome :=
  | Next (p : Proc) (out : option (string * Msg))
  | Undefined.

Section ProcStep.
(** The answers there are to the calls made so far, and the number the next
    call gets. *)
Variable answer_of : nat → option Reply.
Variable next : nat.

Definition send_step (peer : string) (m : Msg) (skip wait : Pc) (p : Proc) : Outcome :=
  if decide (peer = p.(raft).(self_id_)) then Next (at_pc p p.(raft) skip) None
  else
    match deref peer p.(chans) with
    | Some _ => Next (at_pc p p.(raft) wait) (Some (peer, m))
    | None => Undefined
    end.

Definition daemon_step (l : Label) (p : Proc) : option Outcome :=
  let r := p.(raft) in
  match l, p.(pc) with
  | LStart order, PSleep =>
      if decide (order ≡ₚ elements r.(peers_)) then
        Some (Next (mkProc r PTest (create_channels r.(self_id_) order no_channels)
                      p.(serving) p.(killer) p.(lock_)) None)
      else None
  | LTest, PTest =>
      if r.(is_dead_)
      then Some (Next (mkProc r PExit (destroy_channels p.(chans)) p.(serving) p.(killer)
                         p.(lock_)) None)
      else Some (Next (at_pc p r PLock) None)
  | LFollower draw now, PLock =>
      m ← mutex_lock p.(lock_);
      if decide (200 <= draw <= 350 ∧ r.(status_) = FOLLOWER) then
        match follower_body draw now r p.(chans) with
        | Some (r', ch) =>
            Some (Next (unlock (mkProc r' PTest ch p.(serving) p.(killer) m)) None)
        | None => Some Undefined
        end
      else None
  | LElect order, PLock =>
      m ← mutex_lock p.(lock_);
      if decide (order ≡ₚ elements r.(peers_) ∧ r.(status_) = CANDIDATE) then
        let r' := election_begin r in
        Some (Next (set_lock m (at_pc p r' (PVote (vote_request r') order 1))) None)
      else None
  | LLead order, PLock =>
      m ← mutex_lock p.(lock_);
      if decide (order ≡ₚ elements r.(peers_) ∧ r.(status_) ≠ FOLLOWER ∧ r.(status_) ≠ CANDIDATE)
      then Some (Next (set_lock m (at_pc p r (PBeat order))) None)
      else None
  | LSend, PVote q (peer :: todo) v =>
      Some (send_step peer (MVote q) (PVote q todo v) (PVoteWait q peer next todo v) p)
  | LSend, PBeat (peer :: todo) =>
      Some (send_step peer (MAppend (heartbeat r)) (PBeat todo) (PBeatWait peer next todo) p)
  | LReply now, PVoteWait q peer k todo v =>
      match answer_of k with
      | Some (RVote rep) => Some (Next (at_pc p r (PVote q todo (count_vote rep v))) None)
      | _ => None
      end
  | LReply now, PBeatWait peer k todo =>
      match answer_of k with
      | Some (RAppend rep) =>
          let '(r', stop) := heartbeat_reply rep now r in
          Some (Next (if stop then unlock (at_pc p r' PTest) else at_pc p r' (PBeat todo)) None)
      | _ => None
      end
  | LError, PVoteWait q peer k todo v => Some (Next (at_pc p r (PVote q todo v)) None)
  | LError, PBeatWait peer k todo => Some (Next (at_pc p r (PBeat todo)) None)
  | LFinish now, PVote q [] v => Some (Next (unlock (at_pc p (election_end v now r) PTest)) None)
  | LFinish now, PBeat [] => Some (Next (unlock (at_pc p r PTest)) None)
  | LKill, l =>
      match p.(killer), Kill_begin r with
      | KNone, Some r' => Some (Next (mkProc r' l p.(chans) p.(serving) KJoinDaemon p.(lock_)) None)
      | _, _ => None
      end
  | LKillNext, l =>
      match p.(killer), l with
      | KJoinDaemon, PExit =>
          Some (Next (mkProc r l p.(chans) p.(serving) KTerminate p.(lock_)) None)
      | KTerminate, _ => Some (Next (mkProc r l p.(chans) false KJoinServer p.(lock_)) None)
      | KJoinServer, _ =>
          Some (Next (mkProc (Kill_end r) l p.(chans) p.(serving) KDone p.(lock_)) None)
      | _, _ => None
      end
  | _, _ => None
  end.

(** The same steps as rules. *)
Inductive proc_step : Label → Proc → Outcome → Prop :=
  | ps_start order p :
      p.(pc) = PSleep → order ≡ₚ elements p.(raft).(peers_) →
      proc_step (LStart order) p
        (Next (mkProc p.(raft) PTest (create_channels p.(raft).(self_id_) order no_channels)
                 p.(serving) p.(killer) p.(lock_)) None)
  | ps_exit p :
      p.(pc) = PTest → p.(raft).(is_dead_) = true →
      proc_step LTest p
        (Next (mkProc p.(raft) PExit (destroy_channels p.(chans)) p.(serving) p.(killer)
                 p.(lock_)) None)
  | ps_loop p :
      p.(pc) = PTest → p.(raft).(is_dead_) = false →
      proc_step LTest p (Next (at_pc p p.(raft) PLock) None)
  | ps_follower draw now r' ch m p :
      p.(pc) = PLock → mutex_lock p.(lock_) = Some m → 200 <= draw <= 350 → p.(raft).(status_) = FOLLOWER →
      follower_body draw now p.(raft) p.(chans) = Some (r', ch) →
      proc_step (LFollower draw now) p
        (Next (unlock (mkProc r' PTest ch p.(serving) p.(killer) m)) None)
  | ps_follower_undefined draw now m p :
      p.(pc) = PLock → mutex_lock p.(lock_) = Some m → 200 <= draw <= 350 → p.(raft).(status_) = FOLLOWER →
      follower_body draw now p.(raft) p.(chans) = None →
      proc_step (LFollower draw now) p Undefined
  | ps_elect order m p :
      p.(pc) = PLock → mutex_lock p.(lock_) = Some m → order ≡ₚ elements p.(raft).(peers_) → p.(raft).(status_) = CANDIDATE →
      proc_step (LElect order) p
        (Next (set_lock m (at_pc p (election_begin p.(raft))
                 (PVote (vote_request (election_begin p.(raft))) order 1))) None)
  | ps_lead order m p :
      p.(pc) = PLock → mutex_lock p.(lock_) = Some m → order ≡ₚ elements p.(raft).(peers_) →
      p.(raft).(status_) ≠ FOLLOWER → p.(raft).(status_) ≠ CANDIDATE →
      proc_step (LLead order) p (Next (set_lock m (at_pc p p.(raft) (PBeat order))) None)
  | ps_ask q peer todo v p :
      p.(pc) = PVote q (peer :: todo) v →
      proc_step LSend p
        (send_step peer (MVote q) (PVote q todo v) (PVoteWait q peer next todo v) p)
  | ps_beat peer todo p :
      p.(pc) = PBeat (peer :: todo) →
      proc_step LSend p
        (send_step peer (MAppend (heartbeat p.(raft))) (PBeat todo) (PBeatWait peer next todo) p)
  | ps_vote_reply now q peer k todo v rep p :
      p.(pc) = PVoteWait q peer k todo v → answer_of k = Some (RVote rep) →
      proc_step (LReply now) p (Next (at_pc p p.(raft) (PVote q todo (count_vote rep v))) None)
  | ps_beat_reply now peer k todo rep p :
      p.(pc) = PBeatWait peer k todo → answer_of k = Some (RAppend rep) →
      proc_step (LReply now) p
        (Next (if (heartbeat_reply rep now p.(raft)).2
               then unlock (at_pc p (heartbeat_reply rep now p.(raft)).1 PTest)
               else at_pc p (heartbeat_reply rep now p.(raft)).1 (PBeat todo)) None)
  | ps_vote_error q peer k todo v p :
      p.(pc) = PVoteWait q peer k todo v →
      proc_step LError p (Next (at_pc p p.(raft) (PVote q todo v)) None)
  | ps_beat_error peer k todo p :
      p.(pc) = PBeatWait peer k todo →
      proc_step LError p (Next (at_pc p p.(raft) (PBeat todo)) None)
  | ps_vote_finish now q v p :
      p.(pc) = PVote q [] v →
      proc_step (LFinish now) p (Next (unlock (at_pc p (election_end v now p.(raft)) PTest)) None)
  | ps_beat_finish now p :
      p.(pc) = PBeat [] →
      proc_step (LFinish now) p (Next (unlock (at_pc p p.(raft) PTest)) None)
  | ps_kill r' p :
      p.(killer) = KNone → Kill_begin p.(raft) = Some r' →
      proc_step LKill p (Next (mkProc r' p.(pc) p.(chans) p.(serving) KJoinDaemon p.(lock_)) None)
  | ps_kill_joined p :
      p.(killer) = KJoinDaemon → p.(pc) = PExit →
      proc_step LKillNext p
        (Next (mkProc p.(raft) p.(pc) p.(chans) p.(serving) KTerminate p.(lock_)) None)
  | ps_kill_terminated p :
      p.(killer) = KTerminate →
      proc_step LKillNext p
        (Next (mkProc p.(raft) p.(pc) p.(chans) false KJoinServer p.(lock_)) None)
  | ps_kill_done p :
      p.(killer) = KJoinServer →
      proc_step LKillNext p
        (Next (mkProc (Kill_end p.(raft)) p.(pc) p.(chans) p.(serving) KDone p.(lock_)) None).

Lemma daemon_step_sound l p o : daemon_step l p = Some o → proc_step l p o.
Proof.
  destruct p as [r pcp ch sv kl lk]. unfold daemon_step; simpl.
  set (p := mkProc r pcp ch sv kl lk).
  destruct l, pcp; intros E; try discriminate;
    try (apply bind_Some in E as (m & Hm & E));
    repeat (case_decide || case_match); simplify_eq/=; destruct_and?;
    try solve [econstructor; simpl; tauto || done].
  all: try solve [eapply (ps_elect _ m p) || eapply (ps_lead _ m p)
                  || eapply (ps_follower _ _ _ _ m p)
                  || eapply (ps_follower_undefined _ _ m p); done].
  all: try match goal with
    | H : heartbeat_reply ?rep ?now _ = (?a, ?b), Hc : answer_of ?k = _ |- _ =>
        pose proof (ps_beat_reply now _ k _ rep p eq_refl Hc) as Hstep;
        simpl in Hstep; rewrite H in Hstep; exact Hstep
    end.
  all: try solve [apply (ps_kill _ p); done].
  all: econstructor; done.
Qed.

Lemma daemon_step_complete l p o : proc_step l p o → daemon_step l p = Some o.
Proof.
  unfold daemon_step. destruct 1; simpl in *;
    repeat match goal with
    | H : pc _ = _ |- _ => rewrite H; clear H
    | H : mutex_lock _ = _ |- _ => rewrite H; clear H; simpl
    end;
    try (rewrite decide_True by tauto); try done.
  all: repeat match goal with
    | H : is_dead_ _ = _ |- _ => rewrite H
    | H : follower_body _ _ _ _ = _ |- _ => rewrite H
    | H : answer_of _ = _ |- _ => rewrite H
    | H : killer _ = _ |- _ => rewrite H
    | H : Kill_begin _ = _ |- _ => rewrite H
    end; try done.
  by destruct (heartbeat_reply rep now (raft p)) as [r' []].
Qed.

Lemma daemon_step_iff l p o : daemon_step l p = Some o ↔ proc_step l p o.
Proof. split; [apply daemon_step_sound|apply daemon_step_complete]. Qed.
End ProcStep.

(** Case analysis of a call that left a process behind. *)
Ltac invert_send :=
  try match goal with H : Next _ _ = send_step _ _ _ _ _ |- _ => symmetry in H end;
  match goal with H : send_step _ _ _ _ _ = Next _ _ |- _ =>
    unfold send_step in H; case_decide; [|case_match]; simplify_eq end.

(** * Steps of the cluster *)

Definition answer_of (c : Cluster) (k : nat) : option Reply := rc ← c.(calls) !! k; rc.(answer).

(** The cluster after process [n] became [p], having made the call [out]. *)
Definition after (n : string) (p : Proc) (out : option (string * Msg)) (c : Cluster) : Cluster :=
  let procs' := <[n := p]> c.(procs) in
  match out with
  | None => mkCluster procs' c.(calls) c.(next_call)
  | Some (peer, m) =>
      mkCluster procs' (<[c.(next_call) := mkCall n peer m None]> c.(calls)) (S c.(next_call))
  end.

(** What a handler does and answers. *)
Definition handle (m : Msg) (now : Z) (r : Raft) : Raft * Reply :=
  match m with
  | MVote q => let '(r, rep) := Vote q now r in (r, RVote rep)
  | MAppend q => let '(r, rep) := AppendMsg q now r in (r, RAppend rep)
  end.

(** The cluster after the handler of call [k] ran in [p], whose mutex it left
    unlocked. *)
Definition handled (k : nat) (rc : RemoteCall) (now : Z) (p : Proc) (c : Cluster) : Cluster :=
  let '(r', rep) := handle rc.(message) now p.(raft) in
  mkCluster (<[rc.(callee) := unlock (at_pc p r' p.(pc))]> c.(procs))
    (<[k := mkCall rc.(caller) rc.(callee) rc.(message) (Some rep)]> c.(calls)) c.(next_call).

(** What a handler leaves does not depend on the mutex it took. *)
Lemma handled_lock k rc now m p c : handled k rc now (set_lock m p) c = handled k rc now p c.
Proof. done. Qed.

(** An event: a step of a process, or the handling of a call at its callee. *)
Inductive Event :=
  | EProc (n : string) (l : Label)
  | EDeliver (call : nat) (now : Z).

Section Cluster.
(** Whether the transport sends the message at all. *)
Variable deliverable : Msg → bool.

Inductive step : Event → Cluster → Cluster → Prop :=
  | step_proc n l p p' out c :
      c.(procs) !! n = Some p →
      proc_step (answer_of c) c.(next_call) l p (Next p' out) →
      step (EProc n l) c (after n p' out c)
  | step_deliver k now rc m p c :
      c.(calls) !! k = Some rc → rc.(answer) = None → deliverable rc.(message) = true →
      c.(procs) !! rc.(callee) = Some p → p.(serving) = true → mutex_lock p.(lock_) = Some m →
      step (EDeliver k now) c (handled k rc now (set_lock m p) c).

(** The executable step: [None] when the event cannot happen or is undefined. *)
Definition exec (e : Event) (c : Cluster) : option Cluster :=
  match e with
  | EProc n l =>
      p ← c.(procs) !! n;
      o ← daemon_step (answer_of c) c.(next_call) l p;
      match o with Next p' out => Some (after n p' out c) | Undefined => None end
  | EDeliver k now =>
      rc ← c.(calls) !! k;
      p ← c.(procs) !! rc.(callee);
      match rc.(answer) with
      | None =>
          m ← mutex_lock p.(lock_);
          if deliverable rc.(message) && p.(serving)
          then Some (handled k rc now (set_lock m p) c) else None
      | Some _ => None
      end
  end.

Fixpoint exec_all (es : list Event) (c : Cluster) : option Cluster :=
  match es with
  | [] => Some c
  | e :: es => c ← exec e c; exec_all es c
  end.

(** The clusters the events [es] lead to, in order. *)
Inductive steps : list Event → Cluster → Cluster → Prop :=
  | steps_nil c : steps [] c c
  | steps_snoc es e c1 c2 c3 : steps es c1 c2 → step e c2 c3 → steps (es ++ [e]) c1 c3.

Lemma exec_step e c c' : exec e c = Some c' ↔ step e c c'.
Proof.
  split.
  - destruct e as [n l|k now]; simpl.
    + intros (p & Hp & (o & Ho & E)%bind_Some)%bind_Some.
      destruct o as [p' out|]; simplify_eq.
      econstructor; [done|]. by apply daemon_step_sound.
    + intros (rc & Hrc & (p & Hp & E)%bind_Some)%bind_Some.
      destruct (answer rc) eqn:Ha; [done|]. apply bind_Some in E as (m & Hm & E).
      destruct (deliverable (message rc)) eqn:Hd, (serving p) eqn:Hs; simplify_eq/=.
      by econstructor.
  - destruct 1 as [n l p p' out c Hp Hs|k now rc m p c Hrc Ha Hd Hp Hs Hl]; simpl.
    + rewrite Hp. simpl. by rewrite (daemon_step_complete _ _ _ _ _ Hs).
    + rewrite Hrc; simpl. rewrite Hp; simpl. by rewrite Ha, Hl, Hd, Hs.
Qed.

Lemma steps_app es es' c1 c2 c3 : steps es c1 c2 → steps es' c2 c3 → steps (es ++ es') c1 c3.
Proof.
  intros H1 H2. induction H2 as [|es' e c2 c3 c4 _ IH Hs].
  - by rewrite app_nil_r.
  - rewrite app_assoc. econstructor; [by apply IH|done].
Qed.

Lemma exec_all_steps es c c' : exec_all es c = Some c' → steps es c c'.
Proof.
  revert c. induction es as [|e es IH]; intros c; simpl.
  - intros [= ->]. constructor.
  - intros (c1 & He & H)%bind_Some.
    change (e :: es) with ([e] ++ es). eapply steps_app; [|by apply IH].
    apply (steps_snoc [] e c c c1); [constructor|by apply exec_step].
Qed.

(** A process about to do something undefined. *)
Definition crashes (c : Cluster) : Prop :=
  ∃ n p l, c.(procs) !! n = Some p ∧ proc_step (answer_of c) c.(next_call) l p Undefined.
End Cluster.
