(* ===== verification/ClusterInv.v ===== *)
(** What is true of every process of every reachable cluster: the roles, the
    stubs, the locks and [Kill].  [proc_inv] is local to one process, so it is
    proved once per rule of [proc_step] and once for the handlers, and lifted
    to clusters by induction on the events. *)

From S2P Require Import Prelude Strings Proto Sync Node NodeFacts Daemon DaemonFacts Main Cluster.
From stdpp Require Import base gmap sets list strings.

Open Scope Z_scope.

(** * Definitions *)

(** The peers a program counter still has to call. *)
Definition pending (l : Pc) : list string :=
  match l with
  | PVote _ todo _ | PBeat todo => todo
  | PVoteWait _ peer _ todo _ | PBeatWait peer _ todo => peer :: todo
  | PSleep | PTest | PLock | PExit => []
  end.

(** The role of a process that is not dead, and the vote that goes with it. *)
Definition role_ok (n : string) (r : Raft) (l : Pc) : Prop :=
  match l with
  | PVote q _ _ | PVoteWait q _ _ _ _ =>
      r.(status_) = CANDIDATE ∧ r.(vote_for_) = n ∧ q = vote_request r
  | PBeat _ | PBeatWait _ _ _ => r.(status_) = LEADER ∧ r.(vote_for_) = n
  | PSleep | PTest | PLock | PExit =>
      r.(status_) = FOLLOWER ∨ (r.(status_) = CANDIDATE ∧ r.(vote_for_) = "")
      ∨ (r.(status_) = LEADER ∧ r.(vote_for_) = n)
  end.

(** How far [Kill] got, what it has set, and where the daemon is by then. *)
Definition kill_ok (p : Proc) : Prop :=
  match p.(killer) with
  | KNone => p.(raft).(is_dead_) = false ∧ p.(serving) = true
  | KJoinDaemon => p.(raft).(is_dead_) = true ∧ p.(serving) = true
  | KTerminate => p.(raft).(is_dead_) = true ∧ p.(serving) = true ∧ p.(pc) = PExit
  | KJoinServer => p.(raft).(is_dead_) = true ∧ p.(serving) = false ∧ p.(pc) = PExit
  | KDone => p.(raft).(is_dead_) = true ∧ p.(serving) = false ∧ p.(pc) = PExit
             ∧ p.(raft).(status_) = DEAD
  end.

Definition chans_ok (n : string) (p : Proc) : Prop :=
  match p.(pc) with
  | PSleep => p.(chans) = no_channels
  | PExit => p.(chans).(stubs) = ∅
  | _ => channels_ok n p.(raft).(peers_) p.(chans)
  end.

Definition wait_not_self (n : string) (l : Pc) : Prop :=
  match l with
  | PVoteWait _ peer _ _ _ | PBeatWait peer _ _ => peer ≠ n
  | _ => True
  end.

Record proc_inv (members : gset string) (n : string) (p : Proc) : Prop := {
  pi_name : n ≠ "";
  pi_self : p.(raft).(self_id_) = n;
  pi_term : is_u64 p.(raft).(term_);
  pi_logs : p.(raft).(logs_) = ConsensusLog.init;
  pi_peers : p.(raft).(peers_) ⊆ members;
  pi_role : p.(killer) = KDone ∨ role_ok n p.(raft) p.(pc);
  pi_kill : kill_ok p;
  pi_chans : chans_ok n p;
  pi_pending : ∀ x, x ∈ pending p.(pc) → x ∈ p.(raft).(peers_);
  pi_nodup : NoDup (pending p.(pc));
  pi_wait : wait_not_self n p.(pc);
  pi_lock : p.(lock_) = if holds_lock p.(pc) then Locked else Unlocked
}.

(** Every call carries a message of its caller's name, and is older than the
    next one. *)
Definition call_ok (c : Cluster) (k : nat) (rc : RemoteCall) : Prop :=
  (k < c.(next_call))%nat ∧ rc.(caller) ≠ "" ∧
  match rc.(message) with
  | MVote q => VoteRequest.get_candidate_id q = rc.(caller)
  | MAppend q => AppendRequest.get_candidate_id q = rc.(caller)
               ∧ AppendRequest.IsInitialized q = false
  end ∧
  match rc.(answer) with
  | Some (RAppend rep) => is_u64 (AppendReply.get_term rep)
  | _ => True
  end.

Record cluster_inv (members : gset string) (c : Cluster) : Prop := {
  ci_procs : ∀ n p, c.(procs) !! n = Some p → proc_inv members n p;
  ci_calls : ∀ k rc, c.(calls) !! k = Some rc → call_ok c k rc
}.

(** A cluster reached from the boot of a configuration by the events [es]. *)
Definition reachable (deliverable : Msg → bool) (cfg : list (string * Z)) (t0 : nat → Z)
    (es : list Event) (c : Cluster) : Prop :=
  ∃ rs, launch cfg t0 = Some rs ∧ steps deliverable es (boot rs) c.

(** * The steps of the daemon preserve the invariant *)

Lemma follower_body_frame draw now r ch r' ch' :
  follower_body draw now r ch = Some (r', ch') → r.(status_) = FOLLOWER →
  (r' = r ∨
   (r' = set_status CANDIDATE r ∧ r.(vote_for_) = "") ∨
   (r' = set_vote_for "" (set_peers (r.(peers_) ∖ {[r.(vote_for_)]}) r) ∧ r.(vote_for_) ≠ "")).
Proof.
  unfold follower_body. intros E _.
  destruct (silence r now <? patience draw); [naive_solver|].
  case_decide; [naive_solver|]. destruct (drop_channel _ _); naive_solver.
Qed.

Lemma follower_body_ok self draw now r ch r' ch' :
  follower_body draw now r ch = Some (r', ch') → channels_ok self r.(peers_) ch →
  channels_ok self r'.(peers_) ch'.
Proof.
  unfold follower_body. intros E Hok.
  destruct (silence r now <? patience draw); [naive_solver|].
  case_decide; [naive_solver|].
  destruct (drop_channel_ok self _ r.(vote_for_) ch Hok) as (c' & Hd & Hok').
  rewrite Hd in E. simplify_eq/=. done.
Qed.

Lemma election_end_frame v now r :
  let r' := election_end v now r in
  r'.(self_id_) = r.(self_id_) ∧ r'.(term_) = r.(term_) ∧ r'.(peers_) = r.(peers_)
  ∧ r'.(is_dead_) = r.(is_dead_) ∧ r'.(logs_) = r.(logs_)
  ∧ ((r'.(status_) = LEADER ∧ r'.(vote_for_) = r.(vote_for_) ∧ has_majority r v = true)
     ∨ (r'.(status_) = FOLLOWER ∧ r'.(vote_for_) = "" ∧ has_majority r v = false)).
Proof.
  intros r'. unfold r'. destruct (election_end_cases v now r) as [[? ->]|[? ->]].
  - destruct (leader_init_frame (set_status LEADER r)) as (-> & -> & -> & -> & -> & -> & -> & _).
    simpl. naive_solver.
  - simpl. naive_solver.
Qed.

Lemma heartbeat_reply_cases rep now r :
  (AppendReply.get_success rep = true ∧ heartbeat_reply rep now r = (r, false)) ∨
  (AppendReply.get_success rep = false ∧
   heartbeat_reply rep now r =
     (set_active_time now (set_term (AppendReply.get_term rep) (set_status FOLLOWER r)), true)).
Proof. unfold heartbeat_reply. destruct (AppendReply.get_success rep); auto. Qed.

Lemma kill_not_exit p : kill_ok p → p.(pc) ≠ PExit →
  p.(killer) = KNone ∨ p.(killer) = KJoinDaemon.
Proof. unfold kill_ok. destruct (killer p); naive_solver. Qed.

Lemma kill_ok_at p r l ch m :
  kill_ok p → p.(pc) ≠ PExit → r.(is_dead_) = p.(raft).(is_dead_) →
  kill_ok (mkProc r l ch p.(serving) p.(killer) m).
Proof.
  intros Hk Hpc Hd. destruct (kill_not_exit p Hk Hpc) as [E|E];
    unfold kill_ok in *; simpl; rewrite E in *; naive_solver congruence.
Qed.

(** The message a step puts on the wire. *)
Definition out_ok (n : string) (out : option (string * Msg)) : Prop :=
  match out with
  | None => True
  | Some (_, MVote q) => VoteRequest.get_candidate_id q = n
  | Some (_, MAppend q) =>
      AppendRequest.get_candidate_id q = n ∧ AppendRequest.IsInitialized q = false
  end.

Section ProcStepInv.
Variables (members : gset string) (n : string).
Variables (answers : nat → option Reply) (next : nat).
Hypothesis answers_u64 :
  ∀ k rep, answers k = Some (RAppend rep) → is_u64 (AppendReply.get_term rep).

(** Splits the goal [proc_inv] and closes the fields that carry over; what is
    left is what the step changed. *)
Ltac fields :=
  split; simpl; try done; try (by right); try (by intros x ?%not_elem_of_nil);
  try (by apply NoDup_nil_2).

Ltac keep_inv Hinv :=
  destruct Hinv as [Hname Hself Hterm Hlogs Hpeers Hrole Hkill Hchans Hpend Hnd Hwait Hlock].

(** A process that is not dead keeps the invariant when only its program
    counter changes and still fits, and its mutex with it. *)
Lemma proc_inv_move_lock p l m :
  proc_inv members n p → p.(pc) ≠ PExit → l ≠ PExit → l ≠ PSleep → p.(pc) ≠ PSleep →
  role_ok n p.(raft) l → (∀ x, x ∈ pending l → x ∈ p.(raft).(peers_)) → NoDup (pending l) →
  wait_not_self n l → m = (if holds_lock l then Locked else Unlocked) →
  proc_inv members n (set_lock m (at_pc p p.(raft) l)).
Proof.
  intros [? ? ? ? ? ? Hk Hc ? ? ? ?] Hpc Hl Hl' Hpc' Hr Hp Hnd Hw Hm.
  fields.
  - by apply (kill_ok_at p _ l).
  - unfold chans_ok in *. simpl. destruct (pc p), l; done.
Qed.

Lemma proc_inv_move p l :
  proc_inv members n p → p.(pc) ≠ PExit → l ≠ PExit → l ≠ PSleep → p.(pc) ≠ PSleep →
  role_ok n p.(raft) l → (∀ x, x ∈ pending l → x ∈ p.(raft).(peers_)) → NoDup (pending l) →
  wait_not_self n l → holds_lock l = holds_lock p.(pc) →
  proc_inv members n (at_pc p p.(raft) l).
Proof.
  intros Hinv ? ? ? ? ? ? ? ? Hl. apply (proc_inv_move_lock p l p.(lock_)); try done.
  by rewrite Hl, (pi_lock _ _ _ Hinv).
Qed.

Lemma send_step_inv p peer m skip wait o :
  proc_inv members n p → p.(pc) ≠ PExit → p.(pc) ≠ PSleep →
  skip ≠ PExit → skip ≠ PSleep → wait ≠ PExit → wait ≠ PSleep →
  channels_ok n p.(raft).(peers_) p.(chans) →
  role_ok n p.(raft) skip → role_ok n p.(raft) wait →
  peer ∈ p.(raft).(peers_) →
  (∀ x, x ∈ pending skip → x ∈ p.(raft).(peers_)) →
  (∀ x, x ∈ pending wait → x ∈ p.(raft).(peers_)) →
  NoDup (pending skip) → NoDup (pending wait) →
  holds_lock skip = holds_lock p.(pc) → holds_lock wait = holds_lock p.(pc) →
  wait_not_self n skip → (peer ≠ n → wait_not_self n wait) → out_ok n (Some (peer, m)) →
  send_step peer m skip wait p = o →
  ∃ p' out, o = Next p' out ∧ proc_inv members n p' ∧ out_ok n out.
Proof.
  intros Hinv ? ? ? ? ? ? Hch Hrs Hrw Hpeer Hps Hpw ? ? ? ? Hws Hww Hout <-. unfold send_step.
  pose proof (pi_self _ _ _ Hinv) as Hself. rewrite Hself.
  case_decide as Hd.
  - eexists _, _. split; [done|]. split; [|done]. by apply proc_inv_move.
  - destruct (deref_ok n _ _ peer Hch Hpeer Hd) as [q ->].
    eexists _, _. split; [done|]. split; [|done]. apply proc_inv_move; auto.
Qed.

Lemma role_live p : proc_inv members n p → p.(pc) ≠ PExit → role_ok n p.(raft) p.(pc).
Proof.
  intros Hinv Hpc. destruct (pi_role _ _ _ Hinv) as [E|]; [|done].
  pose proof (pi_kill _ _ _ Hinv) as Hk. unfold kill_ok in Hk. rewrite E in Hk. naive_solver.
Qed.

Lemma start_inv p order :
  p.(pc) = PSleep → order ≡ₚ elements p.(raft).(peers_) → proc_inv members n p →
  proc_inv members n (mkProc p.(raft) PTest
    (create_channels p.(raft).(self_id_) order no_channels) p.(serving) p.(killer) p.(lock_)).
Proof.
  intros Hpc Ho Hinv. pose proof (role_live p Hinv ltac:(congruence)) as Hr.
  keep_inv Hinv. rewrite Hpc in *; simpl in Hlock.
  fields.
  - apply (kill_ok_at p); [done|congruence|done].
  - unfold chans_ok; simpl. rewrite Hself. by apply create_channels_all.
Qed.

Lemma exit_inv p :
  p.(pc) = PTest → proc_inv members n p →
  proc_inv members n (mkProc p.(raft) PExit (destroy_channels p.(chans)) p.(serving)
    p.(killer) p.(lock_)).
Proof.
  intros Hpc Hinv. pose proof (role_live p Hinv ltac:(congruence)) as Hr.
  keep_inv Hinv. unfold chans_ok in Hchans. rewrite Hpc in *; simpl in Hlock.
  fields.
  - apply (kill_ok_at p); [done|congruence|done].
  - unfold chans_ok; simpl. by eapply destroy_channels_ok.
Qed.

Lemma follower_inv p draw now :
  p.(pc) = PLock → p.(raft).(status_) = FOLLOWER → proc_inv members n p →
  ∃ r' ch, follower_body draw now p.(raft) p.(chans) = Some (r', ch) ∧
    proc_inv members n (mkProc r' PTest ch p.(serving) p.(killer) Unlocked).
Proof.
  intros Hpc Hst Hinv. keep_inv Hinv. unfold chans_ok in Hchans. rewrite Hpc in *; simpl in Hlock.
  assert (∃ r' ch, follower_body draw now p.(raft) p.(chans) = Some (r', ch)) as (r' & ch & E).
  { unfold follower_body. case_match; [by eauto|]. case_decide; [by eauto|].
    destruct (drop_channel_ok n _ p.(raft).(vote_for_) _ Hchans) as (c' & -> & _). simpl. eauto. }
  exists r', ch. split; [done|].
  pose proof (follower_body_ok n _ _ _ _ _ _ E Hchans) as Hok'.
  destruct (follower_body_frame _ _ _ _ _ _ E Hst) as [->|[[-> Hv]|[-> Hv]]];
    fields; try (by right; naive_solver); try set_solver;
    apply (kill_ok_at p); done || congruence.
Qed.

Lemma elect_inv p order :
  p.(pc) = PLock → order ≡ₚ elements p.(raft).(peers_) → p.(raft).(status_) = CANDIDATE →
  proc_inv members n p →
  proc_inv members n (set_lock Locked (at_pc p (election_begin p.(raft))
    (PVote (vote_request (election_begin p.(raft))) order 1))).
Proof.
  intros Hpc Ho Hst Hinv. keep_inv Hinv. unfold chans_ok in Hchans. rewrite Hpc in *; simpl in Hlock.
  split; simpl; try done.
  - apply u64_range.
  - right. by rewrite Hself.
  - apply (kill_ok_at p); [done|congruence|done].
  - intros x Hx. rewrite Ho in Hx. by apply elem_of_elements.
  - rewrite Ho. apply NoDup_elements.
Qed.

Lemma finish_inv p q v now :
  p.(pc) = PVote q [] v → proc_inv members n p →
  proc_inv members n (unlock (at_pc p (election_end v now p.(raft)) PTest)).
Proof.
  intros Hpc Hinv. pose proof (role_live p Hinv ltac:(congruence)) as Hr.
  keep_inv Hinv. unfold chans_ok in Hchans. rewrite Hpc in *; simpl in Hlock.
  destruct (election_end_frame v now p.(raft)) as (E1 & E2 & E3 & E4 & E5 & E6).
  destruct Hr as (? & Hv & ?).
  fields; rewrite ?E1, ?E2, ?E3, ?E5; try done.
  - right. rewrite Hv in E6. tauto.
  - apply (kill_ok_at p); [done|congruence|done].
  - unfold chans_ok; simpl. by rewrite E3.
Qed.

Lemma beat_reply_inv p peer k todo rep now :
  p.(pc) = PBeatWait peer k todo → answers k = Some (RAppend rep) → proc_inv members n p →
  proc_inv members n (if (heartbeat_reply rep now p.(raft)).2
    then unlock (at_pc p (heartbeat_reply rep now p.(raft)).1 PTest)
    else at_pc p (heartbeat_reply rep now p.(raft)).1 (PBeat todo)).
Proof.
  intros Hpc Ha Hinv. pose proof (role_live p Hinv ltac:(congruence)) as Hr.
  pose proof Hinv as Hinv'. keep_inv Hinv. unfold chans_ok in Hchans. rewrite Hpc in *; simpl in Hlock.
  destruct (heartbeat_reply_cases rep now p.(raft)) as [[_ ->]|[_ ->]]; simpl.
  - apply proc_inv_move; try congruence; try done.
    + intros x Hx. apply Hpend. set_solver.
    + by eapply NoDup_cons_1_2.
    + by rewrite Hpc.
  - fields.
    + by apply (answers_u64 k).
    + right. by left.
    + apply (kill_ok_at p); [done|congruence|done].
Qed.

Lemma kill_inv p l o :
  proc_step answers next l p o → (l = LKill ∨ l = LKillNext) → proc_inv members n p →
  ∃ p', o = Next p' None ∧ proc_inv members n p'.
Proof.
  intros Hs Hl Hinv. keep_inv Hinv.
  destruct Hs; try (exfalso; destruct Hl; discriminate);
    eexists; (split; [done|]); unfold kill_ok in Hkill; rewrite H in Hkill.
  - unfold Kill_begin in H0. case_decide; [|done]. injection H0 as <-.
    fields; [right; destruct Hrole; [congruence|done]|by destruct Hkill].
  - fields; [destruct Hrole; [congruence|by right]|by destruct_and?].
  - fields; [destruct Hrole; [congruence|by right]|by destruct_and?].
  - fields; [by left|by destruct_and?].
Qed.

(** The premises of a step inside the loop over the peers. *)
Ltac calls :=
  try done; try congruence; simpl;
  try (match goal with H : pc ?p = _ |- context [pc ?p] => by rewrite H end);
  try (match goal with H : NoDup (_ :: _) |- NoDup _ => by eapply NoDup_cons_1_2 end);
  try (match goal with H : ∀ x, x ∈ _ → x ∈ _ |- _ =>
         first [intros x Hx; apply H; set_solver|apply H; set_solver] end).

(** No rule leads to undefined behaviour, and every rule keeps the invariant. *)
Lemma proc_step_inv p l o :
  proc_step answers next l p o → proc_inv members n p →
  ∃ p' out, o = Next p' out ∧ proc_inv members n p' ∧ out_ok n out.
Proof.
  intros Hs Hinv. pose proof Hs as Hs'.
  assert (∀ l', p.(pc) = l' → l' ≠ PExit → role_ok n p.(raft) l') as Hrole
    by (intros l' <- ?; by apply role_live).
  pose proof (pi_chans _ _ _ Hinv) as Hch. unfold chans_ok in Hch.
  pose proof (pi_pending _ _ _ Hinv) as Hpend. pose proof (pi_self _ _ _ Hinv) as Hself.
  pose proof (pi_nodup _ _ _ Hinv) as Hnd.
  destruct Hs; try (match goal with H : pc _ = _ |- _ =>
      rename H into Hpc; rewrite Hpc in Hch, Hpend, Hnd; simpl in Hnd end);
    try (match goal with H : mutex_lock _ = Some ?m |- _ =>
      apply mutex_lock_Some in H as [Hfree ->] end);
    try specialize (Hrole _ Hpc ltac:(done)).
  - eexists _, _; split; [done|]; split; [by apply start_inv|done].
  - eexists _, _; split; [done|]; split; [by apply exit_inv|done].
  - eexists _, _; split; [done|]; split; [|done].
    apply proc_inv_move; congruence || done || by rewrite Hpc.
  - destruct (follower_inv p draw now) as (r2 & ch2 & E & ?); [done..|].
    eexists _, _; split; [done|]. simplify_eq. done.
  - destruct (follower_inv p draw now) as (r2 & ch2 & E & ?); [done..|]. congruence.
  - eexists _, _; split; [done|]; split; [by apply elect_inv|done].
  - eexists _, _; split; [done|]; split; [|done]. simpl in Hrole.
    match goal with H : _ ≡ₚ _ |- _ => rename H into Ho end.
    apply proc_inv_move_lock; try congruence; try done; simpl; [naive_solver| |].
    + intros x Hx. rewrite Ho in Hx. by apply elem_of_elements.
    + rewrite Ho. apply NoDup_elements.
  - eapply (send_step_inv p peer (MVote q) (PVote q todo v) (PVoteWait q peer next todo v)); calls.
    destruct Hrole as (_ & _ & ->). done.
  - eapply (send_step_inv p peer (MAppend (heartbeat (raft p))) (PBeat todo)
              (PBeatWait peer next todo)); calls.
  - eexists _, _; split; [done|]; split; [|done]. apply proc_inv_move; calls.
  - eexists _, _; split; [done|]; split; [by eapply beat_reply_inv|done].
  - eexists _, _; split; [done|]; split; [|done]. apply proc_inv_move; calls.
  - eexists _, _; split; [done|]; split; [|done]. apply proc_inv_move; calls.
  - eexists _, _; split; [done|]; split; [by eapply finish_inv|done].
  - eexists _, _; split; [done|]; split; [|done]. simpl in Hrole.
    apply (proc_inv_move_lock p PTest Unlocked); try congruence; try done; simpl;
      tauto || set_solver.
  - destruct (kill_inv _ _ _ Hs') as (p' & ? & ?); [auto|done|]. eexists _, _; by eauto.
  - destruct (kill_inv _ _ _ Hs') as (p' & ? & ?); [auto|done|]. eexists _, _; by eauto.
  - destruct (kill_inv _ _ _ Hs') as (p' & ? & ?); [auto|done|]. eexists _, _; by eauto.
  - destruct (kill_inv _ _ _ Hs') as (p' & ? & ?); [auto|done|]. eexists _, _; by eauto.
Qed.
End ProcStepInv.

(** * Handlers preserve the invariant *)

(** The mutex is free exactly outside the sections of the daemon. *)
Lemma lock_free members n p m :
  proc_inv members n p → mutex_lock p.(lock_) = Some m → holds_lock p.(pc) = false.
Proof. intros Hinv. rewrite (pi_lock _ _ _ Hinv). by destruct (holds_lock (pc p)). Qed.

Lemma handle_frame m now r :
  let r' := (handle m now r).1 in
  r'.(self_id_) = r.(self_id_) ∧ r'.(peers_) = r.(peers_) ∧ r'.(is_dead_) = r.(is_dead_)
  ∧ r'.(logs_) = r.(logs_) ∧ (is_u64 r.(term_) → is_u64 r'.(term_)).
Proof.
  destruct m as [q|q]; simpl.
  - by destruct (Vote_cases q now r) as [(?&?&?&->)|[? ->]].
  - pose proof (u64_range (i32 (AppendRequest.get_term q))).
    by destruct (AppendMsg_cases q now r) as [[? ->]|[(?&?&->)|(?&?&?&->)]].
Qed.

Lemma handle_role n m now r l :
  holds_lock l = false → role_ok n r l → role_ok n (handle m now r).1 l.
Proof.
  intros Hl Hr.
  assert (r.(status_) = FOLLOWER ∨ (r.(status_) = CANDIDATE ∧ r.(vote_for_) = "")
          ∨ (r.(status_) = LEADER ∧ r.(vote_for_) = n)) as Hr' by (by destruct l).
  enough (let r' := (handle m now r).1 in
          r'.(status_) = FOLLOWER ∨ (r'.(status_) = CANDIDATE ∧ r'.(vote_for_) = "")
          ∨ (r'.(status_) = LEADER ∧ r'.(vote_for_) = n)) by (by destruct l).
  clear Hr. destruct m as [q|q]; simpl.
  - destruct (Vote_cases q now r) as [(?&?&?&->)|[? ->]]; simpl; naive_solver.
  - destruct (AppendMsg_cases q now r) as [[? ->]|[(?&?&->)|(?&?&?&->)]]; simpl; naive_solver.
Qed.

Lemma handle_inv members n m now p :
  proc_inv members n p → p.(serving) = true → holds_lock p.(pc) = false →
  proc_inv members n (unlock (at_pc p (handle m now p.(raft)).1 p.(pc))).
Proof.
  intros Hinv Hs Hl.
  destruct (handle_frame m now p.(raft)) as (E1 & E2 & E3 & E4 & E5).
  destruct Hinv as [? ? ? ? ? Hrole Hkill Hchans ? ? ? ?].
  split; simpl; rewrite ?E1, ?E2, ?E3, ?E4, ?Hl; auto.
  - destruct Hrole as [|Hrole]; [by left|right]. by apply handle_role.
  - unfold kill_ok in *; simpl. rewrite E3. destruct (killer p); try done. naive_solver congruence.
  - unfold chans_ok in *; simpl. by rewrite E2.
Qed.

Lemma handle_answer_u64 m now r rep :
  is_u64 r.(term_) → (handle m now r).2 = RAppend rep → is_u64 (AppendReply.get_term rep).
Proof.
  destruct m as [q|q]; simpl.
  - by destruct (Vote q now r).
  - intros Ht. destruct (AppendMsg_cases q now r) as [[? ->]|[(?&?&->)|(?&?&?&->)]]; simpl;
      by intros [= <-].
Qed.

(** * Reachable clusters *)

Lemma boot_lookup rs n p :
  (boot rs).(procs) !! n = Some p → ∃ r, r ∈ rs ∧ p = spawn r ∧ n = r.(self_id_).
Proof.
  simpl. intros H%elem_of_list_to_map_2.
  apply list_elem_of_fmap in H as (r & E & Hr). simplify_eq. eauto.
Qed.

Lemma new_proc_inv addrs r :
  "" ∉ addrs → newly_built addrs r → proc_inv (list_to_set addrs) r.(self_id_) (spawn r).
Proof.
  intros Hne (Hs & Hv & Ht & Hst & Hd & Hp & Hl).
  split; simpl; try done.
  - intros E. by rewrite E in Hs.
  - rewrite Ht. vm_compute. by split.
  - by rewrite Hp.
  - right. by left.
  - by intros x ?%not_elem_of_nil.
  - by apply NoDup_nil_2.
Qed.

Lemma boot_inv cfg t0 rs :
  launch cfg t0 = Some rs → cluster_inv (list_to_set (service cfg)) (boot rs).
Proof.
  intros Hl. pose proof (launch_newly_built cfg t0 rs Hl) as Hf. rewrite Forall_forall in Hf.
  split; [|done]. intros n p Hp. destruct (boot_lookup rs n p Hp) as (r & Hr & -> & ->).
  apply new_proc_inv; [apply service_nonempty|by apply Hf].
Qed.

Lemma call_ok_mono c c' k rc :
  (c.(next_call) <= c'.(next_call))%nat → call_ok c k rc → call_ok c' k rc.
Proof. unfold call_ok. intros ? (? & ? & ?). split; [lia|done]. Qed.

Lemma answer_of_inv members c :
  cluster_inv members c →
  ∀ k rep, answer_of c k = Some (RAppend rep) → is_u64 (AppendReply.get_term rep).
Proof.
  intros [_ Hc] k rep. unfold answer_of. intros (rc & Hrc & Ha)%bind_Some.
  destruct (Hc k rc Hrc) as (_ & _ & _ & H). by rewrite Ha in H.
Qed.

Lemma step_inv members del e c c' :
  step del e c c' → cluster_inv members c → cluster_inv members c'.
Proof.
  intros Hstep Hinv. pose proof Hinv as [Hps Hcs].
  destruct Hstep as [n l p p' out c Hp Hs|k now rc m p c Hrc Ha Hd Hp Hsv Hlk].
  - destruct (proc_step_inv members n _ _ (answer_of_inv _ _ Hinv) p l _ Hs (Hps n p Hp))
      as (p2 & out2 & [= <- <-] & Hp2 & Hout).
    assert (∀ m q, <[n:=p']> (procs c) !! m = Some q → proc_inv members m q) as Hall.
    { intros m q. rewrite lookup_insert. case_decide; naive_solver. }
    destruct out as [[peer m]|]; simpl; split; simpl; try done.
    intros k rc. rewrite lookup_insert. case_decide as Hk.
    + intros [= <-]. subst k. split; simpl; [lia|]. split; [apply (pi_name _ _ _ Hp2)|].
      split; [|done]. destruct m; done.
    + intros Hrc. eapply call_ok_mono; [|by apply Hcs]. simpl. lia.
  - rewrite handled_lock. unfold handled. pose proof (handle_inv members (callee rc) (message rc) now p
      (Hps _ _ Hp) Hsv (lock_free _ _ _ _ (Hps _ _ Hp) Hlk)) as Hp2.
    pose proof (handle_answer_u64 (message rc) now p.(raft)) as Hu.
    destruct (handle (message rc) now (raft p)) as [r' rep]; simpl in *.
    split; simpl.
    + intros n q. rewrite lookup_insert. case_decide; naive_solver.
    + intros k' rc'. rewrite lookup_insert. case_decide as Hk; [|apply Hcs].
      intros [= <-]. subst k'. destruct (Hcs k rc Hrc) as (H1 & H2 & H3 & _).
      split; [done|]. split; [done|]. split; [done|]. simpl.
      destruct rep as [|rep]; [done|]. apply Hu; [|done].
      apply (pi_term _ _ _ (Hps _ _ Hp)).
Qed.

Lemma steps_inv members del es c c' :
  steps del es c c' → cluster_inv members c → cluster_inv members c'.
Proof. induction 1; eauto using step_inv. Qed.

Lemma reachable_inv del cfg t0 es c :
  reachable del cfg t0 es c → cluster_inv (list_to_set (service cfg)) c.
Proof. intros (rs & Hl & Hs). eapply steps_inv; [done|]. by eapply boot_inv. Qed.

#[export] Hint Resolve reachable_inv : raft.
