(* ===== verification/Safety.v ===== *)
(** Safety and progress of every reachable cluster: no undefined behaviour,
    roles, mutual exclusion, progress of the daemon, [Kill]. *)

From S2P Require Import Prelude Strings Proto Sync Node NodeFacts Daemon DaemonFacts Main.
From S2P Require Import Cluster ClusterInv.
From stdpp Require Import base gmap sets list strings.

Open Scope Z_scope.

(** * Runs of a configuration *)

Definition run (deliverable : Msg → bool) (cfg : list (string * Z)) (t0 : nat → Z)
    (es : list Event) : option Cluster :=
  rs ← launch cfg t0; exec_all deliverable es (boot rs).

Lemma run_reachable del cfg t0 es c :
  run del cfg t0 es = Some c → reachable del cfg t0 es c.
Proof.
  unfold run. intros (rs & Hl & H)%bind_Some. exists rs. split; [done|].
  by apply exec_all_steps.
Qed.

(** Running to a process that passes a test. *)
Definition probe (deliverable : Msg → bool) (cfg : list (string * Z)) (es : list Event)
    (n : string) (f : Cluster → Proc → bool) : bool :=
  match run deliverable cfg (λ _, 0) es with
  | Some c => match c.(procs) !! n with Some p => f c p | None => false end
  | None => false
  end.

Lemma probe_run del cfg es n f :
  probe del cfg es n f = true →
  ∃ c p, run del cfg (λ _, 0) es = Some c ∧ c.(procs) !! n = Some p ∧ f c p = true.
Proof.
  unfold probe. destruct (run del cfg _ es) as [c|] eqn:E; [|done].
  destruct (c.(procs) !! n) as [p|] eqn:Hp; [|done]. eauto.
Qed.

(** A transport that sends everything, and the one that sends only messages
    whose required fields are set. *)
Definition send_all (m : Msg) : bool := true.
Definition initialized (m : Msg) : bool :=
  match m with
  | MVote q => VoteRequest.IsInitialized q
  | MAppend q => AppendRequest.IsInitialized q
  end.

(** Three nodes booted at time 0, and their addresses. *)
Definition cfg3 : list (string * Z) := [("h", 1); ("h", 2); ("h", 3)].
Definition at0 : nat → Z := λ _, 0.
Definition n1 : string := BuildRPCAddr "h" 1.
Definition n2 : string := BuildRPCAddr "h" 2.
Definition n3 : string := BuildRPCAddr "h" 3.
Definition order3 : list string := elements (list_to_set (service cfg3) : gset string).

(** Process [n] starts, and takes one iteration as a follower at [now]. *)
Definition start (n : string) : list Event := [EProc n (LStart order3)].
Definition follow (n : string) (now : Z) : list Event :=
  [EProc n LTest; EProc n (LFollower 200 now)].
Definition begin_election (n : string) (order : list string) : list Event :=
  [EProc n LTest; EProc n (LElect order)].

(** Asking the next peer: the call [k] is handled and answered, or fails. *)
Definition ask (n : string) (k : nat) (now : Z) : list Event :=
  [EProc n LSend; EDeliver k now; EProc n (LReply now)].
Definition ask_fails (n : string) : list Event := [EProc n LSend; EProc n LError].

(** The whole election of [n1] at time 9000 with the vote of every peer. *)
Definition ask_all (n : string) (order : list string) (k : nat) (now : Z) : list Event :=
  (fix go (order : list string) (k : nat) :=
     match order with
     | [] => []
     | p :: order => if decide (p = n) then EProc n LSend :: go order k
                     else ask n k now ++ go order (S k)
     end) order k.

Definition elect_n1 : list Event :=
  start n1 ++ start n2 ++ start n3 ++ follow n1 9000 ++ begin_election n1 order3
  ++ ask_all n1 order3 0 9000 ++ [EProc n1 (LFinish 9000)].

(** * The labels of the daemon *)

Definition is_daemon (l : Label) : bool :=
  match l with LKill | LKillNext => false | _ => true end.

(** How far the daemon is from the next test of [is_dead_] and, once killed,
    from its end: a bound on the steps it takes in the meantime. *)
Definition distance (p : Proc) : nat :=
  match p.(pc) with
  | PExit => 0
  | PTest => 1
  | PLock => 4 + 2 * size p.(raft).(peers_)
  | PSleep => 2
  | PVote _ todo _ | PBeat todo => 2 + 2 * length todo
  | PVoteWait _ _ _ todo _ | PBeatWait _ _ todo => 3 + 2 * length todo
  end.

(** * Lemmas *)

Lemma procs_after n p out c m :
  (after n p out c).(procs) !! m = if decide (n = m) then Some p else c.(procs) !! m.
Proof. destruct out as [[peer q]|]; simpl; rewrite lookup_insert; done. Qed.

Lemma procs_handled k rc now p c m :
  (handled k rc now p c).(procs) !! m =
    if decide (rc.(callee) = m)
    then Some (unlock (at_pc p (handle rc.(message) now p.(raft)).1 p.(pc))) else c.(procs) !! m.
Proof. unfold handled. destruct (handle _ _ _); simpl. by rewrite lookup_insert. Qed.

(** The two outcomes of a heartbeat's answer, and the members the end of an
    election leaves alone. *)
Ltac case_heartbeat :=
  match goal with |- context [heartbeat_reply ?rep ?now ?r] =>
    destruct (heartbeat_reply_cases rep now r) as [[_ ->]|[_ ->]] end.

Ltac case_election_end :=
  match goal with |- context [election_end ?v ?now ?r] =>
    destruct (election_end_frame v now r) as (-> & -> & -> & -> & -> & _) ||
    destruct (election_end_frame v now r) as (_ & _ & -> & _) ||
    destruct (election_end_frame v now r) as (_ & _ & _ & -> & _) end.

(** * Theorems *)

(** C4: no reachable cluster is about to call through a missing stub or to
    delete one twice: no daemon can take a step into undefined behaviour. *)
Theorem no_undefined_behaviour del cfg t0 es c :
  reachable del cfg t0 es c → ¬ crashes c.
Proof.
  intros Hr (n & p & l & Hp & Hs).
  pose proof (reachable_inv _ _ _ _ _ Hr) as Hinv. pose proof Hinv as [Hps _].
  by destruct (proc_step_inv _ n _ _ (answer_of_inv _ _ Hinv) p l _ Hs (Hps n p Hp))
    as (? & ? & ? & _).
Qed.

Lemma no_undefined_behaviour_witness :
  ∃ c, run send_all cfg3 at0 elect_n1 = Some c ∧ ¬ crashes c.
Proof.
  destruct (probe_run send_all cfg3 elect_n1 n1 (λ _ _, true)) as (c & p & E & _);
    [vm_compute; reflexivity|].
  exists c. split; [exact E|].
  apply (no_undefined_behaviour send_all cfg3 at0 elect_n1). by apply run_reachable.
Defined.

(** C5: in every reachable cluster a process that has not been killed is in
    one of the three roles; a leader has its own vote, a candidate between two
    iterations has none, and one in the middle of an election has its own. *)
Theorem roles_and_votes del cfg t0 es c n p :
  reachable del cfg t0 es c → c.(procs) !! n = Some p → p.(killer) ≠ KDone →
  let r := p.(raft) in
  (r.(status_) = FOLLOWER ∨ r.(status_) = CANDIDATE ∨ r.(status_) = LEADER) ∧
  (r.(status_) = LEADER → r.(vote_for_) = n) ∧
  (r.(status_) = CANDIDATE →
     r.(vote_for_) = (if holds_lock p.(pc) then n else "")) ∧
  is_u64 r.(term_) ∧ r.(self_id_) = n ∧ r.(peers_) ⊆ list_to_set (service cfg).
Proof.
  intros Hr Hp Hk. cbv zeta. destruct (reachable_inv _ _ _ _ _ Hr) as [Hps _].
  destruct (Hps n p Hp) as [_ Hself Hterm _ Hpeers [?|Hrole] _ _ _ _]; [done|].
  unfold role_ok in Hrole.
  split; [|split; [|split; [|done]]]; destruct (pc p); simpl in *; intuition congruence.
Qed.

Lemma roles_and_votes_witness :
  ∃ c p, run send_all cfg3 at0 elect_n1 = Some c ∧ c.(procs) !! n1 = Some p ∧
    p.(raft).(status_) = LEADER ∧ p.(raft).(vote_for_) = n1.
Proof.
  destruct (probe_run send_all cfg3 elect_n1 n1
    (λ _ p, bool_decide (p.(raft).(status_) = LEADER) &&
            match p.(killer) with KNone => true | _ => false end))
    as (c & p & E & Hp & [Hl%bool_decide_eq_true Hk]%andb_true_iff); [vm_compute; reflexivity|].
  exists c, p. split; [exact E|]. split; [exact Hp|]. split; [exact Hl|].
  apply (roles_and_votes send_all cfg3 at0 elect_n1 c n1 p); [|exact Hp| |exact Hl].
  - by apply run_reachable.
  - intros Hd. by rewrite Hd in Hk.
Defined.



(** * Progress *)

(** A daemon that has not returned can always take a step of its own: no wait
    inside [lock_] is endless, since a remote call can always fail. *)
Lemma daemon_progress members n p answers next :
  proc_inv members n p → p.(pc) ≠ PExit →
  ∃ l o, is_daemon l = true ∧ proc_step answers next l p o.
Proof.
  intros Hinv Hpc. pose proof (role_live members n p Hinv Hpc) as Hr.
  destruct (pc p) as [| | |q [|x todo] v|q x k todo v|[|x todo]|x k todo|] eqn:E; try done.
  - eexists (LStart _), _. split; [done|]. by apply ps_start.
  - destruct (is_dead_ (raft p)) eqn:Hd; eexists LTest, _; (split; [done|]);
      [by apply ps_exit|by apply ps_loop].
  - assert (mutex_lock (lock_ p) = Some Locked) as Hm
      by (rewrite (pi_lock _ _ _ Hinv), E; done).
    simpl in Hr. destruct Hr as [Hst|[[Hst _]|[Hst _]]].
    + destruct (follower_body 200 0 (raft p) (chans p)) as [[r' ch]|] eqn:Ef;
        eexists (LFollower 200 0), _; (split; [done|]);
        [by eapply (ps_follower _ _ _ _ r' ch)|by eapply ps_follower_undefined].
    + eexists (LElect _), _. split; [done|]. by eapply ps_elect.
    + eexists (LLead _), _. split; [done|]. eapply ps_lead; try done; congruence.
  - eexists (LFinish 0), _. split; [done|]. by eapply ps_vote_finish.
  - eexists LSend, _. split; [done|]. by eapply ps_ask.
  - eexists LError, _. split; [done|]. by eapply ps_vote_error.
  - eexists (LFinish 0), _. split; [done|]. by eapply ps_beat_finish.
  - eexists LSend, _. split; [done|]. by eapply ps_beat.
  - eexists LError, _. split; [done|]. by eapply ps_beat_error.
Qed.

Lemma daemon_can_step members del c n p :
  cluster_inv members c → c.(procs) !! n = Some p → p.(pc) ≠ PExit →
  ∃ l c', is_daemon l = true ∧ step del (EProc n l) c c'.
Proof.
  intros Hinv Hp Hpc. pose proof Hinv as [Hps _].
  destruct (daemon_progress _ n p (answer_of c) (next_call c) (Hps n p Hp) Hpc)
    as (l & o & Hl & Hs).
  destruct (proc_step_inv _ n _ _ (answer_of_inv _ _ Hinv) p l o Hs (Hps n p Hp))
    as (p' & out & -> & _).
  exists l, (after n p' out c). split; [done|]. by econstructor.
Qed.

(** C7: in every reachable cluster every daemon that has not returned has an
    enabled step of its own - two candidates waiting for each other inside
    their locks included. *)
Theorem daemon_never_deadlocks del cfg t0 es c n p :
  reachable del cfg t0 es c → c.(procs) !! n = Some p → p.(pc) ≠ PExit →
  ∃ l c', is_daemon l = true ∧ step del (EProc n l) c c'.
Proof. intros Hr. by eapply daemon_can_step, reachable_inv. Qed.

(** Two candidates, each waiting for the other's vote. *)
Definition facing_candidates : list Event :=
  start n1 ++ start n2 ++ follow n1 9000 ++ follow n2 9000
  ++ begin_election n1 [n2; n1; n3] ++ begin_election n2 [n1; n2; n3]
  ++ [EProc n1 LSend; EProc n2 LSend].

Lemma daemon_never_deadlocks_witness :
  ∃ c p l c', run send_all cfg3 at0 facing_candidates = Some c ∧
    c.(procs) !! n1 = Some p ∧ holds_lock p.(pc) = true ∧
    exec send_all (EDeliver 1 9000) c = None ∧ step send_all (EProc n1 l) c c'.
Proof.
  destruct (probe_run send_all cfg3 facing_candidates n1 (λ c p, holds_lock p.(pc) &&
    match exec send_all (EDeliver 1 9000) c with Some _ => false | None => true end))
    as (c & p & E & Hp & [Hl Hx]%andb_true_iff); [vm_compute; reflexivity|].
  destruct (daemon_never_deadlocks send_all cfg3 at0 facing_candidates c n1 p)
    as (l & c' & _ & Hs); [by apply run_reachable|exact Hp|by intros Hq; rewrite Hq in Hl|].
  exists c, p, l, c'. split; [exact E|]. split; [exact Hp|]. split; [exact Hl|].
  split; [|exact Hs]. by destruct (exec send_all (EDeliver 1 9000) c).
Defined.

(** * Kill *)

(** The steps of the daemon of [n] among the events. *)
Definition is_daemon_of (n : string) (e : Event) : bool :=
  match e with EProc m l => bool_decide (m = n) && is_daemon l | EDeliver _ _ => false end.
Definition daemon_steps (n : string) (es : list Event) : nat :=
  length (List.filter (is_daemon_of n) es).

(** A daemon that has peers left to call has at most all its peers. *)
Lemma distance_bound members n p :
  proc_inv members n p → (distance p <= 4 + 2 * size p.(raft).(peers_))%nat.
Proof.
  intros Hinv. pose proof (pi_nodup _ _ _ Hinv) as Hnd.
  assert (length (pending (pc p)) <= size p.(raft).(peers_))%nat as Hle.
  { rewrite <- (size_list_to_set (C := gset string)) by done. apply subseteq_size.
    intros x Hx%elem_of_list_to_set. by apply (pi_pending _ _ _ Hinv). }
  unfold distance. destruct (pc p); simpl in *; lia.
Qed.

(** Once [is_dead_] is set, every step of the daemon brings it closer to its
    end. *)
Lemma killed_step answers next l p p' out :
  proc_step answers next l p (Next p' out) → is_daemon l = true →
  p.(raft).(is_dead_) = true →
  (distance p' < distance p)%nat ∧ p'.(raft).(is_dead_) = true.
Proof.
  intros Hs Hl Hd. unfold distance.
  inversion Hs; subst; try discriminate;
    repeat match goal with
    | H : pc _ = _ |- _ => rewrite H; clear H
    | _ => invert_send
    | H : _ ≡ₚ elements _ |- _ => apply Permutation_length in H
    end; unfold size, set_size; simpl in *; try (split; [lia|done]).
  - congruence.
  - match goal with H : follower_body _ _ _ _ = _ |- _ =>
      destruct (follower_body_frame _ _ _ _ _ _ H ltac:(done)) as [->|[[-> _]|[-> _]]] end;
      simpl; split; done || lia.
  - case_heartbeat; simpl; split; done || lia.
  - case_election_end. split; done || lia.
Qed.

(** What any event does to a process that is dead. *)
Lemma killed_event members del e c c' n p :
  cluster_inv members c → step del e c c' → c.(procs) !! n = Some p →
  p.(raft).(is_dead_) = true →
  ∃ p', c'.(procs) !! n = Some p' ∧ p'.(raft).(is_dead_) = true ∧
    (distance p' + (if is_daemon_of n e then 1 else 0) <= distance p)%nat.
Proof.
  intros [Hps _] Hs Hp Hd.
  destruct Hs as [m l q q' out c Hq Hs|k now rc mx q c Hrc Ha Hdel Hq Hsv Hlk].
  - rewrite procs_after. simpl. case_decide as Hm; [subst m|].
    + assert (q = p) as -> by congruence. rewrite bool_decide_eq_true_2 by done. simpl.
      exists q'. split; [done|]. destruct (is_daemon l) eqn:Hl.
      * destruct (killed_step _ _ _ _ _ _ Hs Hl Hd). split; [done|lia].
      * inversion Hs; subst; try discriminate; unfold distance; simpl;
          try (unfold Kill_begin in *; case_decide; simplify_eq/=); split; done || lia.
    + rewrite bool_decide_eq_false_2 by done. exists p. split; [done|]. split; [done|]. simpl. lia.
  - rewrite handled_lock, procs_handled. simpl. case_decide; [|exists p; split; [done|split; [done|lia]]].
    subst n. assert (q = p) as -> by congruence. eexists; split; [done|].
    destruct (handle_frame (message rc) now (raft p)) as (_ & E2 & E3 & _).
    unfold distance; simpl. rewrite E2, E3. split; [done|lia].
Qed.

Lemma killed_run members del es c c' n p :
  steps del es c c' → cluster_inv members c → c.(procs) !! n = Some p →
  p.(raft).(is_dead_) = true →
  ∃ p', c'.(procs) !! n = Some p' ∧ p'.(raft).(is_dead_) = true ∧
    (distance p' + daemon_steps n es <= distance p)%nat.
Proof.
  intros Hs Hinv Hp Hd. induction Hs as [c|es e c c1 c2 Hs IH He].
  - exists p. split; [done|]. split; [done|]. unfold daemon_steps. simpl. lia.
  - destruct (IH Hinv Hp) as (p1 & Hp1 & Hd1 & Hle1).
    destruct (killed_event members del e c1 c2 n p1) as (p2 & Hp2 & Hd2 & Hle2);
      [by eapply steps_inv|done..|].
    exists p2. split; [done|]. split; [done|]. unfold daemon_steps in *.
    rewrite List.filter_app, length_app. simpl. destruct (is_daemon_of n e); simpl in *; lia.
Qed.

(** [Kill] on [n] returns from [c] after at most [j] more steps. *)
Definition kill_returns (del : Msg → bool) (n : string) (j : nat) (c : Cluster) : Prop :=
  ∃ i c' p', (i <= j)%nat ∧ steps del (replicate i (EProc n LKillNext)) c c' ∧
    c'.(procs) !! n = Some p' ∧ p'.(killer) = KDone.

Lemma kill_next del n j c p p1 :
  c.(procs) !! n = Some p → proc_step (answer_of c) c.(next_call) LKillNext p (Next p1 None) →
  kill_returns del n j (after n p1 None c) → kill_returns del n (S j) c.
Proof.
  intros Hp Hs (i & c' & p' & Hi & Hst & ? & ?). exists (S i), c', p'.
  split; [lia|]. split; [|done]. change (replicate (S i) (EProc n LKillNext))
    with ([EProc n LKillNext] ++ replicate i (EProc n LKillNext)).
  eapply steps_app; [|exact Hst]. apply (steps_snoc del [] _ c c); [constructor|].
  by econstructor.
Qed.

(** Once the daemon has returned, at most three steps are left of [Kill], each
    of which is enabled. *)
Lemma kill_finishes members del c n p :
  cluster_inv members c → c.(procs) !! n = Some p → p.(raft).(is_dead_) = true →
  p.(pc) = PExit → kill_returns del n 3 c.
Proof.
  intros [Hps _] Hp Hd Hpc. pose proof (pi_kill _ _ _ (Hps n p Hp)) as Hk. clear Hps.
  assert (∀ c j p, c.(procs) !! n = Some p → p.(killer) = KDone → kill_returns del n j c) as K0.
  { intros c0 j p0 H0 E. exists 0%nat, c0, p0. split; [lia|]. split; [constructor|done]. }
  assert (∀ c j p, c.(procs) !! n = Some p → p.(killer) = KJoinServer →
    kill_returns del n (S j) c) as K1.
  { intros c0 j p0 H0 E. eapply kill_next; [done|by apply ps_kill_done|].
    eapply K0; [by rewrite procs_after, decide_True|done]. }
  assert (∀ c j p, c.(procs) !! n = Some p → p.(killer) = KTerminate →
    kill_returns del n (S (S j)) c) as K2.
  { intros c0 j p0 H0 E. eapply kill_next; [done|by apply ps_kill_terminated|].
    eapply K1; [by rewrite procs_after, decide_True|done]. }
  unfold kill_ok in Hk. destruct (killer p) eqn:E; [by destruct Hk; congruence| | | |].
  - eapply kill_next; [done|by apply ps_kill_joined|].
    eapply K2; [by rewrite procs_after, decide_True|done].
  - by eapply K2.
  - by eapply K1.
  - by eapply K0.
Qed.

(** C8: once [Kill] has set [is_dead_] in a reachable cluster, whatever happens
    afterwards, the daemon of the node takes at most twice its peers plus four
    more steps; as long as it has not returned it has a step to take; and once
    it has returned, the join in [Kill] and what follows it have at most three
    steps to take, each enabled, after which [Kill] has returned. *)
Theorem killed_daemon_terminates del cfg t0 es c n p es' c' :
  reachable del cfg t0 es c → c.(procs) !! n = Some p → p.(raft).(is_dead_) = true →
  steps del es' c c' →
  (daemon_steps n es' <= 2 * size p.(raft).(peers_) + 4)%nat ∧
  ∃ p', c'.(procs) !! n = Some p' ∧
    (p'.(pc) ≠ PExit → ∃ l c2, is_daemon l = true ∧ step del (EProc n l) c' c2) ∧
    (p'.(pc) = PExit → kill_returns del n 3 c').
Proof.
  intros Hr Hp Hd Hs. pose proof (reachable_inv _ _ _ _ _ Hr) as Hinv.
  destruct (killed_run _ _ _ _ _ _ _ Hs Hinv Hp Hd) as (p' & Hp' & Hd' & Hle).
  pose proof (steps_inv _ _ _ _ _ Hs Hinv) as Hinv'.
  split; [pose proof Hinv as [Hps _]; pose proof (distance_bound _ n p (Hps n p Hp)); lia|].
  exists p'. split; [done|]. split; intros Hpc; [by eapply daemon_can_step|by eapply kill_finishes].
Qed.

(** [n1] is killed in the middle of its election. *)
Definition kill_candidate : list Event :=
  start n1 ++ start n2 ++ follow n1 9000 ++ begin_election n1 order3 ++ [EProc n1 LKill].

Lemma killed_daemon_terminates_witness :
  ∃ c p, run send_all cfg3 at0 kill_candidate = Some c ∧ c.(procs) !! n1 = Some p ∧
    ∀ es c', steps send_all es c c' → (daemon_steps n1 es <= 10)%nat.
Proof.
  destruct (probe_run send_all cfg3 kill_candidate n1
    (λ _ p, p.(raft).(is_dead_) && Nat.eqb (size p.(raft).(peers_)) 3))
    as (c & p & E & Hp & [Hd Hsz%Nat.eqb_eq]%andb_true_iff); [vm_compute; reflexivity|].
  exists c, p. split; [exact E|]. split; [exact Hp|]. intros es c' Hs.
  destruct (killed_daemon_terminates send_all cfg3 at0 kill_candidate c n1 p es c')
    as [Hle _]; [by apply run_reachable|exact Hp|exact Hd|exact Hs|].
  rewrite Hsz in Hle. exact Hle.
Defined.

(** A process whose [Kill] returned has stubs, daemon and server gone, is
    [DEAD], and nothing that happens later in the cluster changes it. *)
Theorem killed_process_is_frozen del cfg t0 es c n p e c' :
  reachable del cfg t0 es c → c.(procs) !! n = Some p → p.(killer) = KDone →
  p.(raft).(status_) = DEAD ∧ p.(pc) = PExit ∧ p.(serving) = false ∧
  p.(chans).(stubs) = ∅ ∧ (step del e c c' → c'.(procs) !! n = Some p).
Proof.
  intros Hr Hp Hk. destruct (reachable_inv _ _ _ _ _ Hr) as [Hps _].
  destruct (Hps n p Hp) as [_ _ _ _ _ _ Hkill Hch _ _].
  unfold kill_ok in Hkill. rewrite Hk in Hkill. destruct Hkill as (Hd & Hsv & Hpc & Hst).
  unfold chans_ok in Hch. rewrite Hpc in Hch. do 4 (split; [done|]).
  intros Hs. destruct Hs as [m l q q' out c Hq Hs|k now rc mx q c Hrc Ha Hdel Hq Hsv' Hlk].
  - rewrite procs_after. case_decide; [|done]. subst m. simplify_eq.
    exfalso. inversion Hs; simplify_eq; congruence.
  - rewrite handled_lock, procs_handled. case_decide; [|done]. subst. congruence.
Qed.

Definition kill_n1 : list Event :=
  [EProc n1 LKill; EProc n1 (LStart order3); EProc n1 LTest;
   EProc n1 LKillNext; EProc n1 LKillNext; EProc n1 LKillNext].

Lemma killed_process_is_frozen_witness :
  ∃ c p, run send_all cfg3 at0 kill_n1 = Some c ∧ c.(procs) !! n1 = Some p ∧
    p.(raft).(status_) = DEAD ∧ p.(serving) = false.
Proof.
  destruct (probe_run send_all cfg3 kill_n1 n1
    (λ _ p, match p.(killer) with KDone => true | _ => false end))
    as (c & p & E & Hp & Hk); [vm_compute; reflexivity|].
  exists c, p. split; [exact E|]. split; [exact Hp|].
  destruct (killed_process_is_frozen send_all cfg3 at0 kill_n1 c n1 p (EDeliver 0 0) c)
    as (H1 & _ & H2 & _); [by apply run_reachable|exact Hp|by destruct (killer p)|by split].
Defined.

(** * Membership *)

(** A process never gains a peer, and it loses one only in its own
    follower iteration: exactly the node it voted for, when its timer has run
    out, and the vote is taken back with it. *)
Theorem peers_only_shrink del c e c' n p p' :
  step del e c c' →
  c.(procs) !! n = Some p → c'.(procs) !! n = Some p' →
  p'.(raft).(peers_) = p.(raft).(peers_) ∨
  (∃ draw now, e = EProc n (LFollower draw now) ∧ patience draw <= silence p.(raft) now ∧
     p.(raft).(vote_for_) ≠ "" ∧ p'.(raft).(vote_for_) = "" ∧
     p'.(raft).(peers_) = p.(raft).(peers_) ∖ {[p.(raft).(vote_for_)]}).
Proof.
  intros Hs Hp Hp'. destruct Hs as [m l q q' out c Hq Hs|k now rc mx q c Hrc Ha Hd Hq Hsv Hlk].
  - rewrite procs_after in Hp'. case_decide; [|left; congruence]. subst m.
    assert (q = p) as -> by congruence. injection Hp' as ->.
    inversion Hs; subst; simpl; auto;
      repeat match goal with
      | _ => invert_send; by left
      end.
    + match goal with H : follower_body _ _ _ _ = _ |- _ => rename H into Hf end.
      unfold follower_body in Hf. destruct (Z.ltb_spec (silence (raft p) now) (patience draw));
        [left; by simplify_eq|].
      case_decide; [left; by simplify_eq|]. right. exists draw, now.
      destruct (drop_channel _ _); by simplify_eq/=.
    + left. by case_heartbeat.
    + left. by case_election_end.
    + left. unfold Kill_begin in *. by case_decide; simplify_eq.
  - left. rewrite handled_lock, procs_handled in Hp'. case_decide; [|congruence].
    subst. assert (q = p) as -> by congruence. injection Hp' as <-. simpl.
    by destruct (handle_frame (message rc) now (raft p)) as (_ & -> & _).
Qed.

(** [n2] voted for [n1] and heard nothing for nine seconds. *)
Definition expel_n1 : list Event := elect_n1 ++ [EProc n2 LTest].

Lemma peers_only_shrink_witness :
  ∃ c c' p p', run send_all cfg3 at0 expel_n1 = Some c ∧
    exec send_all (EProc n2 (LFollower 200 18000)) c = Some c' ∧
    c.(procs) !! n2 = Some p ∧ c'.(procs) !! n2 = Some p' ∧
    p.(raft).(vote_for_) = n1 ∧ p'.(raft).(peers_) = p.(raft).(peers_) ∖ {[n1]}.
Proof.
  destruct (probe_run send_all cfg3 expel_n1 n2 (λ c p, bool_decide (p.(raft).(vote_for_) = n1) &&
    match exec send_all (EProc n2 (LFollower 200 18000)) c with
    | Some c' => match c'.(procs) !! n2 with
                 | Some p' => bool_decide (p'.(raft).(peers_) ≠ p.(raft).(peers_))
                 | None => false end
    | None => false end))
    as (c & p & E & Hp & [Hv%bool_decide_eq_true Hx]%andb_true_iff); [vm_compute; reflexivity|].
  destruct (exec send_all (EProc n2 (LFollower 200 18000)) c) as [c'|] eqn:Ec; [|discriminate].
  destruct (c'.(procs) !! n2) as [p'|] eqn:Hp'; [|discriminate].
  apply bool_decide_eq_true in Hx.
  exists c, c', p, p'. do 5 (split; [assumption|]).
  destruct (peers_only_shrink send_all c (EProc n2 (LFollower 200 18000)) c'
    n2 p p') as [H|(draw & now & _ & _ & _ & _ & H)];
    [by apply exec_step|exact Hp|exact Hp'|contradiction|].
  by rewrite Hv in H.
Defined.

(** * Heartbeats over a transport that checks required fields *)

(** No handler of [AppendMsg] ever answered. *)
Definition appends_unanswered (c : Cluster) : Prop :=
  ∀ k rep, answer_of c k ≠ Some (RAppend rep).

Section RequiredFields.
Variable del : Msg → bool.
(** proto2 documents that a message lacking a required field is neither
    serialised nor parsed: the transport sends initialised messages only. *)
Hypothesis del_initialized : ∀ m, del m = true → initialized m = true.

Lemma deliverable_is_vote members c k rc :
  cluster_inv members c → c.(calls) !! k = Some rc → del rc.(message) = true →
  ∃ q, rc.(message) = MVote q.
Proof.
  intros [_ Hcs] Hrc Hd. destruct (Hcs k rc Hrc) as (_ & _ & H3 & _).
  apply del_initialized in Hd. destruct (message rc) as [q|q]; simpl in *; [eauto|].
  destruct H3 as [_ H3]. congruence.
Qed.

Lemma step_appends_unanswered members e c c' :
  cluster_inv members c → step del e c c' → appends_unanswered c → appends_unanswered c'.
Proof.
  intros Hinv Hs Hu k rep. specialize (Hu k rep). unfold answer_of in *.
  destruct Hs as [n l p p' out c Hp Hs|k' now rc' mx p c Hrc Ha Hd Hp Hsv Hlk].
  - destruct out as [[peer m]|]; simpl; [|done].
    rewrite lookup_insert. by case_decide.
  - rewrite handled_lock. unfold handled. destruct (deliverable_is_vote _ _ _ _ Hinv Hrc Hd) as [q Hq].
    rewrite Hq; simpl. destruct (Vote q now (raft p)) as [r' rep']; simpl.
    rewrite lookup_insert. by case_decide.
Qed.

Lemma reachable_appends_unanswered cfg t0 es c :
  reachable del cfg t0 es c → appends_unanswered c.
Proof.
  intros (rs & Hl & Hs). pose proof (boot_inv cfg t0 rs Hl) as Hb.
  remember (boot rs) as c0 eqn:E0. induction Hs as [c|es e c1 c2 c3 Hs IH He].
  - subst c. intros k rep. unfold answer_of. simpl. by rewrite lookup_empty.
  - eapply step_appends_unanswered; [|exact He|by apply IH]. by eapply steps_inv.
Qed.

Lemma handle_vote_leader q now r :
  r.(status_) = LEADER → (handle (MVote q) now r).1 = r.
Proof.
  intros Hst. simpl. destruct (Vote_cases q now r) as [(?&?&?&->)|[? ->]]; simpl; congruence.
Qed.

(** C9: over a transport that sends initialised messages only, no heartbeat is
    ever handled, because the leader's request lacks two required fields; so a
    leader is never deposed: it stays a leader until its process is killed. *)
Theorem heartbeats_never_arrive cfg t0 es c :
  reachable del cfg t0 es c →
  appends_unanswered c ∧
  ∀ e c' n p p', step del e c c' →
    c.(procs) !! n = Some p → c'.(procs) !! n = Some p' → p.(raft).(status_) = LEADER →
    p'.(raft).(status_) = LEADER ∨ p'.(killer) = KDone.
Proof.
  intros Hr. pose proof (reachable_appends_unanswered _ _ _ _ Hr) as Hu. split; [done|].
  intros e c' n p p' Hs Hp Hp' Hst.
  destruct Hs as [m l q q' out c Hq Hs|k now rc mx q c Hrc Ha Hd Hq Hsv Hlk].
  - rewrite procs_after in Hp'. case_decide; [|left; congruence]. subst m.
    assert (q = p) as -> by congruence. injection Hp' as ->.
    destruct (reachable_inv _ _ _ _ _ Hr) as [Hps _]. pose proof (Hps n p Hp) as Hi.
    assert (∀ l', pc p = l' → l' ≠ PExit → role_ok n (raft p) l') as Hrole
      by (intros l' <- ?; by eapply role_live).
    inversion Hs; subst; simpl; auto; try congruence;
      repeat match goal with
      | _ => invert_send; by left
      | H : pc p = _ |- _ => specialize (Hrole _ H ltac:(done)); simpl in Hrole
      end.
    + exfalso. by eapply Hu.
    + exfalso. naive_solver congruence.
    + left. unfold Kill_begin in *. by case_decide; simplify_eq.
  - rewrite handled_lock, procs_handled in Hp'. case_decide; [|left; congruence]. subst.
    assert (q = p) as -> by congruence. injection Hp' as <-. simpl. left.
    destruct (deliverable_is_vote _ _ _ _ (reachable_inv _ _ _ _ _ Hr) Hrc Hd) as [qv ->].
    by rewrite handle_vote_leader.
Qed.
End RequiredFields.

Lemma heartbeats_never_arrive_witness :
  ∃ c, run initialized cfg3 at0 (elect_n1 ++ [EProc n1 LTest; EProc n1 (LLead order3)]) = Some c ∧
    appends_unanswered c.
Proof.
  destruct (probe_run initialized cfg3 (elect_n1 ++ [EProc n1 LTest; EProc n1 (LLead order3)]) n1
    (λ _ _, true)) as (c & p & E & _); [vm_compute; reflexivity|].
  exists c. split; [exact E|].
  apply (heartbeats_never_arrive initialized (λ m H, H) cfg3 at0
    (elect_n1 ++ [EProc n1 LTest; EProc n1 (LLead order3)])). by apply run_reachable.
Defined.
