(* ===== verification/Election.v ===== *)
(** Elections over the history of a cluster: who voted for whom, who took the
    vote back, who was elected.

    The history is observed from outside: [observe] reads off each event what
    it does to the votes, and [history] collects the observations of a run,
    the latest first.  [hist_inv] ties the history to the state of the nodes;
    from it follow the integrity of elections, the uniqueness of a leader
    while no vote is taken back, and what two leaders cost otherwise. *)

From S2P Require Import Prelude Strings Proto Sync Node NodeFacts Daemon DaemonFacts Main.
From S2P Require Import Cluster ClusterInv Safety.
From stdpp Require Import base gmap sets list strings.

Open Scope Z_scope.

(** * Observations *)

Inductive Obs :=
  | OVote (voter candidate : string)
  | OClear (voter : string)
  | OElected (leader : string) (term : Z) (peers : gset string).

#[export] Instance obs_eq_dec : EqDecision Obs.
Proof. solve_decision. Defined.

(** What an event about to happen in [c] does to the votes: a candidate votes
    for itself when it begins; a handler grants a vote; a vote is taken back
    by the timer of its voter or by a lost election; an election is won. *)
Definition observe (e : Event) (c : Cluster) : list Obs :=
  match e with
  | EDeliver k now =>
      match c.(calls) !! k with
      | Some rc =>
          match rc.(message), c.(procs) !! rc.(callee) with
          | MVote q, Some p =>
              if VoteReply.get_vote (Vote q now p.(raft)).2
              then [OVote rc.(callee) (VoteRequest.get_candidate_id q)] else []
          | _, _ => []
          end
      | None => []
      end
  | EProc n l =>
      match c.(procs) !! n with
      | Some p =>
          match l, p.(pc) with
          | LElect _, _ => [OVote n n]
          | LFollower draw now, _ =>
              if (patience draw <=? silence p.(raft) now)
                 && negb (bool_decide (p.(raft).(vote_for_) = ""))
              then [OClear n] else []
          | LFinish now, PVote _ [] v =>
              if has_majority p.(raft) v
              then [OElected n p.(raft).(term_) p.(raft).(peers_)] else [OClear n]
          | _, _ => []
          end
      | None => []
      end
  end.

(** The observations of the runs from [c0], the latest first. *)
Inductive history (del : Msg → bool) (c0 : Cluster) : list Obs → Cluster → Prop :=
  | history_nil : history del c0 [] c0
  | history_step e c c' h :
      history del c0 h c → step del e c c' → history del c0 (observe e c ++ h) c'.

(** The latest thing [n] did with its vote was to take it back, or it never
    voted. *)
Fixpoint free (n : string) (h : list Obs) : bool :=
  match h with
  | [] => true
  | OVote m _ :: h => if decide (m = n) then false else free n h
  | OClear m :: h => if decide (m = n) then true else free n h
  | OElected _ _ _ :: h => free n h
  end.

(** Every vote of [n] was cast when its vote was free. *)
Fixpoint alternates (n : string) (h : list Obs) : Prop :=
  match h with
  | [] => True
  | OVote m _ :: h => (m = n → free n h = true) ∧ alternates n h
  | _ :: h => alternates n h
  end.

(** The votes counted so far: those of [voters], all among the peers already
    called, and the candidate's own. *)
Definition counted (h : list Obs) (n : string) (peers : gset string) (todo : list string)
    (v : Z) : Prop :=
  OVote n n ∈ h ∧
  ∃ visited voters, (visited ++ todo) ≡ₚ elements peers ∧ NoDup voters ∧
    (∀ x, x ∈ voters → x ∈ visited) ∧ (n ∉ voters) ∧ v = 1 + Z.of_nat (length voters) ∧
    ∀ x, x ∈ voters → OVote x n ∈ h.

Definition election_ok (c : Cluster) (h : list Obs) (n : string) (p : Proc) : Prop :=
  match p.(pc) with
  | PVote q todo v => counted h n p.(raft).(peers_) todo v
  | PVoteWait q peer k todo v =>
      counted h n p.(raft).(peers_) (peer :: todo) v ∧
      ∃ rc, c.(calls) !! k = Some rc ∧ rc.(caller) = n ∧ rc.(callee) = peer
  | _ => True
  end.

(** A majority of [ps] voted for [n]; its own vote may come from outside. *)
Definition elected_by (h : list Obs) (n : string) (ps : gset string) : Prop :=
  ∃ voters, NoDup voters ∧ n ∈ voters ∧ (∀ x, x ∈ voters → x = n ∨ x ∈ ps) ∧
    (size ps < 2 * length voters)%nat ∧ ∀ x, x ∈ voters → OVote x n ∈ h.

Record hist_inv (h : list Obs) (c : Cluster) : Prop := {
  hi_free : ∀ n p, c.(procs) !! n = Some p → p.(raft).(vote_for_) = "" → free n h = true;
  hi_alternates : ∀ n, alternates n h;
  hi_answers : ∀ k rc rep, c.(calls) !! k = Some rc → rc.(answer) = Some (RVote rep) →
    VoteReply.get_vote rep = true → (OVote rc.(callee) rc.(caller)) ∈ h;
  hi_elections : ∀ n p, c.(procs) !! n = Some p → election_ok c h n p;
  hi_elected : ∀ n t ps, OElected n t ps ∈ h → elected_by h n ps
}.

(** * Lemmas on histories *)

Lemma free_cons_other n o h :
  (match o with OVote m _ | OClear m => m ≠ n | OElected _ _ _ => True end) →
  free n (o :: h) = free n h.
Proof. destruct o; simpl; intros; try rewrite decide_False; done. Qed.

Lemma alternates_app n h1 h2 : alternates n (h1 ++ h2) → alternates n h2.
Proof. induction h1 as [|[] h1 IH]; simpl; naive_solver. Qed.

Lemma free_after_vote n h2 x h1 :
  free n (h2 ++ OVote n x :: h1) = true → OClear n ∈ h2.
Proof.
  induction h2 as [|[m y|m|m t ps] h2 IH]; simpl; [by rewrite decide_True| | |];
    repeat case_decide; subst; set_solver.
Qed.

(** Between two votes of a node there is a vote taken back. *)
Lemma alternates_between n h3 y h2 x h1 :
  alternates n (h3 ++ OVote n y :: h2 ++ OVote n x :: h1) → OClear n ∈ h2.
Proof.
  intros H%alternates_app. simpl in H. destruct H as [Hf _].
  eapply free_after_vote. by apply Hf.
Qed.

Lemma counted_mono h o n ps todo v : counted h n ps todo v → counted (o ++ h) n ps todo v.
Proof. unfold counted. intros (? & vis & vo & ?). split; [set_solver|]. exists vis, vo. set_solver. Qed.

Lemma elected_by_mono h o n ps : elected_by h n ps → elected_by (o ++ h) n ps.
Proof. intros (vo & ?). exists vo. set_solver. Qed.

(** Calls keep their ends: a step only adds calls and answers. *)
Lemma step_calls del e c c' k rc :
  step del e c c' → (∀ k rc, c.(calls) !! k = Some rc → (k < c.(next_call))%nat) →
  c.(calls) !! k = Some rc →
  ∃ rc', c'.(calls) !! k = Some rc' ∧ rc'.(caller) = rc.(caller) ∧ rc'.(callee) = rc.(callee).
Proof.
  intros Hs Hlt Hk. destruct Hs as [n l p p' out c Hp Hs|k' now rc' mx p c Hrc Ha Hd Hp Hsv Hlk].
  - destruct out as [[peer m]|]; simpl; [|by eauto].
    rewrite lookup_insert_ne; [by eauto|]. specialize (Hlt _ _ Hk). lia.
  - unfold handled. destruct (handle _ _ _) as [r' rep]; simpl.
    rewrite lookup_insert. case_decide; [|by eauto]. subst. simplify_eq. eexists; split; [done|done].
Qed.

Lemma has_majority_sound r v :
  0 <= v → has_majority r v = true → Z.of_nat (size r.(peers_)) < 2 * v.
Proof.
  unfold has_majority, u64. intros Hv H%Z.leb_le.
  pose proof (Z.mod_le v U64 Hv ltac:(done)). Z.div_mod_to_equations. lia.
Qed.

(** The count of a finished loop is a majority of distinct voters. *)
Lemma counted_elected h n r v :
  counted h n r.(peers_) [] v → has_majority r v = true → elected_by h n r.(peers_).
Proof.
  intros (Hself & visited & voters & Hperm & Hnd & Hin & Hn & -> & Hv) Hm.
  rewrite app_nil_r in Hperm. apply has_majority_sound in Hm; [|lia].
  exists (n :: voters). split; [by constructor|]. split; [set_solver|]. split.
  - intros x [->|Hx]%elem_of_cons; [by left|right]. apply elem_of_elements.
    rewrite <- Hperm. by apply Hin.
  - split; [simpl; lia|]. intros x [->|Hx]%elem_of_cons; [done|by apply Hv].
Qed.

(** * The history follows the state *)

Section StepHistory.
Variables (members : gset string) (del : Msg → bool).
Implicit Types (c : Cluster) (h : list Obs) (p : Proc).

(** What a step of a process does to its own vote, and what is observed. *)
Lemma proc_observed c n l p p' out :
  c.(procs) !! n = Some p → proc_inv members n p →
  proc_step (answer_of c) c.(next_call) l p (Next p' out) →
  let o := observe (EProc n l) c in
  (o = [] ∧ p'.(raft).(vote_for_) = p.(raft).(vote_for_)) ∨
  (o = [OVote n n] ∧ p.(raft).(vote_for_) = "" ∧ p'.(raft).(vote_for_) ≠ "") ∨
  (o = [OClear n] ∧ p'.(raft).(vote_for_) = "") ∨
  (∃ q v, p.(pc) = PVote q [] v ∧ has_majority p.(raft) v = true ∧
     o = [OElected n p.(raft).(term_) p.(raft).(peers_)] ∧
     p'.(raft).(vote_for_) = p.(raft).(vote_for_)).
Proof.
  intros Hp Hinv Hs. pose proof (pi_self _ _ _ Hinv) as Hself.
  pose proof (pi_name _ _ _ Hinv) as Hname.
  assert (∀ l', pc p = l' → l' ≠ PExit → role_ok n (raft p) l') as Hrole
    by (intros l' <- ?; by eapply role_live).
  inversion Hs; subst; cbv zeta; unfold observe; rewrite Hp; simpl;
    repeat match goal with
    | H : pc p = _ |- _ => rewrite H
    | _ => invert_send; by left
    end; try (by left).
  - match goal with H : follower_body _ _ _ _ = _ |- _ => rename H into Hf end.
    unfold follower_body in Hf. rewrite Z.leb_antisym.
    destruct (silence (raft p) now <? patience draw); simpl; [left; by simplify_eq|].
    case_decide as Hv; simplify_eq/=.
    + left. by rewrite bool_decide_eq_true_2.
    + rewrite bool_decide_eq_false_2 by done. simpl.
      destruct (drop_channel _ _); simplify_eq/=. naive_solver.
  - right; left. split; [done|]. split; [|congruence].
    match goal with H : pc p = PLock |- _ => specialize (Hrole _ H ltac:(done)) end.
    simpl in Hrole. naive_solver congruence.
  - left. split; [done|]. by destruct (heartbeat_reply_cases rep now (raft p)) as [[_ ->]|[_ ->]].
  - match goal with H : pc p = PVote ?q [] ?v |- _ => rename H into Hpc end.
    destruct (election_end_frame v now (raft p)) as (_ & _ & _ & _ & _ & [(_ & Hv & Hm)|(_ & Hv & Hm)]);
      rewrite Hm; simpl; [|naive_solver].
    right; right; right. eauto 10.
  - left. unfold Kill_begin in *. by case_decide; simplify_eq.
Qed.

Lemma counted_skip h n ps x todo v : counted h n ps (x :: todo) v → counted h n ps todo v.
Proof.
  intros (? & vis & vo & Hp & ? & Hin & ?). split; [done|]. exists (vis ++ [x]), vo.
  split; [by rewrite <- app_assoc|]. split; [done|]. split; [|done]. set_solver.
Qed.

Lemma counted_vote h n ps x todo v :
  counted h n ps (x :: todo) v → x ≠ n → OVote x n ∈ h → counted h n ps todo (v + 1).
Proof.
  intros (? & vis & vo & Hp & Hnd & Hin & Hn & -> & Hv) Hx Ho. split; [done|].
  exists (vis ++ [x]), (x :: vo).
  assert (x ∉ vo) as Hnew.
  { intros Hx'%Hin. assert (NoDup (vis ++ x :: todo)) as Hnd' by (rewrite Hp; apply NoDup_elements).
    apply NoDup_app in Hnd' as (_ & Hd & _). apply (Hd x Hx'). set_solver. }
  split; [by rewrite <- app_assoc|]. split; [by constructor|].
  split; [set_solver|]. split; [set_solver|]. split; [simpl; lia|]. set_solver.
Qed.

Lemma proc_election_ok c n l p p' out h :
  c.(procs) !! n = Some p → proc_inv members n p →
  proc_step (answer_of c) c.(next_call) l p (Next p' out) →
  (∀ k rc, c.(calls) !! k = Some rc → (k < c.(next_call))%nat) →
  hist_inv h c → election_ok (after n p' out c) (observe (EProc n l) c ++ h) n p'.
Proof.
  intros Hp Hinv Hs Hlt Hh. pose proof (pi_self _ _ _ Hinv) as Hself.
  pose proof (hi_elections _ _ Hh n p Hp) as He. unfold election_ok in He.
  pose proof (pi_wait _ _ _ Hinv) as Hw.
  inversion Hs; subst; unfold election_ok; simpl;
    try (match goal with H : pc p = _ |- _ =>
           rename H into Hpc; rewrite Hpc in He, Hw; rewrite ?Hpc end);
    try done.
  - rewrite Hp. simpl. split; [set_solver|]. exists [], []. simpl. split; [done|].
    split; [constructor|]. set_solver.
  - rewrite Hp; simpl. rewrite ?Hpc. invert_send; simpl; [by eapply counted_skip|].
    split; [done|]. rewrite lookup_insert_eq. eauto.
  - by invert_send.
  - rewrite Hp; simpl. destruct He as [He (rc & Hrc & Hca & Hce)].
    match goal with H : answer_of c _ = _ |- _ => rename H into Hans end.
    unfold answer_of in Hans. rewrite Hrc in Hans. simpl in Hans.
    unfold count_vote. destruct (VoteReply.get_vote rep) eqn:Hv; [|by eapply counted_skip].
    eapply counted_vote; [done|done|]. rewrite <- Hca, <- Hce. by eapply (hi_answers _ _ Hh).
  - by destruct (heartbeat_reply rep now (raft p)).2.
  - rewrite Hp; simpl. eapply counted_skip. apply He.
  - rewrite Hp; simpl. unfold Kill_begin in *. case_decide; simplify_eq; simpl.
    by destruct (pc p).
  - rewrite Hp; simpl. by destruct (pc p).
  - rewrite Hp; simpl. by destruct (pc p).
Qed.

Lemma election_ok_mono c c' h o n p :
  (∀ k rc, c.(calls) !! k = Some rc → ∃ rc', c'.(calls) !! k = Some rc' ∧
     rc'.(caller) = rc.(caller) ∧ rc'.(callee) = rc.(callee)) →
  election_ok c h n p → election_ok c' (o ++ h) n p.
Proof.
  intros Hc. unfold election_ok. destruct (pc p); try done; [by apply counted_mono|].
  intros [? (rc & Hrc & <- & <-)]. split; [by apply counted_mono|].
  destruct (Hc _ _ Hrc) as (rc' & ? & ? & ?). eauto.
Qed.

Lemma calls_bounded c :
  cluster_inv members c → ∀ k rc, c.(calls) !! k = Some rc → (k < c.(next_call))%nat.
Proof. intros [_ Hc] k rc Hk. by destruct (Hc k rc Hk). Qed.

Lemma proc_hist_inv c h n l p p' out :
  cluster_inv members c → hist_inv h c → c.(procs) !! n = Some p →
  proc_step (answer_of c) c.(next_call) l p (Next p' out) →
  hist_inv (observe (EProc n l) c ++ h) (after n p' out c).
Proof.
  intros Hinv Hh Hp Hs. pose proof Hinv as [Hps _]. pose proof (calls_bounded c Hinv) as Hlt.
  assert (step del (EProc n l) c (after n p' out c)) as Hstep by (by econstructor).
  pose proof (proc_observed c n l p p' out Hp (Hps n p Hp) Hs) as Ho. cbv zeta in Ho.
  pose proof (proc_election_ok c n l p p' out h Hp (Hps n p Hp) Hs Hlt Hh) as He.
  destruct Hh as [Hf Ha Han Hel Hed]. pose proof (Hf n p Hp) as Hfn.
  split.
  - intros m q. rewrite procs_after. case_decide as Hm.
    + intros [= <-] Hv'. subst m.
      destruct Ho as [[-> Hv]|[(-> & _ & Hv)|[[-> _]|(q & v & _ & _ & -> & Hv)]]]; simpl;
        [apply Hfn; congruence|done|by rewrite decide_True|apply Hfn; congruence].
    + intros Hq Hv. pose proof (Hf m q Hq Hv).
      destruct Ho as [[-> _]|[(-> & _)|[[-> _]|(? & ? & _ & _ & -> & _)]]]; simpl;
        rewrite ?decide_False; done.
  - intros m. specialize (Ha m).
    destruct Ho as [[-> _]|[(-> & Hv & _)|[[-> _]|(? & ? & _ & _ & -> & _)]]]; simpl; try done.
    split; [|done]. intros <-. by apply Hfn.
  - intros k rc rep Hk Hans Hg. apply elem_of_app; right.
    destruct out as [[peer m]|]; simpl in Hk; [|by eapply Han].
    rewrite lookup_insert in Hk. case_decide; [by simplify_eq|by eapply Han].
  - intros m q. rewrite procs_after. case_decide; [by intros [= <-]; subst m|].
    intros Hq. eapply election_ok_mono; [|by apply Hel].
    intros k rc Hk. by apply (step_calls del _ _ _ _ _ Hstep Hlt).
  - intros m t ps [Hin|Hin]%elem_of_app; [|by eapply elected_by_mono, Hed].
    destruct Ho as [[E _]|[(E & _)|[[E _]|(q & v & Hpc & Hm & E & _)]]]; rewrite E in Hin;
      [by apply not_elem_of_nil in Hin|by apply list_elem_of_singleton in Hin..|].
    apply list_elem_of_singleton in Hin. simplify_eq. apply elected_by_mono.
    specialize (Hel n p Hp). unfold election_ok in Hel. rewrite Hpc in Hel.
    by eapply counted_elected.
Qed.

Lemma handle_observed k now rc p c :
  c.(calls) !! k = Some rc → c.(procs) !! rc.(callee) = Some p → call_ok c k rc →
  let o := observe (EDeliver k now) c in
  (o = [OVote rc.(callee) rc.(caller)] ∧ p.(raft).(vote_for_) = "" ∧
   (handle rc.(message) now p.(raft)).1.(vote_for_) ≠ "") ∨
  (o = [] ∧
   (p.(raft).(vote_for_) ≠ "" → (handle rc.(message) now p.(raft)).1.(vote_for_) ≠ "") ∧
   ∀ rep, (handle rc.(message) now p.(raft)).2 = RVote rep → VoteReply.get_vote rep = false).
Proof.
  intros Hrc Hp (_ & Hname & Hm & _). unfold observe. rewrite Hrc.
  destruct (message rc) as [q|q]; rewrite ?Hp; simpl.
  - destruct (Vote_cases q now (raft p)) as [(?&?&?&->)|[? ->]]; simpl.
    + left. rewrite Hm. naive_solver congruence.
    + right. split; [done|]. split; [done|]. by intros rep [= <-].
  - right. split; [done|].
    destruct Hm as [Hm _].
    destruct (AppendMsg_cases q now (raft p)) as [[? ->]|[(?&?&->)|(?&?&?&->)]]; simpl;
      (split; [naive_solver congruence|done]).
Qed.

Lemma deliver_hist_inv c h k now rc p :
  cluster_inv members c → hist_inv h c → c.(calls) !! k = Some rc → rc.(answer) = None →
  c.(procs) !! rc.(callee) = Some p → holds_lock p.(pc) = false →
  hist_inv (observe (EDeliver k now) c ++ h) (handled k rc now p c).
Proof.
  intros [_ Hcs] [Hf Ha Han Hel Hed] Hrc Hnone Hp Hl.
  pose proof (handle_observed k now rc p c Hrc Hp (Hcs k rc Hrc)) as Ho. cbv zeta in Ho.
  split.
  - intros m q. rewrite procs_handled. case_decide as Hm.
    + intros [= <-] Hv. simpl in Hv. subst m.
      destruct Ho as [(-> & _ & Hv')|(-> & Hv' & _)]; [done|]. apply (Hf _ p Hp).
      destruct (decide (vote_for_ (raft p) = "")); [done|]. naive_solver.
    + intros Hq Hv. pose proof (Hf m q Hq Hv).
      destruct Ho as [(-> & _)|(-> & _)]; simpl; rewrite ?decide_False; done.
  - intros m. specialize (Ha m). destruct Ho as [(-> & Hv & _)|(-> & _)]; simpl; [|done].
    split; [|done]. intros <-. by apply (Hf _ p Hp).
  - intros k' rc' rep. unfold handled.
    destruct (handle (message rc) now (raft p)) as [r' rp] eqn:Eh; simpl in *.
    rewrite lookup_insert. case_decide; [|intros; apply elem_of_app; right; by eapply Han].
    intros [= <-] [= ->] Hg; simpl. destruct Ho as [(-> & _)|(-> & _ & Hn)]; [set_solver|].
    rewrite (Hn rep eq_refl) in Hg. done.
  - intros m q. rewrite procs_handled. case_decide as Hm.
    + intros [= <-]. unfold election_ok; simpl. by destruct (pc p).
    + intros Hq. eapply election_ok_mono; [|by apply Hel].
      intros k' rc' Hk'. unfold handled. destruct (handle _ _ _); simpl.
      rewrite lookup_insert. case_decide; [|by eauto]. simplify_eq. by eexists.
  - intros m t ps [Hin|Hin]%elem_of_app; [|by eapply elected_by_mono, Hed].
    destruct Ho as [(E & _)|(E & _)]; rewrite E in Hin;
      [by apply list_elem_of_singleton in Hin|by apply not_elem_of_nil in Hin].
Qed.

Lemma step_hist_inv e c c' h :
  cluster_inv members c → hist_inv h c → step del e c c' → hist_inv (observe e c ++ h) c'.
Proof.
  intros Hinv Hh Hs. destruct Hs as [|k now rc m p c Hrc Ha Hd Hp Hsv Hlk];
    [by eapply proc_hist_inv|]. rewrite handled_lock. pose proof Hinv as [Hps _].
  eapply deliver_hist_inv; try done. eapply lock_free; [by apply Hps|exact Hlk].
Qed.
End StepHistory.

Lemma boot_hist_inv cfg t0 rs : launch cfg t0 = Some rs → hist_inv [] (boot rs).
Proof.
  intros Hl. split; try done.
  - intros n p Hp. by destruct (boot_lookup rs n p Hp) as (r & _ & -> & _).
  - by intros n t ps ?%not_elem_of_nil.
Qed.

Lemma history_steps del c0 h c : history del c0 h c → ∃ es, steps del es c0 c.
Proof.
  induction 1 as [|e c c' h _ [es Hes] Hs]; [exists []; constructor|].
  exists (es ++ [e]). by econstructor.
Qed.

Lemma history_inv del cfg t0 rs h c :
  launch cfg t0 = Some rs → history del (boot rs) h c → hist_inv h c.
Proof.
  intros Hl Hh. induction Hh as [|e c c' h Hh IH Hs]; [by eapply boot_hist_inv|].
  destruct (history_steps _ _ _ _ Hh) as [es Hes].
  eapply step_hist_inv; [|done|done]. eapply steps_inv; [done|]. by eapply boot_inv.
Qed.

(** Running events and recording what is observed. *)
Fixpoint replay (del : Msg → bool) (es : list Event) (c : Cluster) (h : list Obs) :
    option (list Obs * Cluster) :=
  match es with
  | [] => Some (h, c)
  | e :: es => c' ← exec del e c; replay del es c' (observe e c ++ h)
  end.

Lemma replay_history del es c0 h c h' c' :
  history del c0 h c → replay del es c h = Some (h', c') → history del c0 h' c'.
Proof.
  revert h c. induction es as [|e es IH]; intros h c Hh; simpl; [by intros [= <- <-]|].
  intros (c1 & He & Hx)%bind_Some. eapply IH; [|done]. econstructor; [done|].
  by apply exec_step.
Qed.

(** * Leaders and memberships *)

(** A process bears the name of a member; whoever leads was elected; and as
    long as nobody took a vote back every peer set is the whole membership. *)
Record full_inv (members : gset string) (h : list Obs) (c : Cluster) : Prop := {
  fi_name : ∀ n p, c.(procs) !! n = Some p → n ∈ members;
  fi_leader : ∀ n p, c.(procs) !! n = Some p → p.(raft).(status_) = LEADER →
    ∃ t ps, OElected n t ps ∈ h;
  fi_elected : ∀ n t ps, OElected n t ps ∈ h → n ∈ members;
  fi_peers : (∀ v, OClear v ∉ h) → ∀ n p, c.(procs) !! n = Some p → p.(raft).(peers_) = members;
  fi_sets : (∀ v, OClear v ∉ h) → ∀ n t ps, OElected n t ps ∈ h → ps = members
}.

Lemma boot_full cfg t0 rs :
  launch cfg t0 = Some rs → full_inv (list_to_set (service cfg)) [] (boot rs).
Proof.
  intros Hl. pose proof (launch_newly_built cfg t0 rs Hl) as Hf. rewrite Forall_forall in Hf.
  split.
  - intros n p Hp. destruct (boot_lookup rs n p Hp) as (r & Hr & _ & ->).
    destruct (Hf r Hr) as (H & _). by apply elem_of_list_to_set.
  - intros n p Hp. destruct (boot_lookup rs n p Hp) as (r & Hr & -> & ->).
    destruct (Hf r Hr) as (_ & _ & _ & Hst & _). simpl. congruence.
  - by intros n t ps ?%not_elem_of_nil.
  - intros _ n p Hp. destruct (boot_lookup rs n p Hp) as (r & Hr & -> & ->).
    by destruct (Hf r Hr) as (_ & _ & _ & _ & _ & H & _).
  - by intros _ n t ps ?%not_elem_of_nil.
Qed.

(** The leadership and the peers a step leaves, by what it did to the votes. *)
Lemma proc_leads members c n l p p' out :
  c.(procs) !! n = Some p → proc_inv members n p →
  proc_step (answer_of c) c.(next_call) l p (Next p' out) →
  let o := observe (EProc n l) c in
  (p'.(raft).(status_) = LEADER → p.(raft).(status_) = LEADER ∨
     o = [OElected n p.(raft).(term_) p.(raft).(peers_)]) ∧
  (p'.(raft).(peers_) = p.(raft).(peers_) ∨ o = [OClear n]).
Proof.
  intros Hp Hinv Hs. inversion Hs; subst; cbv zeta; unfold observe; rewrite Hp; simpl;
    repeat match goal with
    | H : pc p = _ |- _ => rewrite H
    | _ => invert_send; by auto
    end; auto.
  - match goal with H : follower_body _ _ _ _ = _ |- _ => rename H into Hf end.
    unfold follower_body in Hf. rewrite Z.leb_antisym.
    destruct (silence (raft p) now <? patience draw); simpl; [by simplify_eq; auto|].
    case_decide as Hv; [simplify_eq/=; split; [congruence|by left]|].
    rewrite bool_decide_eq_false_2 by done.
    destruct (drop_channel _ _); simplify_eq/=. split; [by left|by right].
  - destruct (heartbeat_reply_cases rep now (raft p)) as [[_ ->]|[_ ->]]; simpl;
      (split; [auto || done|by left]).
  - destruct (election_end_frame v now (raft p)) as (_ & _ & -> & _ & _ & [(_ & _ & Hm)|(Hst & _ & Hm)]);
      rewrite Hm; [by auto|]. split; [congruence|by left].
  - unfold Kill_begin in *. case_decide; simplify_eq. by auto.
  - split; [done|by left].
Qed.

Lemma not_clear_app (o h : list Obs) : (∀ v, OClear v ∉ o ++ h) → ∀ v, OClear v ∉ h.
Proof. intros Hc v Hv. apply (Hc v), elem_of_app. by right. Qed.

(** Something observed now or before is in the history. *)
Ltac in_history :=
  apply elem_of_app;
  first [by right
        |left; match goal with E : observe _ _ = _ |- _ => rewrite E end;
         by apply list_elem_of_singleton].

Lemma step_full members del e c c' h :
  cluster_inv members c → full_inv members h c → step del e c c' →
  full_inv members (observe e c ++ h) c'.
Proof.
  intros [Hps Hcs] [H1 H2 H3 H4 H5] Hs.
  destruct Hs as [n l p p' out c Hp Hs|k now rc mx p c Hrc Ha Hd Hp Hsv Hlk].
  - pose proof (proc_leads members c n l p p' out Hp (Hps n p Hp) Hs) as [Hl Hpe].
    pose proof (proc_observed members c n l p p' out Hp (Hps n p Hp) Hs) as Ho. cbv zeta in *.
    assert (∀ m t ps, OElected m t ps ∈ observe (EProc n l) c →
      m = n ∧ ps = p.(raft).(peers_)) as Hobs.
    { intros m t ps Hin. destruct Ho as [[E _]|[(E & _)|[[E _]|(? & ? & _ & _ & E & _)]]];
        rewrite E in Hin; [by apply not_elem_of_nil in Hin|..];
        apply list_elem_of_singleton in Hin; by simplify_eq. }
    split.
    + intros m q. rewrite procs_after. case_decide; [intros _; subst m|]; eauto.
    + intros m q. rewrite procs_after. case_decide.
      * intros [= <-] Hst. subst m. destruct (Hl Hst) as [Hst'|E].
        { destruct (H2 n p Hp Hst') as (t & ps & ?). exists t, ps. in_history. }
        { eexists _, _. in_history. }
      * intros Hq Hst. destruct (H2 m q Hq Hst) as (t & ps & ?). exists t, ps. in_history.
    + intros m t ps [Hin|Hin]%elem_of_app; [|by eauto]. destruct (Hobs _ _ _ Hin) as [-> _]. eauto.
    + intros Hc m q. pose proof (not_clear_app _ _ Hc) as Hc'. rewrite procs_after. case_decide.
      * intros [= <-]. subst m. destruct Hpe as [->|E]; [|by destruct (Hc n); in_history].
        by eapply H4.
      * by apply H4.
    + intros Hc m t ps. pose proof (not_clear_app _ _ Hc) as Hc'.
      intros [Hin|Hin]%elem_of_app; [|by eauto]. destruct (Hobs _ _ _ Hin) as [_ ->]. eauto.
  - pose proof (handle_observed k now rc p c Hrc Hp (Hcs k rc Hrc)) as Ho. cbv zeta in Ho.
    assert (∀ m t ps, OElected m t ps ∉ observe (EDeliver k now) c) as Hobs.
    { intros m t ps Hin. destruct Ho as [(E & _)|(E & _)]; rewrite E in Hin;
        [by apply list_elem_of_singleton in Hin|by apply not_elem_of_nil in Hin]. }
    destruct (handle_frame (message rc) now p.(raft)) as (_ & Epe & _).
    assert ((handle (message rc) now p.(raft)).1.(status_) = LEADER → p.(raft).(status_) = LEADER)
      as Hst.
    { destruct (message rc) as [q|q]; simpl.
      - by destruct (Vote_cases q now (raft p)) as [(?&?&?&->)|[? ->]].
      - by destruct (AppendMsg_cases q now (raft p)) as [[? ->]|[(?&?&->)|(?&?&?&->)]]. }
    split.
    + intros m q. rewrite handled_lock, procs_handled. case_decide; [intros _; subst m|]; eauto.
    + intros m q. rewrite handled_lock, procs_handled. case_decide.
      * intros [= <-] Hq. subst m. destruct (H2 _ p Hp (Hst Hq)) as (t & ps & ?).
        exists t, ps. in_history.
      * intros Hq Hq'. destruct (H2 m q Hq Hq') as (t & ps & ?). exists t, ps. in_history.
    + intros m t ps [Hin|Hin]%elem_of_app; [by destruct (Hobs _ _ _ Hin)|by eauto].
    + intros Hc m q. pose proof (not_clear_app _ _ Hc) as Hc'.
      rewrite handled_lock, procs_handled. case_decide; [|by eauto]. intros [= <-]. simpl. rewrite Epe. eauto.
    + intros Hc m t ps [Hin|Hin]%elem_of_app; [by destruct (Hobs _ _ _ Hin)|].
      by apply (H5 (not_clear_app _ _ Hc) m t ps).
Qed.

Lemma history_full del cfg t0 rs h c :
  launch cfg t0 = Some rs → history del (boot rs) h c →
  full_inv (list_to_set (service cfg)) h c.
Proof.
  intros Hl Hh. induction Hh as [|e c c' h Hh IH Hs]; [by eapply boot_full|].
  destruct (history_steps _ _ _ _ Hh) as [es Hes].
  eapply step_full; [|done|done]. eapply steps_inv; [done|]. by eapply boot_inv.
Qed.

(** Two majorities of one set share a voter. *)
Lemma majorities_meet (ps : gset string) (l1 l2 : list string) :
  NoDup l1 → NoDup l2 → (∀ x, x ∈ l1 → x ∈ ps) → (∀ x, x ∈ l2 → x ∈ ps) →
  (size ps < 2 * length l1)%nat → (size ps < 2 * length l2)%nat → ∃ x, x ∈ l1 ∧ x ∈ l2.
Proof.
  intros H1 H2 Hi1 Hi2 Hs1 Hs2.
  destruct (decide (Exists (.∈ l2) l1)) as [H|H]; [by apply Exists_exists in H|].
  apply not_Exists_Forall in H; [|apply _]. rewrite Forall_forall in H.
  assert (NoDup (l1 ++ l2)) as Hnd by (by apply NoDup_app).
  assert (length (l1 ++ l2) <= size ps)%nat as Hle; [|rewrite length_app in Hle; lia].
  rewrite <- (size_list_to_set (C := gset string)) by done. apply subseteq_size.
  intros x Hx%elem_of_list_to_set. apply elem_of_app in Hx as [?|?]; auto.
Qed.

(** Two different elements of a list come one after the other. *)
Lemma in_order {A} (l : list A) x y :
  x ∈ l → y ∈ l → x ≠ y →
  ∃ l1 l2 l3, l = l3 ++ y :: l2 ++ x :: l1 ∨ l = l3 ++ x :: l2 ++ y :: l1.
Proof.
  intros (la & lb & ->)%list_elem_of_split Hy Hne.
  apply elem_of_app in Hy as [Hy|[->|Hy]%elem_of_cons]; [|done|].
  - apply list_elem_of_split in Hy as (lc & ld & ->). exists lb, ld, lc. left.
    by rewrite <- app_assoc.
  - apply list_elem_of_split in Hy as (lc & ld & ->). exists ld, lc, la. by right.
Qed.

(** Two nodes with a majority of one peer set had a common voter, and between
    its two votes it took the first one back. *)
Lemma common_voter h c a b ps :
  hist_inv h c → elected_by h a ps → elected_by h b ps → a ≠ b → a ∈ ps → b ∈ ps →
  ∃ v x y h1 h2 h3, ((x = a ∧ y = b) ∨ (x = b ∧ y = a)) ∧
    h = h3 ++ OVote v y :: h2 ++ OVote v x :: h1 ∧ OClear v ∈ h2.
Proof.
  intros Hi (l1 & Hnd1 & _ & Hin1 & Hs1 & Hv1) (l2 & Hnd2 & _ & Hin2 & Hs2 & Hv2) Hne Ha Hb.
  destruct (majorities_meet ps l1 l2) as (v & Hva & Hvb); try done.
  { intros x [->|?]%Hin1; done. }
  { intros x [->|?]%Hin2; done. }
  destruct (in_order h (OVote v a) (OVote v b) (Hv1 v Hva) (Hv2 v Hvb))
    as (h1 & h2 & h3 & [Ho|Ho]); [congruence| |];
    [exists v, a, b, h1, h2, h3|exists v, b, a, h1, h2, h3]; (split; [tauto|]);
    (split; [done|]); eapply alternates_between; rewrite <- Ho; apply (hi_alternates _ _ Hi).
Qed.

(** * Theorems *)

(** A launched cluster, a history of it, and a test they pass. *)
Definition recorded (del : Msg → bool) (cfg : list (string * Z)) (es : list Event)
    (f : list Obs → Cluster → bool) : bool :=
  match launch cfg (λ _, 0) with
  | Some rs => match replay del es (boot rs) [] with Some (h, c) => f h c | None => false end
  | None => false
  end.

Lemma recorded_history del cfg es f :
  recorded del cfg es f = true →
  ∃ rs h c, launch cfg (λ _, 0) = Some rs ∧ history del (boot rs) h c ∧ f h c = true.
Proof.
  unfold recorded. destruct (launch cfg _) as [rs|]; [|done].
  destruct (replay del es (boot rs) []) as [[h c]|] eqn:E; [|done].
  intros Hf. exists rs, h, c. split; [done|]. split; [|done].
  eapply replay_history; [constructor|done].
Qed.

(** C2: whoever is elected, in whatever interleaving, has the votes of a
    majority of the peers it had: there are distinct nodes, itself among them
    and the others all peers of it, more than half as many as its peers, each
    of which voted for it. *)
Theorem election_integrity del cfg t0 rs h c n t ps :
  launch cfg t0 = Some rs → history del (boot rs) h c → OElected n t ps ∈ h →
  elected_by h n ps.
Proof. intros Hl Hh. apply (hi_elected _ _ (history_inv del cfg t0 rs h c Hl Hh)). Qed.

Lemma election_integrity_witness :
  ∃ (h : list Obs) ps, OElected n1 0 ps ∈ h ∧ elected_by h n1 ps.
Proof.
  destruct (recorded_history send_all cfg3 elect_n1
    (λ h c, bool_decide (OElected n1 0 (list_to_set (service cfg3)) ∈ h)))
    as (rs & h & c & Hl & Hh & Hf); [vm_compute; reflexivity|].
  apply bool_decide_eq_true in Hf. exists h, (list_to_set (service cfg3)). split; [exact Hf|].
  exact (election_integrity send_all cfg3 _ rs h c n1 0 _ Hl Hh Hf).
Defined.

(** [n1] loses an election that nobody answered, and runs again. *)
Definition lose_and_retry : list Event :=
  start n1 ++ follow n1 9000 ++ begin_election n1 order3
  ++ flat_map (λ p, if decide (p = n1) then [EProc n1 LSend] else ask_fails n1) order3
  ++ [EProc n1 (LFinish 9000)] ++ follow n1 18000 ++ begin_election n1 order3.

(** Between any two votes of a node, for whomever, the node took its vote
    back. *)
Theorem votes_alternate del cfg t0 rs h c v x y h1 h2 h3 :
  launch cfg t0 = Some rs → history del (boot rs) h c →
  h = h3 ++ OVote v y :: h2 ++ OVote v x :: h1 → OClear v ∈ h2.
Proof.
  intros Hl Hh ->. eapply alternates_between.
  apply (hi_alternates _ _ (history_inv del cfg t0 rs _ c Hl Hh)).
Qed.

Lemma votes_alternate_witness :
  ∃ h1 h2 h3, OClear n1 ∈ h2 ∧ h3 ++ OVote n1 n1 :: h2 ++ OVote n1 n1 :: h1 ≠ [].
Proof.
  destruct (recorded_history initialized cfg3 lose_and_retry (λ h c,
    bool_decide (h = [OVote n1 n1; OClear n1; OVote n1 n1])))
    as (rs & h & c & Hl & Hh & Hf%bool_decide_eq_true); [vm_compute; reflexivity|].
  exists [], [OClear n1], []. split; [|discriminate].
  exact (votes_alternate initialized cfg3 _ rs h c n1 n1 n1 [] [OClear n1] [] Hl Hh Hf).
Defined.

(** C3: two nodes elected with the same peers, each of them still one of those
    peers (a node that expelled itself from its own peers is not), in whatever
    terms, had a common voter that took its vote for the one back before it
    voted for the other. *)
Theorem two_leaders_need_a_reset del cfg t0 rs h c a b ta tb ps :
  launch cfg t0 = Some rs → history del (boot rs) h c →
  OElected a ta ps ∈ h → OElected b tb ps ∈ h → a ≠ b → a ∈ ps → b ∈ ps →
  ∃ v x y h1 h2 h3, ((x = a ∧ y = b) ∨ (x = b ∧ y = a)) ∧
    h = h3 ++ OVote v y :: h2 ++ OVote v x :: h1 ∧ OClear v ∈ h2.
Proof.
  intros Hl Hh Ha Hb Hne Hina Hinb. pose proof (history_inv del cfg t0 rs h c Hl Hh) as Hi.
  eapply common_voter; try done; by eapply (hi_elected _ _ Hi).
Qed.

(** C1: as long as no node took a vote back - no follower's patience with the
    node it voted for ran out, no election was lost - the cluster has at most
    one leader, in whatever terms. *)
Theorem at_most_one_leader del cfg t0 rs h c a b p q :
  launch cfg t0 = Some rs → history del (boot rs) h c → (∀ v, OClear v ∉ h) →
  c.(procs) !! a = Some p → c.(procs) !! b = Some q →
  p.(raft).(status_) = LEADER → b ≠ a → q.(raft).(status_) ≠ LEADER.
Proof.
  intros Hl Hh Hc Hp Hq Hpl Hne Hql. pose proof (history_inv del cfg t0 rs h c Hl Hh) as Hi.
  pose proof (history_full del cfg t0 rs h c Hl Hh) as [_ H2 H3 _ H5].
  destruct (H2 a p Hp Hpl) as (ta & pa & Ha), (H2 b q Hq Hql) as (tb & pb & Hb).
  pose proof (H5 Hc a ta pa Ha) as Ea. pose proof (H5 Hc b tb pb Hb) as Eb. subst pa pb.
  destruct (common_voter h c a b (list_to_set (service cfg)) Hi)
    as (v & x & y & h1 & h2 & h3 & _ & -> & Hin);
    [by eapply (hi_elected _ _ Hi)|by eapply (hi_elected _ _ Hi)|done|by eapply H3|by eapply H3|].
  apply (Hc v). apply elem_of_app; right. apply elem_of_cons; right. apply elem_of_app; by left.
Qed.

Lemma at_most_one_leader_witness :
  ∃ c p, c.(procs) !! n2 = Some p ∧ p.(raft).(status_) ≠ LEADER.
Proof.
  destruct (recorded_history send_all cfg3 elect_n1 (λ h c,
    forallb (λ o, match o with OClear _ => false | _ => true end) h &&
    match c.(procs) !! n1, c.(procs) !! n2 with
    | Some p, Some q => bool_decide (p.(raft).(status_) = LEADER) | _, _ => false end))
    as (rs & h & c & Hl & Hh & [Hc Hf]%andb_true_iff); [vm_compute; reflexivity|].
  destruct (c.(procs) !! n1) as [p|] eqn:Hp; [|discriminate].
  destruct (c.(procs) !! n2) as [q|] eqn:Hq; [|discriminate].
  apply bool_decide_eq_true in Hf. exists c, q. split; [exact Hq|].
  apply (at_most_one_leader send_all cfg3 _ rs h c n1 n2 p q Hl Hh); try assumption.
  - intros v Hv%list_elem_of_In. rewrite forallb_forall in Hc. by apply Hc in Hv.
  - vm_compute. discriminate.
Defined.

(** * Two leaders *)

(** An election in which the calls to the peers of [lost] fail. *)
Fixpoint ask_some (n : string) (order lost : list string) (k : nat) (now : Z) : list Event :=
  match order with
  | [] => []
  | p :: order =>
      if decide (p = n) then EProc n LSend :: ask_some n order lost k now
      else (if decide (p ∈ lost) then ask_fails n else ask n k now)
           ++ ask_some n order lost (S k) now
  end.

(** [n1] is elected by [n2] alone.  Nine seconds later [n2], which heard
    nothing, takes its vote back; [n3], never reached, runs, and [n2] votes
    for it. *)
Definition two_elections : list Event :=
  start n1 ++ start n2 ++ start n3 ++ follow n1 9000 ++ begin_election n1 order3
  ++ ask_some n1 order3 [n3] 0 9000 ++ [EProc n1 (LFinish 9000)]
  ++ follow n2 18000 ++ follow n3 18000 ++ begin_election n3 order3
  ++ ask_some n3 order3 [] 2 18000 ++ [EProc n3 (LFinish 18000)].

Lemma two_leaders_need_a_reset_witness :
  ∃ h : list Obs, OElected n1 0 (list_to_set (service cfg3)) ∈ h ∧
    OElected n3 0 (list_to_set (service cfg3)) ∈ h ∧ ∃ v, OClear v ∈ h.
Proof.
  destruct (recorded_history initialized cfg3 two_elections (λ h c,
    bool_decide (OElected n1 0 (list_to_set (service cfg3)) ∈ h) &&
    bool_decide (OElected n3 0 (list_to_set (service cfg3)) ∈ h)))
    as (rs & h & c & Hl & Hh & [H1%bool_decide_eq_true H2%bool_decide_eq_true]%andb_true_iff);
    [vm_compute; reflexivity|].
  assert (∀ n, bool_decide (n ∈ service cfg3) = true →
    n ∈ (list_to_set (service cfg3) : gset string)) as Hin
    by (intros n Hn%bool_decide_eq_true; by apply elem_of_list_to_set).
  exists h. split; [exact H1|]. split; [exact H2|].
  destruct (two_leaders_need_a_reset initialized cfg3 _ rs h c n1 n3 0 0
    (list_to_set (service cfg3)) Hl Hh H1 H2) as (v & x & y & h1 & h2 & h3 & _ & Hh' & Hv);
    [by intros E; vm_compute in E|apply Hin; vm_compute; reflexivity..|].
  exists v. rewrite Hh'. apply elem_of_app; right. apply elem_of_cons; right.
  apply elem_of_app; by left.
Defined.

(** Over the transport that sends initialised messages only, a cluster of three
    nodes reaches two live leaders of the same term: [n2], whose timer ran out,
    votes for both. *)
Example two_leaders_of_one_term :
  ∃ c p q, run initialized cfg3 at0 two_elections = Some c ∧
    c.(procs) !! n1 = Some p ∧ c.(procs) !! n3 = Some q ∧
    p.(raft).(status_) = LEADER ∧ q.(raft).(status_) = LEADER ∧
    p.(raft).(term_) = q.(raft).(term_) ∧
    p.(killer) = KNone ∧ q.(killer) = KNone.
Proof.
  destruct (probe_run initialized cfg3 two_elections n1 (λ c p,
    match c.(procs) !! n3 with
    | Some q => bool_decide (p.(raft).(status_) = LEADER ∧ q.(raft).(status_) = LEADER ∧
        p.(raft).(term_) = q.(raft).(term_)) &&
        match p.(killer), q.(killer) with KNone, KNone => true | _, _ => false end
    | None => false end)) as (c & p & E & Hp & H); [vm_compute; reflexivity|].
  destruct (c.(procs) !! n3) as [q|] eqn:Hq; [|discriminate].
  apply andb_true_iff in H as [(H1 & H2 & H3)%bool_decide_eq_true Hk].
  exists c, p, q. do 6 (split; [assumption|]).
  destruct (killer p); try discriminate Hk. destruct (killer q); try discriminate Hk.
  split; reflexivity.
Qed.

(** The iteration of a follower whose patience with the node it voted for ran
    out: it takes the vote back and expels the node. *)
Definition forsaken (r : Raft) : Raft :=
  set_vote_for "" (set_peers (r.(peers_) ∖ {[r.(vote_for_)]}) r).

Lemma follower_forsakes members del c v p draw now :
  cluster_inv members c → c.(procs) !! v = Some p → p.(pc) = PTest →
  p.(raft).(is_dead_) = false → p.(raft).(status_) = FOLLOWER → p.(raft).(vote_for_) ≠ "" →
  200 <= draw <= 350 → patience draw <= silence p.(raft) now →
  ∃ c' p', steps del [EProc v LTest; EProc v (LFollower draw now)] c c' ∧
    c'.(procs) !! v = Some p' ∧ c'.(calls) = c.(calls) ∧ p'.(raft) = forsaken p.(raft) ∧
    p'.(serving) = true ∧ p'.(lock_) = Unlocked.
Proof.
  intros Hinv Hp Hpc Hd Hst Hv Hdraw Hpat.
  assert (p.(serving) = true) as Hsv.
  { destruct Hinv as [Hps _]. pose proof (pi_kill _ _ _ (Hps v p Hp)) as Hk.
    unfold kill_ok in Hk. destruct (killer p); destruct_and?; congruence. }
  pose (p1 := at_pc p p.(raft) PLock).
  assert (step del (EProc v LTest) c (after v p1 None c)) as S1
    by (econstructor; [done|]; by apply ps_loop).
  pose proof (step_inv _ _ _ _ _ S1 Hinv) as [Hps1 _].
  assert ((after v p1 None c).(procs) !! v = Some p1) as Hp1
    by (by rewrite procs_after, decide_True).
  destruct (follower_inv members v _ (answer_of_inv _ _ Hinv) p1 draw now eq_refl Hst (Hps1 v p1 Hp1))
    as (r' & ch & Ef & _).
  pose (p2 := unlock (mkProc r' PTest ch p1.(serving) p1.(killer) Locked)).
  exists (after v p2 None (after v p1 None c)), p2. split.
  - apply (steps_snoc del [_] _ _ (after v p1 None c));
      [apply (steps_snoc del [] _ _ c); [constructor|exact S1]|].
    econstructor; [done|]. apply ps_follower; try done.
    by rewrite (pi_lock _ _ _ (Hps1 v p1 Hp1)).
  - split; [by rewrite procs_after, decide_True|]. split; [done|]. split; [|done].
    simpl. unfold follower_body in Ef. rewrite (proj2 (Z.ltb_ge _ _)) in Ef by done.
    rewrite decide_False in Ef by done. destruct (drop_channel _ _); by simplify_eq/=.
Qed.

(** C6: A vote binds a follower only until its timer runs out, and no term is
    compared: in every reachable cluster a live follower between two iterations
    that voted and has heard nothing for its patience takes the vote back, with the
    node it had voted for out of its peers, and grants the next request that the
    transport delivers, whoever sent it and whatever its term; its own term stays
    the same throughout. *)
Theorem vote_is_given_again del cfg t0 es c v p k rc q draw now now' :
  reachable del cfg t0 es c → c.(procs) !! v = Some p → p.(pc) = PTest →
  p.(raft).(is_dead_) = false → p.(raft).(status_) = FOLLOWER → p.(raft).(vote_for_) ≠ "" →
  200 <= draw <= 350 → patience draw <= silence p.(raft) now →
  c.(calls) !! k = Some rc → rc.(callee) = v → rc.(message) = MVote q →
  rc.(answer) = None → del (MVote q) = true →
  ∃ c' p', steps del [EProc v LTest; EProc v (LFollower draw now); EDeliver k now'] c c' ∧
    c'.(procs) !! v = Some p' ∧ p'.(raft).(vote_for_) = rc.(caller) ∧
    p'.(raft).(term_) = p.(raft).(term_) ∧
    p'.(raft).(peers_) = p.(raft).(peers_) ∖ {[p.(raft).(vote_for_)]} ∧
    answer_of c' k = Some (RVote (VoteReply.mk (Some p.(raft).(term_)) (Some true))).
Proof.
  intros Hr Hp Hpc Hd Hst Hv Hdraw Hpat Hrc Hce Hm Ha Hdel.
  pose proof (reachable_inv _ _ _ _ _ Hr) as Hinv.
  assert (VoteRequest.get_candidate_id q = rc.(caller)) as Hca.
  { destruct Hinv as [_ Hcs]. destruct (Hcs k rc Hrc) as (_ & _ & H & _). by rewrite Hm in H. }
  destruct (follower_forsakes _ del c v p draw now Hinv Hp Hpc Hd Hst Hv Hdraw Hpat)
    as (c2 & p2 & Hs2 & Hp2 & Hcalls & Er & Hsv & Hlk).
  assert (step del (EDeliver k now') c2 (handled k rc now' (set_lock Locked p2) c2)) as S3.
  { econstructor; [by rewrite Hcalls|done|by rewrite Hm|by rewrite Hce|done|by rewrite Hlk]. }
  eexists _, _. split; [apply (steps_snoc del [_; _] _ _ _ _ Hs2 S3)|].
  split; [by rewrite handled_lock, procs_handled, decide_True|].
  rewrite handled_lock. unfold answer_of, handled. rewrite Hm, Er. simpl.
  destruct (Vote_cases q now' (forsaken p.(raft))) as [(_ & _ & _ & ->)|[H _]].
  - simpl. by rewrite lookup_insert_eq.
  - exfalso. unfold forsaken in H. simpl in H. naive_solver congruence.
Qed.

(** [n2] voted for [n1], its timer is about to run out, and the request of
    [n3] waits. *)
Definition request_waits : list Event :=
  start n1 ++ start n2 ++ start n3 ++ follow n1 9000 ++ begin_election n1 order3
  ++ ask_some n1 order3 [n3] 0 9000 ++ [EProc n1 (LFinish 9000)]
  ++ follow n3 18000 ++ begin_election n3 [n2; n1; n3] ++ [EProc n3 LSend].

Lemma vote_is_given_again_witness :
  ∃ c c' p', run initialized cfg3 at0 request_waits = Some c ∧
    steps initialized [EProc n2 LTest; EProc n2 (LFollower 200 18000); EDeliver 2 18001] c c' ∧
    c'.(procs) !! n2 = Some p' ∧ p'.(raft).(vote_for_) = n3.
Proof.
  destruct (probe_run initialized cfg3 request_waits n2 (λ c p,
    match p.(pc) with PTest => true | _ => false end && negb p.(raft).(is_dead_) &&
    bool_decide (p.(raft).(status_) = FOLLOWER ∧ p.(raft).(vote_for_) = n1 ∧
                 patience 200 <= silence p.(raft) 18000) &&
    match c.(calls) !! 2%nat with
    | Some (mkCall a b (MVote q) None) =>
        bool_decide (a = n3 ∧ b = n2) && VoteRequest.IsInitialized q
    | _ => false end))
    as (c & p & E & Hp & Hf); [vm_compute; reflexivity|].
  apply andb_true_iff in Hf as [Hf Hc]. apply andb_true_iff in Hf as [Hf Hst].
  apply andb_true_iff in Hf as [Hpc Hd%negb_true_iff].
  apply bool_decide_eq_true in Hst as (Hst & Hv & Hpat).
  destruct (c.(calls) !! 2%nat) as [[a b [q|] [|]]|] eqn:Hk; try discriminate Hc.
  apply andb_true_iff in Hc as [[-> ->]%bool_decide_eq_true Hq].
  destruct (vote_is_given_again initialized cfg3 at0 request_waits c n2 p 2
    (mkCall n3 n2 (MVote q) None) q 200 18000 18001)
    as (c' & p' & Hs & Hp' & Hv' & _); try assumption; try reflexivity.
  - by apply run_reachable.
  - by destruct (pc p).
  - rewrite Hv. by vm_compute.
  - lia.
  - exists c, c', p'. split; [exact E|]. split; [exact Hs|]. split; [exact Hp'|exact Hv'].
Defined.
