(* ===== verification/Service.v ===== *)
(** The service layer: [src/src/raft.rpcz.h] and [src/src/raft.rpcz.cc], the
    code of the [RaftService] of [raft.proto] over rpcz, and the overrides of
    [class Raft].

    A service is a table of methods, [handlers]: [base] is the class of the
    generated file, [raft_handlers] the table of a [Raft] object.  A method
    answers through [rpcz::reply], by a message or by an error; [None] is a
    handler that never answers because it waits for [log_lock_].  rpcz and
    protobuf are not part of the repository: the channel a stub calls through
    and the descriptor pool are arguments. *)

From S2P Require Import Prelude Strings Proto Sync Node.
From stdpp Require Import base gmap list strings.

Open Scope Z_scope.

(** * Messages on the wire *)

Inductive Request :=
  | QEmpty (m : Empty.t)
  | QAppend (m : AppendRequest.t)
  | QVote (m : VoteRequest.t)
  | QOp (m : OpRequest.t).

Inductive Response :=
  | AStatus (m : PeerStatus.t)
  | AAppend (m : AppendReply.t)
  | AVote (m : VoteReply.t)
  | AOp (m : OpReply.t).

(** [rpcz::application_error], as far as the file names it. *)
Inductive application_error := METHOD_NOT_IMPLEMENTED.

(** What a method does with its [rpcz::reply<T>]. *)
Inductive reply (T : Type) :=
  | send (m : T)
  | Error (code : application_error) (message : string).
Arguments send {T} m.
Arguments Error {T} code message.

Definition reply_map {A B} (f : A → B) (r : reply A) : reply B :=
  match r with send m => send (f m) | Error c s => Error c s end.

(** * The virtual methods *)

Record handlers (S : Type) := mkHandlers {
  h_GetStatus : Empty.t → S → option (S * reply PeerStatus.t);
  h_AppendMsg : AppendRequest.t → S → option (S * reply AppendReply.t);
  h_Vote : VoteRequest.t → S → option (S * reply VoteReply.t);
  h_Op : OpRequest.t → S → option (S * reply OpReply.t)
}.
Arguments mkHandlers {S}.
Arguments h_GetStatus {S}.
Arguments h_AppendMsg {S}.
Arguments h_Vote {S}.
Arguments h_Op {S}.

(** The methods of the generated class: not implemented. *)
Definition base_GetStatus {S} (e : Empty.t) (s : S) : option (S * reply PeerStatus.t) :=
  Some (s, Error METHOD_NOT_IMPLEMENTED "Method GetStatus() not implemented.").
Definition base_AppendMsg {S} (q : AppendRequest.t) (s : S) : option (S * reply AppendReply.t) :=
  Some (s, Error METHOD_NOT_IMPLEMENTED "Method AppendMsg() not implemented.").
Definition base_Vote {S} (q : VoteRequest.t) (s : S) : option (S * reply VoteReply.t) :=
  Some (s, Error METHOD_NOT_IMPLEMENTED "Method Vote() not implemented.").
Definition base_Op {S} (q : OpRequest.t) (s : S) : option (S * reply OpReply.t) :=
  Some (s, Error METHOD_NOT_IMPLEMENTED "Method Op() not implemented.").

Definition base {S} : handlers S :=
  mkHandlers base_GetStatus base_AppendMsg base_Vote base_Op.

(** The table of a [Raft] object: [class Raft] overrides all four methods. *)
Definition raft_handlers {L} `{PthreadRWLock L} (now : Z) : handlers (Raft * L) :=
  mkHandlers
    (λ e s, Some (s, send (GetStatus e s.1)))
    (λ q s, let '(r, m) := AppendMsg q now s.1 in Some ((r, s.2), send m))
    (λ q s, let '(r, m) := Vote q now s.1 in Some ((r, s.2), send m))
    (λ q s, '(l, m) ← Op q s.1 s.2; Some ((s.1, l), send m)).

(** * Dispatch *)

(** What [call_method] comes to: an answer given to the channel, a handler that
    waits, [GOOGLE_LOG(FATAL)], or a [down_cast] to a type the request does
    not have, which is undefined. *)
Inductive Dispatched (S : Type) :=
  | Replied (s : S) (r : reply Response)
  | Waiting
  | Fatal
  | BadCast.
Arguments Replied {S} s r.
Arguments Waiting {S}.
Arguments Fatal {S}.
Arguments BadCast {S}.

Definition answered {S T} (f : T → Response) (o : option (S * reply T)) : Dispatched S :=
  match o with
  | Some (s, r) => Replied s (reply_map f r)
  | None => Waiting
  end.

(** [RaftService::call_method]; [index] is [method->index()]. *)
Definition call_method {S} (h : handlers S) (index : Z) (request : Request) (s : S)
    : Dispatched S :=
  match index with
  | 0 => match request with QEmpty m => answered AStatus (h.(h_GetStatus) m s) | _ => BadCast end
  | 1 => match request with QAppend m => answered AAppend (h.(h_AppendMsg) m s) | _ => BadCast end
  | 2 => match request with QVote m => answered AVote (h.(h_Vote) m s) | _ => BadCast end
  | 3 => match request with QOp m => answered AOp (h.(h_Op) m s) | _ => BadCast end
  | _ => Fatal
  end.

(** The prototypes the server parses into; [None] is [GOOGLE_LOG(FATAL)]. *)
Definition GetRequestPrototype (index : Z) : option Request :=
  match index with
  | 0 => Some (QEmpty Empty.mk)
  | 1 => Some (QAppend AppendRequest.empty)
  | 2 => Some (QVote VoteRequest.empty)
  | 3 => Some (QOp OpRequest.empty)
  | _ => None
  end.

Definition GetResponsePrototype (index : Z) : option Response :=
  match index with
  | 0 => Some (AStatus PeerStatus.empty)
  | 1 => Some (AAppend AppendReply.empty)
  | 2 => Some (AVote VoteReply.empty)
  | 3 => Some (AOp OpReply.empty)
  | _ => None
  end.

(** * Stubs *)

(** [class RaftService_Stub]; the channel is a pointer. *)
Record Stub := mkStub {
  channel_ : nat;
  service_name_ : string;
  owns_channel_ : bool
}.

(** The constructor without a service name takes [descriptor()->name()]. *)
Definition new_stub (descriptor_name : string) (channel : nat) (owns_channel : bool) : Stub :=
  mkStub channel descriptor_name owns_channel.
Definition new_stub_named (channel : nat) (service_name : string) (owns_channel : bool) : Stub :=
  mkStub channel service_name owns_channel.

(** The destructor, on the set of channels that are allocated. *)
Definition destroy_stub (st : Stub) (allocated : list nat) : list nat :=
  if st.(owns_channel_) then filter (λ c, c ≠ st.(channel_)) allocated else allocated.

(** The arguments of [channel_->call_method]. *)
Record Invocation := mkInvocation {
  through : nat;
  service_name : string;
  method : Z;
  request : Request
}.

(** The asynchronous methods only pass their arguments on. *)
Definition async_GetStatus (st : Stub) (m : Empty.t) : Invocation :=
  mkInvocation st.(channel_) st.(service_name_) 0 (QEmpty m).
Definition async_AppendMsg (st : Stub) (m : AppendRequest.t) : Invocation :=
  mkInvocation st.(channel_) st.(service_name_) 1 (QAppend m).
Definition async_Vote (st : Stub) (m : VoteRequest.t) : Invocation :=
  mkInvocation st.(channel_) st.(service_name_) 2 (QVote m).
Definition async_Op (st : Stub) (m : OpRequest.t) : Invocation :=
  mkInvocation st.(channel_) st.(service_name_) 3 (QOp m).

Definition default_deadline_ms : Z := -1.

Section Synchronous.
(** rpcz's [call_method] on the client's side, waited for: the response of an
    [rpc] that is [ok()], [None] for one that is not. *)
Variable call : Invocation → Z → option Response.

(** The synchronous methods: [None] is the thrown [rpc_error]. *)
Definition sync_GetStatus (st : Stub) (m : Empty.t) (deadline_ms : Z) : option PeerStatus.t :=
  match call (async_GetStatus st m) deadline_ms with Some (AStatus a) => Some a | _ => None end.
Definition sync_AppendMsg (st : Stub) (m : AppendRequest.t) (deadline_ms : Z)
    : option AppendReply.t :=
  match call (async_AppendMsg st m) deadline_ms with Some (AAppend a) => Some a | _ => None end.
Definition sync_Vote (st : Stub) (m : VoteRequest.t) (deadline_ms : Z) : option VoteReply.t :=
  match call (async_Vote st m) deadline_ms with Some (AVote a) => Some a | _ => None end.
Definition sync_Op (st : Stub) (m : OpRequest.t) (deadline_ms : Z) : option OpReply.t :=
  match call (async_Op st m) deadline_ms with Some (AOp a) => Some a | _ => None end.
End Synchronous.

(** * The descriptor *)

Section Descriptor.
Context {File Service : Type}.
(** The pool of generated files and the services of a file, of protobuf. *)
Variable FindFileByName : string → option File.
Variable service : File → Z → Service.

(** The globals of the file. *)
Record Globals := mkGlobals {
  already_here : bool;
  once : bool;
  RaftService_descriptor_ : option Service;
  registered : list string;
  shutdown_hooks : nat
}.

Definition initial : Globals := mkGlobals false false None [] 0.

(** [rpcz_protobuf_AssignDesc_raft_2eproto]; [None] is a failed check. *)
Definition AssignDesc (g : Globals) : option Globals :=
  file ← FindFileByName "raft.proto";
  Some (mkGlobals g.(already_here) g.(once) (Some (service file 0)) g.(registered)
          g.(shutdown_hooks)).

(** [protobuf_AssignDescriptorsOnce], over [GoogleOnceInit]. *)
Definition AssignDescriptorsOnce (g : Globals) : option Globals :=
  if g.(once) then Some g
  else
    g ← AssignDesc g;
    Some (mkGlobals g.(already_here) true g.(RaftService_descriptor_) g.(registered)
            g.(shutdown_hooks)).

Definition RegisterTypes (name : string) (g : Globals) : option Globals :=
  AssignDescriptorsOnce g.

(** [descriptor()] and [GetDescriptor()]. *)
Definition descriptor (g : Globals) : option (Globals * option Service) :=
  g ← AssignDescriptorsOnce g; Some (g, g.(RaftService_descriptor_)).

(** [rpcz_protobuf_AddDesc_raft_2eproto]. *)
Definition AddDesc (g : Globals) : Globals :=
  if g.(already_here) then g
  else mkGlobals true g.(once) g.(RaftService_descriptor_) ("raft.proto" :: g.(registered))
         (S g.(shutdown_hooks)).

(** Calls of the file's functions, in any order. *)
Inductive Init := IDescriptor | IAddDesc | IRegisterTypes (name : string).

Definition init_step (i : Init) (g : Globals) : option Globals :=
  match i with
  | IDescriptor => fst <$> descriptor g
  | IAddDesc => Some (AddDesc g)
  | IRegisterTypes name => RegisterTypes name g
  end.

Fixpoint init_all (calls : list Init) (g : Globals) : option Globals :=
  match calls with
  | [] => Some g
  | i :: calls => g ← init_step i g; init_all calls g
  end.
End Descriptor.
Arguments Globals : clear implicits.

(** * Lemmas *)

(** The request a stub sends with each method, and the index it sends. *)
Definition index_of (q : Request) : Z :=
  match q with QEmpty _ => 0 | QAppend _ => 1 | QVote _ => 2 | QOp _ => 3 end.

(** The type of a request, told by its prototype. *)
Definition same_type (p q : Request) : bool := index_of p =? index_of q.

Lemma call_method_cases {S} (h : handlers S) i q s :
  (i = index_of q ∧ call_method h i q s ≠ Fatal ∧ call_method h i q s ≠ BadCast) ∨
  (i ≠ index_of q ∧ 0 <= i <= 3 ∧ call_method h i q s = BadCast) ∨
  (¬ 0 <= i <= 3 ∧ call_method h i q s = Fatal).
Proof.
  assert (¬ 0 <= i <= 3 ∨ i = 0 ∨ i = 1 ∨ i = 2 ∨ i = 3) as [Hi|[->|[->|[->| ->]]]] by lia.
  - right; right. split; [done|]. destruct i as [|p|p]; [lia| |done].
    destruct p as [[p|p|]|[p|p|]|]; done || lia.
  - destruct q; simpl; [left|right; left; split; [lia|by split]..].
    split; [done|]. by destruct (h_GetStatus h m s) as [[]|].
  - destruct q; simpl; [right; left; split; [lia|by split]|left|right; left; split; [lia|by split]..].
    split; [done|]. by destruct (h_AppendMsg h m s) as [[]|].
  - destruct q; simpl;
      [right; left; split; [lia|by split]..|left|right; left; split; [lia|by split]].
    split; [done|]. by destruct (h_Vote h m s) as [[]|].
  - destruct q; simpl; [right; left; split; [lia|by split]..|left].
    split; [done|]. by destruct (h_Op h m s) as [[]|].
Qed.

Section Once.
Context {File Service : Type} (Find : string → option File) (service : File → Z → Service).

(** What holds of the globals: the descriptor is assigned exactly when the
    once-flag is set, and the file is registered at most once. *)
Definition globals_ok (g : Globals Service) : Prop :=
  (if g.(once) then ∃ f, Find "raft.proto" = Some f ∧
     g.(RaftService_descriptor_) = Some (service f 0)
   else g.(RaftService_descriptor_) = None) ∧
  (if g.(already_here) then g.(registered) = ["raft.proto"] ∧ g.(shutdown_hooks) = 1%nat
   else g.(registered) = [] ∧ g.(shutdown_hooks) = 0%nat).

Lemma assign_once_ok g g' :
  AssignDescriptorsOnce Find service g = Some g' → globals_ok g → globals_ok g' ∧ once g' = true.
Proof.
  destruct g as [a o d r s]. unfold AssignDescriptorsOnce, AssignDesc, globals_ok. simpl.
  destruct o; [by intros [= <-]|]. destruct (Find "raft.proto") as [f|]; [|done].
  intros [= <-] [_ ?]; simpl. eauto.
Qed.

Lemma init_step_ok i g g' :
  init_step Find service i g = Some g' → globals_ok g → globals_ok g'.
Proof.
  destruct i; simpl.
  - unfold descriptor. destruct (AssignDescriptorsOnce Find service g) as [g1|] eqn:E; [|done].
    intros [= <-] Hg. by eapply assign_once_ok.
  - intros [= <-]. unfold AddDesc, globals_ok. destruct g as [[] o d r s]; simpl; [done|].
    intros [? [-> ->]]. done.
  - unfold RegisterTypes. intros E Hg. by eapply assign_once_ok.
Qed.

Lemma init_all_ok cs g g' :
  init_all Find service cs g = Some g' → globals_ok g → globals_ok g'.
Proof.
  revert g. induction cs as [|i cs IH]; intros g; simpl; [by intros [= <-]|].
  intros (g1 & E & H)%bind_Some Hg. eapply IH; [done|]. by eapply init_step_ok.
Qed.
End Once.

(** * Theorems *)

(** The four methods of a [Raft] object are reached by the indices the
    stubs send and no others: a request of the type of the prototype of index
    [i] is dispatched to the override of method [i], which answers with a
    message - never with the not-implemented error of the base class - unless
    [Op] waits for [log_lock_]; an index outside 0..3 is fatal. *)
Theorem dispatch_reaches_overrides {L} `{PthreadRWLock L} (now : Z) (r : Raft) (l : L) i q :
  match GetRequestPrototype i with
  | None => call_method (raft_handlers now) i q (r, l) = Fatal
  | Some p =>
      if same_type p q then
        call_method (raft_handlers now) i q (r, l) =
        match q with
        | QEmpty m => Replied (r, l) (send (AStatus (GetStatus m r)))
        | QAppend m => Replied ((AppendMsg m now r).1, l) (send (AAppend (AppendMsg m now r).2))
        | QVote m => Replied ((Vote m now r).1, l) (send (AVote (Vote m now r).2))
        | QOp m => match Op m r l with
                   | Some (l', a) => Replied (r, l') (send (AOp a))
                   | None => Waiting
                   end
        end
      else call_method (raft_handlers now) i q (r, l) = BadCast
  end.
Proof.
  destruct (call_method_cases (raft_handlers now) i q (r, l)) as [(-> & _)|[(Hi & Hr & E)|[Hi E]]].
  - destruct q; simpl; [done|..].
    + by destruct (AppendMsg m now r).
    + by destruct (Vote m now r).
    + by destruct (Op m r l) as [[]|].
  - rewrite E. assert (i = 0 ∨ i = 1 ∨ i = 2 ∨ i = 3) as [->|[->|[->| ->]]] by lia;
      by destruct q.
  - rewrite E. destruct i as [|p|p]; [lia| |done]. destruct p as [[p|p|]|[p|p|]|]; done || lia.
Qed.

Section Delivers.
Context {L : Type} `{PthreadRWLock L} (call : Invocation → Z → option Response).
Variables (now : Z) (r : Raft) (l : L).
(** A channel that delivers: the service is dispatched the invocation, what it
    sends comes back in time, and a handler that never answers runs into the
    deadline. *)
Hypothesis call_delivers : ∀ inv d s a,
  call_method (raft_handlers now) inv.(method) inv.(request) (r, l) = Replied s (send a) →
  call inv d = Some a.
Hypothesis call_expires : ∀ inv d,
  call_method (raft_handlers now) inv.(method) inv.(request) (r, l) = Waiting →
  call inv d = None.

End Delivers.

(** A channel to a node that is always reached. *)
Definition direct {L} `{PthreadRWLock L} (now : Z) (r : Raft) (l : L) (inv : Invocation) (d : Z)
    : option Response :=
  match call_method (raft_handlers now) inv.(method) inv.(request) (r, l) with
  | Replied _ (send a) => Some a
  | _ => None
  end.


(** However the initialisers of the file are called and interleaved, the
    file is registered at most once, and from the first [descriptor()] on every
    [descriptor()] returns the same service. *)
Theorem descriptor_is_stable {File Service} (Find : string → option File)
    (service : File → Z → Service) cs g g1 d js g2 g3 d' :
  init_all Find service cs initial = Some g →
  descriptor Find service g = Some (g1, d) → init_all Find service js g1 = Some g2 →
  descriptor Find service g2 = Some (g3, d') →
  d' = d ∧ is_Some d ∧ g3 = g2 ∧ (length g3.(registered) <= 1)%nat.
Proof.
  intros Hi Hd Hj Hd'.
  assert (globals_ok Find service g) as Hg by (eapply init_all_ok; [done|by repeat split]).
  unfold descriptor in Hd, Hd'.
  destruct (AssignDescriptorsOnce Find service g) as [g1'|] eqn:E1; [|done]. simpl in Hd.
  destruct (AssignDescriptorsOnce Find service g2) as [g3'|] eqn:E3; [|done]. simpl in Hd'.
  simplify_eq.
  destruct (assign_once_ok _ _ _ _ E1 Hg) as [Hg1 Ho1].
  pose proof (init_all_ok _ _ _ _ _ Hj Hg1) as Hg2.
  destruct (assign_once_ok _ _ _ _ E3 Hg2) as [Hg3 Ho3].
  assert (once g2 = true) as Ho2.
  { clear E3 Hg3 Ho3 Hg2 Hg1 E1 Hi Hg. revert g1 Hj Ho1.
    induction js as [|j js IH]; intros g1; simpl; [by intros [= <-]|].
    intros (h & Hs & Hx)%bind_Some Ho. eapply IH; [done|].
    destruct j; simpl in Hs; unfold RegisterTypes, descriptor, AssignDescriptorsOnce in Hs;
      rewrite ?Ho in Hs; simplify_eq/=; [done|unfold AddDesc; by destruct (already_here g1)|done]. }
  assert (g3 = g2) as ->.
  { unfold AssignDescriptorsOnce in E3. rewrite Ho2 in E3. congruence. }
  destruct Hg1 as [Hd1 _], Hg3 as [Hd3 Hr]. rewrite Ho1 in Hd1. rewrite Ho3 in Hd3.
  destruct Hd1 as (f & Hf & ->), Hd3 as (f' & Hf' & ->).
  split; [congruence|]. split; [done|]. split; [done|].
  destruct (already_here g2), Hr as [-> _]; simpl; lia.
Qed.

Lemma descriptor_is_stable_witness :
  ∃ g1 d g2, descriptor (λ s, if decide (s = "raft.proto") then Some tt else None)
      (λ _ i, i) initial = Some (g1, d) ∧
    init_all (λ s, if decide (s = "raft.proto") then Some tt else None) (λ _ i, i)
      [IAddDesc; IRegisterTypes "raft.proto"; IAddDesc] g1 = Some g2 ∧
    is_Some d ∧ (length g2.(registered) <= 1)%nat.
Proof.
  set (g1 := mkGlobals false true (Some 0) [] 0).
  set (g2 := mkGlobals true true (Some 0) ["raft.proto"] 1).
  exists g1, (Some 0), g2. split; [reflexivity|]. split; [reflexivity|].
  destruct (descriptor_is_stable (λ s, if decide (s = "raft.proto") then Some tt else None)
    (λ _ i, i) [] initial g1 (Some 0) [IAddDesc; IRegisterTypes "raft.proto"; IAddDesc] g2 g2
    (Some 0)) as (_ & H1 & _ & H2); [reflexivity..|].
  split; [exact H1|exact H2].
Defined.
