(* ===== verification/Demangle.v ===== *)
(** The symbol demangler of glog ([src/lib/glog/src/demangle.cc]), which the
    failure signal handler runs on raw symbol names.

    A parsing function is a computation on a [State] - the source's struct,
    with positions for pointers - and on the output buffer, which backtracking
    does not restore.  It returns a [bool], stops at a read or write outside
    its array or at a signed overflow, or runs out of fuel; the fuel bounds
    the depth of calls between the mutually recursive functions, loops
    counting as calls.  [rec] stands for those calls in the bodies; [run] ties
    them. *)

From S2P Require Import Prelude.
From stdpp Require Import base list strings.
From Stdlib Require Import Ascii ZArith.

Open Scope Z_scope.

(** * Characters and tables *)

Definition NUL : ascii := zero.
Definition chr (c : ascii) : Z := Z.of_N (N_of_ascii c).
Definition bytes (s : string) : list ascii := String.list_ascii_of_string s.
Definition in_range (lo hi c : ascii) : bool := (chr lo <=? chr c) && (chr c <=? chr hi).

Definition IsLower (c : ascii) : bool := in_range "a" "z" c.
Definition IsAlpha (c : ascii) : bool := in_range "a" "z" c || in_range "A" "Z" c.
Definition IsDigit (c : ascii) : bool := in_range "0" "9" c.

Definition kOperatorList : list (string * string) :=
  [("nw", "new"); ("na", "new[]"); ("dl", "delete"); ("da", "delete[]"); ("ps", "+");
   ("ng", "-"); ("ad", "&"); ("de", "*"); ("co", "~"); ("pl", "+"); ("mi", "-");
   ("ml", "*"); ("dv", "/"); ("rm", "%"); ("an", "&"); ("or", "|"); ("eo", "^");
   ("aS", "="); ("pL", "+="); ("mI", "-="); ("mL", "*="); ("dV", "/="); ("rM", "%=");
   ("aN", "&="); ("oR", "|="); ("eO", "^="); ("ls", "<<"); ("rs", ">>"); ("lS", "<<=");
   ("rS", ">>="); ("eq", "=="); ("ne", "!="); ("lt", "<"); ("gt", ">"); ("le", "<=");
   ("ge", ">="); ("nt", "!"); ("aa", "&&"); ("oo", "||"); ("pp", "++"); ("mm", "--");
   ("cm", ","); ("pm", "->*"); ("pt", "->"); ("cl", "()"); ("ix", "[]"); ("qu", "?");
   ("st", "sizeof"); ("sz", "sizeof")].

Definition kBuiltinTypeList : list (string * string) :=
  [("v", "void"); ("w", "wchar_t"); ("b", "bool"); ("c", "char"); ("a", "signed char");
   ("h", "unsigned char"); ("s", "short"); ("t", "unsigned short"); ("i", "int");
   ("j", "unsigned int"); ("l", "long"); ("m", "unsigned long"); ("x", "long long");
   ("y", "unsigned long long"); ("n", "__int128"); ("o", "unsigned __int128");
   ("f", "float"); ("d", "double"); ("e", "long double"); ("g", "__float128");
   ("z", "ellipsis")].

Definition kSubstitutionList : list (string * string) :=
  [("St", ""); ("Sa", "allocator"); ("Sb", "basic_string"); ("Ss", "string");
   ("Si", "istream"); ("So", "ostream"); ("Sd", "iostream")].

(** * State and outcomes *)

Record State := mkState {
  mangled_cur : Z;
  out_cur : Z;
  prev_name : option Z;
  prev_name_length : Z;
  nest_level : Z;
  append : bool;
  overflowed : bool
}.

Definition set_cur (c : Z) (s : State) : State :=
  mkState c s.(out_cur) s.(prev_name) s.(prev_name_length) s.(nest_level) s.(append) s.(overflowed).
Definition set_out (c : Z) (s : State) : State :=
  mkState s.(mangled_cur) c s.(prev_name) s.(prev_name_length) s.(nest_level) s.(append)
    s.(overflowed).
Definition set_prev (p : option Z) (n : Z) (s : State) : State :=
  mkState s.(mangled_cur) s.(out_cur) p n s.(nest_level) s.(append) s.(overflowed).
Definition set_nest (n : Z) (s : State) : State :=
  mkState s.(mangled_cur) s.(out_cur) s.(prev_name) s.(prev_name_length) n s.(append)
    s.(overflowed).
Definition set_append (b : bool) (s : State) : State :=
  mkState s.(mangled_cur) s.(out_cur) s.(prev_name) s.(prev_name_length) s.(nest_level) b
    s.(overflowed).
Definition set_overflowed (b : bool) (s : State) : State :=
  mkState s.(mangled_cur) s.(out_cur) s.(prev_name) s.(prev_name_length) s.(nest_level)
    s.(append) b.

(** Conversion to [short]. *)
Definition i16 (z : Z) : Z := (z + 32768) mod 65536 - 32768.

(** What the language does not define. *)
Inductive Fault := ReadMangled | ReadOutput | WriteOutput | SignedOverflow.

Inductive Res :=
  | Ret (b : bool) (s : State) (o : list ascii)
  | Stop (f : Fault)
  | OutOfFuel.

Definition M := State → list ascii → Res.

Definition ret (b : bool) : M := λ s o, Ret b s o.
Definition stop (f : Fault) : M := λ _ _, Stop f.
Definition modify (f : State → State) : M := λ s o, Ret true (f s) o.
Definition andM (p q : M) : M := λ s o,
  match p s o with Ret true s o => q s o | r => r end.
Definition orM (p q : M) : M := λ s o,
  match p s o with Ret false s o => q s o | r => r end.
Definition ifM (p q r : M) : M := λ s o,
  match p s o with Ret true s o => q s o | Ret false s o => r s o | x => x end.
(** [State copy = *state;] and [*state = copy;]. *)
Definition save (k : State → M) : M := λ s o, k s s o.
Definition restore (copy : State) : M := λ _ o, Ret false copy o.
(** Expressions over the state. *)
Definition get (k : State → M) : M := λ s o, k s s o.

Declare Scope demangle_scope.
Delimit Scope demangle_scope with demangle.
Notation "p &&& q" := (andM p q) (at level 40, left associativity) : demangle_scope.
Notation "p ||| q" := (orM p q) (at level 50, left associativity) : demangle_scope.
Open Scope demangle_scope.

(** The mutually recursive functions, and the loops among them. *)
Inductive Func :=
  | FMangledName | FEncoding | FName | FUnscopedName | FUnscopedTemplateName
  | FNestedName | FPrefix (has_something : bool) | FUnqualifiedName
  | FOperatorName | FSpecialName | FType | FFunctionType
  | FBareFunctionType | FClassEnumType | FArrayType | FPointerToMemberType
  | FTemplateArgs | FTemplateArg | FExpression | FExprPrimary | FLocalName
  | FWhileType | FWhileTemplateArg.

Section Demangler.
(** The characters of the mangled name, before its NUL, and [out_size]. *)
Variable mangled : list ascii.
Variable out_size : Z.

Definition len : Z := Z.of_nat (length mangled).

(** [mangled[p]]. *)
Definition peek (p : Z) : option ascii :=
  if (p <? 0) || (len <? p) then None else Some (default NUL (mangled !! Z.to_nat p)).

(** [state->mangled_cur[i]]. *)
Definition rd (i : Z) (k : ascii → M) : M := λ s o,
  match peek (s.(mangled_cur) + i) with Some c => k c s o | None => Stop ReadMangled end.

(** * Output *)

(** What [str] points to: a literal, the mangled name, or the output. *)
Inductive Src := Lit (l : list ascii) | Mangled (p : Z) | Output (p : option Z).

Definition rd_src (src : Src) (i : Z) (o : list ascii) : ascii + Fault :=
  match src with
  | Lit l => inl (default NUL (l !! Z.to_nat i))
  | Mangled p => match peek (p + i) with Some c => inl c | None => inr ReadMangled end
  | Output (Some p) =>
      if (0 <=? p + i) then
        match o !! Z.to_nat (p + i) with Some c => inl c | None => inr ReadOutput end
      else inr ReadOutput
  | Output None => inr ReadOutput
  end.

(** [*p = c] in the output buffer. *)
Definition wr (p : Z) (c : ascii) : M := λ s o,
  if (0 <=? p) && (p <? Z.of_nat (length o)) then Ret true s (<[Z.to_nat p := c]> o)
  else Stop WriteOutput.

(** The loop of [Append], with [n] characters to go from [str[i]]. *)
Fixpoint append_loop (n : nat) (i : Z) (str : Src) : M := λ s o,
  match n with
  | O => Ret true s o
  | S n =>
      if s.(out_cur) + 1 <? out_size then
        match rd_src str i o with
        | inl c => (wr s.(out_cur) c &&& modify (set_out (s.(out_cur) + 1))
                    &&& append_loop n (i + 1) str) s o
        | inr f => Stop f
        end
      else Ret true (set_overflowed true s) o
  end.

Definition Append (str : Src) (length : Z) : M :=
  append_loop (Z.to_nat length) 0 str &&&
  get (λ s, if s.(overflowed) then ret true else wr s.(out_cur) NUL).

(** The first character of [str], read. *)
Definition first (str : Src) (k : ascii → M) : M := λ s o,
  match rd_src str 0 o with inl c => k c s o | inr f => Stop f end.

(** [state->out_cur[-1] == '<'], after the test that there is such a character. *)
Definition ends_with_less (k : bool → M) : M := λ s o,
  if 0 <? s.(out_cur) then
    match o !! Z.to_nat (s.(out_cur) - 1) with
    | Some c => k (bool_decide (c = "<"%char)) s o
    | None => Stop ReadOutput
    end
  else k false s o.

Definition MaybeAppendWithLength (str : Src) (length : Z) : M :=
  get (λ s,
    if s.(append) && (0 <? length) then
      first str (λ c,
        (if decide (c = "<"%char)
         then ends_with_less (λ b, if b then Append (Lit (bytes " ")) 1 else ret true)
         else ret true) &&&
        (if IsAlpha c || bool_decide (c = "_"%char)
         then modify (λ s, set_prev (Some s.(out_cur)) length s) else ret true) &&&
        Append str length)
    else ret true).

(** [MaybeAppend] of a literal, whose [StrLen] is its length. *)
Definition MaybeAppend (str : string) : M :=
  get (λ s,
    if s.(append) then MaybeAppendWithLength (Lit (bytes str)) (Z.of_nat (String.length str))
    else ret true).

(** [MaybeAppend(state, state->mangled_cur)]. *)
Definition MaybeAppendRest : M :=
  get (λ s,
    if s.(append)
    then MaybeAppendWithLength (Mangled s.(mangled_cur)) (len - s.(mangled_cur))
    else ret true).

Definition EnterNestedName : M := modify (set_nest 0).
Definition LeaveNestedName (prev_value : Z) : M := modify (set_nest prev_value).
Definition DisableAppend : M := modify (set_append false).
Definition RestoreAppend (prev_value : bool) : M := modify (set_append prev_value).

Definition MaybeIncreaseNestLevel : M :=
  modify (λ s, if -1 <? s.(nest_level) then set_nest (i16 (s.(nest_level) + 1)) s else s).

Definition MaybeAppendSeparator : M :=
  get (λ s, if 1 <=? s.(nest_level) then MaybeAppend "::" else ret true).

Definition MaybeCancelLastSeparator : M :=
  get (λ s,
    if (1 <=? s.(nest_level)) && s.(append) && (0 <=? s.(out_cur) - 2)
    then modify (set_out (s.(out_cur) - 2)) &&& wr (s.(out_cur) - 2) NUL
    else ret true).

(** * Tokens *)

Definition advance (n : Z) : M := modify (λ s, set_cur (s.(mangled_cur) + n) s).

Definition ParseOneCharToken (one_char_token : ascii) : M :=
  rd 0 (λ c, if decide (c = one_char_token) then advance 1 else ret false).

Definition ParseTwoCharToken (t0 t1 : ascii) : M :=
  rd 0 (λ c, if decide (c = t0)
             then rd 1 (λ d, if decide (d = t1) then advance 2 else ret false)
             else ret false).

Definition ParseCharClass (char_class : string) : M :=
  rd 0 (λ c, if existsb (λ p, bool_decide (c = p)) (bytes char_class)
             then advance 1 else ret false).

Definition Optional (p : M) : M := λ s o,
  match p s o with Ret _ s o => Ret true s o | r => r end.

(** [AtLeastNumCharsRemaining]: [None] is a read outside the name. *)
Fixpoint at_least (fuel : nat) (p n : Z) : option bool :=
  if n <=? 0 then Some true
  else
    match peek p with
    | None => None
    | Some c =>
        if decide (c = NUL) then Some false
        else match fuel with O => None | S fuel => at_least fuel (p + 1) (n - 1) end
    end.

Definition AtLeastNumCharsRemaining (n : Z) : M := λ s o,
  match at_least (S (length mangled)) s.(mangled_cur) n with
  | Some b => Ret b s o
  | None => Stop ReadMangled
  end.

(** [StrPrefix(state->mangled_cur, prefix)]. *)
Fixpoint StrPrefix (prefix : list ascii) (i : Z) : M :=
  match prefix with
  | [] => ret true
  | c :: prefix => rd i (λ d, if decide (c = d) then StrPrefix prefix (i + 1) else ret false)
  end.

Definition IdentifierIsAnonymousNamespace (length : Z) : M :=
  if 11 <? length then StrPrefix (bytes "_GLOBAL__N_") 0 else ret false.

(** * Numbers and identifiers *)

(** How many characters of [P] there are from [p] on. *)
Fixpoint run_length (P : ascii → bool) (l : list ascii) : nat :=
  match l with
  | [] => O
  | c :: l => if P c then S (run_length P l) else O
  end.

(** The characters from the cursor to the NUL. *)
Definition rest (k : list ascii → M) : M :=
  get (λ s, if (s.(mangled_cur) <? 0) || (len <? s.(mangled_cur)) then stop ReadMangled
            else k (drop (Z.to_nat s.(mangled_cur)) mangled)).

(** [number = number * 10 + d], over the digits: [None] is a signed overflow. *)
Fixpoint decimal (l : list ascii) (number : Z) : option Z :=
  match l with
  | [] => Some number
  | c :: l =>
      if IsDigit c then
        let number := number * 10 + (chr c - 48) in
        if I32_MAX <? number then None else decimal l number
      else Some number
  end.

(** [ParseNumber(state, &n) && k n]. *)
Definition ParseNumber_out (k : Z → M) : M :=
  ifM (ParseOneCharToken "n")
    (rest (λ l,
      match decimal l 0 with
      | None => stop SignedOverflow
      | Some number =>
          if (0 <? run_length IsDigit l)%nat
          then advance (Z.of_nat (run_length IsDigit l)) &&& k (number * -1)
          else ret false
      end))
    (rest (λ l,
      match decimal l 0 with
      | None => stop SignedOverflow
      | Some number =>
          if (0 <? run_length IsDigit l)%nat
          then advance (Z.of_nat (run_length IsDigit l)) &&& k (number * 1)
          else ret false
      end)).

Definition ParseNumber : M := ParseNumber_out (λ _, ret true).

(** A run of at least one character of [P]. *)
Definition parse_run (P : ascii → bool) : M :=
  rest (λ l, if (0 <? run_length P l)%nat
             then advance (Z.of_nat (run_length P l)) else ret false).

Definition ParseFloatNumber : M := parse_run (λ c, IsDigit c || in_range "a" "f" c).
Definition ParseSeqId : M := parse_run (λ c, IsDigit c || in_range "A" "Z" c).

Definition ParseIdentifier (length : Z) : M :=
  (if length =? -1 then ret false else AtLeastNumCharsRemaining length) &&&
  ifM (IdentifierIsAnonymousNamespace length)
    (MaybeAppend "(anonymous namespace)")
    (get (λ s, MaybeAppendWithLength (Mangled s.(mangled_cur)) length)) &&&
  advance length.

Definition ParseSourceName : M :=
  save (λ copy, ParseNumber_out ParseIdentifier ||| restore copy).

Definition ParseDiscriminator : M :=
  save (λ copy, (ParseOneCharToken "_" &&& ParseNumber) ||| restore copy).

Definition ParseLocalSourceName : M :=
  save (λ copy,
    (ParseOneCharToken "L" &&& ParseSourceName &&& Optional ParseDiscriminator)
    ||| restore copy).

Definition ParseNVOffset : M := ParseNumber.

Definition ParseVOffset : M :=
  save (λ copy, (ParseNumber &&& ParseOneCharToken "_" &&& ParseNumber) ||| restore copy).

Definition ParseCallOffset : M :=
  save (λ copy,
    (ParseOneCharToken "h" &&& ParseNVOffset &&& ParseOneCharToken "_") ||| restore copy
    ||| (ParseOneCharToken "v" &&& ParseVOffset &&& ParseOneCharToken "_") ||| restore copy).

Definition ParseCtorDtorName : M :=
  save (λ copy,
    (ParseOneCharToken "C" &&& ParseCharClass "123" &&&
     get (λ s, MaybeAppendWithLength (Output s.(prev_name)) s.(prev_name_length)))
    ||| restore copy
    ||| (ParseOneCharToken "D" &&& ParseCharClass "012" &&&
         get (λ s, MaybeAppend "~" &&&
                   MaybeAppendWithLength (Output s.(prev_name)) s.(prev_name_length)))
    ||| restore copy).

Definition ParseCVQualifiers : M :=
  get (λ s0,
    Optional (ParseOneCharToken "r") &&& Optional (ParseOneCharToken "V") &&&
    Optional (ParseOneCharToken "K") &&&
    get (λ s, ret (negb (s.(mangled_cur) =? s0.(mangled_cur))))).

(** The first entry of a table whose abbreviation starts with the character. *)
Definition builtin (c : ascii) : option string :=
  snd <$> find (λ p, bool_decide (String.get 0 p.1 = Some c)) kBuiltinTypeList.

Definition ParseBuiltinType : M :=
  rd 0 (λ c,
    match builtin c with
    | Some real_name => MaybeAppend real_name &&& advance 1
    | None => save (λ copy, (ParseOneCharToken "u" &&& ParseSourceName) ||| restore copy)
    end).

Definition ParseTemplateParam : M :=
  (ParseTwoCharToken "T" "_" &&& MaybeAppend "?") |||
  save (λ copy,
    (ParseOneCharToken "T" &&& ParseNumber &&& ParseOneCharToken "_" &&& MaybeAppend "?")
    ||| restore copy).

Definition substitution (c : ascii) : option string :=
  snd <$> find (λ p, bool_decide (String.get 1 p.1 = Some c)) kSubstitutionList.

Definition ParseSubstitution : M :=
  (ParseTwoCharToken "S" "_" &&& MaybeAppend "?") |||
  save (λ copy,
    (ParseOneCharToken "S" &&& ParseSeqId &&& ParseOneCharToken "_" &&& MaybeAppend "?")
    ||| restore copy
    ||| (ParseOneCharToken "S" &&&
         rd 0 (λ c,
           match substitution c with
           | Some real_name =>
               MaybeAppend "std" &&&
               (if decide (real_name = "") then ret true
                else MaybeAppend "::" &&& MaybeAppend real_name) &&& advance 1
           | None => ret false
           end))
    ||| restore copy).

Definition ParseTemplateTemplateParam : M := ParseTemplateParam ||| ParseSubstitution.

(** The entry of an operator of two characters. *)
Definition operator (c d : ascii) : option string :=
  snd <$> find (λ p, bool_decide (String.get 0 p.1 = Some c)
                     && bool_decide (String.get 1 p.1 = Some d)) kOperatorList.

(** Whether a name starts with a lower-case letter. *)
Definition lower_name (s : string) : bool :=
  match String.get 0 s with Some c => IsLower c | None => false end.

(** * The mutually recursive functions *)

Section Bodies.
Variable rec : Func → M.

Definition ParseMangledName : M := ParseTwoCharToken "_" "Z" &&& rec FEncoding.

Definition ParseEncoding : M :=
  save (λ copy,
    (rec FName &&& rec FBareFunctionType) ||| restore copy
    ||| (rec FName ||| rec FSpecialName)).

Definition ParseName : M :=
  rec FNestedName ||| rec FLocalName |||
  save (λ copy,
    (rec FUnscopedTemplateName &&& rec FTemplateArgs) ||| restore copy
    ||| rec FUnscopedName).

Definition ParseUnscopedName : M :=
  rec FUnqualifiedName |||
  save (λ copy,
    (ParseTwoCharToken "S" "t" &&& MaybeAppend "std::" &&& rec FUnqualifiedName)
    ||| restore copy).

Definition ParseUnscopedTemplateName : M := rec FUnscopedName ||| ParseSubstitution.

Definition ParseNestedName : M :=
  save (λ copy,
    (ParseOneCharToken "N" &&& EnterNestedName &&& Optional ParseCVQualifiers &&&
     rec (FPrefix false) &&& LeaveNestedName copy.(nest_level) &&& ParseOneCharToken "E")
    ||| restore copy).

(** One turn of the loop of [ParsePrefix]. *)
Definition ParsePrefix (has_something : bool) : M :=
  MaybeAppendSeparator &&&
  ifM (ParseTemplateParam ||| ParseSubstitution ||| rec FUnscopedName)
    (MaybeIncreaseNestLevel &&& rec (FPrefix true))
    (MaybeCancelLastSeparator &&&
     ifM (if has_something then rec FTemplateArgs else ret false)
       (rec (FPrefix false)) (ret true)).

Definition ParseUnqualifiedName : M :=
  rec FOperatorName ||| ParseCtorDtorName ||| ParseSourceName ||| ParseLocalSourceName.

Definition ParseOperatorName : M :=
  AtLeastNumCharsRemaining 2 &&&
  save (λ copy,
    (ParseTwoCharToken "c" "v" &&& MaybeAppend "operator " &&& EnterNestedName &&&
     rec FType &&& LeaveNestedName copy.(nest_level)) ||| restore copy
    ||| (ParseOneCharToken "v" &&& ParseCharClass "0123456789" &&& ParseSourceName)
    ||| restore copy
    ||| rd 0 (λ c, if IsLower c then rd 1 (λ d,
          if IsAlpha d then
            match operator c d with
            | Some real_name =>
                MaybeAppend "operator" &&&
                (if lower_name real_name then MaybeAppend " " else ret true) &&&
                MaybeAppend real_name &&& advance 2
            | None => ret false
            end
          else ret false) else ret false)).

Definition ParseSpecialName : M :=
  save (λ copy,
    (ParseOneCharToken "T" &&& ParseCharClass "VTIS" &&& rec FType) ||| restore copy
    ||| (ParseTwoCharToken "T" "c" &&& ParseCallOffset &&& ParseCallOffset &&& rec FEncoding)
    ||| restore copy
    ||| (ParseTwoCharToken "G" "V" &&& rec FName) ||| restore copy
    ||| (ParseOneCharToken "T" &&& ParseCallOffset &&& rec FEncoding) ||| restore copy
    ||| (ParseTwoCharToken "T" "C" &&& rec FType &&& ParseNumber &&& ParseOneCharToken "_" &&&
         DisableAppend &&& rec FType &&& RestoreAppend copy.(append)) ||| restore copy
    ||| (ParseOneCharToken "T" &&& ParseCharClass "FJ" &&& rec FType) ||| restore copy
    ||| (ParseTwoCharToken "G" "R" &&& rec FName) ||| restore copy
    ||| (ParseTwoCharToken "G" "A" &&& rec FEncoding) ||| restore copy
    ||| (ParseOneCharToken "T" &&& ParseCharClass "hv" &&& ParseCallOffset &&& rec FEncoding)
    ||| restore copy).

Definition ParseType : M :=
  save (λ copy,
    (ParseCVQualifiers &&& rec FType) ||| restore copy
    ||| (ParseCharClass "OPRCG" &&& rec FType) ||| restore copy
    ||| (ParseTwoCharToken "D" "p" &&& rec FType) ||| restore copy
    ||| (ParseOneCharToken "D" &&& ParseCharClass "tT" &&& rec FExpression &&&
         ParseOneCharToken "E") ||| restore copy
    ||| (ParseOneCharToken "U" &&& ParseSourceName &&& rec FType) ||| restore copy
    ||| (ParseBuiltinType ||| rec FFunctionType ||| rec FClassEnumType ||| rec FArrayType
         ||| rec FPointerToMemberType ||| ParseSubstitution)
    ||| (ParseTemplateTemplateParam &&& rec FTemplateArgs) ||| restore copy
    ||| ParseTemplateParam).

Definition ParseFunctionType : M :=
  save (λ copy,
    (ParseOneCharToken "F" &&& Optional (ParseOneCharToken "Y") &&& rec FBareFunctionType &&&
     ParseOneCharToken "E") ||| restore copy).

(** [OneOrMore(f, state)] is [f] and then the loop. *)
Definition ParseBareFunctionType : M :=
  save (λ copy,
    (DisableAppend &&& (rec FType &&& rec FWhileType) &&&
     RestoreAppend copy.(append) &&& MaybeAppend "()") ||| restore copy).

Definition ParseClassEnumType : M := rec FName.

Definition ParseArrayType : M :=
  save (λ copy,
    (ParseOneCharToken "A" &&& ParseNumber &&& ParseOneCharToken "_" &&& rec FType)
    ||| restore copy
    ||| (ParseOneCharToken "A" &&& Optional (rec FExpression) &&& ParseOneCharToken "_" &&&
         rec FType) ||| restore copy).

Definition ParsePointerToMemberType : M :=
  save (λ copy, (ParseOneCharToken "M" &&& rec FType &&& rec FType) ||| restore copy).

Definition ParseTemplateArgs : M :=
  save (λ copy,
    (DisableAppend &&& ParseOneCharToken "I" &&&
     (rec FTemplateArg &&& rec FWhileTemplateArg) &&& ParseOneCharToken "E" &&&
     RestoreAppend copy.(append) &&& MaybeAppend "<>") ||| restore copy).

Definition ParseTemplateArg : M :=
  save (λ copy,
    (ParseOneCharToken "I" &&& rec FWhileTemplateArg &&& ParseOneCharToken "E")
    ||| restore copy
    ||| (rec FType ||| rec FExprPrimary) ||| restore copy
    ||| (ParseOneCharToken "X" &&& rec FExpression &&& ParseOneCharToken "E")
    ||| restore copy).

Definition ParseExpression : M :=
  ParseTemplateParam ||| rec FExprPrimary |||
  save (λ copy,
    (rec FOperatorName &&& rec FExpression &&& rec FExpression &&& rec FExpression)
    ||| restore copy
    ||| (rec FOperatorName &&& rec FExpression &&& rec FExpression) ||| restore copy
    ||| (rec FOperatorName &&& rec FExpression) ||| restore copy
    ||| (ParseTwoCharToken "s" "t" &&& rec FType) ||| restore copy
    ||| (ParseTwoCharToken "s" "r" &&& rec FType &&& rec FUnqualifiedName &&&
         rec FTemplateArgs) ||| restore copy
    ||| (ParseTwoCharToken "s" "r" &&& rec FType &&& rec FUnqualifiedName) ||| restore copy).

Definition ParseExprPrimary : M :=
  save (λ copy,
    (ParseOneCharToken "L" &&& rec FType &&& ParseNumber &&& ParseOneCharToken "E")
    ||| restore copy
    ||| (ParseOneCharToken "L" &&& rec FType &&& ParseFloatNumber &&& ParseOneCharToken "E")
    ||| restore copy
    ||| (ParseOneCharToken "L" &&& rec FMangledName &&& ParseOneCharToken "E")
    ||| restore copy
    ||| (ParseTwoCharToken "L" "Z" &&& rec FEncoding &&& ParseOneCharToken "E")
    ||| restore copy).

Definition ParseLocalName : M :=
  save (λ copy,
    (ParseOneCharToken "Z" &&& rec FEncoding &&& ParseOneCharToken "E" &&& MaybeAppend "::" &&&
     rec FName &&& Optional ParseDiscriminator) ||| restore copy
    ||| (ParseOneCharToken "Z" &&& rec FEncoding &&& ParseTwoCharToken "E" "s" &&&
         Optional ParseDiscriminator) ||| restore copy).

(** [while (parse_func(state)) {}], as [OneOrMore] and [ZeroOrMore] have it. *)
Definition While (f loop : Func) : M := ifM (rec f) (rec loop) (ret true).

Definition body (f : Func) : M :=
  match f with
  | FMangledName => ParseMangledName
  | FEncoding => ParseEncoding
  | FName => ParseName
  | FUnscopedName => ParseUnscopedName
  | FUnscopedTemplateName => ParseUnscopedTemplateName
  | FNestedName => ParseNestedName
  | FPrefix has_something => ParsePrefix has_something
  | FUnqualifiedName => ParseUnqualifiedName
  | FOperatorName => ParseOperatorName
  | FSpecialName => ParseSpecialName
  | FType => ParseType
  | FFunctionType => ParseFunctionType
  | FBareFunctionType => ParseBareFunctionType
  | FClassEnumType => ParseClassEnumType
  | FArrayType => ParseArrayType
  | FPointerToMemberType => ParsePointerToMemberType
  | FTemplateArgs => ParseTemplateArgs
  | FTemplateArg => ParseTemplateArg
  | FExpression => ParseExpression
  | FExprPrimary => ParseExprPrimary
  | FLocalName => ParseLocalName
  | FWhileType => While FType FWhileType
  | FWhileTemplateArg => While FTemplateArg FWhileTemplateArg
  end.
End Bodies.

Fixpoint run (fuel : nat) (f : Func) : M :=
  match fuel with
  | O => λ _ _, OutOfFuel
  | S fuel => λ s o, body (run fuel) f s o
  end.

(** * The entry point *)

(** What is left of the characters after the letters and the digits. *)
Definition skip (P : ascii → bool) (l : list ascii) : list ascii := drop (run_length P l) l.

Fixpoint clone_suffix (fuel : nat) (l : list ascii) : bool :=
  match fuel, l with
  | _, [] => true
  | S fuel, "."%char :: c :: l =>
      if IsAlpha c then
        match skip IsAlpha l with
        | "."%char :: d :: l =>
            if IsDigit d then clone_suffix fuel (skip IsDigit l) else false
        | _ => false
        end
      else false
  | _, _ => false
  end.

Definition IsFunctionCloneSuffix (l : list ascii) : bool := clone_suffix (length l) l.

Definition ParseTopLevelMangledName (fuel : nat) : M :=
  run fuel FMangledName &&&
  rest (λ l,
    match l with
    | [] => ret true
    | c :: _ =>
        if IsFunctionCloneSuffix l then ret true
        else if decide (c = "@"%char) then MaybeAppendRest
        else ret false
    end).

Definition InitState : State := mkState 0 0 None (-1) (-1) true false.

(** [out] is the buffer as the caller passes it. *)
Definition Demangle (fuel : nat) (out : list ascii) : Res :=
  (ParseTopLevelMangledName fuel &&& get (λ s, ret (negb s.(overflowed)))) InitState out.
End Demangler.

(** The fuel that is enough for a name of [n] characters ([Demangle_terminates]). *)
Definition enough (n : nat) : nat := 9 * n + 10.

(** The string in a buffer, up to its first NUL. *)
Fixpoint c_string (o : list ascii) : string :=
  match o with
  | [] => ""
  | c :: o => if decide (c = NUL) then "" else String c (c_string o)
  end.

(** Demangling into a buffer of [n] bytes: the name, if [Demangle] says so. *)
Definition demangled (mangled : string) (n : nat) : option string :=
  match Demangle (bytes mangled) (Z.of_nat n) (enough (String.length mangled)) (repeat NUL n) with
  | Ret true _ o => Some (c_string o)
  | _ => None
  end.
