(* ===== verification/DemangleFacts.v ===== *)
(** Properties of the demangler: no write outside the output buffer, the
    contract of the parsing functions on failure, termination, and the inputs
    that break it. *)

From S2P Require Import Prelude Demangle.
From stdpp Require Import base list strings.
From Stdlib Require Import Ascii ZArith.

Open Scope Z_scope.
Open Scope demangle_scope.

Create HintDb safe.
Create HintDb keeps.

(** * Writes stay inside the output buffer *)

Section Safe.
Variable mangled : list ascii.
Variable out_size : Z.

(** The output cursor points into the buffer, or to its start. *)
Definition cur_ok (s : State) : Prop := 0 <= s.(out_cur) <= Z.max 0 (out_size - 1).
Definition out_ok (s : State) (o : list ascii) : Prop :=
  cur_ok s ∧ Z.of_nat (length o) = Z.max 0 out_size.

Definition safe (p : M) : Prop := ∀ s o, out_ok s o →
  match p s o with
  | Ret _ s o => out_ok s o
  | Stop f => f ≠ WriteOutput
  | OutOfFuel => True
  end.

Lemma safe_ret b : safe (ret b).
Proof. by intros s o. Qed.

Lemma safe_stop f : f ≠ WriteOutput → safe (stop f).
Proof. by intros ? s o. Qed.

Lemma safe_modify f : (∀ s, out_cur (f s) = out_cur s) → safe (modify f).
Proof. intros H s o. unfold modify, out_ok, cur_ok. by rewrite H. Qed.

Lemma safe_andM p q : safe p → safe q → safe (p &&& q).
Proof.
  intros Hp Hq s o Hs. unfold andM. specialize (Hp s o Hs).
  destruct (p s o) as [[] s' o'|f|]; try done. by apply Hq.
Qed.

Lemma safe_orM p q : safe p → safe q → safe (p ||| q).
Proof.
  intros Hp Hq s o Hs. unfold orM. specialize (Hp s o Hs).
  destruct (p s o) as [[] s' o'|f|]; try done. by apply Hq.
Qed.

Lemma safe_ifM p q r : safe p → safe q → safe r → safe (ifM p q r).
Proof.
  intros Hp Hq Hr s o Hs. unfold ifM. specialize (Hp s o Hs).
  destruct (p s o) as [[] s' o'|f|]; [by apply Hq|by apply Hr|done|done].
Qed.

Lemma safe_optional p : safe p → safe (Optional p).
Proof.
  intros Hp s o Hs. unfold Optional. specialize (Hp s o Hs). by destruct (p s o).
Qed.

Lemma safe_get k : (∀ s, cur_ok s → safe (k s)) → safe (get k).
Proof. intros Hk s o Hs. by apply (Hk s (proj1 Hs)). Qed.

Lemma safe_save k : (∀ s, cur_ok s → safe (k s)) → safe (save k).
Proof. apply safe_get. Qed.

Lemma safe_restore c : cur_ok c → safe (restore c).
Proof. intros Hc s o [_ Ho]. by split. Qed.

Lemma safe_rd i k : (∀ c, safe (k c)) → safe (rd mangled i k).
Proof. intros Hk s o Hs. unfold rd. destruct (peek _ _); [by apply Hk|done]. Qed.

Lemma safe_rest k : (∀ l, safe (k l)) → safe (rest mangled k).
Proof. intros Hk. apply safe_get. intros s _. by destruct (_ || _); [apply safe_stop|]. Qed.

Lemma safe_first str k : (∀ c, safe (k c)) → safe (first mangled str k).
Proof.
  intros Hk s o Hs. unfold first. destruct (rd_src mangled str 0 o) as [c|f] eqn:E; [by apply Hk|].
  destruct str as [l|p|[p|]]; simpl in E; [done| | |by simplify_eq].
  - destruct (peek mangled (p + 0)); by simplify_eq.
  - destruct (0 <=? p + 0); [|by simplify_eq]. destruct (o !! _); by simplify_eq.
Qed.

Lemma safe_ends_with_less k : (∀ b, safe (k b)) → safe (ends_with_less k).
Proof.
  intros Hk s o Hs. unfold ends_with_less.
  destruct (0 <? _); [|by apply Hk]. destruct (o !! _); [by apply Hk|done].
Qed.

(** The write of [*out_cur], with the cursor inside. *)
Lemma wr_ok p c s o :
  0 <= p < out_size → Z.of_nat (length o) = Z.max 0 out_size →
  wr p c s o = Ret true s (<[Z.to_nat p := c]> o).
Proof.
  intros Hp Ho. unfold wr. destruct (Z.leb_spec 0 p), (Z.ltb_spec p (Z.of_nat (length o))); done || lia.
Qed.

Lemma rd_src_fault str i o f : rd_src mangled str i o = inr f → f ≠ WriteOutput.
Proof. intros E. unfold rd_src in E. repeat case_match; by simplify_eq. Qed.

Lemma append_loop_ok n i str s o :
  out_ok s o →
  match append_loop mangled out_size n i str s o with
  | Ret _ s' o' => out_ok s' o' ∧ (0 < out_size ∨ n = 0%nat ∨ overflowed s' = true)
  | Stop f => f ≠ WriteOutput
  | OutOfFuel => True
  end.
Proof.
  revert i s o. induction n as [|n IH]; intros i s o Hs; simpl; [tauto|].
  destruct Hs as [Hc Ho]. destruct (Z.ltb_spec (out_cur s + 1) out_size) as [Hlt|Hge];
    [|by split; [split|right; right]].
  destruct (rd_src mangled str i o) as [c|f] eqn:E; [|by eapply rd_src_fault].
  unfold cur_ok in Hc. unfold andM at 1 2. rewrite wr_ok by lia. simpl.
  specialize (IH (i + 1) (set_out (out_cur s + 1) s) (<[Z.to_nat (out_cur s):=c]> o)).
  destruct (append_loop mangled out_size n (i + 1) str _ _) as [b s' o'|f|] eqn:El.
  - split; [|left; lia]. apply IH. split; [unfold cur_ok; simpl; lia|by rewrite length_insert].
  - apply IH. split; [unfold cur_ok; simpl; lia|by rewrite length_insert].
  - done.
Qed.

Lemma safe_Append str n : 0 < n → safe (Append mangled out_size str n).
Proof.
  intros Hn s o Hs. unfold Append, andM, get.
  pose proof (append_loop_ok (Z.to_nat n) 0 str s o Hs) as H.
  destruct (append_loop _ _ _ _ _ s o) as [[] s' o'|f|]; [|by destruct H|done|done].
  destruct H as [[Hc Ho] H]. destruct (overflowed s') eqn:Ev; [by split|].
  unfold cur_ok in Hc. destruct H as [H|[H|H]]; [|lia|congruence].
  rewrite wr_ok by lia. split; [done|by rewrite length_insert].
Qed.

Lemma safe_MaybeAppendWithLength str n : safe (MaybeAppendWithLength mangled out_size str n).
Proof.
  apply safe_get. intros s _. destruct (_ && (0 <? n)) eqn:E; [|apply safe_ret].
  apply andb_true_iff in E as [_ Hn%Z.ltb_lt]. apply safe_first. intros c.
  apply safe_andM; [apply safe_andM|by apply safe_Append].
  - case_decide; [|apply safe_ret]. apply safe_ends_with_less.
    intros []; [by apply safe_Append|apply safe_ret].
  - case_match; [|apply safe_ret]. by apply safe_modify.
Qed.

Lemma safe_MaybeCancelLastSeparator : safe MaybeCancelLastSeparator.
Proof.
  intros s o [Hc Ho]. unfold MaybeCancelLastSeparator, get.
  destruct (_ && _ && _) eqn:E; [|by split].
  apply andb_true_iff in E as [_ Hn%Z.leb_le]. unfold cur_ok in Hc.
  unfold andM, modify. rewrite wr_ok by lia. split; [unfold cur_ok; simpl; lia|].
  by rewrite length_insert.
Qed.

Lemma safe_at_least n : safe (AtLeastNumCharsRemaining mangled n).
Proof. intros s o Hs. unfold AtLeastNumCharsRemaining. by destruct (at_least _ _ _ _). Qed.

Lemma safe_StrPrefix l i : safe (StrPrefix mangled l i).
Proof.
  revert i. induction l as [|c l IH]; intros i; simpl; [apply safe_ret|].
  apply safe_rd. intros d. case_decide; [apply IH|apply safe_ret].
Qed.

(** One rule per construct; what is left are the calls. *)
Ltac safely :=
  repeat match goal with
  | |- ∀ _, _ => intro
  | H : safe ?p |- safe ?p => exact H
  | H : ∀ _, safe (?f _) |- safe (?f _) => apply H
  | H : ∀ _ _, safe (?f _ _) |- safe (?f _ _) => apply H
  | |- safe (_ &&& _) => apply safe_andM
  | |- safe (_ ||| _) => apply safe_orM
  | |- safe (ifM _ _ _) => apply safe_ifM
  | |- safe (Optional _) => apply safe_optional
  | |- safe (restore _) => apply safe_restore; assumption
  | |- safe (save _) => apply safe_save
  | |- safe (get _) => apply safe_get
  | |- safe (rd _ _ _) => apply safe_rd
  | |- safe (rest _ _) => apply safe_rest
  | |- safe (ret _) => apply safe_ret
  | |- safe (stop _) => by apply safe_stop
  | |- safe (modify _) => apply safe_modify; intro; simpl; (reflexivity || by case_match)
  | |- safe (MaybeAppendWithLength _ _ _ _) => apply safe_MaybeAppendWithLength
  | |- safe MaybeCancelLastSeparator => apply safe_MaybeCancelLastSeparator
  | |- safe (AtLeastNumCharsRemaining _ _) => apply safe_at_least
  | |- safe (StrPrefix _ _ _) => apply safe_StrPrefix
  | |- safe (if ?b then _ else _) => destruct b
  | |- safe (match ?b with _ => _ end) => destruct b
  end.

Lemma safe_MaybeAppend str : safe (MaybeAppend mangled out_size str).
Proof. unfold MaybeAppend. safely. Qed.

Lemma safe_one c : safe (ParseOneCharToken mangled c).
Proof. unfold ParseOneCharToken, advance. safely. Qed.

Lemma safe_two c d : safe (ParseTwoCharToken mangled c d).
Proof. unfold ParseTwoCharToken, advance. safely. Qed.

Lemma safe_class s : safe (ParseCharClass mangled s).
Proof. unfold ParseCharClass, advance. safely. Qed.

Hint Resolve safe_MaybeAppend safe_one safe_two safe_class : safe.

Ltac by_safe := safely; auto with safe.

Lemma safe_ParseNumber_out k : (∀ n, safe (k n)) → safe (ParseNumber_out mangled k).
Proof. intros Hk. unfold ParseNumber_out, advance. by_safe. Qed.

Lemma safe_ParseNumber : safe (ParseNumber mangled).
Proof. apply safe_ParseNumber_out. safely. Qed.

Lemma safe_ParseSourceName : safe (ParseSourceName mangled out_size).
Proof.
  unfold ParseSourceName. safely. apply safe_ParseNumber_out. intros n.
  unfold ParseIdentifier, IdentifierIsAnonymousNamespace, advance. by_safe.
Qed.

Hint Resolve safe_ParseNumber safe_ParseSourceName : safe.

Lemma safe_ParseDiscriminator : safe (ParseDiscriminator mangled).
Proof. unfold ParseDiscriminator. by_safe. Qed.

Hint Resolve safe_ParseDiscriminator : safe.

Lemma safe_ParseCallOffset : safe (ParseCallOffset mangled).
Proof. unfold ParseCallOffset, ParseVOffset, ParseNVOffset. by_safe. Qed.

Lemma safe_ParseCVQualifiers : safe (ParseCVQualifiers mangled).
Proof. unfold ParseCVQualifiers. by_safe. Qed.

Lemma safe_ParseBuiltinType : safe (ParseBuiltinType mangled out_size).
Proof. unfold ParseBuiltinType, advance. by_safe. Qed.

Lemma safe_ParseTemplateParam : safe (ParseTemplateParam mangled out_size).
Proof. unfold ParseTemplateParam. by_safe. Qed.

Lemma safe_ParseSubstitution : safe (ParseSubstitution mangled out_size).
Proof. unfold ParseSubstitution, ParseSeqId, parse_run, advance. by_safe. Qed.

Lemma safe_ParseCtorDtorName : safe (ParseCtorDtorName mangled out_size).
Proof. unfold ParseCtorDtorName. by_safe. Qed.

Hint Resolve safe_ParseCallOffset safe_ParseCVQualifiers safe_ParseBuiltinType
  safe_ParseTemplateParam safe_ParseSubstitution safe_ParseCtorDtorName : safe.

Lemma body_safe rec f : (∀ g, safe (rec g)) → safe (body mangled out_size rec f).
Proof.
  intros Hrec. destruct f; simpl;
    unfold ParseMangledName, ParseEncoding, ParseName, ParseUnscopedName,
      ParseUnscopedTemplateName, ParseNestedName, ParsePrefix, ParseUnqualifiedName,
      ParseLocalSourceName, ParseOperatorName, ParseSpecialName, ParseType, ParseFunctionType,
      ParseBareFunctionType, ParseClassEnumType, ParseArrayType, ParsePointerToMemberType,
      ParseTemplateArgs, ParseTemplateArg, ParseExpression, ParseExprPrimary, ParseLocalName,
      ParseTemplateTemplateParam, ParseFloatNumber, parse_run, While, MaybeAppendSeparator,
      MaybeIncreaseNestLevel, EnterNestedName, LeaveNestedName, DisableAppend, RestoreAppend,
      advance; by_safe.
Qed.

Lemma run_safe fuel f : safe (run mangled out_size fuel f).
Proof.
  revert f. induction fuel as [|fuel IH]; intros f; simpl; [by intros s o|].
  exact (body_safe _ f IH).
Qed.
End Safe.

(** * A parsing function that fails leaves the state alone *)

Section Keeps.
Variable mangled : list ascii.
Variable out_size : Z.

(** Failing from the state [c], from any state, and ending in [c] from any
    state. *)
Definition keeps_at (c : State) (p : M) : Prop :=
  ∀ o s' o', p c o = Ret false s' o' → s' = c.
Definition keeps (p : M) : Prop := ∀ c, keeps_at c p.
Definition ends (c : State) (p : M) : Prop :=
  ∀ s o s' o', p s o = Ret false s' o' → s' = c.
Definition succeeds (p : M) : Prop := ∀ s o s' o', p s o ≠ Ret false s' o'.

Lemma keeps_orM p q : keeps p → keeps q → keeps (p ||| q).
Proof.
  intros Hp Hq c o s' o'. unfold orM. destruct (p c o) as [[] s1 o1| |] eqn:E; try done.
  apply Hp in E as ->. apply Hq.
Qed.

Lemma ends_orM c p q : ends c p → keeps q → ends c (p ||| q).
Proof.
  intros Hp Hq s o s' o'. unfold orM. destruct (p s o) as [[] s1 o1| |] eqn:E; try done.
  apply Hp in E as ->. apply Hq.
Qed.

Lemma ends_restore c p : ends c (p ||| restore c).
Proof.
  intros s o s' o'. unfold orM, restore. destruct (p s o) as [[] s1 o1| |]; try done.
  by intros [= <- _].
Qed.

Lemma keeps_save k : (∀ c, ends c (k c)) → keeps (save k).
Proof. intros H c o s' o'. apply H. Qed.

Lemma keeps_ret b : keeps (ret b).
Proof. intros c o s' o'. by intros [= _ <- _]. Qed.

Lemma keeps_succeeds p : succeeds p → keeps p.
Proof. intros H c o s' o' E. by apply H in E. Qed.

Lemma keeps_rd i k : (∀ c, keeps (k c)) → keeps (rd mangled i k).
Proof. intros H c o s' o'. unfold rd. destruct (peek _ _); [apply H|done]. Qed.

Lemma keeps_andM p q : keeps p → succeeds q → keeps (p &&& q).
Proof.
  intros Hp Hq c o s' o'. unfold andM. destruct (p c o) as [[] s1 o1| |] eqn:E; try done.
  - intros E'. by apply Hq in E'.
  - intros [= <- <-]. by apply Hp in E.
Qed.

Lemma succeeds_andM p q : succeeds p → succeeds q → succeeds (p &&& q).
Proof.
  intros Hp Hq s o s' o'. unfold andM. destruct (p s o) as [[] s1 o1| |] eqn:E; try done.
  by apply Hp in E.
Qed.

Lemma succeeds_ifM p q r : succeeds q → succeeds r → succeeds (ifM p q r).
Proof. intros Hq Hr s o s' o'. unfold ifM. by destruct (p s o) as [[] s1 o1| |]. Qed.

Lemma succeeds_modify f : succeeds (modify f).
Proof. by intros s o s' o'. Qed.

Lemma succeeds_get k : (∀ s, succeeds (k s)) → succeeds (get k).
Proof. intros H s o s' o'. apply H. Qed.

Lemma succeeds_wr p c : succeeds (wr p c).
Proof. intros s o s' o'. unfold wr. by destruct (_ && _). Qed.

Lemma succeeds_append_loop n i str : succeeds (append_loop mangled out_size n i str).
Proof.
  revert i. induction n as [|n IH]; intros i s o s' o'; simpl; [done|].
  destruct (_ <? _); [|done]. destruct (rd_src _ _ _ _); [|done].
  apply succeeds_andM; [apply succeeds_andM; [apply succeeds_wr|apply succeeds_modify]|apply IH].
Qed.

Lemma succeeds_MaybeAppendWithLength str n :
  succeeds (MaybeAppendWithLength mangled out_size str n).
Proof.
  assert (∀ str n, succeeds (Append mangled out_size str n)) as Ha.
  { intros str' n'. apply succeeds_andM; [apply succeeds_append_loop|]. apply succeeds_get.
    intros s. destruct (overflowed s); [by intros ?|apply succeeds_wr]. }
  apply succeeds_get. intros s. destruct (_ && _); [|by intros ?].
  intros s1 o s' o'. unfold first. destruct (rd_src _ _ _ _) as [c|]; [|done].
  apply succeeds_andM; [apply succeeds_andM|apply Ha].
  - case_decide; [|by intros ?]. intros s2 o2 s2' o2'. unfold ends_with_less.
    repeat case_match; try done; by apply Ha.
  - case_match; [apply succeeds_modify|by intros ?].
Qed.

Lemma succeeds_MaybeAppend str : succeeds (MaybeAppend mangled out_size str).
Proof.
  apply succeeds_get. intros s. destruct (append s); [|by intros ?].
  apply succeeds_MaybeAppendWithLength.
Qed.

Lemma succeeds_ret : succeeds (ret true).
Proof. by intros s o s' o'. Qed.

Ltac keeping :=
  repeat match goal with
  | |- ∀ _, _ => intro
  | |- keeps (_ ||| _) => apply keeps_orM
  | |- keeps (save _) => apply keeps_save
  | |- keeps (ret _) => apply keeps_ret
  | |- keeps (rd _ _ _) => apply keeps_rd
  | |- keeps (_ &&& _) => apply keeps_andM
  | |- ends ?c (_ ||| restore ?c) => apply ends_restore
  | |- ends _ (_ ||| _) => apply ends_orM
  | |- succeeds (_ &&& _) => apply succeeds_andM
  | |- succeeds (ifM _ _ _) => apply succeeds_ifM
  | |- succeeds (get _) => apply succeeds_get
  | |- succeeds (modify _) => apply succeeds_modify
  | |- succeeds (wr _ _) => apply succeeds_wr
  | |- succeeds (ret true) => apply succeeds_ret
  | |- succeeds (MaybeAppend _ _ _) => apply succeeds_MaybeAppend
  | |- succeeds (MaybeAppendWithLength _ _ _ _) => apply succeeds_MaybeAppendWithLength
  | |- keeps (if ?b then _ else _) => destruct b
  | |- keeps (match ?b with _ => _ end) => destruct b
  | |- succeeds (if ?b then _ else _) => destruct b
  end.

Lemma keeps_one c : keeps (ParseOneCharToken mangled c).
Proof. unfold ParseOneCharToken, advance. keeping. by apply keeps_succeeds, succeeds_modify. Qed.

Lemma keeps_two c d : keeps (ParseTwoCharToken mangled c d).
Proof. unfold ParseTwoCharToken, advance. keeping. by apply keeps_succeeds, succeeds_modify. Qed.

Lemma keeps_class s : keeps (ParseCharClass mangled s).
Proof. unfold ParseCharClass, advance. keeping. by apply keeps_succeeds, succeeds_modify. Qed.

Hint Resolve keeps_one keeps_two keeps_class : keeps.

Ltac by_keeping := keeping; auto with keeps.

Lemma keeps_ParseTemplateParam : keeps (ParseTemplateParam mangled out_size).
Proof. unfold ParseTemplateParam. by_keeping. Qed.

Lemma keeps_ParseSubstitution : keeps (ParseSubstitution mangled out_size).
Proof. unfold ParseSubstitution. by_keeping. Qed.

Lemma keeps_ParseSourceName : keeps (ParseSourceName mangled out_size).
Proof. unfold ParseSourceName. by_keeping. Qed.

Lemma keeps_ParseCtorDtorName : keeps (ParseCtorDtorName mangled out_size).
Proof. unfold ParseCtorDtorName. by_keeping. Qed.

Hint Resolve keeps_ParseTemplateParam keeps_ParseSubstitution keeps_ParseSourceName
  keeps_ParseCtorDtorName : keeps.

Lemma keeps_ParseBuiltinType : keeps (ParseBuiltinType mangled out_size).
Proof.
  unfold ParseBuiltinType, advance. by_keeping. apply keeps_succeeds. keeping.
Qed.

Lemma keeps_at_least n q : keeps q → keeps (AtLeastNumCharsRemaining mangled n &&& q).
Proof.
  intros Hq c o s' o'. unfold andM, AtLeastNumCharsRemaining.
  destruct (at_least _ _ _ _) as [[]|]; [apply Hq|by intros [= <- _]|done].
Qed.

Hint Resolve keeps_ParseBuiltinType : keeps.

(** The loops always succeed. *)
Definition is_loop (f : Func) : bool :=
  match f with FPrefix _ | FWhileType | FWhileTemplateArg => true | _ => false end.

Lemma run_loop_succeeds fuel f : is_loop f = true → succeeds (run mangled out_size fuel f).
Proof.
  revert f. induction fuel as [|fuel IH]; intros f Hf; [by intros ?|].
  change (succeeds (body mangled out_size (run mangled out_size fuel) f)).
  destruct f; try done; simpl; unfold ParsePrefix, While, MaybeAppendSeparator,
    MaybeIncreaseNestLevel, MaybeCancelLastSeparator; keeping; by apply IH.
Qed.

(** The functions that keep the state when they fail: all but the one that
    tests for [_Z] and then parses an encoding. *)
Lemma run_keeps fuel f : f ≠ FMangledName → keeps (run mangled out_size fuel f).
Proof.
  revert f. induction fuel as [|fuel IH]; intros f Hf; [by intros c o|].
  destruct (is_loop f) eqn:El; [by apply keeps_succeeds, run_loop_succeeds|].
  change (keeps (body mangled out_size (run mangled out_size fuel) f)).
  destruct f; try done; simpl;
    unfold ParseEncoding, ParseName, ParseUnscopedName,
      ParseUnscopedTemplateName, ParseNestedName, ParseUnqualifiedName,
      ParseLocalSourceName, ParseSpecialName, ParseType, ParseFunctionType,
      ParseBareFunctionType, ParseClassEnumType, ParseArrayType, ParsePointerToMemberType,
      ParseTemplateArgs, ParseTemplateArg, ParseExpression, ParseExprPrimary, ParseLocalName,
      ParseTemplateTemplateParam; by_keeping; try (by apply IH).
  unfold ParseOperatorName, advance. apply keeps_at_least. by_keeping.
  apply keeps_succeeds. keeping.
Qed.
End Keeps.

(** * Termination *)

(** No number of the name is negative and none overflows [int]. *)
Fixpoint numbers_ok (l : list ascii) : bool :=
  match l with
  | [] => true
  | c :: l' =>
      negb (bool_decide (c = "n"%char) && (0 <? run_length IsDigit l')%nat) &&
      bool_decide (is_Some (decimal l 0)) && numbers_ok l'
  end.

Lemma numbers_ok_drop k l : numbers_ok l = true → numbers_ok (drop k l) = true.
Proof.
  revert l. induction k as [|k IH]; intros [|c l]; simpl; try done.
  intros [_ H]%andb_true_iff. by apply IH.
Qed.

Lemma numbers_ok_decimal l : numbers_ok l = true → is_Some (decimal l 0).
Proof.
  destruct l as [|c l]; simpl; [by eexists|].
  intros [[_ H%bool_decide_eq_true]%andb_true_iff _]%andb_true_iff. done.
Qed.

Lemma decimal_nonneg l n k : 0 <= n → decimal l n = Some k → 0 <= k.
Proof.
  revert n. induction l as [|c l IH]; intros n Hn; simpl; [by intros [= <-]|].
  destruct (IsDigit c) eqn:E; [|by intros [= <-]].
  unfold IsDigit, in_range in E. apply andb_true_iff in E as [E1%Z.leb_le _].
  change (chr "0") with 48 in E1. destruct (_ <? _); [done|]. apply IH. lia.
Qed.

Lemma run_length_le P l : (run_length P l <= length l)%nat.
Proof. induction l as [|c l IH]; simpl; [lia|]. destruct (P c); lia. Qed.

Section Good.
Variable mangled : list ascii.
Variable out_size : Z.
Hypothesis mangled_ok : numbers_ok mangled = true.
#[local] Abbreviation len := (len mangled).

Definition inside (s : State) : Prop := 0 <= s.(mangled_cur) <= len.

(** From a cursor inside the name, at or after [c] and with at most [m]
    characters after [c], [p] returns with the cursor inside and at or after
    [c], and [st] further if it succeeds; or it stops at the output. *)
Definition good (st m c : Z) (p : M) : Prop := ∀ s o,
  inside s → c <= s.(mangled_cur) → len - c <= m →
  match p s o with
  | Ret b s' _ => inside s' ∧ c <= s'.(mangled_cur) ∧ (b = true → c + st <= s'.(mangled_cur))
  | Stop f => f = ReadOutput ∨ f = WriteOutput
  | OutOfFuel => False
  end.

Lemma good_weaken m c p : good 1 m c p → good 0 m c p.
Proof.
  intros H s o Hi Hc Hm. specialize (H s o Hi Hc Hm).
  destruct (p s o); try done. destruct H as (? & ? & H). split; [done|]. split; [done|].
  intros Hb. specialize (H Hb). lia.
Qed.

Lemma good_and_strict st m c p q :
  0 <= st <= 1 → good 1 m c p → (∀ c', c + 1 <= c' → good 0 (m - 1) c' q) →
  good st m c (p &&& q).
Proof.
  intros Hst Hp Hq s o Hi Hc Hm. unfold andM. specialize (Hp s o Hi Hc Hm).
  destruct (p s o) as [[] s1 o1|f|]; try done; [|naive_solver].
  destruct Hp as (Hi1 & _ & H1). specialize (H1 eq_refl).
  specialize (Hq (mangled_cur s1) H1 s1 o1 Hi1 (Z.le_refl _) ltac:(lia)).
  destruct (q s1 o1) as [b s2 o2|f|]; try done.
  destruct Hq as (? & ? & _). split; [done|]. split; [lia|]. lia.
Qed.

Lemma good_and_lax st m c p q : good 0 m c p → good st m c q → good st m c (p &&& q).
Proof.
  intros Hp Hq s o Hi Hc Hm. unfold andM. specialize (Hp s o Hi Hc Hm).
  destruct (p s o) as [[] s1 o1|f|]; try done; [|naive_solver].
  destruct Hp as (Hi1 & Hc1 & _). by apply Hq.
Qed.

Lemma good_or st m c p q : good st m c p → good st m c q → good st m c (p ||| q).
Proof.
  intros Hp Hq s o Hi Hc Hm. unfold orM. specialize (Hp s o Hi Hc Hm).
  destruct (p s o) as [[] s1 o1|f|]; try done.
  destruct Hp as (Hi1 & Hc1 & _). by apply Hq.
Qed.

Lemma good_if m c p q r :
  good 1 m c p → (∀ c', c + 1 <= c' → good 0 (m - 1) c' q) → good 0 m c r →
  good 0 m c (ifM p q r).
Proof.
  intros Hp Hq Hr s o Hi Hc Hm. unfold ifM. specialize (Hp s o Hi Hc Hm).
  destruct (p s o) as [[] s1 o1|f|]; try done; destruct Hp as (Hi1 & Hc1 & H1).
  - specialize (H1 eq_refl).
    specialize (Hq (mangled_cur s1) H1 s1 o1 Hi1 (Z.le_refl _) ltac:(lia)).
    destruct (q s1 o1) as [b s2 o2|f|]; try done.
    destruct Hq as (? & ? & _). split; [done|]. split; lia.
  - by apply Hr.
Qed.

Lemma good_if_lax st m c p q r :
  good 0 m c p → good st m c q → good st m c r → good st m c (ifM p q r).
Proof.
  intros Hp Hq Hr s o Hi Hc Hm. unfold ifM. specialize (Hp s o Hi Hc Hm).
  destruct (p s o) as [[] s1 o1|f|]; try done; destruct Hp as (Hi1 & Hc1 & _);
    [by apply Hq|by apply Hr].
Qed.

Lemma good_optional m c p : good 0 m c p → good 0 m c (Optional p).
Proof.
  intros Hp s o Hi Hc Hm. unfold Optional. specialize (Hp s o Hi Hc Hm).
  destruct (p s o) as [b s1 o1|f|]; try done. destruct Hp as (? & ? & _). split; [done|]. lia.
Qed.

Lemma good_save st m c k :
  (∀ s, inside s → c <= s.(mangled_cur) → good st m c (k s)) → good st m c (save k).
Proof. intros H s o Hi Hc Hm. by apply (H s Hi Hc). Qed.

Lemma good_restore st m c s :
  inside s → c <= s.(mangled_cur) → good st m c (restore s).
Proof. intros Hi Hc s' o _ _ _. simpl. done. Qed.

Lemma good_false st m c : good st m c (ret false).
Proof. intros s o Hi Hc _. simpl. done. Qed.

Lemma good_true m c : good 0 m c (ret true).
Proof. intros s o Hi Hc _. simpl. split; [done|]. lia. Qed.

Lemma good_modify m c f :
  (∀ s, mangled_cur (f s) = mangled_cur s) → good 0 m c (modify f).
Proof. intros H s o Hi Hc _. simpl. unfold inside. rewrite H. split; [done|]. lia. Qed.

Lemma peek_inside p : 0 <= p <= len → ∃ ch, peek mangled p = Some ch ∧ (ch ≠ NUL → p < len).
Proof.
  intros Hp. unfold peek. destruct (Z.ltb_spec p 0), (Z.ltb_spec len p); try lia. simpl.
  eexists. split; [done|]. intros Hn. destruct (decide (p < len)); [done|].
  rewrite lookup_ge_None_2 in Hn; [done|]. unfold Demangle.len in *. lia.
Qed.

(** Reading a character that is not NUL leaves at least one to advance over. *)
Lemma good_rd st m c k :
  (∀ ch, (ch = NUL ∨ ch ≠ NUL) → ∀ s o, inside s → c <= s.(mangled_cur) → len - c <= m →
     (ch ≠ NUL → s.(mangled_cur) < len) →
     match k ch s o with
     | Ret b s' _ => inside s' ∧ c <= s'.(mangled_cur) ∧ (b = true → c + st <= s'.(mangled_cur))
     | Stop f => f = ReadOutput ∨ f = WriteOutput
     | OutOfFuel => False
     end) → good st m c (rd mangled 0 k).
Proof.
  intros H s o Hi Hc Hm. unfold rd. destruct (peek_inside (mangled_cur s + 0)) as (ch & -> & Hch).
  { unfold inside in Hi. lia. }
  apply H; try done; [|intros Hn; specialize (Hch Hn); lia].
  destruct (decide (ch = NUL)); tauto.
Qed.

Lemma good_one m c t : t ≠ NUL → good 1 m c (ParseOneCharToken mangled t).
Proof.
  intros Ht. apply good_rd. intros ch _ s o Hi Hc _ Hlt. case_decide; simpl; [|done].
  subst. specialize (Hlt Ht). unfold inside in *. simpl. lia.
Qed.

Lemma good_class m c cl :
  forallb (λ ch, negb (bool_decide (ch = NUL))) (bytes cl) = true →
  good 1 m c (ParseCharClass mangled cl).
Proof.
  intros Hcl. apply good_rd. intros ch _ s o Hi Hc _ Hlt.
  destruct (existsb _ _) eqn:E; simpl; [|done].
  apply existsb_exists in E as (x & Hx & ->%bool_decide_eq_true).
  rewrite forallb_forall in Hcl. apply Hcl in Hx.
  apply negb_true_iff, bool_decide_eq_false in Hx. specialize (Hlt Hx).
  unfold inside in *. simpl. lia.
Qed.

Lemma good_two m c t0 t1 : t0 ≠ NUL → t1 ≠ NUL → good 1 m c (ParseTwoCharToken mangled t0 t1).
Proof.
  intros H0 H1. apply good_rd. intros ch _ s o Hi Hc _ Hlt. case_decide; simpl; [|done].
  subst. specialize (Hlt H0). unfold rd. unfold inside in Hi.
  destruct (peek_inside (mangled_cur s + 1)) as (ch & -> & Hch); [lia|].
  case_decide; simpl; [|done]. subst. specialize (Hch H1). unfold inside. simpl. lia.
Qed.

(** ** Output keeps the cursor *)

Definition outputs (p : M) : Prop := ∀ s o,
  match p s o with
  | Ret b s' _ => mangled_cur s' = mangled_cur s ∧ b = true
  | Stop f => f = ReadOutput ∨ f = WriteOutput
  | OutOfFuel => False
  end.

Lemma outputs_andM p q : outputs p → outputs q → outputs (p &&& q).
Proof.
  intros Hp Hq s o. unfold andM. specialize (Hp s o). destruct (p s o) as [b s1 o1|f|]; try done.
  destruct Hp as [E ->]. specialize (Hq s1 o1). by rewrite E in Hq.
Qed.

Lemma outputs_get k : (∀ s, outputs (k s)) → outputs (get k).
Proof. intros H s o. apply H. Qed.

Lemma outputs_ret : outputs (ret true).
Proof. by intros s o. Qed.

Lemma outputs_modify f : (∀ s, mangled_cur (f s) = mangled_cur s) → outputs (modify f).
Proof. intros H s o. by split; [apply H|]. Qed.

Lemma outputs_wr p ch : outputs (wr p ch).
Proof. intros s o. unfold wr. destruct (_ && _); [done|by right]. Qed.

(** The characters of [str] before [n] can be read, or lie in the output. *)
Definition src_ok (str : Src) (n : Z) : Prop :=
  match str with Mangled p => 0 <= p ∧ p + n <= len | _ => True end.

Lemma rd_src_ok str n i o f :
  src_ok str n → 0 <= i < n → rd_src mangled str i o = inr f → f = ReadOutput.
Proof.
  destruct str as [l|p|[p|]]; simpl; intros Hs Hi; [done| | |by intros [= <-]].
  - destruct (peek_inside (p + i)) as (ch & -> & _); [lia|done].
  - repeat case_match; try done; by intros [= <-].
Qed.

Lemma outputs_append_loop k i str n :
  src_ok str n → 0 <= i → i + Z.of_nat k <= n → outputs (append_loop mangled out_size k i str).
Proof.
  intros Hs. revert i. induction k as [|k IH]; intros i Hi Hn s o; simpl; [done|].
  destruct (_ <? _); [|done]. destruct (rd_src mangled str i o) as [ch|f] eqn:E.
  - apply outputs_andM; [apply outputs_andM; [apply outputs_wr|by apply outputs_modify]|].
    apply IH; lia.
  - left. eapply rd_src_ok; [done| |done]. lia.
Qed.

Lemma outputs_Append str n : src_ok str n → outputs (Append mangled out_size str n).
Proof.
  intros Hs. apply outputs_andM.
  - destruct (Z.lt_ge_cases n 0).
    + rewrite Z2Nat.nonpos by lia. by intros s o.
    + apply (outputs_append_loop _ 0 str n); [done|lia..].
  - apply outputs_get. intros s. destruct (overflowed s); [apply outputs_ret|apply outputs_wr].
Qed.

Lemma outputs_MaybeAppendWithLength str n :
  src_ok str n → outputs (MaybeAppendWithLength mangled out_size str n).
Proof.
  intros Hs. apply outputs_get. intros s1. destruct (_ && (0 <? n)) eqn:En; [|apply outputs_ret].
  apply andb_true_iff in En as [_ Hn%Z.ltb_lt]. intros s o. unfold first.
  destruct (rd_src mangled str 0 o) as [ch|f] eqn:E;
    [|left; eapply rd_src_ok; [done| |done]; lia].
  apply outputs_andM; [apply outputs_andM|by apply outputs_Append].
  - case_decide; [|apply outputs_ret]. intros s2 o2. unfold ends_with_less.
    destruct (0 <? _); [|done]. destruct (o2 !! _); [|by left].
    case_bool_decide; [by apply outputs_Append|done].
  - case_match; [by apply outputs_modify|apply outputs_ret].
Qed.

Lemma outputs_MaybeAppend str : outputs (MaybeAppend mangled out_size str).
Proof.
  apply outputs_get. intros s. destruct (append s); [|apply outputs_ret].
  by apply outputs_MaybeAppendWithLength.
Qed.

Lemma good_outputs m c p : outputs p → good 0 m c p.
Proof.
  intros H s o Hi Hc _. specialize (H s o). destruct (p s o); try done.
  destruct H as [E ->]. unfold inside. rewrite E. split; [done|]. lia.
Qed.

(** ** Numbers and identifiers *)

Lemma rest_eq k s o :
  inside s → rest mangled k s o = k (drop (Z.to_nat s.(mangled_cur)) mangled) s o.
Proof.
  intros Hi. unfold rest, get. unfold inside in Hi.
  destruct (Z.ltb_spec (mangled_cur s) 0), (Z.ltb_spec len (mangled_cur s)); done || lia.
Qed.

(** Advancing over a run of characters stays inside. *)
Lemma run_inside P s :
  inside s →
  mangled_cur s + Z.of_nat (run_length P (drop (Z.to_nat (mangled_cur s)) mangled)) <= len.
Proof.
  intros Hi. pose proof (run_length_le P (drop (Z.to_nat (mangled_cur s)) mangled)) as H.
  rewrite length_drop in H. unfold inside, Demangle.len in *. lia.
Qed.

Lemma good_digits st m c sign k :
  0 <= st <= 1 →
  (∀ n c', c + 1 <= c' → 0 <= n → good 0 (m - 1) c' (k (n * sign))) →
  good 1 m c (rest mangled (λ l,
    match decimal l 0 with
    | None => stop SignedOverflow
    | Some number =>
        if (0 <? run_length IsDigit l)%nat
        then advance (Z.of_nat (run_length IsDigit l)) &&& k (number * sign)
        else ret false
    end)).
Proof.
  intros Hst Hk s o Hi Hc Hm. rewrite rest_eq by done.
  destruct (numbers_ok_decimal (drop (Z.to_nat (mangled_cur s)) mangled)) as [n Hn];
    [by apply numbers_ok_drop|]. rewrite Hn.
  pose proof (decimal_nonneg _ _ _ (Z.le_refl 0) Hn) as Hpos.
  pose proof (run_inside IsDigit s Hi) as Hin.
  destruct (Nat.ltb_spec 0 (run_length IsDigit (drop (Z.to_nat (mangled_cur s)) mangled)));
    [|done].
  unfold andM, advance, modify. set (s1 := set_cur _ s).
  assert (inside s1) as Hi1 by (unfold inside in *; simpl; lia).
  specialize (Hk n (mangled_cur s1) ltac:(simpl; lia) Hpos s1 o Hi1 (Z.le_refl _)
    ltac:(simpl; lia)).
  destruct (k (n * sign) s1 o); try done. destruct Hk as (? & ? & _).
  split; [done|]. simpl in *. split; lia.
Qed.

(** After an [n] there is no digit. *)
Lemma n_then_no_digit s :
  inside s → peek mangled s.(mangled_cur) = Some "n"%char →
  run_length IsDigit (drop (Z.to_nat (s.(mangled_cur) + 1)) mangled) = 0%nat.
Proof.
  intros Hi Hp. unfold inside in Hi. unfold peek in Hp. destruct (_ || _); [done|].
  injection Hp as Hp. destruct (mangled !! Z.to_nat (mangled_cur s)) as [ch|] eqn:E; [|done].
  simpl in Hp. subst ch. pose proof (drop_S _ _ _ E) as Hd.
  pose proof (numbers_ok_drop (Z.to_nat (mangled_cur s)) mangled mangled_ok) as Hok.
  rewrite Hd in Hok. simpl in Hok.
  apply andb_true_iff in Hok as [[H _]%andb_true_iff _].
  replace (Z.to_nat (mangled_cur s + 1)) with (S (Z.to_nat (mangled_cur s))) by lia.
  destruct (run_length IsDigit (drop (S (Z.to_nat (mangled_cur s))) mangled)); done.
Qed.

Lemma good_ParseNumber_out m c k :
  (∀ n c', c + 1 <= c' → 0 <= n → good 0 (m - 1) c' (k n)) → good 1 m c (ParseNumber_out mangled k).
Proof.
  intros Hk s o Hi Hc Hm. unfold ParseNumber_out, ifM, ParseOneCharToken, rd.
  rewrite Z.add_0_r. destruct (peek_inside (mangled_cur s)) as (ch & Hp & Hch); [done|].
  rewrite Hp. case_decide as Hd.
  - subst ch. specialize (Hch ltac:(done)). unfold advance at 1, modify at 1.
    set (s1 := set_cur (mangled_cur s + 1) s).
    assert (inside s1) as Hi1 by (unfold inside in *; simpl; lia).
    rewrite rest_eq by done. simpl.
    rewrite n_then_no_digit by done.
    destruct (numbers_ok_decimal (drop (Z.to_nat (mangled_cur s + 1)) mangled)) as [n ->];
      [by apply numbers_ok_drop|]. simpl. split; [done|]. lia.
  - simpl. apply (good_digits 0 m c 1); try done. intros n c' Hc' Hn. rewrite Z.mul_1_r.
    by apply Hk.
Qed.

Lemma good_ParseNumber m c : good 1 m c (ParseNumber mangled).
Proof. apply good_ParseNumber_out. intros n c' _ _. apply good_true. Qed.

Lemma good_parse_run m c P : good 1 m c (parse_run mangled P).
Proof.
  intros s o Hi Hc Hm. unfold parse_run. rewrite rest_eq by done.
  pose proof (run_inside P s Hi) as Hin.
  destruct (Nat.ltb_spec 0 (run_length P (drop (Z.to_nat (mangled_cur s)) mangled))); [|done].
  simpl. unfold inside in *. simpl. lia.
Qed.

Lemma at_least_spec fuel p n :
  0 <= p <= len → len - p < Z.of_nat fuel →
  ∃ b, at_least mangled fuel p n = Some b ∧ (b = true → p + n <= len).
Proof.
  revert p n. induction fuel as [|fuel IH]; intros p n Hp Hf; [lia|].
  simpl. destruct (Z.leb_spec n 0); [exists true; split; [done|lia]|].
  destruct (peek_inside p Hp) as (ch & -> & Hch). case_decide as Hn; [by exists false|].
  specialize (Hch Hn). destruct (IH (p + 1) (n - 1)) as (b & -> & Hb); [lia..|].
  exists b. split; [done|]. intros E. specialize (Hb E). lia.
Qed.

(** A character that is not NUL. *)
Definition visible (ch : ascii) : bool := negb (bool_decide (ch = NUL)).

Lemma StrPrefix_frame l i s o :
  forallb visible l = true → inside s → 0 <= i → s.(mangled_cur) + i <= len →
  ∃ b, StrPrefix mangled l i s o = Ret b s o.
Proof.
  revert i. induction l as [|ch l IH]; intros i Hl Hi Hpos Hlen; simpl; [by exists true|].
  simpl in Hl. apply andb_true_iff in Hl as [Hch Hl].
  apply negb_true_iff, bool_decide_eq_false in Hch.
  unfold rd. pose proof Hi as Hi'. unfold inside in Hi'.
  destruct (peek_inside (mangled_cur s + i)) as (d & -> & Hd); [lia|].
  case_decide as E; [|by exists false]. subst d. specialize (Hd Hch). apply IH; [done..|lia|lia].
Qed.

(** What [ParseIdentifier] appends leaves the cursor alone. *)
Lemma identifier_frame n s o :
  inside s → 0 <= n → s.(mangled_cur) + n <= len →
  match ifM (IdentifierIsAnonymousNamespace mangled n)
          (MaybeAppend mangled out_size "(anonymous namespace)")
          (get (λ s, MaybeAppendWithLength mangled out_size (Mangled s.(mangled_cur)) n)) s o with
  | Ret b s' _ => mangled_cur s' = mangled_cur s ∧ b = true
  | Stop f => f = ReadOutput ∨ f = WriteOutput
  | OutOfFuel => False
  end.
Proof.
  intros Hi Hn Hlen. unfold ifM, IdentifierIsAnonymousNamespace.
  assert (∃ b, (if 11 <? n then StrPrefix mangled (bytes "_GLOBAL__N_") 0 else ret false) s o
               = Ret b s o) as (b & ->).
  { destruct (11 <? n); [|by exists false]. apply StrPrefix_frame; [done..|].
    unfold inside in Hi. lia. }
  destruct b; [apply outputs_MaybeAppend|]. apply outputs_MaybeAppendWithLength.
  simpl. unfold inside in Hi. lia.
Qed.

Lemma good_ParseIdentifier m c n : 0 <= n → good 0 m c (ParseIdentifier mangled out_size n).
Proof.
  intros Hn s o Hi Hc Hm. unfold ParseIdentifier, andM.
  destruct (Z.eqb_spec n (-1)); [lia|]. unfold AtLeastNumCharsRemaining.
  destruct (at_least_spec (S (length mangled)) (mangled_cur s) n Hi) as (b & -> & Hb).
  { unfold inside, Demangle.len in *. lia. }
  destruct b; [|done]. specialize (Hb eq_refl).
  pose proof (identifier_frame n s o Hi Hn Hb) as H.
  destruct (ifM _ _ _ s o) as [b s1 o1|f|]; try done. destruct H as [E ->].
  unfold inside in *. simpl. rewrite E. split; [lia|]. lia.
Qed.

Lemma good_ParseSourceName m c : good 1 m c (ParseSourceName mangled out_size).
Proof.
  apply good_save. intros s Hi Hc. apply good_or; [|by apply good_restore].
  apply good_ParseNumber_out. intros n c' _ Hn. by apply good_ParseIdentifier.
Qed.

(** ** The other functions that call nobody *)

Lemma good_ParseCVQualifiers m c : good 1 m c (ParseCVQualifiers mangled).
Proof.
  intros s o Hi Hc Hm. unfold ParseCVQualifiers, get at 1.
  assert (∀ t m c, t ≠ NUL → good 0 m c (Optional (ParseOneCharToken mangled t))) as Ho
    by (intros; by apply good_optional, good_weaken, good_one).
  pose proof (good_and_lax 0 (len - mangled_cur s) (mangled_cur s) _ _
    (good_and_lax 0 _ _ _ _ (Ho "r"%char _ _ ltac:(done)) (Ho "V"%char _ _ ltac:(done)))
    (Ho "K"%char _ _ ltac:(done)) s o Hi (Z.le_refl _) (Z.le_refl _)) as H.
  unfold andM at 1. destruct ((_ &&& _ &&& _) s o) as [[] s1 o1|f|]; try done.
  - destruct H as (Hi1 & Hc1 & _). simpl. split; [done|]. split; [lia|].
    intros Hb%negb_true_iff%Z.eqb_neq. lia.
  - destruct H as (Hi1 & Hc1 & _). split; [done|]. split; [lia|done].
Qed.

(** Appending and then advancing over characters known to be there. *)
Lemma good_append_advance c k p s o :
  outputs p → 0 < k → inside s → c <= s.(mangled_cur) → s.(mangled_cur) + k <= len →
  match (p &&& advance k) s o with
  | Ret b s' _ => inside s' ∧ c <= s'.(mangled_cur) ∧ (b = true → c + 1 <= s'.(mangled_cur))
  | Stop f => f = ReadOutput ∨ f = WriteOutput
  | OutOfFuel => False
  end.
Proof.
  intros Hp Hk Hi Hc Hlen. unfold andM. specialize (Hp s o).
  destruct (p s o) as [b s1 o1|f|]; try done. destruct Hp as [E ->].
  simpl. unfold inside in *. simpl. rewrite E. lia.
Qed.

Lemma good_ParseBuiltinType m c : good 1 m c (ParseBuiltinType mangled out_size).
Proof.
  apply good_rd. intros ch _ s o Hi Hc Hm Hlt. destruct (builtin ch) as [name|] eqn:E.
  - apply good_append_advance; try done; [apply outputs_MaybeAppend|].
    destruct (decide (ch = NUL)) as [->|Hn]; [by vm_compute in E|]. specialize (Hlt Hn). lia.
  - apply (good_save 1 m c); try done. intros s1 Hi1 Hc1.
    apply good_or; [|by apply good_restore].
    apply good_and_strict; [lia|by apply good_one|].
    intros c' _. apply good_weaken, good_ParseSourceName.
Qed.

(** The calls, with the bound [m] for those made at once. *)
Ltac going leaf :=
  lazymatch goal with
  | |- ∀ _, _ => intro; going leaf
  | |- good _ _ _ (save _) => apply good_save; going leaf
  | |- good _ _ _ (_ ||| _) => apply good_or; going leaf
  | |- good _ _ _ (restore _) => apply good_restore; assumption
  | |- good _ _ _ (ret false) => apply good_false
  | |- good 0 _ _ (ret true) => apply good_true
  | |- good 0 _ _ (modify _) => apply good_modify; intro; simpl; (reflexivity || by case_match)
  | |- good 0 _ _ (MaybeAppend _ _ _) => apply good_outputs, outputs_MaybeAppend
  | |- good 1 _ _ (ParseOneCharToken _ _) => apply good_one; discriminate
  | |- good 1 _ _ (ParseTwoCharToken _ _ _) => apply good_two; discriminate
  | |- good 1 _ _ (ParseCharClass _ _) => apply good_class; reflexivity
  | |- good 1 _ _ (ParseNumber _) => apply good_ParseNumber
  | |- good 1 _ _ (parse_run _ _) => apply good_parse_run
  | |- good 1 _ _ (ParseSourceName _ _) => apply good_ParseSourceName
  | |- good 1 _ _ (ParseBuiltinType _ _) => apply good_ParseBuiltinType
  | |- good 1 _ _ (ParseCVQualifiers _) => apply good_ParseCVQualifiers
  | |- good 0 _ _ (Optional _) => apply good_optional; going leaf
  | |- good 0 _ _ (if ?b then _ else _) => destruct b; going leaf
  | |- good 1 _ _ (_ &&& _) =>
      first [ solve [apply good_and_strict; [lia|going leaf|going leaf]]
            | apply good_and_lax; going leaf ]
  | |- good 0 _ _ (_ &&& _) => apply good_and_lax; going leaf
  | |- _ => first [ solve [leaf] | apply good_weaken; going leaf ]
  end.

Ltac no_leaf := fail.

Lemma good_ParseDiscriminator m c : good 1 m c (ParseDiscriminator mangled).
Proof. unfold ParseDiscriminator. going no_leaf. Qed.

Lemma good_ParseLocalSourceName m c : good 1 m c (ParseLocalSourceName mangled out_size).
Proof.
  unfold ParseLocalSourceName. going ltac:(apply good_ParseDiscriminator).
Qed.

Lemma good_ParseCallOffset m c : good 1 m c (ParseCallOffset mangled).
Proof. unfold ParseCallOffset, ParseVOffset, ParseNVOffset. going no_leaf. Qed.

Lemma good_ParseTemplateParam m c : good 1 m c (ParseTemplateParam mangled out_size).
Proof. unfold ParseTemplateParam. going no_leaf. Qed.

Lemma good_ctor_name m c n p :
  good 0 m c (MaybeAppendWithLength mangled out_size (Output p) n).
Proof. by apply good_outputs, outputs_MaybeAppendWithLength. Qed.

Lemma good_get st m c k : (∀ s, good st m c (k s)) → good st m c (get k).
Proof. intros H s o. apply H. Qed.

Lemma good_ParseCtorDtorName m c : good 1 m c (ParseCtorDtorName mangled out_size).
Proof.
  unfold ParseCtorDtorName.
  going ltac:(apply good_get; intro; (apply good_ctor_name ||
    (apply good_and_lax; [apply good_outputs, outputs_MaybeAppend|apply good_ctor_name]))).
Qed.

Lemma good_abbreviation m c :
  good 1 m c (rd mangled 0 (λ ch,
    match substitution ch with
    | Some real_name =>
        MaybeAppend mangled out_size "std" &&&
        (if decide (real_name = "") then ret true
         else MaybeAppend mangled out_size "::" &&& MaybeAppend mangled out_size real_name)
        &&& advance 1
    | None => ret false
    end)).
Proof.
  apply good_rd. intros ch _ s o Hi Hc Hm Hlt. destruct (substitution ch) as [name|] eqn:E; [|done].
  apply good_append_advance; try done.
  - apply outputs_andM; [apply outputs_MaybeAppend|]. case_decide; [apply outputs_ret|].
    apply outputs_andM; apply outputs_MaybeAppend.
  - destruct (decide (ch = NUL)) as [->|Hn]; [by vm_compute in E|]. specialize (Hlt Hn). lia.
Qed.

Lemma good_ParseSubstitution m c : good 1 m c (ParseSubstitution mangled out_size).
Proof.
  unfold ParseSubstitution, ParseSeqId. going ltac:(apply good_abbreviation).
Qed.

(** ** The mutually recursive functions *)

(** How far down the chain of calls that consume nothing a function is. *)
Definition rank (f : Func) : Z :=
  match f with
  | FMangledName | FNestedName | FOperatorName | FSpecialName | FFunctionType | FArrayType
  | FPointerToMemberType | FTemplateArgs | FExprPrimary | FLocalName => 0
  | FUnqualifiedName | FExpression => 1
  | FUnscopedName => 2
  | FUnscopedTemplateName | FPrefix _ => 3
  | FName => 4
  | FEncoding | FClassEnumType => 5
  | FType => 6
  | FBareFunctionType | FWhileType | FTemplateArg => 7
  | FWhileTemplateArg => 8
  end.

Definition strict (f : Func) : Z := if is_loop f then 0 else 1.

(** Operator names: a cast, a vendor's operator, or two characters of the
    table. *)
Lemma good_ParseOperatorName rec m c :
  (∀ c', c + 1 <= c' → good 1 (m - 1) c' (rec FType)) →
  good 1 m c (ParseOperatorName mangled out_size rec).
Proof.
  intros Hrec s o Hi Hc Hm. unfold ParseOperatorName, andM at 1, AtLeastNumCharsRemaining.
  destruct (at_least_spec (S (length mangled)) (mangled_cur s) 2 Hi) as (b & -> & Hb).
  { unfold inside, Demangle.len in *. lia. }
  destruct b; [|done]. clear Hb. revert s o Hi Hc Hm. apply good_save. intros s Hi Hc.
  apply good_or; [unfold EnterNestedName, LeaveNestedName;
    going ltac:(first [by apply Hrec | apply good_weaken; by apply Hrec])|].
  apply good_rd. intros ch _ s1 o1 Hi1 Hc1 Hm1 Hlt. destruct (IsLower ch) eqn:El; [|done].
  assert (ch ≠ NUL) as Hn by (by intros ->). specialize (Hlt Hn).
  unfold rd. destruct (peek_inside (mangled_cur s1 + 1)) as (d & -> & Hd);
    [unfold inside in Hi1; lia|].
  destruct (IsAlpha d) eqn:Ea; [|done].
  assert (d ≠ NUL) as Hnd by (by intros ->). specialize (Hd Hnd).
  destruct (operator ch d) as [name|]; [|done].
  apply good_append_advance; try done; [|lia].
  apply outputs_andM; [apply outputs_andM|]; [apply outputs_MaybeAppend| |apply outputs_MaybeAppend].
  destruct (lower_name name); [apply outputs_MaybeAppend|apply outputs_ret].
Qed.

Lemma good_MaybeAppendSeparator m c : good 0 m c (MaybeAppendSeparator mangled out_size).
Proof.
  apply good_outputs, outputs_get. intros s.
  destruct (1 <=? _); [apply outputs_MaybeAppend|apply outputs_ret].
Qed.

Lemma good_MaybeCancelLastSeparator m c : good 0 m c MaybeCancelLastSeparator.
Proof.
  apply good_outputs, outputs_get. intros s. destruct (_ && _); [|apply outputs_ret].
  apply outputs_andM; [by apply outputs_modify|apply outputs_wr].
Qed.

(** The calls that are not shared by all of the body's cases. *)
#[local] Ltac body_leaf H :=
  idtac; lazymatch goal with
  | |- good _ _ _ (ParseTemplateParam _ _) => apply good_ParseTemplateParam
  | |- good _ _ _ (ParseSubstitution _ _) => apply good_ParseSubstitution
  | |- good _ _ _ (ParseCtorDtorName _ _) => apply good_ParseCtorDtorName
  | |- good _ _ _ (ParseLocalSourceName _ _) => apply good_ParseLocalSourceName
  | |- good _ _ _ (ParseCallOffset _) => apply good_ParseCallOffset
  | |- good _ _ _ (ParseDiscriminator _) => apply good_ParseDiscriminator
  | |- good _ _ _ (MaybeAppendSeparator _ _) => apply good_MaybeAppendSeparator
  | |- good _ _ _ MaybeCancelLastSeparator => apply good_MaybeCancelLastSeparator
  | |- good _ ?m ?c (_ ?f) => apply (H f m c); unfold rank; lia
  end.

Lemma body_good F rec m c :
  (∀ f m' c', 9 * m' + rank f < 9 * m + rank F → good (strict f) m' c' (rec f)) →
  good (strict F) m c (body mangled out_size rec F).
Proof.
  intros Hrec. destruct F; simpl body; unfold strict; simpl is_loop; cbv iota;
    unfold ParseMangledName, ParseEncoding, ParseName, ParseUnscopedName,
      ParseUnscopedTemplateName, ParseNestedName, ParsePrefix, ParseUnqualifiedName,
      ParseSpecialName, ParseType, ParseFunctionType,
      ParseBareFunctionType, ParseClassEnumType, ParseArrayType, ParsePointerToMemberType,
      ParseTemplateArgs, ParseTemplateArg, ParseExpression, ParseExprPrimary, ParseLocalName,
      ParseTemplateTemplateParam, ParseFloatNumber, While,
      MaybeIncreaseNestLevel, EnterNestedName, LeaveNestedName, DisableAppend, RestoreAppend.
  all: try (going ltac:(body_leaf Hrec)).
  - apply good_and_lax; [apply good_MaybeAppendSeparator|]. apply good_if.
    + going ltac:(body_leaf Hrec).
    + going ltac:(body_leaf Hrec).
    + apply good_and_lax; [apply good_MaybeCancelLastSeparator|].
      apply good_if; [|going ltac:(body_leaf Hrec)..].
      destruct has_something; going ltac:(body_leaf Hrec).
  - apply good_ParseOperatorName. going ltac:(body_leaf Hrec).
  - apply good_if; going ltac:(body_leaf Hrec).
  - apply good_if; going ltac:(body_leaf Hrec).
Qed.

Lemma run_good fuel f m c :
  9 * m + rank f < Z.of_nat fuel → good (strict f) m c (run mangled out_size fuel f).
Proof.
  revert f m c. induction fuel as [|fuel IH]; intros f m c Hm.
  { intros s o Hi Hc Hl. unfold inside in Hi. assert (0 <= rank f) by (by destruct f). lia. }
  apply (body_good f (run mangled out_size fuel)). intros f' m' c' Hf. apply IH. lia.
Qed.

Lemma top_good fuel :
  (enough (length mangled) <= fuel)%nat →
  good 0 len 0 (ParseTopLevelMangledName mangled out_size fuel).
Proof.
  intros Hf. unfold ParseTopLevelMangledName. apply good_and_lax.
  - apply good_weaken, (run_good fuel FMangledName).
    unfold enough, Demangle.len, rank in *. lia.
  - intros s o Hi Hc Hm. rewrite rest_eq by done. unfold inside in Hi.
    destruct (drop _ _) as [|ch l] eqn:E; [by apply (good_true len 0)|].
    destruct (IsFunctionCloneSuffix _); [by apply (good_true len 0)|].
    case_decide; [|by apply (good_false 0 len 0)].
    unfold MaybeAppendRest, get. destruct (append s); [|by apply (good_true len 0)].
    apply (good_outputs len 0); try done. apply outputs_MaybeAppendWithLength. simpl. lia.
Qed.
End Good.

Lemma Demangle_safe mangled out_size fuel out :
  Z.of_nat (length out) = Z.max 0 out_size →
  match Demangle mangled out_size fuel out with
  | Ret _ s o => length o = length out ∧ 0 <= s.(out_cur) <= Z.max 0 (out_size - 1)
  | Stop f => f ≠ WriteOutput
  | OutOfFuel => True
  end.
Proof.
  intros Ho. unfold Demangle.
  assert (safe out_size (ParseTopLevelMangledName mangled out_size fuel &&&
    get (λ s, ret (negb s.(overflowed))))) as H.
  { apply safe_andM; [|by apply safe_get; intros; apply safe_ret].
    apply safe_andM; [apply run_safe|]. apply safe_rest. intros l.
    repeat case_match; try apply safe_ret. unfold MaybeAppendRest. apply safe_get.
    intros s _. case_match; [apply safe_MaybeAppendWithLength|apply safe_ret]. }
  specialize (H InitState out).
  destruct ((ParseTopLevelMangledName mangled out_size fuel &&& _) InitState out) as [b s o|f|];
    [|apply H; split; [unfold cur_ok; simpl; lia|done]|done].
  destruct H as [Hc Hl]; [split; [unfold cur_ok; simpl; lia|done]|].
  unfold cur_ok in Hc. split; [lia|done].
Qed.

(** * Theorems *)

(** C19: whatever the name, however large or small the buffer, and however far
    the parsing gets, the demangler writes no byte outside the buffer: the
    buffer keeps its length, and no write is out of bounds. *)
Theorem Demangle_writes_inside mangled out_size fuel out :
  Z.of_nat (length out) = Z.max 0 out_size →
  match Demangle mangled out_size fuel out with
  | Ret _ s o => length o = length out ∧ 0 <= s.(out_cur) <= Z.max 0 (out_size - 1)
  | Stop f => f ≠ WriteOutput
  | OutOfFuel => True
  end.
Proof. apply Demangle_safe. Qed.

(** The contract the source states for its parsing functions, which all
    but [ParseMangledName] keep among the mutually recursive ones: a function
    that returns false leaves the state as it was - cursors, nesting, append
    mode and overflow flag - whatever it tried. *)
Theorem failed_parse_keeps_state mangled out_size fuel f s o s' o' :
  f ≠ FMangledName → run mangled out_size fuel f s o = Ret false s' o' → s' = s.
Proof. intros Hf. by apply run_keeps. Qed.

(** C20: on a name without negative or overflowing numbers the demangler
    returns, with a depth of calls of at most nine times the length of the
    name plus ten; the one thing it may do wrong is to read outside the output
    buffer. *)
Theorem Demangle_terminates mangled out_size fuel out :
  numbers_ok mangled = true → Z.of_nat (length out) = Z.max 0 out_size →
  (enough (length mangled) <= fuel)%nat →
  (∃ b s o, Demangle mangled out_size fuel out = Ret b s o) ∨
  Demangle mangled out_size fuel out = Stop ReadOutput.
Proof.
  intros Hok Ho Hf. pose proof (Demangle_safe mangled out_size fuel out Ho) as Hw.
  assert (good mangled 0 (len mangled) 0 (ParseTopLevelMangledName mangled out_size fuel &&&
    get (λ s, ret (negb s.(overflowed))))) as H.
  { apply good_and_lax; [by apply top_good|]. intros s o Hi Hc _. simpl. split; [done|]. lia. }
  specialize (H InitState out). unfold Demangle in *.
  destruct ((ParseTopLevelMangledName mangled out_size fuel &&& _) InitState out) as [b s o|f|].
  - left. by exists b, s, o.
  - right. destruct H as [-> | ->]; [split; simpl; unfold len; lia|simpl; lia|lia|done|done].
  - destruct H; [split; simpl; unfold len; lia|simpl; lia|lia].
Qed.

Lemma Demangle_terminates_witness :
  ∃ b s o, Demangle (bytes "_ZN3FooC1Ev") 11 109 (repeat NUL 11) = Ret b s o ∧
    length o = 11%nat.
Proof.
  pose proof (Demangle_safe (bytes "_ZN3FooC1Ev") 11 109 (repeat NUL 11) eq_refl) as Hw.
  destruct (Demangle_terminates (bytes "_ZN3FooC1Ev") 11 109 (repeat NUL 11))
    as [(b & s & o & E)|E]; [reflexivity|reflexivity|by apply Nat.leb_le| |].
  - exists b, s, o. split; [exact E|]. rewrite E in Hw. exact (proj1 Hw).
  - vm_compute in E. discriminate.
Defined.

Lemma Demangle_writes_inside_witness :
  match Demangle (bytes "_Z6foobarv") 8 200 (repeat NUL 8) with
  | Ret b _ o => b = false ∧ length o = 8%nat
  | _ => False
  end.
Proof.
  pose proof (Demangle_writes_inside (bytes "_Z6foobarv") 8 200 (repeat NUL 8) eq_refl) as H.
  destruct (Demangle (bytes "_Z6foobarv") 8 200 (repeat NUL 8)) as [b s o|f|] eqn:E.
  - split; [|exact (proj1 H)]. vm_compute in E. injection E as <- _ _. reflexivity.
  - vm_compute in E. discriminate.
  - vm_compute in E. discriminate.
Defined.

Lemma failed_parse_keeps_state_witness :
  ∃ s o o', run (bytes "9x") 4 100 FType s o = Ret false s o' ∧ s = set_out 1 InitState.
Proof.
  destruct (run (bytes "9x") 4 100 FType (set_out 1 InitState) (repeat NUL 4)) as [b s' o'|f|] eqn:E;
    [|vm_compute in E; discriminate..].
  assert (b = false) as -> by (vm_compute in E; congruence).
  pose proof (failed_parse_keeps_state (bytes "9x") 4 100 FType _ _ s' o' ltac:(discriminate) E) as ->.
  exists (set_out 1 InitState), (repeat NUL 4), o'. split; [exact E|reflexivity].
Defined.

(** * Malformed names *)

Section Backwards.
Variable out_size : Z.
#[local] Abbreviation back := (bytes "_ZNn2").

(** A literal that does not start with [<] is appended without a fault. *)
Lemma append_lit n i l s o :
  out_ok out_size s o →
  ∃ s' o', append_loop back out_size n i (Lit l) s o = Ret true s' o' ∧
    out_ok out_size s' o' ∧ mangled_cur s' = mangled_cur s ∧
    (0 < out_size ∨ n = 0%nat ∨ overflowed s' = true).
Proof.
  intros Hs. pose proof (append_loop_ok back out_size n i (Lit l) s o Hs) as Hok.
  assert (∃ s' o', append_loop back out_size n i (Lit l) s o = Ret true s' o' ∧
    mangled_cur s' = mangled_cur s) as (s' & o' & E & Hc).
  { clear Hok. revert i s o Hs. induction n as [|n IH]; intros i s o [Hc Ho]; simpl; [eauto|].
    destruct (Z.ltb_spec (out_cur s + 1) out_size); [|by eauto].
    unfold cur_ok in Hc. unfold andM at 1 2. rewrite (wr_ok out_size) by lia. simpl.
    edestruct (IH (i + 1)) as (s' & o' & -> & Hm); [|by eauto].
    split; [unfold cur_ok; simpl; lia|by rewrite length_insert]. }
  rewrite E in Hok. exists s', o'. naive_solver.
Qed.

Lemma separator_ok s o :
  out_ok out_size s o →
  ∃ s' o', MaybeAppendSeparator back out_size s o = Ret true s' o' ∧
    out_ok out_size s' o' ∧ mangled_cur s' = mangled_cur s.
Proof.
  intros Hs. unfold MaybeAppendSeparator, get. destruct (1 <=? _); [|by eauto].
  unfold MaybeAppend, get. destruct (append s) eqn:Ea; [|by eauto].
  unfold MaybeAppendWithLength, get. rewrite Ea. simpl. unfold first. simpl.
  unfold andM at 1 2. simpl. unfold Append, andM, get.
  match goal with |- context [append_loop ?m _ ?n ?i (Lit ?l) _ _] =>
    change m with back; destruct (append_lit n i l s o Hs) as (s1 & o1 & -> & [Hc Ho] & Hm & Hp)
  end.
  destruct (overflowed s1) eqn:Ev; [by exists s1, o1|].
  unfold cur_ok in Hc. rewrite (wr_ok out_size) by (destruct Hp as [?|[?|?]]; [lia|done|congruence]).
  eexists _, _. split; [done|]. split; [|done]. split; [done|]. by rewrite length_insert.
Qed.

(** The identifier [n2]: a length of minus two, two characters back. *)
Lemma unscoped_goes_back fuel s o :
  mangled_cur s = 3 →
  run back out_size fuel FUnscopedName s o =
    if (fuel <? 3)%nat then OutOfFuel else Ret true s o.
Proof.
  destruct s as [mc oc pn pl nl ap ov]; simpl. intros ->.
  destruct fuel as [|[|[|fuel]]]; [reflexivity..|]. destruct ap; reflexivity.
Qed.

Lemma prefix_never_ends fuel b s o :
  mangled_cur s = 3 → out_ok out_size s o → run back out_size fuel (FPrefix b) s o = OutOfFuel.
Proof.
  revert b s o. induction fuel as [|fuel IH]; intros b s o Hc Ho; [done|].
  change (body back out_size (run back out_size fuel) (FPrefix b) s o = OutOfFuel).
  cbn [body]. unfold ParsePrefix. unfold andM at 1.
  destruct (separator_ok s o Ho) as (s1 & o1 & -> & Ho1 & Hc1). rewrite Hc in Hc1.
  unfold ifM at 1. unfold orM at 1.
  assert ((ParseTemplateParam back out_size ||| ParseSubstitution back out_size) s1 o1
    = Ret false s1 o1) as ->.
  { destruct s1 as [mc oc pn pl nl ap ov]; simpl in Hc1. subst mc. reflexivity. }
  rewrite unscoped_goes_back by done. destruct (fuel <? 3)%nat eqn:E; [done|].
  unfold andM, MaybeIncreaseNestLevel, modify.
  destruct (-1 <? nest_level s1); apply IH; done.
Qed.

Lemma out_and p q s o : p s o = OutOfFuel → (p &&& q) s o = OutOfFuel.
Proof. intros H. unfold andM. by rewrite H. Qed.

Lemma out_or p q s o : p s o = OutOfFuel → (p ||| q) s o = OutOfFuel.
Proof. intros H. unfold orM. by rewrite H. Qed.

Lemma nested_never_ends fuel out :
  Z.of_nat (length out) = Z.max 0 out_size →
  run back out_size (S fuel) FNestedName (set_cur 2 InitState) out = OutOfFuel.
Proof.
  intros Ho. change (run back out_size (S fuel) FNestedName) with
    (ParseNestedName back (run back out_size fuel)).
  unfold ParseNestedName, save. apply out_or, out_and, out_and. unfold andM at 1.
  assert ((ParseOneCharToken back "N" &&& EnterNestedName &&& Optional (ParseCVQualifiers back))
    (set_cur 2 InitState) out = Ret true (set_nest 0 (set_cur 3 InitState)) out) as -> by done.
  apply prefix_never_ends; [done|]. split; [unfold cur_ok; simpl; lia|done].
Qed.
End Backwards.

(** The demangler does not return on every name: on [_ZNn2], whatever the
    buffer and however much fuel it gets, it never returns - the negative
    length of the identifier [n2] takes the cursor back to where the
    identifier starts. *)
Theorem Demangle_may_not_return out_size fuel out :
  Z.of_nat (length out) = Z.max 0 out_size →
  Demangle (bytes "_ZNn2") out_size fuel out = OutOfFuel.
Proof.
  intros Ho. unfold Demangle, ParseTopLevelMangledName.
  assert (run (bytes "_ZNn2") out_size fuel FMangledName InitState out = OutOfFuel) as H.
  { destruct fuel as [|[|[|[|fuel]]]]; [reflexivity..|].
    unfold run; fold run. cbn [body]. unfold ParseMangledName, andM.
    change (ParseTwoCharToken (bytes "_ZNn2") "_" "Z" InitState out)
      with (Ret true (set_cur 2 InitState) out). cbv iota.
    unfold ParseEncoding, save. apply out_or, out_or, out_and.
    unfold ParseName. apply out_or, out_or. by apply nested_never_ends. }
  unfold andM. by rewrite H.
Qed.

Lemma Demangle_may_not_return_witness :
  Demangle (bytes "_ZNn2") 256 1000000 (repeat NUL 256) = OutOfFuel.
Proof. apply Demangle_may_not_return. reflexivity. Defined.

(** Three more malformed names: a negative length that takes the cursor in
    front of the name; a name that is demangled, successfully, to nothing at
    all - not even a terminator, so that the caller reads what the buffer held
    before; and a constructor whose class name did not fit into the buffer,
    for which the demangler reads beyond the end of the buffer. *)
Theorem Demangle_malformed_names :
  Demangle (bytes "_Zn9") 16 100 (repeat NUL 16) = Stop ReadMangled ∧
  (∃ s, Demangle (bytes "_ZNE") 4 100 (bytes "xxxx") = Ret true s (bytes "xxxx")) ∧
  Demangle (bytes "_ZTIDtsrN1a5bbbbbEC1E") 4 1000 (repeat NUL 4) = Stop ReadOutput.
Proof.
  split; [vm_compute; reflexivity|]. split; [eexists; vm_compute; reflexivity|].
  vm_compute; reflexivity.
Qed.

(** * The names of the unit test *)

(** [DemangleIt] of [demangle_unittest.cc], with its buffer of 4096 bytes. *)
Definition DemangleIt (mangled : string) : string := default mangled (demangled mangled 4096).

(** The pairs of [demangle_unittest.txt]. *)
Definition unittest_pairs : list (string * string) :=
  [
   ("_ZN3FooC1Ev", "Foo::Foo()");
   ("_ZN3FooD1Ev", "Foo::~Foo()");
   ("_ZNSoD0Ev", "std::ostream::~ostream()");
   ("_ZTCN10LogMessage9LogStreamE0_So", "LogMessage::LogStream");
   ("_ZTv0_n12_N10LogMessage9LogStreamD0Ev", "LogMessage::LogStream::~LogStream()");
   ("_ZThn4_N7icu_3_410UnicodeSetD0Ev", "icu_3_4::UnicodeSet::~UnicodeSet()");
   ("_ZN7NSSInfoI5groupjjXadL_Z10getgrgid_rEELZ19nss_getgrgid_r_nameEEC1Ei", "NSSInfo<>::NSSInfo()");
   ("main", "main");
   ("Demangle", "Demangle");
   ("_ZERO", "_ZERO");
   ("_Zcviv", "operator int()");
   ("_ZN3foocviEv", "foo::operator int()");
   ("_Z3Foo@GLIBCXX_3.4", "Foo@GLIBCXX_3.4");
   ("_Z3Foo@@GLIBCXX_3.4", "Foo@@GLIBCXX_3.4");
   ("_ZNSaE", "std::allocator");
   ("_ZNSbE", "std::basic_string");
   ("_ZNSdE", "std::iostream");
   ("_ZNSiE", "std::istream");
   ("_ZNSoE", "std::ostream");
   ("_ZNSsE", "std::string");
   ("_ZN3fooS_E", "foo::?");
   ("_ZN3foo3barS0_E", "foo::bar::?");
   ("_ZNcvT_IiEEv", "operator ?<>()");
   ("_ZlsI3fooE", "operator<< <>");
   ("_ZN3FooISt6vectorISsSaISsEEEclEv", "Foo<>::operator()()");
   ("_ZTI9Callback1IiE", "Callback1<>");
   ("_ZN7icu_3_47UMemorynwEj", "icu_3_4::UMemory::operator new()");
   ("_ZNSt6vectorIbE9push_backE", "std::vector<>::push_back");
   ("_ZNSt6vectorIbSaIbEE9push_backEb", "std::vector<>::push_back()");
   ("_ZlsRSoRK15PRIVATE_Counter", "operator<<()");
   ("_ZSt6fill_nIPPN9__gnu_cxx15_Hashtable_nodeISt4pairIKPKcjEEEjS8_ET_SA_T0_RKT1_", "std::fill_n<>()");
   ("_ZZ3FoovE3Bar", "Foo()::Bar");
   ("_ZGVZ7UpTimervE8up_timer", "UpTimer()::up_timer");
   ("_Z1fA37_iPS_", "f()");
   ("_Z1fAszL_ZZNK1N1A1fEvE3foo_0E_i", "f()");
   ("_Z1fI1APS0_PKS0_EvT_T0_T1_PA4_S3_M1CS8_", "f<>()");
   ("_Z1fI1XENT_1tES2_", "f<>()");
   ("_Z1fI1XEvPVN1AIT_E1TE", "f<>()");
   ("_Z1fILi1ELc120EEv1AIXplT_cviLd4028ae147ae147aeEEE", "f<>()");
   ("_Z1fILi1ELc120EEv1AIXplT_cviLf3f800000EEE", "f<>()");
   ("_Z1fILi5E1AEvN1CIXqugtT_Li0ELi1ELi2EEE1qE", "f<>()");
   ("_Z1fILi5E1AEvN1CIXstN1T1tEEXszsrS2_1tEE1qE", "f<>()");
   ("_Z1fILi5EEvN1AIXcvimlT_Li22EEE1qE", "f<>()");
   ("_Z1fIiEvi", "f<>()");
   ("_Z1fKPFiiE", "f()");
   ("_Z1fM1AFivEPS0_", "f()");
   ("_Z1fM1AKFivE", "f()");
   ("_Z1fM1AKFvvE", "f()");
   ("_Z1fPFPA1_ivE", "f()");
   ("_Z1fPFYPFiiEiE", "f()");
   ("_Z1fPFvvEM1SFvvE", "f()");
   ("_Z1fPKM1AFivE", "f()");
   ("_Z1fi", "f()");
   ("_Z1fv", "f()");
   ("_Z1jM1AFivEPS1_", "j()");
   ("_Z1rM1GFivEMS_KFivES_M1HFivES1_4whatIKS_E5what2IS8_ES3_", "r()");
   ("_Z1sPA37_iPS0_", "s()");
   ("_Z1xINiEE", "_Z1xINiEE");
   ("_Z3absILi11EEvv", "abs<>()");
   ("_Z3foo3bar", "foo()");
   ("_Z3foo5Hello5WorldS0_S_", "foo()");
   ("_Z3fooA30_A_i", "foo()");
   ("_Z3fooIA6_KiEvA9_KT_rVPrS4_", "foo<>()");
   ("_Z3fooILi2EEvRAplT_Li1E_i", "foo<>()");
   ("_Z3fooIiFvdEiEvv", "foo<>()");
   ("_Z3fooPM2ABi", "foo()");
   ("_Z3fooc", "foo()");
   ("_Z3fooiPiPS_PS0_PS1_PS2_PS3_PS4_PS5_PS6_PS7_PS8_PS9_PSA_PSB_PSC_", "foo()");
   ("_Z3kooPA28_A30_i", "koo()");
   ("_Z4makeI7FactoryiET_IT0_Ev", "make<>()");
   ("_Z5firstI3DuoEvS0_", "first<>()");
   ("_Z5firstI3DuoEvT_", "first<>()");
   ("_Z9hairyfuncM1YKFPVPFrPA2_PM1XKFKPA3_ilEPcEiE", "hairyfunc()");
   ("_ZGVN5libcw24_GLOBAL__N_cbll.cc0ZhUKa23compiler_bug_workaroundISt6vectorINS_13omanip_id_tctINS_5debug32memblk_types_manipulator_data_ctEEESaIS6_EEE3idsE", "libcw::(anonymous namespace)::compiler_bug_workaround<>::ids");
   ("_ZN12libcw_app_ct10add_optionIS_EEvMT_FvPKcES3_cS3_S3_", "libcw_app_ct::add_option<>()");
   ("_ZN1AIfEcvT_IiEEv", "A<>::operator ?<>()");
   ("_ZN1N1TIiiE2mfES0_IddE", "N::T<>::mf()");
   ("_ZN1N1fE", "N::f");
   ("_ZN1f1fE", "f::f");
   ("_ZN3FooIA4_iE3barE", "Foo<>::bar");
   ("_ZN5Arena5levelE", "Arena::level");
   ("_ZN5StackIiiE5levelE", "Stack<>::level");
   ("_ZN5libcw5debug13cwprint_usingINS_9_private_12GlobalObjectEEENS0_17cwprint_using_tctIT_EERKS5_MS5_KFvRSt7ostreamE", "libcw::debug::cwprint_using<>()");
   ("_ZN6System5Sound4beepEv", "System::Sound::beep()");
   ("_ZNKSt14priority_queueIP27timer_event_request_base_ctSt5dequeIS1_SaIS1_EE13timer_greaterE3topEv", "std::priority_queue<>::top()");
   ("_ZNKSt15_Deque_iteratorIP15memory_block_stRKS1_PS2_EeqERKS5_", "std::_Deque_iterator<>::operator==()");
   ("_ZNKSt17__normal_iteratorIPK6optionSt6vectorIS0_SaIS0_EEEmiERKS6_", "std::__normal_iterator<>::operator-()");
   ("_ZNSbIcSt11char_traitsIcEN5libcw5debug27no_alloc_checking_allocatorEE12_S_constructIPcEES6_T_S7_RKS3_", "std::basic_string<>::_S_construct<>()");
   ("_ZNSt13_Alloc_traitsISbIcSt18string_char_traitsIcEN5libcw5debug9_private_17allocator_adaptorIcSt24__default_alloc_templateILb0ELi327664EELb1EEEENS5_IS9_S7_Lb1EEEE15_S_instancelessE", "std::_Alloc_traits<>::_S_instanceless");
   ("_ZNSt3_In4wardE", "std::_In::ward");
   ("_ZNZN1N1fEiE1X1gE", "_ZNZN1N1fEiE1X1gE");
   ("_ZNZN1N1fEiE1X1gEv", "_ZNZN1N1fEiE1X1gEv");
   ("_ZSt1BISt1DIP1ARKS2_PS3_ES0_IS2_RS2_PS2_ES2_ET0_T_SB_SA_PT1_", "std::B<>()");
   ("_ZSt5state", "std::state");
   ("_ZTI7a_class", "a_class");
   ("_ZZN1N1fEiE1p", "N::f()::p");
   ("_ZZN1N1fEiEs", "N::f()");
   ("_ZlsRK1XS1_", "operator<<()");
   ("_ZlsRKU3fooU4bart1XS0_", "operator<<()");
   ("_ZlsRKU3fooU4bart1XS2_", "operator<<()");
   ("_ZlsRSoRKSs", "operator<<()");
   ("_ZngILi42EEvN1AIXplT_Li2EEE1TE", "operator-<>()");
   ("_ZplR1XS0_", "operator+()");
   ("_Zrm1XS_", "operator%()")].

(** Every pair of names in the unit test's file is as the file says. *)
Theorem Demangle_unittest_file :
  ∀ mangled expected, (mangled, expected) ∈ unittest_pairs → DemangleIt mangled = expected.
Proof.
  assert (forallb (λ p, bool_decide (DemangleIt p.1 = p.2)) unittest_pairs = true) as H
    by (vm_compute; reflexivity).
  rewrite forallb_forall in H. intros m e Hin%list_elem_of_In. apply H in Hin.
  by apply bool_decide_eq_true in Hin.
Qed.

Lemma Demangle_unittest_file_witness : DemangleIt "_ZN3FooC1Ev" = "Foo::Foo()".
Proof. apply Demangle_unittest_file. apply list_elem_of_here. Defined.
