(* ===== verification/Vlog.v ===== *)
(** Verbose logging of glog ([src/lib/glog/src/vlog_is_on.cc]): the module
    patterns, their levels, and the pointers logging sites keep to them.

    A [VModuleInfo] lives at an address of [infos] and is never freed;
    [vmodule_list] is the chain of their addresses.  A site points to
    [FLAGS_v] or to the level of such a record. *)

From S2P Require Import Prelude Strings.
From stdpp Require Import base gmap list strings.
From Stdlib Require Import ZArith Ascii.

Open Scope Z_scope.

(** * Glob patterns *)

(** [SafeFNMatch_]: the loop moves along both arguments together, so it is the
    recursion on them; [loop] is the [do ... while (s != str_len)]. *)
Fixpoint SafeFNMatch_ (pattern str : list ascii) {struct pattern} : bool :=
  match pattern, str with
  | [], [] => true
  | [], _ :: _ => false
  | c :: p, [] => match p with [] => bool_decide (c = "*"%char) | _ => false end
  | c :: p, d :: s =>
      if bool_decide (c = d) || bool_decide (c = "?"%char) then SafeFNMatch_ p s
      else if decide (c = "*"%char) then
        match p with
        | [] => true
        | _ =>
            (fix loop (str : list ascii) : bool :=
               match str with
               | [] => false
               | _ :: s => SafeFNMatch_ p str || loop s
               end) (d :: s)
        end
      else false
  end.

Definition chars (s : string) : list ascii := String.list_ascii_of_string s.

(** * Module levels *)

Record VModuleInfo := mkInfo { module_pattern : string; vlog_level : Z }.

Record Globals := mkGlobals {
  FLAGS_v : Z;
  FLAGS_vmodule : string;
  inited_vmodule : bool;
  vmodule_list : list nat;
  infos : gmap nat VModuleInfo;
  next_info : nat
}.

Definition set_list (inited : bool) (l : list nat) (i : gmap nat VModuleInfo) (n : nat)
    (g : Globals) : Globals :=
  mkGlobals g.(FLAGS_v) g.(FLAGS_vmodule) inited l i n.

(** [strchr]: what comes before the first [c], and the rest from it on. *)
Fixpoint strchr (c : ascii) (s : string) : option (string * string) :=
  match s with
  | "" => None
  | String d s' =>
      if decide (d = c) then Some ("", s)
      else '(b, r) ← strchr c s'; Some (String d b, r)
  end.

Inductive Scan := NoMatch | Level (z : Z) | OutOfRange.

(** [sscanf(sep, "=%d", &module_level)]; a number beyond [int] is undefined. *)
Definition sscanf_level (sep : string) : Scan :=
  match sep with
  | String "=" s =>
      let s := skip_ws s in
      let '(neg, s) :=
        match s with
        | String "-" s' => (true, s')
        | String "+" s' => (false, s')
        | _ => (false, s)
        end in
      if starts_with_digit s then
        let v := (take_digits s 0).1 in
        let v := if neg : bool then - v else v in
        if decide (is_i32 v) then Level v else OutOfRange
      else NoMatch
  | _ => NoMatch
  end.

(** The loop of [VLOG2Initializer] over the flag: the records it makes, in
    order; [None] is an undefined conversion. *)
Fixpoint parse_vmodule (fuel : nat) (vmodule : string) : option (list VModuleInfo) :=
  match fuel with
  | O => Some []
  | S fuel =>
      match strchr "=" vmodule with
      | None => Some []
      | Some (pattern, sep) =>
          here ← match sscanf_level sep with
                 | Level l => Some [mkInfo pattern l]
                 | NoMatch => Some []
                 | OutOfRange => None
                 end;
          match strchr "," sep with
          | Some (_, String _ vmodule) => rest ← parse_vmodule fuel vmodule; Some (here ++ rest)
          | _ => Some here
          end
      end
  end.

(** Allocating the records: their addresses, and the store. *)
Fixpoint allocate (l : list VModuleInfo) (i : gmap nat VModuleInfo) (n : nat)
    : list nat * gmap nat VModuleInfo * nat :=
  match l with
  | [] => ([], i, n)
  | info :: l => let '(a, i, m) := allocate l (<[n := info]> i) (S n) in (n :: a, i, m)
  end.

Definition VLOG2Initializer (g : Globals) : option Globals :=
  l ← parse_vmodule (S (String.length g.(FLAGS_vmodule))) g.(FLAGS_vmodule);
  let '(a, i, n) := allocate l g.(infos) g.(next_info) in
  Some (set_list true (a ++ g.(vmodule_list)) i n g).

(** The loop of [SetVLOGLevel]: [result], [found] and the levels, along the
    list. *)
Fixpoint set_levels (module : string) (log_level : Z) (l : list nat)
    (result : Z) (found : bool) (i : gmap nat VModuleInfo)
    : Z * bool * gmap nat VModuleInfo :=
  match l with
  | [] => (result, found, i)
  | a :: l =>
      match i !! a with
      | None => set_levels module log_level l result found i
      | Some info =>
          if decide (info.(module_pattern) = module) then
            set_levels module log_level l
              (if found then result else info.(vlog_level)) true
              (<[a := mkInfo info.(module_pattern) log_level]> i)
          else if negb found && SafeFNMatch_ (chars info.(module_pattern)) (chars module) then
            set_levels module log_level l info.(vlog_level) true i
          else set_levels module log_level l result found i
      end
  end.

Definition SetVLOGLevel (module : string) (log_level : Z) (g : Globals) : Z * Globals :=
  let '(result, found, i) :=
    set_levels module log_level g.(vmodule_list) g.(FLAGS_v) false g.(infos) in
  (result,
   if found then set_list g.(inited_vmodule) g.(vmodule_list) i g.(next_info) g
   else set_list g.(inited_vmodule) (g.(next_info) :: g.(vmodule_list))
          (<[g.(next_info) := mkInfo module log_level]> i) (S g.(next_info)) g).

(** * Logging sites *)

(** What a site's [int32*] points to. *)
Inductive Site := Uninitialized | Default | Info (a : nat).

Definition kLogSiteUninitialized : Z := 1000.

Definition site_value (g : Globals) (s : Site) : Z :=
  match s with
  | Uninitialized => kLogSiteUninitialized
  | Default => g.(FLAGS_v)
  | Info a => match g.(infos) !! a with Some i => i.(vlog_level) | None => 0 end
  end.

(** What follows the last [/]. *)
Fixpoint basename (s : list ascii) : list ascii :=
  match s with
  | [] => []
  | c :: s' => if decide ("/"%char ∈ s') then basename s'
               else if decide (c = "/"%char) then s' else s
  end.

Fixpoint until_dot (s : list ascii) : list ascii :=
  match s with
  | [] => []
  | c :: s => if decide (c = "."%char) then [] else c :: until_dot s
  end.

(** The module of a file: its base name to the first dot, without [-inl]. *)
Definition module_of (fname : string) : list ascii :=
  let base := until_dot (basename (chars fname)) in
  let n := length base in
  if (4 <=? n)%nat && bool_decide (drop (n - 4) base = chars "-inl")
  then take (n - 4) base else base.

(** The first record whose pattern matches. *)
Fixpoint find_info (base : list ascii) (l : list nat) (i : gmap nat VModuleInfo) : Site :=
  match l with
  | [] => Default
  | a :: l =>
      match i !! a with
      | Some info =>
          if SafeFNMatch_ (chars info.(module_pattern)) base then Info a
          else find_info base l i
      | None => find_info base l i
      end
  end.

(** [InitVLOG3__], whose default is [FLAGS_v]: the globals, the site's pointer
    after the call, and the answer. *)
Definition InitVLOG3__ (site : Site) (fname : string) (verbose_level : Z) (g : Globals)
    : option (Globals * Site * bool) :=
  let read_vmodule_flag := g.(inited_vmodule) in
  g ← if read_vmodule_flag then Some g else VLOG2Initializer g;
  let flag := find_info (module_of fname) g.(vmodule_list) g.(infos) in
  Some (g, if read_vmodule_flag then flag else site,
        verbose_level <=? site_value g flag).

(** [VLOG_IS_ON(verboselevel)] at a site. *)
Definition VLOG_IS_ON (site : Site) (fname : string) (verbose_level : Z) (g : Globals)
    : option (Globals * Site * bool) :=
  if verbose_level <=? site_value g site then
    match site with
    | Uninitialized => InitVLOG3__ site fname verbose_level g
    | _ => Some (g, site, true)
    end
  else Some (g, site, false).

(** * What the patterns mean *)

Fixpoint no_double_star (p : list ascii) : bool :=
  match p with
  | "*"%char :: "*"%char :: _ => false
  | _ :: p => no_double_star p
  | [] => true
  end.

(** * Lemmas *)

Lemma glob_star_step p d s : glob ("*"%char :: p) s → glob ("*"%char :: p) (d :: s).
Proof.
  inversion 1; subst; [done|]. by apply (glob_star p (d :: s1) s2).
Qed.

(** The [do] loop is a search over the suffixes that are not empty. *)
Definition suffix_match (p : list ascii) : list ascii → bool :=
  fix loop (str : list ascii) : bool :=
    match str with
    | [] => false
    | _ :: s => SafeFNMatch_ p str || loop s
    end.

Lemma suffix_match_true p s :
  suffix_match p s = true ↔ ∃ s1 d s2, s = s1 ++ d :: s2 ∧ SafeFNMatch_ p (d :: s2) = true.
Proof.
  induction s as [|d s IH]; simpl; [split; [done|]|].
  { intros (s1 & d & s2 & E & _). by destruct s1. }
  rewrite orb_true_iff, IH. split.
  - intros [H|(s1 & e & s2 & -> & H)]; [by exists [], d, s|by exists (d :: s1), e, s2].
  - intros (s1 & e & s2 & E & H). destruct s1 as [|x s1]; simplify_eq/=; [by left|right; eauto].
Qed.

Lemma SafeFNMatch_cons c p d s :
  SafeFNMatch_ (c :: p) (d :: s) =
    if bool_decide (c = d) || bool_decide (c = "?"%char) then SafeFNMatch_ p s
    else if decide (c = "*"%char) then
      match p with [] => true | _ => suffix_match p (d :: s) end
    else false.
Proof. done. Qed.

Lemma glob_any_suffix s : glob ["*"%char] s.
Proof. rewrite <- (app_nil_r s). by apply glob_star, glob_nil. Qed.

Lemma SafeFNMatch_sound p s : SafeFNMatch_ p s = true → glob p s.
Proof.
  revert s. induction p as [|c p IH]; intros [|d s]; [constructor|done| |].
  - simpl. destruct p; [|done]. intros ->%bool_decide_eq_true. apply (glob_star [] []). constructor.
  - rewrite SafeFNMatch_cons.
    destruct (bool_decide (c = d)) eqn:Ed; simpl.
    + apply bool_decide_eq_true in Ed as ->. intros H%IH.
      destruct (decide (d = "*"%char)) as [->|Hn]; [by apply (glob_star p ["*"%char] s)|].
      by apply glob_char.
    + destruct (bool_decide (c = "?"%char)) eqn:Eq.
      { apply bool_decide_eq_true in Eq as ->. intros H%IH. by apply glob_any. }
      destruct (decide (c = "*"%char)) as [->|]; [|done]. destruct p as [|c p]; [intros _; apply glob_any_suffix|].
      intros H. apply (suffix_match_true (c :: p) (d :: s)) in H as (s1 & e & s2 & E & H).
      rewrite E. by apply glob_star, IH.
Qed.

Lemma glob_nil_inv p : glob p [] → p ≠ [] → ∃ p', p = "*"%char :: p'.
Proof. inversion 1; subst; [done|]. eauto. Qed.

Lemma SafeFNMatch_complete p s :
  glob p s → no_double_star p = true → "*"%char ∉ s → SafeFNMatch_ p s = true.
Proof.
  intros H. revert s H. induction p as [|c p IH]; intros s Hg Hp Hs; [by inversion Hg|].
  assert (no_double_star p = true) as Hp'.
  { destruct p as [|e p]; [done|]. simpl in Hp.
    destruct (decide (c = "*"%char)) as [->|]; [destruct (decide (e = "*"%char)) as [->|]|].
    - done.
    - by repeat (case_match; try done).
    - by repeat (case_match; try done). }
  inversion Hg as [|c' p' s' Hc Hg'|d p' s' Hg'|p' s1 s2 Hg']; subst.
  - rewrite SafeFNMatch_cons, bool_decide_eq_true_2 by done. simpl. apply IH; [done..|set_solver].
  - rewrite SafeFNMatch_cons, (bool_decide_eq_true_2 ("?"%char = "?"%char)), orb_true_r by done.
    apply IH; [done..|set_solver].
  - destruct (s1 ++ s2) as [|d s] eqn:E.
    { apply app_nil in E as [-> ->]. simpl. destruct p as [|e p]; [done|].
      destruct (glob_nil_inv _ Hg') as [p' Ep]; [done|]. by simplify_eq. }
    rewrite SafeFNMatch_cons, bool_decide_eq_false_2 by set_solver.
    rewrite bool_decide_eq_false_2 by done. simpl. destruct p as [|e p]; [done|].
    apply (suffix_match_true (e :: p) (d :: s)). destruct s2 as [|x s2].
    { destruct (glob_nil_inv _ Hg') as [p' Ep]; [done|]. by simplify_eq. }
    exists s1, x, s2. split; [done|]. apply IH; [done..|]. rewrite <- E in Hs. set_solver.
Qed.

(** The records of the list are there, each once, below the next address. *)
Record wf (g : Globals) : Prop := {
  wf_list : ∀ a, a ∈ g.(vmodule_list) → is_Some (g.(infos) !! a);
  wf_next : ∀ a info, g.(infos) !! a = Some info → (a < g.(next_info))%nat
}.

(** Whether a record applies to a module name, as [SetVLOGLevel] looks. *)
Definition applies (module : string) (info : VModuleInfo) : bool :=
  bool_decide (info.(module_pattern) = module)
  || SafeFNMatch_ (chars info.(module_pattern)) (chars module).

(** The level of the first record of the list that applies. *)
Fixpoint applied (module : string) (l : list nat) (i : gmap nat VModuleInfo) : option Z :=
  match l with
  | [] => None
  | a :: l =>
      match i !! a with
      | Some info => if applies module info then Some info.(vlog_level) else applied module l i
      | None => applied module l i
      end
  end.

(** A store after the level of the records named [module] in [l] was set. *)
Definition levelled (module : string) (log_level : Z) (l : list nat)
    (i i' : gmap nat VModuleInfo) : Prop :=
  ∀ a, i' !! a = match i !! a with
    | Some info =>
        if decide (a ∈ l ∧ info.(module_pattern) = module) then Some (mkInfo module log_level)
        else Some info
    | None => None
    end.

Lemma set_levels_spec module lvl l result (found : bool) i :
  let '(result', found', i') := set_levels module lvl l result found i in
  levelled module lvl l i i' ∧
  (found = true → found' = true ∧ result' = result) ∧
  (found = false → result' = default result (applied module l i) ∧
     found' = bool_decide (is_Some (applied module l i))).
Proof.
  revert result found i. induction l as [|a l IH]; intros result found i; simpl.
  { split; [|done]. intros a. destruct (i !! a); [|done]. rewrite decide_False; [done|].
    by intros [?%not_elem_of_nil _]. }
  assert (∀ j i', levelled module lvl l j i' →
    (∀ b, b ≠ a → j !! b = i !! b) →
    (j !! a = match i !! a with
              | Some info => if decide (info.(module_pattern) = module)
                             then Some (mkInfo module lvl) else Some info
              | None => None end) → levelled module lvl (a :: l) i i') as Hlev.
  { intros j i' H Hne Ha b. rewrite (H b). destruct (decide (b = a)) as [->|Hb].
    - rewrite Ha. destruct (i !! a) as [info|]; [|done].
      destruct (decide (module_pattern info = module)); simpl.
      + rewrite (decide_True (P := a ∈ a :: l ∧ _)) by (split; [by left|done]).
        by destruct (decide _).
      + by rewrite !decide_False by tauto.
    - rewrite (Hne b Hb). destruct (i !! b) as [info|]; [|done].
      destruct (decide (b ∈ l ∧ module_pattern info = module)) as [[? ?]|Hn];
        [rewrite decide_True by (split; [by right|done])
        |rewrite decide_False by (intros [[?|?]%elem_of_cons ?]; tauto)]; done. }
  destruct (i !! a) as [info|] eqn:E.
  - unfold applies. destruct (decide (module_pattern info = module)) as [Hm|Hm].
    + rewrite bool_decide_eq_true_2 by done. simpl.
      specialize (IH (if found then result else vlog_level info) true
        (<[a:=mkInfo (module_pattern info) lvl]> i)).
      destruct (set_levels _ _ _ _ _ _) as [[result' found'] i'].
      destruct IH as (H1 & H2 & _). destruct (H2 eq_refl) as [-> ->]. split.
      { apply (Hlev _ _ H1); [intros; by rewrite lookup_insert_ne|].
        rewrite lookup_insert_eq. by rewrite Hm. }
      split; [by intros ->|]. intros ->. done.
    + rewrite bool_decide_eq_false_2 by done. simpl.
      destruct (negb found && SafeFNMatch_ (chars (module_pattern info)) (chars module)) eqn:Es.
      * apply andb_true_iff in Es as [Hf%negb_true_iff ->]. subst found.
        specialize (IH (vlog_level info) true i). destruct (set_levels _ _ _ _ _ _) as [[r' f'] i'].
        destruct IH as (H1 & H2 & _). destruct (H2 eq_refl) as [-> ->]. split; [|done].
        by apply (Hlev _ _ H1).
      * specialize (IH result found i). destruct (set_levels _ _ _ _ _ _) as [[r' f'] i'].
        destruct IH as (H1 & H2 & H3). split; [by apply (Hlev _ _ H1)|]. split; [done|].
        intros ->. simpl in Es. rewrite Es. by apply H3.
  - specialize (IH result found i). destruct (set_levels _ _ _ _ _ _) as [[r' f'] i'].
    destruct IH as (H1 & H2 & H3). split; [|done]. by apply (Hlev _ _ H1).
Qed.

Lemma SetVLOGLevel_spec module lvl g :
  let '(result, g') := SetVLOGLevel module lvl g in
  ∃ i, levelled module lvl g.(vmodule_list) g.(infos) i ∧
    match applied module g.(vmodule_list) g.(infos) with
    | Some level => result = level ∧ g'.(infos) = i ∧ g'.(vmodule_list) = g.(vmodule_list) ∧
        g'.(next_info) = g.(next_info)
    | None => result = g.(FLAGS_v) ∧ g'.(infos) = <[g.(next_info) := mkInfo module lvl]> i ∧
        g'.(vmodule_list) = g.(next_info) :: g.(vmodule_list) ∧
        g'.(next_info) = S g.(next_info)
    end ∧ g'.(inited_vmodule) = g.(inited_vmodule) ∧ g'.(FLAGS_v) = g.(FLAGS_v).
Proof.
  unfold SetVLOGLevel.
  pose proof (set_levels_spec module lvl (vmodule_list g) (FLAGS_v g) false (infos g)) as H.
  destruct (set_levels _ _ _ _ _ _) as [[result found] i]. destruct H as (H1 & _ & H2).
  destruct (H2 eq_refl) as [-> ->]. exists i. split; [done|].
  by destruct (applied module (vmodule_list g) (infos g)).
Qed.

Lemma SetVLOGLevel_wf module lvl g : wf g → wf (SetVLOGLevel module lvl g).2.
Proof.
  intros [Hl Hn]. pose proof (SetVLOGLevel_spec module lvl g) as H.
  destruct (SetVLOGLevel module lvl g) as [result g']; simpl. destruct H as (i & Hi & H & _).
  assert (∀ a info, i !! a = Some info → is_Some (infos g !! a)) as Hback.
  { intros a info Ha. rewrite Hi in Ha. destruct (infos g !! a); [done|congruence]. }
  assert (∀ a, is_Some (infos g !! a) → is_Some (i !! a)) as Hforth.
  { intros a [info Ha]. rewrite Hi, Ha. case_decide; eauto. }
  destruct (applied _ _ _); destruct H as (_ & E1 & E2 & E3); split; rewrite ?E1, ?E2, ?E3.
  - intros a Ha. by apply Hforth, Hl.
  - intros a info Ha. apply Hback in Ha as [info' Ha]. by eapply Hn.
  - intros a Ha. rewrite lookup_insert. case_decide; [eauto|]. apply Hforth, Hl. set_solver.
  - intros a info. rewrite lookup_insert. case_decide; [lia|].
    intros Ha. apply Hback in Ha as [info' Ha]. apply Hn in Ha. lia.
Qed.

(** A record that is in the store keeps its place and its pattern. *)
Lemma SetVLOGLevel_keeps module lvl g a info :
  wf g → g.(infos) !! a = Some info → a ∈ g.(vmodule_list) →
  let g' := (SetVLOGLevel module lvl g).2 in
  g'.(infos) !! a = Some (mkInfo info.(module_pattern)
    (if decide (info.(module_pattern) = module) then lvl else info.(vlog_level))) ∧
  a ∈ g'.(vmodule_list).
Proof.
  intros [Hl Hn] Ha Hin. pose proof (SetVLOGLevel_spec module lvl g) as H.
  destruct (SetVLOGLevel module lvl g) as [result g']; simpl. destruct H as (i & Hi & H & _).
  assert (i !! a = Some (mkInfo info.(module_pattern)
    (if decide (info.(module_pattern) = module) then lvl else info.(vlog_level)))) as E.
  { rewrite Hi, Ha. destruct (decide (module_pattern info = module)) as [<-|Hm].
    - by rewrite decide_True.
    - rewrite decide_False by tauto. by destruct info. }
  destruct (applied _ _ _); destruct H as (_ & E1 & E2 & _); rewrite E1, E2; [done|].
  split; [|by right]. rewrite lookup_insert_ne; [done|]. apply Hn in Ha. lia.
Qed.

(** Calls of [SetVLOGLevel], the first one first. *)
Fixpoint set_all (calls : list (string * Z)) (g : Globals) : Globals :=
  match calls with
  | [] => g
  | (m, l) :: calls => set_all calls (SetVLOGLevel m l g).2
  end.

Lemma set_all_keeps calls g a info :
  wf g → g.(infos) !! a = Some info → a ∈ g.(vmodule_list) →
  wf (set_all calls g) ∧ a ∈ (set_all calls g).(vmodule_list) ∧
  ∃ lvl, (set_all calls g).(infos) !! a = Some (mkInfo info.(module_pattern) lvl).
Proof.
  revert g info. induction calls as [|[m l] calls IH]; intros g info Hg Ha Hin; simpl.
  { split; [done|]. split; [done|]. exists (vlog_level info). by destruct info. }
  destruct (SetVLOGLevel_keeps m l g a info Hg Ha Hin) as [Ha' Hin'].
  by apply (IH _ _ (SetVLOGLevel_wf m l g Hg) Ha' Hin').
Qed.

(** ** The [--vmodule] flag *)

(** An entry as the flag holds it. *)
Definition print_entry (e : VModuleInfo) : string :=
  e.(module_pattern) +:+ "=" +:+ to_string e.(vlog_level).

Fixpoint print_flag (l : list VModuleInfo) : string :=
  match l with
  | [] => ""
  | [e] => print_entry e
  | e :: l => print_entry e +:+ "," +:+ print_flag l
  end.

(** A pattern without separators and a level that is an [int]. *)
Definition entry_fits (e : VModuleInfo) : bool :=
  all_chars (λ c, negb (bool_decide (c = "="%char)) && negb (bool_decide (c = ","%char)))
    e.(module_pattern) && bool_decide (is_i32 e.(vlog_level)).

Lemma strchr_app c s t :
  all_chars (λ d, negb (bool_decide (d = c))) s = true →
  strchr c (s +:+ String c t) = Some (s, String c t).
Proof.
  induction s as [|d s IH]; simpl; [by rewrite decide_True|].
  intros [Hd%negb_true_iff%bool_decide_eq_false Hs]%andb_true_iff.
  rewrite decide_False by done. by rewrite IH.
Qed.

Lemma strchr_none c s : all_chars (λ d, negb (bool_decide (d = c))) s = true → strchr c s = None.
Proof.
  induction s as [|d s IH]; simpl; [done|].
  intros [Hd%negb_true_iff%bool_decide_eq_false Hs]%andb_true_iff.
  rewrite decide_False by done. by rewrite IH.
Qed.

Lemma sscanf_level_read_int s v r : read_int s = Some (v, r) → sscanf_level (String "=" s) = Level v.
Proof.
  unfold read_int, sscanf_level.
  set (p := match skip_ws s with String "-" s' => (true, s') | String "+" s' => (false, s')
            | _ => (false, skip_ws s) end).
  destruct p as [neg s']. destruct (starts_with_digit s'); [|done].
  destruct (take_digits s' 0) as [n r']. simpl. destruct (decide _); [|done]. by intros [= <- _].
Qed.

Lemma print_flag_cons e f l : print_flag (e :: f :: l) = print_entry e +:+ "," +:+ print_flag (f :: l).
Proof. done. Qed.

Lemma strchr_skip c s t :
  all_chars (λ d, negb (bool_decide (d = c))) s = true →
  strchr c (s +:+ t) = '(b, r) ← strchr c t; Some (s +:+ b, r).
Proof.
  induction s as [|d s IH]; simpl; [intros _; change ("" +:+ t) with t;
    by destruct (strchr c t) as [[b r]|]|].
  intros [Hd%negb_true_iff%bool_decide_eq_false Hs]%andb_true_iff.
  rewrite decide_False by done. rewrite IH by done. by destruct (strchr c t) as [[]|].
Qed.

(** What the parser makes of one entry and of what follows it. *)
Lemma parse_entry fuel e r :
  entry_fits e = true → starts_with_digit r = false →
  parse_vmodule (S fuel) (print_entry e +:+ r) =
    match strchr "," r with
    | Some (_, String _ vmodule) => rest ← parse_vmodule fuel vmodule; Some (e :: rest)
    | _ => Some [e]
    end.
Proof.
  intros He Hr. unfold entry_fits in He.
  apply andb_true_iff in He as [Hp Hi%bool_decide_eq_true].
  assert (all_chars (λ d, negb (bool_decide (d = "="%char))) (module_pattern e) = true) as Heq.
  { eapply all_chars_impl; [|exact Hp]. by intros d [? ?]%andb_true_iff. }
  unfold print_entry. rewrite !string_app_assoc. simpl.
  change ("=" +:+ to_string (vlog_level e) +:+ r)
    with (String "=" (to_string (vlog_level e) +:+ r)).
  rewrite strchr_app by done.
  rewrite (sscanf_level_read_int _ (vlog_level e) r) by (by apply read_int_to_string).
  change (String "=" (to_string (vlog_level e) +:+ r))
    with (String "=" (to_string (vlog_level e)) +:+ r).
  rewrite strchr_skip by (simpl; by apply to_string_avoids).
  destruct (strchr "," r) as [[b [|c vm]]|]; simpl; by destruct e.
Qed.

Lemma string_length_app s t : String.length (s +:+ t) = (String.length s + String.length t)%nat.
Proof. induction s as [|c s IH]; simpl; [done|]. by rewrite <- IH. Qed.

Lemma print_flag_length l : (length l <= String.length (print_flag l))%nat.
Proof.
  induction l as [|e [|f l] IH]; [done| |].
  - unfold print_flag, print_entry. rewrite !string_length_app. simpl. lia.
  - rewrite print_flag_cons. rewrite !string_length_app. simpl in *. lia.
Qed.

Lemma parse_print_flag fuel l :
  forallb entry_fits l = true → (length l < fuel)%nat →
  parse_vmodule fuel (print_flag l) = Some l.
Proof.
  revert fuel. induction l as [|e l IH]; intros fuel Hl Hf; (destruct fuel as [|fuel]; [lia|]).
  { done. }
  simpl in Hl. apply andb_true_iff in Hl as [He Hl]. destruct l as [|f l].
  - simpl print_flag. rewrite <- (string_app_nil_r (print_entry e)).
    by rewrite parse_entry.
  - rewrite print_flag_cons. change ("," +:+ print_flag (f :: l))
      with (String "," (print_flag (f :: l))).
    rewrite parse_entry by done.
    change (strchr "," (String "," (print_flag (f :: l))))
      with (Some ("", String "," (print_flag (f :: l)))). cbv iota beta.
    rewrite IH; [done|done|]. simpl in *. lia.
Qed.

Lemma allocate_spec l i n :
  let '(a, i', m) := allocate l i n in
  length a = length l ∧ m = (n + length l)%nat ∧
  (∀ b, (b < n)%nat → i' !! b = i !! b) ∧
  (∀ k b info, a !! k = Some b → l !! k = Some info → i' !! b = Some info) ∧
  (∀ b, b ∈ a → (n <= b < m)%nat) ∧
  (∀ b, (m <= b)%nat → i' !! b = i !! b).
Proof.
  revert i n. induction l as [|e l IH]; intros i n; simpl.
  { split; [done|]. split; [lia|]. split; [done|]. split; [done|]. split; [|done].
    by intros b ?%not_elem_of_nil. }
  specialize (IH (<[n:=e]> i) (S n)). destruct (allocate l (<[n:=e]> i) (S n)) as [[a i'] m].
  destruct IH as (H1 & H2 & H3 & H4 & H5 & H6). simpl. split; [by f_equal|]. split; [lia|]. split.
  { intros b Hb. rewrite H3 by lia. by rewrite lookup_insert_ne by lia. }
  split; [|split].
  - intros [|k] b info; simpl; [|by apply H4]. intros [= <-] [= <-].
    rewrite H3 by lia. by rewrite lookup_insert_eq.
  - intros b [->|Hb]%elem_of_cons; [lia|]. apply H5 in Hb. lia.
  - intros b Hb. rewrite H6 by done. by rewrite lookup_insert_ne by lia.
Qed.

(** * Theorems *)

(** [SafeFNMatch_] decides the glob language of [*] and [?], for patterns
    without two stars in a row and texts without a star. *)
Theorem SafeFNMatch_is_glob p s :
  no_double_star p = true → "*"%char ∉ s → (SafeFNMatch_ p s = true ↔ glob p s).
Proof. intros Hp Hs. split; [apply SafeFNMatch_sound|]. intros. by apply SafeFNMatch_complete. Qed.

Lemma SafeFNMatch_is_glob_witness : glob (chars "r*t?") (chars "raft1").
Proof.
  apply (SafeFNMatch_is_glob (chars "r*t?") (chars "raft1")); [reflexivity| |reflexivity].
  apply (bool_decide_eq_false_1 ("*"%char ∈ chars "raft1")). reflexivity.
Defined.

(** A [--vmodule] flag that lists patterns and levels is read as exactly
    those records, in their order, in front of the list there was; nothing
    that was in the list is lost. *)
Theorem vmodule_flag_roundtrip l g :
  forallb entry_fits l = true → g.(FLAGS_vmodule) = print_flag l → wf g →
  ∃ g' a, VLOG2Initializer g = Some g' ∧ g'.(inited_vmodule) = true ∧
    g'.(vmodule_list) = a ++ g.(vmodule_list) ∧ length a = length l ∧
    (∀ k b, a !! k = Some b → g'.(infos) !! b = l !! k) ∧
    (∀ b, b ∈ g.(vmodule_list) → g'.(infos) !! b = g.(infos) !! b).
Proof.
  intros Hl Hf [Hw Hn]. unfold VLOG2Initializer. rewrite Hf.
  rewrite parse_print_flag by (done || (pose proof (print_flag_length l); lia)). simpl.
  pose proof (allocate_spec l (infos g) (next_info g)) as H.
  destruct (allocate l (infos g) (next_info g)) as [[a i] n].
  destruct H as (H1 & _ & H3 & H4 & _). eexists _, a. split; [done|]. simpl.
  do 3 (split; [done|]). split.
  - intros k b Hk. destruct (l !! k) as [info|] eqn:E; [by eapply H4|].
    apply lookup_ge_None in E. apply lookup_lt_Some in Hk. lia.
  - intros b Hb. apply H3. destruct (Hw b Hb) as [info Hi]. by eapply Hn.
Qed.

Definition no_modules (flag : string) : Globals := mkGlobals 0 flag false [] ∅ 0.

Lemma vmodule_flag_roundtrip_witness :
  ∃ g', VLOG2Initializer (no_modules "raft*=2,rpc?=-1") = Some g' ∧
    length g'.(vmodule_list) = 2%nat.
Proof.
  destruct (vmodule_flag_roundtrip [mkInfo "raft*" 2; mkInfo "rpc?" (-1)]
    (no_modules "raft*=2,rpc?=-1")) as (g' & a & H1 & _ & H3 & H4 & _);
    [reflexivity|reflexivity|split; [by intros a ?%not_elem_of_nil|done]|].
  exists g'. split; [exact H1|]. rewrite H3, length_app, H4. reflexivity.
Defined.

(** [SetVLOGLevel] returns the level that applied before: that of the first
    record named or matched by the module pattern, or [FLAGS_v].  It sets the
    level of every record of that name; it adds a record, in front, exactly
    when no record applied.  So where a pattern of another name applies and
    none of this name exists, the call changes no level at all. *)
Theorem SetVLOGLevel_effect module lvl g :
  wf g →
  let '(result, g') := SetVLOGLevel module lvl g in
  result = default g.(FLAGS_v) (applied module g.(vmodule_list) g.(infos)) ∧
  (∀ a info, g.(infos) !! a = Some info → a ∈ g.(vmodule_list) →
     g'.(infos) !! a = Some (mkInfo info.(module_pattern)
       (if decide (info.(module_pattern) = module) then lvl else info.(vlog_level)))) ∧
  match applied module g.(vmodule_list) g.(infos) with
  | Some _ => g'.(vmodule_list) = g.(vmodule_list)
  | None => g'.(vmodule_list) = g.(next_info) :: g.(vmodule_list) ∧
            g'.(infos) !! g.(next_info) = Some (mkInfo module lvl)
  end.
Proof.
  intros Hg. pose proof (SetVLOGLevel_spec module lvl g) as H.
  pose proof (λ a info, SetVLOGLevel_keeps module lvl g a info Hg) as Hk.
  destruct (SetVLOGLevel module lvl g) as [result g']; simpl in *. destruct H as (i & Hi & H & _).
  destruct (applied _ _ _); simpl.
  - destruct H as (-> & _ & E & _). split; [done|]. split; [|done]. intros a info Ha Hin.
    by apply Hk.
  - destruct H as (-> & Ei & E & _). split; [done|]. split; [intros a info Ha Hin; by apply Hk|].
    split; [done|]. rewrite Ei. by rewrite lookup_insert_eq.
Qed.

Lemma SetVLOGLevel_effect_witness :
  let g := mkGlobals 0 "" true [0%nat] {[0%nat := mkInfo "raft*" 1]} 1 in
  (SetVLOGLevel "raft1" 5 g).1 = 1 ∧ (SetVLOGLevel "raft1" 5 g).2.(vmodule_list) = [0%nat].
Proof.
  intros g.
  assert (wf g) as Hg.
  { split; simpl.
    - intros a ->%list_elem_of_singleton. by eexists.
    - intros a info [<- _]%lookup_singleton_Some. lia. }
  pose proof (SetVLOGLevel_effect "raft1" 5 g Hg) as H.
  destruct (SetVLOGLevel "raft1" 5 g) as [result g']. destruct H as (H1 & _ & H2).
  split; [exact H1|exact H2].
Defined.

(** The pointer a logging site caches stays good: once the initialised list
    gave a site the record of pattern [p], then after any further calls of
    [SetVLOGLevel], setting the level of [p] decides what the site logs. *)
Theorem cached_site_follows_its_pattern site fname v g g1 a b info calls lvl v' :
  wf g → g.(inited_vmodule) = true →
  InitVLOG3__ site fname v g = Some (g1, Info a, b) → g1.(infos) !! a = Some info →
  SafeFNMatch_ (chars info.(module_pattern)) (module_of fname) = true ∧
  b = (v <=? info.(vlog_level)) ∧
  let g2 := (SetVLOGLevel info.(module_pattern) lvl (set_all calls g1)).2 in
  VLOG_IS_ON (Info a) fname v' g2 = Some (g2, Info a, v' <=? lvl).
Proof.
  intros Hg Hin HI Ha. unfold InitVLOG3__ in HI. rewrite Hin in HI. simpl in HI.
  injection HI as <- Hf Hb.
  assert (∀ l, find_info (module_of fname) l (infos g) = Info a →
    a ∈ l ∧ ∃ x, infos g !! a = Some x ∧
      SafeFNMatch_ (chars x.(module_pattern)) (module_of fname) = true) as Hfind.
  { induction l as [|c l IH]; simpl; [done|].
    destruct (infos g !! c) as [x|] eqn:E; [|intros H; apply IH in H; set_solver].
    destruct (SafeFNMatch_ _ _) eqn:Em; [|intros H; apply IH in H; set_solver].
    intros [= <-]. split; [by left|]. by exists x. }
  destruct (Hfind _ Hf) as (Hmem & x & Hx & Hm).
  assert (x = info) as -> by congruence. split; [done|]. split.
  { rewrite <- Hb, Hf. simpl. by rewrite Hx. }
  destruct (set_all_keeps calls g a info Hg Hx Hmem) as (Hg2 & Hmem2 & l2 & Hx2).
  destruct (SetVLOGLevel_keeps info.(module_pattern) lvl _ a _ Hg2 Hx2 Hmem2) as [Hx3 _].
  simpl in Hx3. rewrite decide_True in Hx3 by done.
  unfold VLOG_IS_ON. simpl. rewrite Hx3. simpl. by destruct (v' <=? lvl).
Qed.

Lemma cached_site_follows_its_pattern_witness :
  let g := mkGlobals 0 "" true [0%nat] {[0%nat := mkInfo "raft*" 1]} 1 in
  ∃ g1 b g2, InitVLOG3__ Uninitialized "src/raft.cpp" 2 g = Some (g1, Info 0, b) ∧ b = false ∧
    VLOG_IS_ON (Info 0) "src/raft.cpp" 2 g2 = Some (g2, Info 0, true).
Proof.
  intros g.
  assert (wf g) as Hg.
  { split; simpl.
    - intros a ->%list_elem_of_singleton. by eexists.
    - intros a info [<- _]%lookup_singleton_Some. lia. }
  destruct (cached_site_follows_its_pattern Uninitialized "src/raft.cpp" 2 g g 0 false
    (mkInfo "raft*" 1) [("main", 3)] 2 2 Hg eq_refl) as (_ & Hb & Hv); [reflexivity|reflexivity|].
  eexists g, false, _. split; [reflexivity|]. split; [reflexivity|]. exact Hv.
Defined.
