(* ===== verification/Symbolize.v ===== *)
(** The symbolizer of glog ([src/lib/glog/src/symbolize.cc]): reading files in
    spite of short reads and interruptions, lines and hexadecimal numbers of
    [/proc/self/maps], symbol tables, numbers and strings into buffers, and
    the routine that puts them together.

    After [ReadLine] returned false a reader is not used again, and after -1
    the addresses count only where a file name was left.

    A file descriptor is the contents of its file, the position, and a script
    of what the next [read] calls do.  The layouts of [<elf.h>], [open] and
    the callbacks are arguments. *)

From S2P Require Import Prelude Demangle.
From stdpp Require Import base list strings.
From Stdlib Require Import ZArith Ascii.

Open Scope Z_scope.

(** What a function comes to: a value, [abort] by [SAFE_ASSERT], an access out
    of bounds, a division by zero, or a loop that does not end. *)
Inductive Outcome (A : Type) := Val (a : A) | Abort | OutOfBounds | DivideByZero | Endless.
Arguments Val {A} a.
Arguments Abort {A}.
Arguments OutOfBounds {A}.
Arguments DivideByZero {A}.
Arguments Endless {A}.

Definition bind_outcome {A B} (o : Outcome A) (k : A → Outcome B) : Outcome B :=
  match o with
  | Val a => k a
  | Abort => Abort
  | OutOfBounds => OutOfBounds
  | DivideByZero => DivideByZero
  | Endless => Endless
  end.
Notation "o >>! k" := (bind_outcome o k) (at level 60, k at level 200, right associativity).

(** * Reading *)

(** What a [read] call does: it is interrupted, it fails, or it transfers at
    most so many bytes (at least one, before the end of the file). *)
Inductive Attempt := Interrupted | Failed | AtMost (n : nat).
#[global] Instance Attempt_eq_dec : EqDecision Attempt.
Proof. solve_decision. Defined.

Record Fd := mkFd { data : list ascii; pos : nat; script : list Attempt }.

Inductive ReadResult := EINTR | ReadError | Bytes (l : list ascii).

Definition read (fd : Fd) (count : nat) : Fd * ReadResult :=
  let available := drop fd.(pos) fd.(data) in
  let got (n : nat) (s : list Attempt) :=
    (mkFd fd.(data) (fd.(pos) + length (take n available)) s, Bytes (take n available)) in
  match fd.(script) with
  | Interrupted :: s => (mkFd fd.(data) fd.(pos) s, EINTR)
  | Failed :: s => (mkFd fd.(data) fd.(pos) s, ReadError)
  | AtMost n :: s => got (Nat.min (Nat.max 1 n) count) s
  | [] => got count []
  end.

(** The loop of [ReadPersistent], with [acc] read so far; [None] is -1.  A
    turn of [NO_INTR] is a turn of the loop that reads nothing. *)
Fixpoint read_loop (fuel : nat) (fd : Fd) (count : nat) (acc : list ascii)
    : Fd * option (list ascii) :=
  match fuel with
  | O => (fd, Some acc)
  | S fuel =>
      if (length acc <? count)%nat then
        match read fd (count - length acc) with
        | (fd, EINTR) => read_loop fuel fd count acc
        | (fd, ReadError) => (fd, None)
        | (fd, Bytes []) => (fd, Some acc)
        | (fd, Bytes l) => read_loop fuel fd count (acc ++ l)
        end
      else (fd, Some acc)
  end.

Definition ReadPersistent (fd : Fd) (count : nat) : Fd * option (list ascii) :=
  read_loop (length fd.(script) + count + 1) fd count [].

(** [lseek] refuses a negative offset. *)
Definition ReadFromOffset (fd : Fd) (count : nat) (offset : Z) : Fd * option (list ascii) :=
  if offset <? 0 then (fd, None)
  else ReadPersistent (mkFd fd.(data) (Z.to_nat offset) fd.(script)) count.

Definition ReadFromOffsetExact (fd : Fd) (count : nat) (offset : Z) : Fd * option (list ascii) :=
  let '(fd, r) := ReadFromOffset fd count offset in
  (fd, l ← r; if decide (length l = count) then Some l else None).

(** * Lines *)

Definition LF : ascii := "010"%char.

(** [class LineReader]: offsets into [buf_] for its pointers. *)
Record LineReader := mkReader {
  buf_ : list ascii;
  bol_ : nat;
  eol_ : nat;
  eod_ : nat
}.

Definition new_reader (buf : list ascii) : LineReader := mkReader buf 0 0 0.

(** [memchr] in a list. *)
Fixpoint memchr (c : ascii) (l : list ascii) : option nat :=
  match l with
  | [] => None
  | d :: l => if decide (d = c) then Some O else S <$> memchr c l
  end.

Definition slice (i j : nat) (l : list ascii) : list ascii := take (j - i) (drop i l).

Definition FindLineFeed (r : LineReader) : option nat :=
  k ← memchr LF (slice r.(bol_) r.(eod_) r.(buf_)); Some (r.(bol_) + k)%nat.

Definition BufferIsEmpty (r : LineReader) : bool := (r.(eod_) =? 0)%nat.

Definition HasCompleteLine (r : LineReader) : bool :=
  negb (BufferIsEmpty r) && bool_decide (is_Some (FindLineFeed r)).

(** [memmove] of [l] to the offset [i] of the buffer, or a [read] there. *)
Definition overwrite (i : nat) (l buf : list ascii) : list ascii :=
  take i buf ++ l ++ drop (i + length l) buf.

(** The end of [ReadLine]: the line feed becomes a NUL. *)
Definition finish_line (r : LineReader) : LineReader * option (nat * nat) :=
  match FindLineFeed r with
  | None => (r, None)
  | Some e => (mkReader (<[e := NUL]> r.(buf_)) r.(bol_) e r.(eod_), Some (r.(bol_), e))
  end.

(** [ReadLine]: the offsets of the line; [None] is false. *)
Definition ReadLine (fd : Fd) (r : LineReader) : Outcome (Fd * LineReader * option (nat * nat)) :=
  let buf_len := length r.(buf_) in
  if BufferIsEmpty r then
    match ReadPersistent fd buf_len with
    | (fd, None) | (fd, Some []) => Val (fd, r, None)
    | (fd, Some l) =>
        let '(r, o) := finish_line (mkReader (overwrite 0 l r.(buf_)) 0 r.(eol_) (length l)) in
        Val (fd, r, o)
    end
  else
    let bol := (r.(eol_) + 1)%nat in
    if (r.(eod_) <? bol)%nat then Abort
    else
      let r := mkReader r.(buf_) bol r.(eol_) r.(eod_) in
      if HasCompleteLine r then let '(r, o) := finish_line r in Val (fd, r, o)
      else
        let incomplete := slice bol r.(eod_) r.(buf_) in
        let r := mkReader (overwrite 0 incomplete r.(buf_)) bol r.(eol_) r.(eod_) in
        match ReadPersistent fd (buf_len - length incomplete) with
        | (fd, None) | (fd, Some []) => Val (fd, r, None)
        | (fd, Some l) =>
            let '(r, o) :=
              finish_line (mkReader (overwrite (length incomplete) l r.(buf_)) 0 r.(eol_)
                             (length incomplete + length l)) in
            Val (fd, r, o)
        end.

(** * Hexadecimal numbers and the lines of the maps *)

Definition hex_digit (c : ascii) : option Z :=
  if in_range "0" "9" c then Some (chr c - 48)
  else if in_range "A" "F" c || in_range "a" "f" c then Some (Z.land (chr c) 15 + 9)
  else None.

(** [GetHex]: the number, and what is left of the characters. *)
Fixpoint get_hex (l : list ascii) (hex : Z) : Z * list ascii :=
  match l with
  | [] => (hex, [])
  | c :: l' =>
      match hex_digit c with
      | Some d => get_hex l' (Z.lor (u64 (Z.shiftl hex 4)) d)
      | None => (hex, l)
      end
  end.
Definition GetHex (l : list ascii) : Z * list ascii := get_hex l 0.

(** A number and the separator after it. *)
Definition hex_then (sep : ascii) (l : list ascii) : option (Z * list ascii) :=
  match GetHex l with
  | (n, c :: l) => if decide (c = sep) then Some (n, l) else None
  | (_, []) => None
  end.

(** The characters up to a space, and the rest from it on. *)
Fixpoint until_space (l : list ascii) : list ascii * list ascii :=
  match l with
  | [] => ([], [])
  | c :: l' => if decide (c = " "%char) then ([], l)
               else let '(w, r) := until_space l' in (c :: w, r)
  end.

(** The loop that skips the device and the inode. *)
Fixpoint skip_to_name (l : list ascii) (num_spaces : Z) : list ascii :=
  match l with
  | [] => []
  | c :: l' =>
      if decide (c = " "%char) then skip_to_name l' (num_spaces + 1)
      else if 2 <=? num_spaces then l
      else skip_to_name l' num_spaces
  end.

(** What a line says about [pc], the [num_maps]-th line of the file. *)
Inductive MapsLine :=
  | Malformed
  | NextLine
  | ObjectFile (start_address base_address : Z) (file_name : list ascii).

Definition parse_maps_line (pc num_maps : Z) (line : list ascii) : MapsLine :=
  match hex_then "-" line with
  | None => Malformed
  | Some (start_address, l) =>
      match hex_then " " l with
      | None => Malformed
      | Some (end_address, l) =>
          if negb ((start_address <=? pc) && (pc <? end_address)) then NextLine
          else
            let '(flags, l) := until_space l in
            match l with
            | [] => Malformed
            | _ :: l =>
                if (length flags <? 4)%nat then Malformed
                else if negb (bool_decide (flags !! 0%nat = Some "r"%char)
                              && bool_decide (flags !! 2%nat = Some "x"%char)) then NextLine
                else
                  match hex_then " " l with
                  | None => Malformed
                  | Some (file_offset, l) =>
                      match skip_to_name l 0 with
                      | [] => Malformed
                      | file_name =>
                          ObjectFile start_address
                            (u64 ((if num_maps =? 1 then 0 else start_address) - file_offset))
                            file_name
                      end
                  end
            end
      end
  end.

(** What [strncpy] and the terminator leave in a buffer. *)
Definition strncpy (source : list ascii) (n : nat) : list ascii :=
  take n source ++ repeat NUL (n - length source).

Definition terminated_copy (source : list ascii) (n : nat) : list ascii :=
  <[(n - 1)%nat := NUL]> (strncpy source n).

(** [OpenObjectFileContainingPcAndGetStartAddress]: the descriptor or -1, the
    addresses, and the file name where the file did not open.  [open] is the
    file a name opens. *)
Section Maps.
Variable open : list ascii → option Fd.

Fixpoint open_loop (fuel : nat) (fd : Fd) (r : LineReader) (pc num_maps : Z)
    (out_file_name : list ascii) : Outcome (option Fd * Z * Z * list ascii) :=
  match fuel with
  | O => Endless
  | S fuel =>
      ReadLine fd r >>! λ '(fd, r, line),
      match line with
      | None => Val (None, 0, 0, out_file_name)
      | Some (b, e) =>
          match parse_maps_line pc num_maps (slice b e r.(buf_)) with
          | Malformed => Val (None, 0, 0, out_file_name)
          | NextLine => open_loop fuel fd r pc (num_maps + 1) out_file_name
          | ObjectFile start base name =>
              match open name with
              | Some object => Val (Some object, start, base, out_file_name)
              | None => Val (None, start, base, terminated_copy name (length out_file_name))
              end
          end
      end
  end.

Definition OpenObjectFileContainingPcAndGetStartAddress (fuel : nat) (pc : Z)
    (out_file_name : list ascii) : Outcome (option Fd * Z * Z * list ascii) :=
  match open (bytes "/proc/self/maps") with
  | None => Val (None, 0, 0, out_file_name)
  | Some fd => open_loop fuel fd (new_reader (repeat NUL 1024)) pc 1 out_file_name
  end.
End Maps.

(** * Numbers and strings into buffers *)

Inductive Itoa := Null (buf : list ascii) | Converted (buf : list ascii) | Undefined.

Definition digit_char (d : Z) : ascii :=
  default NUL (bytes "0123456789abcdef" !! Z.to_nat d).

(** The [do] loop: digits from [ptr] on, into the [space] there is; no pointer
    when it does not suffice. *)
Fixpoint itoa_loop (space : nat) (buf : list ascii) (ptr : nat) (j base padding : Z)
    : list ascii * option nat :=
  match space with
  | O => (buf, None)
  | S space =>
      let buf := <[ptr := digit_char (j mod base)]> buf in
      let j := j / base in
      let padding := if 0 <? padding then padding - 1 else padding in
      if (0 <? j) || (0 <? padding) then itoa_loop space buf (S ptr) j base padding
      else (buf, Some (S ptr))
  end.

(** [while (--ptr > start)]: swapping from both ends. *)
Fixpoint swap_loop (fuel : nat) (buf : list ascii) (start ptr : nat) : list ascii :=
  match fuel with
  | O => buf
  | S fuel =>
      let ptr := (ptr - 1)%nat in
      if (start <? ptr)%nat then
        let ch := default NUL (buf !! ptr) in
        let buf := <[ptr := default NUL (buf !! start)]> buf in
        swap_loop fuel (<[start := ch]> buf) (S start) ptr
      else buf
  end.

(** [itoa_r] into a buffer of [sz] bytes; negating the least [intptr_t] is
    undefined. *)
Definition itoa_r (i : Z) (buf : list ascii) (base padding : Z) : Itoa :=
  let sz := length buf in
  if (sz <? 1)%nat then Null buf
  else if (base <? 2) || (16 <? base) then Null (<[O := NUL]> buf)
  else
    let negative := (i <? 0) && (base =? 10) in
    if negative && (i =? -9223372036854775808) then Undefined
    else if negative && (sz <? 2)%nat then Null (<[O := NUL]> buf)
    else
      let j := if negative then - i else u64 i in
      let start := if negative then 1%nat else O in
      let buf := if negative then <[O := "-"%char]> buf else buf in
      match itoa_loop (sz - 1 - start) buf start j base padding with
      | (buf, None) => Null (<[O := NUL]> buf)
      | (buf, Some ptr) => Converted (swap_loop (length buf) (<[ptr := NUL]> buf) start ptr)
      end.

(** [strlen] of the string in a buffer. *)
Definition strlen (buf : list ascii) : nat := default (length buf) (memchr NUL buf).

(** [SafeAppendString]; its assertion holds whenever there is a terminator. *)
Definition SafeAppendString (source dest : list ascii) : Outcome (list ascii) :=
  match memchr NUL dest with
  | None => OutOfBounds
  | Some n => Val (take n dest ++ terminated_copy source (length dest - n))
  end.

(** [SafeAppendHexNumber]. *)
Definition SafeAppendHexNumber (value : Z) (dest : list ascii) : Outcome (list ascii) :=
  match itoa_r (i64 value) (repeat NUL 17) 16 0 with
  | Converted buf => SafeAppendString (take (strlen buf) buf) dest
  | _ => OutOfBounds
  end.

(** * Symbol tables *)

(** The members of the headers of [<elf.h>] that are used. *)
Record Ehdr := mkEhdr { magic_ok : bool; e_type : Z; e_shoff : Z; e_shnum : Z;
  e_shentsize : Z; e_shstrndx : Z }.
Record Shdr := mkShdr { sh_name : Z; sh_type : Z; sh_offset : Z; sh_size : Z; sh_link : Z;
  sh_entsize : Z }.
Record Sym := mkSym { st_name : Z; st_value : Z; st_size : Z; st_shndx : Z }.

Definition ET_DYN : Z := 3.
Definition SHT_SYMTAB : Z := 2.
Definition SHT_DYNSYM : Z := 11.
Definition sizeof_Ehdr : nat := 64.
Definition sizeof_Shdr : nat := 64.
Definition sizeof_Sym : nat := 24.
Definition NUM_SYMBOLS : nat := 32.

Section Elf.
(** How the bytes of a structure are read as one. *)
Variable as_Ehdr : list ascii → Ehdr.
Variable as_Shdr : list ascii → Shdr.
Variable as_Sym : list ascii → Sym.

(** An array of structures of [n] bytes, read from [l]. *)
Fixpoint array_of {A} (as_A : list ascii → A) (n : nat) (count : nat) (l : list ascii) : list A :=
  match count with
  | O => []
  | S count => as_A (take n l) :: array_of as_A n count (drop n l)
  end.

(** [FileGetElfType]. *)
Definition FileGetElfType (fd : Fd) : Fd * Z :=
  match ReadFromOffsetExact fd sizeof_Ehdr 0 with
  | (fd, None) => (fd, -1)
  | (fd, Some l) => (fd, if (as_Ehdr l).(magic_ok) then (as_Ehdr l).(e_type) else -1)
  end.

(** [GetSectionHeaderByType], with [i] headers read. *)
Fixpoint section_by_type_loop (fuel : nat) (fd : Fd) (sh_num sh_offset type : Z) (i : Z)
    : Outcome (Fd * option Shdr) :=
  match fuel with
  | O => Endless
  | S fuel =>
      if i <? sh_num then
        let left := Z.to_nat ((sh_num - i) * 64) in
        let to_read := if (left <? 16 * sizeof_Shdr)%nat then left else (16 * sizeof_Shdr)%nat in
        match ReadFromOffset fd to_read (sh_offset + i * 64) with
        | (fd, None) => Abort
        | (fd, Some l) =>
            if decide (length l `mod` sizeof_Shdr = 0)%nat then
              let n := (length l / sizeof_Shdr)%nat in
              match find (λ h, h.(sh_type) =? type) (array_of as_Shdr sizeof_Shdr n l) with
              | Some h => Val (fd, Some h)
              | None => section_by_type_loop fuel fd sh_num sh_offset type (i + Z.of_nat n)
              end
            else Abort
        end
      else Val (fd, None)
  end.
Definition GetSectionHeaderByType (fuel : nat) (fd : Fd) (sh_num sh_offset type : Z)
    : Outcome (Fd * option Shdr) := section_by_type_loop fuel fd sh_num sh_offset type 0.

(** [GetSectionHeaderByName]; [name] with its NUL. *)
Fixpoint section_by_name_loop (n : nat) (i : Z) (fd : Fd) (elf_header : Ehdr) (shstrtab : Shdr)
    (name : list ascii) : Fd * option Shdr :=
  match n with
  | O => (fd, None)
  | S n =>
      match ReadFromOffsetExact fd sizeof_Shdr
              (elf_header.(e_shoff) + elf_header.(e_shentsize) * i) with
      | (fd, None) => (fd, None)
      | (fd, Some l) =>
          let out := as_Shdr l in
          if (64 <? length name)%nat then (fd, None)
          else
            match ReadFromOffset fd (length name) (shstrtab.(sh_offset) + out.(sh_name)) with
            | (fd, None) => (fd, None)
            | (fd, Some header_name) =>
                if decide (header_name = name) then (fd, Some out)
                else section_by_name_loop n (i + 1) fd elf_header shstrtab name
            end
      end
  end.

Definition GetSectionHeaderByName (fd : Fd) (name : list ascii) : Fd * option Shdr :=
  match ReadFromOffsetExact fd sizeof_Ehdr 0 with
  | (fd, None) => (fd, None)
  | (fd, Some l) =>
      let elf_header := as_Ehdr l in
      match ReadFromOffsetExact fd sizeof_Shdr
              (elf_header.(e_shoff) + elf_header.(e_shentsize) * elf_header.(e_shstrndx)) with
      | (fd, None) => (fd, None)
      | (fd, Some l) =>
          section_by_name_loop (Z.to_nat elf_header.(e_shnum)) 0 fd elf_header (as_Shdr l) name
      end
  end.

(** Whether a symbol contains [pc], in [uint64_t]. *)
Definition contains_pc (pc symbol_offset : Z) (symbol : Sym) : bool :=
  let start_address := u64 (symbol.(st_value) + symbol_offset) in
  let end_address := u64 (start_address + symbol.(st_size)) in
  negb (symbol.(st_value) =? 0) && negb (symbol.(st_shndx) =? 0)
  && (start_address <=? pc) && (pc <? end_address).

(** [FindSymbol]: whether it found a name, and [out]; [i] symbols are read. *)
Fixpoint find_symbol_loop (fuel : nat) (pc : Z) (fd : Fd) (out : list ascii) (symbol_offset : Z)
    (strtab symtab : Shdr) (num_symbols i : Z) : Outcome (Fd * list ascii * bool) :=
  match fuel with
  | O => Endless
  | S fuel =>
      if i <? num_symbols then
        match ReadFromOffset fd (NUM_SYMBOLS * sizeof_Sym)
                (symtab.(sh_offset) + i * symtab.(sh_entsize)) with
        | (fd, None) => Abort
        | (fd, Some l) =>
            if decide (length l `mod` sizeof_Sym = 0)%nat then
              let n := (length l / sizeof_Sym)%nat in
              match find (contains_pc pc symbol_offset) (array_of as_Sym sizeof_Sym n l) with
              | Some symbol =>
                  match ReadFromOffset fd (length out) (strtab.(sh_offset) + symbol.(st_name)) with
                  | (fd, Some (c :: l)) =>
                      let out := overwrite 0 (c :: l) out in
                      Val (fd, out, bool_decide (NUL ∈ out))
                  | (fd, _) => Val (fd, out, false)
                  end
              | None =>
                  find_symbol_loop fuel pc fd out symbol_offset strtab symtab num_symbols
                    (i + Z.of_nat n)
              end
            else Abort
        end
      else Val (fd, out, false)
  end.

Definition FindSymbol (fuel : nat) (pc : Z) (fd : Fd) (out : list ascii) (symbol_offset : Z)
    (strtab symtab : Shdr) : Outcome (Fd * list ascii * bool) :=
  if symtab.(sh_entsize) =? 0 then DivideByZero
  else find_symbol_loop fuel pc fd out symbol_offset strtab symtab
         (i32 (symtab.(sh_size) / symtab.(sh_entsize))) 0.

(** One table of [GetSymbolFromObjectFile]: [None] is [return false], [Some
    false] a symbol not found there. *)
Definition consult (fuel : nat) (fd : Fd) (pc : Z) (out : list ascii) (symbol_offset : Z)
    (elf_header : Ehdr) (type : Z) : Outcome (Fd * list ascii * option bool) :=
  GetSectionHeaderByType fuel fd elf_header.(e_shnum) elf_header.(e_shoff) type >>! λ '(fd, h),
  match h with
  | None => Val (fd, out, Some false)
  | Some symtab =>
      match ReadFromOffsetExact fd sizeof_Shdr (elf_header.(e_shoff) + symtab.(sh_link) * 64) with
      | (fd, None) => Val (fd, out, None)
      | (fd, Some l) =>
          FindSymbol fuel pc fd out symbol_offset (as_Shdr l) symtab >>! λ '(fd, out, b),
          Val (fd, out, Some b)
      end
  end.

Definition GetSymbolFromObjectFile (fuel : nat) (fd : Fd) (pc : Z) (out : list ascii)
    (map_start_address : Z) : Outcome (list ascii * bool) :=
  match ReadFromOffsetExact fd sizeof_Ehdr 0 with
  | (fd, None) => Val (out, false)
  | (fd, Some l) =>
      let elf_header := as_Ehdr l in
      let symbol_offset := if elf_header.(e_type) =? ET_DYN then map_start_address else 0 in
      consult fuel fd pc out symbol_offset elf_header SHT_SYMTAB >>! λ '(fd, out, b),
      match b with
      | None => Val (out, false)
      | Some true => Val (out, true)
      | Some false =>
          consult fuel fd pc out symbol_offset elf_header SHT_DYNSYM >>! λ '(_, out, b),
          Val (out, default false b)
      end
  end.

(** * The routine *)

(** [DemangleInplace], its buffer of 256 bytes holding [stack] before. *)
Definition DemangleInplace (fuel : nat) (stack out : list ascii) : Outcome (list ascii) :=
  match Demangle.Demangle (take (strlen out) out) 256 fuel stack with
  | Ret true _ demangled =>
      let len := strlen demangled in
      if (len + 1 <=? length out)%nat then
        if (len <? 256)%nat then Val (overwrite 0 (take (len + 1) demangled) out) else Abort
      else Val out
  | Ret false _ _ => Val out
  | Stop _ => OutOfBounds
  | OutOfFuel => Endless
  end.

(** [SymbolizeAndDemangle] without callbacks; [open] as before. *)
Definition SymbolizeAndDemangle (fuel : nat) (open : list ascii → option Fd) (stack : list ascii)
    (pc0 : Z) (out : list ascii) : Outcome (list ascii * bool) :=
  match out with
  | [] => Val (out, false)
  | _ :: rest =>
      SafeAppendString (bytes "(") (NUL :: rest) >>! λ out,
      OpenObjectFileContainingPcAndGetStartAddress open fuel pc0 (drop 1 out) >>!
        λ '(object_fd, start_address, base_address, name),
      let out := take 1 out ++ name in
      match object_fd with
      | None =>
          match out !! 1%nat with
          | None => OutOfBounds
          | Some "000"%char => Val (out, false)
          | Some _ =>
            SafeAppendString (bytes "+0x") (<[(length out - 1)%nat := NUL]> out) >>! λ out,
            SafeAppendHexNumber (u64 (pc0 - base_address)) out >>! λ out,
            SafeAppendString (bytes ")") out >>! λ out,
            Val (out, true)
          end
      | Some fd =>
          let '(fd, elf_type) := FileGetElfType fd in
          if elf_type =? -1 then Val (out, false)
          else
            GetSymbolFromObjectFile fuel fd pc0 out start_address >>! λ '(out, b),
            if b : bool then
              DemangleInplace fuel stack out >>! λ out, Val (out, true)
            else Val (out, false)
      end
  end.

(** [Symbolize]. *)
Definition Symbolize (fuel : nat) (open : list ascii → option Fd) (stack : list ascii)
    (pc0 : Z) (out : list ascii) : Outcome (list ascii * bool) :=
  SymbolizeAndDemangle fuel open stack pc0 out.
End Elf.
