(* ===== verification/SymbolizeFacts.v ===== *)
(** Properties of the symbolizer: reading, lines, numbers and symbol tables. *)

From S2P Require Import Prelude Demangle Symbolize.
From stdpp Require Import base list strings sets.
From Stdlib Require Import ZArith Ascii.

Open Scope Z_scope.


(** * Reading *)

(** A descriptor on the same file, further on, with no failing read ahead. *)
Definition after_read (fd : Fd) (n : nat) (fd' : Fd) : Prop :=
  fd'.(data) = fd.(data) ∧ fd'.(pos) = (fd.(pos) + n)%nat ∧ Failed ∉ fd'.(script).

Lemma take_split {A} n k (x : list A) :
  (n <= k)%nat →
  take n x ++ take (k - length (take n x)) (drop (length (take n x)) x) = take k x.
Proof.
  intros Hn. destruct (decide (length x <= n)%nat) as [Hx|Hx].
  - rewrite !take_ge by (rewrite ?length_drop; lia). rewrite drop_all, app_nil_r. done.
  - rewrite length_take_le by lia. rewrite take_take_drop. f_equal. lia.
Qed.

Lemma read_loop_ok fuel fd count acc :
  Failed ∉ fd.(script) → (length acc <= count)%nat →
  (length fd.(script) + (count - length acc) < fuel)%nat →
  ∃ fd', read_loop fuel fd count acc
    = (fd', Some (acc ++ take (count - length acc) (drop fd.(pos) fd.(data)))) ∧
    after_read fd (length (take (count - length acc) (drop fd.(pos) fd.(data)))) fd'.
Proof.
  revert fd acc. induction fuel as [|fuel IH]; intros fd acc Hs Hacc Hf; [lia|]. simpl.
  destruct (Nat.ltb_spec (length acc) count) as [Hlt|Hge].
  2:{ replace (count - length acc)%nat with 0%nat by lia. rewrite take_0, app_nil_r.
      exists fd. split; [done|]. split; [done|]. split; [simpl; lia|done]. }
  destruct fd as [d p s]; simpl in *.
  assert (∀ n s', (1 <= n <= count - length acc)%nat → Failed ∉ s' →
    (length s' + (count - length acc) <= fuel)%nat →
    ∃ fd', match take n (drop p d) with
           | [] => (mkFd d (p + length (take n (drop p d))) s', Some acc)
           | _ :: _ =>
               read_loop fuel (mkFd d (p + length (take n (drop p d))) s') count
                 (acc ++ take n (drop p d))
           end = (fd', Some (acc ++ take (count - length acc) (drop p d))) ∧
      after_read (mkFd d p s) (length (take (count - length acc) (drop p d))) fd') as Hgot.
  { intros n s' Hn Hs' Hf'. destruct (take n (drop p d)) as [|c l] eqn:E.
    - assert (drop p d = []) as ->.
      { destruct (drop p d); [done|]. destruct n; [lia|done]. }
      rewrite take_nil, app_nil_r. eexists. split; [done|]. split; [done|]. by split.
    - rewrite <- E. assert (1 <= length (take n (drop p d)) <= n)%nat
        by (split; [rewrite E; simpl; lia|rewrite length_take; lia]).
      destruct (IH (mkFd d (p + length (take n (drop p d))) s') (acc ++ take n (drop p d)))
        as (fd' & Er & H1 & H2 & H3); [done|rewrite length_app; lia|simpl; rewrite length_app; lia|].
      exists fd'. rewrite Er. simpl in *. rewrite length_app, <- drop_drop, <- app_assoc in *.
      replace (count - (length acc + length (take n (drop p d))))%nat
        with (count - length acc - length (take n (drop p d)))%nat in * by lia.
      rewrite take_split in * by lia. split; [done|]. split; [done|]. split; [|done].
      pose proof (f_equal length (take_split n (count - length acc) (drop p d) ltac:(lia))) as Hl.
      rewrite length_app in Hl. simpl. lia. }
  destruct s as [|[| |n] s]; unfold read; simpl.
  - apply (Hgot (count - length acc)%nat); [lia|done|simpl in *; lia].
  - apply (IH (mkFd d p s)); [set_solver|lia|simpl in *; lia].
  - set_solver.
  - apply (Hgot (Nat.min (Nat.max 1 n) (count - length acc))); [lia|set_solver|simpl in *; lia].
Qed.

(** However the transfers are cut up and interrupted, as long as none fails,
    [ReadPersistent] reads all there is up to [count]. *)
Lemma ReadPersistent_ok fd count :
  Failed ∉ fd.(script) →
  ∃ fd', ReadPersistent fd count = (fd', Some (take count (drop fd.(pos) fd.(data)))) ∧
    after_read fd (length (take count (drop fd.(pos) fd.(data)))) fd'.
Proof.
  intros Hs. unfold ReadPersistent.
  destruct (read_loop_ok (length fd.(script) + count + 1) fd count []) as (fd' & E & H);
    [done|simpl; lia|simpl; lia|].
  exists fd'. rewrite E. simpl in *. by rewrite Nat.sub_0_r in *.
Qed.

Lemma ReadFromOffset_ok fd count offset :
  Failed ∉ fd.(script) → 0 <= offset →
  ∃ fd', ReadFromOffset fd count offset
    = (fd', Some (take count (drop (Z.to_nat offset) fd.(data)))) ∧
    fd'.(data) = fd.(data) ∧ Failed ∉ fd'.(script).
Proof.
  intros Hs Ho. unfold ReadFromOffset. destruct (Z.ltb_spec offset 0); [lia|].
  destruct (ReadPersistent_ok (mkFd fd.(data) (Z.to_nat offset) fd.(script)) count Hs)
    as (fd' & E & H1 & _ & H3). exists fd'. by rewrite E.
Qed.

(** * Lines *)

Lemma memchr_app_some c l l' k : memchr c l = Some k → memchr c (l ++ l') = Some k.
Proof.
  revert k. induction l as [|d l IH]; intros k; simpl; [done|]. case_decide; [done|].
  destruct (memchr c l) as [j|]; [|done]. intros [= <-]. by rewrite (IH j).
Qed.

Lemma memchr_app_none c l l' : memchr c l = None → memchr c (l ++ l') = (λ k, (length l + k)%nat) <$> memchr c l'.
Proof.
  induction l as [|d l IH]; simpl; [by destruct (memchr c l')|]. case_decide; [done|].
  destruct (memchr c l); [done|]. intros _. rewrite IH by done. by destruct (memchr c l').
Qed.

Lemma memchr_spec c l k :
  memchr c l = Some k → (k < length l)%nat ∧ l !! k = Some c ∧ c ∉ take k l.
Proof.
  revert k. induction l as [|d l IH]; intros k; simpl; [done|]. case_decide as Hd.
  - intros [= <-]. subst. split; [lia|]. split; [done|]. apply not_elem_of_nil.
  - destruct (memchr c l) as [j|] eqn:E; [|done]. intros [= <-].
    destruct (IH j eq_refl) as (? & ? & ?). simpl. split; [lia|]. split; [done|]. set_solver.
Qed.

Lemma memchr_take c l n k : memchr c l = Some k → (k < n)%nat → memchr c (take n l) = Some k.
Proof.
  revert n k. induction l as [|d l IH]; intros n k; simpl; [done|].
  destruct n as [|n]; [lia|]. simpl. case_decide; [done|].
  destruct (memchr c l) as [j|]; [|done]. intros [= <-] Hj. rewrite (IH n j) by (done || lia). done.
Qed.

Lemma length_overwrite i l buf :
  (i + length l <= length buf)%nat → length (overwrite i l buf) = length buf.
Proof. intros. unfold overwrite. rewrite !length_app, length_take, length_drop. lia. Qed.

Lemma slice_overwrite i l buf :
  (i + length l <= length buf)%nat → slice i (i + length l) (overwrite i l buf) = l.
Proof.
  intros. unfold slice, overwrite. rewrite drop_app_ge by (rewrite length_take; lia).
  rewrite length_take_le by lia. rewrite Nat.sub_diag, drop_0. apply take_app_length'. lia.
Qed.

Lemma length_slice i j (l : list ascii) : (j <= length l)%nat → length (slice i j l) = (j - i)%nat.
Proof. intros. unfold slice. rewrite length_take, length_drop. lia. Qed.

(** What is still to be read, in the buffer behind the current line and in the
    file. *)
Definition unread (fd : Fd) (r : LineReader) (rest : list ascii) : Prop :=
  (Failed ∉ fd.(script)) ∧
  ((r.(eod_) = 0%nat ∧ rest = drop fd.(pos) fd.(data)) ∨
   ((r.(eol_) < r.(eod_))%nat ∧ (r.(eod_) <= length r.(buf_))%nat ∧
    rest = slice (r.(eol_) + 1) r.(eod_) r.(buf_) ++ drop fd.(pos) fd.(data))).

(** A line found in the buffer, of which [text] is left from [bol_] on. *)
Lemma finish_line_ok fd r text k :
  Failed ∉ fd.(script) → (r.(bol_) <= r.(eod_) <= length r.(buf_))%nat → (0 < r.(eod_))%nat →
  text = slice r.(bol_) r.(eod_) r.(buf_) → memchr LF text = Some k →
  ∃ r' e, finish_line r = (r', Some (r.(bol_), e)) ∧
    slice r.(bol_) e r'.(buf_) = take k text ∧ r'.(buf_) !! e = Some NUL ∧
    length r'.(buf_) = length r.(buf_) ∧
    unread fd r' (drop (S k) text ++ drop fd.(pos) fd.(data)).
Proof.
  intros Hs Hb He -> Hk. destruct (memchr_spec _ _ _ Hk) as (Hlt & Hlf & _).
  rewrite length_slice in Hlt by lia.
  unfold finish_line, FindLineFeed. rewrite Hk. simpl.
  eexists _, (bol_ r + k)%nat. split; [done|]. simpl. split; [|split; [|split]].
  - unfold slice. rewrite drop_insert_ge, take_insert_ge, take_take by lia. f_equal. lia.
  - rewrite list_lookup_insert_eq by lia. done.
  - by rewrite length_insert.
  - split; [done|]. right. simpl. rewrite length_insert. split; [lia|]. split; [lia|]. f_equal.
    unfold slice. rewrite drop_insert_lt by lia.
    replace (eod_ r - bol_ r)%nat with (S k + (eod_ r - (bol_ r + k + 1)))%nat by lia.
    rewrite <- take_drop_commute, drop_drop. f_equal. f_equal. lia.
Qed.

Lemma finish_line_none r :
  memchr LF (slice r.(bol_) r.(eod_) r.(buf_)) = None → finish_line r = (r, None).
Proof. intros H. unfold finish_line, FindLineFeed. by rewrite H. Qed.

Lemma slice_two i l buf :
  (i + length l <= length buf)%nat → slice 0 (i + length l) (overwrite i l buf) = take i buf ++ l.
Proof.
  intros. unfold slice, overwrite. rewrite drop_0, Nat.sub_0_r, app_assoc.
  apply take_app_length'. rewrite length_app, length_take. lia.
Qed.

(** Filling the buffer, which holds [inc], with what the file has next. *)
Lemma refill_ok fd inc buf eol fd' l :
  Failed ∉ fd.(script) → (length inc < length buf)%nat → l ≠ [] →
  l = take (length buf - length inc) (drop fd.(pos) fd.(data)) →
  after_read fd (length l) fd' →
  let r := mkReader (overwrite (length inc) l (overwrite 0 inc buf)) 0 eol (length inc + length l) in
  let rest := inc ++ drop fd.(pos) fd.(data) in
  match memchr LF (take (length buf) rest) with
  | Some k => ∃ r' e, finish_line r = (r', Some (0%nat, e)) ∧
      slice 0 e r'.(buf_) = take k rest ∧ r'.(buf_) !! e = Some NUL ∧
      length r'.(buf_) = length buf ∧ unread fd' r' (drop (S k) rest)
  | None => finish_line r = (r, None)
  end.
Proof.
  intros Hs Hinc Hne El (Hd & Hp & Hs') r rest.
  assert (length l <= length buf - length inc)%nat as Hl by (rewrite El, length_take; lia).
  assert (length (overwrite 0 inc buf) = length buf) as Hb0 by (apply length_overwrite; lia).
  assert (length (buf_ r) = length buf) as Hb by (simpl; rewrite length_overwrite; lia).
  assert (slice 0 (eod_ r) (buf_ r) = inc ++ l) as Htext.
  { simpl. rewrite slice_two by lia. f_equal. unfold overwrite.
    simpl. apply take_app_length. }
  assert (take (length buf) rest = inc ++ l) as Hrest.
  { unfold rest. rewrite take_app_ge by lia. by rewrite El. }
  rewrite Hrest. destruct (memchr LF (inc ++ l)) as [k|] eqn:Ek.
  - destruct (finish_line_ok fd' r (inc ++ l) k) as (r' & e & E & H1 & H2 & H3 & H4);
      [done|rewrite Hb; simpl; lia|destruct l; [done|simpl; lia]|by rewrite <- Htext|done|].
    change (bol_ r) with 0%nat in E, H1. destruct (memchr_spec _ _ _ Ek) as (Hk & _).
    assert (rest = (inc ++ l) ++ drop (pos fd') (data fd')) as Hsplit.
    { rewrite <- Hrest, Hd, Hp, <- drop_drop. unfold rest.
      rewrite <- (take_drop (length buf) (inc ++ drop (pos fd) (data fd))) at 1. f_equal.
      rewrite drop_app_ge by lia.
      destruct (decide (length (drop (pos fd) (data fd)) <= length buf - length inc)%nat).
      - rewrite drop_ge by lia. symmetry. apply drop_ge. rewrite El, take_ge by lia. done.
      - f_equal. rewrite El, length_take. lia. }
    exists r', e. split; [done|]. split; [|split; [done|split; [by rewrite H3|]]].
    + rewrite H1, Hsplit. by rewrite (take_app_le (inc ++ l)) by lia.
    + rewrite Hsplit. by rewrite (drop_app_le (inc ++ l)) by lia.
  - apply finish_line_none. by rewrite <- Htext in Ek.
Qed.

Lemma ReadLine_ok fd r rest :
  (0 < length r.(buf_))%nat → unread fd r rest →
  match memchr LF (take (length r.(buf_)) rest) with
  | Some k => ∃ fd' r' b e, ReadLine fd r = Val (fd', r', Some (b, e)) ∧
      slice b e r'.(buf_) = take k rest ∧ r'.(buf_) !! e = Some NUL ∧
      length r'.(buf_) = length r.(buf_) ∧ unread fd' r' (drop (S k) rest)
  | None => ∃ fd' r', ReadLine fd r = Val (fd', r', None)
  end.
Proof.
  intros Hn [Hs Hu]. unfold ReadLine, BufferIsEmpty. destruct Hu as [[He ->]|(He & Hb & ->)].
  - rewrite He. simpl.
    destruct (ReadPersistent_ok fd (length (buf_ r)) Hs) as (fd' & -> & Ha).
    destruct (take (length (buf_ r)) (drop (pos fd) (data fd))) as [|c l] eqn:El.
    { simpl. eauto. }
    pose proof (refill_ok fd [] (buf_ r) (eol_ r) fd' (c :: l) Hs Hn ltac:(done)
      ltac:(cbn [length]; by rewrite Nat.sub_0_r) Ha) as H.
    cbv zeta in H. rewrite (app_nil_l (drop (pos fd) (data fd))), El in H.
    change (overwrite 0 [] (buf_ r)) with (buf_ r) in H. cbn [length Nat.add] in H |- *.
    destruct (memchr LF (c :: l)) as [k|].
    + destruct H as (r' & e & -> & H). exists fd', r', 0%nat, e. by split.
    + rewrite H. eauto.
  - destruct (Nat.eqb_spec (eod_ r) 0); [lia|].
    destruct (Nat.ltb_spec (eod_ r) (eol_ r + 1)); [lia|].
    set (inc := slice (eol_ r + 1) (eod_ r) (buf_ r)).
    assert (length inc < length (buf_ r))%nat as Hinc by (unfold inc; rewrite length_slice; lia).
    unfold HasCompleteLine, BufferIsEmpty, FindLineFeed. simpl. fold inc.
    destruct (Nat.eqb_spec (eod_ r) 0); [lia|]. simpl.
    destruct (memchr LF inc) as [k|] eqn:Ek; simpl.
    + destruct (memchr_spec _ _ _ Ek) as (Hk & _).
      rewrite (memchr_take _ _ _ k) by (by apply memchr_app_some || lia).
      destruct (finish_line_ok fd (mkReader (buf_ r) (eol_ r + 1) (eol_ r) (eod_ r)) inc k)
        as (r' & e & -> & H1 & H2 & H3 & H4); [done|simpl; lia|simpl; lia|done|done|].
      exists fd, r', (eol_ r + 1)%nat, e. split; [done|]. simpl in *.
      rewrite take_app_le, drop_app_le by lia. done.
    + destruct (ReadPersistent_ok fd (length (buf_ r) - length inc) Hs) as (fd' & -> & Ha).
      destruct (take (length (buf_ r) - length inc) (drop (pos fd) (data fd))) as [|c l] eqn:El.
      { rewrite take_app_ge, El, app_nil_r, Ek by lia. eauto. }
      pose proof (refill_ok fd inc (buf_ r) (eol_ r) fd' (c :: l) Hs Hinc ltac:(done) (eq_sym El) Ha)
        as HR. cbv zeta in HR.
      destruct (memchr LF (take _ _)) as [k|].
      * destruct HR as (r' & e & -> & HR). exists fd', r', 0%nat, e. by split.
      * rewrite HR. eauto.
Qed.

(** All the lines a reader comes to, call after call. *)
Fixpoint read_lines (fuel : nat) (fd : Fd) (r : LineReader) : Outcome (list (list ascii)) :=
  match fuel with
  | O => Endless
  | S fuel =>
      ReadLine fd r >>! λ '(fd, r, line),
      match line with
      | None => Val []
      | Some (b, e) =>
          read_lines fuel fd r >>! λ ls, Val (slice b e r.(buf_) :: ls)
      end
  end.

Definition text_of (lines : list (list ascii)) : list ascii := concat ((λ l, l ++ [LF]) <$> lines).

Lemma memchr_none c l : c ∉ l → memchr c l = None.
Proof.
  induction l as [|d l IH]; intros Hc; simpl; [done|]. case_decide; [set_solver|].
  rewrite IH by set_solver. done.
Qed.

Lemma memchr_line c l rest : c ∉ l → memchr c (l ++ c :: rest) = Some (length l).
Proof.
  intros Hc. rewrite memchr_app_none by by apply memchr_none. simpl.
  rewrite decide_True by done. simpl. f_equal. lia.
Qed.

Lemma read_lines_ok fd r lines tail :
  unread fd r (text_of lines ++ tail) →
  Forall (λ l, (LF ∉ l) ∧ (length l < length r.(buf_))%nat) lines →
  LF ∉ take (length r.(buf_)) tail → (0 < length r.(buf_))%nat →
  read_lines (S (length lines)) fd r = Val lines.
Proof.
  revert fd r. induction lines as [|l lines IH]; intros fd r Hu Hl Ht Hn.
  - simpl. pose proof (ReadLine_ok fd r tail Hn Hu) as H.
    rewrite memchr_none in H by done. destruct H as (fd' & r' & ->). done.
  - apply Forall_cons in Hl as [[Hlf Hlen] Hl].
    assert (text_of (l :: lines) ++ tail = l ++ LF :: text_of lines ++ tail) as Hx.
    { unfold text_of. simpl. by rewrite <- !app_assoc. }
    rewrite Hx in Hu. pose proof (ReadLine_ok fd r _ Hn Hu) as H.
    rewrite (memchr_take _ _ _ (length l)) in H by (by apply memchr_line || done).
    destruct H as (fd' & r' & b & e & E & Hs & _ & Hb & Hu').
    rewrite take_app_length in Hs.
    replace (S (length l)) with (length l + 1)%nat in Hu' by lia.
    rewrite drop_app_add in Hu'. simpl in Hu'.
    change (S (length (l :: lines))) with (S (S (length lines))).
    remember (S (length lines)) as f eqn:Ef. simpl. rewrite E. simpl. subst f.
    rewrite (IH fd' r'), Hs by (done || (rewrite Hb; done)). done.
Qed.

(** [LineReader] splits a file into its lines, in whatever pieces the kernel
    hands the file over and however often [read] is interrupted: as long as no
    [read] fails and every line, with its line feed, fits the buffer, the calls of
    [ReadLine] come to exactly the lines, in order, and to no end of memory
    outside the buffer; characters behind the last line feed are not a line. *)
Theorem ReadLine_splits_file file attempts buf lines tail :
  file = text_of lines ++ tail → Failed ∉ attempts → (0 < length buf)%nat →
  Forall (λ l, (LF ∉ l) ∧ (length l < length buf)%nat) lines → LF ∉ tail →
  read_lines (S (length lines)) (mkFd file 0 attempts) (new_reader buf) = Val lines.
Proof.
  intros -> Hs Hn Hl Ht. apply (read_lines_ok _ _ _ tail); simpl; [|done| |done].
  - split; [done|]. left. done.
  - intros H. apply Ht. apply elem_of_take in H as (i & H & _). by apply list_elem_of_lookup_2 in H.
Qed.

Lemma ReadLine_splits_file_witness :
  read_lines 4 (mkFd (text_of [bytes "ab"; []; bytes "cdef"] ++ bytes "gh") 0
                  [AtMost 1; Interrupted; AtMost 3; Interrupted; AtMost 2])
    (new_reader (repeat NUL 5)) = Val [bytes "ab"; []; bytes "cdef"].
Proof.
  apply (ReadLine_splits_file _ _ _ [bytes "ab"; []; bytes "cdef"] (bytes "gh"));
    [reflexivity|bd|bd|repeat constructor; simpl; (lia || bd)|bd].
Defined.

(** * Numbers *)

Lemma overwrite_insert p c l buf :
  (p < length buf)%nat → overwrite (S p) l (<[p := c]> buf) = overwrite p (c :: l) buf.
Proof.
  intros Hp. unfold overwrite. rewrite drop_insert_lt by lia.
  rewrite (take_S_r _ _ c) by by apply list_lookup_insert_eq.
  rewrite take_insert_ge by lia. rewrite <- app_assoc. simpl.
  by replace (p + S (length l))%nat with (S (p + length l)) by lia.
Qed.

(** [ls] is [j] in [base], the lowest digit first, filled up with zeros to
    [padding] digits and not further. *)
Definition low_digits (base j padding : Z) (ls : list Z) : Prop :=
  Forall (λ d, 0 <= d < base) ls ∧ foldr (λ d v, d + base * v) 0 ls = j ∧
  Z.max 1 padding <= Z.of_nat (length ls) ∧
  (Z.max 1 padding < Z.of_nat (length ls) → last ls ≠ Some 0).

Lemma low_digits_step base j padding :
  2 <= base → 0 <= j → 0 <= padding →
  let j' := j / base in let padding' := if 0 <? padding then padding - 1 else padding in
  0 <= j' ∧ 0 <= padding' ∧
  if (0 <? j') || (0 <? padding')
  then j' + padding' < j + padding ∧
       ∀ ls, low_digits base j' padding' ls → low_digits base j padding (j mod base :: ls)
  else low_digits base j padding [j mod base].
Proof.
  intros Hb Hj Hp j' padding'.
  assert (0 <= j') by (apply Z.div_pos; lia).
  assert (0 <= padding') by (unfold padding'; destruct (Z.ltb_spec 0 padding); lia).
  assert (j = base * j' + j mod base) as Hdiv by (apply Z.div_mod; lia).
  assert (0 <= j mod base < base) by (apply Z.mod_pos_bound; lia).
  assert (padding' = Z.max 0 (padding - 1)) as Hpad
    by (unfold padding'; destruct (Z.ltb_spec 0 padding); lia).
  split; [done|]. split; [done|].
  destruct ((0 <? j') || (0 <? padding')) eqn:Hgo.
  - rewrite orb_true_iff, !Z.ltb_lt in Hgo. split; [nia|]. intros ls (L1 & L2 & L3 & L4). split; [by constructor|].
    split; [simpl; rewrite L2; lia|]. simpl length. split; [lia|]. intros Hlen.
    destruct ls as [|d ls]; [simpl in *; lia|]. rewrite last_cons_cons.
    destruct (decide (Z.max 1 padding' < Z.of_nat (length (d :: ls)))) as [|Hn]; [by apply L4|].
    assert (padding = 0 ∨ padding = 1) as Hpp by lia.
    assert (ls = []) as -> by (destruct ls; [done|simpl in *; lia]).
    simpl in *. intros [= ->]. lia.
  - rewrite orb_false_iff, !Z.ltb_ge in Hgo.
    split; [constructor; [done|constructor]|]. split; [simpl; lia|]. simpl. split; lia.
Qed.

Lemma itoa_loop_ok base j padding space buf ptr :
  2 <= base → 0 <= j → 0 <= padding → (ptr + space <= length buf)%nat →
  ∃ ls, low_digits base j padding ls ∧
    if decide (length ls <= space)%nat
    then itoa_loop space buf ptr j base padding
         = (overwrite ptr (digit_char <$> ls) buf, Some (ptr + length ls)%nat)
    else ∃ buf', itoa_loop space buf ptr j base padding = (buf', None) ∧
                 length buf' = length buf.
Proof.
  intros Hb. remember (Z.to_nat (j + padding)) as n eqn:Hn. revert j padding space buf ptr Hn.
  induction n as [n IH] using lt_wf_ind. intros j padding space buf ptr Hn Hj Hp Hspace.
  pose proof (low_digits_step base j padding Hb Hj Hp) as (Hj' & Hp' & H). cbv zeta in *.
  set (j' := j / base) in *. set (padding' := if 0 <? padding then padding - 1 else padding) in *.
  destruct ((0 <? j') || (0 <? padding')) eqn:E.
  - destruct H as [Hm Hcons]. destruct space as [|space].
    + destruct (IH (Z.to_nat (j' + padding')) ltac:(lia) j' padding' 0%nat buf ptr)
        as (ls & Hls & _); [done..|].
      exists (j mod base :: ls). split; [by apply Hcons|].
      rewrite decide_False by (simpl; lia). by exists buf.
    + destruct (IH (Z.to_nat (j' + padding')) ltac:(lia) j' padding' space
                  (<[ptr := digit_char (j mod base)]> buf) (S ptr))
        as (ls & Hls & Hr); [done..|rewrite length_insert; lia|].
      exists (j mod base :: ls). split; [by apply Hcons|]. simpl.
      fold j' padding'. rewrite E. case_decide as Hd.
      * rewrite decide_True by lia. rewrite Hr, overwrite_insert by lia. simpl. do 2 f_equal. lia.
      * rewrite decide_False by lia. destruct Hr as (b & -> & Hl). exists b.
        by rewrite length_insert in Hl.
  - exists [j mod base]. split; [done|]. destruct space as [|space]; simpl.
    + by exists buf.
    + fold j' padding'. rewrite E. f_equal; [|f_equal; lia].
      unfold overwrite. simpl. rewrite Nat.add_comm. simpl. apply insert_take_drop. lia.
Qed.

Lemma swap_loop_ok fuel pre l post :
  (length l <= fuel)%nat →
  swap_loop fuel (pre ++ l ++ post) (length pre) (length pre + length l) = pre ++ reverse l ++ post.
Proof.
  revert pre l post. induction fuel as [|fuel IH]; intros pre l post Hf.
  - destruct l; [done|simpl in *; lia].
  - destruct l as [|x l].
    { simpl. destruct (Nat.ltb_spec (length pre) (length pre + 0 - 1)); [lia|done]. }
    destruct l as [|y l _] using rev_ind.
    { simpl. destruct (Nat.ltb_spec (length pre) (length pre + 1 - 1)); [lia|done]. }
    simpl in Hf |- *. rewrite length_app in Hf |- *. simpl in Hf |- *.
    destruct (Nat.ltb_spec (length pre) (length pre + S (length l + 1) - 1)); [|lia].
    replace (length pre + S (length l + 1) - 1)%nat with (length pre + S (length l))%nat by lia.
    assert ((pre ++ x :: (l ++ [y]) ++ post) !! (length pre + S (length l))%nat = Some y) as ->.
    { rewrite <- (app_assoc l). change (pre ++ x :: l ++ [y] ++ post)
        with (pre ++ (x :: l) ++ y :: post).
      rewrite app_assoc. apply list_lookup_middle. rewrite length_app. done. }
    rewrite list_lookup_middle by done. simpl default.
    rewrite (insert_app_r _ _ (S (length l))). simpl.
    rewrite (insert_app_r_alt pre _ (length pre)), Nat.sub_diag by lia. simpl.
    rewrite <- (app_assoc l), insert_app_r_alt, Nat.sub_diag by lia. simpl.
    specialize (IH (pre ++ [y]) l (x :: post) ltac:(lia)). rewrite length_app in IH. simpl in IH.
    rewrite <- !app_assoc in IH. simpl in IH.
    replace (S (length pre)) with (length pre + 1)%nat by lia.
    replace (length pre + S (length l))%nat with (length pre + 1 + length l)%nat by lia.
    rewrite IH. rewrite reverse_cons, reverse_app. simpl. by rewrite <- !app_assoc.
Qed.

(** [ds] is [j] written in [base], the highest digit first, with zeros in front
    up to [padding] digits. *)
Definition numeral (base j padding : Z) (ds : list Z) : Prop :=
  Forall (λ d, 0 <= d < base) ds ∧ foldl (λ v d, v * base + d) 0 ds = j ∧
  Z.max 1 padding <= Z.of_nat (length ds) ∧
  (Z.max 1 padding < Z.of_nat (length ds) → head ds ≠ Some 0).

Lemma numeral_reverse base j padding ls :
  low_digits base j padding ls → numeral base j padding (reverse ls).
Proof.
  intros (H1 & H2 & H3 & H4). split; [by apply Forall_reverse|].
  rewrite length_reverse, <- last_reverse, reverse_involutive. split; [|done].
  rewrite <- H2. clear. induction ls as [|d ls IH]; [done|].
  rewrite reverse_cons, foldl_app, IH. simpl. lia.
Qed.

Lemma convert_ok j base padding (sign : list ascii) rest :
  2 <= base → 0 <= j → 0 <= padding →
  let buf := sign ++ rest in let start := length sign in
  (start < length buf)%nat →
  ∃ ds, numeral base j padding ds ∧
    match itoa_loop (length buf - 1 - start) buf start j base padding with
    | (b, Some ptr) =>
        (length sign + length ds < length buf)%nat ∧
        swap_loop (length b) (<[ptr := NUL]> b) start ptr
          = sign ++ (digit_char <$> ds) ++ NUL :: drop (S (length ds)) rest
    | (b, None) => (length buf <= length sign + length ds)%nat ∧ length b = length buf
    end.
Proof.
  intros Hb Hj Hp buf start Hstart.
  assert (length buf = length sign + length rest)%nat as Hlen by apply length_app.
  destruct (itoa_loop_ok base j padding (length buf - 1 - start) buf start)
    as (ls & Hls & H); [done..|unfold start in *; lia|].
  exists (reverse ls). split; [by apply numeral_reverse|]. rewrite length_reverse.
  unfold start in *. case_decide as Hfit.
  - rewrite H. split; [lia|]. rewrite length_overwrite by (rewrite length_fmap; lia).
    assert (overwrite (length sign) (digit_char <$> ls) buf
            = sign ++ (digit_char <$> ls) ++ drop (length ls) rest) as ->.
    { unfold overwrite, buf. rewrite take_app_length, length_fmap, drop_app_add. done. }
    rewrite insert_app_r_alt, Nat.add_comm, Nat.add_sub by lia.
    rewrite insert_app_r_alt, length_fmap, Nat.sub_diag by (rewrite length_fmap; lia).
    destruct (drop (length ls) rest) as [|c tail] eqn:Ed.
    { apply (f_equal length) in Ed. rewrite length_drop in Ed. simpl in Ed. lia. }
    replace (length ls + length sign)%nat with (length sign + length (digit_char <$> ls))%nat
      by (rewrite length_fmap; lia).
    simpl. rewrite swap_loop_ok by (rewrite length_fmap; lia).
    rewrite fmap_reverse. do 3 f_equal.
    replace (S (length ls)) with (length ls + 1)%nat by lia. by rewrite <- drop_drop, Ed.
  - destruct H as (b & -> & Hl). split; [lia|done].
Qed.

(** [itoa_r] is right on every number but the least one: there is one numeral
    of the number in the base, with the zeros in front that [padding] asks for
    and no others; where it fits the buffer with its sign and the terminator,
    the buffer holds just that, and what lay behind is untouched, and where it
    does not, the result is NULL and the buffer holds the empty string. *)
Theorem itoa_r_correct i buf base padding :
  -9223372036854775808 < i < 9223372036854775808 → 2 <= base <= 16 → 0 <= padding →
  (0 < length buf)%nat →
  let negative := (i <? 0) && (base =? 10) in
  ∃ ds, numeral base (if negative then - i else u64 i) padding ds ∧
    let text := (if negative then bytes "-" else []) ++ (digit_char <$> ds) in
    if decide (length text < length buf)%nat
    then itoa_r i buf base padding = Converted (text ++ NUL :: drop (S (length text)) buf)
    else ∃ b, itoa_r i buf base padding = Null (NUL :: b) ∧ S (length b) = length buf.
Proof.
  intros Hi Hb Hp Hn negative. unfold itoa_r. fold negative.
  destruct (Nat.ltb_spec (length buf) 1); [lia|].
  destruct (Z.ltb_spec base 2); [lia|]. destruct (Z.ltb_spec 16 base); [lia|]. simpl orb. cbv iota.
  destruct (Z.eqb_spec i (-9223372036854775808)); [lia|]. rewrite andb_false_r.
  destruct buf as [|c buf]; [simpl in Hn; lia|]. destruct negative eqn:En.
  - apply andb_prop in En as [Hneg _]. apply Z.ltb_lt in Hneg. cbn [andb].
    destruct (Nat.ltb_spec (length (c :: buf)) 2) as [Hs|Hs].
    + destruct (itoa_loop_ok base (- i) padding 0 [] 0) as (ls & Hls & _); [lia..|simpl; lia|].
      exists (reverse ls). split; [by apply numeral_reverse|]. cbv zeta.
      rewrite decide_False by (simpl in *; lia). exists buf. done.
    + destruct (convert_ok (- i) base padding (bytes "-") buf) as (ds & Hds & HR);
        [lia..|simpl in *; lia|].
      exists ds. split; [done|]. cbv zeta in *.
      change (<[0%nat:="-"%char]> (c :: buf)) with (bytes "-" ++ buf).
      change (length (c :: buf)) with (length (bytes "-" ++ buf)).
      change (length (bytes "-")) with 1%nat in HR.
      rewrite length_app, length_fmap. change (length (bytes "-")) with 1%nat.
      destruct (itoa_loop _ _ _ _ _ _) as [b [ptr|]]; destruct HR as [Hlen HR].
      * rewrite decide_True by done. rewrite HR, <- app_assoc. done.
      * rewrite decide_False by lia. destruct b as [|c' b]; [simpl in *; lia|].
        exists b. split; [done|]. by rewrite <- HR.
  - cbn [andb].
    assert (0 <= u64 i) by (apply Z.mod_pos_bound; reflexivity).
    destruct (convert_ok (u64 i) base padding [] (c :: buf)) as (ds & Hds & HR);
      [lia..|simpl in *; lia|].
    exists ds. split; [done|]. cbv zeta in *. simpl app in *. cbn [length] in HR |- *.
    rewrite length_fmap.
    destruct (itoa_loop _ _ _ _ _ _) as [b [ptr|]]; destruct HR as [Hlen HR].
    + rewrite decide_True by done. by rewrite HR.
    + rewrite decide_False by lia. destruct b as [|c' b]; [simpl in *; lia|].
      exists b. split; [done|]. by rewrite <- HR.
Qed.

Lemma itoa_r_correct_witness :
  itoa_r (-305) (repeat NUL 5) 10 0 = Converted (bytes "-305" ++ [NUL]) ∧
  ∃ ds, numeral 10 305 0 ds ∧ digit_char <$> ds = bytes "305".
Proof.
  split; [reflexivity|].
  destruct (itoa_r_correct (-305) (repeat NUL 5) 10 0) as (ds & Hds & H);
    [lia|lia|lia|simpl; lia|]. exists ds. split; [exact Hds|]. cbv zeta in H.
  destruct (decide _) as [Hd|Hd] in H.
  - change (itoa_r (-305) (repeat NUL 5) 10 0) with (Converted (bytes "-305" ++ [NUL])) in H.
    vm_compute in Hd. apply (f_equal (λ r, if r is Converted (_ :: b) then b else [])) in H.
    destruct ds as [|d1 [|d2 [|d3 [|d4 ds]]]]; cbn -[digit_char] in H;
      [discriminate H..|by injection H as -> -> ->|].
    exfalso. revert Hd. clear. intros Hd. repeat apply le_S_n in Hd. inversion Hd.
  - destruct H as (b & H & _). discriminate H.
Defined.

(** * Symbol tables *)

Section SymbolTables.
Variable as_Sym : list ascii → Sym.

Lemma array_of_app a b (l : list ascii) :
  array_of as_Sym sizeof_Sym (a + b) l
  = array_of as_Sym sizeof_Sym a l ++ array_of as_Sym sizeof_Sym b (drop (a * sizeof_Sym) l).
Proof.
  revert l. induction a as [|a IH]; intros l; [done|].
  cbn [array_of Nat.add app Nat.mul]. rewrite IH, <- drop_drop. done.
Qed.

Lemma array_of_take n m (l : list ascii) :
  (n * sizeof_Sym <= m)%nat →
  array_of as_Sym sizeof_Sym n (take m l) = array_of as_Sym sizeof_Sym n l.
Proof.
  revert m l. induction n as [|n IH]; intros m l Hm; [done|].
  cbn [array_of Nat.mul] in *. rewrite take_take, Nat.min_l by lia.
  f_equal. replace m with (sizeof_Sym + (m - sizeof_Sym))%nat by lia.
  rewrite <- take_drop_commute. apply IH. lia.
Qed.

Lemma find_app_first {A} (p : A → bool) l l' :
  find p (l ++ l') = match find p l with Some x => Some x | None => find p l' end.
Proof. induction l as [|x l IH]; simpl; [done|]. by destruct (p x). Qed.

(** The name a symbol's entry leads to. *)
Definition name_at (data : list ascii) (strtab : Shdr) (symbol : Sym) (room : nat) : list ascii :=
  take room (drop (Z.to_nat (strtab.(sh_offset) + symbol.(st_name))) data).

Definition names_well (strtab : Shdr) (symbols : list Sym) : Prop :=
  Forall (λ s, 0 <= strtab.(sh_offset) + s.(st_name)) symbols.

Lemma find_symbol_loop_ok chunks fuel pc fd out symbol_offset strtab symtab num_symbols i :
  Failed ∉ fd.(script) → symtab.(sh_entsize) = 24 → 0 <= symtab.(sh_offset) → 0 <= i →
  num_symbols <= i + 32 * Z.of_nat chunks →
  ((0 < chunks)%nat → i + 32 * (Z.of_nat chunks - 1) < num_symbols) →
  let from := (Z.to_nat symtab.(sh_offset) + Z.to_nat i * sizeof_Sym)%nat in
  (from + 32 * chunks * sizeof_Sym <= length fd.(data))%nat →
  let table := array_of as_Sym sizeof_Sym (32 * chunks) (drop from fd.(data)) in
  names_well strtab table → (chunks < fuel)%nat →
  ∃ fd', find_symbol_loop as_Sym fuel pc fd out symbol_offset strtab symtab num_symbols i =
    match find (contains_pc pc symbol_offset) table with
    | Some symbol =>
        let name := name_at fd.(data) strtab symbol (length out) in
        Val (fd', overwrite 0 name out,
             bool_decide (name ≠ [] ∧ NUL ∈ overwrite 0 name out))
    | None => Val (fd', out, false)
    end.
Proof.
  revert chunks fd i. induction fuel as [|fuel IH]; intros chunks fd i; [lia|].
  intros Hs He Ho Hi Hn Hn' from Hlen table Hnames Hf. cbn [find_symbol_loop].
  destruct chunks as [|chunks].
  { destruct (Z.ltb_spec i num_symbols); [lia|]. subst table. simpl. by exists fd. }
  destruct (Z.ltb_spec i num_symbols); [|lia].
  rewrite He. assert (Z.to_nat (sh_offset symtab + i * 24) = from) as Hfrom.
  { unfold from, sizeof_Sym. lia. }
  destruct (ReadFromOffset_ok fd (NUM_SYMBOLS * sizeof_Sym) (sh_offset symtab + i * 24))
    as (fd1 & -> & Hd & Hs1); [done|lia|].
  rewrite Hfrom. set (l := take (NUM_SYMBOLS * sizeof_Sym) (drop from (data fd))).
  assert (length l = NUM_SYMBOLS * sizeof_Sym)%nat as Hl.
  { unfold l. rewrite length_take, length_drop. unfold NUM_SYMBOLS, sizeof_Sym in *. lia. }
  rewrite Hl. change ((NUM_SYMBOLS * sizeof_Sym) `mod` sizeof_Sym)%nat with 0%nat.
  change ((NUM_SYMBOLS * sizeof_Sym) / sizeof_Sym)%nat with 32%nat.
  rewrite decide_True by done. cbv zeta.
  assert (table = array_of as_Sym sizeof_Sym 32 l ++
    array_of as_Sym sizeof_Sym (32 * chunks) (drop (from + 32 * sizeof_Sym) (data fd))) as Htab.
  { unfold table, l. rewrite array_of_take by (unfold NUM_SYMBOLS, sizeof_Sym; lia).
    rewrite <- drop_drop, <- array_of_app. f_equal. lia. }
  rewrite Htab, find_app_first. rewrite Htab in Hnames.
  apply Forall_app in Hnames as [Hn1 Hn2].
  destruct (find _ (array_of as_Sym sizeof_Sym 32 l)) as [symbol|] eqn:Ef.
  - assert (0 <= sh_offset strtab + st_name symbol) as Hname.
    { apply find_some in Ef as [Hin _]. apply list_elem_of_In in Hin.
      rewrite Forall_forall in Hn1. by apply Hn1. }
    destruct (ReadFromOffset_ok fd1 (length out) (sh_offset strtab + st_name symbol))
      as (fd2 & -> & _ & _); [done..|].
    rewrite Hd. fold (name_at (data fd) strtab symbol (length out)). exists fd2. cbv zeta.
    destruct (name_at (data fd) strtab symbol (length out)) as [|c name].
    + rewrite bool_decide_false by tauto. done.
    + f_equal. f_equal. apply bool_decide_ext. split; [done|tauto].
  - specialize (IH chunks fd1 (i + 32)). rewrite Hd in IH.
    assert (Z.to_nat (sh_offset symtab) + Z.to_nat (i + 32) * sizeof_Sym
            = from + 32 * sizeof_Sym)%nat as Hnext.
    { unfold from, sizeof_Sym. lia. }
    cbv zeta in IH. rewrite Hnext in IH. change (Z.of_nat 32) with 32.
    apply IH; [done|done|done|lia|lia|lia|unfold sizeof_Sym in *; lia|done|lia].
Qed.

(** [FindSymbol] goes through the table in steps of 32 symbols, and where the
    file goes on that far behind the table, it ends and finds the first symbol
    that contains [pc], of the table and of what follows it up to the next
    multiple of 32 entries; it then holds the symbol's name, and it says
    whether that ended within [out]. *)
Theorem FindSymbol_first pc fd out symbol_offset strtab symtab :
  let symbols := symtab.(sh_size) / 24 in
  let chunks := Z.to_nat ((symbols + 31) / 32) in
  let table := array_of as_Sym sizeof_Sym (32 * chunks)
                 (drop (Z.to_nat symtab.(sh_offset)) fd.(data)) in
  Failed ∉ fd.(script) → symtab.(sh_entsize) = 24 → 0 <= symtab.(sh_offset) →
  0 <= symbols < 2147483648 →
  (Z.to_nat symtab.(sh_offset) + 32 * chunks * sizeof_Sym <= length fd.(data))%nat →
  names_well strtab table →
  ∃ fd', FindSymbol as_Sym (S chunks) pc fd out symbol_offset strtab symtab =
    match find (contains_pc pc symbol_offset) table with
    | Some symbol =>
        let name := name_at fd.(data) strtab symbol (length out) in
        Val (fd', overwrite 0 name out,
             bool_decide (name ≠ [] ∧ NUL ∈ overwrite 0 name out))
    | None => Val (fd', out, false)
    end.
Proof.
  intros symbols chunks table Hs He Ho Hn Hlen Hnames. unfold FindSymbol. rewrite He.
  change (24 =? 0) with false. cbv iota. fold symbols.
  assert (i32 symbols = symbols) as -> by (apply i32_small; unfold is_i32, I32_MAX; lia).
  assert (symbols <= 32 * Z.of_nat chunks) by (unfold chunks; Z.to_euclidean_division_equations; lia).
  pose proof (find_symbol_loop_ok chunks (S chunks) pc fd out symbol_offset strtab symtab symbols 0)
    as H1. cbv zeta in H1. change (Z.to_nat 0 * sizeof_Sym)%nat with 0%nat in H1.
  rewrite Nat.add_0_r in H1. apply H1; [done|done|done|lia|lia| |done|done|lia].
  intros Hc. unfold chunks in *. Z.to_euclidean_division_equations. lia.
Qed.

(** On a table that the file cuts off at its beginning, or that starts behind
    the end of the file, [FindSymbol] does not return: it reads nothing, which
    passes its assertion, and goes round with the same index. *)
Theorem FindSymbol_truncated_table pc fd out symbol_offset strtab symtab :
  Failed ∉ fd.(script) → symtab.(sh_entsize) = 24 → 0 <= symtab.(sh_offset) →
  0 < i32 (symtab.(sh_size) / 24) → (length fd.(data) <= Z.to_nat symtab.(sh_offset))%nat →
  ∀ fuel, FindSymbol as_Sym fuel pc fd out symbol_offset strtab symtab = Endless.
Proof.
  intros Hs He Ho Hn Hlen fuel. unfold FindSymbol. rewrite He.
  change (24 =? 0) with false. cbv iota. revert fd Hs Hlen.
  induction fuel as [|fuel IH]; intros fd Hs Hlen; [done|]. cbn [find_symbol_loop].
  destruct (Z.ltb_spec 0 (i32 (sh_size symtab / 24))); [|lia].
  rewrite He, Z.mul_0_l, Z.add_0_r.
  destruct (ReadFromOffset_ok fd (NUM_SYMBOLS * sizeof_Sym) (sh_offset symtab))
    as (fd1 & -> & Hd & Hs1); [done|lia|].
  rewrite drop_ge, take_nil by done. simpl. apply IH; [done|by rewrite Hd].
Qed.
End SymbolTables.

(** [Elf64_Sym] as it lies in a little-endian file. *)
Definition little_endian (l : list ascii) : Z := foldr (λ c v, chr c + 256 * v) 0 l.
Definition Elf64_Sym (l : list ascii) : Sym :=
  mkSym (little_endian (take 4 l)) (little_endian (take 8 (drop 8 l)))
    (little_endian (take 8 (drop 16 l))) (little_endian (take 2 (drop 6 l))).

(** A symbol at 16 of 16 bytes in section 1, its name at 1 of the string table;
    an entry of zeros; and a string table behind a table of 32 entries. *)
Definition a_symbol : list ascii :=
  (ascii_of_nat <$> [1; 0; 0; 0; 0; 0; 1; 0; 16; 0; 0; 0; 0; 0; 0; 0; 16; 0; 0; 0; 0; 0; 0; 0])%nat.
Definition no_symbol : list ascii := repeat NUL 24.
Definition strings : list ascii := NUL :: bytes "main" ++ [NUL].
Definition a_strtab : Shdr := mkShdr 0 3 768 6 0 0.
Definition a_symtab (symbols : Z) : Shdr := mkShdr 0 2 0 (24 * symbols) 0 24.
Definition a_file (entries : list (list ascii)) : Fd :=
  mkFd (concat entries ++ repeat NUL (768 - 24 * length entries) ++ strings) 0 [Interrupted; AtMost 7].

Lemma FindSymbol_first_witness :
  ∃ fd', FindSymbol Elf64_Sym 2 20 (a_file [no_symbol; a_symbol]) (repeat NUL 6) 0 a_strtab
           (a_symtab 2) = Val (fd', bytes "main" ++ [NUL; NUL], true).
Proof.
  destruct (FindSymbol_first Elf64_Sym 20 (a_file [no_symbol; a_symbol]) (repeat NUL 6) 0 a_strtab
              (a_symtab 2)) as (fd' & H);
    [bd|reflexivity|simpl; lia|vm_compute; split; [intros ?|]; congruence|vm_compute; lia|bd|].
  exists fd'. change (Z.to_nat ((sh_size (a_symtab 2) / 24 + 31) / 32)) with 1%nat in H.
  rewrite H. vm_compute. reflexivity.
Defined.

Lemma FindSymbol_truncated_table_witness :
  FindSymbol Elf64_Sym 1000 20 (mkFd (repeat NUL 64) 0 []) (repeat NUL 6) 0 a_strtab
    (mkShdr 0 2 64 48 0 24) = Endless.
Proof.
  apply FindSymbol_truncated_table; [bd|reflexivity|simpl; lia|reflexivity|simpl; lia].
Defined.

(** [FindSymbol] looks behind the table.  Of the file's two entries the table
    has the first, and the first does not contain 20; what is found is the
    second, which is not a symbol of the table.  And where the file ends
    within 32 entries of the table's start and not a multiple of 24 bytes behind
    it, the program is aborted, here in a lookup in a table of one symbol,
    complete and with its string table, which contains the address. *)
Theorem FindSymbol_looks_behind_the_table :
  contains_pc 20 0 (Elf64_Sym no_symbol) = false ∧
  (∃ fd', FindSymbol Elf64_Sym 2 20 (a_file [no_symbol; a_symbol]) (repeat NUL 6) 0 a_strtab
            (a_symtab 1) = Val (fd', bytes "main" ++ [NUL; NUL], true)) ∧
  contains_pc 20 0 (Elf64_Sym a_symbol) = true ∧
  FindSymbol Elf64_Sym 2 20 (mkFd (a_symbol ++ strings) 0 []) (repeat NUL 6) 0
    (mkShdr 0 3 24 6 0 0) (a_symtab 1) = Abort.
Proof.
  split; [reflexivity|]. split; [eexists; vm_compute; reflexivity|].
  split; vm_compute; reflexivity.
Qed.
