(* ===== verification/Regex.v ===== *)
(** The simple regular expressions of Google Test
    ([src/lib/googletest/src/gtest-port.cc], the branch [GTEST_USES_SIMPLE_RE]):
    their validation, the matcher, and [class RE] on top of them, against the
    language a regular expression denotes.

    A C string is the list of its characters without the terminator, and a
    null pointer [None].  A read behind the terminator makes the matcher's
    result [None]. *)

From S2P Require Import Prelude Strings Demangle.
From stdpp Require Import base list strings sets.
From Stdlib Require Import ZArith Ascii.

Open Scope Z_scope.

(** * Classes of characters *)

Definition IsInSet (ch : ascii) (str : list ascii) : bool := bool_decide (ch ≠ NUL ∧ ch ∈ str).

Definition IsAsciiDigit (ch : ascii) : bool := in_range "0" "9" ch.

(** The double quote has no notation in a string. *)
Definition punctuation : list ascii :=
  bytes "^-!" ++ ["034"%char] ++ bytes "#$%&'()*+,./:;<=>?@[\]_`{|}~".
Definition IsAsciiPunct (ch : ascii) : bool := IsInSet ch punctuation.
Definition IsRepeat (ch : ascii) : bool := IsInSet ch (bytes "?*+").

Definition FF : ascii := "012"%char.
Definition LF : ascii := "010"%char.
Definition CR : ascii := "013"%char.
Definition HT : ascii := "009"%char.
Definition VT : ascii := "011"%char.
Definition IsAsciiWhiteSpace (ch : ascii) : bool := IsInSet ch [" "%char; FF; LF; CR; HT; VT].

Definition IsAsciiWordChar (ch : ascii) : bool :=
  in_range "a" "z" ch || in_range "A" "Z" ch || in_range "0" "9" ch || bool_decide (ch = "_"%char).

Definition IsValidEscape (c : ascii) : bool := IsAsciiPunct c || IsInSet c (bytes "dDfnrsStvwW").

Definition AtomMatchesChar (escaped : bool) (pattern_char ch : ascii) : bool :=
  if escaped then
    match pattern_char with
    | "d" => IsAsciiDigit ch
    | "D" => negb (IsAsciiDigit ch)
    | "f" => bool_decide (ch = FF)
    | "n" => bool_decide (ch = LF)
    | "r" => bool_decide (ch = CR)
    | "s" => IsAsciiWhiteSpace ch
    | "S" => negb (IsAsciiWhiteSpace ch)
    | "t" => bool_decide (ch = HT)
    | "v" => bool_decide (ch = VT)
    | "w" => IsAsciiWordChar ch
    | "W" => negb (IsAsciiWordChar ch)
    | _ => IsAsciiPunct pattern_char && bool_decide (pattern_char = ch)
    end%char
  else
    (bool_decide (pattern_char = "."%char) && bool_decide (ch ≠ LF)) || bool_decide (pattern_char = ch).

(** * Validation *)

Definition quoted (l : list ascii) : list ascii := ["034"%char] ++ l ++ ["034"%char].

Definition FormatRegexSyntaxError (regex : list ascii) (index : Z) : list ascii :=
  bytes "Syntax error at index " ++ bytes (to_string index)
  ++ bytes " in simple regular expression " ++ quoted regex ++ bytes ": ".

(** The loop of [ValidateRegex] from index [i] on, where [rest] is left: the
    failures it adds, and what it returns. *)
Fixpoint validate_loop (regex rest : list ascii) (i : Z) (prev_repeatable : bool)
    : list (list ascii) * bool :=
  match rest with
  | [] => ([], true)
  | ch :: rest =>
      if decide (ch = "\"%char) then
        match rest with
        | [] => ([FormatRegexSyntaxError regex i ++ bytes "'\' cannot appear at the end."], false)
        | c :: rest =>
            let '(failures, valid) := validate_loop regex rest (i + 2) true in
            if IsValidEscape c then (failures, valid)
            else ((FormatRegexSyntaxError regex i ++ bytes "invalid escape sequence "
                   ++ quoted ["\"%char; c] ++ bytes ".") :: failures, false)
        end
      else
        let error :=
          if bool_decide (ch = "^"%char) && (0 <? i)
          then Some (bytes "'^' can only appear at the beginning.")
          else if bool_decide (ch = "$"%char) && negb (bool_decide (rest = []))
          then Some (bytes "'$' can only appear at the end.")
          else if IsInSet ch (bytes "()[]{}|") then Some (bytes "'" ++ [ch] ++ bytes "' is unsupported.")
          else if IsRepeat ch && negb prev_repeatable
          then Some (bytes "'" ++ [ch] ++ bytes "' can only follow a repeatable token.")
          else None in
        let '(failures, valid) := validate_loop regex rest (i + 1) (negb (IsInSet ch (bytes "^$?*+"))) in
        match error with
        | None => (failures, valid)
        | Some e => ((FormatRegexSyntaxError regex i ++ e) :: failures, false)
        end
  end.

Definition ValidateRegex (regex : option (list ascii)) : list (list ascii) * bool :=
  match regex with
  | None => ([bytes "NULL is not a valid simple regular expression."], false)
  | Some regex => validate_loop regex regex 0 false
  end.

(** * Matching *)

(** The loop of [MatchRepetitionAndRegexAtHead]: [i] characters match the atom,
    and [str] is left; [tail] is [MatchRegexAtHead] of the rest. *)
Fixpoint repetition_loop (tail : list ascii → option bool) (escaped : bool) (c : ascii)
    (min_count max_count i : Z) (str : list ascii) : option bool :=
  if max_count <? i then Some false
  else
    m ← (if min_count <=? i then tail str else Some false);
    if m : bool then Some true
    else
      match str with
      | [] => Some false
      | ch :: str =>
          if AtomMatchesChar escaped c ch
          then repetition_loop tail escaped c min_count max_count (i + 1) str else Some false
      end.

Definition MatchRepetitionAndRegexAtHead (tail : list ascii → option bool) (escaped : bool)
    (c repeat : ascii) (str : list ascii) : option bool :=
  let min_count := if decide (repeat = "+"%char) then 1 else 0 in
  let max_count := if decide (repeat = "?"%char) then 1 else u64 (-1) - 1 in
  repetition_loop tail escaped c min_count max_count 0 str.

(** One atom against one character. *)
Definition one_char (escaped : bool) (c : ascii) (next : list ascii → option bool)
    (str : list ascii) : option bool :=
  match str with
  | [] => Some false
  | ch :: str => if AtomMatchesChar escaped c ch then next str else Some false
  end.

Fixpoint MatchRegexAtHead (regex str : list ascii) {struct regex} : option bool :=
  let from (escaped : bool) (c : ascii) (r : list ascii) : option bool :=
    match r with
    | q :: r' =>
        if IsRepeat q
        then MatchRepetitionAndRegexAtHead (MatchRegexAtHead r') escaped c q str
        else one_char escaped c (MatchRegexAtHead r) str
    | [] => one_char escaped c (MatchRegexAtHead r) str
    end in
  match regex with
  | [] => Some true
  | c :: r =>
      if decide (c = "$"%char) then Some (bool_decide (str = []))
      else if decide (c = "\"%char)
      then match r with [] => None | c :: r => from true c r end
      else from false c r
  end.

(** [MatchRegexAnywhere]: the [do] loop over the suffixes. *)
Fixpoint anywhere_loop (head : list ascii → option bool) (str : list ascii) : option bool :=
  m ← head str;
  if m : bool then Some true
  else match str with [] => Some false | _ :: str => anywhere_loop head str end.

Definition MatchRegexAnywhere (regex str : option (list ascii)) : option bool :=
  match regex, str with
  | Some regex, Some str =>
      match regex with
      | "^"%char :: r => MatchRegexAtHead r str
      | _ => anywhere_loop (MatchRegexAtHead regex) str
      end
  | _, _ => Some false
  end.

(** * [class RE] *)

Record RE := mkRE {
  pattern_ : option (list ascii);
  full_pattern_ : option (list ascii);
  is_valid_ : bool
}.

(** The full pattern of [RE::Init]. *)
Definition full_pattern (regex : list ascii) : list ascii :=
  (if decide (head regex = Some "^"%char) then [] else bytes "^") ++ regex
  ++ (if decide (last regex = Some "$"%char) then [] else bytes "$").

(** [RE::Init]: the object and the failures added. *)
Definition Init (regex : option (list ascii)) : RE * list (list ascii) :=
  let '(failures, valid) := ValidateRegex regex in
  (mkRE regex (if valid : bool then full_pattern <$> regex else None) valid, failures).

Definition FullMatch (str : option (list ascii)) (re : RE) : option bool :=
  if re.(is_valid_) then MatchRegexAnywhere re.(full_pattern_) str else Some false.

Definition PartialMatch (str : option (list ascii)) (re : RE) : option bool :=
  if re.(is_valid_) then MatchRegexAnywhere re.(pattern_) str else Some false.

(** * The reference: what a regular expression denotes *)

(** An atom, and the repetition character after it if there is one; and a whole
    expression with its anchors. *)
Record Item := mkItem { escaped : bool; atom : ascii; repeated : option ascii }.
Record Expr := mkExpr { caret : bool; items : list Item; dollar : bool }.

Definition print_item (it : Item) : list ascii :=
  (if it.(escaped) then bytes "\" else []) ++ [it.(atom)] ++ option_list it.(repeated).
Definition print_items (its : list Item) : list ascii := concat (print_item <$> its).
Definition print (e : Expr) : list ascii :=
  (if e.(caret) then bytes "^" else []) ++ print_items e.(items)
  ++ (if e.(dollar) then bytes "$" else []).

(** The atoms there are. *)
Definition valid_atom (escaped : bool) (c : ascii) : bool :=
  if escaped then IsValidEscape c
  else bool_decide ((c ∉ bytes "\^$") ∧ c ≠ NUL) && negb (IsInSet c (bytes "()[]{}|")) && negb (IsRepeat c).
Definition valid_item (it : Item) : bool :=
  valid_atom it.(escaped) it.(atom) && match it.(repeated) with None => true | Some q => IsRepeat q end.
Definition valid (e : Expr) : bool := forallb valid_item e.(items).

(** The numbers of repetitions a repetition character allows. *)
Definition allows (r : option ascii) (n : nat) : Prop :=
  match r with
  | None => n = 1%nat
  | Some q =>
      if decide (q = "?"%char) then (n <= 1)%nat else if decide (q = "+"%char) then (1 <= n)%nat else True
  end.

Definition item_denotes (it : Item) (s : list ascii) : Prop :=
  allows it.(repeated) (length s) ∧ Forall (λ ch, AtomMatchesChar it.(escaped) it.(atom) ch = true) s.

Fixpoint denotes (its : list Item) (s : list ascii) : Prop :=
  match its with
  | [] => s = []
  | it :: its => ∃ s1 s2, s = s1 ++ s2 ∧ item_denotes it s1 ∧ denotes its s2
  end.

(** A prefix of [s], or all of it, is denoted. *)
Definition at_head (its : list Item) (dollar : bool) (s : list ascii) : Prop :=
  ∃ s1 s2, s = s1 ++ s2 ∧ denotes its s1 ∧ (dollar = true → s2 = []).

(** The strings [PartialMatch] and [FullMatch] are to accept. *)
Definition finds (e : Expr) (s : list ascii) : Prop :=
  ∃ s0 s1, s = s0 ++ s1 ∧ (e.(caret) = true → s0 = []) ∧ at_head e.(items) e.(dollar) s1.

(** * Validation accepts what is printed *)

Lemma IsInSet_spec c l : IsInSet c l = true ↔ c ≠ NUL ∧ c ∈ l.
Proof. unfold IsInSet. by rewrite bool_decide_eq_true. Qed.

Lemma repeat_chars q : IsRepeat q = true → q = "?"%char ∨ q = "*"%char ∨ q = "+"%char.
Proof.
  intros [_ H]%IsInSet_spec. simpl in H.
  repeat (apply elem_of_cons in H as [->|H]; [tauto|]). by apply elem_of_nil in H.
Qed.

(** What [validate_loop] does to a character that is no backslash, as a test. *)
Definition plain_ok (ch : ascii) (last_one : bool) (i : Z) (prev : bool) : bool :=
  negb (bool_decide (ch = "^"%char) && (0 <? i)) && negb (bool_decide (ch = "$"%char) && negb last_one)
  && negb (IsInSet ch (bytes "()[]{}|")) && negb (IsRepeat ch && negb prev).

Lemma validate_plain regex ch rest i prev :
  ch ≠ "\"%char →
  (validate_loop regex (ch :: rest) i prev = ([], true) ↔
   plain_ok ch (bool_decide (rest = [])) i prev = true ∧
   validate_loop regex rest (i + 1) (negb (IsInSet ch (bytes "^$?*+"))) = ([], true)).
Proof.
  intros Hch. cbn [validate_loop]. rewrite decide_False by done. unfold plain_ok.
  destruct (validate_loop regex rest (i + 1) _) as [fs v].
  destruct (bool_decide (ch = "^"%char) && (0 <? i)); [by split; [|intros []]|].
  destruct (bool_decide (ch = "$"%char) && negb (bool_decide (rest = []))); [by split; [|intros []]|].
  destruct (IsInSet ch (bytes "()[]{}|")); [by split; [|intros []]|].
  destruct (IsRepeat ch && negb prev); [by split; [|intros []]|]. tauto.
Qed.

Lemma validate_escape regex c rest i prev :
  validate_loop regex ("\"%char :: c :: rest) i prev = ([], true) ↔
  IsValidEscape c = true ∧ validate_loop regex rest (i + 2) true = ([], true).
Proof.
  cbn [validate_loop]. rewrite decide_True by done.
  destruct (validate_loop regex rest (i + 2) true) as [fs v].
  destruct (IsValidEscape c); [tauto|]. by split; [|intros []].
Qed.

(** What is left of an expression behind an atom. *)
Definition tail_of (prev : bool) (rest : list ascii) : Prop :=
  ∃ (r : option ascii) (its : list Item) (d : bool), rest = option_list r ++ print_items its ++ (if d then bytes "$" else []) ∧
    forallb valid_item its = true ∧ (prev = false → r = None) ∧
    match r with None => True | Some q => IsRepeat q = true end.

Lemma tail_of_nil prev : tail_of prev [].
Proof. exists None, [], false. by repeat split. Qed.

Lemma tail_of_dollar prev : tail_of prev (bytes "$").
Proof. exists None, [], true. by repeat split. Qed.

Lemma tail_of_atom esc c prev rest :
  valid_atom esc c = true → tail_of true rest →
  tail_of prev ((if esc then bytes "\" else []) ++ c :: rest).
Proof.
  intros Hv (r & its & d & -> & Hits & _ & Hr). exists None, (mkItem esc c r :: its), d.
  split; [|split; [|done]].
  - unfold print_items. simpl. unfold print_item. simpl. by rewrite <- !app_assoc.
  - simpl. unfold valid_item at 1. simpl. rewrite Hv, Hits. by destruct r as [q|]; [rewrite Hr|].
Qed.

Lemma tail_of_repeat q rest : IsRepeat q = true → tail_of false rest → tail_of true (q :: rest).
Proof.
  intros Hq (r & its & d & -> & Hits & Hn & _). rewrite Hn by done. by exists (Some q), its, d.
Qed.

(** The ways a rest can begin. *)
Lemma tail_of_inv prev rest :
  tail_of prev rest →
  rest = [] ∨ rest = bytes "$" ∨
  (∃ q rest', rest = q :: rest' ∧ prev = true ∧ IsRepeat q = true ∧ tail_of false rest') ∨
  (∃ (esc : bool) c rest', rest = (if esc then bytes "\" else []) ++ c :: rest' ∧ valid_atom esc c = true ∧
     tail_of true rest').
Proof.
  intros (r & its & d & -> & Hits & Hn & Hr). destruct r as [q|].
  - right. right. left. exists q, (print_items its ++ (if d then bytes "$" else [])).
    split; [done|]. split; [by destruct prev; [|specialize (Hn eq_refl)]|]. split; [done|].
    by exists None, its, d.
  - destruct its as [|[esc c r] its].
    + destruct d; [right; by left|by left].
    + right. right. right. apply andb_prop in Hits as [Hi Hits].
      unfold valid_item in Hi. simpl in Hi. apply andb_prop in Hi as [Ha Hq].
      exists esc, c, (option_list r ++ print_items its ++ (if d then bytes "$" else [])).
      split; [unfold print_items; simpl; unfold print_item; simpl; by rewrite <- !app_assoc|].
      split; [done|]. exists r, its, d. repeat split; [done|done|]. by destruct r.
Qed.

(** What a character that is no backslash may be. *)
Lemma plain_kinds ch last_one i prev :
  ch ≠ NUL → ch ≠ "\"%char → 0 < i →
  plain_ok ch last_one i prev = true →
  (ch = "$"%char ∧ last_one = true) ∨ (IsRepeat ch = true ∧ prev = true) ∨
  (valid_atom false ch = true ∧ IsInSet ch (bytes "^$?*+") = false).
Proof.
  intros Hnul Hb Hi. unfold plain_ok. destruct (Z.ltb_spec 0 i); [|lia].
  destruct (decide (ch = "^"%char)) as [->|H1]; [rewrite (bool_decide_eq_true_2 _ eq_refl); discriminate|].
  rewrite (bool_decide_eq_false_2 _ H1). cbn [negb andb].
  destruct (decide (ch = "$"%char)) as [->|H2].
  { rewrite (bool_decide_eq_true_2 _ eq_refl). destruct last_one; [by left|discriminate]. }
  rewrite (bool_decide_eq_false_2 _ H2). cbn [negb andb].
  destruct (IsInSet ch (bytes "()[]{}|")) eqn:H3; [done|]. cbn [negb andb].
  destruct (IsRepeat ch) eqn:H4; [destruct prev; [tauto|done]|]. intros _. right. right.
  split.
  - unfold valid_atom. rewrite H3, H4. cbn [negb]. rewrite !andb_true_r. apply bool_decide_eq_true.
    split; [set_solver|done].
  - apply not_true_iff_false. intros [_ Hin]%IsInSet_spec. simpl in Hin.
    apply not_true_iff_false in H4. apply H4, IsInSet_spec. split; [done|]. set_solver.
Qed.

Lemma valid_atom_plain c i prev last_one :
  valid_atom false c = true →
  c ≠ "\"%char ∧ plain_ok c last_one i prev = true ∧ IsInSet c (bytes "^$?*+") = false.
Proof.
  unfold valid_atom. rewrite !andb_true_iff, !negb_true_iff, bool_decide_eq_true.
  intros [[[Hc Hnul] H3] H4]. split; [set_solver|]. split.
  - unfold plain_ok. rewrite H3, H4.
    rewrite (bool_decide_eq_false_2 (c = "^"%char)), (bool_decide_eq_false_2 (c = "$"%char)) by set_solver.
    done.
  - apply not_true_iff_false. intros [_ Hin]%IsInSet_spec. simpl in Hin.
    apply not_true_iff_false in H4. apply H4, IsInSet_spec. split; [done|]. set_solver.
Qed.

Lemma validate_loop_ok regex rest i prev :
  NUL ∉ rest → 0 < i → (validate_loop regex rest i prev = ([], true) ↔ tail_of prev rest).
Proof.
  remember (length rest) as n eqn:Hn. revert rest i prev Hn.
  induction n as [n IH] using lt_wf_ind. intros rest i prev Hn Hnul Hi. split.
  - destruct rest as [|ch rest]; [intros _; apply tail_of_nil|].
    destruct (decide (ch = "\"%char)) as [->|Hch].
    + destruct rest as [|c rest]; [done|]. rewrite validate_escape. intros [Hc Hv].
      apply (tail_of_atom true); [done|]. apply (IH (length rest)) in Hv; [done|simpl in Hn; lia|done|set_solver|lia].
    + rewrite validate_plain by done. intros [Hok Hv].
      apply (IH (length rest)) in Hv; [|simpl in Hn; lia|done|set_solver|lia].
      apply plain_kinds in Hok as [[-> Hl]|[[Hq ->]|[Ha Hset]]]; [| | |set_solver|done|done].
      * apply bool_decide_eq_true in Hl as ->. apply tail_of_dollar.
      * apply tail_of_repeat; [done|]. destruct (IsInSet ch (bytes "^$?*+")) eqn:E; [done|].
        exfalso. apply not_true_iff_false in E. apply E. apply IsInSet_spec in Hq as [? ?].
        apply IsInSet_spec. split; [done|]. set_solver.
      * rewrite Hset in Hv. by apply (tail_of_atom false).
  - intros [->|[->|[(q & rest' & -> & -> & Hq & Ht)|(esc & c & rest' & -> & Ha & Ht)]]]%tail_of_inv.
    + done.
    + change (bytes "$") with ["$"%char]. rewrite validate_plain by done. by split; [destruct i|].
    + pose proof (repeat_chars q Hq) as Hqs.
      rewrite validate_plain by (destruct Hqs as [->|[->| ->]]; done). split.
      * unfold plain_ok. by destruct Hqs as [->|[->| ->]].
      * apply (IH (length rest')); [simpl in Hn; lia|done|set_solver|lia|].
        by destruct Hqs as [->|[->| ->]].
    + destruct esc; simpl app in *.
      * apply validate_escape. split; [done|].
        apply (IH (length rest')); [simpl in Hn; lia|done|set_solver|lia|done].
      * destruct (valid_atom_plain c i prev (bool_decide (rest' = [])) Ha) as (Hb & Hok & Hset).
        rewrite validate_plain by done. split; [done|]. rewrite Hset.
        apply (IH (length rest')); [simpl in Hn; lia|done|set_solver|lia|done].
Qed.

(** A positive index does not matter. *)
Lemma validate_start regex ch rest :
  NUL ∉ ch :: rest → ch ≠ "^"%char →
  (validate_loop regex (ch :: rest) 0 false = ([], true) ↔ tail_of false (ch :: rest)).
Proof.
  intros Hnul Hch. rewrite <- (validate_loop_ok regex (ch :: rest) 1) by (done || lia).
  destruct (decide (ch = "\"%char)) as [->|Hb].
  - destruct rest as [|c rest]; [done|]. rewrite !validate_escape.
    by rewrite !(validate_loop_ok _ rest) by (set_solver || lia).
  - rewrite !validate_plain by done. rewrite !(validate_loop_ok _ rest) by (set_solver || lia).
    unfold plain_ok. by rewrite (bool_decide_eq_false_2 _ Hch).
Qed.

Lemma ValidateRegex_ok regex :
  NUL ∉ regex →
  (ValidateRegex (Some regex) = ([], true) ↔ ∃ e, valid e = true ∧ regex = print e).
Proof.
  intros Hnul. simpl. split.
  - intros Hv. destruct regex as [|ch rest]; [by exists (mkExpr false [] false)|].
    destruct (decide (ch = "^"%char)) as [->|Hch].
    + rewrite validate_plain in Hv by done. destruct Hv as [_ Hv].
      apply validate_loop_ok in Hv as (r & its & d & -> & Hits & Hr & _); [|set_solver|lia].
      rewrite Hr by done. exists (mkExpr true its d). by split.
    + apply validate_start in Hv as (r & its & d & E & Hits & Hr & _); [|done..].
      rewrite Hr in E by done. exists (mkExpr false its d). by split.
  - intros ([[] its d] & Hits & ->); unfold print in *; simpl caret in *; cbv iota in *.
    + change (bytes "^") with ["^"%char] in *. simpl app in *. rewrite validate_plain by done.
      split; [done|]. apply validate_loop_ok; [set_solver|lia|]. by exists None, its, d.
    + assert (tail_of false (print_items its ++ (if d then bytes "$" else []))) as Ht
        by by exists None, its, d.
      destruct (tail_of_inv _ _ Ht) as [E|[E|[(q & r & _ & H & _)|(esc & c & r & E & Ha & _)]]];
        [..|done|]; simpl in *; rewrite E in *; [done|by vm_compute|].
      destruct esc; [by apply validate_start|].
      apply validate_start; [done| |done]. intros ->. done.
Qed.

(** [ValidateRegex] accepts exactly the regular expressions of the syntax: an
    optional ^, atoms with at most one repetition character each, and an optional
    $, where an atom is a plain character or one of the escapes; and it reports
    nothing when it accepts. *)
Theorem ValidateRegex_accepts regex :
  NUL ∉ regex →
  (ValidateRegex (Some regex) = ([], true) ↔ ∃ e, valid e = true ∧ regex = print e).
Proof. apply ValidateRegex_ok. Qed.

Lemma ValidateRegex_accepts_witness : ∃ e, valid e = true ∧ bytes "^a+\.\w*$" = print e.
Proof.
  apply (proj1 (ValidateRegex_accepts (bytes "^a+\.\w*$") ltac:(bd))). vm_compute. reflexivity.
Defined.

(** * The matcher decides the language *)

(** [o] is a result, and it says whether [P]. *)
Definition decides (o : option bool) (P : Prop) : Prop := ∃ b, o = Some b ∧ (b = true ↔ P).

Lemma decides_iff o P Q : (P ↔ Q) → decides o P → decides o Q.
Proof. intros H (b & -> & Hb). exists b. split; [done|]. by rewrite Hb. Qed.

Lemma repetition_loop_ok tail T esc c min_count max_count i str :
  (∀ s, (length s <= length str)%nat → decides (tail s) (T s)) →
  decides (repetition_loop tail esc c min_count max_count i str)
    (∃ s1 s2, str = s1 ++ s2 ∧ Forall (λ ch, AtomMatchesChar esc c ch = true) s1 ∧
       min_count <= i + Z.of_nat (length s1) <= max_count ∧ T s2).
Proof.
  revert i. induction str as [|ch str IH]; intros i Htail; cbn [repetition_loop];
    destruct (Z.ltb_spec max_count i) as [Hmax|Hmax].
  1, 3: exists false; split; [done|]; split; [done|]; intros (s1 & s2 & _ & _ & H & _); lia.
  - assert (∀ b, b = true ↔ T [] → decides (if b : bool then Some true else Some false) (T [])) as Hd.
    { intros b Hb. exists b. by destruct b. }
    destruct (Htail [] ltac:(done)) as (b & Eb & Hb). destruct (Z.leb_spec min_count i) as [Hi|Hi].
    + rewrite Eb. simpl. apply (decides_iff _ (T [])); [|by apply Hd]. split.
      * intros HT. exists [], []. split; [done|]. split; [constructor|]. simpl. split; [lia|done].
      * intros (s1 & s2 & E & _ & _ & HT). symmetry in E. apply app_eq_nil in E as [-> ->]. done.
    + exists false. split; [done|]. split; [done|]. intros (s1 & s2 & E & _ & H & _).
      symmetry in E. apply app_eq_nil in E as [-> ->]. simpl in H. lia.
  - destruct (IH (i + 1)) as (b2 & E2 & H2).
    { intros s Hs. apply Htail. simpl. lia. }
    assert (decides (if AtomMatchesChar esc c ch
        then repetition_loop tail esc c min_count max_count (i + 1) str else Some false)
      (∃ s1 s2, ch :: str = s1 ++ s2 ∧ s1 ≠ [] ∧ Forall (λ ch, AtomMatchesChar esc c ch = true) s1 ∧
         min_count <= i + Z.of_nat (length s1) <= max_count ∧ T s2)) as Hrest.
    { destruct (AtomMatchesChar esc c ch) eqn:Ea.
      - exists b2. split; [done|]. rewrite H2. split.
        + intros (s1 & s2 & -> & Hf & Hl & HT). exists (ch :: s1), s2. split; [done|].
          split; [done|]. split; [by constructor|]. split; [simpl; lia|done].
        + intros ([|x s1] & s2 & E & Hne & Hf & Hl & HT); [done|]. injection E as <- ->.
          apply Forall_cons in Hf as [_ Hf]. exists s1, s2. split; [done|]. split; [done|].
          split; [simpl in Hl; lia|done].
      - exists false. split; [done|]. split; [done|].
        intros ([|x s1] & s2 & E & Hne & Hf & _); [done|]. injection E as <- ->.
        apply Forall_cons in Hf as [Hf _]. congruence. }
    destruct (Htail (ch :: str) ltac:(done)) as (b & Eb & Hb).
    destruct Hrest as (b3 & E3 & H3). rewrite E3.
    destruct (Z.leb_spec min_count i) as [Hi|Hi].
    + rewrite Eb. simpl. exists (b || b3). split; [by destruct b, b3|]. rewrite orb_true_iff, Hb, H3.
      split.
      * intros [HT|(s1 & s2 & E & _ & H)]; [|by exists s1, s2]. exists [], (ch :: str).
        split; [done|]. split; [constructor|]. simpl. split; [lia|done].
      * intros ([|x s1] & s2 & E & Hf & Hl & HT); [simpl in E; subst s2; by left|].
        right. exists (x :: s1), s2. by split.
    + simpl. exists b3. split; [by destruct b3|]. rewrite H3. split.
      * intros (s1 & s2 & E & _ & H). by exists s1, s2.
      * intros ([|x s1] & s2 & E & Hf & Hl & HT); [simpl in Hl; lia|]. exists (x :: s1), s2. done.
Qed.

(** The strings the loop can go through. *)
Definition indexable (s : list ascii) : Prop := Z.of_nat (length s) <= U64 - 2.

Lemma MatchRepetition_ok tail T esc c q str :
  IsRepeat q = true → indexable str →
  (∀ s, (length s <= length str)%nat → decides (tail s) (T s)) →
  decides (MatchRepetitionAndRegexAtHead tail esc c q str)
    (∃ s1 s2, str = s1 ++ s2 ∧ item_denotes (mkItem esc c (Some q)) s1 ∧ T s2).
Proof.
  intros Hq Hlen Htail. unfold MatchRepetitionAndRegexAtHead.
  eapply decides_iff; [|by apply repetition_loop_ok].
  change (u64 (-1) - 1) with (U64 - 2). unfold indexable, item_denotes in *. simpl.
  split; intros (s1 & s2 & E & H); exists s1, s2; (split; [done|]);
    assert (length s1 <= length str)%nat by (rewrite E, length_app; lia);
    destruct (repeat_chars q Hq) as [->|[->| ->]]; simpl in *; repeat case_decide; try done;
    destruct_and!; repeat split; try done; lia.
Qed.

Lemma one_char_ok next T esc c str :
  (∀ s, (length s <= length str)%nat → decides (next s) (T s)) →
  decides (one_char esc c next str)
    (∃ s1 s2, str = s1 ++ s2 ∧ item_denotes (mkItem esc c None) s1 ∧ T s2).
Proof.
  intros Hnext. unfold item_denotes. simpl. destruct str as [|ch str]; simpl.
  { exists false. split; [done|]. split; [done|]. intros ([|] & s2 & E & [Hl _] & _); done. }
  destruct (AtomMatchesChar esc c ch) eqn:Ea.
  - eapply decides_iff; [|apply Hnext; simpl; lia]. split.
    + intros HT. exists [ch], str. split; [done|]. split; [|done]. split; [done|].
      by repeat constructor.
    + intros ([|x [|y s1]] & s2 & E & [Hl Hf] & HT); try done. by injection E as <- ->.
  - exists false. split; [done|]. split; [done|].
    intros ([|x [|y s1]] & s2 & E & [Hl Hf] & HT); try done. injection E as <- ->.
    apply Forall_cons in Hf as [Hf _]. congruence.
Qed.

Lemma MatchRegexAtHead_atom esc c rest str :
  valid_atom esc c = true →
  MatchRegexAtHead ((if esc : bool then bytes "\" else []) ++ c :: rest) str =
    match rest with
    | q :: r' =>
        if IsRepeat q then MatchRepetitionAndRegexAtHead (MatchRegexAtHead r') esc c q str
        else one_char esc c (MatchRegexAtHead rest) str
    | [] => one_char esc c (MatchRegexAtHead rest) str
    end.
Proof.
  intros Hv. destruct esc; [by destruct rest|]. cbn [app MatchRegexAtHead].
  unfold valid_atom in Hv. apply andb_prop in Hv as [Hv _]. apply andb_prop in Hv as [Hv _].
  apply bool_decide_eq_true in Hv as [Hc _].
  rewrite decide_False by set_solver. rewrite decide_False by set_solver. done.
Qed.

(** What follows an atom without repetition does not begin with one. *)
Lemma items_do_not_repeat its (d : bool) q r :
  forallb valid_item its = true →
  print_items its ++ (if d then bytes "$" else []) = q :: r → IsRepeat q = false.
Proof.
  intros Hits E. assert (tail_of false (q :: r)) as Ht by (rewrite <- E; by exists None, its, d).
  apply not_true_iff_false. intros Hq.
  destruct (tail_of_inv _ _ Ht) as [H|[H|[(q' & r' & _ & H & _)|(esc & c & r' & H & Ha & _)]]].
  - done.
  - injection H as -> _. done.
  - done.
  - destruct esc; injection H as -> _; [done|]. unfold valid_atom in Ha. rewrite Hq in Ha.
    by rewrite andb_false_r in Ha.
Qed.

Lemma at_head_cons it its d s :
  (∃ s1 s2, s = s1 ++ s2 ∧ item_denotes it s1 ∧ at_head its d s2) ↔ at_head (it :: its) d s.
Proof.
  unfold at_head. simpl. split.
  - intros (s1 & ? & -> & Hi & s2 & s3 & -> & Hd & Hs). exists (s1 ++ s2), s3.
    rewrite <- app_assoc. split; [done|]. split; [|done]. by exists s1, s2.
  - intros (? & s3 & -> & (s1 & s2 & -> & Hi & Hd) & Hs). exists s1, (s2 ++ s3).
    rewrite <- app_assoc. split; [done|]. split; [done|]. by exists s2, s3.
Qed.

Lemma MatchRegexAtHead_ok its (d : bool) str :
  forallb valid_item its = true → indexable str →
  decides (MatchRegexAtHead (print_items its ++ (if d then bytes "$" else [])) str) (at_head its d str).
Proof.
  revert str. induction its as [|[esc c r] its IH]; intros str Hits Hlen.
  - unfold at_head. simpl. destruct d; simpl.
    + eexists. split; [done|]. rewrite bool_decide_eq_true. split.
      * intros ->. by exists [], [].
      * intros (s1 & s2 & -> & -> & ->); done.
    + exists true. split; [done|]. split; [|done]. intros _. by exists [], str.
  - apply andb_prop in Hits as [Hi Hits]. unfold valid_item in Hi. simpl in Hi.
    apply andb_prop in Hi as [Ha Hr].
    assert (print_items (mkItem esc c r :: its) ++ (if d then bytes "$" else [])
      = (if esc then bytes "\" else []) ++ c :: option_list r
        ++ print_items its ++ (if d then bytes "$" else [])) as ->.
    { unfold print_items. simpl. unfold print_item. simpl. by rewrite <- !app_assoc. }
    rewrite MatchRegexAtHead_atom by done. eapply decides_iff; [apply at_head_cons|].
    assert (∀ s, (length s <= length str)%nat →
      decides (MatchRegexAtHead (print_items its ++ (if d then bytes "$" else [])) s) (at_head its d s))
      as Htail.
    { intros s Hs. apply IH; [done|]. unfold indexable in *. lia. }
    destruct r as [q|]; simpl option_list; cbn [app].
    + rewrite Hr. by apply MatchRepetition_ok.
    + destruct (print_items its ++ (if d then bytes "$" else [])) as [|q r] eqn:E.
      * by apply one_char_ok.
      * rewrite (items_do_not_repeat its d q r) by done. by apply one_char_ok.
Qed.

Lemma anywhere_loop_ok head P str :
  (∀ s, (length s <= length str)%nat → decides (head s) (P s)) →
  decides (anywhere_loop head str) (∃ s0 s1, str = s0 ++ s1 ∧ P s1).
Proof.
  induction str as [|ch str IH]; intros Hh; cbn [anywhere_loop].
  - destruct (Hh [] ltac:(done)) as (b & -> & Hb). simpl. exists b. split; [by destruct b|].
    rewrite Hb. split; [by exists [], []|]. intros (s0 & s1 & E & H).
    symmetry in E. apply app_eq_nil in E as [-> ->]. done.
  - destruct (Hh (ch :: str) ltac:(done)) as (b & -> & Hb). simpl.
    destruct IH as (b2 & E2 & H2). { intros s Hs. apply Hh. simpl. lia. }
    exists (b || b2). split; [by destruct b|]. rewrite orb_true_iff, Hb, H2. split.
    + intros [H|(s0 & s1 & -> & H)]; [by exists [], (ch :: str)|by exists (ch :: s0), s1].
    + intros ([|x s0] & s1 & E & H); [left; by simpl in E; subst|].
      right. injection E as <- ->. by exists s0, s1.
Qed.

(** * [class RE] *)

(** Without the ^, an expression does not begin with one. *)
Lemma print_head e r : valid e = true → print e = "^"%char :: r → e.(caret) = true.
Proof.
  destruct e as [[] its d]; [done|]. unfold valid, print. simpl. intros Hits E.
  assert (tail_of false ("^"%char :: r)) as Ht by (rewrite <- E; by exists None, its, d).
  destruct (tail_of_inv _ _ Ht) as [H|[H|[(q' & r' & _ & H & _)|(esc & c & r' & H & Ha & _)]]]; try done.
  destruct esc; [done|]. by injection H as <- _.
Qed.

Lemma anywhere_uncareted (P : list ascii → Prop) s :
  (∃ s0 s1, s = s0 ++ s1 ∧ P s1) ↔ (∃ s0 s1, s = s0 ++ s1 ∧ (false = true → s0 = []) ∧ P s1).
Proof. split; [intros (s0 & s1 & E & H)|intros (s0 & s1 & E & _ & H)]; by exists s0, s1. Qed.

Lemma MatchRegexAnywhere_ok e str :
  valid e = true → indexable str →
  decides (MatchRegexAnywhere (Some (print e)) (Some str)) (finds e str).
Proof.
  intros Hv Hlen. unfold finds. destruct (print e) as [|c r] eqn:E.
  - destruct e as [[] its d]; [done|]. unfold print in E. simpl in E. cbn [MatchRegexAnywhere items dollar caret].
    eapply decides_iff; [|apply anywhere_loop_ok with (P := at_head its d)].
    + apply anywhere_uncareted.
    + intros s Hs. rewrite <- E. apply MatchRegexAtHead_ok; [done|]. unfold indexable in *. lia.
  - destruct (decide (c = "^"%char)) as [->|Hc].
    + pose proof (print_head e r Hv E) as Hcar. destruct e as [car its d]. simpl in Hcar. subst car.
      unfold print in E. simpl in E. injection E as <-. cbn [MatchRegexAnywhere items dollar caret].
      eapply decides_iff; [|by apply MatchRegexAtHead_ok]. split.
      * intros H. by exists [], str.
      * intros (s0 & s1 & -> & Hs0 & H). specialize (Hs0 eq_refl). by subst s0.
    + assert (e.(caret) = false) as Hcar.
      { destruct e as [[] its d]; [|done]. unfold print in E. simpl in E. congruence. }
      assert (MatchRegexAnywhere (Some (c :: r)) (Some str)
        = anywhere_loop (MatchRegexAtHead (c :: r)) str) as ->.
      { destruct c as [[] [] [] [] [] [] [] []]; done. }
      rewrite Hcar. eapply decides_iff; [|apply anywhere_loop_ok with (P := at_head e.(items) e.(dollar))].
      * apply anywhere_uncareted.
      * intros s Hs. rewrite <- E. destruct e as [car its d]. simpl in Hcar. subst car.
        apply MatchRegexAtHead_ok; [done|]. unfold indexable in *. lia.
Qed.

Lemma Init_valid e :
  valid e = true → NUL ∉ print e →
  Init (Some (print e)) = (mkRE (Some (print e)) (Some (full_pattern (print e))) true, []).
Proof.
  intros Hv Hnul. unfold Init.
  assert (ValidateRegex (Some (print e)) = ([], true)) as ->; [|done].
  apply ValidateRegex_ok; [done|]. by exists e.
Qed.

(** C39: [PartialMatch] decides the language: made of an expression of the syntax,
    it says of a string whether some part of it, at the anchors, is denoted by
    the expression, and it never reads behind the end of pattern or string. *)
Theorem PartialMatch_finds e str :
  valid e = true → NUL ∉ print e → indexable str →
  ∃ b, PartialMatch (Some str) (Init (Some (print e))).1 = Some b ∧ (b = true ↔ finds e str).
Proof.
  intros Hv Hnul Hlen. rewrite Init_valid by done. by apply MatchRegexAnywhere_ok.
Qed.

Lemma print_items_app its its' : print_items (its ++ its') = print_items its ++ print_items its'.
Proof. unfold print_items. by rewrite fmap_app, concat_app. Qed.

(** The one way not to end in the anchor $ and yet to end in the character. *)
Lemma print_last e :
  valid e = true → last (print e) = Some "$"%char →
  e.(dollar) = true ∨ last e.(items) = Some (mkItem true "$" None).
Proof.
  destruct e as [car its []]; [by left|]. unfold valid, print. simpl. rewrite app_nil_r.
  intros Hits Hl. right. destruct its as [|[esc c r] its _] using rev_ind.
  { by destruct car. }
  rewrite last_snoc. rewrite forallb_app in Hits. apply andb_prop in Hits as [_ Hi].
  simpl in Hi. rewrite andb_true_r in Hi. unfold valid_item in Hi. simpl in Hi.
  apply andb_prop in Hi as [Ha Hr]. rewrite print_items_app in Hl.
  unfold print_items at 2, print_item in Hl. simpl in Hl. rewrite app_nil_r in Hl.
  destruct r as [q|]; simpl in Hl.
  - change (c :: [q]) with ([c] ++ [q]) in Hl. rewrite !app_assoc, last_snoc in Hl.
    injection Hl as ->. done.
  - rewrite !app_assoc, last_snoc in Hl. injection Hl as ->. destruct esc; [done|].
    by vm_compute in Ha.
Qed.

Lemma full_pattern_ok e :
  valid e = true → last e.(items) ≠ Some (mkItem true "$" None) ∨ e.(dollar) = true →
  full_pattern (print e) = print (mkExpr true e.(items) true).
Proof.
  intros Hv Hl. unfold full_pattern.
  assert ((if decide (last (print e) = Some "$"%char) then [] else bytes "$")
          = if e.(dollar) then [] else bytes "$") as ->.
  { case_decide as Hd.
    - destruct (print_last e Hv Hd) as [->|Hd']; [done|]. by destruct Hl as [?| ->].
    - destruct e as [car its []]; [|done]. destruct Hd. unfold print. simpl.
      by rewrite app_assoc, last_snoc. }
  assert ((if decide (head (print e) = Some "^"%char) then [] else bytes "^")
          = if e.(caret) then [] else bytes "^") as ->.
  { case_decide as Hd.
    - destruct (print e) as [|c r] eqn:E; [done|]. injection Hd as ->. by rewrite (print_head e r).
    - by destruct e as [[] its d]. }
  destruct e as [[] its []]; unfold print; simpl; by rewrite ?app_nil_r, <- ?app_assoc.
Qed.

(** [FullMatch] decides whether a whole string is denoted, for every
    expression that does not end in an escaped dollar. *)
Theorem FullMatch_denotes e str :
  valid e = true → NUL ∉ print e → indexable str →
  last e.(items) ≠ Some (mkItem true "$" None) ∨ e.(dollar) = true →
  ∃ b, FullMatch (Some str) (Init (Some (print e))).1 = Some b ∧ (b = true ↔ denotes e.(items) str).
Proof.
  intros Hv Hnul Hlen Hl. rewrite Init_valid by done. unfold FullMatch. simpl is_valid_. cbv iota.
  simpl full_pattern_. rewrite full_pattern_ok by done.
  destruct (MatchRegexAnywhere_ok (mkExpr true e.(items) true) str) as (b & -> & Hb); [done..|].
  exists b. split; [done|]. rewrite Hb. unfold finds, at_head. simpl. split.
  - intros (s0 & s1 & -> & Hs0 & s2 & s3 & -> & Hd & Hs3). rewrite Hs0, Hs3 by done.
    by rewrite app_nil_r.
  - intros Hd. exists [], str. split; [done|]. split; [done|]. exists str, [].
    by rewrite app_nil_r.
Qed.

(** An expression that ends in an escaped dollar is not anchored at the end:
    the full pattern of \$ has no $ added, since its last character is one, and
    a full match succeeds on $abc. *)
Theorem FullMatch_escaped_dollar :
  let e := mkExpr false [mkItem true "$" None] false in
  valid e = true ∧ print e = bytes "\$" ∧ full_pattern (print e) = bytes "^\$" ∧
  FullMatch (Some (bytes "$abc")) (Init (Some (print e))).1 = Some true ∧
  ¬ denotes e.(items) (bytes "$abc").
Proof.
  split; [reflexivity|]. split; [reflexivity|]. split; [reflexivity|]. split; [reflexivity|].
  intros (s1 & s2 & E & [Hl _] & ->). rewrite app_nil_r in E. subst s1. done.
Qed.

(** ^a*b?[digit]+, with the escape for a digit. *)
#[local] Definition sample : Expr :=
  mkExpr true [mkItem false "a" (Some "*"%char); mkItem false "b" (Some "?"%char);
               mkItem true "d" (Some "+"%char)] false.

Lemma PartialMatch_finds_witness :
  PartialMatch (Some (bytes "aab12x")) (Init (Some (bytes "^a*b?\d+"))).1 = Some true ∧
  finds sample (bytes "aab12x").
Proof.
  split; [reflexivity|].
  destruct (PartialMatch_finds sample (bytes "aab12x")) as (b & E & H);
    [reflexivity|bd|unfold indexable, U64; simpl; lia|].
  apply H. vm_compute in E. congruence.
Defined.

Lemma FullMatch_denotes_witness :
  FullMatch (Some (bytes "aab12")) (Init (Some (bytes "^a*b?\d+"))).1 = Some true ∧
  denotes sample.(items) (bytes "aab12").
Proof.
  split; [reflexivity|].
  destruct (FullMatch_denotes sample (bytes "aab12")) as (b & E & H);
    [reflexivity|bd|unfold indexable, U64; simpl; lia|left; discriminate|].
  apply H. vm_compute in E. congruence.
Defined.
