(* ===== verification/TestRun.v ===== *)
(** How Google Test chooses and orders the tests it runs
    ([src/lib/googletest/src/gtest.cc], [gtest-internal-inl.h], [gtest-port.cc]):
    filters, shards, the random generator and the shuffle.

    Names and patterns are lists of characters; the environment is a function
    from names to values, and [None] as a result stands for the end of the
    process ([exit], or a failed [GTEST_CHECK_]). *)

From S2P Require Import Prelude Strings Demangle.
From stdpp Require Import base list strings sets.
From Stdlib Require Import ZArith Ascii.

Open Scope Z_scope.

(** * Filters *)

Fixpoint PatternMatchesString (pattern str : list ascii) {struct pattern} : bool :=
  match pattern with
  | [] | ":"%char :: _ => bool_decide (str = [])
  | "?"%char :: pattern =>
      match str with [] => false | _ :: str => PatternMatchesString pattern str end
  | "*"%char :: pattern =>
      (fix star (str : list ascii) : bool :=
         match str with [] => false | _ :: str => star str end
         || PatternMatchesString pattern str) str
  | c :: pattern =>
      match str with
      | [] => false
      | d :: str => bool_decide (c = d) && PatternMatchesString pattern str
      end
  end.

(** [strchr] behind the character it finds. *)
Fixpoint behind (c : ascii) (l : list ascii) : option (list ascii) :=
  match l with [] => None | d :: l => if decide (d = c) then Some l else behind c l end.

(** The loop of [MatchesFilter]; it goes round at most once per character. *)
Fixpoint matches_loop (fuel : nat) (name cur_pattern : list ascii) : bool :=
  match fuel with
  | O => false
  | S fuel =>
      PatternMatchesString cur_pattern name
      || match behind ":" cur_pattern with
         | None => false
         | Some next => matches_loop fuel name next
         end
  end.
Definition MatchesFilter (name filter : list ascii) : bool :=
  matches_loop (S (length filter)) name filter.

Definition kDisableTestFilter : list ascii := bytes "DISABLED_*:*/DISABLED_*".
Definition kUniversalFilter : list ascii := bytes "*".

(** What comes before the first [c], and what behind it. *)
Fixpoint split_at (c : ascii) (l : list ascii) : list ascii * option (list ascii) :=
  match l with
  | [] => ([], None)
  | d :: l => if decide (d = c) then ([], Some l)
              else let '(b, r) := split_at c l in (d :: b, r)
  end.

Definition FilterMatchesTest (filter test_case_name test_name : list ascii) : bool :=
  let full_name := test_case_name ++ bytes "." ++ test_name in
  let '(positive, negative) :=
    match split_at "-" filter with
    | (_, None) => (filter, [])
    | (positive, Some negative) =>
        (match positive with [] => kUniversalFilter | _ => positive end, negative)
    end in
  MatchesFilter full_name positive && negb (MatchesFilter full_name negative).

(** * Numbers of the environment *)

Definition LONG_MAX : Z := I64_MAX.
Definition LONG_MIN : Z := - I64_MAX - 1.

(** [strtol] to the base of 10: the value, and what it did not consume. *)
Definition strtol (s : string) : Z * string :=
  let s' := skip_ws s in
  let '(neg, s') :=
    match s' with
    | String "-" s' => (true, s')
    | String "+" s' => (false, s')
    | _ => (false, s')
    end in
  if starts_with_digit s' then
    let '(v, r) := take_digits s' 0 in
    (Z.max LONG_MIN (Z.min LONG_MAX (if neg : bool then - v else v)), r)
  else (0, s).

(** [ParseInt32]: [None] is false, with [*value] left alone. *)
Definition ParseInt32 (str : string) : option Z :=
  match strtol str with
  | (long_value, EmptyString) =>
      let result := i32 long_value in
      if (long_value =? LONG_MAX) || (long_value =? LONG_MIN) || negb (result =? long_value)
      then None else Some result
  | _ => None
  end.

Definition Environment : Type := string → option string.

Definition Int32FromEnvOrDie (env : Environment) (var : string) (default_val : Z) : option Z :=
  match env var with
  | None => Some default_val
  | Some str_val => ParseInt32 str_val
  end.

Definition kTestTotalShards : string := "GTEST_TOTAL_SHARDS".
Definition kTestShardIndex : string := "GTEST_SHARD_INDEX".

Definition ShouldShard (env : Environment) (total_shards_env shard_index_env : string)
    (in_subprocess_for_death_test : bool) : option bool :=
  if in_subprocess_for_death_test then Some false
  else
    total_shards ← Int32FromEnvOrDie env total_shards_env (-1);
    shard_index ← Int32FromEnvOrDie env shard_index_env (-1);
    if (total_shards =? -1) && (shard_index =? -1) then Some false
    else if (total_shards =? -1) && negb (shard_index =? -1) then None
    else if negb (total_shards =? -1) && (shard_index =? -1) then None
    else if (shard_index <? 0) || (total_shards <=? shard_index) then None
    else Some (1 <? total_shards).

Definition ShouldRunTestOnShard (total_shards shard_index test_id : Z) : bool :=
  Z.rem test_id total_shards =? shard_index.

(** * The choice of tests *)

Record TestInfo := mkTest {
  test_name : list ascii;
  is_disabled_ : bool;
  matches_filter_ : bool;
  should_run_ : bool
}.

Record TestCase := mkCase {
  case_name : list ascii;
  should_run : bool;
  test_info_list : list TestInfo
}.

(** The flags the choice depends on. *)
Record Flags := mkFlags { flag_filter : list ascii; flag_also_run_disabled_tests : bool }.

(** [None] is [IGNORE_SHARDING_PROTOCOL]. *)
Definition Sharding : Type := option (Z * Z).

Definition is_disabled (test_case_name test_name : list ascii) : bool :=
  MatchesFilter test_case_name kDisableTestFilter || MatchesFilter test_name kDisableTestFilter.

Definition is_runnable (f : Flags) (test_case_name test_name : list ascii) : bool :=
  (f.(flag_also_run_disabled_tests) || negb (is_disabled test_case_name test_name))
  && FilterMatchesTest f.(flag_filter) test_case_name test_name.

(** The inner loop: the tests of a case, with the numbers of runnable and
    selected tests so far. *)
Fixpoint filter_tests (f : Flags) (shards : Sharding) (test_case_name : list ascii)
    (tests : list TestInfo) (num_runnable_tests num_selected_tests : Z)
    : list TestInfo * bool * Z * Z :=
  match tests with
  | [] => ([], false, num_runnable_tests, num_selected_tests)
  | t :: tests =>
      let runnable := is_runnable f test_case_name t.(test_name) in
      let selected := runnable &&
        match shards with
        | None => true
        | Some (total_shards, shard_index) =>
            ShouldRunTestOnShard total_shards shard_index num_runnable_tests
        end in
      let '(tests, any, r, s) :=
        filter_tests f shards test_case_name tests (num_runnable_tests + Z.b2z runnable)
          (num_selected_tests + Z.b2z selected) in
      (mkTest t.(test_name) (is_disabled test_case_name t.(test_name))
         (FilterMatchesTest f.(flag_filter) test_case_name t.(test_name)) selected :: tests,
       selected || any, r, s)
  end.

(** The outer loop. *)
Fixpoint filter_cases (f : Flags) (shards : Sharding) (test_cases : list TestCase)
    (num_runnable_tests num_selected_tests : Z) : list TestCase * Z * Z :=
  match test_cases with
  | [] => ([], num_runnable_tests, num_selected_tests)
  | c :: cases =>
      let '(tests, any, r, s) :=
        filter_tests f shards c.(case_name) c.(test_info_list) num_runnable_tests
          num_selected_tests in
      let '(cases, r, s) := filter_cases f shards cases r s in
      (mkCase c.(case_name) any tests :: cases, r, s)
  end.

(** [FilterTests]: the cases with their marks, and the number of tests to run. *)
Definition FilterTests (env : Environment) (f : Flags) (honor_sharding_protocol : bool)
    (test_cases : list TestCase) : option (list TestCase * Z) :=
  shards ← (if honor_sharding_protocol then
              total_shards ← Int32FromEnvOrDie env kTestTotalShards (-1);
              shard_index ← Int32FromEnvOrDie env kTestShardIndex (-1);
              Some (Some (total_shards, shard_index))
            else Some None);
  let '(cases, _, num_selected_tests) := filter_cases f shards test_cases 0 0 in
  Some (cases, num_selected_tests).

(** * The order of tests *)

Definition kMaxRange : Z := 2147483648.

(** [Random::Generate]: the number and the new [state_]. *)
Definition Generate (state_ range : Z) : option (Z * Z) :=
  let state_ := ((1103515245 * state_ + 12345) mod U32) mod kMaxRange in
  if negb (0 <? range) || (kMaxRange <? range) then None
  else Some (state_ mod range, state_).

(** [std::swap] of two elements. *)
Definition swap {A} (i j : nat) (v : list A) : list A :=
  match v !! i, v !! j with
  | Some x, Some y => <[j := x]> (<[i := y]> v)
  | _, _ => v
  end.

(** The loop of [ShuffleRange], from the width [w] down. *)
Fixpoint shuffle_loop {A} (w begin : nat) (state_ : Z) (v : list A) : option (list A * Z) :=
  match w with
  | O | S O => Some (v, state_)
  | S w' =>
      '(k, state_) ← Generate state_ (Z.of_nat w);
      let last_in_range := (begin + w - 1)%nat in
      let selected := (begin + Z.to_nat k)%nat in
      shuffle_loop w' begin state_ (swap selected last_in_range v)
  end.

Definition ShuffleRange {A} (state_ : Z) (begin end_ : Z) (v : list A) : option (list A * Z) :=
  let size := Z.of_nat (length v) in
  if negb ((0 <=? begin) && (begin <=? size)) then None
  else if negb ((begin <=? end_) && (end_ <=? size)) then None
  else shuffle_loop (Z.to_nat (end_ - begin)) (Z.to_nat begin) state_ v.

Definition Shuffle {A} (state_ : Z) (v : list A) : option (list A * Z) :=
  ShuffleRange state_ 0 (Z.of_nat (length v)) v.

(** What [UnitTestImpl] keeps of the order: the indices of the cases, and of
    each case those of its tests; [last_death_test_case_]; [random_]. *)
Record Order := mkOrder {
  test_case_indices_ : list Z;
  test_indices_ : list (list Z);
  last_death_test_case_ : Z;
  random_ : Z
}.

Definition in_order (n : nat) : list Z := Z.of_nat <$> seq 0 n.

(** [TestCase::ShuffleTests] of every case. *)
Fixpoint shuffle_cases (state_ : Z) (cases : list (list Z)) : option (list (list Z) * Z) :=
  match cases with
  | [] => Some ([], state_)
  | indices :: cases =>
      '(indices, state_) ← Shuffle state_ indices;
      '(cases, state_) ← shuffle_cases state_ cases;
      Some (indices :: cases, state_)
  end.

(** [UnitTestImpl::ShuffleTests]. *)
Definition ShuffleTests (o : Order) : option Order :=
  let deaths := o.(last_death_test_case_) + 1 in
  '(cases, state_) ← ShuffleRange o.(random_) 0 deaths o.(test_case_indices_);
  '(cases, state_) ← ShuffleRange state_ deaths (Z.of_nat (length cases)) cases;
  '(tests, state_) ← shuffle_cases state_ o.(test_indices_);
  Some (mkOrder cases tests o.(last_death_test_case_) state_).

(** [UnitTestImpl::UnshuffleTests]. *)
Definition UnshuffleTests (o : Order) : Order :=
  mkOrder (in_order (length o.(test_case_indices_)))
    ((λ l, in_order (length l)) <$> o.(test_indices_)) o.(last_death_test_case_) o.(random_).

Definition GetElementOr {A} (v : list A) (i : Z) (default_value : A) : A :=
  if (i <? 0) || (Z.of_nat (length v) <=? i) then default_value
  else default default_value (v !! Z.to_nat i).

(** [GetTestCase] and [GetMutableTestCase]; [None] is NULL, and [cases] are
    [test_cases_]. *)
Definition GetTestCase {A} (cases : list A) (o : Order) (i : Z) : option A :=
  let index := GetElementOr o.(test_case_indices_) i (-1) in
  if index <? 0 then None else cases !! Z.to_nat i.
Definition GetMutableTestCase {A} (cases : list A) (o : Order) (i : Z) : option A :=
  let index := GetElementOr o.(test_case_indices_) i (-1) in
  if index <? 0 then None else cases !! Z.to_nat index.

Definition kMaxRandomSeed : Z := 99999.

(** [GetRandomSeedFromFlag], at the time [now]; in [unsigned int]. *)
Definition GetRandomSeedFromFlag (random_seed_flag now : Z) : Z :=
  let raw_seed := (if random_seed_flag =? 0 then now else random_seed_flag) mod U32 in
  ((raw_seed - 1) mod U32) mod kMaxRandomSeed + 1.

Definition GetNextRandomSeed (seed : Z) : option Z :=
  if (1 <=? seed) && (seed <=? kMaxRandomSeed) then
    let next_seed := seed + 1 in
    Some (if kMaxRandomSeed <? next_seed then 1 else next_seed)
  else None.
