(* ===== verification/TestRunFacts.v ===== *)
(** Properties of the choice and the order of tests. *)

From S2P Require Import Prelude Strings Demangle TestRun.
From stdpp Require Import base list strings sets.
From Stdlib Require Import ZArith Ascii.

Open Scope Z_scope.

(** * Filters *)

Lemma glob_star_inv p s :
  glob ("*"%char :: p) s ↔ ∃ s1 s2, s = s1 ++ s2 ∧ glob p s2.
Proof.
  split.
  - inversion 1; subst; [done|]. by eexists _, _.
  - intros (s1 & s2 & -> & H). by constructor.
Qed.

Lemma PatternMatchesString_ok p s rest :
  ":"%char ∉ p → rest = [] ∨ head rest = Some ":"%char →
  (PatternMatchesString (p ++ rest) s = true ↔ glob p s).
Proof.
  intros Hp Hrest. revert s. induction p as [|c p IH]; intros s.
  - assert (PatternMatchesString rest s = bool_decide (s = [])) as E.
    { destruct Hrest as [->|H]; [done|]. destruct rest; [done|]. by injection H as ->. }
    cbn [app]. rewrite E, bool_decide_eq_true. split; [intros ->; constructor|by inversion 1].
  - assert (":"%char ∉ p) as Hp' by set_solver. specialize (IH Hp').
    destruct (decide (c = "?"%char)) as [->|Hq].
    { cbn [app PatternMatchesString]. destruct s as [|d s]; [split; [done|inversion 1]|].
      rewrite IH. split; [by constructor|]. by inversion 1. }
    destruct (decide (c = "*"%char)) as [->|Hs].
    { rewrite glob_star_inv. cbn [app PatternMatchesString].
      induction s as [|d s IHs].
      - simpl. rewrite IH. split; [by exists [], []|]. intros (s1 & s2 & E & H).
        symmetry in E. apply app_eq_nil in E as [-> ->]. done.
      - rewrite orb_true_iff, IH, IHs. split.
        + intros [(s1 & s2 & -> & H)|H]; [by exists (d :: s1), s2|by exists [], (d :: s)].
        + intros ([|x s1] & s2 & E & H); [right; by simpl in E; subst s2|].
          left. injection E as _ ->. by exists s1, s2. }
    assert (c ≠ ":"%char) as Hc by set_solver.
    assert (PatternMatchesString ((c :: p) ++ rest) s = match s with [] => false
      | d :: s => bool_decide (c = d) && PatternMatchesString (p ++ rest) s end) as ->.
    { cbn [app]. destruct c as [[] [] [] [] [] [] [] []]; done. }
    destruct s as [|d s]; [split; [done|by inversion 1; subst]|].
    cbv beta iota. rewrite andb_true_iff, bool_decide_eq_true, IH. split.
    + intros [-> H]. by constructor.
    + inversion 1; subst; done.
Qed.

(** The patterns of a filter. *)
Fixpoint patterns (filter : list ascii) : list (list ascii) :=
  match filter with
  | [] => [[]]
  | c :: filter =>
      if decide (c = ":"%char) then [] :: patterns filter
      else match patterns filter with [] => [[c]] | p :: ps => (c :: p) :: ps end
  end.

Lemma patterns_nonempty filter : patterns filter ≠ [].
Proof. destruct filter as [|c l]; simpl; [done|]. case_decide; [done|]. by destruct (patterns l). Qed.

(** The first pattern, and those behind the separator. *)
Lemma patterns_split filter :
  ∃ p rest, filter = p ++ rest ∧ (":"%char ∉ p) ∧
    match behind ":" filter with
    | None => rest = [] ∧ patterns filter = [p]
    | Some next => rest = ":"%char :: next ∧ patterns filter = p :: patterns next ∧
                   (length next < length filter)%nat
    end.
Proof.
  induction filter as [|c l (p & rest & -> & Hp & H)]; [exists [], []; split; [done|]; split; [set_solver|done]|].
  simpl. destruct (decide (c = ":"%char)) as [->|Hc].
  - exists [], (":"%char :: p ++ rest). split; [done|]. split; [set_solver|]. split; [done|].
    split; [done|]. simpl. lia.
  - exists (c :: p), rest. split; [done|]. split; [set_solver|].
    destruct (behind ":" (p ++ rest)) as [next|].
    + destruct H as (-> & -> & Hl). split; [done|]. split; [done|]. lia.
    + by destruct H as [-> ->].
Qed.

Lemma MatchesFilter_ok name filter :
  MatchesFilter name filter = true ↔ ∃ p, p ∈ patterns filter ∧ glob p name.
Proof.
  unfold MatchesFilter. assert (length filter < S (length filter))%nat as Hf by lia.
  revert Hf. generalize (S (length filter)) as fuel. intros fuel. revert filter.
  induction fuel as [|fuel IH]; intros filter Hf; [lia|]. cbn [matches_loop].
  destruct (patterns_split filter) as (p & rest & E & Hp & H).
  assert (PatternMatchesString filter name = true ↔ glob p name) as Hmatch.
  { rewrite E. apply PatternMatchesString_ok; [done|].
    destruct (behind ":" filter); [destruct H as [-> _]; by right|destruct H as [-> _]; by left]. }
  rewrite orb_true_iff, Hmatch. destruct (behind ":" filter) as [next|].
  - destruct H as (_ & -> & Hl). rewrite IH by lia. split.
    + intros [Hg|(q & Hq & Hg)]; [exists p|exists q]; (split; [set_solver|done]).
    + intros (q & [->|Hq]%elem_of_cons & Hg); [by left|right; by exists q].
  - destruct H as [_ ->]. split.
    + intros [Hg|]; [|done]. exists p. split; [set_solver|done].
    + intros (q & ->%list_elem_of_singleton & Hg). by left.
Qed.

(** The positive and the negative part of a filter. *)
Lemma split_at_ok c l :
  match split_at c l with
  | (p, None) => p = l ∧ c ∉ l
  | (p, Some n) => l = p ++ c :: n ∧ c ∉ p
  end.
Proof.
  induction l as [|d l IH]; simpl; [split; [done|set_solver]|].
  destruct (decide (d = c)) as [->|Hd]; [split; [done|set_solver]|].
  destruct (split_at c l) as [p [n|]]; destruct IH as [-> H]; (split; [done|set_solver]).
Qed.

(** [--gtest_filter] selects what it says: a test is chosen when its full name
    matches a pattern of the part before the first dash (any name, if there is a
    dash and nothing before it) and none of the patterns behind it, where * is
    any string and ? any character; there is no pattern on which the matching
    goes wrong or does not end. *)
Theorem FilterMatchesTest_selects filter test_case_name test_name positive negative :
  filter = positive ∧ ("-"%char ∉ filter) ∧ negative = [] ∨
  filter = positive ++ "-"%char :: negative ∧ "-"%char ∉ positive →
  let full_name := test_case_name ++ bytes "." ++ test_name in
  FilterMatchesTest filter test_case_name test_name = true ↔
  ((∃ p, p ∈ patterns positive ∧ glob p full_name) ∨
   (positive = [] ∧ "-"%char ∈ filter)) ∧
  ¬ (∃ p, p ∈ patterns negative ∧ glob p full_name).
Proof.
  intros Hf full_name. unfold FilterMatchesTest. fold full_name.
  assert (full_name ≠ []) as Hname.
  { unfold full_name. destruct test_case_name; done. }
  assert (MatchesFilter full_name kUniversalFilter = true) as Hall.
  { apply MatchesFilter_ok. exists (bytes "*"). split; [by apply list_elem_of_singleton|].
    apply glob_star_inv. exists full_name, []. rewrite app_nil_r. split; [done|constructor]. }
  assert (split_at "-" filter =
    if decide ("-"%char ∈ filter) then (positive, Some negative) else (filter, None)) as ->.
  { pose proof (split_at_ok "-" filter) as Hs. destruct (split_at "-" filter) as [p [n|]].
    - destruct Hs as [E Hp]. rewrite decide_True by (rewrite E; set_solver).
      destruct Hf as [(_ & H & _)|[E' Hp']]; [destruct H; rewrite E; set_solver|].
      rewrite E in E'. clear -E' Hp Hp'. revert positive E' Hp'.
      induction p as [|x p IH]; intros [|y q] E' Hq; simplify_eq/=; [done|set_solver|set_solver|].
      specialize (IH ltac:(set_solver) q ltac:(done) ltac:(set_solver)). by simplify_eq.
    - destruct Hs as [-> Hp]. by rewrite decide_False. }
  case_decide as Hd.
  - destruct Hf as [(_ & H & _)|[E Hp]]; [done|].
    rewrite andb_true_iff, negb_true_iff, <- not_true_iff_false.
    rewrite (MatchesFilter_ok full_name negative). destruct positive as [|c positive].
    + rewrite Hall. naive_solver.
    + rewrite MatchesFilter_ok. naive_solver.
  - destruct Hf as [(<- & _ & ->)|[E Hp]]; [|destruct Hd; rewrite E; set_solver].
    rewrite andb_true_iff, negb_true_iff, <- not_true_iff_false, !MatchesFilter_ok. naive_solver.
Qed.

Lemma FilterMatchesTest_selects_witness :
  FilterMatchesTest (bytes "Raft*:*.Vote-*Slow") (bytes "RaftTest") (bytes "Elect") = true ∧
  ¬ (∃ p, p ∈ patterns (bytes "*Slow") ∧ glob p (bytes "RaftTest.Elect")).
Proof.
  split; [reflexivity|].
  apply (FilterMatchesTest_selects (bytes "Raft*:*.Vote-*Slow") (bytes "RaftTest") (bytes "Elect")
           (bytes "Raft*:*.Vote") (bytes "*Slow")); [|reflexivity].
  right. split; [reflexivity|bd].
Defined.

(** * Numbers of the environment *)

Lemma ParseInt32_iff str n :
  ParseInt32 str = Some n ↔ read_int str = Some (n, "") ∨ str = "" ∧ n = 0.
Proof.
  unfold ParseInt32, strtol, read_int.
  destruct (match skip_ws str with String "-" s => (true, s) | String "+" s => (false, s)
            | _ => (false, skip_ws str) end) as [neg s] eqn:Es.
  destruct (starts_with_digit s) eqn:Ed.
  - destruct (take_digits s 0) as [v r]. set (w := if neg then - v else v).
    assert (str ≠ "") as Hne by (intros ->; simpl in Es; by injection Es as <- <-).
    destruct r as [|c r].
    + destruct (decide (is_i32 w)) as [Hw|Hw].
      * assert (Z.max LONG_MIN (Z.min LONG_MAX w) = w) as -> by (unfold LONG_MIN, LONG_MAX; cint).
        rewrite i32_small, Z.eqb_refl by done.
        destruct (Z.eqb_spec w LONG_MAX); [unfold LONG_MAX in *; cint|].
        destruct (Z.eqb_spec w LONG_MIN); [unfold LONG_MIN in *; cint|].
        simpl. split; [intros [= ->]; by left|intros [[= ->]|[? _]]; done].
      * split; [|intros [|[? _]]; done]. intros E. exfalso. apply Hw.
        set (l := Z.max LONG_MIN (Z.min LONG_MAX w)) in *.
        destruct (Z.eqb_spec l LONG_MAX) as [|H1]; [done|].
        destruct (Z.eqb_spec l LONG_MIN) as [|H2]; [done|].
        destruct (Z.eqb_spec (i32 l) l) as [H3|]; [|done].
        assert (l = w) as Hl by (unfold l, LONG_MAX, LONG_MIN, I64_MAX in *; lia).
        rewrite <- Hl, <- H3. apply i32_range.
    + destruct (decide (is_i32 w)); (split; [done|intros [|[? _]]; done]).
  - destruct str as [|c str]; simpl.
    + split; [intros [= <-]; by right|]. intros [|[_ ->]]; done.
    + split; [done|]. intros [|[? _]]; done.
Qed.

(** [ParseInt32] accepts a string exactly when it is a decimal number of 32
    bits, white space and a sign in front allowed, and gives its value; in
    particular it reads back what [std::to_string] prints.  The one exception is
    the empty string, which is accepted as 0. *)
Theorem ParseInt32_accepts str n :
  (ParseInt32 str = Some n ↔ read_int str = Some (n, "") ∨ str = "" ∧ n = 0) ∧
  (is_i32 n → ParseInt32 (to_string n) = Some n).
Proof.
  split; [apply ParseInt32_iff|]. intros Hn. apply ParseInt32_iff. left.
  rewrite <- (string_app_nil_r (to_string n)). by apply read_int_to_string.
Qed.

(** * Shards *)

#[local] Abbreviation trues := (count_true (λ b : bool, b)).

(** The reference: which tests of a list run, and how many are runnable, with
    [r] of them before. *)
Definition selected (shards : Sharding) (r : Z) : bool :=
  match shards with None => true | Some (n, k) => ShouldRunTestOnShard n k r end.

Fixpoint marks (shards : Sharding) (runnable : list bool) (r : Z) : list bool :=
  match runnable with
  | [] => []
  | b :: bs => (b && selected shards r) :: marks shards bs (r + Z.b2z b)
  end.

Lemma marks_app shards bs bs' r :
  marks shards (bs ++ bs') r = marks shards bs r ++ marks shards bs' (r + Z.of_nat (trues bs)).
Proof.
  revert r. induction bs as [|b bs IH]; intros r; simpl; [by rewrite Z.add_0_r|].
  rewrite IH, count_true_cons. do 3 f_equal. destruct b; simpl; lia.
Qed.

Definition runnables (f : Flags) (c : TestCase) : list bool :=
  (λ t, is_runnable f c.(case_name) t.(test_name)) <$> c.(test_info_list).

Lemma filter_tests_ok f shards name tests r s :
  let flags := (λ t, is_runnable f name t.(test_name)) <$> tests in
  let '(tests', any, r', s') := filter_tests f shards name tests r s in
  should_run_ <$> tests' = marks shards flags r ∧ r' = r + Z.of_nat (trues flags) ∧
  s' = s + Z.of_nat (trues (marks shards flags r)) ∧
  any = existsb id (marks shards flags r) ∧ test_name <$> tests' = test_name <$> tests.
Proof.
  revert r s. induction tests as [|t tests IH]; intros r s; [simpl; rewrite count_true_nil; repeat split; lia|].
  cbn [filter_tests]. cbv zeta. fold (selected shards r).
  specialize (IH (r + Z.b2z (is_runnable f name (test_name t)))
    (s + Z.b2z (is_runnable f name (test_name t) && selected shards r))).
  cbv zeta in IH.
  destruct (filter_tests _ _ _ _ _ _) as [[[tests' any] r'] s'].
  destruct IH as (H1 & -> & -> & -> & H2). rewrite !fmap_cons, H1, H2. cbn [marks should_run_ test_name].
  set (b := is_runnable f name (test_name t)). rewrite !count_true_cons.
  set (m := selected shards r).
  split; [done|]. split; [destruct b; simpl; lia|]. split; [|done].
  destruct (b && m) eqn:E; simpl; lia.
Qed.

Lemma filter_cases_ok f shards cases r s :
  let flags := concat (runnables f <$> cases) in
  let '(cases', r', s') := filter_cases f shards cases r s in
  concat ((λ c, should_run_ <$> c.(test_info_list)) <$> cases') = marks shards flags r ∧
  s' = s + Z.of_nat (trues (marks shards flags r)).
Proof.
  revert r s. induction cases as [|c cases IH]; intros r s; [simpl; rewrite count_true_nil; split; [done|lia]|].
  cbn [filter_cases]. rewrite fmap_cons. cbn [concat].
  pose proof (filter_tests_ok f shards c.(case_name) c.(test_info_list) r s) as H.
  cbv zeta in H. fold (runnables f c) in H.
  destruct (filter_tests _ _ _ _ _ _) as [[[tests' any] r1] s1].
  destruct H as (H1 & -> & -> & _ & _).
  specialize (IH (r + Z.of_nat (trues (runnables f c)))
    (s + Z.of_nat (trues (marks shards (runnables f c) r)))).
  cbv zeta in IH. destruct (filter_cases _ _ _ _ _) as [[cases' r2] s2].
  destruct IH as [IH ->]. rewrite fmap_cons. cbn [concat test_info_list].
  rewrite H1, IH, marks_app. split; [done|]. rewrite count_true_app. lia.
Qed.

Lemma marks_lookup shards bs r i b :
  bs !! i = Some b →
  marks shards bs r !! i = Some (b && selected shards (r + Z.of_nat (trues (take i bs)))).
Proof.
  revert r i. induction bs as [|c bs IH]; intros r [|i] Hi; simplify_eq/=.
  - by rewrite Z.add_0_r.
  - rewrite (IH _ i), count_true_cons by done. do 3 f_equal. destruct c; simpl; lia.
Qed.

(** Which tests run, in the order of the cases. *)
Definition run_flags (cases : list TestCase) : list bool :=
  concat ((λ c, should_run_ <$> c.(test_info_list)) <$> cases).

(** The environment of one shard. *)
Definition shard_env (n k : Z) : Environment := λ var,
  if decide (var = kTestTotalShards) then Some (to_string n)
  else if decide (var = kTestShardIndex) then Some (to_string k) else None.

Lemma ParseInt32_to_string n : is_i32 n → ParseInt32 (to_string n) = Some n.
Proof.
  intros Hn. apply ParseInt32_iff. left.
  rewrite <- (string_app_nil_r (to_string n)). by apply read_int_to_string.
Qed.

Lemma FilterTests_sharded n k f cases :
  is_i32 n → is_i32 k →
  ∃ cases', FilterTests (shard_env n k) f true cases
    = Some (cases', Z.of_nat (trues (run_flags cases'))) ∧
    run_flags cases' = marks (Some (n, k)) (concat (runnables f <$> cases)) 0.
Proof.
  intros Hn Hk. unfold FilterTests, Int32FromEnvOrDie, shard_env.
  rewrite (decide_True (P := kTestTotalShards = kTestTotalShards)) by done.
  rewrite (decide_False (P := kTestShardIndex = kTestTotalShards)) by done.
  rewrite (decide_True (P := kTestShardIndex = kTestShardIndex)) by done.
  rewrite !ParseInt32_to_string by done. simpl mbind.
  pose proof (filter_cases_ok f (Some (n, k)) cases 0 0) as H. cbv zeta in H.
  destruct (filter_cases _ _ _ _ _) as [[cases' r'] s']. destruct H as [H ->].
  exists cases'. unfold run_flags. by rewrite H.
Qed.

(** The shards share out the tests: for every number of shards, each test that
    is runnable runs on one shard and on no other, a test that is not runs on
    none, and every shard counts the tests it runs. *)
Theorem shards_partition_tests f cases n i b :
  0 < n <= I32_MAX → concat (runnables f <$> cases) !! i = Some b →
  ∃ k0, 0 <= k0 < n ∧ ∀ k, 0 <= k < n →
    ∃ cases', FilterTests (shard_env n k) f true cases
      = Some (cases', Z.of_nat (trues (run_flags cases'))) ∧
      run_flags cases' !! i = Some (b && (k =? k0)).
Proof.
  intros Hn Hi. set (r := Z.of_nat (trues (take i (concat (runnables f <$> cases))))).
  exists (r mod n). split; [apply Z.mod_pos_bound; lia|]. intros k Hk.
  destruct (FilterTests_sharded n k f cases) as (cases' & E & Hf); [cint|cint|].
  exists cases'. split; [done|]. rewrite Hf. erewrite marks_lookup by done.
  unfold selected, ShouldRunTestOnShard. fold r. rewrite Z.add_0_l, Z.rem_mod_nonneg by lia.
  by rewrite Z.eqb_sym.
Qed.

#[local] Definition sample_cases : list TestCase :=
  let t name := mkTest (bytes name) false false false in
  [mkCase (bytes "Basic") false [t "Vote"; t "DISABLED_Op"; t "Kill"]; mkCase (bytes "Log") false [t "Size"]].

Lemma shards_partition_tests_witness :
  ∃ k0, 0 <= k0 < 2 ∧ ∀ k, 0 <= k < 2 →
    ∃ cases', FilterTests (shard_env 2 k) (mkFlags (bytes "*") false) true sample_cases
      = Some (cases', Z.of_nat (count_true (λ b : bool, b) (run_flags cases'))) ∧
      run_flags cases' !! 2%nat = Some (true && (k =? k0)).
Proof.
  apply (shards_partition_tests (mkFlags (bytes "*") false) sample_cases 2 2 true);
    [unfold I32_MAX; lia|reflexivity].
Defined.

(** * The order of tests *)

Lemma swap_Permutation {A} i j (v : list A) : swap i j v ≡ₚ v.
Proof.
  unfold swap. destruct (v !! i) as [x|] eqn:Hi; [|done]. destruct (v !! j) as [y|] eqn:Hj; [|done].
  by apply Permutation_insert_swap.
Qed.

Lemma swap_inside {A} i j n m (v : list A) :
  (n <= i < m)%nat → (n <= j < m)%nat →
  take n (swap i j v) = take n v ∧ drop m (swap i j v) = drop m v ∧ length (swap i j v) = length v.
Proof.
  intros Hi Hj. unfold swap. destruct (v !! i) as [x|]; [|done]. destruct (v !! j) as [y|]; [|done].
  rewrite !take_insert_ge, !drop_insert_lt, !length_insert by lia. done.
Qed.

(** [v'] is [v] with the elements between [n] and [m] in another order. *)
Definition shuffled {A} (n m : nat) (v v' : list A) : Prop :=
  v' ≡ₚ v ∧ take n v' = take n v ∧ drop m v' = drop m v.

Lemma shuffle_loop_ok {A} w begin state_ (v : list A) :
  (begin + w <= length v)%nat → Z.of_nat w <= kMaxRange →
  ∃ v' state_', shuffle_loop w begin state_ v = Some (v', state_') ∧ shuffled begin (begin + w) v v'.
Proof.
  revert state_ v. induction w as [|w IH]; intros state_ v Hw Hr; [by exists v, state_|].
  destruct w as [|w]; [by exists v, state_|]. cbn [shuffle_loop]. unfold Generate.
  destruct (Z.ltb_spec 0 (Z.of_nat (S (S w)))); [|lia].
  destruct (Z.ltb_spec kMaxRange (Z.of_nat (S (S w)))); [lia|]. cbn [negb orb mbind option_bind].
  set (st := (_ mod U32) mod kMaxRange). set (k := Z.to_nat (st mod Z.of_nat (S (S w)))).
  assert (k < S (S w))%nat as Hk
    by (unfold k; pose proof (Z.mod_pos_bound st (Z.of_nat (S (S w))) ltac:(lia)); lia).
  destruct (swap_inside (begin + k) (begin + S (S w) - 1) begin (begin + S (S w)) v)
    as (Ht & Hd & Hl); [lia|lia|].
  destruct (IH st (swap (begin + k) (begin + S (S w) - 1) v)) as (v' & st' & E & Hp & Ht' & Hd');
    [lia|lia|].
  exists v', st'. split; [exact E|]. split; [by rewrite Hp, swap_Permutation|].
  split; [by rewrite Ht'|].
  replace (begin + S (S w))%nat with (1 + (begin + S w))%nat in * by lia.
  rewrite Nat.add_comm, <- (drop_drop v'), Hd', drop_drop, Nat.add_comm. exact Hd.
Qed.

Lemma ShuffleRange_ok {A} state_ begin end_ (v : list A) :
  0 <= begin <= end_ → end_ <= Z.of_nat (length v) → end_ - begin <= kMaxRange →
  ∃ v' state_', ShuffleRange state_ begin end_ v = Some (v', state_') ∧
    shuffled (Z.to_nat begin) (Z.to_nat end_) v v'.
Proof.
  intros Hb He Hr. unfold ShuffleRange.
  destruct (Z.leb_spec 0 begin); [|lia]. destruct (Z.leb_spec begin (Z.of_nat (length v))); [|lia].
  destruct (Z.leb_spec begin end_); [|lia]. destruct (Z.leb_spec end_ (Z.of_nat (length v))); [|lia].
  simpl. destruct (shuffle_loop_ok (Z.to_nat (end_ - begin)) (Z.to_nat begin) state_ v)
    as (v' & st & E & Hs); [lia|lia|].
  exists v', st. split; [done|].
  by replace (Z.to_nat begin + Z.to_nat (end_ - begin))%nat with (Z.to_nat end_) in Hs by lia.
Qed.

(** [ShuffleRange] never leaves its range: within its limits it ends without a
    failed check, whatever the state of the generator, and what comes out is a
    permutation of the elements that touches nothing before [begin] or from [end]
    on; outside of the limits it is refused. *)
Theorem ShuffleRange_permutes {A} state_ begin end_ (v : list A) :
  if decide (0 <= begin <= end_ ∧ end_ <= Z.of_nat (length v))
  then end_ - begin <= kMaxRange →
       ∃ v' state_', ShuffleRange state_ begin end_ v = Some (v', state_') ∧
         shuffled (Z.to_nat begin) (Z.to_nat end_) v v'
  else ShuffleRange state_ begin end_ v = None.
Proof.
  case_decide as Hin; [intros Hr; by apply ShuffleRange_ok; tauto|]. unfold ShuffleRange.
  destruct (Z.leb_spec 0 begin); [|done]. destruct (Z.leb_spec begin (Z.of_nat (length v))); [|done].
  destruct (Z.leb_spec begin end_); [|done]. by destruct (Z.leb_spec end_ (Z.of_nat (length v))); [lia|].
Qed.

Lemma shuffle_cases_ok state_ cases :
  Forall (λ l : list Z, Z.of_nat (length l) <= kMaxRange) cases →
  ∃ cases' state_', shuffle_cases state_ cases = Some (cases', state_') ∧
    Forall2 Permutation cases' cases.
Proof.
  revert state_. induction cases as [|l cases IH]; intros state_ Hf; [by exists [], state_|].
  apply Forall_cons in Hf as [Hl Hf]. cbn [shuffle_cases]. unfold Shuffle.
  destruct (ShuffleRange_ok state_ 0 (Z.of_nat (length l)) l) as (l' & st & -> & Hp & _); [lia..|].
  cbn [mbind option_bind]. destruct (IH st Hf) as (cases' & st' & -> & Hc).
  exists (l' :: cases'), st'. split; [done|]. by constructor.
Qed.

(** The order of a program nobody shuffled. *)
Definition unshuffled (deaths : nat) (tests : list nat) (state_ : Z) : Order :=
  mkOrder (in_order (length tests)) (in_order <$> tests) (Z.of_nat deaths - 1) state_.

(** Shuffling the tests keeps them all: every case is still there once, every
    test of a case once, and the death test cases still come before the others;
    and unshuffling gives the original order back. *)
Theorem ShuffleTests_reorders deaths tests state_ :
  (deaths <= length tests)%nat → Z.of_nat (length tests) <= kMaxRange →
  Forall (λ n, Z.of_nat n <= kMaxRange) tests →
  ∃ o, ShuffleTests (unshuffled deaths tests state_) = Some o ∧
    take deaths o.(test_case_indices_) ≡ₚ in_order deaths ∧
    o.(test_case_indices_) ≡ₚ in_order (length tests) ∧
    Forall2 Permutation o.(test_indices_) (in_order <$> tests) ∧
    UnshuffleTests o = unshuffled deaths tests o.(random_).
Proof.
  intros Hd Hl Hf. unfold ShuffleTests, unshuffled.
  cbn [last_death_test_case_ random_ test_case_indices_ test_indices_].
  replace (Z.of_nat deaths - 1 + 1) with (Z.of_nat deaths) by lia.
  assert (length (in_order (length tests)) = length tests) as Hlen
    by (unfold in_order; by rewrite length_fmap, length_seq).
  destruct (ShuffleRange_ok state_ 0 (Z.of_nat deaths) (in_order (length tests)))
    as (v1 & st1 & -> & Hp1 & _ & Hd1); [lia..|]. cbn [mbind option_bind].
  assert (length v1 = length tests) as Hlen1 by (by rewrite Hp1).
  destruct (ShuffleRange_ok st1 (Z.of_nat deaths) (Z.of_nat (length v1)) v1)
    as (v2 & st2 & -> & Hp2 & Ht2 & _); [lia..|]. cbn [mbind option_bind].
  destruct (shuffle_cases_ok st2 (in_order <$> tests)) as (cs & st3 & -> & Hcs).
  { apply Forall_fmap. eapply Forall_impl; [done|]. intros n Hn. simpl.
    unfold in_order. by rewrite length_fmap, length_seq. }
  cbn [mbind option_bind]. eexists. split; [done|]. cbn [test_case_indices_ test_indices_ random_].
  rewrite Nat2Z.id in *. split; [|split; [by rewrite Hp2|split; [done|]]].
  - rewrite Ht2. assert (in_order (length tests)
      = in_order deaths ++ drop deaths (in_order (length tests))) as Hsplit.
    { rewrite <- (take_drop deaths (in_order (length tests))) at 1. f_equal. unfold in_order.
      rewrite <- fmap_take. by rewrite take_seq, Nat.min_l. }
    rewrite <- (take_drop deaths v1), Hd1 in Hp1. rewrite Hsplit in Hp1 at 2.
    by apply Permutation_app_inv_r in Hp1.
  - unfold UnshuffleTests. cbn [test_case_indices_ test_indices_ random_ last_death_test_case_].
    assert (length v2 = length tests) as -> by (by rewrite Hp2). f_equal.
    clear -Hcs. revert cs Hcs. induction tests as [|n tests IH]; intros cs Hcs;
      inversion Hcs as [|c ? cs' ? Hc Hrest]; subst; [done|].
    rewrite !fmap_cons. f_equal; [|by apply IH].
    rewrite Hc. unfold in_order. by rewrite length_fmap, length_seq.
Qed.

Lemma ShuffleTests_reorders_witness :
  ∃ o, ShuffleTests (unshuffled 1 [2; 1; 3]%nat 42) = Some o ∧
    take 1 o.(test_case_indices_) ≡ₚ in_order 1 ∧
    o.(test_case_indices_) ≡ₚ in_order 3 ∧
    Forall2 Permutation o.(test_indices_) (in_order <$> [2; 1; 3]%nat) ∧
    UnshuffleTests o = unshuffled 1 [2; 1; 3]%nat o.(random_).
Proof.
  apply (ShuffleTests_reorders 1 [2; 1; 3]%nat 42); [simpl; lia|unfold kMaxRange; simpl; lia|].
  unfold kMaxRange. repeat (apply Forall_cons; split; [lia|]). apply Forall_nil; done.
Defined.

(** * The tests by their position *)

(** After the tests are shuffled the two accessors disagree: the case the run
    executes at a position and the mutable accessor returns there,
    [GetMutableTestCase], is looked up by the shuffled index, but the const
    [GetTestCase] of the same position takes the position itself for the index. *)
Theorem GetTestCase_ignores_shuffle :
  ∃ o, ShuffleTests (unshuffled 0 [1; 1; 1]%nat 42) = Some o ∧
    (∀ A (cases : list A) i, GetTestCase cases (unshuffled 0 [1; 1; 1]%nat 42) i
       = GetMutableTestCase cases (unshuffled 0 [1; 1; 1]%nat 42) i) ∧
    ∃ i, GetTestCase [bytes "A"; bytes "B"; bytes "C"] o i
       ≠ GetMutableTestCase [bytes "A"; bytes "B"; bytes "C"] o i.
Proof.
  eexists. split; [vm_compute; reflexivity|]. split.
  - intros A cases i. unfold GetTestCase, GetMutableTestCase, GetElementOr, unshuffled.
    cbn [test_case_indices_]. destruct ((i <? 0) || _) eqn:Hi; [done|].
    apply orb_false_iff in Hi as [Hi Hl]. apply Z.ltb_ge in Hi. apply Z.leb_gt in Hl.
    assert (i < 3) as Hl3 by exact Hl.
    assert (i = 0 ∨ i = 1 ∨ i = 2) as [-> | [-> | ->]] by lia; reflexivity.
  - exists 0. vm_compute. congruence.
Qed.

(** * Seeds *)

(** [n] repetitions of a run that shuffles. *)
Definition next_seeds (n : nat) (seed : Z) : option Z :=
  Nat.iter n (λ s, s ← s; GetNextRandomSeed s) (Some seed).

Lemma next_seeds_ok n seed :
  1 <= seed <= kMaxRandomSeed →
  next_seeds n seed = Some ((seed - 1 + Z.of_nat n) mod kMaxRandomSeed + 1).
Proof.
  intros Hs. unfold next_seeds. induction n as [|n IH].
  - simpl. f_equal. rewrite Z.mod_small; unfold kMaxRandomSeed in *; lia.
  - rewrite Nat.iter_succ, IH. cbn [mbind option_bind]. unfold GetNextRandomSeed.
    set (m := (seed - 1 + Z.of_nat n) mod kMaxRandomSeed).
    assert (0 <= m < kMaxRandomSeed) as Hm by (apply Z.mod_pos_bound; done).
    destruct (Z.leb_spec 1 (m + 1)); [|lia]. destruct (Z.leb_spec (m + 1) kMaxRandomSeed); [|lia].
    cbn [andb]. f_equal. replace (seed - 1 + Z.of_nat (S n)) with (seed - 1 + Z.of_nat n + 1) by lia.
    rewrite <- Z.add_mod_idemp_l by done. fold m.
    destruct (Z.ltb_spec kMaxRandomSeed (m + 1 + 1)).
    + replace m with (kMaxRandomSeed - 1) by lia. reflexivity.
    + rewrite Z.mod_small by lia. lia.
Qed.

(** The seed of a run is always a valid one: whatever the flag is (negative
    and out of [int]'s range included) and whatever the clock says, it lies
    between 1 and [kMaxRandomSeed], a flag in that range is taken as it is, and
    the repetitions of the run never fail the check of [GetNextRandomSeed] but
    run through the seeds in a circle of length [kMaxRandomSeed]. *)
Theorem random_seeds_are_valid flag now n :
  let seed := GetRandomSeedFromFlag flag now in
  1 <= seed <= kMaxRandomSeed ∧
  (1 <= flag <= kMaxRandomSeed → seed = flag) ∧
  (∃ s, next_seeds n seed = Some s ∧ 1 <= s <= kMaxRandomSeed) ∧
  next_seeds (Z.to_nat kMaxRandomSeed) seed = Some seed.
Proof.
  cbv zeta. assert (1 <= GetRandomSeedFromFlag flag now <= kMaxRandomSeed) as Hs.
  { unfold GetRandomSeedFromFlag. destruct (flag =? 0);
      match goal with |- context [?a mod kMaxRandomSeed] =>
        pose proof (Z.mod_pos_bound a kMaxRandomSeed ltac:(done)) end; lia. }
  split; [done|]. split; [|split].
  - intros Hf. unfold GetRandomSeedFromFlag. destruct (Z.eqb_spec flag 0); [lia|].
    unfold kMaxRandomSeed in *. rewrite (Z.mod_small flag) by (unfold U32; lia).
    rewrite (Z.mod_small (flag - 1)) by (unfold U32; lia). rewrite Z.mod_small by lia. lia.
  - rewrite next_seeds_ok by done. eexists. split; [done|].
    match goal with |- context [?a mod kMaxRandomSeed] =>
      pose proof (Z.mod_pos_bound a kMaxRandomSeed ltac:(done)) end. lia.
  - rewrite next_seeds_ok by done. f_equal. rewrite Z2Nat.id by done.
    rewrite Z.add_mod, Z.mod_same, Z.add_0_r, Z.mod_mod by done.
    rewrite Z.mod_small by lia. lia.
Qed.
