(* ===== verification/Matching.v ===== *)
(** The pairing of elements and matchers behind [UnorderedElementsAre] of Google
    Mock ([src/lib/googlemock/src/gmock-matchers.cc] and
    [include/gmock/gmock-matchers.h]): the connectivity matrix, the maximum
    bipartite matching on it, and the matcher.

    A [size_t] that is an index is a [nat]; [kUnused], the largest [size_t], is
    [None], since no vector has that many elements.  What a listener is told is
    a string, empty where it is not interested. *)

From S2P Require Import Prelude Strings.
From stdpp Require Import base list strings.
From Stdlib Require Import ZArith Ascii.

(** * [class MatchMatrix] *)

Record MatchMatrix := mkMatrix {
  num_elements_ : nat;
  num_matchers_ : nat;
  matched_ : list bool
}.

Definition new_matrix (num_elements num_matchers : nat) : MatchMatrix :=
  mkMatrix num_elements num_matchers (replicate (num_elements * num_matchers) false).

Definition LhsSize (m : MatchMatrix) : nat := m.(num_elements_).
Definition RhsSize (m : MatchMatrix) : nat := m.(num_matchers_).
Definition SpaceIndex (m : MatchMatrix) (ilhs irhs : nat) : nat :=
  ilhs * m.(num_matchers_) + irhs.
Definition HasEdge (m : MatchMatrix) (ilhs irhs : nat) : bool :=
  default false (m.(matched_) !! SpaceIndex m ilhs irhs).
Definition SetEdge (ilhs irhs : nat) (b : bool) (m : MatchMatrix) : MatchMatrix :=
  mkMatrix m.(num_elements_) m.(num_matchers_) (<[SpaceIndex m ilhs irhs := b]> m.(matched_)).

(** The inner loop of [NextGraph], over the matchers [irhs]; [true] is the
    [return] out of both loops. *)
Fixpoint next_in_row (ilhs : nat) (irhs : list nat) (m : MatchMatrix) : MatchMatrix * bool :=
  match irhs with
  | [] => (m, false)
  | j :: irhs =>
      if negb (HasEdge m ilhs j) then (SetEdge ilhs j true m, true)
      else next_in_row ilhs irhs (SetEdge ilhs j false m)
  end.
Fixpoint next_in_rows (ilhs : list nat) (m : MatchMatrix) : MatchMatrix * bool :=
  match ilhs with
  | [] => (m, false)
  | i :: ilhs =>
      let '(m, done) := next_in_row i (seq 0 (RhsSize m)) m in
      if done then (m, true) else next_in_rows ilhs m
  end.
Definition NextGraph (m : MatchMatrix) : MatchMatrix * bool := next_in_rows (seq 0 (LhsSize m)) m.

(** * [class MaxBipartiteMatchState] *)

Record State := mkState { left_ : list (option nat); right_ : list (option nat) }.

Definition kUnused : option nat := None.

Definition new_state (graph : MatchMatrix) : State :=
  mkState (replicate (LhsSize graph) kUnused) (replicate (RhsSize graph) kUnused).

(** [left_[ilhs] = irhs; right_[irhs] = ilhs] *)
Definition add_flow (ilhs irhs : nat) (st : State) : State :=
  mkState (<[ilhs := Some irhs]> st.(left_)) (<[irhs := Some ilhs]> st.(right_)).

(** The loop of [TryAugment] over the right nodes [irhs]; [again] is the
    recursive call.  The vector [seen] is shared by all calls. *)
Fixpoint search (graph : MatchMatrix)
    (again : nat → list bool → State → option (bool * list bool * State)) (ilhs : nat)
    (irhs : list nat) (seen : list bool) (st : State) : option (bool * list bool * State) :=
  match irhs with
  | [] => Some (false, seen, st)
  | j :: irhs =>
      if default false (seen !! j) then search graph again ilhs irhs seen st
      else if negb (HasEdge graph ilhs j) then search graph again ilhs irhs seen st
      else
        let seen := <[j := true]> seen in
        '(found, seen, st) ←
          match default kUnused (st.(right_) !! j) with
          | None => Some (true, seen, st)
          | Some l => again l seen st
          end;
        if found : bool then Some (true, seen, add_flow ilhs j st)
        else search graph again ilhs irhs seen st
  end.

(** [TryAugment], the depth of calls bounded by [fuel]. *)
Fixpoint TryAugment (fuel : nat) (graph : MatchMatrix) (ilhs : nat) (seen : list bool)
    (st : State) : option (bool * list bool * State) :=
  match fuel with
  | O => None
  | S fuel => search graph (TryAugment fuel graph) ilhs (seq 0 (RhsSize graph)) seen st
  end.

(** The first loop of [Compute]; a failed [GTEST_CHECK_] gives [None]. *)
Fixpoint compute_loop (graph : MatchMatrix) (ilhs : list nat) (st : State) : option State :=
  match ilhs with
  | [] => Some st
  | i :: ilhs =>
      if decide (default kUnused (st.(left_) !! i) = kUnused) then
        '(_, _, st) ← TryAugment (S (RhsSize graph)) graph i (replicate (RhsSize graph) false) st;
        compute_loop graph ilhs st
      else None
  end.

(** The second loop, from element [ilhs] on. *)
Fixpoint pairs_from (ilhs : nat) (links : list (option nat)) : list (nat * nat) :=
  match links with
  | [] => []
  | None :: links => pairs_from (S ilhs) links
  | Some irhs :: links => (ilhs, irhs) :: pairs_from (S ilhs) links
  end.

Definition Compute (graph : MatchMatrix) : option (list (nat * nat)) :=
  st ← compute_loop graph (seq 0 (LhsSize graph)) (new_state graph);
  Some (pairs_from 0 st.(left_)).

Definition FindMaxBipartiteMatching (g : MatchMatrix) : option (list (nat * nat)) := Compute g.

(** * Explanations *)

Definition nl : string := String "010"%char "".
(** A [size_t] in decimal: twenty digits are enough for 64 bits. *)
Definition show (n : nat) : string := decimal 20 (Z.of_nat n) "".

(** The loop over the pairs of [LogElementMatcherPairVec], with the separator. *)
Fixpoint log_pairs (sep : string) (pairs : list (nat * nat)) : string :=
  match pairs with
  | [] => ""
  | (e, m) :: pairs =>
      sep +:+ nl +:+ "  (element #" +:+ show e +:+ ", matcher #" +:+ show m +:+ ")"
      +:+ log_pairs "," pairs
  end.
Definition LogElementMatcherPairVec (pairs : list (nat * nat)) : string :=
  "{" +:+ log_pairs "" pairs +:+ nl +:+ "}".

(** The loop that explains a pairing. *)
Fixpoint explain_pairs (sep : string) (pairs : list (nat * nat)) : string :=
  match pairs with
  | [] => ""
  | (e, m) :: pairs =>
      sep +:+ " - element #" +:+ show e +:+ " is matched by matcher #" +:+ show m
      +:+ explain_pairs ("," +:+ nl) pairs
  end.

(** [FindPairing]: the result and what the listener is told. *)
Definition FindPairing (matrix : MatchMatrix) (interested : bool) : option (bool * string) :=
  matches ← FindMaxBipartiteMatching matrix;
  let max_flow := length matches in
  Some
    (if negb (max_flow =? RhsSize matrix)%nat then
       (false,
        if interested then
          "where no permutation of the elements can satisfy all matchers, and the closest match is "
          +:+ show max_flow +:+ " of " +:+ show (RhsSize matrix)
          +:+ " matchers with the pairings:" +:+ nl +:+ LogElementMatcherPairVec matches
        else "")
     else
       (true,
        if (1 <? length matches)%nat && interested
        then explain_pairs ("where:" +:+ nl) matches else "")).

(** * [UnorderedElementsAre]

    An element matcher is the predicate it decides; [describe] is what the
    matcher of an index says of itself. *)

(** Whether an element, or a matcher, is matched by anything at all: what the
    double loop leaves in [element_matched] and [matcher_matched]. *)
Definition element_matched (m : MatchMatrix) : list bool :=
  (λ i, existsb (HasEdge m i) (seq 0 (RhsSize m))) <$> seq 0 (LhsSize m).
Definition matcher_matched (m : MatchMatrix) : list bool :=
  (λ j, existsb (λ i, HasEdge m i j) (seq 0 (LhsSize m))) <$> seq 0 (RhsSize m).

(** A loop that reports the unmatched of [matched], from index [i] on: whether
    there is one, and the text. *)
Fixpoint report_unmatched (interested : bool) (outer_sep sep kind : string)
    (name : nat → string) (i : nat) (matched : list bool) : bool * string :=
  match matched with
  | [] => (false, "")
  | true :: matched => report_unmatched interested outer_sep sep kind name (S i) matched
  | false :: matched =>
      if interested then
        (true, outer_sep +:+ sep +:+ kind +:+ " #" +:+ show i +:+ ": " +:+ name i
               +:+ (report_unmatched interested "" ("," +:+ nl) kind name (S i) matched).2)
      else (true, "")
  end.

Definition VerifyAllElementsAndMatchersAreMatched (describe element_printouts : nat → string)
    (matrix : MatchMatrix) (interested : bool) : bool * string :=
  let '(unmatched, text) :=
    report_unmatched interested "" ("where the following matchers don't match any elements:" +:+ nl)
      "matcher" describe 0 (matcher_matched matrix) in
  let '(unmatched', text') :=
    report_unmatched interested (if unmatched then nl +:+ "and " else "")
      ("where the following elements don't match any matchers:" +:+ nl)
      "element" element_printouts 0 (element_matched matrix) in
  (negb (unmatched || unmatched'), text +:+ text').

Section UnorderedElementsAre.
Context {A : Type} (print : A → string).

(** The loops of [AnalyzeElements]: the answers of all matchers, and their way
    into the matrix, with the iterator over the answers. *)
Definition did_match (elements : list A) (matchers : list (A → bool)) : list bool :=
  concat ((λ e, (λ m, m e) <$> matchers) <$> elements).
Fixpoint fill_row (ilhs : nat) (irhs : list nat) (answers : list bool) (m : MatchMatrix)
    : MatchMatrix * list bool :=
  match irhs, answers with
  | j :: irhs, b :: answers => fill_row ilhs irhs answers (SetEdge ilhs j b m)
  | _, _ => (m, answers)
  end.
Fixpoint fill_rows (ilhs : list nat) (answers : list bool) (m : MatchMatrix) : MatchMatrix :=
  match ilhs with
  | [] => m
  | i :: ilhs =>
      let '(m, answers) := fill_row i (seq 0 (RhsSize m)) answers m in fill_rows ilhs answers m
  end.
Definition AnalyzeElements (elements : list A) (matchers : list (A → bool)) : MatchMatrix :=
  fill_rows (seq 0 (length elements)) (did_match elements matchers)
    (new_matrix (length elements) (length matchers)).

Definition Elements (n : nat) : string :=
  show n +:+ " element" +:+ (if (n =? 1)%nat then "" else "s").

Definition MatchAndExplain (elements : list A) (matchers : list (A → bool))
    (describe : nat → string) (interested : bool) : option (bool * string) :=
  let matrix := AnalyzeElements elements matchers in
  let actual_count := LhsSize matrix in
  if (actual_count =? 0)%nat && (length matchers =? 0)%nat then Some (true, "")
  else if negb (actual_count =? length matchers)%nat then
    Some (false, if negb (actual_count =? 0)%nat && interested
                 then "which has " +:+ Elements actual_count else "")
  else
    let '(verified, text) :=
      VerifyAllElementsAndMatchersAreMatched describe
        (λ i, default "" (print <$> elements !! i)) matrix interested in
    if verified : bool then
      '(paired, text') ← FindPairing matrix interested; Some (paired, text +:+ text')
    else Some (false, text).
End UnorderedElementsAre.
