(* ===== verification/MatchingFacts.v ===== *)
(** The matching of Google Mock is a maximum one, and [UnorderedElementsAre]
    matches exactly the permutations: the facts about [Matching]. *)

From S2P Require Import Prelude Strings Matching.
From stdpp Require Import base gmap list strings sets.
From Stdlib Require Import ZArith.

(** * The state of the search *)

Section Augment.
Context (g : MatchMatrix).

Definition edge (l r : nat) : Prop := l < LhsSize g ∧ r < RhsSize g ∧ HasEdge g l r = true.

(** An element's matcher, a matcher's element, what was seen. *)
Definition lr (st : State) (l r : nat) : Prop := st.(left_) !! l = Some (Some r).
Definition rl (st : State) (r l : nat) : Prop := st.(right_) !! r = Some (Some l).
Definition used (st : State) (l : nat) : Prop := ∃ r, lr st l r.
Definition at_ (seen : list bool) (r : nat) : Prop := seen !! r = Some true.
#[global] Instance at_dec seen r : Decision (at_ seen r).
Proof. unfold at_. apply _. Defined.

(** [left_] and [right_] are mutually referent, along edges. *)
Record state_ok (st : State) : Prop := {
  ok_left : length st.(left_) = LhsSize g;
  ok_right : length st.(right_) = RhsSize g;
  ok_lr l r : lr st l r → rl st r l;
  ok_rl r l : rl st r l → lr st l r;
  ok_edge l r : lr st l r → edge l r
}.

(** All that the nodes [C] reach in the residual graph is in [C]. *)
Definition closed (st : State) (C : nat → Prop) : Prop :=
  ∀ r, C r → ∃ l, rl st r l ∧ ∀ r', edge l r' → C r'.

(** The call of a node whose own link, if it has one, was seen. *)
Definition entered (st : State) (l : nat) (seen : list bool) : Prop :=
  l < LhsSize g ∧ ∀ r, lr st l r → at_ seen r.

(** What a search from [l] that found a path did to the state. *)
Record augmented (st st' : State) (l : nat) (seen : list bool) : Prop := {
  au_left : length st'.(left_) = LhsSize g;
  au_right : length st'.(right_) = RhsSize g;
  au_new : ∃ r, lr st' l r ∧ ¬ at_ seen r;
  au_lr x r : lr st' x r → rl st' r x;
  au_rl r x : rl st' r x → lr st' x r ∨ (x = l ∧ lr st l r);
  au_seen r : at_ seen r → st'.(right_) !! r = st.(right_) !! r;
  au_old x : x ≠ l → (∀ r, lr st x r → at_ seen r) → st'.(left_) !! x = st.(left_) !! x;
  au_used x : x ≠ l → used st' x ↔ used st x;
  au_edge x r : lr st' x r → edge x r;
  au_closed C : closed st C →
    (∀ r, C r → st'.(right_) !! r = st.(right_) !! r) ∧ ∃ r, edge l r ∧ ¬ C r
}.

(** What a search over the nodes [rs] that found none saw. *)
Record exhausted (st : State) (l : nat) (rs : list nat) (seen seen' : list bool) : Prop := {
  ex_edges r : r ∈ rs → edge l r → at_ seen' r;
  ex_closed r : at_ seen' r → ¬ at_ seen r →
    ∃ x, rl st r x ∧ ∀ r', edge x r' → at_ seen' r'
}.

Definition searched (st : State) (l : nat) (rs : list nat) (seen : list bool)
    (res : option (bool * list bool * State)) : Prop :=
  ∃ b seen' st', res = Some (b, seen', st') ∧ length seen' = RhsSize g ∧
    (∀ r, at_ seen r → at_ seen' r) ∧
    if b : bool then augmented st st' l seen
    else st' = st ∧ exhausted st l rs seen seen'.

Lemma lr_fun st l r r' : lr st l r → lr st l r' → r = r'.
Proof. unfold lr. congruence. Qed.
Lemma rl_fun st r l l' : rl st r l → rl st r l' → l = l'.
Proof. unfold rl. congruence. Qed.

Lemma at_mark seen r r' :
  r < length seen → at_ (<[r := true]> seen) r' ↔ r' = r ∨ at_ seen r'.
Proof.
  intros Hr. unfold at_. destruct (decide (r' = r)) as [->|Hne].
  - rewrite list_lookup_insert_eq by done. naive_solver.
  - rewrite list_lookup_insert_ne by done. naive_solver.
Qed.

Lemma lookup_add_flow st l r :
  l < length st.(left_) → r < length st.(right_) →
  (∀ x y, lr (add_flow l r st) x y ↔ (x = l ∧ y = r) ∨ (x ≠ l ∧ lr st x y)) ∧
  (∀ x y, rl (add_flow l r st) y x ↔ (x = l ∧ y = r) ∨ (y ≠ r ∧ rl st y x)).
Proof.
  intros Hl Hr. unfold lr, rl, add_flow. cbn [left_ right_]. split; intros x y.
  - destruct (decide (x = l)) as [->|].
    + rewrite list_lookup_insert_eq by done. naive_solver.
    + rewrite list_lookup_insert_ne by done. naive_solver.
  - destruct (decide (y = r)) as [->|].
    + rewrite list_lookup_insert_eq by done. naive_solver.
    + rewrite list_lookup_insert_ne by done. naive_solver.
Qed.

(** The end of a path: [j] is taken from nobody. *)
Lemma augment_free st l j seen :
  state_ok st → entered st l seen → edge l j → ¬ at_ seen j →
  (∀ x, ¬ rl st j x) → augmented st (add_flow l j st) l seen.
Proof.
  intros Hok [Hl Hown] He Hj Hfree. pose proof He as (_ & Hjr & _).
  destruct (lookup_add_flow st l j) as [HL HR];
    [by rewrite (ok_left st Hok)|by rewrite (ok_right st Hok)|].
  assert (∀ x, ¬ lr st x j) as Hnj by (intros x Hx; by apply (Hfree x), ok_lr).
  split.
  - unfold add_flow. simpl. rewrite length_insert. by apply ok_left.
  - unfold add_flow. simpl. rewrite length_insert. by apply ok_right.
  - exists j. split; [apply HL; tauto|done].
  - intros x r [[-> ->]|[Hx H]]%HL; apply HR; [tauto|]. right.
    split; [intros ->; by apply (Hnj x)|by apply ok_lr].
  - intros r x [[-> ->]|[Hr H]]%HR; [left; apply HL; tauto|]. apply ok_rl in H; [|done].
    destruct (decide (x = l)) as [->|]; [tauto|]. left. apply HL. tauto.
  - intros r Hr. unfold add_flow. simpl. apply list_lookup_insert_ne. by intros ->.
  - intros x Hx _. unfold add_flow. simpl. by apply list_lookup_insert_ne.
  - intros x Hx. split; intros [r H]; exists r; [apply HL in H|apply HL]; tauto.
  - intros x r [[-> ->]|[_ H]]%HL; [done|by apply (ok_edge st)].
  - intros C HC. assert (¬ C j) as HjC by (intros Hj'; destruct (HC j Hj') as (x & Hx & _); by apply (Hfree x)).
    split; [|by exists j]. intros r Hr. unfold add_flow. simpl.
    apply list_lookup_insert_ne. by intros ->.
Qed.

(** The middle of a path: [j] is taken from [l2], which found another one. *)
Lemma augment_taken st st1 l l2 j seen :
  state_ok st → entered st l seen → length seen = RhsSize g → edge l j → ¬ at_ seen j →
  rl st j l2 → augmented st st1 l2 (<[j := true]> seen) →
  augmented st (add_flow l j st1) l seen.
Proof.
  intros Hok [Hl Hown] Hlen He Hj H2 Ha. pose proof He as (_ & Hjr & _).
  assert (∀ r, at_ (<[j := true]> seen) r ↔ r = j ∨ at_ seen r) as Hseen
    by (intros r; apply at_mark; by rewrite Hlen).
  destruct (lookup_add_flow st1 l j) as [HL HR];
    [by rewrite (au_left _ _ _ _ Ha)|by rewrite (au_right _ _ _ _ Ha)|].
  assert (lr st l2 j) as Hl2 by by apply ok_rl.
  assert (l ≠ l2) as Hne by (intros ->; by apply Hj, Hown).
  assert (st1.(right_) !! j = st.(right_) !! j) as Hj1
    by (apply (au_seen _ _ _ _ Ha), Hseen; tauto).
  assert (∀ x, x ≠ l2 → ¬ lr st1 x j) as Hnj.
  { intros x Hx H. apply Hx. apply (au_lr _ _ _ _ Ha) in H. unfold rl in H, H2. congruence. }
  assert (¬ lr st1 l2 j) as Hnj2.
  { destruct (au_new _ _ _ _ Ha) as (r & Hr & Hr'). intros H.
    apply Hr', Hseen. left. by eapply lr_fun. }
  split.
  - unfold add_flow. simpl. rewrite length_insert. by eapply au_left.
  - unfold add_flow. simpl. rewrite length_insert. by eapply au_right.
  - exists j. split; [apply HL; tauto|done].
  - intros x r [[-> ->]|[Hx H]]%HL; apply HR; [tauto|]. right. split.
    + intros ->. destruct (decide (x = l2)) as [->|]; [done|by apply (Hnj x)].
    + by apply (au_lr _ _ _ _ Ha).
  - intros r x [[-> ->]|[Hr H]]%HR; [left; apply HL; tauto|].
    apply (au_rl _ _ _ _ Ha) in H as [H|[-> H]].
    + destruct (decide (x = l)) as [->|]; [right|left; apply HL; tauto]. split; [done|].
      unfold lr in *. rewrite <- H. symmetry. apply (au_old _ _ _ _ Ha); [done|].
      intros r' H'. apply Hseen. right. by apply Hown.
    + exfalso. apply Hr. by eapply lr_fun.
  - intros r Hr. unfold add_flow. simpl. rewrite list_lookup_insert_ne by by intros ->.
    apply (au_seen _ _ _ _ Ha), Hseen. tauto.
  - intros x Hx Hx'. unfold add_flow. simpl. rewrite list_lookup_insert_ne by done.
    apply (au_old _ _ _ _ Ha); [|intros r Hr; apply Hseen; right; by apply Hx'].
    intros ->. by apply Hj, Hx'.
  - intros x Hx. transitivity (used st1 x).
    + split; intros [r H]; exists r; [apply HL in H|apply HL]; tauto.
    + destruct (decide (x = l2)) as [->|]; [|by apply (au_used _ _ _ _ Ha)].
      split; intros _; [by exists j|]. destruct (au_new _ _ _ _ Ha) as (r & Hr & _). by exists r.
  - intros x r [[-> ->]|[_ H]]%HL; [done|by apply (au_edge _ _ _ _ Ha)].
  - intros C HC. destruct (au_closed _ _ _ _ Ha C HC) as (Hsame & r' & Hr' & HrC).
    assert (¬ C j) as HjC.
    { intros Hj'. destruct (HC j Hj') as (x & Hx & Hreach).
      apply HrC, Hreach. by replace x with l2 by (by eapply rl_fun). }
    split; [|by exists j]. intros r Hr. unfold add_flow. simpl.
    rewrite list_lookup_insert_ne by by intros ->. by apply Hsame.
Qed.

(** A path found behind more nodes than were seen is one behind those seen. *)
Lemma augmented_weaken st st' l seen seen1 :
  (∀ r, at_ seen r → at_ seen1 r) → augmented st st' l seen1 → augmented st st' l seen.
Proof.
  intros Hs Ha. split; [by eapply au_left|by eapply au_right| |by eapply au_lr|by eapply au_rl| |
    |by eapply au_used|by eapply au_edge|by eapply au_closed].
  - destruct (au_new _ _ _ _ Ha) as (r & Hr & Hn). exists r. split; [done|]. naive_solver.
  - intros r Hr. apply (au_seen _ _ _ _ Ha). auto.
  - intros x Hx Hx'. apply (au_old _ _ _ _ Ha); naive_solver.
Qed.

(** * The search *)

Definition unseen (seen : list bool) : nat := count_true negb seen.

Lemma unseen_mono seen seen' :
  length seen = length seen' → (∀ r, at_ seen r → at_ seen' r) → unseen seen' <= unseen seen.
Proof.
  unfold unseen. revert seen'. induction seen as [|b seen IH]; intros [|b' seen'] Hl Hs; try done.
  rewrite !count_true_cons. assert (count_true negb seen' <= count_true negb seen) as H.
  { apply IH; [by injection Hl|]. intros r Hr. by apply (Hs (S r)). }
  destruct b; [|destruct b'; simpl; lia].
  assert (b' = true) as -> by (specialize (Hs 0 eq_refl); by injection Hs). simpl. lia.
Qed.

Lemma unseen_mark seen j :
  j < length seen → ¬ at_ seen j → S (unseen (<[j := true]> seen)) = unseen seen.
Proof.
  unfold unseen. revert j. induction seen as [|b seen IH]; intros j Hj Hn; [simpl in Hj; lia|].
  destruct j as [|j]; simpl; rewrite !count_true_cons.
  - destruct b; [by destruct Hn|]. simpl. done.
  - rewrite <- (IH j); [lia|simpl in Hj; lia|done].
Qed.

Lemma entered_mono st l seen seen' :
  (∀ r, at_ seen r → at_ seen' r) → entered st l seen → entered st l seen'.
Proof. intros Hs [Hl H]. split; [done|]. auto. Qed.

Definition call_ok (st : State) (n : nat)
    (again : nat → list bool → State → option (bool * list bool * State)) : Prop :=
  ∀ l seen, entered st l seen → length seen = RhsSize g → unseen seen < n →
    searched st l (seq 0 (RhsSize g)) seen (again l seen st).

(** The rest of the loop, after [j] was found to be a dead end or no way. *)
Lemma searched_cons st l j rs seen seen2 res :
  (∀ r, at_ seen r → at_ seen2 r) → (edge l j → at_ seen2 j) →
  (∀ r, at_ seen2 r → ¬ at_ seen r → ∃ x, rl st r x ∧ ∀ r', edge x r' → at_ seen2 r') →
  searched st l rs seen2 res → searched st l (j :: rs) seen res.
Proof.
  intros Hs Hj Hc (b & seen' & st' & -> & Hlen & Hs' & Hres). exists b, seen', st'.
  split; [done|]. split; [done|]. split; [auto|].
  destruct b; [by eapply augmented_weaken|]. destruct Hres as [-> [He Hcl]].
  split; [done|]. split.
  - intros r [->|Hr]%elem_of_cons Hedge; [by auto|]. by apply He.
  - intros r Hr Hn. destruct (decide (at_ seen2 r)) as [H2|H2].
    + destruct (Hc r H2 Hn) as (x & Hx & Hreach). exists x. split; [done|]. auto.
    + by apply Hcl.
Qed.

Lemma searched_skip st l j rs seen res :
  (edge l j → at_ seen j) → searched st l rs seen res → searched st l (j :: rs) seen res.
Proof. intros Hj. apply searched_cons; [done|done|]. by intros r H Hn. Qed.

Lemma search_ok st n again l rs seen :
  state_ok st → call_ok st n again → entered st l seen → length seen = RhsSize g →
  unseen seen <= n → Forall (λ r, r < RhsSize g) rs →
  searched st l rs seen (search g again l rs seen st).
Proof.
  intros Hok Hcall. revert seen. induction rs as [|j rs IH]; intros seen Hen Hlen Hun Hrs.
  { exists false, seen, st. split; [done|]. split; [done|]. split; [done|]. split; [done|].
    split; [by intros r Hr%elem_of_nil|done]. }
  apply Forall_cons in Hrs as [Hj Hrs]. cbn [search].
  destruct (lookup_lt_is_Some_2 seen j) as [b Hb]; [lia|]. rewrite Hb. cbn [default from_option id].
  destruct b; [by apply searched_skip, IH|].
  destruct (HasEdge g l j) eqn:Hedge; cbn [negb];
    [|apply searched_skip; [intros (_ & _ & ?); congruence|by apply IH]].
  assert (edge l j) as He by (split; [apply Hen|done]).
  assert (¬ at_ seen j) as Hnj by (unfold at_; congruence).
  set (seen1 := <[j := true]> seen).
  assert (∀ r, at_ seen1 r ↔ r = j ∨ at_ seen r) as Hseen1 by (intros r; apply at_mark; lia).
  assert (length seen1 = RhsSize g) as Hlen1 by (unfold seen1; by rewrite length_insert).
  destruct (default kUnused (st.(right_) !! j)) as [l2|] eqn:Hr.
  - assert (rl st j l2) as H2.
    { unfold rl. destruct (st.(right_) !! j) as [o|]; [|done]. simpl in Hr. by subst. }
    assert (lr st l2 j) as H2' by by apply ok_rl.
    destruct (Hcall l2 seen1) as (b & seen2 & st2 & -> & Hlen2 & Hs2 & Hres); [|done| |].
    { split; [by eapply ok_edge|]. intros r Hr2. apply Hseen1. left. by eapply lr_fun. }
    { pose proof (unseen_mark seen j) as Hm. fold seen1 in Hm. rewrite <- Hm in Hun by (done || lia). lia. }
    cbn [mbind option_bind]. destruct b.
    + exists true, seen2, (add_flow l j st2). split; [done|]. split; [done|].
      split; [intros r Hr'; apply Hs2, Hseen1; tauto|]. by eapply augment_taken.
    + destruct Hres as [-> [He2 Hc2]].
      apply (searched_cons st l j rs seen seen2).
      * intros r Hr'. apply Hs2, Hseen1. tauto.
      * intros _. apply Hs2, Hseen1. tauto.
      * intros r Hr2 Hn. destruct (decide (at_ seen1 r)) as [[->|]%Hseen1|Hn1]; [|done|by apply Hc2].
        exists l2. split; [done|]. intros r' Hr'. apply He2; [|done].
        apply elem_of_seq. destruct Hr' as (_ & ? & _). lia.
      * apply IH; [|done| |done].
        -- eapply entered_mono; [|done]. intros r Hr'. apply Hs2, Hseen1. tauto.
        -- etrans; [|exact Hun]. apply unseen_mono; [lia|].
           intros r Hr'. apply Hs2, Hseen1. tauto.
  - cbn [mbind option_bind]. exists true, seen1, (add_flow l j st). split; [done|]. split; [done|].
    split; [intros r Hr'; apply Hseen1; tauto|].
    apply augment_free; try done. intros x Hx. unfold rl in Hx. rewrite Hx in Hr. done.
Qed.

Lemma TryAugment_ok st fuel l seen :
  state_ok st → entered st l seen → length seen = RhsSize g → unseen seen < fuel →
  searched st l (seq 0 (RhsSize g)) seen (TryAugment fuel g l seen st).
Proof.
  intros Hok. revert l seen. induction fuel as [|fuel IH]; intros l seen Hen Hlen Hun; [lia|].
  cbn [TryAugment]. apply (search_ok st fuel); try done; [lia|].
  apply Forall_forall. intros r Hr. apply elem_of_seq in Hr. lia.
Qed.
End Augment.

(** * The matching *)

Section Maximum.
Context (g : MatchMatrix).

Definition is_matching (ps : list (nat * nat)) : Prop :=
  NoDup ps.*1 ∧ NoDup ps.*2 ∧ ∀ l r, (l, r) ∈ ps → edge g l r.

(** The elements before [k] were searched from; [C] holds all matchers that the
    unmatched ones of them reach. *)
Definition progress (st : State) (k : nat) : Prop :=
  state_ok g st ∧ (∀ l, k <= l → ¬ used st l) ∧
  ∃ C : gset nat, closed g st (.∈ C) ∧
    ∀ l r, l < k → ¬ used st l → edge g l r → r ∈ C.

Lemma progress_start : progress (new_state g) 0.
Proof.
  assert (∀ l r, ¬ lr (new_state g) l r) as Hl
    by (intros l r H; apply lookup_replicate in H as [H _]; done).
  assert (∀ r l, ¬ rl (new_state g) r l) as Hr
    by (intros r l H; apply lookup_replicate in H as [H _]; done).
  split; [|split].
  - split; try (intros ?? ?; exfalso; naive_solver); apply length_replicate.
  - intros l _ [r H]. by apply (Hl l r).
  - exists ∅. split; [intros r H; set_solver|]. intros. lia.
Qed.

Lemma augmented_ok st st' k seen :
  state_ok g st → ¬ used st k → augmented g st st' k seen → state_ok g st'.
Proof.
  intros Hok Hk Ha. split; [by eapply au_left|by eapply au_right|intros ??; by eapply au_lr| |
    intros ??; by eapply au_edge].
  intros r l H. eapply au_rl in H as [H|[-> H]]; [done| |done]. destruct Hk. by exists r.
Qed.

Lemma progress_step st k :
  progress st k → k < LhsSize g →
  ∃ b seen st', TryAugment (S (RhsSize g)) g k (replicate (RhsSize g) false) st = Some (b, seen, st') ∧
    progress st' (S k).
Proof.
  intros (Hok & Hun & C & HC & HU) Hk. set (none := replicate (RhsSize g) false).
  assert (∀ r, ¬ at_ none r) as Hnone by (intros r H; apply lookup_replicate in H as [H _]; done).
  assert (¬ used st k) as Hku by by apply Hun.
  destruct (TryAugment_ok g st (S (RhsSize g)) k none) as (b & seen & st' & E & Hlen & _ & Hres);
    [done| |apply length_replicate| |].
  { split; [done|]. intros r H. destruct Hku. by exists r. }
  { pose proof (count_true_le negb none) as H. unfold none in H at 2.
    rewrite length_replicate in H. unfold unseen. lia. }
  exists b, seen, st'. split; [exact E|]. destruct b.
  - split; [by eapply augmented_ok|]. split.
    + intros l Hl H. apply (Hun l); [lia|]. apply (au_used _ _ _ _ _ Hres); [lia|done].
    + destruct (au_closed _ _ _ _ _ Hres _ HC) as [Hsame _]. exists C. split.
      * intros r Hr. destruct (HC r Hr) as (x & Hx & Hreach). exists x. split; [|done].
        unfold rl. rewrite Hsame; done.
      * intros l r Hl Hlu. destruct (decide (l = k)) as [->|].
        { destruct Hlu. destruct (au_new _ _ _ _ _ Hres) as (r' & H & _). by exists r'. }
        apply HU; [lia|]. intros Hu. by apply Hlu, (au_used _ _ _ _ _ Hres).
  - destruct Hres as [-> [He Hcl]]. split; [done|]. split; [intros l Hl; apply Hun; lia|].
    assert (∀ l r, edge g l r → r ∈ seq 0 (RhsSize g)) as Hrange
      by (intros l r (_ & Hr & _); apply elem_of_seq; lia).
    exists (C ∪ list_to_set (filter (at_ seen) (seq 0 (RhsSize g)))). split.
    + intros r [Hr|Hr]%elem_of_union.
      { destruct (HC r Hr) as (x & Hx & Hreach). exists x. split; [done|]. set_solver. }
      apply elem_of_list_to_set, list_elem_of_filter in Hr as [Hr _].
      destruct (Hcl r Hr (Hnone r)) as (x & Hx & Hreach). exists x. split; [done|].
      intros r' Hr'. apply elem_of_union_r, elem_of_list_to_set, list_elem_of_filter. naive_solver.
    + intros l r Hl Hlu Hedge. destruct (decide (l = k)) as [->|].
      * apply elem_of_union_r, elem_of_list_to_set, list_elem_of_filter. naive_solver.
      * apply elem_of_union_l, (HU l); [lia|done..].
Qed.

Lemma compute_loop_ok n k st :
  progress st k → k + n = LhsSize g →
  ∃ st', compute_loop g (seq k n) st = Some st' ∧ progress st' (LhsSize g).
Proof.
  revert k st. induction n as [|n IH]; intros k st Hp Hk.
  { exists st. split; [done|]. by replace (LhsSize g) with k by lia. }
  cbn [seq compute_loop]. rewrite decide_True.
  - destruct (progress_step st k) as (b & seen & st' & -> & Hp'); [done|lia|].
    cbn [mbind option_bind]. apply IH; [done|lia].
  - destruct (default kUnused (st.(left_) !! k)) as [r|] eqn:E; [|done].
    destruct Hp as (_ & Hun & _). destruct (Hun k); [done|]. exists r. unfold lr.
    destruct (st.(left_) !! k) as [o|]; [|done]. simpl in E. by subst.
Qed.

Lemma elem_of_pairs_from i links l r :
  (l, r) ∈ pairs_from i links ↔ i <= l ∧ links !! (l - i) = Some (Some r).
Proof.
  revert i. induction links as [|o links IH]; intros i.
  { simpl. split; [by intros H%elem_of_nil|by intros [_ H]]. }
  assert ((S i <= l ∧ links !! (l - S i) = Some (Some r))
    ↔ (l ≠ i ∧ i <= l ∧ (o :: links) !! (l - i) = Some (Some r))) as Hrest.
  { split; intros H.
    - destruct H as [H E]. replace (l - i) with (S (l - S i)) by lia. split_and!; [lia|lia|done].
    - destruct H as (? & ? & E). replace (l - i) with (S (l - S i)) in E by lia. split; [lia|done]. }
  destruct o as [r'|]; cbn [pairs_from].
  - rewrite elem_of_cons, IH, Hrest. split.
    + intros [[= -> ->]|H]; [|tauto]. rewrite Nat.sub_diag. by split.
    + intros [Hi E]. destruct (decide (l = i)) as [->|]; [|tauto]. left.
      rewrite Nat.sub_diag in E. by injection E as ->.
  - rewrite IH, Hrest. split; [tauto|]. intros [Hi E]. split; [|done]. intros ->.
    by rewrite Nat.sub_diag in E.
Qed.

Lemma pairs_from_NoDup i links : NoDup (pairs_from i links).*1.
Proof.
  revert i. induction links as [|[r|] links IH]; intros i; cbn [pairs_from];
    [apply NoDup_nil_2| |apply IH].
  rewrite fmap_cons. apply NoDup_cons. split; [|apply IH].
  intros ([l r'] & Hl & H)%list_elem_of_fmap. simpl in Hl. subst.
  apply elem_of_pairs_from in H as [H _]. lia.
Qed.

Lemma pairs_matching st : state_ok g st → is_matching (pairs_from 0 st.(left_)).
Proof.
  intros Hok. split; [apply pairs_from_NoDup|]. split.
  - apply NoDup_fmap_2_strong; [|eapply NoDup_fmap_1, pairs_from_NoDup].
    intros [l r] [l' r'] H H' Hr. simpl in Hr. subst r'.
    apply elem_of_pairs_from in H as [_ H], H' as [_ H']. rewrite Nat.sub_0_r in H, H'.
    f_equal. apply (ok_lr _ _ Hok) in H, H'. by eapply rl_fun.
  - intros l r [_ H]%elem_of_pairs_from. rewrite Nat.sub_0_r in H. by apply (ok_edge _ _ Hok).
Qed.

Lemma NoDup_fmap_inj {A B} (f : A → B) (l : list A) x y :
  NoDup (f <$> l) → x ∈ l → y ∈ l → f x = f y → x = y.
Proof.
  intros Hn Hx Hy Hf. apply list_elem_of_lookup_1 in Hx as [i Hi], Hy as [j Hj].
  assert (i = j) as ->; [|congruence].
  apply (NoDup_lookup (f <$> l) i j (f x)); [done|by rewrite list_lookup_fmap, Hi|].
  by rewrite list_lookup_fmap, Hj, Hf.
Qed.

(** The matchers in [C], and the elements of the edges outside of it, cover all
    edges, and each of them is an end of another edge of the matching. *)
Lemma covered st ps :
  progress st (LhsSize g) → is_matching ps → length ps <= length (pairs_from 0 st.(left_)).
Proof.
  intros (Hok & _ & C & HC & HU) (Hn1 & Hn2 & He).
  set (end_ := λ lr : nat * nat,
    if decide (lr.2 ∈ C) then lr.2 else default 0 (default kUnused (st.(left_) !! lr.1))).
  assert (∀ l r, (l, r) ∈ ps → r ∉ C → lr st l (end_ (l, r))) as Hout.
  { intros l r Hp Hr. unfold end_. simpl. rewrite decide_False by done.
    destruct (st.(left_) !! l) as [[r'|]|] eqn:E; [done| |]; exfalso; apply Hr, (HU l).
    1, 4: by apply (He l r). 2, 4: by apply (He l r).
    all: intros [r' H]; unfold lr in H; congruence. }
  assert (∀ l r, (l, r) ∈ ps → r ∉ C → end_ (l, r) ∉ C) as Hout'.
  { intros l r Hp Hr Hc. destruct (HC _ Hc) as (x & Hx & Hreach). apply Hr, Hreach.
    replace x with l; [by apply He|]. eapply rl_fun; [|exact Hx]. apply (ok_lr _ _ Hok). by apply Hout. }
  assert (∀ l r, r ∈ C → end_ (l, r) = r) as Hin
    by (intros l r Hr; unfold end_; by rewrite decide_True).
  transitivity (length (pairs_from 0 st.(left_)).*2); [|by rewrite length_fmap].
  rewrite <- (length_fmap end_ ps). apply NoDup_incl_length.
  - apply NoDup_ListNoDup, NoDup_fmap_2_strong; [|by eapply NoDup_fmap_1].
    intros [l r] [l' r'] Hp Hp' Heq.
    destruct (decide (r ∈ C)) as [Hr|Hr], (decide (r' ∈ C)) as [Hr'|Hr'].
    + rewrite !Hin in Heq by done. by apply (NoDup_fmap_inj snd ps).
    + rewrite Hin in Heq by done. destruct (Hout' l' r'); [done..|]. by rewrite <- Heq.
    + rewrite (Hin l') in Heq by done. destruct (Hout' l r); [done..|]. by rewrite Heq.
    + apply (NoDup_fmap_inj fst ps); [done..|]. simpl.
      pose proof (Hout _ _ Hp Hr) as Ho. pose proof (Hout _ _ Hp' Hr') as Ho'.
      rewrite <- Heq in Ho'. eapply rl_fun; by apply (ok_lr _ _ Hok).
  - intros s Hs. apply list_elem_of_In, list_elem_of_fmap in Hs as ([l r] & -> & Hp).
    apply list_elem_of_In, list_elem_of_fmap. destruct (decide (r ∈ C)) as [Hr|Hr].
    + rewrite Hin by done. destruct (HC r Hr) as (x & Hx & _). exists (x, r). split; [done|].
      apply elem_of_pairs_from. split; [lia|]. rewrite Nat.sub_0_r. by apply (ok_rl _ _ Hok).
    + exists (l, end_ (l, r)). split; [done|]. apply elem_of_pairs_from. split; [lia|].
      rewrite Nat.sub_0_r. by apply Hout.
Qed.

Lemma maximum_ok :
  ∃ ps, FindMaxBipartiteMatching g = Some ps ∧ is_matching ps ∧
    ∀ ps', is_matching ps' → length ps' <= length ps.
Proof.
  destruct (compute_loop_ok (LhsSize g) 0 (new_state g)) as (st & E & Hp);
    [apply progress_start|done|].
  exists (pairs_from 0 st.(left_)). unfold FindMaxBipartiteMatching, Compute. rewrite E.
  split; [done|]. split; [apply pairs_matching, Hp|]. intros ps'. by apply covered.
Qed.
End Maximum.

(** C33: [FindMaxBipartiteMatching] finds a maximum matching, on every matrix: the
    search ends, with a depth of calls of at most one more than there are
    matchers, no [GTEST_CHECK_] fails, the pairs are edges, no two of them share
    an element or a matcher, and no matching has more of them. *)
Theorem FindMaxBipartiteMatching_maximum (g : MatchMatrix) :
  ∃ ps, FindMaxBipartiteMatching g = Some ps ∧ is_matching g ps ∧
    ∀ ps', is_matching g ps' → length ps' <= length ps.
Proof. apply maximum_ok. Qed.

(** * Permutations *)

Lemma Forall_choice {A B} (P : A → B → Prop) (l : list A) :
  Forall (λ x, ∃ y, P x y) l → ∃ l', Forall2 P l l'.
Proof.
  induction 1 as [|x l [y Hy] _ [l' IH]]; [by exists []|]. exists (y :: l'). by constructor.
Qed.

Lemma omap_seq {A} (pre l : list A) :
  omap ((pre ++ l) !!.) (seq (length pre) (length l)) = l.
Proof.
  revert pre. induction l as [|x l IH]; intros pre; [done|]. cbn [length seq].
  cbn [omap list_omap]. rewrite list_lookup_middle by done. f_equal.
  specialize (IH (pre ++ [x])). rewrite length_app in IH. simpl in IH.
  rewrite Nat.add_1_r, <- (assoc_L (++)) in IH. exact IH.
Qed.

Lemma NoDup_full (l : list nat) n :
  NoDup l → Forall (λ i, i < n) l → length l = n → l ≡ₚ seq 0 n.
Proof.
  intros Hn Hl Hlen. apply NoDup_Permutation_bis; [by apply NoDup_ListNoDup|by rewrite length_seq, Hlen|].
  intros i Hi. apply list_elem_of_In in Hi. apply list_elem_of_In, elem_of_seq.
  rewrite Forall_forall in Hl. specialize (Hl i Hi). lia.
Qed.

Lemma matching_full g ps n :
  is_matching g ps → length ps = n → LhsSize g = n → RhsSize g = n →
  ps.*1 ≡ₚ seq 0 n ∧ ps.*2 ≡ₚ seq 0 n.
Proof.
  intros (H1 & H2 & He) Hn Hl Hr. split; apply NoDup_full; try done; rewrite ?length_fmap; try done;
    apply Forall_fmap, Forall_forall; intros [l r] (? & ? & _)%He; simpl; lia.
Qed.

Lemma covered_size g ps : is_matching g ps → length ps <= RhsSize g.
Proof.
  intros (_ & H2 & He). rewrite <- (length_fmap snd), <- (length_seq (RhsSize g) 0).
  apply NoDup_incl_length; [by apply NoDup_ListNoDup|]. intros r Hr.
  apply list_elem_of_In, list_elem_of_fmap in Hr as ([l r'] & -> & Hp).
  apply list_elem_of_In, elem_of_seq. destruct (He _ _ Hp) as (_ & ? & _). simpl. lia.
Qed.

Section Permutations.
Context {A : Type} (elements : list A) (matchers : list (A → bool)) (g : MatchMatrix).
Context (HL : LhsSize g = length elements) (HR : RhsSize g = length matchers).
Context (Hedge : ∀ i j e m, elements !! i = Some e → matchers !! j = Some m → HasEdge g i j = m e).

(** Some order of the elements satisfies the matchers one by one. *)
Definition satisfied : Prop :=
  ∃ elements', elements' ≡ₚ elements ∧ Forall2 (λ e (m : A → bool), m e = true) elements' matchers.

Lemma satisfied_matching ps :
  is_matching g ps → length ps = length matchers → length elements = length matchers → satisfied.
Proof.
  intros Hm Hn Hlen. destruct (matching_full g ps (length matchers)) as [H1 H2]; [done|done|lia|done|].
  destruct (Permutation_map_inv snd (l1 := seq 0 (length matchers)) ps) as (ps' & Hseq & Hp); [by symmetry|].
  destruct (Forall_choice (λ p e, elements !! p.1 = Some e) ps') as [elements' Hes].
  { apply Forall_forall. intros [l r] Hp'. rewrite <- Hp in Hp'.
    apply lookup_lt_is_Some_2. destruct Hm as (_ & _ & He). destruct (He l r Hp') as [? _]. simpl. lia. }
  exists elements'. split.
  - assert (elements' = omap (elements !!.) ps'.*1) as ->.
    { clear -Hes. induction Hes as [|[l r] e ps' es Hl _ IH]; [done|].
      cbn. simpl in Hl. rewrite Hl. by f_equal. }
    rewrite <- Hp, H1, <- Hlen. pose proof (omap_seq [] elements) as Hs. simpl in Hs. by rewrite Hs.
  - apply Forall2_same_length_lookup_2.
    + rewrite <- (Forall2_length _ _ _ Hes), <- (length_map snd ps'), <- Hseq. apply length_seq.
    + intros j e m He Hmj.
      destruct (Forall2_lookup_r _ _ _ _ _ Hes He) as ([l r] & Hlr & Hl). simpl in Hl.
      assert (r = j) as ->.
      { assert (map snd ps' !! j = Some r) as Hj by (by rewrite (list_lookup_fmap snd), Hlr).
        rewrite <- Hseq in Hj. apply lookup_seq in Hj. lia. }
      rewrite <- (Hedge l j e m) by done. apply list_elem_of_lookup_2 in Hlr. rewrite <- Hp in Hlr.
      by apply Hm.
Qed.

Lemma matching_satisfied :
  satisfied → ∃ ps, is_matching g ps ∧ length ps = length matchers ∧ length elements = length matchers.
Proof.
  intros (elements' & Hp & Hf). pose proof (Forall2_length _ _ _ Hf) as Hlen.
  pose proof (Permutation_length Hp) as Hlen'.
  apply Permutation_inj in Hp as (_ & f & Hinj & Hl).
  exists ((λ j, (f j, j)) <$> seq 0 (length matchers)).
  split; [|split; [by rewrite length_fmap, length_seq|lia]]. split; [|split].
  - rewrite <- list_fmap_compose. apply (NoDup_fmap_2 f), NoDup_seq.
  - rewrite <- list_fmap_compose. apply (NoDup_fmap_2 (λ j : nat, j)), NoDup_seq.
  - intros l r (j & [= -> ->] & Hj%elem_of_seq)%list_elem_of_fmap.
    destruct (lookup_lt_is_Some_2 matchers j) as [m Hm]; [lia|].
    destruct (Forall2_lookup_r _ _ _ _ _ Hf Hm) as (e & He & Hme). rewrite Hl in He.
    split; [rewrite HL; by eapply lookup_lt_Some|]. split; [lia|]. by rewrite (Hedge _ _ e m).
Qed.
End Permutations.

(** * The matrix of the answers *)

Section Analyze.
Context {A : Type}.
Implicit Types (elements : list A) (matchers : list (A → bool)).

Lemma fill_row_ok i j n answers rest L R pre old post :
  length answers = n → length old = n → length pre = i * R + j →
  fill_row i (seq j n) (answers ++ rest) (mkMatrix L R (pre ++ old ++ post))
  = (mkMatrix L R (pre ++ answers ++ post), rest).
Proof.
  revert j answers pre old. induction n as [|n IH]; intros j [|b answers] pre [|o old]; simpl;
    intros Ha Ho Hp; try lia; [done|].
  unfold SetEdge at 1, SpaceIndex. cbn [num_elements_ num_matchers_ matched_].
  rewrite insert_app_r_alt by lia. rewrite Hp, Nat.sub_diag. simpl.
  replace (pre ++ b :: old ++ post) with ((pre ++ [b]) ++ old ++ post)
    by (by rewrite <- (assoc_L (++))).
  rewrite IH; [by rewrite <- (assoc_L (++))|lia|lia|rewrite length_app; simpl; lia].
Qed.

Lemma fill_rows_ok i n (rows : list (list bool)) L R pre old :
  length rows = n → Forall (λ row, length row = R) rows → length pre = i * R →
  length old = n * R →
  fill_rows (seq i n) (concat rows) (mkMatrix L R (pre ++ old))
  = mkMatrix L R (pre ++ concat rows).
Proof.
  revert i rows pre old. induction n as [|n IH]; intros i [|row rows] pre old Hr Hf Hp Ho;
    try done.
  { apply nil_length_inv in Ho as ->. done. }
  apply Forall_cons in Hf as [Hrow Hf]. cbn [seq fill_rows concat]. unfold RhsSize.
  cbn [num_matchers_].
  rewrite <- (take_drop R old). rewrite (fill_row_ok i 0 R row); [|done| |lia].
  - rewrite (assoc_L (++)). rewrite (IH (S i)); [by rewrite <- (assoc_L (++))|by injection Hr|done| |].
    + rewrite length_app. lia.
    + rewrite length_drop. lia.
  - rewrite length_take. lia.
Qed.

Definition rows elements matchers : list (list bool) := (λ e, (λ m, m e) <$> matchers) <$> elements.

Lemma AnalyzeElements_eq elements matchers :
  AnalyzeElements elements matchers
  = mkMatrix (length elements) (length matchers) (concat (rows elements matchers)).
Proof.
  unfold AnalyzeElements, new_matrix, did_match.
  pose proof (fill_rows_ok 0 (length elements) (rows elements matchers) (length elements)
    (length matchers) [] (replicate (length elements * length matchers) false)) as H.
  apply H; [by unfold rows; rewrite length_fmap| |done|by rewrite length_replicate].
  unfold rows. apply Forall_fmap, Forall_forall. intros e _. simpl. by rewrite length_fmap.
Qed.

Lemma rows_lookup elements matchers i j e m :
  elements !! i = Some e → matchers !! j = Some m →
  concat (rows elements matchers) !! (i * length matchers + j) = Some (m e).
Proof.
  intros He Hm. revert i He. induction elements as [|e' elements IH]; intros i He; [done|].
  cbn [rows fmap list_fmap concat]. destruct i as [|i].
  - injection He as ->. pose proof (lookup_lt_Some _ _ _ Hm).
    rewrite lookup_app_l by (rewrite length_fmap; lia). simpl. by rewrite list_lookup_fmap, Hm.
  - rewrite lookup_app_r by (rewrite length_fmap; lia). rewrite length_fmap.
    replace (S i * length matchers + j - length matchers) with (i * length matchers + j) by lia.
    by apply IH.
Qed.

Lemma HasEdge_Analyze elements matchers i j e m :
  elements !! i = Some e → matchers !! j = Some m →
  HasEdge (AnalyzeElements elements matchers) i j = m e.
Proof.
  intros He Hm. rewrite AnalyzeElements_eq. unfold HasEdge, SpaceIndex.
  cbn [num_matchers_ matched_]. by erewrite rows_lookup.
Qed.
End Analyze.

Lemma report_unmatched_ok interested outer_sep sep kind name i matched :
  let '(b, text) := report_unmatched interested outer_sep sep kind name i matched in
  (b = false ↔ Forall (λ x, x = true) matched) ∧ (b = false ∨ interested = false → text = "").
Proof.
  revert outer_sep sep i. induction matched as [|[|] matched IH]; intros outer_sep sep i.
  - simpl. naive_solver.
  - cbn [report_unmatched]. specialize (IH outer_sep sep (S i)).
    destruct (report_unmatched _ _ _ _ _ _ _) as [b text]. destruct IH as [Hb Ht]. split; [|done].
    rewrite Forall_cons, Hb. tauto.
  - cbn [report_unmatched]. destruct interested.
    + split; [|by intros []]. split; [done|]. by intros [? _]%Forall_cons.
    + split; [|done]. split; [done|]. by intros [? _]%Forall_cons.
Qed.

Lemma Verify_ok describe printouts g interested :
  let '(b, text) := VerifyAllElementsAndMatchersAreMatched describe printouts g interested in
  (b = true ↔ Forall (λ x, x = true) (matcher_matched g) ∧ Forall (λ x, x = true) (element_matched g))
  ∧ (interested = false → text = "").
Proof.
  unfold VerifyAllElementsAndMatchersAreMatched.
  match goal with |- context [report_unmatched ?a ?b ?c ?d ?e ?f ?h] =>
    pose proof (report_unmatched_ok a b c d e f h) as H end.
  destruct (report_unmatched _ _ _ _ _ _ _) as [b text].
  match goal with |- context [report_unmatched ?a ?b ?c ?d ?e ?f ?h] =>
    pose proof (report_unmatched_ok a b c d e f h) as H' end.
  destruct (report_unmatched _ _ _ _ _ _ _) as [b' text']. cbv beta iota in H, H'.
  destruct H as [Hb Ht], H' as [Hb' Ht']. split.
  - rewrite <- Hb, <- Hb'. destruct b, b'; simpl; naive_solver.
  - intros Hi. by rewrite Ht, Ht' by auto.
Qed.

(** A matching of all elements and matchers leaves none unmatched. *)
Lemma matched_all g ps n :
  is_matching g ps → length ps = n → LhsSize g = n → RhsSize g = n →
  Forall (λ x, x = true) (matcher_matched g) ∧ Forall (λ x, x = true) (element_matched g).
Proof.
  intros Hm Hn Hl Hr. destruct (matching_full g ps n) as [H1 H2]; [done..|].
  assert (∀ l r, (l, r) ∈ ps → edge g l r) as He by apply Hm.
  unfold matcher_matched, element_matched. rewrite Hl, Hr.
  split; apply Forall_fmap, Forall_forall; intros i Hi; simpl; apply existsb_exists.
  - rewrite <- H2 in Hi. apply list_elem_of_fmap in Hi as ([l r] & -> & Hp).
    destruct (He l r Hp) as (? & ? & Hedge). exists l. split; [|done].
    apply list_elem_of_In, elem_of_seq. lia.
  - rewrite <- H1 in Hi. apply list_elem_of_fmap in Hi as ([l r] & -> & Hp).
    destruct (He l r Hp) as (? & ? & Hedge). exists r. split; [|done].
    apply list_elem_of_In, elem_of_seq. lia.
Qed.

(** [UnorderedElementsAre] says of every list of elements whether some
    permutation of it satisfies the matchers one by one, whatever the elements
    and matchers are and whether or not somebody listens; where nobody does,
    nothing is explained. *)
Theorem UnorderedElementsAre_permutation {A} (print : A → string) elements matchers describe
    interested :
  ∃ b text, MatchAndExplain print elements matchers describe interested = Some (b, text) ∧
    (b = true ↔ satisfied elements matchers) ∧
    (if interested : bool then True else text = "").
Proof.
  set (g := AnalyzeElements elements matchers).
  assert (LhsSize g = length elements) as HL by (unfold g; by rewrite AnalyzeElements_eq).
  assert (RhsSize g = length matchers) as HR by (unfold g; by rewrite AnalyzeElements_eq).
  assert (satisfied elements matchers → length elements = length matchers) as Hsat.
  { intros (es & Hp & Hf). by rewrite <- (Permutation_length Hp), (Forall2_length _ _ _ Hf). }
  unfold MatchAndExplain. fold g. rewrite HL.
  destruct ((length elements =? 0)%nat && (length matchers =? 0)%nat) eqn:H0.
  { apply andb_true_iff in H0 as [He%Nat.eqb_eq%nil_length_inv Hm%Nat.eqb_eq%nil_length_inv].
    subst. exists true, "". split; [done|]. split; [|by destruct interested].
    split; [|done]. intros _. by exists []. }
  destruct (Nat.eqb_spec (length elements) (length matchers)) as [Hlen|Hlen]; cbn [negb].
  2: { eexists false, _. split; [done|]. split; [|destruct interested; [done|by rewrite andb_false_r]].
       split; [done|]. intros H. by destruct (Hlen (Hsat H)). }
  pose proof (Verify_ok describe (λ i, default "" (print <$> elements !! i)) g interested) as HV.
  destruct (VerifyAllElementsAndMatchersAreMatched _ _ _ _) as [v text].
  destruct HV as [Hv Ht]. destruct (maximum_ok g) as (ps & E & Hps & Hmax).
  assert (satisfied elements matchers ↔ length ps = length matchers) as Hiff.
  { split.
    - intros H. destruct (matching_satisfied elements matchers g) as (ps' & Hm & Hn & _);
        [done|done|apply HasEdge_Analyze|done|].
      pose proof (covered_size g ps Hps). specialize (Hmax ps' Hm). lia.
    - intros Hn. eapply satisfied_matching; [exact HL|exact HR|apply HasEdge_Analyze|done..]. }
  destruct v.
  - unfold FindPairing. rewrite E, HR. cbn [mbind option_bind].
    destruct (Nat.eqb_spec (length ps) (length matchers)) as [Hn|Hn]; cbn [negb].
    + eexists true, _. split; [done|]. split; [by rewrite Hiff|].
      destruct interested; [done|]. by rewrite andb_false_r, Ht.
    + eexists false, _. split; [done|]. split; [|destruct interested; [done|by rewrite Ht]].
      rewrite Hiff. done.
  - exists false, text. split; [done|]. split; [|destruct interested; [done|by apply Ht]].
    split; [done|]. intros Hn%Hiff. apply Hv. eapply matched_all; [done..|lia|lia].
Qed.

(** * All matrices *)

(** One added to a number, the least bit first; [true] where it does not
    overflow. *)
Fixpoint increment (bits : list bool) : list bool * bool :=
  match bits with
  | [] => ([], false)
  | false :: bits => (true :: bits, true)
  | true :: bits => let '(bits, done) := increment bits in (false :: bits, done)
  end.
Definition number (bits : list bool) : Z := foldr (λ b v, Z.b2z b + 2 * v)%Z 0%Z bits.

Lemma increment_app l l' :
  increment (l ++ l') =
  let '(r, done) := increment l in
  if done then (r ++ l', true) else let '(r', done') := increment l' in (r ++ r', done').
Proof.
  induction l as [|[|] l IH]; simpl; [by destruct (increment l')| |done].
  rewrite IH. destruct (increment l) as [r [|]]; [done|]. by destruct (increment l').
Qed.

Lemma increment_length l : length (increment l).1 = length l.
Proof.
  induction l as [|[|] l IH]; simpl; try done. destruct (increment l). simpl in *. by rewrite IH.
Qed.

Lemma number_bound l : (0 <= number l < 2 ^ Z.of_nat (length l))%Z.
Proof.
  induction l as [|b l IH]; [done|]. cbn [length number foldr].
  rewrite Nat2Z.inj_succ, Z.pow_succ_r by lia. unfold number in IH. destruct b; simpl Z.b2z; lia.
Qed.

Lemma increment_ok l :
  let '(l', done) := increment l in
  number l' = ((number l + 1) mod 2 ^ Z.of_nat (length l))%Z ∧ done = negb (number l' =? 0)%Z.
Proof.
  induction l as [|b l IH]; [by vm_compute|].
  pose proof (number_bound l) as Hb.
  assert (2 ^ Z.of_nat (length (b :: l)) = 2 * 2 ^ Z.of_nat (length l))%Z as ->
    by (cbn [length]; by rewrite Nat2Z.inj_succ, Z.pow_succ_r by lia).
  destruct b; cbn [increment].
  - pose proof (increment_length l) as Hlen. destruct (increment l) as [l' done].
    destruct IH as [IH Hd]. cbn [number foldr Z.b2z]. fold (number l) (number l').
    replace (1 + 2 * number l + 1)%Z with (2 * (number l + 1))%Z by lia.
    rewrite Z.mul_mod_distr_l by lia. rewrite <- IH. split; [lia|]. rewrite Hd.
    destruct (Z.eqb_spec (number l') 0), (Z.eqb_spec (0 + 2 * number l') 0); lia || done.
  - cbn [number foldr Z.b2z]. fold (number l). rewrite Z.mod_small by lia. split; [lia|].
    by destruct (Z.eqb_spec (1 + 2 * number l) 0); [lia|].
Qed.

Lemma next_in_row_ok i j n L R pre old post :
  length old = n → length pre = i * R + j →
  next_in_row i (seq j n) (mkMatrix L R (pre ++ old ++ post)) =
  let '(old', done) := increment old in (mkMatrix L R (pre ++ old' ++ post), done).
Proof.
  revert j pre old. induction n as [|n IH]; intros j pre [|b old] Ho Hp; try done.
  cbn [seq next_in_row increment app]. unfold HasEdge, SetEdge, SpaceIndex.
  cbn [num_elements_ num_matchers_ matched_].
  assert (∀ x, <[i * R + j := x]> (pre ++ b :: old ++ post) = (pre ++ [x]) ++ old ++ post) as Hset.
  { intros x. rewrite insert_app_r_alt by lia. rewrite Hp, Nat.sub_diag. simpl.
    by rewrite <- (assoc_L (++)). }
  rewrite list_lookup_middle by done. cbn [default from_option id]. rewrite !Hset.
  destruct b; cbn [negb].
  - rewrite IH; [|by injection Ho|rewrite length_app; simpl; lia].
    destruct (increment old). by rewrite <- (assoc_L (++)).
  - by rewrite <- (assoc_L (++)).
Qed.

Lemma next_in_rows_ok i n L R pre old :
  length old = n * R → length pre = i * R →
  next_in_rows (seq i n) (mkMatrix L R (pre ++ old)) =
  let '(old', done) := increment old in (mkMatrix L R (pre ++ old'), done).
Proof.
  revert i pre old. induction n as [|n IH]; intros i pre old Ho Hp.
  { apply nil_length_inv in Ho as ->. done. }
  cbn [seq next_in_rows]. unfold RhsSize. cbn [num_matchers_].
  rewrite <- (take_drop R old). set (row := take R old). set (rest := drop R old).
  assert (length row = R) as Hrow by (unfold row; rewrite length_take; lia).
  rewrite (next_in_row_ok i 0 R) by (done || lia). rewrite increment_app.
  pose proof (increment_length row) as Hlen. destruct (increment row) as [row' [|]]; [done|].
  simpl in Hlen. rewrite (assoc_L (++)), (IH (S i)).
  - destruct (increment rest). by rewrite <- (assoc_L (++)).
  - unfold rest. rewrite length_drop. lia.
  - rewrite length_app. lia.
Qed.

(** [NextGraph] counts: it adds one to the matrix, read as a number with the
    first edge as the least bit, and returns false exactly when that left it
    empty; so from the empty matrix on it goes through all matrices of its size
    and back. *)
Theorem NextGraph_counts m :
  length m.(matched_) = LhsSize m * RhsSize m →
  let '(m', more) := NextGraph m in
  LhsSize m' = LhsSize m ∧ RhsSize m' = RhsSize m ∧ length m'.(matched_) = length m.(matched_) ∧
  number m'.(matched_) = ((number m.(matched_) + 1) mod 2 ^ Z.of_nat (length m.(matched_)))%Z ∧
  more = negb (number m'.(matched_) =? 0)%Z.
Proof.
  destruct m as [L R l]. unfold NextGraph, LhsSize, RhsSize. cbn [num_elements_ num_matchers_ matched_].
  intros Hl. pose proof (next_in_rows_ok 0 L L R [] l Hl eq_refl) as E. simpl app in E. rewrite E.
  pose proof (increment_length l) as Hlen. pose proof (increment_ok l) as H.
  destruct (increment l) as [l' done]. cbn [num_elements_ num_matchers_ matched_]. tauto.
Qed.

Lemma NextGraph_counts_witness :
  let '(m', more) := NextGraph (mkMatrix 2 2 [true; true; false; true]) in
  LhsSize m' = 2 ∧ RhsSize m' = 2 ∧ length m'.(matched_) = 4 ∧
  number m'.(matched_) = ((11 + 1) mod 2 ^ 4)%Z ∧ more = negb (number m'.(matched_) =? 0)%Z.
Proof. apply (NextGraph_counts (mkMatrix 2 2 [true; true; false; true])). reflexivity. Defined.
