(* ===== verification/Utf8.v ===== *)
(** Wide strings of Google Test as UTF-8 ([src/lib/googletest/src/gtest.cc]):
    code points, UTF-16 surrogate pairs and whole strings, against a decoder.

    Bytes, wide characters and code points are integers; [UInt32] is taken modulo
    2^32.  Wide memory is a list, and a read outside of it makes the result
    [None]. *)

From S2P Require Import Prelude Strings.
From stdpp Require Import base list strings.
From Stdlib Require Import ZArith Ascii.

Open Scope Z_scope.

(** * Code points *)

Definition kMaxCodePoint1 : Z := Z.shiftl 1 7 - 1.
Definition kMaxCodePoint2 : Z := Z.shiftl 1 (5 + 6) - 1.
Definition kMaxCodePoint3 : Z := Z.shiftl 1 (4 + 2 * 6) - 1.
Definition kMaxCodePoint4 : Z := Z.shiftl 1 (3 + 3 * 6) - 1.

(** The lowest [n] bits, and [*bits] afterwards. *)
Definition ChopLowBits (bits n : Z) : Z * Z :=
  (Z.land bits (Z.shiftl 1 n - 1), Z.shiftr bits n).

Definition text (s : string) : list Z := code <$> String.list_ascii_of_string s.

(** [FormatHexInt] of a number of 32 bits: [std::hex], [std::uppercase]. *)
Definition hex_digit (d : Z) : Z := if d <? 10 then 48 + d else 55 + d.
Fixpoint hex_digits (fuel : nat) (n : Z) (acc : list Z) : list Z :=
  match fuel with
  | O => acc
  | S fuel =>
      let acc := hex_digit (n mod 16) :: acc in
      if n / 16 =? 0 then acc else hex_digits fuel (n / 16) acc
  end.
Definition FormatHexInt (value : Z) : list Z := hex_digits 8 (value mod U32) [].

(** [std::string] of a zero-terminated array. *)
Fixpoint from_c_str (str : list Z) : list Z :=
  match str with
  | [] => []
  | c :: str => if c =? 0 then [] else c :: from_c_str str
  end.

Definition CodePointToUtf8 (code_point : Z) : list Z :=
  if kMaxCodePoint4 <? code_point then
    text "(Invalid Unicode 0x" ++ FormatHexInt code_point ++ text ")"
  else
    from_c_str
      (if code_point <=? kMaxCodePoint1 then [code_point; 0]
       else if code_point <=? kMaxCodePoint2 then
         let '(c1, code_point) := ChopLowBits code_point 6 in
         [Z.lor 0xC0 code_point; Z.lor 0x80 c1; 0]
       else if code_point <=? kMaxCodePoint3 then
         let '(c2, code_point) := ChopLowBits code_point 6 in
         let '(c1, code_point) := ChopLowBits code_point 6 in
         [Z.lor 0xE0 code_point; Z.lor 0x80 c1; Z.lor 0x80 c2; 0]
       else
         let '(c3, code_point) := ChopLowBits code_point 6 in
         let '(c2, code_point) := ChopLowBits code_point 6 in
         let '(c1, code_point) := ChopLowBits code_point 6 in
         [Z.lor 0xF0 code_point; Z.lor 0x80 c1; Z.lor 0x80 c2; Z.lor 0x80 c3; 0]).

(** * Wide strings *)

Section Wide.
(** [sizeof(wchar_t)]: 2 with UTF-16, 4 with UTF-32. *)
Context (sizeof_wchar_t : Z).

Definition IsUtf16SurrogatePair (first second : Z) : bool :=
  (sizeof_wchar_t =? 2) && (Z.land first 0xFC00 =? 0xD800) && (Z.land second 0xFC00 =? 0xDC00).

Definition CreateCodePointFromUtf16SurrogatePair (first second : Z) : Z :=
  let mask := Z.shiftl 1 10 - 1 in
  if sizeof_wchar_t =? 2
  then Z.lor (Z.shiftl (Z.land first mask) 10) (Z.land second mask) + 0x10000
  else first mod U32.

(** [wcslen]. *)
Fixpoint wcslen (str : list Z) : option Z :=
  match str with
  | [] => None
  | c :: str => if c =? 0 then Some 0 else n ← wcslen str; Some (n + 1)
  end.

(** The loop, which goes round at most [num_chars] times. *)
Fixpoint wide_loop (fuel : nat) (str : list Z) (i num_chars : Z) : option (list Z) :=
  match fuel with
  | O => Some []
  | S fuel =>
      if i <? num_chars then
        c ← str !! Z.to_nat i;
        if c =? 0 then Some []
        else
          '(unicode_code_point, i) ←
            (if i + 1 <? num_chars then
               d ← str !! Z.to_nat (i + 1);
               Some (if IsUtf16SurrogatePair c d
                     then (CreateCodePointFromUtf16SurrogatePair c d, i + 1)
                     else (c mod U32, i))
             else Some (c mod U32, i));
          rest ← wide_loop fuel str (i + 1) num_chars;
          Some (CodePointToUtf8 unicode_code_point ++ rest)
      else Some []
  end.

(** [StringStreamToString]: a NUL becomes a backslash and a zero. *)
Definition StringStreamToString (str : list Z) : list Z :=
  str ≫= (λ ch, if ch =? 0 then [92; 48] else [ch]).

Definition WideStringToUtf8 (str : list Z) (num_chars : Z) : option (list Z) :=
  num_chars ← (if num_chars =? -1 then n ← wcslen str; Some (i32 n) else Some num_chars);
  stream ← wide_loop (Z.to_nat num_chars) str 0 num_chars;
  Some (StringStreamToString stream).

(** [String::ShowWideCString]; [None] as the string is NULL. *)
Definition ShowWideCString (wide_c_str : option (list Z)) : option (list Z) :=
  match wide_c_str with
  | None => Some (text "(null)")
  | Some str => WideStringToUtf8 str (-1)
  end.
End Wide.
