(* ===== verification/Utf8Facts.v ===== *)
(** UTF-8 as Google Test writes it, read back: the facts about [Utf8]. *)

From S2P Require Import Prelude Strings Utf8.
From stdpp Require Import base list strings.
From Stdlib Require Import ZArith Ascii.

Open Scope Z_scope.

(** * A decoder *)

(** The value of a continuation byte. *)
Definition continuation (b : Z) : option Z :=
  if (0x80 <=? b) && (b <? 0xC0) then Some (b - 0x80) else None.

(** The first code point, in its shortest form, and the rest. *)
Definition decode_one (l : list Z) : option (Z * list Z) :=
  match l with
  | [] => None
  | b :: l =>
      if (0 <=? b) && (b <? 0x80) then Some (b, l)
      else
        match l with
        | [] => None
        | c1 :: l =>
            x1 ← continuation c1;
            if (0xC0 <=? b) && (b <? 0xE0) then
              let cp := (b - 0xC0) * 64 + x1 in
              if 0x80 <=? cp then Some (cp, l) else None
            else
              match l with
              | [] => None
              | c2 :: l =>
                  x2 ← continuation c2;
                  if (0xE0 <=? b) && (b <? 0xF0) then
                    let cp := ((b - 0xE0) * 64 + x1) * 64 + x2 in
                    if 0x800 <=? cp then Some (cp, l) else None
                  else
                    match l with
                    | [] => None
                    | c3 :: l =>
                        x3 ← continuation c3;
                        if (0xF0 <=? b) && (b <? 0xF8) then
                          let cp := (((b - 0xF0) * 64 + x1) * 64 + x2) * 64 + x3 in
                          if 0x10000 <=? cp then Some (cp, l) else None
                        else None
                    end
              end
        end
  end.

Fixpoint decode_all (fuel : nat) (l : list Z) : option (list Z) :=
  match l with
  | [] => Some []
  | _ =>
      match fuel with
      | O => None
      | S fuel => '(cp, l) ← decode_one l; cps ← decode_all fuel l; Some (cp :: cps)
      end
  end.
Definition decode (l : list Z) : option (list Z) := decode_all (length l) l.

(** * Code points *)

Lemma below_check (P : Z → bool) n x :
  forallb P (seqZ 0 n) = true → 0 <= x < n → P x = true.
Proof.
  intros H Hx. rewrite forallb_forall in H. apply H.
  apply list_elem_of_In, elem_of_seqZ. lia.
Qed.

Lemma lor_add base n x :
  forallb (λ x, Z.lor base x =? base + x) (seqZ 0 n) = true → 0 <= x < n → Z.lor base x = base + x.
Proof. intros H Hx. by apply Z.eqb_eq, (below_check (λ x, Z.lor base x =? base + x) n). Qed.

Lemma lor_80 x : 0 <= x < 64 → Z.lor 0x80 x = 0x80 + x.
Proof. by apply lor_add. Qed.
Lemma lor_C0 x : 0 <= x < 32 → Z.lor 0xC0 x = 0xC0 + x.
Proof. by apply lor_add. Qed.
Lemma lor_E0 x : 0 <= x < 16 → Z.lor 0xE0 x = 0xE0 + x.
Proof. by apply lor_add. Qed.
Lemma lor_F0 x : 0 <= x < 8 → Z.lor 0xF0 x = 0xF0 + x.
Proof. by apply lor_add. Qed.

Lemma ChopLowBits_6 x : 0 <= x → ChopLowBits x 6 = (x mod 64, x / 64).
Proof.
  intros Hx. unfold ChopLowBits. rewrite Z.shiftr_div_pow2 by lia.
  change (Z.shiftl 1 6 - 1) with (Z.ones 6). by rewrite Z.land_ones by lia.
Qed.

(** [CodePointToUtf8] in arithmetic. *)
Definition encoded (cp : Z) : list Z :=
  if cp <? 0x80 then [cp]
  else if cp <? 0x800 then [0xC0 + cp / 64; 0x80 + cp mod 64]
  else if cp <? 0x10000 then [0xE0 + cp / 64 / 64; 0x80 + cp / 64 mod 64; 0x80 + cp mod 64]
  else [0xF0 + cp / 64 / 64 / 64; 0x80 + cp / 64 / 64 mod 64; 0x80 + cp / 64 mod 64; 0x80 + cp mod 64].

Lemma from_c_str_all l : Forall (λ c, c ≠ 0) l → from_c_str (l ++ [0]) = l.
Proof.
  induction 1 as [|c l Hc _ IH]; [done|]. simpl. destruct (Z.eqb_spec c 0); [done|]. by rewrite IH.
Qed.

Ltac z_ranges := Z.div_mod_to_equations; lia.

Lemma CodePointToUtf8_eq cp : 0 < cp <= 0x1FFFFF → CodePointToUtf8 cp = encoded cp.
Proof.
  intros Hcp. unfold CodePointToUtf8, encoded.
  change kMaxCodePoint1 with 0x7F. change kMaxCodePoint2 with 0x7FF.
  change kMaxCodePoint3 with 0xFFFF. change kMaxCodePoint4 with 0x1FFFFF.
  destruct (Z.ltb_spec 0x1FFFFF cp); [lia|].
  destruct (Z.leb_spec cp 0x7F), (Z.ltb_spec cp 0x80); try lia.
  { apply (from_c_str_all [cp]). repeat constructor. lia. }
  destruct (Z.leb_spec cp 0x7FF), (Z.ltb_spec cp 0x800); try lia.
  { rewrite ChopLowBits_6 by lia. cbn beta iota.
    rewrite lor_C0, lor_80 by z_ranges. apply (from_c_str_all [_; _]).
    repeat constructor; z_ranges. }
  destruct (Z.leb_spec cp 0xFFFF), (Z.ltb_spec cp 0x10000); try lia.
  { rewrite ChopLowBits_6 by lia. cbn beta iota. rewrite ChopLowBits_6 by z_ranges. cbn beta iota.
    rewrite lor_E0, !lor_80 by z_ranges. apply (from_c_str_all [_; _; _]).
    repeat constructor; z_ranges. }
  rewrite ChopLowBits_6 by lia. cbn beta iota. rewrite ChopLowBits_6 by z_ranges. cbn beta iota.
  rewrite ChopLowBits_6 by z_ranges. cbn beta iota.
  rewrite lor_F0, !lor_80 by z_ranges. apply (from_c_str_all [_; _; _; _]).
  repeat constructor; z_ranges.
Qed.

Lemma continuation_ok x : 0 <= x < 64 → continuation (0x80 + x) = Some x.
Proof.
  intros Hx. unfold continuation. destruct (Z.leb_spec 0x80 (0x80 + x)); [|lia].
  destruct (Z.ltb_spec (0x80 + x) 0xC0); [|lia]. cbn [andb]. f_equal. lia.
Qed.

(** [leb x] settles the comparisons of the goal. *)
Ltac compare_all :=
  repeat match goal with
  | |- context [?a <=? ?b] => destruct (Z.leb_spec a b); try (exfalso; z_ranges)
  | |- context [?a <? ?b] => destruct (Z.ltb_spec a b); try (exfalso; z_ranges)
  end; cbn [andb].

Lemma decode_one_encoded cp rest :
  0 < cp <= 0x1FFFFF → decode_one (encoded cp ++ rest) = Some (cp, rest).
Proof.
  intros Hcp. unfold encoded.
  destruct (Z.ltb_spec cp 0x80); [cbn [app decode_one]; by compare_all|].
  destruct (Z.ltb_spec cp 0x800).
  { cbn [app decode_one]. rewrite continuation_ok by z_ranges. cbn [mbind option_bind].
    compare_all. do 2 f_equal. z_ranges. }
  destruct (Z.ltb_spec cp 0x10000).
  { cbn [app decode_one]. rewrite !continuation_ok by z_ranges. cbn [mbind option_bind].
    compare_all. do 2 f_equal. z_ranges. }
  cbn [app decode_one]. rewrite !continuation_ok by z_ranges. cbn [mbind option_bind].
  compare_all. do 2 f_equal. z_ranges.
Qed.

Lemma encoded_nonempty cp : encoded cp ≠ [].
Proof. unfold encoded. by repeat case_match. Qed.

Lemma encoded_nonzero cp : 0 < cp → Forall (λ c, c ≠ 0) (encoded cp).
Proof.
  intros Hcp. unfold encoded. repeat case_match; repeat constructor; z_ranges.
Qed.

Definition utf8 (cps : list Z) : list Z := concat (encoded <$> cps).

Lemma decode_all_utf8 fuel cps :
  Forall (λ cp, 0 < cp <= 0x1FFFFF) cps → (length cps <= fuel)%nat →
  decode_all fuel (utf8 cps) = Some cps.
Proof.
  revert fuel. induction cps as [|cp cps IH]; intros fuel Hf Hl; [by destruct fuel|].
  apply Forall_cons in Hf as [Hcp Hf]. destruct fuel as [|fuel]; [simpl in Hl; lia|].
  unfold utf8. cbn [fmap list_fmap concat]. fold (utf8 cps).
  pose proof (decode_one_encoded cp (utf8 cps) Hcp) as Hone. pose proof (encoded_nonempty cp) as Hne.
  destruct (encoded cp) as [|b l]; [done|]. cbn [app decode_all]. cbn [app] in Hone. rewrite Hone.
  cbn [mbind option_bind]. rewrite IH; [done|done|simpl in Hl; lia].
Qed.

Lemma length_utf8 cps : (length cps <= length (utf8 cps))%nat.
Proof.
  induction cps as [|cp cps IH]; [done|]. unfold utf8 in *. cbn [fmap list_fmap concat length].
  rewrite length_app. pose proof (encoded_nonempty cp). destruct (encoded cp); [done|]. simpl. lia.
Qed.

Lemma decode_utf8 cps : Forall (λ cp, 0 < cp <= 0x1FFFFF) cps → decode (utf8 cps) = Some cps.
Proof. intros H. by apply decode_all_utf8; [|apply length_utf8]. Qed.

(** [CodePointToUtf8] writes every code point that has 21 bits in its shortest
    form, so that it is read back; 0 gives the empty string; and any other number
    is reported as invalid.  The bound is not the one of Unicode, 0x10FFFF, that
    its comment names. *)
Theorem CodePointToUtf8_decodes cp :
  is_u64 cp → cp < U32 →
  if cp <=? 0x1FFFFF then decode (CodePointToUtf8 cp) = Some (if cp =? 0 then [] else [cp])
  else CodePointToUtf8 cp = text "(Invalid Unicode 0x" ++ FormatHexInt cp ++ text ")".
Proof.
  intros [Hcp _] Hu. destruct (Z.leb_spec cp 0x1FFFFF).
  - destruct (Z.eqb_spec cp 0) as [->|]; [reflexivity|]. rewrite CodePointToUtf8_eq by lia.
    pose proof (decode_utf8 [cp]) as H'. unfold utf8 in H'. cbn [fmap list_fmap concat] in H'.
    rewrite app_nil_r in H'. apply H'. repeat constructor; lia.
  - unfold CodePointToUtf8. change kMaxCodePoint4 with 0x1FFFFF.
    by destruct (Z.ltb_spec 0x1FFFFF cp); [|lia].
Qed.

Lemma CodePointToUtf8_decodes_witness :
  decode (CodePointToUtf8 0x110000) = Some [0x110000] ∧
  CodePointToUtf8 0x200000 = text "(Invalid Unicode 0x" ++ FormatHexInt 0x200000 ++ text ")".
Proof.
  split.
  - apply (CodePointToUtf8_decodes 0x110000); [unfold is_u64, U64; lia|unfold U32; lia].
  - apply (CodePointToUtf8_decodes 0x200000); [unfold is_u64, U64; lia|unfold U32; lia].
Defined.

(** * Wide strings *)

(** A code point that is not a surrogate. *)
Definition scalar (cp : Z) : Prop := 0 < cp <= 0x10FFFF ∧ ¬ (0xD800 <= cp < 0xE000).

(** The wide characters of a code point. *)
Definition wide_of (sizeof_wchar_t cp : Z) : list Z :=
  if (sizeof_wchar_t =? 2) && (0x10000 <=? cp)
  then [0xD800 + (cp - 0x10000) / 1024; 0xDC00 + (cp - 0x10000) mod 1024] else [cp].
Definition wide (sizeof_wchar_t : Z) (cps : list Z) : list Z :=
  concat (wide_of sizeof_wchar_t <$> cps).

Lemma land_FC00 x : 0 <= x < 0x10000 → Z.land x 0xFC00 = x / 1024 * 1024.
Proof.
  intros Hx. change 0xFC00 with (Z.ldiff (Z.ones 16) (Z.ones 10)).
  assert (Z.land x (Z.ldiff (Z.ones 16) (Z.ones 10)) = Z.ldiff (Z.land x (Z.ones 16)) (Z.ones 10)) as ->.
  { apply Z.bits_inj'. intros n Hn. rewrite Z.land_spec, !Z.ldiff_spec, Z.land_spec. apply andb_assoc. }
  rewrite Z.land_ones, Z.mod_small by (simpl; lia). rewrite Z.ldiff_ones_r by lia.
  by rewrite Z.shiftl_mul_pow2, Z.shiftr_div_pow2 by lia.
Qed.

Lemma high_part cp : 0 <= cp < 0x10000 → ¬ (0xD800 <= cp < 0xE000) → Z.land cp 0xFC00 ≠ 0xD800.
Proof. intros Hcp Hs. rewrite land_FC00 by done. z_ranges. Qed.

Lemma surrogate_parts base x :
  base = 0xD800 ∨ base = 0xDC00 → 0 <= x < 1024 →
  Z.land (base + x) 0xFC00 = base ∧ Z.land (base + x) 1023 = x.
Proof.
  intros Hb Hx. rewrite land_FC00 by (destruct Hb; lia).
  change 1023 with (Z.ones 10). rewrite Z.land_ones by lia. change (2 ^ 10) with 1024.
  destruct Hb as [-> | ->]; z_ranges.
Qed.

Lemma lor_shiftl_10 a b : 0 <= a → 0 <= b < 1024 → Z.lor (Z.shiftl a 10) b = a * 1024 + b.
Proof.
  intros Ha Hb. assert (Z.land (Z.shiftl a 10) b = 0) as H0.
  { apply Z.bits_inj'. intros n Hn. rewrite Z.land_spec, Z.bits_0, Z.shiftl_spec by lia.
    destruct (Z.ltb_spec n 10).
    - by rewrite Z.testbit_neg_r by lia.
    - rewrite <- (Z.mod_small b (2 ^ 10)) by (simpl; lia).
      rewrite Z.mod_pow2_bits_high by lia. apply andb_false_r. }
  rewrite <- Z.lxor_lor, <- Z.add_nocarry_lxor by done. rewrite Z.shiftl_mul_pow2 by lia. lia.
Qed.

Lemma surrogates sz cp :
  sz = 2 → 0x10000 <= cp <= 0x10FFFF →
  let first := 0xD800 + (cp - 0x10000) / 1024 in
  let second := 0xDC00 + (cp - 0x10000) mod 1024 in
  IsUtf16SurrogatePair sz first second = true ∧
  CreateCodePointFromUtf16SurrogatePair sz first second = cp.
Proof.
  intros -> Hcp first second.
  destruct (surrogate_parts 0xD800 ((cp - 0x10000) / 1024)) as [H1 H2]; [by left|z_ranges|].
  destruct (surrogate_parts 0xDC00 ((cp - 0x10000) mod 1024)) as [H3 H4]; [by right|z_ranges|].
  unfold IsUtf16SurrogatePair, CreateCodePointFromUtf16SurrogatePair.
  change (Z.shiftl 1 10 - 1) with 1023. unfold first, second. rewrite H1, H2, H3, H4.
  split; [done|]. cbn [Z.eqb Pos.eqb]. rewrite lor_shiftl_10 by z_ranges. z_ranges.
Qed.

Lemma wide_of_length sz cp : (1 <= length (wide_of sz cp) <= 2)%nat.
Proof. unfold wide_of. case_match; simpl; lia. Qed.

Lemma wide_nonzero sz cps : Forall scalar cps → Forall (λ c, c ≠ 0) (wide sz cps).
Proof.
  induction 1 as [|cp cps [Hcp _] _ IH]; [constructor|]. unfold wide in *.
  cbn [fmap list_fmap concat]. apply Forall_app. split; [|done].
  unfold wide_of. case_match; repeat constructor; z_ranges.
Qed.

Lemma wcslen_ok l : Forall (λ c, c ≠ 0) l → wcslen (l ++ [0]) = Some (Z.of_nat (length l)).
Proof.
  induction 1 as [|c l Hc _ IH]; [done|]. cbn [app wcslen]. destruct (Z.eqb_spec c 0); [done|].
  rewrite IH. cbn [mbind option_bind length]. f_equal. lia.
Qed.

(** One round of the loop takes one code point. *)
Lemma wide_loop_step sz fuel pre cp rest :
  sz = 2 ∨ sz = 4 → scalar cp →
  let str := pre ++ wide_of sz cp ++ rest ++ [0] in
  let n := Z.of_nat (length pre) in
  let len := Z.of_nat (length (pre ++ wide_of sz cp ++ rest)) in
  wide_loop sz (S fuel) str n len =
  (out ← wide_loop sz fuel str (n + Z.of_nat (length (wide_of sz cp))) len;
   Some (CodePointToUtf8 cp ++ out)).
Proof.
  intros Hsz [Hcp Hs] str n len. pose proof (wide_of_length sz cp) as Hlen.
  assert (n < len) as Hn by (unfold n, len; rewrite !length_app; lia).
  cbn [wide_loop]. destruct (Z.ltb_spec n len); [clear H|lia].
  assert (∀ i, (i < length (wide_of sz cp) + length rest)%nat → str !! Z.to_nat (n + Z.of_nat i)
    = ((wide_of sz cp ++ rest) !! i)) as Hat.
  { intros i Hi. unfold str, n. replace (Z.to_nat (Z.of_nat (length pre) + Z.of_nat i))
      with (length pre + i)%nat by lia.
    rewrite lookup_app_r by lia. replace (length pre + i - length pre)%nat with i by lia.
    rewrite (assoc_L (++)), lookup_app_l by (rewrite length_app; lia). done. }
  pose proof (Hat 0%nat) as H0. rewrite Z.add_0_r in H0. rewrite H0 by lia. clear H0.
  assert (n + 1 < len → ∃ d, str !! Z.to_nat (n + 1) = Some d ∧
    (wide_of sz cp ++ rest) !! 1%nat = Some d) as Hnext.
  { intros Hl. assert (1 < length (wide_of sz cp ++ rest))%nat as H1
      by (unfold len, n in Hl; rewrite !length_app in Hl; rewrite length_app; lia).
    destruct (lookup_lt_is_Some_2 _ _ H1) as [d Hd]. exists d. split; [|done].
    pose proof (Hat 1%nat) as E. change (Z.of_nat 1) with 1 in E.
    rewrite E; [done|]. by rewrite length_app in H1. }
  unfold wide_of in *. destruct ((sz =? 2) && (0x10000 <=? cp)) eqn:Hpair.
  - apply andb_true_iff in Hpair as [Hsz2%Z.eqb_eq Hcp2%Z.leb_le].
    destruct (surrogates sz cp) as [H1 H2]; [done|lia|]. cbn [app lookup list_lookup mbind option_bind].
    destruct (Z.eqb_spec (0xD800 + (cp - 0x10000) / 1024) 0); [z_ranges|].
    destruct (Z.ltb_spec (n + 1) len) as [Hl|Hl];
      [|unfold len, n in Hl; rewrite !length_app in Hl; simpl in Hl; lia].
    destruct (Hnext Hl) as (d & -> & Hd). cbn in Hd. injection Hd as <-.
    cbn [mbind option_bind]. rewrite H1, H2. cbn [length].
    replace (n + 1 + 1) with (n + Z.of_nat 2) by lia. done.
  - cbn [app lookup list_lookup mbind option_bind length].
    destruct (Z.eqb_spec cp 0); [lia|].
    assert (cp mod U32 = cp) as Hmod by (apply Z.mod_small; unfold U32; lia).
    assert (∀ d, IsUtf16SurrogatePair sz cp d = false) as Hno.
    { intros d. unfold IsUtf16SurrogatePair. destruct (Z.eqb_spec sz 2); [|done].
      cbn [andb] in Hpair |- *. apply Z.leb_gt in Hpair.
      destruct (Z.eqb_spec (Z.land cp 0xFC00) 0xD800); [|done]. by destruct (high_part cp); [lia| |]. }
    destruct (Z.ltb_spec (n + 1) len) as [Hl|Hl].
    + destruct (Hnext Hl) as (d & -> & Hd). cbn [mbind option_bind]. rewrite Hno, Hmod. done.
    + cbn [mbind option_bind]. by rewrite Hmod.
Qed.

Lemma wide_loop_ok sz fuel pre cps :
  sz = 2 ∨ sz = 4 → Forall scalar cps → (length (wide sz cps) <= fuel)%nat →
  wide_loop sz fuel (pre ++ wide sz cps ++ [0]) (Z.of_nat (length pre))
    (Z.of_nat (length (pre ++ wide sz cps))) = Some (utf8 cps).
Proof.
  intros Hsz. revert fuel pre. induction cps as [|cp cps IH]; intros fuel pre Hf Hl.
  { destruct fuel as [|fuel]; [done|]. cbn [wide_loop]. rewrite app_nil_r.
    by destruct (Z.ltb_spec (Z.of_nat (length pre)) (Z.of_nat (length pre))); [lia|]. }
  apply Forall_cons in Hf as [Hcp Hf]. unfold wide, utf8 in *. cbn [fmap list_fmap concat] in *.
  fold (wide sz cps) in *. pose proof (wide_of_length sz cp) as Hlen. rewrite length_app in Hl.
  destruct fuel as [|fuel]; [lia|]. rewrite <- (assoc_L (++)).
  rewrite (wide_loop_step sz fuel pre cp (wide sz cps)) by done.
  specialize (IH fuel (pre ++ wide_of sz cp) Hf ltac:(lia)).
  rewrite <- !(assoc_L (++)), length_app, Nat2Z.inj_add in IH. rewrite IH.
  cbn [mbind option_bind]. rewrite CodePointToUtf8_eq; [done|]. destruct Hcp. lia.
Qed.

Lemma StringStreamToString_id l : Forall (λ c, c ≠ 0) l → StringStreamToString l = l.
Proof.
  induction 1 as [|c l Hc _ IH]; [done|]. unfold StringStreamToString in *. cbn.
  destruct (Z.eqb_spec c 0); [done|]. cbn. by rewrite IH.
Qed.

(** [WideStringToUtf8] loses nothing: a zero-terminated wide string, in UTF-16
    with its surrogate pairs or in UTF-32, comes out as UTF-8 that is decoded to
    the same code points, and no character behind the terminator is read. *)
Theorem WideStringToUtf8_roundtrip sz cps :
  sz = 2 ∨ sz = 4 → Forall scalar cps → Z.of_nat (length (wide sz cps)) <= I32_MAX →
  ∃ out, ShowWideCString sz (Some (wide sz cps ++ [0])) = Some out ∧ decode out = Some cps.
Proof.
  intros Hsz Hf Hl. exists (utf8 cps). split.
  - cbn [ShowWideCString]. unfold WideStringToUtf8. cbn [Z.eqb Pos.eqb].
    rewrite wcslen_ok by by apply wide_nonzero. cbn [mbind option_bind].
    rewrite i32_small by cint. rewrite Nat2Z.id.
    pose proof (wide_loop_ok sz (length (wide sz cps)) [] cps Hsz Hf (le_n _)) as H.
    cbn [app length] in H. change (Z.of_nat 0) with 0 in H. rewrite H. cbn [mbind option_bind]. f_equal.
    apply StringStreamToString_id. clear -Hf. unfold utf8.
    induction Hf as [|cp cps [Hcp _] _ IH]; [constructor|]. cbn [fmap list_fmap concat].
    apply Forall_app. split; [|done]. apply encoded_nonzero. lia.
  - apply decode_utf8. eapply Forall_impl; [exact Hf|]. intros cp [Hcp _]. lia.
Qed.

Lemma WideStringToUtf8_roundtrip_witness :
  let cps := [0x41; 0xE9; 0x20AC; 0x1F600; 0x10FFFF] in
  ∃ out, ShowWideCString 2 (Some (wide 2 cps ++ [0])) = Some out ∧ decode out = Some cps.
Proof.
  apply (WideStringToUtf8_roundtrip 2); [by left| |vm_compute; congruence].
  unfold scalar. repeat (apply Forall_cons; split; [lia|]). by apply Forall_nil.
Defined.
