(* ===== verification/EditDistance.v ===== *)
(** The differences of two lists of lines, as Google Test reports them
    ([src/lib/googletest/src/gtest.cc]): the edits from one to the other, and the
    hunks of a unified diff.

    A [double] is a binary floating-point number of 53 bits, computed with by the
    specification of IEEE 754 of the Standard Library; a [size_t] that counts or
    indexes is a [nat].  A table is a list of rows; [None] as a result is a loop
    that ran out of fuel or left its table. *)

From S2P Require Import Prelude Strings Matching.
From stdpp Require Import base gmap list strings.
From Stdlib Require Import ZArith SpecFloat.

(** * Doubles *)

Definition double : Type := spec_float.
Definition double_add : double → double → double := SFadd 53 1024.
Definition double_lt : double → double → bool := SFltb.
(** [static_cast<double>] of a [size_t]. *)
Definition double_of (n : nat) : double := binary_normalize 53 1024 (Z.of_nat n) 0 false.
(** The literals 1 and 1.00001, the nearest double of which is this one. *)
Definition double_1 : double := double_of 1.
Definition double_1_00001 : double := S754_finite false 4503644663366770 (-52).

(** * The edits *)

Inductive EditType := kMatch | kAdd | kRemove | kReplace.

#[global] Instance EditType_eq_dec : EqDecision EditType.
Proof. solve_decision. Defined.

Definition get2 {X} (d : X) (i j : nat) (t : list (list X)) : X :=
  default d (row ← t !! i; row !! j).
Definition set2 {X} (i j : nat) (x : X) (t : list (list X)) : list (list X) :=
  alter (λ row, <[j := x]> row) i t.

(** [costs] and [best_move]. *)
Definition Tables : Type := list (list double) * list (list EditType).

Definition set_cell (i j : nat) (cost : double) (move : EditType) (t : Tables) : Tables :=
  (set2 i j cost t.1, set2 i j move t.2).
Definition cost_at (i j : nat) (t : Tables) : double := get2 (double_of 0) i j t.1.

(** The two tables, all elements zero. *)
Definition new_tables (left_size right_size : nat) : Tables :=
  (replicate (S left_size) (replicate (S right_size) (double_of 0)),
   replicate (S left_size) (replicate (S right_size) kMatch)).

Section Edits.
Context (left_ right_ : list nat).

(** The loops that populate the first column and the first row. *)
Definition populate_left (t : Tables) : Tables :=
  foldl (λ t l_i, set_cell l_i 0 (double_of l_i) kRemove t) t (seq 0 (S (length left_))).
Definition populate_right (t : Tables) : Tables :=
  foldl (λ t r_i, set_cell 0 r_i (double_of r_i) kAdd t) t (seq 1 (length right_)).

(** The body of the double loop. *)
Definition fill_cell (l_i r_i : nat) (t : Tables) : Tables :=
  if decide (left_ !! l_i = right_ !! r_i) then
    set_cell (S l_i) (S r_i) (cost_at l_i r_i t) kMatch t
  else
    let add := cost_at (S l_i) r_i t in
    let remove := cost_at l_i (S r_i) t in
    let replace := cost_at l_i r_i t in
    if double_lt add remove && double_lt add replace then
      set_cell (S l_i) (S r_i) (double_add add double_1) kAdd t
    else if double_lt remove add && double_lt remove replace then
      set_cell (S l_i) (S r_i) (double_add remove double_1) kRemove t
    else set_cell (S l_i) (S r_i) (double_add replace double_1_00001) kReplace t.

Definition fill (t : Tables) : Tables :=
  foldl (λ t l_i, foldl (λ t r_i, fill_cell l_i r_i t) t (seq 0 (length right_))) t
    (seq 0 (length left_)).

(** The loop that walks the best path back; each step lowers an index. *)
Fixpoint reconstruct (fuel : nat) (best_move : list (list EditType)) (l_i r_i : nat)
    : option (list EditType) :=
  if ((l_i =? 0) && (r_i =? 0))%nat then Some []
  else
    match fuel with
    | O => None
    | S fuel =>
        row ← best_move !! l_i;
        move ← row !! r_i;
        let l_step := if decide (move = kAdd) then 0 else 1 in
        let r_step := if decide (move = kRemove) then 0 else 1 in
        if ((l_i <? l_step) || (r_i <? r_step))%nat then None
        else rest ← reconstruct fuel best_move (l_i - l_step) (r_i - r_step); Some (move :: rest)
    end.

Definition best_moves : list (list EditType) :=
  (fill (populate_right (populate_left (new_tables (length left_) (length right_))))).2.

Definition CalculateOptimalEdits : option (list EditType) :=
  best_path ←
    reconstruct (length left_ + length right_) best_moves (length left_) (length right_);
  Some (reverse best_path).
End Edits.

(** [InternalStrings::GetId]. *)
Definition GetId (str : string) (ids_ : gmap string nat) : nat * gmap string nat :=
  match ids_ !! str with
  | Some id => (id, ids_)
  | None => let id := size ids_ in (id, <[str := id]> ids_)
  end.
Fixpoint get_ids (strs : list string) (ids_ : gmap string nat) : list nat * gmap string nat :=
  match strs with
  | [] => ([], ids_)
  | str :: strs =>
      let '(id, ids_) := GetId str ids_ in
      let '(ids, ids_) := get_ids strs ids_ in (id :: ids, ids_)
  end.

(** [CalculateOptimalEdits] of strings. *)
Definition CalculateStringEdits (left_ right_ : list string) : option (list EditType) :=
  let '(left_ids, ids_) := get_ids left_ ∅ in
  let '(right_ids, _) := get_ids right_ ids_ in
  CalculateOptimalEdits left_ids right_ids.

(** * Hunks *)

Inductive Mark := Common | Minus | Plus.

Record Hunk := mkHunk {
  left_start_ : nat;
  right_start_ : nat;
  adds_ : nat;
  removes_ : nat;
  common_ : nat;
  hunk_ : list (Mark * string);
  hunk_adds_ : list (Mark * string);
  hunk_removes_ : list (Mark * string)
}.

Definition new_hunk (left_start right_start : nat) : Hunk :=
  mkHunk left_start right_start 0 0 0 [] [] [].

Definition FlushEdits (h : Hunk) : Hunk :=
  mkHunk h.(left_start_) h.(right_start_) h.(adds_) h.(removes_) h.(common_)
    (h.(hunk_) ++ h.(hunk_removes_) ++ h.(hunk_adds_)) [] [].

Definition PushLine (edit : Mark) (line : string) (h : Hunk) : Hunk :=
  match edit with
  | Common =>
      let h := FlushEdits (mkHunk h.(left_start_) h.(right_start_) h.(adds_) h.(removes_)
                             (S h.(common_)) h.(hunk_) h.(hunk_adds_) h.(hunk_removes_)) in
      mkHunk h.(left_start_) h.(right_start_) h.(adds_) h.(removes_) h.(common_)
        (h.(hunk_) ++ [(Common, line)]) h.(hunk_adds_) h.(hunk_removes_)
  | Minus =>
      mkHunk h.(left_start_) h.(right_start_) h.(adds_) (S h.(removes_)) h.(common_)
        h.(hunk_) h.(hunk_adds_) (h.(hunk_removes_) ++ [(Minus, line)])
  | Plus =>
      mkHunk h.(left_start_) h.(right_start_) (S h.(adds_)) h.(removes_) h.(common_)
        h.(hunk_) (h.(hunk_adds_) ++ [(Plus, line)]) h.(hunk_removes_)
  end.

Definition has_edits (h : Hunk) : bool :=
  negb (h.(adds_) =? 0)%nat || negb (h.(removes_) =? 0)%nat.

Definition PrintHeader (h : Hunk) : string :=
  let removes := negb (h.(removes_) =? 0)%nat in
  let adds := negb (h.(adds_) =? 0)%nat in
  "@@ "
  +:+ (if removes
       then "-" +:+ show h.(left_start_) +:+ "," +:+ show (h.(removes_) + h.(common_)) else "")
  +:+ (if removes && adds then " " else "")
  +:+ (if adds then "+" +:+ show h.(right_start_) +:+ "," +:+ show (h.(adds_) + h.(common_)) else "")
  +:+ " @@" +:+ nl.

Definition mark_char (m : Mark) : string :=
  match m with Common => " " | Minus => "-" | Plus => "+" end.

Fixpoint print_lines (lines : list (Mark * string)) : string :=
  match lines with
  | [] => ""
  | (m, line) :: lines => mark_char m +:+ line +:+ nl +:+ print_lines lines
  end.
Definition PrintTo (h : Hunk) : string := PrintHeader h +:+ print_lines (FlushEdits h).(hunk_).

(** * Unified diffs *)

Section Diff.
Context (left_ right_ : list string) (context : nat) (edits : list EditType).

(** The matches from [edit_i] on. *)
Fixpoint matches (rest : list EditType) : nat :=
  match rest with kMatch :: rest => S (matches rest) | _ => 0 end.

(** The loop that pushes the lines before the first edit. *)
Fixpoint push_prefix (i l_i : nat) (h : Hunk) : option Hunk :=
  match i with
  | O => Some h
  | S i' => line ← left_ !! (l_i - i); push_prefix i' l_i (PushLine Common line h)
  end.

(** The loop over the edits of a hunk; [rest] are the edits from [edit_i] on. *)
Fixpoint hunk_loop (rest : list EditType) (l_i r_i n_suffix : nat) (h : Hunk)
    : option (list EditType * nat * nat * Hunk) :=
  match rest with
  | [] => Some ([], l_i, r_i, h)
  | edit :: rest' =>
      let far := (matches rest =? length rest)%nat || (context <=? matches rest)%nat in
      if (context <=? n_suffix)%nat && far then Some (rest, l_i, r_i, h)
      else
        let n_suffix := if decide (edit = kMatch) then S n_suffix else 0 in
        h ← (if decide (edit = kAdd) then Some h
             else line ← left_ !! l_i;
                  Some (PushLine (if decide (edit = kMatch) then Common else Minus) line h));
        h ← (if decide (edit = kAdd ∨ edit = kReplace)
             then line ← right_ !! r_i; Some (PushLine Plus line h) else Some h);
        hunk_loop rest' (if decide (edit = kAdd) then l_i else S l_i)
          (if decide (edit = kRemove) then r_i else S r_i) n_suffix h
  end.

(** The outer loop: the hunks it prints. *)
Fixpoint diff_loop (fuel : nat) (rest : list EditType) (l_i r_i : nat) : option (list Hunk) :=
  match fuel with
  | O => None
  | S fuel =>
      match rest with
      | [] => Some []
      | _ =>
          let k := matches rest in
          let l_i := l_i + k in
          let r_i := r_i + k in
          let prefix_context := l_i `min` context in
          h ← push_prefix prefix_context l_i
                (new_hunk (l_i - prefix_context + 1) (r_i - prefix_context + 1));
          '(rest, l_i, r_i, h) ← hunk_loop (drop k rest) l_i r_i 0 h;
          if negb (has_edits h) then Some []
          else hunks ← diff_loop fuel rest l_i r_i; Some (h :: hunks)
      end
  end.
End Diff.

Definition diff_hunks (left_ right_ : list string) (context : nat) : option (list Hunk) :=
  edits ← CalculateStringEdits left_ right_;
  diff_loop left_ right_ context (S (length edits)) edits 0 0.

(** [CreateUnifiedDiff]: the text of the hunks, in order. *)
Definition CreateUnifiedDiff (left_ right_ : list string) (context : nat) : option string :=
  hunks ← diff_hunks left_ right_ context;
  Some (foldr (λ h text, PrintTo h +:+ text) "" hunks).
