(* ===== verification/EditDistanceFacts.v ===== *)
(** The edits of Google Test's diffs lead from the one list to the other, and so
    do its hunks: the facts about [EditDistance]. *)

From S2P Require Import Prelude Strings Matching EditDistance.
From stdpp Require Import base gmap list strings.
From Stdlib Require Import ZArith Ascii SpecFloat.

(** [script es l r]: the edits [es] lead from [l] to [r]. *)
Inductive script {A} : list EditType → list A → list A → Prop :=
  | script_nil : script [] [] []
  | script_match x es l r : script es l r → script (kMatch :: es) (x :: l) (x :: r)
  | script_add y es l r : script es l r → script (kAdd :: es) l (y :: r)
  | script_remove x es l r : script es l r → script (kRemove :: es) (x :: l) r
  | script_replace x y es l r : x ≠ y → script es l r → script (kReplace :: es) (x :: l) (y :: r).

Lemma script_app {A} es es' (l l' r r' : list A) :
  script es l r → script es' l' r' → script (es ++ es') (l ++ l') (r ++ r').
Proof. induction 1; intros H'; simpl; try constructor; auto. Qed.

(** A loop from [a] on keeps an invariant of the index. *)
Lemma foldl_seq {S} (P : nat → S → Prop) (f : S → nat → S) a n s :
  P a s → (∀ i s, a <= i < a + n → P i s → P (Datatypes.S i) (f s i)) → P (a + n) (foldl f s (seq a n)).
Proof.
  revert a s. induction n as [|n IH]; intros a s Ha Hf; [by rewrite Nat.add_0_r|].
  cbn [seq foldl]. rewrite <- Nat.add_succ_comm. apply IH; [apply Hf; [lia|done]|].
  intros i s' Hi. apply Hf. lia.
Qed.

(** * The table of moves *)

Section Moves.
Context (l r : list nat).

Definition cell (t : list (list EditType)) (i j : nat) : option EditType :=
  row ← t !! i; row !! j.
Definition dims (t : list (list EditType)) : Prop :=
  length t = S (length l) ∧ Forall (λ row, length row = S (length r)) t.

(** A move that leads to the cell of the first [i] and [j] elements. *)
Definition valid (i j : nat) (m : EditType) : Prop :=
  (i = 0 ∧ j = 0) ∨
  match m with
  | kMatch => ∃ i' j' x, i = S i' ∧ j = S j' ∧ l !! i' = Some x ∧ r !! j' = Some x
  | kAdd => ∃ j' y, j = S j' ∧ r !! j' = Some y
  | kRemove => ∃ i' x, i = S i' ∧ l !! i' = Some x
  | kReplace => ∃ i' j' x y, i = S i' ∧ j = S j' ∧ l !! i' = Some x ∧ r !! j' = Some y ∧ x ≠ y
  end.

Definition filled (D : nat → nat → Prop) (t : Tables) : Prop :=
  dims t.2 ∧
  ∀ i j, i <= length l → j <= length r → D i j → ∃ m, cell t.2 i j = Some m ∧ valid i j m.

Lemma cell_set2 t i j m i' j' :
  dims t → i <= length l → j <= length r →
  cell (set2 i j m t) i' j' = if decide (i' = i ∧ j' = j) then Some m else cell t i' j'.
Proof.
  intros [Hl Hf] Hi Hj. unfold cell, set2.
  destruct (lookup_lt_is_Some_2 t i) as [row Hrow]; [lia|].
  assert (length row = S (length r)) as Hr by (rewrite Forall_forall in Hf; by eapply Hf, list_elem_of_lookup_2).
  destruct (decide (i' = i)) as [->|Hne].
  - rewrite list_lookup_alter_eq, Hrow. cbn [mbind option_bind fmap option_fmap option_map].
    destruct (decide (j' = j)) as [->|].
    + rewrite decide_True by done. apply list_lookup_insert_eq. lia.
    + rewrite decide_False by naive_solver. by apply list_lookup_insert_ne.
  - rewrite list_lookup_alter_ne by done. by rewrite decide_False by naive_solver.
Qed.

Lemma dims_set2 t i j m : dims t → dims (set2 i j m t).
Proof.
  intros [Hl Hf]. unfold set2. split; [by rewrite length_alter|].
  apply Forall_alter; [done|]. intros row Hrow _. simpl. rewrite length_insert.
  rewrite Forall_forall in Hf. by eapply Hf, list_elem_of_lookup_2.
Qed.

Lemma filled_set (D D' : nat → nat → Prop) t i j c m :
  filled D t → i <= length l → j <= length r → valid i j m →
  (∀ i' j', D' i' j' → D i' j' ∨ (i' = i ∧ j' = j)) → filled D' (set_cell i j c m t).
Proof.
  intros [Hd Hf] Hi Hj Hm HD. split; [by apply dims_set2|]. cbn [snd set_cell].
  intros i' j' Hi' Hj' H. rewrite cell_set2 by done. case_decide as Hc.
  - destruct Hc as [-> ->]. by exists m.
  - apply Hf; [done..|]. apply HD in H. tauto.
Qed.

Lemma filled_new : filled (λ _ _, False) (new_tables (length l) (length r)).
Proof.
  split; [|done]. split; [apply length_replicate|]. cbn [snd new_tables].
  apply Forall_replicate, length_replicate.
Qed.

Lemma filled_weaken (D D' : nat → nat → Prop) t :
  filled D t → (∀ i j, i <= length l → j <= length r → D' i j → D i j) → filled D' t.
Proof. intros [Hd Hf] HD. split; [done|]. intros i j Hi Hj H. apply Hf; auto. Qed.

Lemma filled_left t : filled (λ _ _, False) t → filled (λ i j, j = 0) (populate_left l t).
Proof.
  intros Ht. unfold populate_left.
  eapply filled_weaken; [apply (foldl_seq (λ n, filled (λ i j, j = 0 ∧ i < n)))|].
  - eapply filled_weaken; [exact Ht|]. intros i j _ _ [_ H]. lia.
  - intros i t' Hi H. apply (filled_set _ _ _ _ _ _ _ H); [lia|lia| |].
    + destruct i as [|i]; [by left|right]. destruct (lookup_lt_is_Some_2 l i) as [x Hx]; [lia|].
      by exists i, x.
    + intros i' j' [-> H']. destruct (decide (i' = i)); [tauto|]. left. split; [done|lia].
  - intros i j Hi _ ->. split; [done|lia].
Qed.

Lemma filled_right t :
  filled (λ i j, j = 0) t → filled (λ i j, j = 0 ∨ i = 0) (populate_right r t).
Proof.
  intros Ht. unfold populate_right.
  eapply filled_weaken; [apply (foldl_seq (λ n, filled (λ i j, j = 0 ∨ (i = 0 ∧ j < n))))|].
  - eapply filled_weaken; [exact Ht|]. intros i j _ _ [|[_ ?]]; lia.
  - intros j t' Hj H. apply (filled_set _ _ _ _ _ _ _ H); [lia|lia| |].
    + destruct j as [|j]; [by left|right]. destruct (lookup_lt_is_Some_2 r j) as [y Hy]; [lia|].
      by exists j, y.
    + intros i' j' [?|[-> H']]; [tauto|]. destruct (decide (j' = j)); [tauto|]. left. right. lia.
  - intros i j _ Hj [->| ->]; [tauto|]. right. split; [done|lia].
Qed.

Lemma filled_cell D D' l_i r_i t :
  filled D t → l_i < length l → r_i < length r →
  (∀ i j, D' i j → D i j ∨ (i = S l_i ∧ j = S r_i)) → filled D' (fill_cell l r l_i r_i t).
Proof.
  intros Ht Hl Hr HD.
  destruct (lookup_lt_is_Some_2 l l_i) as [x Hx]; [done|].
  destruct (lookup_lt_is_Some_2 r r_i) as [y Hy]; [done|].
  unfold fill_cell. rewrite Hx, Hy. repeat case_match;
    (eapply filled_set; [exact Ht|lia|lia| |exact HD]; right).
  - exists l_i, r_i, x. split_and!; congruence.
  - by exists r_i, y.
  - by exists l_i, x.
  - exists l_i, r_i, x, y. split_and!; congruence.
Qed.

Lemma filled_fill t : filled (λ i j, j = 0 ∨ i = 0) t → filled (λ _ _, True) (fill l r t).
Proof.
  intros Ht. unfold fill.
  eapply filled_weaken; [apply (foldl_seq (λ n, filled (λ i j, j = 0 ∨ i <= n)))|].
  - eapply filled_weaken; [exact Ht|]. intros i j _ _ H. cbv beta in *. lia.
  - intros l_i t' Hl Ht'.
    eapply filled_weaken;
      [apply (foldl_seq (λ n, filled (λ i j, j = 0 ∨ i <= l_i ∨ (i = S l_i ∧ j <= n))))|].
    + eapply filled_weaken; [exact Ht'|]. intros i j _ _ H. cbv beta in *. lia.
    + intros r_i t'' Hr Ht''. eapply filled_cell; [exact Ht''|lia|lia|]. intros i j H. cbv beta in *. lia.
    + intros i j _ Hj H. cbv beta in *. lia.
  - intros i j Hi _ _. cbv beta in *. lia.
Qed.

Lemma best_moves_valid : filled (λ _ _, True)
  (fill l r (populate_right r (populate_left l (new_tables (length l) (length r))))).
Proof. apply filled_fill, filled_right, filled_left, filled_new. Qed.

Lemma reconstruct_ok best fuel i j :
  (∀ i j, i <= length l → j <= length r → ∃ m, cell best i j = Some m ∧ valid i j m) →
  i <= length l → j <= length r → i + j <= fuel →
  ∃ path, reconstruct fuel best i j = Some path ∧ script (reverse path) (take i l) (take j r).
Proof.
  intros Hbest. revert i j. induction fuel as [|fuel IH]; intros i j Hi Hj Hfuel.
  { assert (i = 0) as -> by lia. assert (j = 0) as -> by lia. exists []. split; [done|constructor]. }
  destruct (decide (i = 0 ∧ j = 0)) as [[-> ->]|Hne]; [exists []; split; [done|constructor]|].
  cbn [reconstruct].
  assert ((i =? 0) && (j =? 0) = false) as ->
    by (apply andb_false_iff; destruct (Nat.eqb_spec i 0), (Nat.eqb_spec j 0); tauto).
  destruct (Hbest i j) as (m & Hm & Hv); [done..|]. unfold cell in Hm.
  destruct (best !! i) as [row|]; [|done]. cbn [mbind option_bind] in Hm |- *. rewrite Hm.
  cbn [mbind option_bind]. destruct Hv as [?|Hv]; [tauto|].
  destruct m.
  - rewrite (decide_False (P := kMatch = kAdd)), (decide_False (P := kMatch = kRemove)) by done.
    destruct Hv as (i' & j' & x & -> & -> & Hx & Hy). cbn [Nat.ltb Nat.leb orb].
    rewrite !Nat.sub_1_r. cbn [Nat.pred].
    destruct (IH i' j') as (p & -> & Hp); [lia..|]. eexists. split; [done|].
    rewrite reverse_cons, (take_S_r l i' x), (take_S_r r j' x) by done.
    apply script_app; [done|]. repeat constructor.
  - rewrite (decide_True (P := kAdd = kAdd)), (decide_False (P := kAdd = kRemove)) by done.
    destruct Hv as (j' & y & -> & Hy). replace (i <? 0) with false by (symmetry; apply Nat.ltb_ge; lia). cbn [Nat.ltb Nat.leb orb].
    rewrite Nat.sub_1_r, Nat.sub_0_r. cbn [Nat.pred].
    destruct (IH i j') as (p & -> & Hp); [lia..|]. eexists. split; [done|].
    rewrite reverse_cons, (take_S_r r j' y) by done. rewrite <- (app_nil_r (take i l)).
    apply script_app; [done|]. repeat constructor.
  - rewrite (decide_False (P := kRemove = kAdd)), (decide_True (P := kRemove = kRemove)) by done.
    destruct Hv as (i' & x & -> & Hx). cbn [Nat.ltb Nat.leb orb].
    rewrite Nat.sub_1_r, Nat.sub_0_r. cbn [Nat.pred].
    destruct (IH i' j) as (p & -> & Hp); [lia..|]. eexists. split; [done|].
    rewrite reverse_cons, (take_S_r l i' x) by done. rewrite <- (app_nil_r (take j r)).
    apply script_app; [done|]. repeat constructor.
  - rewrite (decide_False (P := kReplace = kAdd)), (decide_False (P := kReplace = kRemove)) by done.
    destruct Hv as (i' & j' & x & y & -> & -> & Hx & Hy & Hxy). cbn [Nat.ltb Nat.leb orb].
    rewrite !Nat.sub_1_r. cbn [Nat.pred].
    destruct (IH i' j') as (p & -> & Hp); [lia..|]. eexists. split; [done|].
    rewrite reverse_cons, (take_S_r l i' x), (take_S_r r j' y) by done.
    apply script_app; [done|]. by repeat constructor.
Qed.

Lemma edits_ok : ∃ path, CalculateOptimalEdits l r = Some path ∧ script path l r.
Proof.
  unfold CalculateOptimalEdits, best_moves. destruct best_moves_valid as [_ Hf].
  destruct (reconstruct_ok (fill l r (populate_right r (populate_left l
    (new_tables (length l) (length r))))).2 (length l + length r) (length l) (length r))
    as (path & -> & Hp); [by intros; apply Hf|done..|].
  exists (reverse path). split; [done|]. by rewrite !firstn_all in Hp.
Qed.
End Moves.

(** * Strings *)

Definition ids_ok (ids_ : gmap string nat) : Prop :=
  (∀ s n, ids_ !! s = Some n → n < size ids_) ∧
  ∀ s s' n, ids_ !! s = Some n → ids_ !! s' = Some n → s = s'.

Lemma GetId_ok s ids_ :
  ids_ok ids_ →
  let '(id, ids') := GetId s ids_ in ids_ok ids' ∧ ids_ ⊆ ids' ∧ ids' !! s = Some id.
Proof.
  intros [Hlt Hinj]. unfold GetId. destruct (ids_ !! s) as [id|] eqn:E; [by split|].
  assert (size (<[s := size ids_]> ids_) = S (size ids_)) as Hsize by by apply map_size_insert_None.
  split; [split|split; [by apply insert_subseteq|apply lookup_insert_eq]].
  - rewrite Hsize. intros s' n [[<- <-]|[_ H]]%lookup_insert_Some; [lia|]. apply Hlt in H. lia.
  - intros s1 s2 n [[<- <-]|[Hs1 H1]]%lookup_insert_Some [[<- H2]|[Hs2 H2]]%lookup_insert_Some; try done.
    + apply Hlt in H2. lia.
    + subst. apply Hlt in H1. lia.
    + by eapply Hinj.
Qed.

Lemma get_ids_ok strs ids_ :
  ids_ok ids_ →
  let '(ids, ids') := get_ids strs ids_ in
  ids_ok ids' ∧ ids_ ⊆ ids' ∧ Forall2 (λ s n, ids' !! s = Some n) strs ids.
Proof.
  revert ids_. induction strs as [|s strs IH]; intros ids_ Hok; [by split|].
  cbn [get_ids]. pose proof (GetId_ok s ids_ Hok) as H. destruct (GetId s ids_) as [id ids1].
  destruct H as (Hok1 & Hsub & Hs). specialize (IH ids1 Hok1). destruct (get_ids strs ids1) as [ids ids2].
  destruct IH as (Hok2 & Hsub2 & Hf). split; [done|]. split; [by etrans|].
  constructor; [by eapply lookup_weaken|done].
Qed.

Lemma script_strings ids_ es (l r : list nat) ls rs :
  ids_ok ids_ → script es l r → Forall2 (λ s n, ids_ !! s = Some n) ls l →
  Forall2 (λ s n, ids_ !! s = Some n) rs r → script es ls rs.
Proof.
  intros [_ Hinj] Hs. revert ls rs. induction Hs; intros ls rs Hl Hr.
  - inversion Hl. inversion Hr. constructor.
  - inversion Hl as [|s ? ls' ? Ha Hfa]; inversion Hr as [|s' ? rs' ? Hb Hfb]; subst.
    rewrite (Hinj s s' x) by done. constructor. auto.
  - inversion Hr; subst. constructor. auto.
  - inversion Hl; subst. constructor. auto.
  - inversion Hl; inversion Hr; subst. constructor; [congruence|auto].
Qed.

Lemma string_edits_ok ls rs :
  ∃ path, CalculateStringEdits ls rs = Some path ∧ script path ls rs.
Proof.
  unfold CalculateStringEdits.
  pose proof (get_ids_ok ls ∅) as H. destruct (get_ids ls ∅) as [l ids1].
  destruct H as (Hok1 & _ & Hl);
    [split; [intros s n H|intros s s' n H]; by rewrite lookup_empty in H|].
  pose proof (get_ids_ok rs ids1 Hok1) as H. destruct (get_ids rs ids1) as [r ids2].
  destruct H as (Hok2 & Hsub & Hr).
  destruct (edits_ok l r) as (path & -> & Hp). exists path. split; [done|].
  eapply script_strings; [exact Hok2|done| |done].
  eapply Forall2_impl; [exact Hl|]. intros s n Hsn. cbv beta in *.
  exact (lookup_weaken ids1 ids2 s n Hsn Hsub).
Qed.

(** [CalculateOptimalEdits] always comes to an end, inside its tables, and its
    edits lead from the left list to the right one: a match stands for equal
    elements, a replacement for different ones, and nothing is skipped. *)
Theorem CalculateOptimalEdits_leads_right (ls rs : list string) :
  ∃ path, CalculateStringEdits ls rs = Some path ∧ script path ls rs.
Proof. apply string_edits_ok. Qed.

(** The number of edits of a script. *)
Definition changes (es : list EditType) : nat := count_true (λ e, bool_decide (e ≠ kMatch)) es.

(** The edits are not optimal, although they are said to be: where adding and
    removing cost the same, the code replaces, even where replacing costs more.
    From aba to bab it takes three replacements, and two edits are enough. *)
Theorem CalculateOptimalEdits_not_optimal :
  ∃ path, CalculateStringEdits ["a"; "b"; "a"] ["b"; "a"; "b"] = Some path ∧
    ∃ better, script better ["a"; "b"; "a"] ["b"; "a"; "b"] ∧ changes better < changes path.
Proof.
  eexists. split; [vm_compute; reflexivity|]. exists [kRemove; kMatch; kMatch; kAdd].
  split; [repeat constructor|vm_compute; lia].
Qed.

(** * Hunks *)

#[global] Instance Mark_eq_dec : EqDecision Mark.
Proof. solve_decision. Defined.

(** The lines of a hunk, and those of them on the left and on the right. *)
Definition lines (h : Hunk) : list (Mark * string) := (FlushEdits h).(hunk_).
Definition without (m : Mark) (ls : list (Mark * string)) : list string :=
  omap (λ p, if decide (p.1 = m) then None else Some p.2) ls.
Definition left_lines (h : Hunk) : list string := without Plus (lines h).
Definition right_lines (h : Hunk) : list string := without Minus (lines h).

Lemma without_app m ls ls' : without m (ls ++ ls') = without m ls ++ without m ls'.
Proof. apply omap_app. Qed.

Lemma without_same m ls : Forall (λ p, p.1 = m) ls → without m ls = [].
Proof.
  induction 1 as [|p ls Hp _ IH]; [done|]. unfold without in *. cbn. by rewrite decide_True.
Qed.

(** A hunk of the lines [l] on the left and [r] on the right, with their numbers. *)
Record hunk_ok (h : Hunk) (l r : list string) : Prop := {
  hk_removes : Forall (λ p, p.1 = Minus) h.(hunk_removes_);
  hk_adds : Forall (λ p, p.1 = Plus) h.(hunk_adds_);
  hk_left : left_lines h = l;
  hk_right : right_lines h = r;
  hk_left_size : length l = h.(removes_) + h.(common_);
  hk_right_size : length r = h.(adds_) + h.(common_)
}.

Lemma new_hunk_ok a b : hunk_ok (new_hunk a b) [] [].
Proof. by split. Qed.

Lemma push_common h l r x : hunk_ok h l r → hunk_ok (PushLine Common x h) (l ++ [x]) (r ++ [x]).
Proof.
  intros [H1 H2 H3 H4 H5 H6]. split; try done.
  - unfold left_lines, lines in *. cbn [FlushEdits PushLine hunk_ hunk_removes_ hunk_adds_] in *.
    rewrite !app_nil_r, without_app, H3. done.
  - unfold right_lines, lines in *. cbn [FlushEdits PushLine hunk_ hunk_removes_ hunk_adds_] in *.
    rewrite !app_nil_r, without_app, H4. done.
  - rewrite length_app, H5. simpl. lia.
  - rewrite length_app, H6. simpl. lia.
Qed.

Lemma push_minus h l r x : hunk_ok h l r → hunk_ok (PushLine Minus x h) (l ++ [x]) r.
Proof.
  intros [H1 H2 H3 H4 H5 H6]. split; try done.
  - cbn. apply Forall_app. split; [done|by repeat constructor].
  - unfold left_lines, lines in *. cbn [FlushEdits PushLine hunk_ hunk_removes_ hunk_adds_] in *.
    rewrite !without_app in *. rewrite (without_same Plus h.(hunk_adds_)) in * by done.
    rewrite !app_nil_r, (assoc_L (++)) in *. by rewrite H3.
  - unfold right_lines, lines in *. cbn [FlushEdits PushLine hunk_ hunk_removes_ hunk_adds_] in *.
    rewrite !without_app in *. by rewrite app_nil_r.
  - rewrite length_app, H5. simpl. lia.
Qed.

Lemma push_plus h l r x : hunk_ok h l r → hunk_ok (PushLine Plus x h) l (r ++ [x]).
Proof.
  intros [H1 H2 H3 H4 H5 H6]. split; try done.
  - cbn. apply Forall_app. split; [done|by repeat constructor].
  - unfold left_lines, lines in *. cbn [FlushEdits PushLine hunk_ hunk_removes_ hunk_adds_] in *.
    rewrite !without_app in *. rewrite app_nil_r. exact H3.
  - unfold right_lines, lines in *. cbn [FlushEdits PushLine hunk_ hunk_removes_ hunk_adds_] in *.
    rewrite !without_app in *. rewrite !(assoc_L (++)) in *. by rewrite H4.
  - rewrite length_app, H6. simpl. lia.
Qed.

Definition starts (h : Hunk) : nat * nat := (h.(left_start_), h.(right_start_)).

Lemma PushLine_starts m x h : starts (PushLine m x h) = starts h.
Proof. by destruct m. Qed.

Lemma PushLine_edits m x h : has_edits h = true ∨ m ≠ Common → has_edits (PushLine m x h) = true.
Proof.
  unfold has_edits. destruct m; cbn; [by intros [H|H]| |]; intros _; rewrite ?orb_true_r; done.
Qed.

(** * Applying a diff *)

(** The hunks, applied to the lines [from] behind the first [pos]: [start] is a
    hunk's line number, [old] what it must find there and [new] what it puts there. *)
Fixpoint patch (start : Hunk → nat) (old new : Hunk → list string) (pos : nat)
    (from : list string) (hunks : list Hunk) : option (list string) :=
  match hunks with
  | [] => Some from
  | h :: hunks =>
      let gap := start h - 1 - pos in
      let here := drop gap from in
      if decide (take (length (old h)) here = old h) then
        rest ← patch start old new (pos + gap + length (old h)) (drop (length (old h)) here) hunks;
        Some (take gap from ++ new h ++ rest)
      else None
  end.

Inductive applies : nat → nat → list string → list string → list Hunk → Prop :=
  | applies_done i j rest : applies i j rest rest []
  | applies_hunk i j gap h hunks l r :
      starts h = (i + length gap + 1, j + length gap + 1) →
      hunk_ok h (left_lines h) (right_lines h) → has_edits h = true →
      applies (i + length gap + length (left_lines h)) (j + length gap + length (right_lines h)) l r hunks →
      applies i j (gap ++ left_lines h ++ l) (gap ++ right_lines h ++ r) (h :: hunks).

Lemma applies_patch i j l r hunks :
  applies i j l r hunks →
  patch left_start_ left_lines right_lines i l hunks = Some r ∧
  patch right_start_ right_lines left_lines j r hunks = Some l.
Proof.
  induction 1 as [|i j gap h hunks l r [= Hl Hr] _ _ _ [IH1 IH2]]; [done|].
  cbn [patch]. rewrite Hl, Hr.
  replace (i + length gap + 1 - 1 - i) with (length gap) by lia.
  replace (j + length gap + 1 - 1 - j) with (length gap) by lia.
  rewrite !drop_app_length, !take_app_length, !decide_True by done.
  rewrite IH1, IH2. done.
Qed.

(** Settles the comparisons of edits that the goal branches on. *)
Ltac edit_decides :=
  repeat first [rewrite decide_False by naive_solver | rewrite decide_True by naive_solver].

Section DiffLoops.
Context (left_ right_ : list string) (context : nat).

(** The next edit, if there is one, is [context] matches away or more. *)
Definition far (es : list EditType) : Prop := matches es = length es ∨ context <= matches es.

Lemma matches_le es : matches es <= length es.
Proof. induction es as [|[] es IH]; simpl; lia. Qed.

Lemma script_matches es (l r : list string) :
  script es l r →
  ∃ same l' r', l = same ++ l' ∧ r = same ++ r' ∧ length same = matches es ∧
    script (drop (matches es) es) l' r'.
Proof.
  induction 1 as [|x es l r _ (same & l' & r' & -> & -> & Hl & IH)|y es l r Hs|x es l r Hs
    |x y es l r Hxy Hs]; [by exists [], [], []; repeat constructor| | | |].
  - exists (x :: same), l', r'. simpl. by rewrite Hl.
  - exists [], l, (y :: r). by repeat constructor.
  - exists [], (x :: l), r. by repeat constructor.
  - exists [], (x :: l), (y :: r). by repeat constructor.
Qed.

Lemma matches_all es (l r : list string) : script es l r → matches es = length es → l = r.
Proof.
  induction 1; simpl; intros Hm; try done. f_equal. auto.
Qed.

Lemma drop_cons_lookup {A} i (l : list A) x l' : drop i l = x :: l' → l !! i = Some x ∧ drop (S i) l = l'.
Proof.
  intros H. split.
  - rewrite <- (Nat.add_0_r i), <- lookup_drop, H. done.
  - replace (S i) with (i + 1) by lia. by rewrite <- drop_drop, H.
Qed.

Lemma push_prefix_ok h l r same i l_i :
  hunk_ok h l r → (∃ l', drop (l_i - i) left_ = same ++ l') → length same = i → i <= l_i →
  ∃ h', push_prefix left_ i l_i h = Some h' ∧ hunk_ok h' (l ++ same) (r ++ same) ∧
    starts h' = starts h ∧ has_edits h' = has_edits h.
Proof.
  revert h l r same. induction i as [|i IH]; intros h l r same Hh [l' Hd] Hlen Hi.
  { apply nil_length_inv in Hlen as ->. exists h. by rewrite !app_nil_r. }
  destruct same as [|x same]; [done|]. apply drop_cons_lookup in Hd as [Hx Hd].
  cbn [push_prefix]. rewrite Hx. cbn [mbind option_bind].
  destruct (IH (PushLine Common x h) (l ++ [x]) (r ++ [x]) same) as (h' & -> & Hh' & Hs & He).
  - by apply push_common.
  - exists l'. by replace (l_i - i) with (S (l_i - S i)) by lia.
  - by injection Hlen.
  - lia.
  - exists h'. rewrite <- !(assoc_L (++)) in Hh'. split; [done|]. split; [done|].
    split; [by rewrite Hs, PushLine_starts|by rewrite He].
Qed.

(** What the loop over a hunk's edits leaves: the lines [l1] and [r1] went into it. *)
Definition hunk_done (es : list EditType) (l_i r_i : nat) (h : Hunk) (l r : list string)
    (res : option (list EditType * nat * nat * Hunk)) : Prop :=
  ∃ es' h' l1 r1 l' r',
    res = Some (es', l_i + length l1, r_i + length r1, h') ∧
    drop l_i left_ = l1 ++ l' ∧ drop r_i right_ = r1 ++ r' ∧ script es' l' r' ∧ far es' ∧
    hunk_ok h' (l ++ l1) (r ++ r1) ∧ starts h' = starts h ∧
    (has_edits h = true → has_edits h' = true) ∧ length es' <= length es.

Lemma hunk_done_step e es l_i r_i h h1 l r l1 r1 l' r' res :
  drop l_i left_ = l1 ++ l' → drop r_i right_ = r1 ++ r' → starts h1 = starts h →
  (has_edits h = true → has_edits h1 = true) →
  (drop (l_i + length l1) left_ = l' → drop (r_i + length r1) right_ = r' →
   hunk_done es (l_i + length l1) (r_i + length r1) h1 (l ++ l1) (r ++ r1) res) →
  hunk_done (e :: es) l_i r_i h l r res.
Proof.
  intros Hl Hr Hs He Hd.
  destruct Hd as (es' & h' & l2 & r2 & l'' & r'' & -> & Hl2 & Hr2 & Hsc & Hf & Hh & Hst & Hed & Hle).
  { by rewrite <- drop_drop, Hl, drop_app_length. }
  { by rewrite <- drop_drop, Hr, drop_app_length. }
  exists es', h', (l1 ++ l2), (r1 ++ r2), l'', r''. rewrite !length_app, !Nat.add_assoc.
  split; [done|]. rewrite <- drop_drop, Hl, drop_app_length in Hl2.
  rewrite <- drop_drop, Hr, drop_app_length in Hr2. subst l' r'.
  rewrite <- !(assoc_L (++)). split; [done|]. split; [done|]. split; [done|]. split; [done|].
  rewrite <- !(assoc_L (++)) in Hh. split; [done|]. split; [congruence|]. split; [auto|simpl; lia].
Qed.

(** The loop ends where the next edit is far away. *)
Lemma hunk_break n es l_i r_i h l r ls rs :
  ((context <=? n) && ((matches es =? length es) || (context <=? matches es)))%nat = true →
  drop l_i left_ = ls → drop r_i right_ = rs → script es ls rs → hunk_ok h l r →
  hunk_done es l_i r_i h l r (Some (es, l_i, r_i, h)).
Proof.
  intros [_ Hb]%andb_true_iff Hl Hr Hs Hh. exists es, h, [], [], ls, rs.
  rewrite !Nat.add_0_r, !app_nil_r. split_and!; try done.
  apply orb_true_iff in Hb as [?%Nat.eqb_eq|?%Nat.leb_le]; [by left|by right].
Qed.

Lemma hunk_loop_ok es l_i r_i n h l r ls rs :
  script es ls rs → drop l_i left_ = ls → drop r_i right_ = rs → hunk_ok h l r →
  hunk_done es l_i r_i h l r (hunk_loop left_ right_ context es l_i r_i n h).
Proof.
  intros Hs. revert l_i r_i n h l r.
  induction Hs as [|x es ls rs Hs IH|y es ls rs Hs IH|x es ls rs Hs IH|x y es ls rs Hxy Hs IH];
    intros l_i r_i n h l r Hl Hr Hh; cbn [hunk_loop].
  - exists [], h, [], [], [], []. rewrite !Nat.add_0_r, !app_nil_r.
    split_and!; try done; [constructor|by left].
  - destruct (_ && _) eqn:Hb; [by eapply hunk_break; [..|constructor|]|]. clear Hb.
    edit_decides.
    destruct (drop_cons_lookup _ _ _ _ Hl) as [-> _]. cbn [mbind option_bind].
    edit_decides. cbn [mbind option_bind].
    apply (hunk_done_step kMatch es l_i r_i h (PushLine Common x h) l r [x] [x] ls rs);
      [exact Hl|exact Hr|done|intros H; apply PushLine_edits; by left|].
    intros Hl' Hr'. cbn [length] in *. rewrite <- (Nat.add_1_r l_i), <- (Nat.add_1_r r_i). apply IH; [done|done|by apply push_common].
  - destruct (_ && _) eqn:Hb; [by eapply hunk_break; [..|constructor|]|]. clear Hb.
    edit_decides. cbn [mbind option_bind]. destruct (drop_cons_lookup _ _ _ _ Hr) as [-> _]. cbn [mbind option_bind].
    edit_decides. cbn [mbind option_bind].
    apply (hunk_done_step kAdd es l_i r_i h (PushLine Plus y h) l r [] [y] ls rs);
      [exact Hl|exact Hr|done|intros H; apply PushLine_edits; by right|].
    intros Hl' Hr'. cbn [length] in *. rewrite Nat.add_0_r, app_nil_r in *. rewrite <- (Nat.add_1_r r_i).
    apply IH; [done|done|by apply push_plus].
  - destruct (_ && _) eqn:Hb; [by eapply hunk_break; [..|constructor|]|]. clear Hb.
    edit_decides.
    destruct (drop_cons_lookup _ _ _ _ Hl) as [-> _]. cbn [mbind option_bind].
    edit_decides. cbn [mbind option_bind].
    apply (hunk_done_step kRemove es l_i r_i h (PushLine Minus x h) l r [x] [] ls rs);
      [exact Hl|exact Hr|done|intros H; apply PushLine_edits; by right|].
    intros Hl' Hr'. cbn [length] in *. rewrite Nat.add_0_r, app_nil_r in *. rewrite <- (Nat.add_1_r l_i).
    apply IH; [done|done|by apply push_minus].
  - destruct (_ && _) eqn:Hb; [by eapply hunk_break; [..|by constructor|]|]. clear Hb.
    edit_decides.
    destruct (drop_cons_lookup _ _ _ _ Hl) as [-> _]. cbn [mbind option_bind].
    destruct (drop_cons_lookup _ _ _ _ Hr) as [-> _]. cbn [mbind option_bind].
    edit_decides.
    apply (hunk_done_step kReplace es l_i r_i h (PushLine Plus y (PushLine Minus x h)) l r [x] [y] ls rs);
      [exact Hl|exact Hr|done|intros H; apply PushLine_edits; by right|].
    intros Hl' Hr'. cbn [length] in *. rewrite <- (Nat.add_1_r l_i), <- (Nat.add_1_r r_i). apply IH; [done|done|]. by apply push_plus, push_minus.
Qed.

(** A hunk takes the edit that it starts with. *)
Lemma hunk_loop_first e es l_i r_i h l r ls rs :
  0 < context → e ≠ kMatch → script (e :: es) ls rs →
  drop l_i left_ = ls → drop r_i right_ = rs → hunk_ok h l r →
  ∃ l_i' r_i' h1 l1 r1 ls' rs',
    hunk_loop left_ right_ context (e :: es) l_i r_i 0 h = hunk_loop left_ right_ context es l_i' r_i' 0 h1 ∧
    has_edits h1 = true ∧ script es ls' rs' ∧ drop l_i' left_ = ls' ∧ drop r_i' right_ = rs' ∧
    hunk_ok h1 l1 r1.
Proof.
  intros Hc He Hs Hl Hr Hh. cbn [hunk_loop].
  assert ((context <=? 0)%nat = false) as -> by (apply Nat.leb_gt; lia). cbn [andb].
  revert He Hl Hr.
  inversion_clear Hs as [|x ? l' r' Hs'|y ? l' r' Hs'|x ? l' r' Hs'|x y ? l' r' Hxy Hs'];
    intros He Hl Hr; [done| | |]; edit_decides; cbn [mbind option_bind].
  - destruct (drop_cons_lookup _ _ _ _ Hr) as [-> Hr']. cbn [mbind option_bind].
    edit_decides. eexists _, _, _, _, _, _, _. split; [done|].
    split; [apply PushLine_edits; by right|]. split; [exact Hs'|]. split; [done|]. split; [done|].
    by apply push_plus.
  - destruct (drop_cons_lookup _ _ _ _ Hl) as [-> Hl']. cbn [mbind option_bind].
    edit_decides. cbn [mbind option_bind]. eexists _, _, _, _, _, _, _. split; [done|].
    split; [apply PushLine_edits; by right|]. split; [exact Hs'|]. split; [done|]. split; [done|].
    by apply push_minus.
  - destruct (drop_cons_lookup _ _ _ _ Hl) as [-> Hl'].
    destruct (drop_cons_lookup _ _ _ _ Hr) as [-> Hr']. cbn [mbind option_bind].
    edit_decides. cbn [mbind option_bind]. eexists _, _, _, _, _, _, _. split; [done|].
    split; [apply PushLine_edits; by right|]. split; [exact Hs'|]. split; [done|]. split; [done|].
    by apply push_plus, push_minus.
Qed.

Lemma hunk_loop_progress e es l_i r_i h l r ls rs res :
  0 < context → e ≠ kMatch → script (e :: es) ls rs →
  drop l_i left_ = ls → drop r_i right_ = rs → hunk_ok h l r →
  hunk_loop left_ right_ context (e :: es) l_i r_i 0 h = Some res →
  has_edits res.2 = true ∧ length res.1.1.1 <= length es.
Proof.
  intros Hc He Hs Hl Hr Hh E.
  destruct (hunk_loop_first e es l_i r_i h l r ls rs) as
    (l_i' & r_i' & h1 & l1 & r1 & ls' & rs' & E' & Hed & Hs' & Hl' & Hr' & Hh'); [done..|].
  rewrite E' in E.
  destruct (hunk_loop_ok es l_i' r_i' 0 h1 l1 r1 ls' rs' Hs' Hl' Hr' Hh')
    as (es' & h' & ? & ? & ? & ? & E'' & _ & _ & _ & _ & _ & _ & Hed' & Hle).
  rewrite E'' in E. injection E as <-. split; [by apply Hed'|done].
Qed.

(** A context can always be pushed. *)
Lemma push_context same ls l_i p a b :
  drop l_i left_ = same ++ ls → same ≠ [] → p <= l_i + length same →
  ∃ h', push_prefix left_ p (l_i + length same) (new_hunk a b) = Some h' ∧ has_edits h' = false.
Proof.
  intros Hd Hne Hp. pose proof (f_equal length Hd) as Hlen.
  rewrite length_drop, length_app in Hlen. destruct same as [|x same]; [done|]. simpl length in *.
  destruct (push_prefix_ok (new_hunk a b) [] [] (take p (drop (l_i + S (length same) - p) left_)) p
    (l_i + S (length same))) as (h' & E & _ & _ & He); [apply new_hunk_ok| | |done|by exists h'].
  - eexists. symmetry. apply take_drop.
  - rewrite length_take, length_drop. lia.
Qed.

Lemma matches_drop es : matches (drop (matches es) es) = 0.
Proof. induction es as [|[] es IH]; simpl; auto. Qed.

(** The context in front of a hunk lies behind the hunk before it. *)
Lemma diff_loop_ok fuel es l_i r_i ls rs :
  0 < context → length es < fuel → drop l_i left_ = ls → drop r_i right_ = rs →
  script es ls rs → far es ∨ (l_i = 0 ∧ r_i = 0) →
  ∃ hunks, diff_loop left_ right_ context fuel es l_i r_i = Some hunks ∧ applies l_i r_i ls rs hunks.
Proof.
  intros Hc. revert es l_i r_i ls rs. induction fuel as [|fuel IH]; intros es l_i r_i ls rs Hf Hl Hr Hs Hfar;
    [lia|].
  cbn [diff_loop]. destruct es as [|e0 es0] eqn:Hes.
  { exists []. split; [done|]. inversion Hs. constructor. }
  assert (es ≠ []) as Hnonempty by (by rewrite Hes). rewrite <- Hes in *. clear Hes e0 es0.
  destruct (script_matches es ls rs Hs) as (same & ls' & rs' & -> & -> & Hsame & Hs').
  set (k := matches es) in *.
  assert (drop (l_i + k) left_ = ls') as Hl' by (by rewrite <- drop_drop, Hl, <- Hsame, drop_app_length).
  assert (drop (r_i + k) right_ = rs') as Hr' by (by rewrite <- drop_drop, Hr, <- Hsame, drop_app_length).
  destruct (decide (k = length es)) as [Hk|Hk].
  - (* no edit is left *)
    assert (drop k es = []) as Hnil by (apply drop_ge; lia). rewrite Hnil in *.
    assert (ls' = [] ∧ rs' = []) as [-> ->] by by inversion Hs'.
    rewrite !app_nil_r in *.
    destruct (push_context same [] l_i ((l_i + k) `min` context) (l_i + k - (l_i + k) `min` context + 1)
      (r_i + k - (l_i + k) `min` context + 1)) as (h' & E & He).
    { by rewrite app_nil_r, Hl. }
    { intros ->. simpl in Hsame. destruct es; [done|simpl in *; lia]. }
    { rewrite Hsame. apply Nat.le_min_l. }
    rewrite Hsame in E. rewrite E. cbn [mbind option_bind hunk_loop]. rewrite He.
    exists []. split; [done|constructor].
  - assert ((l_i + k) `min` context <= k) as Hp
      by (unfold far in Hfar; fold k in Hfar; lia).
    set (p := (l_i + k) `min` context) in *. pose proof (matches_le es) as Hkle. fold k in Hkle.
    assert (∃ gap ctx, same = gap ++ ctx ∧ length gap = k - p ∧ length ctx = p)
      as (gap & ctx & -> & Hgap & Hctx).
    { exists (take (k - p) same), (drop (k - p) same). rewrite take_drop, length_take, length_drop.
      split_and!; [done|lia|lia]. }
    destruct (push_prefix_ok (new_hunk (l_i + k - p + 1) (r_i + k - p + 1)) [] [] ctx p (l_i + k))
      as (h0 & -> & Hh0 & Hst0 & _); [apply new_hunk_ok| |done|lia|].
    { exists ls'. replace (l_i + k - p) with (l_i + length gap) by lia.
      by rewrite <- drop_drop, Hl, <- (assoc_L (++)), drop_app_length. }
    cbn [mbind option_bind app] in Hh0 |- *.
    destruct (drop k es) as [|e es'] eqn:Hdrop.
    { apply (f_equal length) in Hdrop. rewrite length_drop in Hdrop. simpl in Hdrop. lia. }
    assert (e ≠ kMatch) as He.
    { intros ->. pose proof (matches_drop es) as H. fold k in H. by rewrite Hdrop in H. }
    destruct (hunk_loop_ok (e :: es') (l_i + k) (r_i + k) 0 h0 ctx ctx ls' rs' Hs' Hl' Hr' Hh0)
      as (es'' & h' & l1 & r1 & l'' & r'' & E & Hl1 & Hr1 & Hs'' & Hf'' & Hh' & Hst & _ & _).
    pose proof (hunk_loop_progress e es' (l_i + k) (r_i + k) h0 ctx ctx ls' rs' _
      Hc He Hs' Hl' Hr' Hh0 E) as [Hed Hle].
    rewrite E. cbn [mbind option_bind]. cbn [fst snd] in Hed, Hle. rewrite Hed. cbn [negb].
    assert (length es = k + S (length es')) as Hlen
      by (rewrite <- (take_drop k es), length_app, Hdrop, length_take; simpl; lia).
    destruct (IH es'' (l_i + k + length l1) (r_i + k + length r1) l'' r'') as (hunks & -> & Ha);
      [lia|by rewrite <- drop_drop, Hl1, drop_app_length|by rewrite <- drop_drop, Hr1, drop_app_length
      |done|by left|].
    cbn [mbind option_bind]. exists (h' :: hunks). split; [done|].
    rewrite Hl1 in Hl'. rewrite Hr1 in Hr'. subst ls' rs'.
    pose proof (hk_left _ _ _ Hh') as HL. pose proof (hk_right _ _ _ Hh') as HR.
    rewrite <- !(assoc_L (++)), !(assoc_L (++) ctx), <- HL, <- HR.
    apply applies_hunk; [|by rewrite HL, HR|done|].
    + rewrite Hst, Hst0. unfold starts, new_hunk. simpl. f_equal; lia.
    + rewrite HL, HR, !length_app, Hgap, Hctx.
      replace (l_i + (k - p) + (p + length l1)) with (l_i + k + length l1) by lia.
      by replace (r_i + (k - p) + (p + length r1)) with (r_i + k + length r1) by lia.
Qed.
End DiffLoops.

(** What the header of a hunk says is what the hunk holds. *)
Definition well_numbered (h : Hunk) : Prop :=
  has_edits h = true ∧ length (left_lines h) = h.(removes_) + h.(common_) ∧
  length (right_lines h) = h.(adds_) + h.(common_).

Lemma applies_numbered i j l r hunks : applies i j l r hunks → Forall well_numbered hunks.
Proof.
  induction 1 as [|i j gap h hunks l r _ Hok He _ IH]; constructor; [|done].
  split; [done|]. split; [by apply Hok|by apply Hok].
Qed.

Lemma unified_diff_ok ls rs context :
  0 < context →
  ∃ hunks, diff_hunks ls rs context = Some hunks ∧
    CreateUnifiedDiff ls rs context = Some (foldr (λ h text, PrintTo h +:+ text) "" hunks) ∧
    patch left_start_ left_lines right_lines 0 ls hunks = Some rs ∧
    patch right_start_ right_lines left_lines 0 rs hunks = Some ls ∧
    Forall well_numbered hunks.
Proof.
  intros Hc. unfold CreateUnifiedDiff, diff_hunks.
  destruct (string_edits_ok ls rs) as (es & -> & Hs). cbn [mbind option_bind].
  destruct (diff_loop_ok ls rs context (S (length es)) es 0 0 ls rs) as (hunks & -> & Ha);
    [done|lia|done|done|done|by right|].
  destruct (applies_patch _ _ _ _ _ Ha) as [H1 H2]. exists hunks.
  split; [done|]. split; [done|]. split; [done|]. split; [done|]. by eapply applies_numbered.
Qed.

(** A unified diff is a diff: [CreateUnifiedDiff] always comes to an end inside
    the lists, and its hunks, applied at their line numbers to the left list, give
    the right one, and applied backwards to the right one the left one; each hunk
    has an edit, and its header counts its lines.  The context has to be one line
    at least. *)
Theorem CreateUnifiedDiff_patches ls rs context :
  0 < context →
  ∃ hunks, diff_hunks ls rs context = Some hunks ∧
    CreateUnifiedDiff ls rs context = Some (foldr (λ h text, PrintTo h +:+ text) "" hunks) ∧
    patch left_start_ left_lines right_lines 0 ls hunks = Some rs ∧
    patch right_start_ right_lines left_lines 0 rs hunks = Some ls ∧
    Forall well_numbered hunks.
Proof. apply unified_diff_ok. Qed.

Lemma CreateUnifiedDiff_patches_witness :
  ∃ hunks, diff_hunks ["a"; "b"; "c"; "d"; "e"; "f"; "g"] ["b"; "c"; "d"; "e"; "x"; "g"] 2 = Some hunks ∧
    CreateUnifiedDiff ["a"; "b"; "c"; "d"; "e"; "f"; "g"] ["b"; "c"; "d"; "e"; "x"; "g"] 2
      = Some (foldr (λ h text, PrintTo h +:+ text) "" hunks) ∧
    patch left_start_ left_lines right_lines 0 ["a"; "b"; "c"; "d"; "e"; "f"; "g"] hunks
      = Some ["b"; "c"; "d"; "e"; "x"; "g"] ∧
    patch right_start_ right_lines left_lines 0 ["b"; "c"; "d"; "e"; "x"; "g"] hunks
      = Some ["a"; "b"; "c"; "d"; "e"; "f"; "g"] ∧
    Forall well_numbered hunks.
Proof. apply CreateUnifiedDiff_patches. lia. Defined.

(** With a context of no lines there is no diff at all: every hunk ends before its
    first edit. *)
Theorem CreateUnifiedDiff_without_context ls rs : CreateUnifiedDiff ls rs 0 = Some "".
Proof.
  unfold CreateUnifiedDiff, diff_hunks. destruct (string_edits_ok ls rs) as (es & -> & _).
  cbn [mbind option_bind diff_loop]. destruct es as [|e es]; [done|].
  rewrite Nat.min_0_r. cbn [push_prefix mbind option_bind].
  destruct (drop (matches (e :: es)) (e :: es)) as [|e' es']; [done|].
  cbn [hunk_loop Nat.leb andb]. rewrite orb_true_r. done.
Qed.

(** The texts of the unit test. *)
Definition one_per_char (s : string) : list string :=
  (λ c, String c "") <$> String.list_ascii_of_string s.
Fixpoint join (ls : list string) : string :=
  match ls with [] => "" | l :: ls => l +:+ nl +:+ join ls end.

Example CreateUnifiedDiff_unittest :
  CreateUnifiedDiff (one_per_char "ABCDEFGHIJKL") (one_per_char "BCDCDEFGJKLJK") 2
  = Some (join ["@@ -1,4 +1,5 @@"; "-A"; " B"; "+C"; "+D"; " C"; " D"; "@@ -6,7 +7,7 @@"; " F"; " G";
                "-H"; "-I"; " J"; " K"; " L"; "+J"; "+K"]) ∧
  CreateUnifiedDiff (one_per_char "AAAABCCCC") (one_per_char "ABABCDCDC") 2
  = Some (join ["@@ -1,9 +1,9 @@"; "-A"; " A"; "-A"; "+B"; " A"; " B"; " C"; "+D"; " C"; "-C"; "+D"; " C"]) ∧
  CreateUnifiedDiff (one_per_char "ABCDE") (one_per_char "ABCDE") 2 = Some "".
Proof. vm_compute. auto. Qed.
