(* ===== verification/Cardinality.v ===== *)
(** How often a mock function may be called: the cardinalities of Google Mock
    ([src/lib/googlemock/src/gmock-cardinalities.cc] and
    [include/gmock/gmock-cardinalities.h]).

    A [Cardinality] is a pointer to an object of the interface
    [CardinalityInterface], so it is the record of that object's operations;
    the laws the rest of Google Mock relies on are a class, and the cardinality
    the library builds itself, [Between], is an instance of it. *)

From S2P Require Import Prelude Strings.
From stdpp Require Import base list strings.
From Stdlib Require Import ZArith Ascii Lia.

Open Scope Z_scope.

(** * [class CardinalityInterface], [class Cardinality] *)

Record Cardinality := mkCardinality {
  ConservativeLowerBound : Z;
  ConservativeUpperBound : Z;
  IsSatisfiedByCallCount : Z → bool;
  IsSaturatedByCallCount : Z → bool;
  DescribeTo : string
}.

Definition IsOverSaturatedByCallCount (c : Cardinality) (call_count : Z) : bool :=
  c.(IsSaturatedByCallCount) call_count && negb (c.(IsSatisfiedByCallCount) call_count).

(** * [class BetweenCardinalityImpl] *)

Definition INT_MAX : Z := I32_MAX.

(** The members [min_] and [max_] the constructor sets. *)
Definition between_min (min max : Z) : Z := if min >=? 0 then min else 0.
Definition between_max (min max : Z) : Z :=
  let min_ := between_min min max in if max >=? min_ then max else min_.

(** The non-fatal failure the constructor reports, if any. *)
Definition between_complaint (min max : Z) : option string :=
  if min <? 0 then
    Some ("The invocation lower bound must be >= 0, but is actually " +:+
          to_string min +:+ ".")
  else if max <? 0 then
    Some ("The invocation upper bound must be >= 0, but is actually " +:+
          to_string max +:+ ".")
  else if min >? max then
    Some ("The invocation upper bound (" +:+ to_string max +:+
          ") must be >= the invocation lower bound (" +:+ to_string min +:+ ").")
  else None.

Definition FormatTimes (n : Z) : string :=
  if n =? 1 then "once" else if n =? 2 then "twice" else to_string n +:+ " times".

(** [BetweenCardinalityImpl::DescribeTo], on the members of the object. *)
Definition between_describe (min_ max_ : Z) : string :=
  if min_ =? 0 then
    if max_ =? 0 then "never called"
    else if max_ =? INT_MAX then "called any number of times"
    else "called at most " +:+ FormatTimes max_
  else if min_ =? max_ then "called " +:+ FormatTimes min_
  else if max_ =? INT_MAX then "called at least " +:+ FormatTimes min_
  else "called between " +:+ to_string min_ +:+ " and " +:+ to_string max_ +:+ " times".

Definition Between (min max : Z) : Cardinality :=
  let min_ := between_min min max in
  let max_ := between_max min max in
  {| ConservativeLowerBound := min_;
     ConservativeUpperBound := max_;
     IsSatisfiedByCallCount := λ call_count, (min_ <=? call_count) && (call_count <=? max_);
     IsSaturatedByCallCount := λ call_count, call_count >=? max_;
     DescribeTo := between_describe min_ max_ |}.

Definition AtLeast (n : Z) : Cardinality := Between n INT_MAX.
Definition AtMost (n : Z) : Cardinality := Between 0 n.
Definition AnyNumber : Cardinality := AtLeast 0.
Definition Exactly (n : Z) : Cardinality := Between n n.

Definition DescribeActualCallCountTo (actual_call_count : Z) : string :=
  if actual_call_count >? 0 then "called " +:+ FormatTimes actual_call_count
  else "never called".

(** * What the users of a cardinality rely on *)

(** A saturated cardinality allows no further call, and the call that
    saturates it is still allowed, as is no call where none may come. *)
Class Counting (c : Cardinality) : Prop := {
  satisfied_at_start : c.(IsSaturatedByCallCount) 0 = true → c.(IsSatisfiedByCallCount) 0 = true;
  saturated_next n : 0 <= n → c.(IsSaturatedByCallCount) n = true →
    c.(IsSaturatedByCallCount) (n + 1) = true ∧ c.(IsSatisfiedByCallCount) (n + 1) = false;
  satisfied_when_saturating n : 0 <= n → c.(IsSaturatedByCallCount) n = false →
    c.(IsSaturatedByCallCount) (n + 1) = true → c.(IsSatisfiedByCallCount) (n + 1) = true
}.

Lemma between_bounds min max : 0 <= between_min min max <= between_max min max.
Proof. unfold between_max, between_min. by_cases; lia. Qed.

#[export] Instance Between_counting min max : Counting (Between min max).
Proof. pose proof (between_bounds min max). split; cbn; intros; lia. Qed.
#[export] Instance Exactly_counting n : Counting (Exactly n) := Between_counting n n.
#[export] Instance AtLeast_counting n : Counting (AtLeast n) := Between_counting n INT_MAX.
#[export] Instance AtMost_counting n : Counting (AtMost n) := Between_counting 0 n.

Lemma over_saturated_next c n : Counting c → 0 <= n →
  c.(IsSaturatedByCallCount) n = true → IsOverSaturatedByCallCount c (n + 1) = true.
Proof.
  intros ? Hn Hs. destruct (saturated_next n Hn Hs) as [H1 H2].
  unfold IsOverSaturatedByCallCount. by rewrite H1, H2.
Qed.

(** The cardinality of [Between]: what it allows is what it was given, and it
    complains exactly of bounds that no count can be between. *)
Theorem Between_allows min max n : between_complaint min max = None →
  ((Between min max).(IsSatisfiedByCallCount) n = true ↔ min <= n <= max) ∧
  (IsOverSaturatedByCallCount (Between min max) n = true ↔ max < n).
Proof.
  unfold between_complaint, IsOverSaturatedByCallCount, Between, between_max, between_min; cbn.
  intros H. repeat case_match; simplify_eq; lia.
Qed.
Lemma Between_allows_witness : (AtMost 2).(IsSatisfiedByCallCount) 2 = true.
Proof. apply (Between_allows 0 2 2); [reflexivity|lia]. Defined.

(** * A description says which cardinality it is of *)

Lemma to_string_head n : 0 <= n → ∃ c s, to_string n = String c s ∧ is_digit c = true.
Proof.
  intros Hn. pose proof (decimal_nonempty 9 n Hn) as Hd.
  unfold to_string. rewrite (proj2 (Z.ltb_ge n 0)) by done.
  destruct (decimal 10 n "") as [|c s]; [done|]. by exists c, s.
Qed.

(** What the words after "called" begin with. *)
Definition counted (s : string) : Prop := ∃ c s', s = String c s' ∧ c ≠ "a"%char ∧ c ≠ "b"%char.

Lemma FormatTimes_counted n : 0 <= n → counted (FormatTimes n).
Proof.
  intros Hn. unfold FormatTimes. destruct (n =? 1); [by eexists _, _|].
  destruct (n =? 2); [by eexists _, _|].
  destruct (to_string_head n Hn) as (c & s & -> & Hc).
  eexists c, _. split; [done|]. split; intros ->; done.
Qed.

Lemma FormatTimes_inj n m : is_i32 n → is_i32 m → 0 <= n → 0 <= m →
  FormatTimes n = FormatTimes m → n = m.
Proof.
  intros Hn Hm Hn0 Hm0. unfold FormatTimes.
  destruct (to_string_head n Hn0) as (c & s & E1 & H1), (to_string_head m Hm0) as (d & t & E2 & H2).
  destruct (Z.eqb_spec n 1), (Z.eqb_spec n 2), (Z.eqb_spec m 1), (Z.eqb_spec m 2); subst; try done;
    rewrite ?E1, ?E2; intros E; try (exfalso; injection E as <- _; done); try (exfalso; injection E as -> _; done).
  assert (read_int (to_string n +:+ " times") = Some (n, " times")) as R1 by by apply read_int_to_string.
  assert (read_int (to_string m +:+ " times") = Some (m, " times")) as R2 by by apply read_int_to_string.
  rewrite E1 in R1. rewrite E2 in R2. cbn in E. rewrite E in R1. rewrite R2 in R1. congruence.
Qed.

Lemma between_inj a b c d : is_i32 a → is_i32 b → is_i32 c → is_i32 d →
  to_string a +:+ " and " +:+ to_string b +:+ " times" =
  to_string c +:+ " and " +:+ to_string d +:+ " times" → a = c ∧ b = d.
Proof.
  intros Ha Hb Hc Hd E.
  pose proof (read_int_to_string a (" and " +:+ to_string b +:+ " times") Ha eq_refl) as R1.
  pose proof (read_int_to_string c (" and " +:+ to_string d +:+ " times") Hc eq_refl) as R2.
  rewrite E, R2 in R1. injection R1 as <- E'. split; [done|].
  pose proof (read_int_to_string b " times" Hb eq_refl) as R3.
  pose proof (read_int_to_string d " times" Hd eq_refl) as R4.
  assert (to_string b +:+ " times" = to_string d +:+ " times") as E'' by (symmetry; exact E').
  rewrite E'' in R3. congruence.
Qed.

(** What comes after the word "called". *)
Definition rest_of_description (a b : Z) : string :=
  if a =? 0 then if b =? INT_MAX then "any number of times" else "at most " +:+ FormatTimes b
  else if a =? b then FormatTimes a
  else if b =? INT_MAX then "at least " +:+ FormatTimes a
  else "between " +:+ to_string a +:+ " and " +:+ to_string b +:+ " times".

Lemma between_describe_rest a b : ¬ (a = 0 ∧ b = 0) →
  between_describe a b = "called " +:+ rest_of_description a b.
Proof.
  intros H. unfold between_describe, rest_of_description.
  destruct (Z.eqb_spec a 0), (Z.eqb_spec b 0); try tauto; by_cases.
Qed.

Lemma counted_not s c t : counted s → c = "a"%char ∨ c = "b"%char → s ≠ String c t.
Proof. intros (d & s' & -> & Ha & Hb) H [= -> ->]. by destruct H. Qed.

Lemma rest_inj a b c d : is_i32 a → is_i32 b → is_i32 c → is_i32 d →
  0 <= a <= b → 0 <= c <= d → rest_of_description a b = rest_of_description c d → a = c ∧ b = d.
Proof.
  intros Ha Hb Hc Hd Hab Hcd. unfold rest_of_description.
  pose proof (λ x t, counted_not _ x t (FormatTimes_counted a ltac:(lia))) as Na.
  pose proof (λ x t, counted_not _ x t (FormatTimes_counted c ltac:(lia))) as Nc.
  destruct (Z.eqb_spec a 0), (Z.eqb_spec b INT_MAX), (Z.eqb_spec a b),
    (Z.eqb_spec c 0), (Z.eqb_spec d INT_MAX), (Z.eqb_spec c d); try lia; intros E;
    try discriminate E; try (by apply Na in E; auto); try (by symmetry in E; apply Nc in E; auto);
    try (by apply (inj (String.append _)) in E; apply FormatTimes_inj in E; done || lia);
    try (by apply FormatTimes_inj in E; done || lia).
  apply (inj (String.append _)) in E. by apply between_inj in E.
Qed.

Lemma describe_inj a b c d : is_i32 a → is_i32 b → is_i32 c → is_i32 d →
  0 <= a <= b → 0 <= c <= d → between_describe a b = between_describe c d → a = c ∧ b = d.
Proof.
  intros Ha Hb Hc Hd Hab Hcd E.
  destruct (decide (a = 0 ∧ b = 0)) as [[-> ->]|N], (decide (c = 0 ∧ d = 0)) as [[-> ->]|N'].
  - done.
  - rewrite (between_describe_rest c d) in E by done. discriminate E.
  - rewrite (between_describe_rest a b) in E by done. discriminate E.
  - rewrite !between_describe_rest in E by done. apply (inj (String.append _)) in E.
    by apply rest_inj in E.
Qed.

(** The description of a cardinality determines it: two cardinalities
    described by the same words allow the same numbers of calls, "any number"
    and the bound [INT_MAX] included. *)
Theorem descriptions_are_distinct min max min' max' :
  is_i32 min → is_i32 max → is_i32 min' → is_i32 max' →
  (Between min max).(DescribeTo) = (Between min' max').(DescribeTo) →
  ∀ n, (Between min max).(IsSatisfiedByCallCount) n = (Between min' max').(IsSatisfiedByCallCount) n.
Proof.
  intros H1 H2 H3 H4.
  assert (∀ a b, is_i32 a → is_i32 b → is_i32 (between_min a b) ∧ is_i32 (between_max a b)) as Hi.
  { intros a b. unfold between_max, between_min, is_i32, I32_MAX. by_cases; lia. }
  destruct (Hi _ _ H1 H2) as [Ha Hb], (Hi _ _ H3 H4) as [Hc Hd].
  pose proof (between_bounds min max). pose proof (between_bounds min' max').
  cbn [DescribeTo IsSatisfiedByCallCount Between].
  set (a := between_min min max) in *. set (b := between_max min max) in *.
  set (c := between_min min' max') in *. set (d := between_max min' max') in *.
  intros E n. enough (a = c ∧ b = d) as [-> ->] by done. clear n.
  revert E. apply describe_inj; done || lia.
Qed.
