(* ===== verification/Expectation.v ===== *)
(** An expectation of Google Mock: what [EXPECT_CALL] and its clauses record,
    and how expectations depend on each other
    ([src/lib/googlemock/src/gmock-spec-builders.cc], classes [ExpectationBase]
    and [TypedExpectation] of [include/gmock/gmock-spec-builders.h]).

    Expectations live in a heap, a list indexed by the order they were made in,
    and an [Expectation] is a handle: the index, or [None] for the handle that
    references nothing.  A matcher is a function of the arguments together with
    its explanation; an action is a value of the type [Action], and [None] is
    the action of [DoDefault()].  A function that reports or logs returns the
    reports with its result. *)

From S2P Require Import Prelude Strings Cardinality.
From stdpp Require Import base list strings.
From Stdlib Require Import ZArith Ascii.

Open Scope Z_scope.

(** * Reports *)

Inductive LogSeverity := kInfo | kWarning.

(** A failure reported to Google Test, fatal or not, at a place; or a message
    handed to [Log]. *)
Inductive Report :=
  | Failure (fatal : bool) (file : option string) (line : Z) (message : string)
  | Logged (severity : LogSeverity) (message : string).

(** [FormatFileLocation], for a file that is known. *)
Definition FormatFileLocation (file : string) (line : Z) : string :=
  if line <? 0 then file +:+ ":" else file +:+ ":" +:+ to_string line +:+ ":".

Definition Expect (condition : bool) (file : option string) (line : Z) (msg : string) : list Report :=
  if condition then [] else [Failure false file line msg].

Definition endl : string := String "010"%char "".

(** * Handles *)

Notation Expectation := (option nat).

(** [std::set<Expectation>]: distinct handles.  The set is ordered by the
    addresses of the expectations, which is taken to be the order of
    insertion; only the order of a printed list depends on it. *)
Notation ExpectationSet := (list Expectation).
Definition insert_handle (e : Expectation) (s : ExpectationSet) : ExpectationSet :=
  if decide (e ∈ s) then s else s ++ [e].

(** * The clauses of [EXPECT_CALL] *)

Inductive Clause :=
  | kNone
  | kWith
  | kTimes
  | kInSequence
  | kAfter
  | kWillOnce
  | kWillRepeatedly
  | kRetiresOnSaturation.

(** The number of a member of the enum. *)
Definition clause_number (c : Clause) : Z :=
  match c with
  | kNone => 0
  | kWith => 1
  | kTimes => 2
  | kInSequence => 3
  | kAfter => 4
  | kWillOnce => 5
  | kWillRepeatedly => 6
  | kRetiresOnSaturation => 7
  end.

#[export] Instance Clause_eq_dec : EqDecision Clause.
Proof. solve_decision. Defined.

Section Expectations.
Context {Args Action : Type}.

(** The matchers of the arguments one by one, and one for the whole tuple. *)
Record ArgumentMatcherTuple := mkMatchers {
  TupleMatches : Args → bool;
  ExplainMatchFailureTupleTo : Args → string
}.
Record Matcher := mkMatcher {
  MatchAndExplain : Args → bool * string;
  describe_matcher : string
}.
Definition matcher_Matches (m : Matcher) (args : Args) : bool := fst (m.(MatchAndExplain) args).

(** [A<const ArgumentTuple&>()]. *)
Definition matches_anything : Matcher := mkMatcher (λ _, (true, "")) "is anything".

Record TypedExpectation := mkExpectation {
  owner_ : nat;
  file_ : string;
  line_ : Z;
  source_text_ : string;
  cardinality_specified_ : bool;
  cardinality_ : Cardinality;
  immediate_prerequisites_ : ExpectationSet;
  call_count_ : Z;
  retired_ : bool;
  untyped_actions_ : list (option Action);
  extra_matcher_specified_ : bool;
  repeated_action_specified_ : bool;
  retires_on_saturation_ : bool;
  last_clause_ : Clause;
  action_count_checked_ : bool;
  matchers_ : ArgumentMatcherTuple;
  extra_matcher_ : Matcher;
  repeated_action_ : option Action
}.

Definition set_last_clause (c : Clause) (e : TypedExpectation) : TypedExpectation :=
  mkExpectation
    e.(owner_) e.(file_) e.(line_) e.(source_text_) e.(cardinality_specified_)
    e.(cardinality_) e.(immediate_prerequisites_) e.(call_count_) e.(retired_)
    e.(untyped_actions_) e.(extra_matcher_specified_) e.(repeated_action_specified_)
    e.(retires_on_saturation_) c e.(action_count_checked_) e.(matchers_)
    e.(extra_matcher_) e.(repeated_action_).

Definition set_checked (e : TypedExpectation) : TypedExpectation :=
  mkExpectation
    e.(owner_) e.(file_) e.(line_) e.(source_text_) e.(cardinality_specified_)
    e.(cardinality_) e.(immediate_prerequisites_) e.(call_count_) e.(retired_)
    e.(untyped_actions_) e.(extra_matcher_specified_) e.(repeated_action_specified_)
    e.(retires_on_saturation_) e.(last_clause_) true e.(matchers_) e.(extra_matcher_)
    e.(repeated_action_).

Definition set_extra_matcher (m : Matcher) (e : TypedExpectation) : TypedExpectation :=
  mkExpectation
    e.(owner_) e.(file_) e.(line_) e.(source_text_) e.(cardinality_specified_)
    e.(cardinality_) e.(immediate_prerequisites_) e.(call_count_) e.(retired_)
    e.(untyped_actions_) true e.(repeated_action_specified_) e.(retires_on_saturation_)
    e.(last_clause_) e.(action_count_checked_) e.(matchers_) m e.(repeated_action_).

Definition set_cardinality (c : Cardinality) (e : TypedExpectation) : TypedExpectation :=
  mkExpectation
    e.(owner_) e.(file_) e.(line_) e.(source_text_) e.(cardinality_specified_) c
    e.(immediate_prerequisites_) e.(call_count_) e.(retired_) e.(untyped_actions_)
    e.(extra_matcher_specified_) e.(repeated_action_specified_) e.(retires_on_saturation_)
    e.(last_clause_) e.(action_count_checked_) e.(matchers_) e.(extra_matcher_)
    e.(repeated_action_).

Definition SpecifyCardinality (a_cardinality : Cardinality) (e : TypedExpectation) : TypedExpectation :=
  mkExpectation
    e.(owner_) e.(file_) e.(line_) e.(source_text_) true a_cardinality
    e.(immediate_prerequisites_) e.(call_count_) e.(retired_) e.(untyped_actions_)
    e.(extra_matcher_specified_) e.(repeated_action_specified_) e.(retires_on_saturation_)
    e.(last_clause_) e.(action_count_checked_) e.(matchers_) e.(extra_matcher_)
    e.(repeated_action_).

Definition set_prerequisites (s : ExpectationSet) (e : TypedExpectation) : TypedExpectation :=
  mkExpectation
    e.(owner_) e.(file_) e.(line_) e.(source_text_) e.(cardinality_specified_)
    e.(cardinality_) s e.(call_count_) e.(retired_) e.(untyped_actions_)
    e.(extra_matcher_specified_) e.(repeated_action_specified_) e.(retires_on_saturation_)
    e.(last_clause_) e.(action_count_checked_) e.(matchers_) e.(extra_matcher_)
    e.(repeated_action_).

Definition push_action (a : option Action) (e : TypedExpectation) : TypedExpectation :=
  mkExpectation
    e.(owner_) e.(file_) e.(line_) e.(source_text_) e.(cardinality_specified_)
    e.(cardinality_) e.(immediate_prerequisites_) e.(call_count_) e.(retired_)
    (e.(untyped_actions_) ++ [a]) e.(extra_matcher_specified_)
    e.(repeated_action_specified_) e.(retires_on_saturation_) e.(last_clause_)
    e.(action_count_checked_) e.(matchers_) e.(extra_matcher_) e.(repeated_action_).

Definition set_repeated_action (a : option Action) (e : TypedExpectation) : TypedExpectation :=
  mkExpectation
    e.(owner_) e.(file_) e.(line_) e.(source_text_) e.(cardinality_specified_)
    e.(cardinality_) e.(immediate_prerequisites_) e.(call_count_) e.(retired_)
    e.(untyped_actions_) e.(extra_matcher_specified_) true e.(retires_on_saturation_)
    e.(last_clause_) e.(action_count_checked_) e.(matchers_) e.(extra_matcher_) a.

Definition set_retires (e : TypedExpectation) : TypedExpectation :=
  mkExpectation
    e.(owner_) e.(file_) e.(line_) e.(source_text_) e.(cardinality_specified_)
    e.(cardinality_) e.(immediate_prerequisites_) e.(call_count_) e.(retired_)
    e.(untyped_actions_) e.(extra_matcher_specified_) e.(repeated_action_specified_) true
    e.(last_clause_) e.(action_count_checked_) e.(matchers_) e.(extra_matcher_)
    e.(repeated_action_).

Definition Retire (e : TypedExpectation) : TypedExpectation :=
  mkExpectation
    e.(owner_) e.(file_) e.(line_) e.(source_text_) e.(cardinality_specified_)
    e.(cardinality_) e.(immediate_prerequisites_) e.(call_count_) true
    e.(untyped_actions_) e.(extra_matcher_specified_) e.(repeated_action_specified_)
    e.(retires_on_saturation_) e.(last_clause_) e.(action_count_checked_) e.(matchers_)
    e.(extra_matcher_) e.(repeated_action_).

Definition set_call_count (n : Z) (e : TypedExpectation) : TypedExpectation :=
  mkExpectation
    e.(owner_) e.(file_) e.(line_) e.(source_text_) e.(cardinality_specified_)
    e.(cardinality_) e.(immediate_prerequisites_) n e.(retired_) e.(untyped_actions_)
    e.(extra_matcher_specified_) e.(repeated_action_specified_) e.(retires_on_saturation_)
    e.(last_clause_) e.(action_count_checked_) e.(matchers_) e.(extra_matcher_)
    e.(repeated_action_).


(** The constructors [TypedExpectation] and [ExpectationBase]. *)
Definition new_expectation (owner : nat) (a_file : string) (a_line : Z) (a_source_text : string)
    (m : ArgumentMatcherTuple) : TypedExpectation :=
  mkExpectation owner a_file a_line a_source_text false (Exactly 1) [] 0 false [] false false false
    kNone false m matches_anything None.

Definition ExpectSpecProperty (e : TypedExpectation) (property : bool) (failure_message : string) :
    list Report :=
  Expect property (Some e.(file_)) e.(line_) failure_message.

Definition DescribeLocationTo (e : TypedExpectation) : string :=
  FormatFileLocation e.(file_) e.(line_) +:+ " ".

(** [CheckActionCountIfNotDone]. *)
Definition CheckActionCountIfNotDone (e : TypedExpectation) : TypedExpectation * list Report :=
  if e.(action_count_checked_) then (e, []) else
  let e := set_checked e in
  if negb e.(cardinality_specified_) then (e, []) else
  let action_count := Z.of_nat (length e.(untyped_actions_)) in
  let upper_bound := e.(cardinality_).(ConservativeUpperBound) in
  let lower_bound := e.(cardinality_).(ConservativeLowerBound) in
  let complain (too_many : bool) :=
    Logged kWarning
      (DescribeLocationTo e +:+ "Too " +:+ (if too_many then "many" else "few") +:+
       " actions specified in " +:+ e.(source_text_) +:+ "..." +:+ endl +:+
       "Expected to be " +:+ e.(cardinality_).(DescribeTo) +:+ ", but has " +:+
       (if too_many then "" else "only ") +:+ to_string action_count +:+ " WillOnce()" +:+
       (if action_count =? 1 then "" else "s") +:+
       (if e.(repeated_action_specified_) then " and a WillRepeatedly()" else "") +:+ ".") in
  if (action_count >? upper_bound) ||
     ((action_count =? upper_bound) && e.(repeated_action_specified_)) then
    (e, [complain true])
  else if (0 <? action_count) && (action_count <? lower_bound) &&
          negb e.(repeated_action_specified_) then
    (e, [complain false])
  else (e, []).

Definition With (m : Matcher) (e : TypedExpectation) : TypedExpectation * list Report :=
  let r :=
    if decide (e.(last_clause_) = kWith) then
      ExpectSpecProperty e false ".With() cannot appear more than once in an EXPECT_CALL()."
    else
      ExpectSpecProperty e (clause_number e.(last_clause_) <? clause_number kWith)
        ".With() must be the first clause in an EXPECT_CALL()." in
  (set_extra_matcher m (set_last_clause kWith e), r).

Definition Times (a_cardinality : Cardinality) (e : TypedExpectation) :
    TypedExpectation * list Report :=
  let r :=
    if decide (e.(last_clause_) = kTimes) then
      ExpectSpecProperty e false ".Times() cannot appear more than once in an EXPECT_CALL()."
    else
      ExpectSpecProperty e (clause_number e.(last_clause_) <? clause_number kTimes)
        ".Times() cannot appear after .InSequence(), .WillOnce(), .WillRepeatedly(), or .RetiresOnSaturation()." in
  (SpecifyCardinality a_cardinality (set_last_clause kTimes e), r).

(** [.InSequence(s)] as far as it concerns the expectation itself; the
    sequence is updated after it. *)
Definition begin_InSequence (e : TypedExpectation) : TypedExpectation * list Report :=
  (set_last_clause kInSequence e,
   ExpectSpecProperty e (clause_number e.(last_clause_) <=? clause_number kInSequence)
     ".InSequence() cannot appear after .After(), .WillOnce(), .WillRepeatedly(), or .RetiresOnSaturation().").

Definition After (s : ExpectationSet) (e : TypedExpectation) : TypedExpectation * list Report :=
  (set_prerequisites (foldl (λ ps h, insert_handle h ps) e.(immediate_prerequisites_) s)
     (set_last_clause kAfter e),
   ExpectSpecProperty e (clause_number e.(last_clause_) <=? clause_number kAfter)
     ".After() cannot appear after .WillOnce(), .WillRepeatedly(), or .RetiresOnSaturation().").

Definition WillOnce (action : option Action) (e : TypedExpectation) : TypedExpectation * list Report :=
  let r := ExpectSpecProperty e (clause_number e.(last_clause_) <=? clause_number kWillOnce)
             ".WillOnce() cannot appear after .WillRepeatedly() or .RetiresOnSaturation()." in
  let e := push_action action (set_last_clause kWillOnce e) in
  (if negb e.(cardinality_specified_)
   then set_cardinality (Exactly (Z.of_nat (length e.(untyped_actions_)))) e else e, r).

Definition WillRepeatedly (action : option Action) (e : TypedExpectation) :
    TypedExpectation * list Report :=
  let r :=
    if decide (e.(last_clause_) = kWillRepeatedly) then
      ExpectSpecProperty e false ".WillRepeatedly() cannot appear more than once in an EXPECT_CALL()."
    else
      ExpectSpecProperty e (clause_number e.(last_clause_) <? clause_number kWillRepeatedly)
        ".WillRepeatedly() cannot appear after .RetiresOnSaturation()." in
  let e := set_repeated_action action (set_last_clause kWillRepeatedly e) in
  let e := if negb e.(cardinality_specified_)
           then set_cardinality (AtLeast (Z.of_nat (length e.(untyped_actions_)))) e else e in
  let '(e, w) := CheckActionCountIfNotDone e in (e, r ++ w).

Definition RetiresOnSaturation (e : TypedExpectation) : TypedExpectation * list Report :=
  let r := ExpectSpecProperty e (clause_number e.(last_clause_) <? clause_number kRetiresOnSaturation)
             ".RetiresOnSaturation() cannot appear more than once." in
  let e := set_retires (set_last_clause kRetiresOnSaturation e) in
  let '(e, w) := CheckActionCountIfNotDone e in (e, r ++ w).

(** * The state of an expectation *)

Definition IsSatisfied (e : TypedExpectation) : bool :=
  e.(cardinality_).(IsSatisfiedByCallCount) e.(call_count_).
Definition IsSaturated (e : TypedExpectation) : bool :=
  e.(cardinality_).(IsSaturatedByCallCount) e.(call_count_).
Definition IsOverSaturated (e : TypedExpectation) : bool :=
  IsOverSaturatedByCallCount e.(cardinality_) e.(call_count_).

(** [call_count_++]: past [INT_MAX] the behaviour is undefined, [None]. *)
Definition IncrementCallCount (e : TypedExpectation) : option TypedExpectation :=
  if e.(call_count_) <? INT_MAX then Some (set_call_count (e.(call_count_) + 1) e) else None.

Definition DescribeCallCountTo (e : TypedExpectation) : string :=
  "         Expected: to be " +:+ e.(cardinality_).(DescribeTo) +:+ endl +:+
  "           Actual: " +:+ DescribeActualCallCountTo e.(call_count_) +:+ " - " +:+
  (if IsOverSaturated e then "over-saturated"
   else if IsSaturated e then "saturated"
   else if IsSatisfied e then "satisfied" else "unsatisfied") +:+ " and " +:+
  (if e.(retired_) then "retired" else "active").

Definition MaybeDescribeExtraMatcherTo (e : TypedExpectation) : string :=
  if e.(extra_matcher_specified_)
  then "    Expected args: " +:+ e.(extra_matcher_).(describe_matcher) +:+ endl else "".

Definition Matches (e : TypedExpectation) (args : Args) : bool :=
  e.(matchers_).(TupleMatches) args && matcher_Matches e.(extra_matcher_) args.

(** * Pre-requisites *)

#[local] Notation Heap := (list TypedExpectation).

(** The expectation a handle references; [None] where there is none to
    dereference. *)
Definition expectation_base (h : Heap) (p : Expectation) : option (nat * TypedExpectation) :=
  j ← p; e ← h !! j; Some (j, e).

(** The loop of [AllPrerequisitesAreSatisfied], where [rec] is the recursive
    call.  A null handle or a recursion without end is [None]. *)
Fixpoint each_satisfied (h : Heap) (rec : nat → option bool) (l : ExpectationSet) : option bool :=
  match l with
  | [] => Some true
  | p :: l =>
      '(j, e) ← expectation_base h p;
      if negb (IsSatisfied e) then Some false
      else b ← rec j; if negb b then Some false else each_satisfied h rec l
  end.
Fixpoint AllPrerequisitesAreSatisfied (fuel : nat) (h : Heap) (i : nat) : option bool :=
  match fuel with
  | O => None
  | S fuel =>
      e ← h !! i;
      each_satisfied h (AllPrerequisitesAreSatisfied fuel h) e.(immediate_prerequisites_)
  end.

(** [RetireAllPreRequisites]. *)
Fixpoint retire_each (rec : Heap → nat → option Heap) (l : ExpectationSet) (h : Heap) : option Heap :=
  match l with
  | [] => Some h
  | p :: l =>
      '(j, e) ← expectation_base h p;
      h ← (if negb e.(retired_) then h ← rec h j; Some (alter Retire j h) else Some h);
      retire_each rec l h
  end.
Fixpoint RetireAllPreRequisites (fuel : nat) (h : Heap) (i : nat) : option Heap :=
  match fuel with
  | O => None
  | S fuel =>
      e ← h !! i;
      if e.(retired_) then Some h
      else retire_each (RetireAllPreRequisites fuel) e.(immediate_prerequisites_) h
  end.

(** [FindUnsatisfiedPrerequisites], which adds to [result]. *)
Fixpoint find_unsatisfied (h : Heap) (rec : nat → ExpectationSet → option ExpectationSet)
    (l result : ExpectationSet) : option ExpectationSet :=
  match l with
  | [] => Some result
  | p :: l =>
      '(j, e) ← expectation_base h p;
      result ← (if IsSatisfied e then
                  if e.(call_count_) =? 0 then rec j result else Some result
                else Some (insert_handle p result));
      find_unsatisfied h rec l result
  end.
Fixpoint FindUnsatisfiedPrerequisites (fuel : nat) (h : Heap) (i : nat) (result : ExpectationSet) :
    option ExpectationSet :=
  match fuel with
  | O => None
  | S fuel =>
      e ← h !! i;
      find_unsatisfied h (FindUnsatisfiedPrerequisites fuel h) e.(immediate_prerequisites_) result
  end.

(** Enough for a heap where pre-requisites are older. *)
Definition enough (h : Heap) : nat := S (length h).

(** * A call *)

(** [ShouldHandleArguments], after the check of the action count. *)
Definition should_handle (h : Heap) (i : nat) (args : Args) : option bool :=
  e ← h !! i;
  if e.(retired_) then Some false else
  b ← AllPrerequisitesAreSatisfied (enough h) h i;
  Some (b && Matches e args).

(** [PrintIfNotEmpty]. *)
Definition PrintIfNotEmpty (explanation : string) : string :=
  match explanation with "" => "" | _ => ", " +:+ explanation end.

(** The lines "pre-requisite #i". *)
Fixpoint list_prerequisites (h : Heap) (i : Z) (l : ExpectationSet) : option string :=
  match l with
  | [] => Some ""
  | p :: l =>
      '(_, e) ← expectation_base h p;
      rest ← list_prerequisites h (i + 1) l;
      Some (DescribeLocationTo e +:+ "pre-requisite #" +:+ to_string i +:+ endl +:+ rest)
  end.

Definition ExplainMatchResultTo (h : Heap) (i : nat) (args : Args) : option string :=
  e ← h !! i;
  if e.(retired_) then
    Some ("         Expected: the expectation is active" +:+ endl +:+
          "           Actual: it is retired" +:+ endl)
  else if negb (Matches e args) then
    Some ((if negb (e.(matchers_).(TupleMatches) args)
           then e.(matchers_).(ExplainMatchFailureTupleTo) args else "") +:+
          (let '(matched, explanation) := e.(extra_matcher_).(MatchAndExplain) args in
           if negb matched then
             "    Expected args: " +:+ e.(extra_matcher_).(describe_matcher) +:+ endl +:+
             "           Actual: don't match" +:+ PrintIfNotEmpty explanation +:+ endl
           else ""))
  else
    b ← AllPrerequisitesAreSatisfied (enough h) h i;
    if negb b then
      unsatisfied_prereqs ← FindUnsatisfiedPrerequisites (enough h) h i [];
      lines ← list_prerequisites h 0 unsatisfied_prereqs;
      Some ("         Expected: all pre-requisites are satisfied" +:+ endl +:+
            "           Actual: the following immediate pre-requisites are not satisfied:" +:+ endl +:+
            lines +:+ "                   (end of pre-requisites)" +:+ endl)
    else Some ("The call matches the expectation." +:+ endl).

(** [GetCurrentAction], with what the mocker says of the default action; [None]
    is the failed assertion. *)
Definition GetCurrentAction (default_action : string) (e : TypedExpectation) :
    option (option Action * list Report) :=
  let count := e.(call_count_) in
  if negb (count >=? 1) then None else
  let action_count := Z.of_nat (length e.(untyped_actions_)) in
  let w :=
    if (action_count >? 0) && negb e.(repeated_action_specified_) && (count >? action_count) then
      [Logged kWarning
         (DescribeLocationTo e +:+ "Actions ran out in " +:+ e.(source_text_) +:+ "..." +:+ endl +:+
          "Called " +:+ to_string count +:+ " times, but only " +:+ to_string action_count +:+
          " WillOnce()" +:+ (if action_count =? 1 then " is" else "s are") +:+ " specified - " +:+
          default_action)]
    else [] in
  if count <=? action_count then a ← e.(untyped_actions_) !! Z.to_nat (count - 1); Some (a, w)
  else Some (e.(repeated_action_), w).

(** [GetActionForArguments]: the heap after the call, the action ([None] is the
    null pointer), what happened, why, and what was logged. *)
Record ActionForArguments := mkActionFor {
  heap_after : Heap;
  action_for : option (option Action);
  what_for : string;
  why_for : string;
  logged_for : list Report
}.
Definition GetActionForArguments (default_action : string) (h : Heap) (i : nat) :
    option ActionForArguments :=
  e ← h !! i;
  if IsSaturated e then
    e ← IncrementCallCount e;
    Some (mkActionFor (<[i := e]> h) None
            ("Mock function called more times than expected - " +:+ default_action)
            (DescribeCallCountTo e) [])
  else
    e ← IncrementCallCount e;
    h ← RetireAllPreRequisites (enough h) (<[i := e]> h) i;
    e ← h !! i;
    let e := if e.(retires_on_saturation_) && IsSaturated e then Retire e else e in
    let h := <[i := e]> h in
    '(a, w) ← GetCurrentAction default_action e;
    Some (mkActionFor h (Some a)
            ("Mock function call matches " +:+ e.(source_text_) +:+ "..." +:+ endl) "" w).

End Expectations.

Arguments ArgumentMatcherTuple : clear implicits.
Arguments Matcher : clear implicits.
Arguments TypedExpectation : clear implicits.
Arguments ActionForArguments : clear implicits.

(** The heap of the expectations. *)
Notation Heap Args Action := (list (TypedExpectation Args Action)).
