(* ===== verification/ExpectationFacts.v ===== *)
(** Facts about [Expectation]: pre-requisites are a finite order, the walks
    over them compute what they say, and what a call does to the heap. *)

From S2P Require Import Prelude Strings Cardinality Expectation.
From stdpp Require Import base list strings relations.
From Stdlib Require Import ZArith Lia.

Open Scope Z_scope.

Section Facts.
Context {Args Action : Type}.
Notation Heap := (Heap Args Action).
Notation TypedExpectation := (TypedExpectation Args Action).

(** * The order of the expectations *)

(** [j] is an immediate pre-requisite of [i]. *)
Definition pre (h : Heap) (i j : nat) : Prop :=
  ∃ e, h !! i = Some e ∧ Some j ∈ e.(immediate_prerequisites_).

(** A pre-requisite is a real expectation that was made earlier. *)
Definition older (h : Heap) : Prop :=
  ∀ i e p, h !! i = Some e → p ∈ e.(immediate_prerequisites_) → ∃ j, p = Some j ∧ (j < i)%nat.

(** Before an expectation is retired, its pre-requisites are. *)
Definition closed (h : Heap) : Prop :=
  ∀ i j e d, h !! i = Some e → e.(retired_) = true → pre h i j → h !! j = Some d → d.(retired_) = true.

Record heap_ok (h : Heap) : Prop := {
  ok_older : older h;
  ok_counting i e : h !! i = Some e → Counting e.(cardinality_) ∧ 0 <= e.(call_count_);
  ok_retired i e : h !! i = Some e → e.(retired_) = true → IsSatisfied e = true;
  ok_closed : closed h;
  (** what has been called within its bounds has no active pre-requisite *)
  ok_called i j e d : h !! i = Some e → 0 < e.(call_count_) → IsSatisfied e = true →
    pre h i j → h !! j = Some d → d.(retired_) = true
}.

Lemma expectation_base_some (h : Heap) p i e : older h → h !! i = Some e →
  p ∈ e.(immediate_prerequisites_) →
  ∃ j d, p = Some j ∧ (j < i)%nat ∧ h !! j = Some d ∧ expectation_base h p = Some (j, d) ∧ pre h i j.
Proof.
  intros Ho He Hp. destruct (Ho _ _ _ He Hp) as (j & -> & Hj).
  assert (j < length h)%nat as [d Hd]%lookup_lt_is_Some by (apply lookup_lt_Some in He; lia).
  exists j, d. split_and!; [done..| |by exists e].
  unfold expectation_base. simpl. idtac.
  by rewrite Hd.
Qed.

Lemma pre_older h i j : older h → pre h i j → (j < i)%nat.
Proof. intros Ho (e & He & Hp). destruct (Ho _ _ _ He Hp) as (j' & [= <-] & ?). done. Qed.
Lemma pre_lookup h i j : older h → pre h i j → ∃ d, h !! j = Some d.
Proof.
  intros Ho Hp. pose proof (pre_older _ _ _ Ho Hp). destruct Hp as (e & He & _).
  apply lookup_lt_is_Some. apply lookup_lt_Some in He. lia.
Qed.
Lemma tc_older h i j : older h → tc (pre h) i j → (j < i)%nat.
Proof.
  intros Ho. induction 1 as [x y H|x y z H _ IH]; [by eapply pre_older|].
  pose proof (pre_older _ _ _ Ho H). lia.
Qed.
Lemma tc_lookup h i j : older h → tc (pre h) i j → ∃ d, h !! j = Some d.
Proof. intros Ho. induction 1 as [x y H|]; [by eapply pre_lookup|done]. Qed.

Lemma tc_equiv (R R' : nat → nat → Prop) i j : (∀ a b, R a b ↔ R' a b) → tc R i j ↔ tc R' i j.
Proof.
  intros H. split; (induction 1 as [x y Hp|x y z Hp _ IH];
    [apply tc_once|eapply tc_l; [|exact IH]]; by apply H).
Qed.

(** Reaching in one step or through an immediate pre-requisite. *)
Lemma tc_first h i k : tc (pre h) i k ↔ ∃ j, pre h i j ∧ rtc (pre h) j k.
Proof.
  split.
  - destruct 1 as [x y H|x y z H Hc]; [by exists y|]. exists y. split; [done|]. by apply tc_rtc.
  - intros (j & H & Hr). by eapply tc_rtc_r; [apply tc_once|].
Qed.
Lemma rtc_cases h i k : rtc (pre h) i k ↔ i = k ∨ tc (pre h) i k.
Proof. split; [apply rtc_tc|intros [->|?]; [done|by apply tc_rtc]]. Qed.

(** Whatever a retired expectation depends on is retired. *)
Lemma closed_tc h i k e d : older h → closed h → h !! i = Some e → e.(retired_) = true →
  tc (pre h) i k → h !! k = Some d → d.(retired_) = true.
Proof.
  intros Ho Hc He Hr Ht. revert e He Hr d.
  induction Ht as [x y H|x y z H _ IH]; intros e He Hr d Hd; [by apply (Hc x y e d)|].
  destruct (pre_lookup _ _ _ Ho H) as [e' He']. eapply IH; [done| |done]. by apply (Hc x y e e').
Qed.

(** * [AllPrerequisitesAreSatisfied] *)

Definition satisfied (h : Heap) (j : nat) : Prop := ∃ e, h !! j = Some e ∧ IsSatisfied e = true.

Lemma each_satisfied_spec h rec (l : ExpectationSet) (P : nat → Prop) :
  (∀ p, p ∈ l → ∃ j e b, expectation_base h p = Some (j, e) ∧ p = Some j ∧ h !! j = Some e ∧
     rec j = Some b ∧ (b = true ↔ P j)) →
  ∃ b, each_satisfied h rec l = Some b ∧
    (b = true ↔ ∀ j, Some j ∈ l → satisfied h j ∧ P j).
Proof.
  induction l as [|p l IH]; intros Hl.
  { exists true. split; [done|]. split; [|done]. intros _ j Hj. by apply not_elem_of_nil in Hj. }
  destruct (Hl p) as (j & e & b & Hp & -> & He & Hb & HP); [by left|].
  destruct IH as (b' & Hb' & HP'); [intros p' ?; apply Hl; by right|].
  simpl. rewrite He. simpl. destruct (IsSatisfied e) eqn:Hs; cbn.
  - rewrite Hb. cbn. destruct b; cbn.
    + exists b'. split; [done|]. rewrite HP'. split.
      * intros H j' [[= ->]|Hj']%elem_of_cons; [|by apply H]. split; [by exists e|by apply HP].
      * intros H j' Hj'. apply H. by right.
    + exists false. split; [done|]. split; [done|]. intros H.
      destruct (H j) as [_ Hj]; [by left|]. by apply HP in Hj.
  - exists false. split; [done|]. split; [done|]. intros H.
    destruct (H j) as [(e' & He' & Hs') _]; [by left|]. congruence.
Qed.

(** The walk terminates and decides whether every expectation this one
    depends on, directly or not, is satisfied. *)
Lemma AllPrerequisites_spec fuel h i : older h → (i < length h)%nat → (i < fuel)%nat →
  ∃ b, AllPrerequisitesAreSatisfied fuel h i = Some b ∧
    (b = true ↔ ∀ j, tc (pre h) i j → satisfied h j).
Proof.
  intros Ho. revert i. induction fuel as [|fuel IH]; intros i Hi Hf; [lia|].
  destruct (lookup_lt_is_Some_2 h i Hi) as [e He]. simpl. rewrite He. simpl.
  destruct (each_satisfied_spec h (AllPrerequisitesAreSatisfied fuel h) e.(immediate_prerequisites_)
    (λ j, ∀ k, tc (pre h) j k → satisfied h k)) as (b & Hb & HP).
  { intros p Hp. destruct (expectation_base_some h p i e Ho He Hp) as (j & d & -> & Hj & Hd & Hb & _).
    destruct (IH j) as (b & ? & ?); [lia..|]. by exists j, d, b. }
  exists b. split; [done|]. rewrite HP. split.
  - intros H k (j & (e' & He' & Hj) & Hr)%tc_first. simplify_eq.
    destruct (H j Hj) as [H1 H2]. apply rtc_cases in Hr as [->|Hr]; auto.
  - intros H j Hj. assert (pre h i j) by by exists e.
    split; [by apply H, tc_once|]. intros k Hk. apply H. by eapply tc_l.
Qed.

(** * [RetireAllPreRequisites] *)

(** [h'] is [h] with the expectations of [S] retired. *)
Definition retires (h : Heap) (S : nat → Prop) (h' : Heap) : Prop :=
  length h' = length h ∧
  ∀ j e, h !! j = Some e → ∃ e', h' !! j = Some e' ∧ (e' = e ∨ e' = Retire e) ∧
    (e'.(retired_) = true ↔ e.(retired_) = true ∨ S j).

Lemma retires_weaken h (S T : nat → Prop) h' : retires h S h' →
  (∀ j e, h !! j = Some e → e.(retired_) = true ∨ S j ↔ e.(retired_) = true ∨ T j) → retires h T h'.
Proof.
  intros [Hl H] HST. split; [done|]. intros j e He. destruct (H j e He) as (e' & ? & ? & Hr).
  exists e'. split_and!; [done..|]. rewrite Hr. by apply HST.
Qed.
Lemma retires_refl h : retires h (λ _, False) h.
Proof. split; [done|]. intros j e He. exists e. split_and!; [done|by left|tauto]. Qed.
Lemma retires_trans h S h1 T h2 : retires h S h1 → retires h1 T h2 → retires h (λ j, S j ∨ T j) h2.
Proof.
  intros [Hl1 H1] [Hl2 H2]. split; [congruence|]. intros j e He.
  destruct (H1 j e He) as (e1 & He1 & C1 & R1). destruct (H2 j e1 He1) as (e2 & He2 & C2 & R2).
  exists e2. split_and!; [done| |rewrite R2, R1; tauto].
  destruct C1 as [-> | ->], C2 as [-> | ->]; auto.
Qed.
Lemma retires_alter h j : retires h (λ k, k = j) (alter Retire j h).
Proof.
  split; [by rewrite length_alter|]. intros k e He. destruct (decide (k = j)) as [->|Hne].
  - exists (Retire e). rewrite list_lookup_alter_eq, He. split_and!; [done|by right|].
    split; [by right|done].
  - exists e. rewrite list_lookup_alter_ne by done. split_and!; [done|by left|]. tauto.
Qed.
Lemma retires_back h S h' j e' : retires h S h' → h' !! j = Some e' →
  ∃ e, h !! j = Some e ∧ (e' = e ∨ e' = Retire e) ∧ (e'.(retired_) = true ↔ e.(retired_) = true ∨ S j).
Proof.
  intros [Hl H] He'. destruct (lookup_lt_is_Some_2 h j) as [e He].
  { rewrite <- Hl. by eapply lookup_lt_Some. }
  destruct (H j e He) as (e'' & He'' & ? & ?). simplify_eq. eauto.
Qed.

(** Retiring changes neither pre-requisites nor counts. *)
Lemma retires_pre h S h' i j : retires h S h' → pre h' i j ↔ pre h i j.
Proof.
  intros H. split; intros (e & He & Hj).
  - destruct (retires_back _ _ _ _ _ H He) as (d & Hd & [-> | ->] & _); by exists d.
  - destruct H as [_ H]. destruct (H _ _ He) as (d & Hd & [-> | ->] & _); [by exists e|].
    exists (Retire e). by split.
Qed.
Lemma retires_tc h S h' i j : retires h S h' → tc (pre h') i j ↔ tc (pre h) i j.
Proof.
  intros H. apply tc_equiv. intros a b. by apply retires_pre with S.
Qed.
Lemma retires_older h S h' : retires h S h' → older h → older h'.
Proof.
  intros H Ho i e p He Hp.
  destruct (retires_back _ _ _ _ _ H He) as (d & Hd & [-> | ->] & _); by eapply Ho.
Qed.

(** Retiring a set together with what it depends on keeps the heap closed. *)
Lemma retires_closed h (S : nat → Prop) h' : retires h S h' → closed h →
  (∀ i j, S i → pre h i j → S j) → closed h'.
Proof.
  intros H Hc HS i j e d He Hr Hp Hd. apply (retires_pre _ _ _ _ _ H) in Hp.
  destruct (retires_back _ _ _ _ _ H He) as (e0 & He0 & _ & R1).
  destruct (retires_back _ _ _ _ _ H Hd) as (d0 & Hd0 & _ & R2).
  apply R2. apply R1 in Hr as [Hr|Hr]; [left; by apply (Hc i j e0 d0)|right; by eapply HS].
Qed.

Lemma retire_each_spec rec (l : ExpectationSet) h :
  older h → closed h →
  (∀ p, p ∈ l → ∃ j e, p = Some j ∧ h !! j = Some e) →
  (∀ j h1 S, Some j ∈ l → retires h S h1 → closed h1 →
     ∃ h2, rec h1 j = Some h2 ∧ retires h1 (tc (pre h1) j) h2 ∧ closed h2) →
  ∃ h', retire_each rec l h = Some h' ∧ closed h' ∧
    retires h (λ k, ∃ j, Some j ∈ l ∧ rtc (pre h) j k) h'.
Proof.
  revert h. induction l as [|p l IH]; intros h Ho Hc Hl Hrec.
  { exists h. split_and!; [done..|]. eapply retires_weaken; [apply retires_refl|].
    intros j e _. split; [tauto|]. intros [?|(k & Hk & _)]; [tauto|]. by apply not_elem_of_nil in Hk. }
  destruct (Hl p) as (j & e & -> & He); [by left|]. simpl. rewrite He. simpl.
  assert (∃ h1, (if negb e.(retired_) then h0 ← rec h j; Some (alter Retire j h0) else Some h) = Some h1 ∧
    closed h1 ∧ retires h (rtc (pre h) j) h1) as (h1 & E & Hc1 & R1).
  { destruct (retired_ e) eqn:Er; cbn.
    - exists h. split_and!; [done..|]. eapply retires_weaken; [apply retires_refl|].
      intros k d Hd. split; [tauto|]. intros [?|[->|?]%rtc_cases]; [tauto| |].
      + left. congruence.
      + left. by apply (closed_tc h j k e d).
    - destruct (Hrec j h (λ _, False)) as (h2 & E2 & R2 & Hc2); [by left|apply retires_refl|done|].
      rewrite E2. cbn. eexists. split; [done|].
      assert (retires h (rtc (pre h) j) (alter Retire j h2)) as R.
      { eapply retires_weaken; [eapply retires_trans; [exact R2|apply retires_alter]|].
        intros k d _. rewrite rtc_cases. naive_solver. }
      split; [|done]. eapply retires_closed; [exact R|done|].
      intros a b Ha Hb. by eapply rtc_r. }
  rewrite E. cbn.
  destruct (IH h1) as (h' & E' & Hc' & R').
  - by eapply retires_older.
  - done.
  - intros p' Hp'. destruct (Hl p') as (j' & e' & -> & He'); [by right|].
    destruct R1 as [_ R1]. destruct (R1 _ _ He') as (e'' & ? & _). eauto.
  - intros j' h2 S Hj' R Hc2. eapply Hrec; [by right| |done]. by eapply retires_trans.
  - exists h'. split_and!; [done..|]. eapply retires_weaken; [eapply retires_trans; [exact R1|exact R']|].
    intros k d _.
    assert (∀ x, rtc (pre h1) x k ↔ rtc (pre h) x k) as Heq.
    { intros x. by rewrite !rtc_cases, (retires_tc _ _ _ _ _ R1). }
    split.
    + intros [?|[?|(x & Hx & Hk)]]; [tauto| |]; right; [exists j|exists x];
        (split; [by constructor || by right|]); [done|by apply Heq].
    + intros [?|(x & [[= ->]|Hx]%elem_of_cons & Hk)]; [tauto..|]. right. right. exists x.
      split; [done|]. by apply Heq.
Qed.

(** In a heap where retired expectations have retired pre-requisites the walk
    may stop at a retired one: it terminates and retires exactly the
    expectations this one depends on, directly or not. *)
Lemma RetireAll_spec fuel h i : older h → closed h → (i < length h)%nat → (i < fuel)%nat →
  ∃ h', RetireAllPreRequisites fuel h i = Some h' ∧ retires h (tc (pre h) i) h' ∧ closed h'.
Proof.
  revert h i. induction fuel as [|fuel IH]; intros h i Ho Hc Hi Hf; [lia|].
  destruct (lookup_lt_is_Some_2 h i Hi) as [e He]. simpl. rewrite He. simpl.
  destruct (retired_ e) eqn:Er.
  - exists h. split_and!; [done| |done]. eapply retires_weaken; [apply retires_refl|].
    intros k d Hd. split; [tauto|]. intros [?|?]; [tauto|]. left. by apply (closed_tc h i k e d).
  - destruct (retire_each_spec (RetireAllPreRequisites fuel) e.(immediate_prerequisites_) h)
      as (h' & E & Hc' & R); [done..| | |].
    + intros p Hp. destruct (expectation_base_some h p i e Ho He Hp) as (j & d & -> & _ & Hd & _). eauto.
    + intros j h1 S Hj R Hc1. destruct (expectation_base_some h _ i e Ho He Hj) as (? & d & [= <-] & Hlt & _).
      apply IH; [by eapply retires_older|done| |lia]. destruct R as [-> _]. lia.
    + exists h'. split_and!; [done| |done]. eapply retires_weaken; [exact R|].
      intros k d _. rewrite tc_first. split.
      * intros [?|(j & Hj & Hr)]; [by left|]. right. exists j. split; [by exists e|done].
      * intros [?|(j & (e' & He' & Hj) & Hr)]; [by left|]. right. exists j. by simplify_eq.
Qed.

(** * [FindUnsatisfiedPrerequisites] *)

(** [k] is what keeps [i] from being called: unsatisfied itself, and behind
    pre-requisites that are satisfied without a call only. *)
Inductive blocks (h : Heap) : nat → nat → Prop :=
  | blocks_directly i j e : pre h i j → h !! j = Some e → IsSatisfied e = false → blocks h i j
  | blocks_behind i j k e : pre h i j → h !! j = Some e → IsSatisfied e = true →
      e.(call_count_) = 0 → blocks h j k → blocks h i k.

Lemma blocks_cases h i k : blocks h i k ↔ ∃ j e, pre h i j ∧ h !! j = Some e ∧
  if IsSatisfied e then e.(call_count_) = 0 ∧ blocks h j k else k = j.
Proof.
  split.
  - destruct 1 as [i j e Hp He Hs|i j k e Hp He Hs H0 Hb]; exists j, e; by rewrite Hs.
  - intros (j & e & Hp & He & H). destruct (IsSatisfied e) eqn:Hs.
    + destruct H. by eapply blocks_behind.
    + subst. by eapply blocks_directly.
Qed.

Lemma elem_of_insert_handle p q s : p ∈ insert_handle q s ↔ p = q ∨ p ∈ s.
Proof.
  unfold insert_handle. case_decide; [naive_solver|].
  rewrite elem_of_app, list_elem_of_singleton. tauto.
Qed.

Lemma find_unsatisfied_spec (h : Heap) rec (Q : nat → Expectation → Prop) (l result : ExpectationSet) :
  (∀ p, p ∈ l → ∃ j e, p = Some j ∧ h !! j = Some e) →
  (∀ j r, Some j ∈ l → ∃ r', rec j r = Some r' ∧ ∀ p, p ∈ r' ↔ p ∈ r ∨ Q j p) →
  ∃ r', find_unsatisfied h rec l result = Some r' ∧
    ∀ p, p ∈ r' ↔ p ∈ result ∨ ∃ j e, Some j ∈ l ∧ h !! j = Some e ∧
      (if IsSatisfied e then e.(call_count_) = 0 ∧ Q j p else p = Some j).
Proof.
  revert result. induction l as [|p l IH]; intros result Hl Hrec.
  { exists result. split; [done|]. intros p. split; [by left|].
    intros [?|(j & e & Hj & _)]; [done|]. by apply not_elem_of_nil in Hj. }
  destruct (Hl p) as (j & e & -> & He); [by left|]. simpl. rewrite He. simpl.
  assert (∃ r1, (if IsSatisfied e then if e.(call_count_) =? 0 then rec j result else Some result
                 else Some (insert_handle (Some j) result)) = Some r1 ∧
    ∀ q, q ∈ r1 ↔ q ∈ result ∨
      (if IsSatisfied e then e.(call_count_) = 0 ∧ Q j q else q = Some j)) as (r1 & E & H1).
  { destruct (IsSatisfied e).
    - destruct (Z.eqb_spec e.(call_count_) 0) as [E0|E0].
      + destruct (Hrec j result) as (r' & -> & H); [by left|]. exists r'. split; [done|].
        intros q. rewrite H. tauto.
      + exists result. split; [done|]. tauto.
    - eexists. split; [done|]. intros q. rewrite elem_of_insert_handle. tauto. }
  rewrite E. simpl. destruct (IH r1) as (r' & -> & H').
  - intros q Hq. apply Hl. by right.
  - intros k r Hk. apply Hrec. by right.
  - exists r'. split; [done|]. intros q. rewrite H', H1. split.
    + intros [[?|?]|(k & d & Hk & Hd & Hq)]; [by left|right..].
      * exists j, e. split_and!; [by left|done..].
      * exists k, d. split_and!; [by right|done..].
    + intros [?|(k & d & [[= ->]|Hk]%elem_of_cons & Hd & Hq)]; [tauto| |].
      * left. right. by simplify_eq.
      * right. by exists k, d.
Qed.

Lemma FindUnsatisfied_spec fuel h i result : older h → (i < length h)%nat → (i < fuel)%nat →
  ∃ r, FindUnsatisfiedPrerequisites fuel h i result = Some r ∧
    ∀ p, p ∈ r ↔ p ∈ result ∨ ∃ k, p = Some k ∧ blocks h i k.
Proof.
  intros Ho. revert i result. induction fuel as [|fuel IH]; intros i result Hi Hf; [lia|].
  destruct (lookup_lt_is_Some_2 h i Hi) as [e He]. simpl. rewrite He. simpl.
  destruct (find_unsatisfied_spec h (FindUnsatisfiedPrerequisites fuel h)
    (λ j p, ∃ k, p = Some k ∧ blocks h j k) e.(immediate_prerequisites_) result)
    as (r & E & H).
  - intros p Hp. destruct (expectation_base_some h p i e Ho He Hp) as (j & d & -> & _ & Hd & _). eauto.
  - intros j r Hj. destruct (expectation_base_some h _ i e Ho He Hj) as (? & d & [= <-] & Hlt & _).
    apply IH; lia.
  - exists r. split; [done|]. intros p. rewrite H. apply or_iff_compat_l. split.
    + intros (j & d & Hj & Hd & Hr). assert (pre h i j) by by exists e.
      destruct (IsSatisfied d) eqn:Es.
      * destruct Hr as (H1 & k & -> & Hk). exists k. split; [done|]. by eapply blocks_behind.
      * exists j. split; [done|]. by eapply blocks_directly.
    + intros (k & -> & Hk). apply blocks_cases in Hk as (j & d & (e' & He' & Hj) & Hd & Hr).
      simplify_eq. exists j, d. split_and!; [done..|]. destruct (IsSatisfied d); [|by subst].
      destruct Hr. eauto.
Qed.

Lemma blocks_sound h i k : blocks h i k → tc (pre h) i k ∧ ∃ e, h !! k = Some e ∧ IsSatisfied e = false.
Proof.
  induction 1 as [i j e Hp He Hs|i j k e Hp He Hs H0 _ [IH1 IH2]]; [split; [by apply tc_once|eauto]|].
  split; [by eapply tc_l|done].
Qed.

(** Nothing that blocks is overlooked: what is hidden behind a pre-requisite
    that was called within its bounds is satisfied. *)
Lemma blocks_complete h i k : heap_ok h → tc (pre h) i k → ¬ satisfied h k → ∃ j, blocks h i j.
Proof.
  intros Hh Ht Hk. pose proof (ok_older _ Hh) as Ho.
  induction Ht as [i k H|i j k H Ht IH].
  - destruct (pre_lookup _ _ _ Ho H) as [d Hd]. exists k. eapply blocks_directly; [done..|].
    destruct (IsSatisfied d) eqn:Es; [|done]. destruct Hk. by exists d.
  - destruct (pre_lookup _ _ _ Ho H) as [d Hd]. destruct (IsSatisfied d) eqn:Es.
    2:{ exists j. by eapply blocks_directly. }
    destruct (ok_counting _ Hh _ _ Hd) as [_ H0].
    destruct (Z.eq_dec d.(call_count_) 0) as [E0|E0].
    { destruct (IH Hk) as [j' Hb]. exists j'. by eapply blocks_behind. }
    destruct Hk. apply tc_first in Ht as (l & Hl & Hr).
    destruct (pre_lookup _ _ _ Ho Hl) as [c Hc].
    assert (c.(retired_) = true) as Hret by (apply (ok_called _ Hh j l d c); [done|lia|done..]).
    apply rtc_cases in Hr as [->|Hr]; [exists c; split; [done|by eapply ok_retired]|].
    destruct (tc_lookup _ _ _ Ho Hr) as [b Hb]. exists b. split; [done|].
    eapply ok_retired; [done..|]. by apply (closed_tc h l k c b Ho (ok_closed _ Hh)).
Qed.

(** * A call *)

(** A call handled by [i]: [i] goes from [e] to [e'], the expectations of [S]
    are retired, the others stay as they are. *)
Record call_effect (h : Heap) (i : nat) (e e' : TypedExpectation) (S : nat → Prop) (h' : Heap) : Prop := {
  ce_length : length h' = length h;
  ce_other j a : j ≠ i → h !! j = Some a → ∃ a', h' !! j = Some a' ∧ (a' = a ∨ a' = Retire a) ∧
    (a'.(retired_) = true ↔ a.(retired_) = true ∨ S j);
  ce_self : h' !! i = Some e';
  ce_fields : e' = set_call_count (e.(call_count_) + 1) e ∨
    e' = Retire (set_call_count (e.(call_count_) + 1) e)
}.

Lemma ce_back h i e e' S h' j a' : call_effect h i e e' S h' → h' !! j = Some a' →
  (j = i ∧ a' = e') ∨
  (j ≠ i ∧ ∃ a, h !! j = Some a ∧ (a' = a ∨ a' = Retire a) ∧
     (a'.(retired_) = true ↔ a.(retired_) = true ∨ S j)).
Proof.
  intros H Ha. destruct (decide (j = i)) as [->|Hne].
  - left. pose proof (ce_self _ _ _ _ _ _ H). by simplify_eq.
  - right. split; [done|]. destruct (lookup_lt_is_Some_2 h j) as [a Hj].
    { rewrite <- (ce_length _ _ _ _ _ _ H). by eapply lookup_lt_Some. }
    destruct (ce_other _ _ _ _ _ _ H j a Hne Hj) as (a'' & ? & ? & ?). simplify_eq. eauto.
Qed.
Lemma ce_pre h i e e' S h' a b : h !! i = Some e → call_effect h i e e' S h' →
  pre h' a b ↔ pre h a b.
Proof.
  intros He H.
  assert (e'.(immediate_prerequisites_) = e.(immediate_prerequisites_)) as Hp
    by by destruct (ce_fields _ _ _ _ _ _ H) as [-> | ->].
  split; intros (x & Hx & Hb).
  - destruct (ce_back _ _ _ _ _ _ _ _ H Hx) as [[-> ->]|(_ & y & Hy & [-> | ->] & _)].
    + exists e. by rewrite <- Hp.
    + by exists y.
    + by exists y.
  - destruct (decide (a = i)) as [->|Hne].
    + simplify_eq. exists e'. rewrite Hp. split; [apply (ce_self _ _ _ _ _ _ H)|done].
    + destruct (ce_other _ _ _ _ _ _ H a x Hne Hx) as (y & ? & [-> | ->] & _); by eexists.
Qed.

Lemma heap_ok_call h i e e' (S : nat → Prop) h' :
  heap_ok h → h !! i = Some e → e.(retired_) = false → call_effect h i e e' S h' →
  (∀ j, S j → satisfied h j) → (∀ j k, S j → pre h j k → S k) → ¬ S i →
  (e'.(retired_) = true → IsSatisfied e' = true) →
  (IsSatisfied e' = true → ∀ j, pre h i j → S j) →
  heap_ok h'.
Proof.
  intros Hh He Hr HC HS Hcl Hi Hret Hsat.
  pose proof (λ a b, ce_pre _ _ _ _ _ _ a b He HC) as Hpre.
  destruct (ok_counting _ Hh _ _ He) as [Hcnt Hge].
  assert (Counting e'.(cardinality_) ∧ 0 <= e'.(call_count_)) as He'.
  { destruct (ce_fields _ _ _ _ _ _ HC) as [-> | ->]; (split; [done|cbn; lia]). }
  assert (∀ j k d d', S j → pre h j k → h' !! k = Some d' → h !! k = Some d → d'.(retired_) = true) as HSr.
  { intros j k d d' Hj Hp Hd' Hd. assert (S k) as Hk by by eapply Hcl.
    destruct (ce_back _ _ _ _ _ _ _ _ HC Hd') as [[-> _]|(_ & y & Hy & _ & Hiff)]; [done|]. tauto. }
  split.
  - intros j a p Ha Hp. destruct (ce_back _ _ _ _ _ _ _ _ HC Ha) as [[-> ->]|(_ & y & Hy & Hc & _)].
    + apply (ok_older _ Hh i e p He). destruct (ce_fields _ _ _ _ _ _ HC) as [-> | ->]; done.
    + apply (ok_older _ Hh j y p Hy). destruct Hc as [-> | ->]; done.
  - intros j a Ha. destruct (ce_back _ _ _ _ _ _ _ _ HC Ha) as [[-> ->]|(_ & y & Hy & Hc & _)]; [done|].
    pose proof (ok_counting _ Hh _ _ Hy). destruct Hc as [-> | ->]; done.
  - intros j a Ha Hra. destruct (ce_back _ _ _ _ _ _ _ _ HC Ha) as [[-> ->]|(_ & y & Hy & Hc & Hiff)]; [by apply Hret|].
    assert (IsSatisfied y = true) as Hsy.
    { destruct (proj1 Hiff Hra) as [H1|H1]; [by eapply ok_retired|].
      destruct (HS j H1) as (y' & Hy' & ?). by simplify_eq. }
    destruct Hc as [-> | ->]; done.
  - intros a b x d Hx Hrx Hp Hd. apply Hpre in Hp.
    destruct (pre_lookup _ _ _ (ok_older _ Hh) Hp) as [d0 Hd0].
    destruct (ce_back _ _ _ _ _ _ _ _ HC Hx) as [[-> ->]|(Hne & y & Hy & Hc & Hiff)].
    + assert (S b) by by apply Hsat; [apply Hret|].
      destruct (ce_back _ _ _ _ _ _ _ _ HC Hd) as [[-> _]|(_ & z & Hz & _ & Hiff)]; [done|]. tauto.
    + destruct (proj1 Hiff Hrx) as [H1|H1]; [|by eapply HSr].
      assert (d0.(retired_) = true) by by apply (ok_closed _ Hh a b y d0).
      destruct (ce_back _ _ _ _ _ _ _ _ HC Hd) as [[-> ->]|(_ & z & Hz & _ & Hiff')];
        simplify_eq; [congruence|tauto].
  - intros a b x d Hx Hpos Hsx Hp Hd. apply Hpre in Hp.
    destruct (pre_lookup _ _ _ (ok_older _ Hh) Hp) as [d0 Hd0].
    destruct (ce_back _ _ _ _ _ _ _ _ HC Hx) as [[-> ->]|(Hne & y & Hy & Hc & Hiff)].
    + assert (S b) by by apply Hsat.
      destruct (ce_back _ _ _ _ _ _ _ _ HC Hd) as [[-> _]|(_ & z & Hz & _ & Hiff)]; [done|]. tauto.
    + assert (d0.(retired_) = true).
      { apply (ok_called _ Hh a b y d0); try done; by destruct Hc as [-> | ->]. }
      destruct (ce_back _ _ _ _ _ _ _ _ HC Hd) as [[-> ->]|(_ & z & Hz & _ & Hiff')];
        simplify_eq; [congruence|tauto].
Qed.

(** The action of the [n]th call, counted from 0. *)
Definition nth_action (e : TypedExpectation) (n : Z) : option Action :=
  default e.(repeated_action_) (e.(untyped_actions_) !! Z.to_nat n).

Lemma GetCurrentAction_spec d (e : TypedExpectation) : 1 <= e.(call_count_) →
  ∃ w, GetCurrentAction d e = Some (nth_action e (e.(call_count_) - 1), w).
Proof.
  intros H. unfold GetCurrentAction, nth_action.
  rewrite (proj2 (Z.geb_le _ _)) by lia. cbn [negb].
  destruct (Z.leb_spec e.(call_count_) (Z.of_nat (length e.(untyped_actions_)))) as [Hle|Hgt].
  - destruct (lookup_lt_is_Some_2 e.(untyped_actions_) (Z.to_nat (e.(call_count_) - 1))) as [a Ha]; [lia|].
    rewrite Ha. eexists. done.
  - rewrite lookup_ge_None_2 by lia. eexists. done.
Qed.

(** An update of an expectation that leaves its pre-requisites and whether it
    is retired. *)
Section Update.
Context (h : Heap) (i : nat) (e e1 : TypedExpectation).
Hypothesis (He : h !! i = Some e) (Hp : e1.(immediate_prerequisites_) = e.(immediate_prerequisites_))
           (Hr : e1.(retired_) = e.(retired_)).

Lemma insert_back j a : <[i := e1]> h !! j = Some a →
  ∃ b, h !! j = Some b ∧ a.(immediate_prerequisites_) = b.(immediate_prerequisites_) ∧
    a.(retired_) = b.(retired_).
Proof using He Hp Hr.
  intros [(-> & <- & _)|[_ Ha]]%list_lookup_insert_Some; [by exists e|by exists a].
Qed.
Lemma insert_pre a b : pre (<[i := e1]> h) a b ↔ pre h a b.
Proof using He Hp Hr.
  split; intros (x & Hx & Hb).
  - destruct (insert_back a x Hx) as (y & Hy & Hxy & _). exists y. by rewrite <- Hxy.
  - destruct (decide (a = i)) as [->|Hne].
    + exists e1. rewrite list_lookup_insert_eq by (by eapply lookup_lt_Some). simplify_eq.
      by rewrite Hp.
    + exists x. by rewrite list_lookup_insert_ne by done.
Qed.
Lemma insert_older : older h → older (<[i := e1]> h).
Proof using He Hp Hr.
  intros Ho j a p Ha Hin. destruct (insert_back j a Ha) as (b & Hb & E & _).
  rewrite E in Hin. by eapply Ho.
Qed.
Lemma insert_closed : closed h → closed (<[i := e1]> h).
Proof using He Hp Hr.
  intros Hc a b x d Hx Hrx Hab Hd. apply insert_pre in Hab.
  destruct (insert_back a x Hx) as (x' & Hx' & _ & E1), (insert_back b d Hd) as (d' & Hd' & _ & E2).
  rewrite E2. apply (Hc a b x' d'); congruence.
Qed.
End Update.

#[local] Arguments RetireAllPreRequisites : simpl never.
#[local] Arguments AllPrerequisitesAreSatisfied : simpl never.
#[local] Arguments FindUnsatisfiedPrerequisites : simpl never.
#[local] Arguments enough : simpl never.

(** What a call does that an active expectation with satisfied pre-requisites
    takes: an excessive call is counted and gets no action; any other retires
    what came before, counts, retires the expectation itself if it was told to,
    and performs the actions in their order. *)
Lemma GetAction_spec d h i e : heap_ok h → h !! i = Some e → e.(retired_) = false →
  (∀ j, tc (pre h) i j → satisfied h j) → e.(call_count_) < INT_MAX →
  ∃ r e', GetActionForArguments d h i = Some r ∧ heap_ok r.(heap_after) ∧
    call_effect h i e e' (λ j, IsSaturated e = false ∧ tc (pre h) i j) r.(heap_after) ∧
    (e'.(retired_) = true ↔ IsSaturated e = false ∧ e.(retires_on_saturation_) = true ∧
       e.(cardinality_).(IsSaturatedByCallCount) (e.(call_count_) + 1) = true) ∧
    r.(action_for) = (if IsSaturated e then None else Some (nth_action e e.(call_count_))).
Proof.
  intros Hh He Hr Hsat Hmax. pose proof (ok_older _ Hh) as Ho. pose proof (ok_closed _ Hh) as Hc.
  destruct (ok_counting _ Hh _ _ He) as [Hcnt Hge].
  pose proof (lookup_lt_Some _ _ _ He) as Hi.
  set (e1 := set_call_count (e.(call_count_) + 1) e).
  assert (¬ tc (pre h) i i) as Hii by (intros H; apply tc_older in H; [lia|done]).
  unfold GetActionForArguments, IncrementCallCount. simpl. rewrite He. simpl.
  rewrite (proj2 (Z.ltb_lt _ _)) by done. fold e1. simpl.
  destruct (IsSaturated e) eqn:Es.
  - (* an excessive call *)
    destruct (saturated_next e.(call_count_) Hge Es) as [_ Hun].
    eexists _, e1. split; [done|]. cbn [heap_after action_for].
    assert (call_effect h i e e1 (λ j, true = false ∧ tc (pre h) i j) (<[i:=e1]> h)) as HC.
    { split; [by rewrite length_insert| |by apply list_lookup_insert_eq|by left].
      intros j a Hne Ha. exists a. rewrite list_lookup_insert_ne by done. split_and!; [done|by left|naive_solver]. }
    split_and!; [|done|cbn; split; [congruence|naive_solver]|done].
    eapply heap_ok_call; [exact Hh|exact He|exact Hr|exact HC|naive_solver..| |].
    + cbn. congruence.
    + unfold IsSatisfied. cbn. congruence.
  - (* a call within the bounds *)
    assert (∀ a b, pre (<[i:=e1]> h) a b ↔ pre h a b) as Hpre by (intros; by apply (insert_pre h i e e1)).
    destruct (RetireAll_spec (enough h) (<[i:=e1]> h) i) as (h2 & -> & R2 & Hc2).
    { by apply (insert_older h i e e1). }
    { by apply (insert_closed h i e e1). }
    { by rewrite length_insert. }
    { unfold enough. lia. }
    apply (retires_weaken _ _ (tc (pre h) i)) in R2; [|intros j a _; by rewrite (tc_equiv _ _ i j Hpre)].
    destruct R2 as [Hl2 R2]. rewrite length_insert in Hl2.
    destruct (R2 i e1) as (e2 & He2 & C2 & Hr2); [by apply list_lookup_insert_eq|].
    assert (e2 = e1) as ->.
    { destruct C2 as [->|E2]; [done|]. exfalso.
      destruct (proj1 Hr2) as [H|H]; [by rewrite E2| |by apply Hii].
      change (retired_ e = true) in H. congruence. }
    simpl. rewrite He2. simpl.
    destruct (GetCurrentAction_spec d (if retires_on_saturation_ e && IsSaturated e1 then Retire e1 else e1))
      as (w & Ea); [by_cases; lia|].
    rewrite Ea. eexists _, _. split; [done|]. cbn [heap_after action_for].
    set (e' := if retires_on_saturation_ e && IsSaturated e1 then Retire e1 else e1).
    assert (e' = e1 ∨ e' = Retire e1) as Hf by (unfold e'; by_cases; auto).
    assert (e'.(retired_) = true ↔ e.(retires_on_saturation_) = true ∧ IsSaturated e1 = true) as Hret.
    { unfold e'. rewrite <- andb_true_iff. by_cases. cbn. split; congruence. }
    assert (call_effect h i e e' (λ j, false = false ∧ tc (pre h) i j) (<[i:=e']> h2)) as HC.
    { split; [by rewrite length_insert| |apply list_lookup_insert_eq; lia|done].
      intros j a Hne Ha. rewrite list_lookup_insert_ne by done.
      destruct (R2 j a) as (a' & ? & ? & Hiff); [by rewrite list_lookup_insert_ne by done|].
      exists a'. split_and!; [done..|]. rewrite Hiff. tauto. }
    assert (nth_action e' (call_count_ e' - 1) = nth_action e (call_count_ e)) as ->.
    { destruct Hf as [-> | ->]; unfold nth_action; cbn; by rewrite Z.add_simpl_r. }
    split_and!; [|done| |done].
    + eapply heap_ok_call; [exact Hh|exact He|exact Hr|exact HC| | | | |].
      * intros j [_ Hj]. by apply Hsat.
      * intros j k [_ Hj] Hk. split; [done|]. by eapply tc_r.
      * by intros [_ ?].
      * intros [_ Hs]%Hret.
        pose proof (satisfied_when_saturating e.(call_count_) Hge Es Hs). by destruct Hf as [-> | ->].
      * intros _ j Hj. split; [done|]. by apply tc_once.
    + split; [intros H; by apply Hret in H as [? ?]|intros (_ & ? & ?); by apply Hret].
Qed.

(** * Which expectation takes a call *)

Definition takes (h : Heap) (i : nat) (args : Args) : Prop :=
  ∃ e, h !! i = Some e ∧ e.(retired_) = false ∧ (∀ j, tc (pre h) i j → satisfied h j) ∧
    Matches e args = true.

Lemma should_handle_spec h i args : older h → (i < length h)%nat →
  ∃ b, should_handle h i args = Some b ∧ (b = true ↔ takes h i args).
Proof.
  intros Ho Hi. destruct (lookup_lt_is_Some_2 h i Hi) as [e He].
  unfold should_handle. rewrite He. simpl. destruct (retired_ e) eqn:Hr.
  - exists false. split; [done|]. split; [done|]. intros (e' & ? & ? & _). congruence.
  - destruct (AllPrerequisites_spec (enough h) h i Ho Hi) as (b & -> & Hb); [unfold enough; lia|].
    simpl. eexists. split; [done|]. rewrite andb_true_iff, Hb. split.
    + intros [? ?]. by exists e.
    + intros (e' & ? & _ & ? & ?). by simplify_eq.
Qed.

(** Having the action counts checked changes nothing but that. *)
Definition checked (h h' : Heap) : Prop :=
  length h' = length h ∧
  ∀ j e, h !! j = Some e → ∃ e', h' !! j = Some e' ∧ (e' = e ∨ e' = set_checked e).

Lemma checked_refl h : checked h h.
Proof. split; [done|]. intros j e He. exists e. auto. Qed.
Lemma checked_trans h1 h2 h3 : checked h1 h2 → checked h2 h3 → checked h1 h3.
Proof.
  intros [L1 H1] [L2 H2]. split; [congruence|]. intros j e He.
  destruct (H1 _ _ He) as (e2 & He2 & C2), (H2 _ _ He2) as (e3 & He3 & C3).
  exists e3. split; [done|]. destruct C2 as [-> | ->], C3 as [-> | ->]; auto.
Qed.
Lemma checked_insert h i e e' : h !! i = Some e → e' = e ∨ e' = set_checked e →
  checked h (<[i := e']> h).
Proof.
  intros He Hc. split; [by rewrite length_insert|]. intros j a Ha.
  destruct (decide (j = i)) as [->|Hne].
  - exists e'. rewrite list_lookup_insert_eq by (by eapply lookup_lt_Some). by simplify_eq.
  - exists a. rewrite list_lookup_insert_ne by done. auto.
Qed.
Lemma checked_back h h' j e' : checked h h' → h' !! j = Some e' →
  ∃ e, h !! j = Some e ∧ (e' = e ∨ e' = set_checked e).
Proof.
  intros [Hl H] He'. destruct (lookup_lt_is_Some_2 h j) as [e He].
  { rewrite <- Hl. by eapply lookup_lt_Some. }
  destruct (H _ _ He) as (e'' & ? & ?). simplify_eq. eauto.
Qed.
Lemma checked_pre h h' i j : checked h h' → pre h' i j ↔ pre h i j.
Proof.
  intros H. split; intros (e & He & Hj).
  - destruct (checked_back _ _ _ _ H He) as (d & Hd & [-> | ->]); by exists d.
  - destruct H as [_ H]. destruct (H _ _ He) as (d & Hd & [-> | ->]); by eexists.
Qed.
Lemma checked_satisfied h h' j : checked h h' → satisfied h' j ↔ satisfied h j.
Proof.
  intros H. split; intros (e & He & Hs).
  - destruct (checked_back _ _ _ _ H He) as (d & Hd & [-> | ->]); by exists d.
  - destruct H as [_ H]. destruct (H _ _ He) as (d & Hd & [-> | ->]); by eexists.
Qed.
Lemma checked_takes h h' i args : checked h h' → takes h' i args ↔ takes h i args.
Proof.
  intros H.
  assert ((∀ j, tc (pre h') i j → satisfied h' j) ↔ (∀ j, tc (pre h) i j → satisfied h j)) as E.
  { assert (∀ j, tc (pre h') i j ↔ tc (pre h) i j) as E
      by (intros j; apply tc_equiv; intros; by apply checked_pre).
    split; intros H1 j Hj; apply (checked_satisfied h h' j H), H1; by apply E. }
  split; intros (e & He & Hr & Hs & Hm); [pose proof (proj1 E Hs)|pose proof (proj2 E Hs)].
  - destruct (checked_back _ _ _ _ H He) as (d & Hd & [-> | ->]); by exists d.
  - destruct H as [_ H]. destruct (H _ _ He) as (d & Hd & [-> | ->]); by eexists.
Qed.
Lemma heap_ok_checked h h' : checked h h' → heap_ok h → heap_ok h'.
Proof.
  intros H Hh. split.
  - intros i e p He Hp. destruct (checked_back _ _ _ _ H He) as (d & Hd & Hc).
    apply (ok_older _ Hh i d p Hd). by destruct Hc as [-> | ->].
  - intros i e He. destruct (checked_back _ _ _ _ H He) as (d & Hd & Hc).
    destruct Hc as [-> | ->]; apply (ok_counting _ Hh i d Hd).
  - intros i e He Hr. destruct (checked_back _ _ _ _ H He) as (d & Hd & Hc).
    destruct Hc as [-> | ->]; by apply (ok_retired _ Hh i d Hd).
  - intros i j e d He Hr Hp Hd. apply (checked_pre _ _ _ _ H) in Hp.
    destruct (checked_back _ _ _ _ H He) as (e0 & He0 & Ce), (checked_back _ _ _ _ H Hd) as (d0 & Hd0 & Cd).
    enough (d0.(retired_) = true) by by destruct Cd as [-> | ->].
    apply (ok_closed _ Hh i j e0 d0); [done| |done..]. by destruct Ce as [-> | ->].
  - intros i j e d He Hpos Hs Hp Hd. apply (checked_pre _ _ _ _ H) in Hp.
    destruct (checked_back _ _ _ _ H He) as (e0 & He0 & Ce), (checked_back _ _ _ _ H Hd) as (d0 & Hd0 & Cd).
    enough (d0.(retired_) = true) by by destruct Cd as [-> | ->].
    apply (ok_called _ Hh i j e0 d0); [done| | |done..]; by destruct Ce as [-> | ->].
Qed.
Lemma CheckActionCount_checked (e : TypedExpectation) :
  fst (CheckActionCountIfNotDone e) = e ∨ fst (CheckActionCountIfNotDone e) = set_checked e.
Proof. unfold CheckActionCountIfNotDone. by_cases; auto. Qed.

(** * A new expectation *)

(** An expectation nobody has called yet, as its clauses may leave it. *)
Record uncalled (i : nat) (e : TypedExpectation) : Prop := {
  uc_count : e.(call_count_) = 0;
  uc_retired : e.(retired_) = false;
  uc_counting : Counting e.(cardinality_);
  uc_older p : p ∈ e.(immediate_prerequisites_) → ∃ j, p = Some j ∧ (j < i)%nat
}.

Lemma heap_ok_new h e : heap_ok h → uncalled (length h) e → heap_ok (h ++ [e]).
Proof.
  intros Hh He.
  assert (∀ a x, (h ++ [e]) !! a = Some x → (a = length h ∧ x = e) ∨ h !! a = Some x) as Hl.
  { intros a x. rewrite lookup_snoc_Some. intros [[? ?]|[-> <-]]; auto. }
  assert (∀ a b x, h !! a = Some x → pre (h ++ [e]) a b → pre h a b) as Hp.
  { intros a b x Hx (y & Hy & Hb). rewrite lookup_app_l in Hy by (by eapply lookup_lt_Some). by exists y. }
  assert (∀ a b x, h !! a = Some x → pre h a b → ∀ d, (h ++ [e]) !! b = Some d → h !! b = Some d) as Hold.
  { intros a b x Hx Hab d Hd. destruct (Hl _ _ Hd) as [[-> _]|?]; [|done].
    pose proof (pre_older _ _ _ (ok_older _ Hh) Hab). apply lookup_lt_Some in Hx. lia. }
  split.
  - intros a x p Hx Hin. destruct (Hl _ _ Hx) as [[-> ->]|Hx']; [by apply (uc_older _ _ He)|].
    by apply (ok_older _ Hh a x).
  - intros a x Hx. destruct (Hl _ _ Hx) as [[-> ->]|Hx']; [|by apply (ok_counting _ Hh a)].
    split; [apply (uc_counting _ _ He)|]. by rewrite (uc_count _ _ He).
  - intros a x Hx Hr. destruct (Hl _ _ Hx) as [[-> ->]|Hx']; [|by apply (ok_retired _ Hh a)].
    by rewrite (uc_retired _ _ He) in Hr.
  - intros a b x d Hx Hr Hab Hd.
    destruct (Hl _ _ Hx) as [[-> ->]|Hx']; [by rewrite (uc_retired _ _ He) in Hr|].
    apply (ok_closed _ Hh a b x d); eauto.
  - intros a b x d Hx Hpos Hs Hab Hd.
    destruct (Hl _ _ Hx) as [[-> ->]|Hx']; [by rewrite (uc_count _ _ He) in Hpos|].
    apply (ok_called _ Hh a b x d); eauto.
Qed.

Lemma heap_ok_fresh h i e e' : heap_ok h → h !! i = Some e → uncalled i e → uncalled i e' →
  heap_ok (<[i := e']> h).
Proof.
  intros Hh He F F'.
  assert (∀ a x, <[i := e']> h !! a = Some x → (a = i ∧ x = e') ∨ (a ≠ i ∧ h !! a = Some x)) as Hl.
  { intros a x [(<- & <- & _)|[? ?]]%list_lookup_insert_Some; auto. }
  assert (∀ a b x, a ≠ i → h !! a = Some x → pre (<[i := e']> h) a b → pre h a b) as Hp.
  { intros a b x Hne Hx (y & Hy & Hb). rewrite list_lookup_insert_ne in Hy by done. by exists y. }
  split.
  - intros a x p Hx Hin. destruct (Hl _ _ Hx) as [[-> ->]|[_ Hx']]; [by apply (uc_older _ _ F')|].
    by apply (ok_older _ Hh a x).
  - intros a x Hx. destruct (Hl _ _ Hx) as [[-> ->]|[_ Hx']]; [|by apply (ok_counting _ Hh a)].
    split; [apply (uc_counting _ _ F')|]. by rewrite (uc_count _ _ F').
  - intros a x Hx Hr. destruct (Hl _ _ Hx) as [[-> ->]|[_ Hx']]; [|by apply (ok_retired _ Hh a)].
    by rewrite (uc_retired _ _ F') in Hr.
  - intros a b x d Hx Hr Hab Hd.
    destruct (Hl _ _ Hx) as [[-> ->]|[Hne Hx']]; [by rewrite (uc_retired _ _ F') in Hr|].
    apply Hp with (x := x) in Hab; [|done..].
    destruct (Hl _ _ Hd) as [[-> ->]|[_ Hd']]; [|by apply (ok_closed _ Hh a b x d)].
    pose proof (ok_closed _ Hh a i x e Hx' Hr Hab He). by rewrite (uc_retired _ _ F) in *.
  - intros a b x d Hx Hpos Hs Hab Hd.
    destruct (Hl _ _ Hx) as [[-> ->]|[Hne Hx']]; [by rewrite (uc_count _ _ F') in Hpos|].
    apply Hp with (x := x) in Hab; [|done..].
    destruct (Hl _ _ Hd) as [[-> ->]|[_ Hd']]; [|by apply (ok_called _ Hh a b x d)].
    pose proof (ok_called _ Hh a i x e Hx' Hpos Hs Hab He). by rewrite (uc_retired _ _ F) in *.
Qed.

End Facts.
