(* ===== verification/Mocker.v ===== *)
(** Mock functions: their expectations and default actions, the calls, the
    verification, sequences, and the registry of mock objects
    ([src/lib/googlemock/src/gmock-spec-builders.cc],
    [include/gmock/gmock-spec-builders.h]).

    The state is what [g_gmock_mutex] protects, the implicit sequence of the
    thread, the flags, and the reports so far; an operation is a function of it
    that comes to an outcome.  Everything a call does to the expectations
    happens under the mutex, so threads interleave whole operations.  The
    user's part is given: matchers and actions (functions of the arguments,
    without effects on mock objects), how values print, the default value of
    the result type.  Mock functions, sequences and expectations are numbers
    in the order they are made in; mock objects are numbers too.  The
    destructor of an expectation, which runs when its last handle goes, is the
    operation [destroy_expectation]; the heap keeps the place. *)

From S2P Require Import Prelude Strings Cardinality Expectation.
From stdpp Require Import base gmap list strings.
From Stdlib Require Import ZArith Ascii.

Open Scope Z_scope.

Inductive CallReaction := kAllow | kWarn | kFail.
Definition kDefault : CallReaction := kWarn.

(** [struct MockObjectState]. *)
Record MockObjectState := mkObject {
  first_used_file : option string;
  first_used_line : Z;
  first_used_test_case : string;
  first_used_test : string;
  leakable : bool;
  function_mockers : list nat
}.
Definition new_object : MockObjectState := mkObject None (-1) "" "" false [].
#[export] Instance MockObjectState_inhabited : Inhabited MockObjectState := populate new_object.

Inductive OnCallClause := kOnCallNone | kOnCallWith | kWillByDefault.
Definition on_call_clause_number (c : OnCallClause) : Z :=
  match c with kOnCallNone => 0 | kOnCallWith => 1 | kWillByDefault => 2 end.

Section Mockers.
Context {Args Action Result : Type}.

(** [Action<F>::Perform] of an action that is not [DoDefault()],
    [DefaultValue<Result>] ([None] where it does not exist), whether the result
    type is [void], and the printers. *)
Context (Perform : Action → Args → Result) (DefaultValue : option Result)
        (returns_void : bool) (UniversalPrint : Args → string) (PrintAsActionResult : Result → string)
        (show_address : nat → string).

Notation TypedExpectation := (TypedExpectation Args Action).
Notation ArgumentMatcherTuple := (ArgumentMatcherTuple Args).
Notation Matcher := (Matcher Args).

(** [class OnCallSpec]. *)
Record OnCallSpec := mkOnCall {
  on_file_ : string;
  on_line_ : Z;
  on_last_clause_ : OnCallClause;
  on_matchers_ : ArgumentMatcherTuple;
  on_extra_matcher_ : Matcher;
  on_action_ : option Action
}.

(** [class UntypedFunctionMockerBase]. *)
Record FunctionMocker := mkMocker {
  mock_obj_ : option nat;
  name_ : option string;
  untyped_on_call_specs_ : list OnCallSpec;
  untyped_expectations_ : list nat
}.
Definition new_mocker : FunctionMocker := mkMocker None (Some "") [] [].

Record World := mkWorld {
  heap : Heap Args Action;
  mockers : list FunctionMocker;
  sequences : list Expectation;                 (** [Sequence::last_expectation_] *)
  implicit_sequence : option nat;               (** [g_gmock_implicit_sequence] *)
  registry : gmap nat MockObjectState;          (** [g_mock_object_registry] *)
  uninteresting : gmap nat CallReaction;        (** [g_uninteresting_call_reaction] *)
  verbose : string;                             (** [--gmock_verbose] *)
  catch_leaked_mocks : bool;
  current_test : option (string * string);      (** test case and test that run *)
  reports : list Report
}.

Definition set_heap (h : Heap Args Action) (w : World) : World :=
  mkWorld h w.(mockers) w.(sequences) w.(implicit_sequence) w.(registry) w.(uninteresting)
    w.(verbose) w.(catch_leaked_mocks) w.(current_test) w.(reports).
Definition set_mockers (ms : list FunctionMocker) (w : World) : World :=
  mkWorld w.(heap) ms w.(sequences) w.(implicit_sequence) w.(registry) w.(uninteresting)
    w.(verbose) w.(catch_leaked_mocks) w.(current_test) w.(reports).
Definition set_sequences (s : list Expectation) (i : option nat) (w : World) : World :=
  mkWorld w.(heap) w.(mockers) s i w.(registry) w.(uninteresting)
    w.(verbose) w.(catch_leaked_mocks) w.(current_test) w.(reports).
Definition set_registry (r : gmap nat MockObjectState) (w : World) : World :=
  mkWorld w.(heap) w.(mockers) w.(sequences) w.(implicit_sequence) r w.(uninteresting)
    w.(verbose) w.(catch_leaked_mocks) w.(current_test) w.(reports).
Definition set_uninteresting (r : gmap nat CallReaction) (w : World) : World :=
  mkWorld w.(heap) w.(mockers) w.(sequences) w.(implicit_sequence) w.(registry) r
    w.(verbose) w.(catch_leaked_mocks) w.(current_test) w.(reports).
Definition set_reports (r : list Report) (w : World) : World :=
  mkWorld w.(heap) w.(mockers) w.(sequences) w.(implicit_sequence) w.(registry) w.(uninteresting)
    w.(verbose) w.(catch_leaked_mocks) w.(current_test) r.

(** * Outcomes *)

(** A value; an exception thrown; the process aborted by a failed [Assert]; or
    undefined behaviour (a null or dangling pointer, the overflow of a count). *)
Inductive Outcome (A : Type) :=
  | Done (a : A) (w : World)
  | Thrown (what : string) (w : World)
  | Aborted (w : World)
  | Undefined.
Arguments Done {A} a w.
Arguments Thrown {A} what w.
Arguments Aborted {A} w.
Arguments Undefined {A}.

Definition M (A : Type) : Type := World → Outcome A.
Definition ret {A} (a : A) : M A := λ w, Done a w.
Definition bind {A B} (x : M A) (k : A → M B) : M B := λ w,
  match x w with
  | Done a w => k a w
  | Thrown what w => Thrown what w
  | Aborted w => Aborted w
  | Undefined => Undefined
  end.
#[local] Notation "x <-- p ;; k" := (bind p (λ x, k)) (at level 100, p at next level, right associativity).
#[local] Notation "p ;;; k" := (bind p (λ _, k)) (at level 100, right associativity).

Definition get : M World := λ w, Done w w.
Definition modify (f : World → World) : M unit := λ w, Done tt (f w).
Definition defined {A} (o : option A) : M A := λ w,
  match o with Some a => Done a w | None => Undefined end.

Definition LogIsVisible (flag : string) (severity : LogSeverity) : bool :=
  if decide (flag = "info") then true
  else if decide (flag = "error") then false
  else match severity with kWarning => true | kInfo => false end.

(** [Log], and a failure, in the order they are reported. *)
Definition visible (flag : string) (r : Report) : bool :=
  match r with Failure _ _ _ _ => true | Logged severity _ => LogIsVisible flag severity end.
Definition report (r : list Report) : M unit :=
  modify (λ w, set_reports (w.(reports) ++ filter (λ x, visible w.(verbose) x) r) w).
Definition LogWithLocation (severity : LogSeverity) (file : string) (line : Z) (message : string) :
    M unit :=
  report [Logged severity (file +:+ ":" +:+ to_string line +:+ ": " +:+ message +:+ endl)].

(** [Assert]: a fatal failure aborts. *)
Definition Assert (condition : bool) (file : option string) (line : Z) (message : string) : M unit :=
  if condition then ret tt
  else report [Failure true file line message] ;;; λ w, Aborted w.

Definition get_mocker (m : nat) : M FunctionMocker :=
  w <-- get ;; defined (w.(mockers) !! m).
Definition put_mocker (m : nat) (f : FunctionMocker → FunctionMocker) : M unit :=
  modify (λ w, set_mockers (alter f m w.(mockers)) w).
Definition get_expectation (i : nat) : M TypedExpectation :=
  w <-- get ;; defined (w.(heap) !! i).
Definition put_expectation (i : nat) (e : TypedExpectation) : M unit :=
  modify (λ w, set_heap (<[i := e]> w.(heap)) w).

(** A step of one expectation that reports. *)
Definition on_expectation (i : nat) (f : TypedExpectation → TypedExpectation * list Report) : M unit :=
  e <-- get_expectation i ;;
  let '(e, r) := f e in put_expectation i e ;;; report r.

(** * The registry: [class Mock] *)

Definition object_state (obj : nat) (w : World) : MockObjectState :=
  default new_object (w.(registry) !! obj).

Definition Register (mock_obj mocker : nat) : M unit := modify (λ w,
  let s := object_state mock_obj w in
  let fm := s.(function_mockers) in
  set_registry (<[mock_obj := mkObject s.(first_used_file) s.(first_used_line)
      s.(first_used_test_case) s.(first_used_test) s.(leakable)
      (if decide (mocker ∈ fm) then fm else fm ++ [mocker])]> w.(registry)) w).

Definition RegisterUseByOnCallOrExpectCall (mock_obj : nat) (file : string) (line : Z) : M unit :=
  modify (λ w,
    let s := object_state mock_obj w in
    set_registry (<[mock_obj :=
      match s.(first_used_file) with
      | Some _ => s
      | None =>
          let '(tc, t) := default (s.(first_used_test_case), s.(first_used_test)) w.(current_test) in
          mkObject (Some file) line tc t s.(leakable) s.(function_mockers)
      end]> w.(registry)) w).

Definition AllowLeak (mock_obj : nat) : M unit := modify (λ w,
  let s := object_state mock_obj w in
  set_registry (<[mock_obj := mkObject s.(first_used_file) s.(first_used_line)
      s.(first_used_test_case) s.(first_used_test) true s.(function_mockers)]> w.(registry)) w).

(** The loop of [UnregisterLocked] over the objects. *)
Fixpoint unregister (mocker : nat) (l : list (nat * MockObjectState)) (r : gmap nat MockObjectState) :
    gmap nat MockObjectState :=
  match l with
  | [] => r
  | (obj, s) :: l =>
      if decide (mocker ∈ s.(function_mockers)) then
        match filter (λ m, m ≠ mocker) s.(function_mockers) with
        | [] => delete obj r
        | fm => <[obj := mkObject s.(first_used_file) s.(first_used_line)
                   s.(first_used_test_case) s.(first_used_test) s.(leakable) fm]> r
        end
      else unregister mocker l r
  end.
Definition UnregisterLocked (mocker : nat) : M unit :=
  modify (λ w, set_registry (unregister mocker (map_to_list w.(registry)) w.(registry)) w).

Definition SetReactionOnUninterestingCalls (mock_obj : nat) (reaction : CallReaction) : M unit :=
  modify (λ w, set_uninteresting (<[mock_obj := reaction]> w.(uninteresting)) w).
Definition AllowUninterestingCalls (mock_obj : nat) : M unit :=
  SetReactionOnUninterestingCalls mock_obj kAllow.
Definition WarnUninterestingCalls (mock_obj : nat) : M unit :=
  SetReactionOnUninterestingCalls mock_obj kWarn.
Definition FailUninterestingCalls (mock_obj : nat) : M unit :=
  SetReactionOnUninterestingCalls mock_obj kFail.
Definition UnregisterCallReaction (mock_obj : nat) : M unit :=
  modify (λ w, set_uninteresting (delete mock_obj w.(uninteresting)) w).
Definition GetReactionOnUninterestingCalls (mock_obj : nat) : M CallReaction :=
  w <-- get ;; ret (default kDefault (w.(uninteresting) !! mock_obj)).

(** [~MockObjectRegistry]: what it prints, and the code it exits with. *)
Definition leak_line (obj : nat) (s : MockObjectState) : string :=
  endl +:+ FormatFileLocation (default "unknown file" s.(first_used_file)) s.(first_used_line) +:+
  " ERROR: this mock object" +:+
  (if decide (s.(first_used_test) = "") then "" else
     " (used in test " +:+ s.(first_used_test_case) +:+ "." +:+ s.(first_used_test) +:+ ")") +:+
  " should be deleted but never is. Its address is @" +:+ show_address obj +:+ ".".
Definition leaked (w : World) : list (nat * MockObjectState) :=
  filter (λ x, negb x.2.(leakable)) (map_to_list w.(registry)).
Definition registry_destructor (w : World) : string * option Z :=
  if negb w.(catch_leaked_mocks) then ("", None) else
  let l := leaked w in
  let lines := foldr (λ x s, leak_line x.1 x.2 +:+ s) "" l in
  match l with
  | [] => (lines, None)
  | _ => (lines +:+ endl +:+ "ERROR: " +:+ to_string (Z.of_nat (length l)) +:+ " leaked mock " +:+
          (if Z.of_nat (length l) =? 1 then "object" else "objects") +:+
          " found at program exit." +:+ endl, Some 1)
  end.

(** * Owners and names *)

Definition RegisterOwner (m mock_obj : nat) : M unit :=
  put_mocker m (λ f, mkMocker (Some mock_obj) f.(name_) f.(untyped_on_call_specs_)
                       f.(untyped_expectations_)) ;;;
  Register mock_obj m.
Definition SetOwnerAndName (m mock_obj : nat) (name : string) : M unit :=
  put_mocker m (λ f, mkMocker (Some mock_obj) (Some name) f.(untyped_on_call_specs_)
                       f.(untyped_expectations_)).
Definition MockObject (m : nat) : M nat :=
  f <-- get_mocker m ;;
  Assert (bool_decide (is_Some f.(mock_obj_))) (Some "gmock-spec-builders.cc") 310
    "MockObject() must not be called before RegisterOwner() or SetOwnerAndName() has been called." ;;;
  defined f.(mock_obj_).
Definition Name (m : nat) : M string :=
  f <-- get_mocker m ;;
  Assert (bool_decide (is_Some f.(name_))) (Some "gmock-spec-builders.cc") 327
    "Name() must not be called before SetOwnerAndName() has been called." ;;;
  defined f.(name_).

(** * Sequences *)

Definition new_sequence : M nat :=
  w <-- get ;;
  modify (λ w, set_sequences (w.(sequences) ++ [None]) w.(implicit_sequence) w) ;;;
  ret (length w.(sequences)).

(** [expectation.expectation_base()->immediate_prerequisites_ += last]. *)
Definition add_prerequisite (expectation last : Expectation) : M unit :=
  i <-- defined expectation ;;
  e <-- get_expectation i ;;
  put_expectation i (set_prerequisites (insert_handle last e.(immediate_prerequisites_)) e).

Definition AddExpectation (s : nat) (expectation : Expectation) : M unit :=
  w <-- get ;;
  last <-- defined (w.(sequences) !! s) ;;
  if decide (last = expectation) then ret tt
  else
    (match last with
     | None => ret tt
     | Some _ => add_prerequisite expectation last
     end) ;;;
    modify (λ w, set_sequences (<[s := expectation]> w.(sequences)) w.(implicit_sequence) w).

(** The constructor and the destructor of [class InSequence]; the constructor
    leaves [sequence_created_]. *)
Definition enter_InSequence : M bool :=
  w <-- get ;;
  match w.(implicit_sequence) with
  | None =>
      s <-- new_sequence ;;
      modify (λ w, set_sequences w.(sequences) (Some s) w) ;;; ret true
  | Some _ => ret false
  end.
Definition leave_InSequence (sequence_created_ : bool) : M unit :=
  if sequence_created_ then modify (λ w, set_sequences w.(sequences) None w) else ret tt.

(** * [EXPECT_CALL] *)

Definition GetHandleOf (m i : nat) : M Expectation :=
  f <-- get_mocker m ;;
  if decide (i ∈ f.(untyped_expectations_)) then ret (Some i)
  else
    Assert false (Some "gmock-spec-builders.cc") 458 "Cannot find expectation." ;;; ret None.
Definition GetHandle (i : nat) : M Expectation :=
  e <-- get_expectation i ;; GetHandleOf e.(owner_) i.

Definition AddNewExpectation (m : nat) (file : string) (line : Z) (source_text : string)
    (matchers : ArgumentMatcherTuple) : M nat :=
  obj <-- MockObject m ;;
  RegisterUseByOnCallOrExpectCall obj file line ;;;
  w <-- get ;;
  let i := length w.(heap) in
  modify (λ w, set_heap (w.(heap) ++ [new_expectation m file line source_text matchers]) w) ;;;
  put_mocker m (λ f, mkMocker f.(mock_obj_) f.(name_) f.(untyped_on_call_specs_)
                       (f.(untyped_expectations_) ++ [i])) ;;;
  (match w.(implicit_sequence) with
   | Some s => AddExpectation s (Some i)
   | None => ret tt
   end) ;;;
  ret i.

Definition InternalExpectedAt (m : nat) (file : string) (line : Z) (obj call : string)
    (matchers : ArgumentMatcherTuple) : M nat :=
  let source_text := "EXPECT_CALL(" +:+ obj +:+ ", " +:+ call +:+ ")" in
  LogWithLocation kInfo file line (source_text +:+ " invoked") ;;;
  AddNewExpectation m file line source_text matchers.

(** [.InSequence(s)]. *)
Definition InSequence (s i : nat) : M unit :=
  on_expectation i begin_InSequence ;;;
  h <-- GetHandle i ;; AddExpectation s h.

(** A clause of [EXPECT_CALL], with its argument. *)
Inductive ClauseUse :=
  | UseWith (m : Matcher)
  | UseTimes (c : Cardinality)
  | UseInSequence (s : nat)
  | UseAfter (s : ExpectationSet)
  | UseWillOnce (a : option Action)
  | UseWillRepeatedly (a : option Action)
  | UseRetiresOnSaturation.

Definition use_clause (i : nat) (c : ClauseUse) : M unit :=
  match c with
  | UseWith m => on_expectation i (With m)
  | UseTimes c => on_expectation i (Times c)
  | UseInSequence s => InSequence s i
  | UseAfter s => on_expectation i (After s)
  | UseWillOnce a => on_expectation i (WillOnce a)
  | UseWillRepeatedly a => on_expectation i (WillRepeatedly a)
  | UseRetiresOnSaturation => on_expectation i RetiresOnSaturation
  end.
Fixpoint use_clauses (i : nat) (l : list ClauseUse) : M unit :=
  match l with
  | [] => ret tt
  | c :: l => use_clause i c ;;; use_clauses i l
  end.

(** The statement [EXPECT_CALL(obj, call).clause(..)...;]: the method
    [gmock_call] of the mock object, then the specification. *)
Definition EXPECT_CALL (m mock_obj : nat) (file : string) (line : Z) (obj call : string)
    (matchers : ArgumentMatcherTuple) (clauses : list ClauseUse) : M nat :=
  RegisterOwner m mock_obj ;;;
  i <-- InternalExpectedAt m file line obj call matchers ;;
  use_clauses i clauses ;;; ret i.

(** [~TypedExpectation]. *)
Definition destroy_expectation (i : nat) : M unit := on_expectation i CheckActionCountIfNotDone.

(** * [ON_CALL] *)

Definition expect_on_call (s : OnCallSpec) (property : bool) (message : string) : list Report :=
  Expect property (Some s.(on_file_)) s.(on_line_) message.
Definition on_call_With (m : Matcher) (s : OnCallSpec) : OnCallSpec * list Report :=
  (mkOnCall s.(on_file_) s.(on_line_) kOnCallWith s.(on_matchers_) m s.(on_action_),
   expect_on_call s (on_call_clause_number s.(on_last_clause_) <? on_call_clause_number kOnCallWith)
     ".With() cannot appear more than once in an ON_CALL().").
Definition WillByDefault (action : option Action) (s : OnCallSpec) : OnCallSpec * list Report :=
  (mkOnCall s.(on_file_) s.(on_line_) kWillByDefault s.(on_matchers_) s.(on_extra_matcher_) action,
   expect_on_call s (on_call_clause_number s.(on_last_clause_) <? on_call_clause_number kWillByDefault)
     ".WillByDefault() must appear exactly once in an ON_CALL()." ++
   expect_on_call s (bool_decide (is_Some action)) "DoDefault() cannot be used in ON_CALL().").

Inductive OnCallUse := UseOnCallWith (m : Matcher) | UseWillByDefault (a : option Action).
Definition use_on_call (c : OnCallUse) (s : OnCallSpec) : OnCallSpec * list Report :=
  match c with UseOnCallWith m => on_call_With m s | UseWillByDefault a => WillByDefault a s end.
Fixpoint use_on_calls (l : list OnCallUse) (s : OnCallSpec) : OnCallSpec * list Report :=
  match l with
  | [] => (s, [])
  | c :: l => let '(s, r) := use_on_call c s in let '(s, r') := use_on_calls l s in (s, r ++ r')
  end.

(** The statement [ON_CALL(obj, call).clause(..)...;]: the specification is in
    the list when the clauses change it, and nobody else looks at it then. *)
Definition ON_CALL (m mock_obj : nat) (file : string) (line : Z) (obj call : string)
    (matchers : ArgumentMatcherTuple) (clauses : list OnCallUse) : M unit :=
  RegisterOwner m mock_obj ;;;
  LogWithLocation kInfo file line ("ON_CALL(" +:+ obj +:+ ", " +:+ call +:+ ") invoked") ;;;
  o <-- MockObject m ;;
  RegisterUseByOnCallOrExpectCall o file line ;;;
  let '(s, r) := use_on_calls clauses
                   (mkOnCall file line kOnCallNone matchers matches_anything None) in
  put_mocker m (λ f, mkMocker f.(mock_obj_) f.(name_) (f.(untyped_on_call_specs_) ++ [s])
                       f.(untyped_expectations_)) ;;;
  report r.

Definition on_call_Matches (s : OnCallSpec) (args : Args) : bool :=
  s.(on_matchers_).(TupleMatches) args && matcher_Matches s.(on_extra_matcher_) args.
Definition FindOnCallSpec (f : FunctionMocker) (args : Args) : option OnCallSpec :=
  find (λ s, on_call_Matches s args) (reverse f.(untyped_on_call_specs_)).

Definition ClearDefaultActionsLocked (m : nat) : M unit :=
  put_mocker m (λ f, mkMocker f.(mock_obj_) f.(name_) [] f.(untyped_expectations_)).

(** * A call of a mock function *)

(** [OnCallSpec::GetAction] and [Action::Perform] of what it gives. *)
Definition perform_on_call (s : OnCallSpec) (args : Args) : M Result :=
  Assert (bool_decide (on_call_clause_number s.(on_last_clause_) = on_call_clause_number kWillByDefault))
    (Some s.(on_file_)) s.(on_line_) ".WillByDefault() must appear exactly once in an ON_CALL()." ;;;
  match s.(on_action_) with
  | Some a => ret (Perform a args)
  | None =>
      Assert false (Some "gmock-actions.h") 390
        "You are using DoDefault() inside a composite action like DoAll() or WithArgs().  This is not supported for technical reasons.  Please instead spell out the default action, or assign the default action to an Action variable and use the variable in various places." ;;;
      defined None
  end.

Definition PerformDefaultAction (m : nat) (args : Args) (call_description : string) : M Result :=
  f <-- get_mocker m ;;
  match FindOnCallSpec f args with
  | Some s => perform_on_call s args
  | None =>
      match DefaultValue with
      | Some r => ret r
      | None => λ w, Thrown (call_description +:+ endl +:+
          "    The mock function has no default action set, and its return type has no default value set.") w
      end
  end.

Definition DescribeDefaultActionTo (f : FunctionMocker) (args : Args) : string :=
  match FindOnCallSpec f args with
  | None => (if returns_void then "returning directly." else "returning default value.") +:+ endl
  | Some s => "taking default action specified at:" +:+ endl +:+
              FormatFileLocation s.(on_file_) s.(on_line_) +:+ endl
  end.

(** [FindMatchingExpectationLocked], over the expectations from the newest on;
    each of them has its action count checked when it is tried. *)
Fixpoint find_matching (args : Args) (l : list nat) : M (option nat) :=
  match l with
  | [] => ret None
  | i :: l =>
      on_expectation i CheckActionCountIfNotDone ;;;
      w <-- get ;;
      b <-- defined (should_handle w.(heap) i args) ;;
      if b then ret (Some i) else find_matching args l
  end.
Definition FindMatchingExpectationLocked (m : nat) (args : Args) : M (option nat) :=
  f <-- get_mocker m ;; find_matching args (reverse f.(untyped_expectations_)).

(** The loop of [PrintTriedExpectationsLocked], from number [n] on. *)
Fixpoint tried (h : Heap Args Action) (count n : Z) (l : list nat) (args : Args) : option string :=
  match l with
  | [] => Some ""
  | i :: l =>
      e ← h !! i;
      why ← ExplainMatchResultTo h i args;
      rest ← tried h count (n + 1) l args;
      Some (endl +:+ DescribeLocationTo e +:+
            (if count >? 1 then "tried expectation #" +:+ to_string n +:+ ": " else "") +:+
            e.(source_text_) +:+ "..." +:+ endl +:+ why +:+ DescribeCallCountTo e +:+ rest)
  end.
Definition PrintTriedExpectationsLocked (h : Heap Args Action) (f : FunctionMocker) (args : Args) :
    option string :=
  let count := Z.of_nat (length f.(untyped_expectations_)) in
  l ← tried h count 0 f.(untyped_expectations_) args;
  Some ("Google Mock tried the following " +:+ to_string count +:+ " " +:+
        (if count =? 1 then "expectation, but it didn't match"
         else "expectations, but none matched") +:+ ":" +:+ endl +:+ l).

Record Match := mkMatch {
  matched_expectation : option nat;
  untyped_action : option Action;
  is_excessive : bool;
  what_of_match : string;
  why_of_match : string
}.
(** [UntypedFindMatchingExpectation]: the critical section of a call. *)
Definition UntypedFindMatchingExpectation (m : nat) (args : Args) : M Match :=
  exp <-- FindMatchingExpectationLocked m args ;;
  f <-- get_mocker m ;;
  w <-- get ;;
  match exp with
  | None =>
      (* FormatUnexpectedCallMessageLocked *)
      why <-- defined (PrintTriedExpectationsLocked w.(heap) f args) ;;
      ret (mkMatch None None false
             (endl +:+ "Unexpected mock function call - " +:+ DescribeDefaultActionTo f args) why)
  | Some i =>
      e <-- get_expectation i ;;
      r <-- defined (GetActionForArguments (DescribeDefaultActionTo f args) w.(heap) i) ;;
      modify (set_heap r.(heap_after)) ;;;
      report r.(logged_for) ;;;
      ret (mkMatch (Some i) (mjoin r.(action_for)) (IsSaturated e) r.(what_for) r.(why_for))
  end.

Definition ReportUninterestingCall (reaction : CallReaction) (msg : string) : M unit :=
  match reaction with
  | kAllow => report [Logged kInfo msg]
  | kWarn => report [Logged kWarning (msg +:+ endl +:+
      "NOTE: You can safely ignore the above warning unless this call should not happen.  Do not suppress it by blindly adding an EXPECT_CALL() if you don't mean to enforce the call.  See https://github.com/google/googletest/blob/master/googlemock/docs/CookBook.md#knowing-when-to-expect for details." +:+ endl)]
  | kFail => report (Expect false None (-1) msg)
  end.

Definition UntypedDescribeUninterestingCall (m : nat) (args : Args) : M string :=
  f <-- get_mocker m ;;
  name <-- Name m ;;
  ret ("Uninteresting mock function call - " +:+ DescribeDefaultActionTo f args +:+
       "    Function call: " +:+ name +:+ UniversalPrint args).

(** The branch of [UntypedInvokeWith] for a function without expectations. *)
Definition uninteresting_call (m : nat) (args : Args) : M Result :=
  obj <-- MockObject m ;;
  reaction <-- GetReactionOnUninterestingCalls obj ;;
  w <-- get ;;
  let need_to_report_uninteresting_call :=
    match reaction with
    | kAllow => LogIsVisible w.(verbose) kInfo
    | kWarn => LogIsVisible w.(verbose) kWarning
    | kFail => true
    end in
  if negb need_to_report_uninteresting_call then PerformDefaultAction m args ""
  else
    ss <-- UntypedDescribeUninterestingCall m args ;;
    result <-- PerformDefaultAction m args ss ;;
    ReportUninterestingCall reaction (ss +:+ PrintAsActionResult result) ;;;
    ret result.

Definition perform (m : nat) (action : option Action) (args : Args) (call_description : string) :
    M Result :=
  match action with
  | None => PerformDefaultAction m args call_description
  | Some a => ret (Perform a args)
  end.

(** The rest of [UntypedInvokeWith], after the critical section. *)
Definition finish_call (m : nat) (args : Args) (r : Match) : M Result :=
  w <-- get ;;
  let found := bool_decide (is_Some r.(matched_expectation)) in
  let need_to_report_call :=
    negb found || r.(is_excessive) || LogIsVisible w.(verbose) kInfo in
  if negb need_to_report_call then perform m r.(untyped_action) args ""
  else
    name <-- Name m ;;
    let ss := r.(what_of_match) +:+ "    Function call: " +:+ name +:+ UniversalPrint args in
    result <-- perform m r.(untyped_action) args ss ;;
    let ss := ss +:+ PrintAsActionResult result +:+ endl +:+ r.(why_of_match) in
    match r.(matched_expectation) with
    | None => report (Expect false None (-1) ss)
    | Some i =>
        e <-- get_expectation i ;;
        if r.(is_excessive) then report (Expect false (Some e.(file_)) e.(line_) ss)
        else report [Logged kInfo (DescribeLocationTo e +:+ ss)]
    end ;;;
    ret result.

Definition UntypedInvokeWith (m : nat) (args : Args) : M Result :=
  f <-- get_mocker m ;;
  match f.(untyped_expectations_) with
  | [] => uninteresting_call m args
  | _ => r <-- UntypedFindMatchingExpectation m args ;; finish_call m args r
  end.

(** The mocked method itself. *)
Definition call (m mock_obj : nat) (name : string) (args : Args) : M Result :=
  SetOwnerAndName m mock_obj name ;;; UntypedInvokeWith m args.

(** * Verification *)

(** The loop of [VerifyAndClearExpectationsLocked]. *)
Fixpoint verify (l : list nat) (expectations_met : bool) : M bool :=
  match l with
  | [] => ret expectations_met
  | i :: l =>
      e <-- get_expectation i ;;
      if IsOverSaturated e then verify l false
      else if negb (IsSatisfied e) then
        report (Expect false (Some e.(file_)) e.(line_)
          ("Actual function call count doesn't match " +:+ e.(source_text_) +:+ "..." +:+ endl +:+
           MaybeDescribeExtraMatcherTo e +:+ DescribeCallCountTo e)) ;;;
        verify l false
      else verify l expectations_met
  end.
Definition VerifyAndClearExpectationsLocked (m : nat) : M bool :=
  f <-- get_mocker m ;;
  expectations_met <-- verify f.(untyped_expectations_) true ;;
  put_mocker m (λ f, mkMocker f.(mock_obj_) f.(name_) f.(untyped_on_call_specs_) []) ;;;
  ret expectations_met.

(** [~FunctionMockerBase]. *)
Definition destroy_mocker (m : nat) : M unit :=
  VerifyAndClearExpectationsLocked m ;;;
  UnregisterLocked m ;;;
  ClearDefaultActionsLocked m.

(** [Mock::VerifyAndClearExpectationsLocked] and [Mock::ClearDefaultActionsLocked],
    over the functions of an object. *)
Fixpoint verify_mockers (l : list nat) (expectations_met : bool) : M bool :=
  match l with
  | [] => ret expectations_met
  | m :: l =>
      b <-- VerifyAndClearExpectationsLocked m ;;
      verify_mockers l (if negb b then false else expectations_met)
  end.
Definition VerifyAndClearExpectations (mock_obj : nat) : M bool :=
  w <-- get ;;
  match w.(registry) !! mock_obj with
  | None => ret true
  | Some s => verify_mockers s.(function_mockers) true
  end.
Fixpoint clear_default_actions (l : list nat) : M unit :=
  match l with
  | [] => ret tt
  | m :: l => ClearDefaultActionsLocked m ;;; clear_default_actions l
  end.
Definition ClearDefaultActions (mock_obj : nat) : M unit :=
  w <-- get ;;
  match w.(registry) !! mock_obj with
  | None => ret tt
  | Some s => clear_default_actions s.(function_mockers)
  end.
Definition VerifyAndClear (mock_obj : nat) : M bool :=
  ClearDefaultActions mock_obj ;;; VerifyAndClearExpectations mock_obj.

End Mockers.

Arguments OnCallSpec : clear implicits.
Arguments FunctionMocker : clear implicits.
Arguments World : clear implicits.
Arguments ClauseUse : clear implicits.
Arguments OnCallUse : clear implicits.
Arguments Match : clear implicits.
Arguments Outcome : clear implicits.
Arguments M : clear implicits.
Arguments Done {Args Action A} a w.
Arguments Thrown {Args Action A} what w.
Arguments Aborted {Args Action A} w.
Arguments Undefined {Args Action A}.
