(* ===== verification/MockerFacts.v ===== *)
(** Facts about [Mocker]: the invariant of the expectations, the order that
    sequences and [After] impose, which expectation takes a call, and what the
    verification says. *)

From S2P Require Import Prelude Strings Cardinality Expectation ExpectationFacts Mocker.
From stdpp Require Import base gmap list strings relations.
From Stdlib Require Import ZArith Lia.

Open Scope Z_scope.

Section Facts.
Context {Args Action Result : Type}.
Context (Perform : Action → Args → Result) (DefaultValue : option Result)
        (returns_void : bool) (UniversalPrint : Args → string) (PrintAsActionResult : Result → string).
Notation World := (World Args Action).
Notation M := (M Args Action).
Notation TypedExpectation := (TypedExpectation Args Action).

(** * Reasoning about outcomes *)

(** [x] comes to a value with [Q]. *)
Definition comes_to {A} (x : M A) (w : World) (Q : A → World → Prop) : Prop :=
  ∃ a w', x w = Done a w' ∧ Q a w'.

Lemma comes_ret {A} (a : A) w (Q : A → World → Prop) : Q a w → comes_to (ret a) w Q.
Proof. intros H. by exists a, w. Qed.
Lemma comes_bind {A B} (x : M A) (k : A → M B) w (R : A → World → Prop) Q :
  comes_to x w R → (∀ a w', R a w' → comes_to (k a) w' Q) → comes_to (bind x k) w Q.
Proof.
  intros (a & w1 & E & HR) Hk. destruct (Hk a w1 HR) as (b & w2 & E2 & HQ).
  exists b, w2. unfold bind. by rewrite E.
Qed.
Lemma comes_mono {A} (x : M A) w (R Q : A → World → Prop) :
  comes_to x w R → (∀ a w', R a w' → Q a w') → comes_to x w Q.
Proof. intros (a & w' & E & HR) H. exists a, w'. auto. Qed.


Lemma comes_assoc {A B C} (x : M A) (k : A → M B) (k2 : B → M C) w Q :
  comes_to (bind x (λ a, bind (k a) k2)) w Q → comes_to (bind (bind x k) k2) w Q.
Proof.
  intros (c & w' & E & HQ). exists c, w'. split; [|done].
  rewrite <- E. unfold bind. by destruct (x w).
Qed.
Lemma comes_get {A} (k : World → M A) w Q : comes_to (k w) w Q → comes_to (bind get k) w Q.
Proof. done. Qed.
Lemma comes_modify {A} f (k : unit → M A) w Q :
  comes_to (k tt) (f w) Q → comes_to (bind (modify f) k) w Q.
Proof. done. Qed.
Lemma comes_modify' f w (Q : unit → World → Prop) : Q tt (f w) → comes_to (modify f) w Q.
Proof. intros H. by exists tt, (f w). Qed.
Lemma comes_defined {A B} (o : option A) (k : A → M B) a w Q :
  o = Some a → comes_to (k a) w Q → comes_to (bind (defined o) k) w Q.
Proof. by intros ->. Qed.
Lemma comes_defined' {A} (o : option A) a w (Q : A → World → Prop) :
  o = Some a → Q a w → comes_to (defined o) w Q.
Proof. intros -> H. by exists a, w. Qed.

(** * The invariant of the whole state *)

Record world_ok (w : World) : Prop := {
  wo_heap : heap_ok w.(heap);
  wo_lists m f i : w.(mockers) !! m = Some f → i ∈ f.(untyped_expectations_) →
    ∃ e, w.(heap) !! i = Some e ∧ e.(owner_) = m;
  wo_cells s j : w.(sequences) !! s = Some (Some j) → (j < length w.(heap))%nat;
  wo_implicit s : w.(implicit_sequence) = Some s → is_Some (w.(sequences) !! s)
}.

(** The last expectation of the sequence [s], and all it comes after. *)
Definition in_sequence (w : World) (s j : nat) : Prop :=
  ∃ l, w.(sequences) !! s = Some (Some l) ∧ rtc (pre w.(heap)) l j.

(** Worlds that differ in mockers, registry, flags and reports only. *)
Definition same_core (w w' : World) : Prop :=
  w'.(heap) = w.(heap) ∧ w'.(sequences) = w.(sequences) ∧
  w'.(implicit_sequence) = w.(implicit_sequence) ∧
  (∀ m f', w'.(mockers) !! m = Some f' → ∃ f, w.(mockers) !! m = Some f ∧
     ∀ i, i ∈ f'.(untyped_expectations_) → i ∈ f.(untyped_expectations_)).

Lemma world_ok_same w w' : same_core w w' → world_ok w → world_ok w'.
Proof.
  intros (Hh & Hs & Hi & Hm) H. split.
  - rewrite Hh. apply (wo_heap _ H).
  - intros m f i Hf Hin. rewrite Hh. destruct (Hm _ _ Hf) as (g & Hg & Hsub).
    eapply wo_lists; [done..|]. by apply Hsub.
  - intros s j. rewrite Hs, Hh. apply (wo_cells _ H).
  - intros s. rewrite Hs, Hi. apply (wo_implicit _ H).
Qed.

(** * [EXPECT_CALL] *)

(** The statement [EXPECT_CALL] at work: it began in [w0], and builds the
    expectation [i] of the mock function [m]. *)
Record building (w0 : World) (m i : nat) (w : World) : Prop := {
  bu_ok : world_ok w;
  bu_number : i = length w0.(heap);
  bu_length : length w.(heap) = S i;
  bu_old j e : w0.(heap) !! j = Some e → w.(heap) !! j = Some e;
  bu_new : ∃ e, w.(heap) !! i = Some e ∧ uncalled i e ∧ e.(owner_) = m;
  bu_listed : ∃ f, w.(mockers) !! m = Some f ∧ i ∈ f.(untyped_expectations_);
  bu_cells : length w.(sequences) = length w0.(sequences);
  bu_sequences s j : in_sequence w0 s j → in_sequence w s j;
  bu_reports r : r ∈ w0.(reports) → r ∈ w.(reports)
}.

(** What a clause may do to the expectation that is being built. *)
Definition clause_ok (i : nat) (e e' : TypedExpectation) : Prop :=
  uncalled i e' ∧ e'.(owner_) = e.(owner_) ∧
  ∀ p, p ∈ e.(immediate_prerequisites_) → p ∈ e'.(immediate_prerequisites_).

Lemma pre_insert_mono (h : Heap Args Action) i e e' a b : h !! i = Some e →
  (∀ p, p ∈ e.(immediate_prerequisites_) → p ∈ e'.(immediate_prerequisites_)) →
  pre h a b → pre (<[i := e']> h) a b.
Proof.
  intros He Hp (x & Hx & Hb). destruct (decide (a = i)) as [->|Hne].
  - simplify_eq. exists e'. rewrite list_lookup_insert_eq by (by eapply lookup_lt_Some). auto.
  - exists x. by rewrite list_lookup_insert_ne by done.
Qed.
Lemma rtc_mono (R R' : nat → nat → Prop) i j : (∀ a b, R a b → R' a b) → rtc R i j → rtc R' i j.
Proof. intros H. induction 1; [done|]. eapply rtc_l; eauto. Qed.
Lemma tc_mono (R R' : nat → nat → Prop) i j : (∀ a b, R a b → R' a b) → tc R i j → tc R' i j.
Proof. intros H. induction 1; [apply tc_once|eapply tc_l]; eauto. Qed.

Lemma building_update w0 m i w e e' : building w0 m i w → w.(heap) !! i = Some e →
  clause_ok i e e' → building w0 m i (set_heap (<[i := e']> w.(heap)) w) ∧
    ∀ a b, pre w.(heap) a b → pre (<[i := e']> w.(heap)) a b.
Proof.
  intros [Hok Hn Hl Hold (e0 & He0 & Hf & Ho) Hlist Hcells Hseq Hrep] He (Hf' & Ho' & Hp).
  assert (e0 = e) as -> by congruence. subst i.
  assert (∀ a b, pre w.(heap) a b → pre (<[length w0.(heap) := e']> w.(heap)) a b) as Hmono.
  { intros a b. by apply pre_insert_mono with e. }
  split; [|done]. split; try done.
  - split; cbn.
    + eapply heap_ok_fresh; [apply (wo_heap _ Hok)|done..].
    + intros m1 f1 i1 Hm Hin. destruct (wo_lists _ Hok _ _ _ Hm Hin) as (x & Hx & Hox).
      destruct (decide (i1 = length w0.(heap))) as [->|Hne].
      * exists e'. rewrite list_lookup_insert_eq by lia. split; [done|]. simplify_eq. congruence.
      * exists x. by rewrite list_lookup_insert_ne by done.
    + intros s j Hj. rewrite length_insert. by eapply wo_cells.
    + apply (wo_implicit _ Hok).
  - cbn. by rewrite length_insert.
  - intros j x Hx. cbn. rewrite list_lookup_insert_ne; [by apply Hold|].
    apply lookup_lt_Some in Hx. lia.
  - exists e'. cbn. rewrite list_lookup_insert_eq by lia. split_and!; [done..|congruence].
  - intros s j Hj. destruct (Hseq s j Hj) as (l & Hl' & Hr). exists l. split; [done|].
    by eapply rtc_mono.
Qed.

Lemma same_core_reports r w : same_core w (set_reports r w).
Proof. split_and!; [done..|]. intros m f Hf. by exists f. Qed.

Lemma building_report w0 m i w r : building w0 m i w →
  building w0 m i (set_reports (w.(reports) ++ r) w).
Proof.
  intros [Hok Hn Hl Hold Hnew Hlist Hcells Hseq Hrep]. split; try done.
  - eapply world_ok_same; [apply same_core_reports|done].
  - intros x Hx. cbn. apply elem_of_app. auto.
Qed.

(** A clause keeps the expectation in building and what it depends on. *)
Lemma building_clause w0 m i w f :
  building w0 m i w →
  (∀ e, uncalled i e → clause_ok i e (fst (f e))) →
  comes_to (on_expectation i f) w (λ _ w', building w0 m i w' ∧
    w'.(implicit_sequence) = w.(implicit_sequence) ∧
    (∀ a b, pre w.(heap) a b → pre w'.(heap) a b) ∧
    ∃ e, w'.(heap) !! i = Some (fst (f e))).
Proof.
  intros Hb Hf. destruct (bu_new _ _ _ _ Hb) as (e & He & Hu & Ho).
  pose proof (Hf e Hu) as Hc. unfold on_expectation, get_expectation.
  apply comes_assoc, comes_get. eapply comes_defined; [exact He|].
  destruct (f e) as [e' r] eqn:E. unfold put_expectation. apply comes_modify, comes_modify'.
  destruct (building_update _ _ _ _ _ _ Hb He Hc) as [Hb' Hm].
  split_and!; [by apply building_report|done..|]. exists e. rewrite E. cbn.
  apply list_lookup_insert_eq. by eapply lookup_lt_Some.
Qed.

Lemma uncalled_new i m file line src (matchers : ArgumentMatcherTuple Args) :
  uncalled i (new_expectation (Action := Action) m file line src matchers).
Proof. split; [done..|apply Exactly_counting|]. intros p Hp. by apply not_elem_of_nil in Hp. Qed.

(** An uncalled expectation with another cardinality or other pre-requisites. *)
Lemma clause_ok_intro i (e e' : TypedExpectation) : uncalled i e →
  e'.(call_count_) = e.(call_count_) → e'.(retired_) = e.(retired_) → e'.(owner_) = e.(owner_) →
  Counting e'.(cardinality_) →
  (∀ p, p ∈ e.(immediate_prerequisites_) → p ∈ e'.(immediate_prerequisites_)) →
  (∀ p, p ∈ e'.(immediate_prerequisites_) → p ∈ e.(immediate_prerequisites_) ∨
     ∃ j, p = Some j ∧ (j < i)%nat) →
  clause_ok i e e'.
Proof.
  intros [H1 H2 H3 H4] E1 E2 E3 Hc Hp Hp'. split_and!; [|done..]. split; [congruence..|done|].
  intros p [Hin|?]%Hp'; auto.
Qed.

(** The arguments of the clauses: a cardinality of the library or one that
    counts, an existing sequence, expectations made before. *)
Definition valid_clause (w0 : World) (c : ClauseUse Args Action) : Prop :=
  match c with
  | UseTimes c => Counting c
  | UseInSequence s => (s < length w0.(sequences))%nat
  | UseAfter l => ∀ p, p ∈ l → ∃ j, p = Some j ∧ (j < length w0.(heap))%nat
  | _ => True
  end.

Lemma elem_of_insert_handles p (s s0 : ExpectationSet) :
  p ∈ foldl (λ ps h, insert_handle h ps) s0 s ↔ p ∈ s0 ∨ p ∈ s.
Proof.
  revert s0. induction s as [|q s IH]; intros s0; cbn.
  - rewrite elem_of_nil. tauto.
  - rewrite IH, elem_of_insert_handle, elem_of_cons. tauto.
Qed.

Lemma checked_clause_ok i (e e' : TypedExpectation) : clause_ok i e e' →
  clause_ok i e (fst (CheckActionCountIfNotDone e')).
Proof.
  intros H. destruct (CheckActionCount_checked e') as [-> | ->]; [done|].
  destruct H as ([] & ? & ?). by split_and!.
Qed.

Lemma After_ok i (s : ExpectationSet) (e : TypedExpectation) : uncalled i e →
  (∀ p, p ∈ s → ∃ j, p = Some j ∧ (j < i)%nat) → clause_ok i e (fst (After s e)).
Proof.
  intros Hu Hs. apply clause_ok_intro; try done.
  - apply (uc_counting _ _ Hu).
  - intros p Hp. cbn. apply elem_of_insert_handles. auto.
  - intros p Hp. cbn in Hp. apply elem_of_insert_handles in Hp as [?|?]; auto.
Qed.
Lemma WillOnce_ok i a (e : TypedExpectation) : uncalled i e → clause_ok i e (fst (WillOnce a e)).
Proof.
  intros Hu. unfold WillOnce. cbn. case_match; apply clause_ok_intro; try done; auto.
  - apply Exactly_counting.
  - apply (uc_counting _ _ Hu).
Qed.
Lemma WillRepeatedly_ok i a (e : TypedExpectation) :
  uncalled i e → clause_ok i e (fst (WillRepeatedly a e)).
Proof.
  intros Hu. unfold WillRepeatedly. cbn.
  set (e' := if negb _ then _ else _).
  assert (clause_ok i e e') as H.
  { unfold e'. case_match; apply clause_ok_intro; try done; auto.
    - apply AtLeast_counting.
    - apply (uc_counting _ _ Hu). }
  apply checked_clause_ok in H. by destruct (CheckActionCountIfNotDone e').
Qed.
Lemma Retires_ok i (e : TypedExpectation) : uncalled i e → clause_ok i e (fst (RetiresOnSaturation e)).
Proof.
  intros Hu. unfold RetiresOnSaturation. cbn.
  set (e' := set_retires _).
  assert (clause_ok i e e') as H by (apply clause_ok_intro; try done; [apply (uc_counting _ _ Hu)|auto]).
  apply checked_clause_ok in H. by destruct (CheckActionCountIfNotDone e').
Qed.

Lemma building_cells w0 m i w s : building w0 m i w → (s < length w.(sequences))%nat →
  (∀ l, w.(sequences) !! s = Some (Some l) → rtc (pre w.(heap)) i l) →
  building w0 m i (set_sequences (<[s := Some i]> w.(sequences)) w.(implicit_sequence) w).
Proof.
  intros [Hok Hn Hl Hold Hnew Hlist Hcells Hseq Hrep] Hs Hr. split; try done.
  - split; cbn; try apply Hok.
    + intros s' j [(_ & [= <-] & _)|[_ Hj]]%list_lookup_insert_Some; [lia|]. by eapply wo_cells.
    + intros s' Hi. destruct (wo_implicit _ Hok s' Hi) as [x Hx].
      apply lookup_lt_is_Some. rewrite length_insert. by eapply lookup_lt_Some.
  - cbn. by rewrite length_insert.
  - intros s' j Hj. destruct (Hseq s' j Hj) as (l & Hl' & Hlj). cbn.
    destruct (decide (s' = s)) as [->|Hne].
    + exists i. cbn. rewrite list_lookup_insert_eq by done. split; [done|].
      etrans; [by apply Hr|done].
    + exists l. cbn. by rewrite list_lookup_insert_ne by done.
Qed.

Lemma add_prerequisite_ok i l (e : TypedExpectation) : uncalled i e → (l < i)%nat →
  clause_ok i e (set_prerequisites (insert_handle (Some l) e.(immediate_prerequisites_)) e).
Proof.
  intros Hu Hl. apply clause_ok_intro; try done.
  - apply (uc_counting _ _ Hu).
  - intros p Hp. cbn. apply elem_of_insert_handle. auto.
  - intros p Hp. cbn in Hp. apply elem_of_insert_handle in Hp as [->|?]; eauto.
Qed.

(** Put into a sequence, an expectation comes after everything in it. *)
Lemma AddExpectation_building w0 m i w s : building w0 m i w → (s < length w.(sequences))%nat →
  comes_to (AddExpectation s (Some i)) w (λ _ w', building w0 m i w' ∧
    w'.(implicit_sequence) = w.(implicit_sequence) ∧
    (∀ a b, pre w.(heap) a b → pre w'.(heap) a b) ∧
    ∀ j, in_sequence w s j → j = i ∨ tc (pre w'.(heap)) i j).
Proof.
  intros Hb Hs. destruct (lookup_lt_is_Some_2 _ _ Hs) as [last Hlast].
  destruct (bu_new _ _ _ _ Hb) as (e & He & Hu & Ho).
  unfold AddExpectation. apply comes_get. eapply comes_defined; [exact Hlast|].
  case_decide as Hd.
  { apply comes_ret. split_and!; [done..|]. intros j (l & Hl & Hr). simplify_eq.
    apply rtc_cases in Hr as [<-|?]; [by left|by right]. }
  destruct last as [l|].
  - assert (l < i)%nat as Hl.
    { pose proof (wo_cells _ (bu_ok _ _ _ _ Hb) s l Hlast). rewrite (bu_length _ _ _ _ Hb) in *.
      assert (l ≠ i) by congruence. lia. }
    unfold add_prerequisite, get_expectation, put_expectation.
    apply comes_assoc. cbn [defined]. change (bind (defined (Some i)) ?k) with (k i).
    apply comes_assoc, comes_assoc, comes_get.
    eapply comes_defined; [exact He|]. apply comes_modify, comes_modify'.
    set (e' := set_prerequisites _ e).
    destruct (building_update _ _ _ _ _ e' Hb He) as [Hb' Hm]; [by apply add_prerequisite_ok|].
    set (w1 := set_heap (<[i:=e']> w.(heap)) w) in *.
    assert (pre w1.(heap) i l) as Hil.
    { exists e'. cbn. rewrite list_lookup_insert_eq by (by eapply lookup_lt_Some).
      split; [done|]. apply elem_of_insert_handle. by left. }
    split_and!; [|done..|].
    + apply (building_cells w0 m i w1 s); [done..|]. intros l' Hl'. cbn in Hl'. simplify_eq.
      by apply rtc_once.
    + intros j (l' & Hl' & Hr). simplify_eq. right. eapply tc_rtc_r; [by apply tc_once|].
      by eapply rtc_mono.
  - apply comes_modify, comes_modify'. split_and!; [|done..|].
    + apply building_cells; [done..|]. intros l Hl. congruence.
    + intros j (l & Hl & _). congruence.
Qed.

(** The handle of an expectation that is being built. *)
Lemma GetHandle_building w0 m i w : building w0 m i w →
  comes_to (GetHandle i) w (λ h w', h = Some i ∧ w' = w).
Proof.
  intros Hb. destruct (bu_new _ _ _ _ Hb) as (e & He & _ & Ho).
  destruct (bu_listed _ _ _ _ Hb) as (f & Hf & Hin).
  unfold GetHandle, GetHandleOf, get_expectation, get_mocker. rewrite <- Ho in Hf.
  apply comes_assoc, comes_get. eapply comes_defined; [exact He|].
  apply comes_assoc, comes_get. eapply comes_defined; [exact Hf|].
  rewrite decide_True by done. by apply comes_ret.
Qed.

(** Whatever was in the sequence of an [InSequence] clause comes before. *)
Definition after_clause (w0 : World) (i : nat) (w' : World) (c : ClauseUse Args Action) : Prop :=
  match c with
  | UseInSequence s => ∀ j, in_sequence w0 s j → tc (pre w'.(heap)) i j
  | UseAfter l => ∀ j, Some j ∈ l → tc (pre w'.(heap)) i j
  | _ => True
  end.

Lemma in_sequence_old w0 s j : world_ok w0 → in_sequence w0 s j → (j < length w0.(heap))%nat.
Proof.
  intros Hok (l & Hl & Hr). pose proof (wo_cells _ Hok _ _ Hl).
  apply rtc_cases in Hr as [<-|Hr]; [done|].
  pose proof (tc_older _ _ _ (ok_older _ (wo_heap _ Hok)) Hr). lia.
Qed.

Lemma use_clause_building w0 m i w c : world_ok w0 → building w0 m i w → valid_clause w0 c →
  comes_to (use_clause i c) w (λ _ w', building w0 m i w' ∧
    w'.(implicit_sequence) = w.(implicit_sequence) ∧
    (∀ a b, pre w.(heap) a b → pre w'.(heap) a b) ∧ after_clause w0 i w' c).
Proof.
  intros Hok Hb Hv.
  destruct c as [mt|c|s|l|a|a|]; cbn [use_clause after_clause valid_clause] in *.
  - eapply comes_mono; [apply building_clause; [exact Hb|]|naive_solver].
    intros e Hu. apply clause_ok_intro; try done; [apply (uc_counting _ _ Hu)|auto].
  - eapply comes_mono; [apply building_clause; [exact Hb|]|naive_solver].
    intros e Hu. apply clause_ok_intro; try done; auto.
  - unfold InSequence. eapply comes_bind; [apply building_clause; [exact Hb|]|].
    { intros e Hu. apply clause_ok_intro; try done; [apply (uc_counting _ _ Hu)|auto]. }
    intros _ w1 (Hb1 & Hi1 & Hm1 & _).
    eapply comes_bind; [by eapply GetHandle_building|]. intros h w2 [-> ->].
    eapply comes_mono; [apply AddExpectation_building; [exact Hb1|]|].
    { by rewrite (bu_cells _ _ _ _ Hb1). }
    intros _ w3 (Hb3 & Hi3 & Hm3 & Hs3). split_and!; [done|congruence|auto|].
    intros j Hj. destruct (Hs3 j) as [->|?]; [by eapply bu_sequences| |done].
    pose proof (in_sequence_old _ _ _ Hok Hj). rewrite (bu_number _ _ _ _ Hb) in *. lia.
  - rewrite <- (bu_number _ _ _ _ Hb) in Hv.
    eapply comes_mono; [apply building_clause; [exact Hb|]|].
    { intros e Hu. by apply After_ok. }
    intros _ w' (Hb' & Hi' & Hm' & e & He'). split_and!; [done..|].
    intros j Hj. apply tc_once. eexists. split; [exact He'|]. cbn. apply elem_of_insert_handles. auto.
  - eapply comes_mono; [apply building_clause; [exact Hb|]|naive_solver].
    intros e Hu. by apply WillOnce_ok.
  - eapply comes_mono; [apply building_clause; [exact Hb|]|naive_solver].
    intros e Hu. by apply WillRepeatedly_ok.
  - eapply comes_mono; [apply building_clause; [exact Hb|]|naive_solver].
    intros e Hu. by apply Retires_ok.
Qed.

Lemma after_clause_mono w0 i w w' c : (∀ a b, pre w.(heap) a b → pre w'.(heap) a b) →
  after_clause w0 i w c → after_clause w0 i w' c.
Proof. intros Hm. destruct c; cbn; try done; intros H j Hj; eapply tc_mono; eauto. Qed.

Lemma use_clauses_building w0 m i l w : world_ok w0 → building w0 m i w → Forall (valid_clause w0) l →
  comes_to (use_clauses i l) w (λ _ w', building w0 m i w' ∧
    w'.(implicit_sequence) = w.(implicit_sequence) ∧ (∀ a b, pre w.(heap) a b → pre w'.(heap) a b) ∧ Forall (after_clause w0 i w') l).
Proof.
  intros Hok. revert w. induction l as [|c l IH]; intros w Hb Hl; cbn.
  - apply comes_ret. by split_and!.
  - apply Forall_cons in Hl as [Hc Hl].
    eapply comes_bind; [by eapply use_clause_building|]. intros _ w1 (Hb1 & Hi1 & Hm1 & Ha1).
    eapply comes_mono; [by apply IH|]. intros _ w2 (Hb2 & Hi2 & Hm2 & Ha2).
    split_and!; [done|congruence|auto|]. constructor; [|done]. by eapply after_clause_mono.
Qed.

(** A new expectation at the end of the heap and in the list of its function. *)
Lemma building_begins w0 m w src file line matchers : world_ok w0 →
  w.(heap) = w0.(heap) ++ [new_expectation m file line src matchers] →
  w.(sequences) = w0.(sequences) → w.(implicit_sequence) = w0.(implicit_sequence) →
  (∀ m' f', w.(mockers) !! m' = Some f' → ∃ f, w0.(mockers) !! m' = Some f ∧
     ∀ i, i ∈ f'.(untyped_expectations_) →
       i ∈ f.(untyped_expectations_) ∨ (m' = m ∧ i = length w0.(heap))) →
  (∃ f, w.(mockers) !! m = Some f ∧ length w0.(heap) ∈ f.(untyped_expectations_)) →
  (∀ r, r ∈ w0.(reports) → r ∈ w.(reports)) →
  building w0 m (length w0.(heap)) w.
Proof.
  intros Hok Hh Hs Hi Hm Hf Hr.
  assert (∀ j e, w0.(heap) !! j = Some e → w.(heap) !! j = Some e) as Hold.
  { intros j e He. rewrite Hh. by apply lookup_app_l_Some. }
  assert (w.(heap) !! length w0.(heap) = Some (new_expectation m file line src matchers)) as Hnew.
  { rewrite Hh, lookup_app_r, Nat.sub_diag by lia. done. }
  split; try done.
  - split.
    + rewrite Hh. apply heap_ok_new; [apply (wo_heap _ Hok)|apply uncalled_new].
    + intros m' f' i Hf' Hin. destruct (Hm m' f' Hf') as (f & Hf0 & Hsub).
      destruct (Hsub i Hin) as [H|[-> ->]]; [|by eexists].
      destruct (wo_lists _ Hok _ _ _ Hf0 H) as (e & He & Ho). exists e. auto.
    + intros s j. rewrite Hs, Hh, length_app. cbn. intros Hj. pose proof (wo_cells _ Hok _ _ Hj). lia.
    + intros s. rewrite Hs, Hi. apply (wo_implicit _ Hok).
  - rewrite Hh, length_app. cbn. lia.
  - eexists. split_and!; [exact Hnew|apply uncalled_new|done].
  - by rewrite Hs.
  - intros s j (l & Hl & Hr'). exists l. rewrite Hs. split; [done|].
    eapply rtc_mono; [|exact Hr']. intros a b (x & Hx & Hb). exists x. auto.
Qed.

Lemma RegisterOwner_spec m obj w : comes_to (RegisterOwner m obj) w (λ _ w',
  w'.(heap) = w.(heap) ∧ w'.(sequences) = w.(sequences) ∧
  w'.(implicit_sequence) = w.(implicit_sequence) ∧ w'.(reports) = w.(reports) ∧
  w'.(mockers) = alter (λ f, mkMocker (Some obj) f.(name_) f.(untyped_on_call_specs_)
                              f.(untyped_expectations_)) m w.(mockers)).
Proof. by eexists _, _. Qed.

Lemma report_spec r w (Q : unit → World → Prop) :
  (∀ r', Q tt (set_reports (w.(reports) ++ r') w)) → comes_to (report r) w Q.
Proof. intros H. eexists _, _. split; [reflexivity|]. apply H. Qed.

Lemma MockObject_spec m w f obj : w.(mockers) !! m = Some f → f.(mock_obj_) = Some obj →
  comes_to (MockObject m) w (λ o w', o = obj ∧ w' = w).
Proof.
  intros Hf Ho. unfold MockObject, get_mocker. eapply comes_assoc, comes_get, comes_defined; [exact Hf|].
  rewrite Ho. eapply comes_bind; [by apply comes_ret with (Q := λ _ w', w' = w)|].
  intros _ ? ->. by eapply comes_defined'.
Qed.

Lemma AddNewExpectation_spec m file line src matchers w f obj : world_ok w →
  w.(mockers) !! m = Some f → f.(mock_obj_) = Some obj →
  comes_to (AddNewExpectation m file line src matchers) w (λ i w', building w m i w' ∧
    w'.(implicit_sequence) = w.(implicit_sequence) ∧
    ∀ s j, w.(implicit_sequence) = Some s → in_sequence w s j → tc (pre w'.(heap)) i j).
Proof.
  intros Hok Hf Ho. unfold AddNewExpectation.
  eapply comes_bind; [by eapply MockObject_spec|]. intros ? ? [-> ->].
  apply comes_modify, comes_get, comes_modify. unfold put_mocker. apply comes_modify.
  set (w1 := set_mockers _ _).
  assert (building w m (length w.(heap)) w1) as Hb.
  { eapply (building_begins w m w1 src file line matchers); [done..| | |done].
    - intros m' f' Hf'. cbn in Hf'. destruct (decide (m' = m)) as [->|Hne].
      + rewrite list_lookup_alter_eq, Hf in Hf'. simplify_eq/=. exists f. split; [done|].
        intros i [?|Hi]%elem_of_app; [by left|]. apply list_elem_of_singleton in Hi as ->. by right.
      + rewrite list_lookup_alter_ne in Hf' by done. exists f'. auto.
    - cbn. rewrite list_lookup_alter_eq, Hf. eexists. split; [done|]. cbn.
      apply elem_of_app. right. by apply list_elem_of_singleton. }
  cbn [implicit_sequence set_registry].
  destruct (implicit_sequence w) as [s|] eqn:Hi.
  - destruct (wo_implicit _ Hok s Hi) as [x Hx].
    eapply comes_bind; [apply AddExpectation_building; [exact Hb|by eapply lookup_lt_Some]|].
    intros _ w2 (Hb2 & Hi2 & Hm2 & Hs2). apply comes_ret. split_and!; [done|by etrans|].
    intros s' j [= <-] Hj. destruct (Hs2 j) as [->|?]; [by apply (bu_sequences _ _ _ _ Hb)| |done].
    destruct (Nat.lt_irrefl _ (in_sequence_old _ _ _ Hok Hj)).
  - eapply comes_bind; [by apply comes_ret with (Q := λ _ w', w' = w1)|].
    intros _ ? ->. apply comes_ret. by split_and!.
Qed.

(** What a world keeps when only mockers' owners and reports change. *)
Lemma building_from w0 w1 m i w : building w1 m i w →
  w1.(heap) = w0.(heap) → w1.(sequences) = w0.(sequences) →
  (∀ r, r ∈ w0.(reports) → r ∈ w1.(reports)) → building w0 m i w.
Proof.
  intros [Hok Hn Hl Hold Hnew Hlist Hcells Hseq Hrep] Hh Hs Hr. split; try done.
  - by rewrite <- Hh.
  - by rewrite <- Hh.
  - by rewrite <- Hs.
  - intros s j (l & Hl' & Hr'). apply Hseq. exists l. by rewrite Hs, Hh.
  - auto.
Qed.

(** The statement makes a new expectation, whatever its clauses; no assertion
    in it fails.  What was in the sequences it is put into, the implicit one
    included, and what it is said to come after, are its pre-requisites. *)
Lemma EXPECT_CALL_spec m obj file line o c matchers clauses w0 f0 :
  world_ok w0 → w0.(mockers) !! m = Some f0 → Forall (valid_clause w0) clauses →
  comes_to (EXPECT_CALL m obj file line o c matchers clauses) w0 (λ i w',
    building w0 m i w' ∧ w'.(implicit_sequence) = w0.(implicit_sequence) ∧
    Forall (after_clause w0 i w') clauses ∧
    ∀ s j, w0.(implicit_sequence) = Some s → in_sequence w0 s j → tc (pre w'.(heap)) i j).
Proof.
  intros Hok Hf Hv. unfold EXPECT_CALL.
  eapply comes_bind; [apply RegisterOwner_spec|]. intros _ w1 (Hh1 & Hs1 & Hi1 & Hr1 & Hm1).
  assert (world_ok w1) as Hok1.
  { eapply world_ok_same; [|exact Hok]. split_and!; [done..|]. intros m' f'. rewrite Hm1.
    destruct (decide (m' = m)) as [->|Hne].
    - rewrite list_lookup_alter_eq, Hf. intros [= <-]. by exists f0.
    - rewrite list_lookup_alter_ne by done. intros H. by exists f'. }
  unfold InternalExpectedAt, LogWithLocation. apply comes_assoc.
  eapply comes_bind; [apply report_spec with (Q := λ _ w', world_ok w' ∧
    w'.(heap) = w1.(heap) ∧ w'.(sequences) = w1.(sequences) ∧ w'.(mockers) = w1.(mockers) ∧
    w'.(implicit_sequence) = w1.(implicit_sequence) ∧ ∀ r, r ∈ w1.(reports) → r ∈ w'.(reports))|].
  { intros r'. split_and!; try done.
    - eapply world_ok_same; [apply same_core_reports|done].
    - intros r Hr. cbn. apply elem_of_app. auto. }
  intros _ w2 (Hok2 & Hh2 & Hs2 & Hm2 & Hi2 & Hr2).
  assert (w2.(heap) = w0.(heap)) as Eh by congruence.
  assert (w2.(sequences) = w0.(sequences)) as Es by congruence.
  eapply comes_bind.
  { eapply AddNewExpectation_spec; [exact Hok2| |].
    - rewrite Hm2, Hm1, list_lookup_alter_eq, Hf. done.
    - done. }
  intros i w3 (Hb3 & Hi3 & Hp3).
  apply building_from with (w0 := w0) in Hb3; [|done..|intros r; rewrite <- Hr1; auto].
  eapply comes_bind; [eapply use_clauses_building; [exact Hok|exact Hb3|exact Hv]|]. intros _ w4 (Hb4 & Hi4 & Hm4 & Ha4).
  apply comes_ret. split_and!; [done|congruence|done|].
  intros s j Hi (l & Hl & Hr). eapply tc_mono; [exact Hm4|].
  apply (Hp3 s); [congruence|]. exists l. by rewrite Es, Eh.
Qed.

(** * Which expectation takes a call *)

(** Some action counts were checked, and warned about. *)
Record checked_world (w w' : World) : Prop := {
  cw_heap : checked w.(heap) w'.(heap);
  cw_mockers : w'.(mockers) = w.(mockers);
  cw_sequences : w'.(sequences) = w.(sequences);
  cw_implicit : w'.(implicit_sequence) = w.(implicit_sequence);
  cw_reports r : r ∈ w.(reports) → r ∈ w'.(reports)
}.
Lemma checked_world_refl w : checked_world w w.
Proof. split; auto using checked_refl. Qed.
Lemma checked_world_trans w1 w2 w3 : checked_world w1 w2 → checked_world w2 w3 → checked_world w1 w3.
Proof. intros [] []. split; [by eapply checked_trans|congruence..|auto]. Qed.

Lemma checked_world_ok w w' : checked_world w w' → world_ok w → world_ok w'.
Proof.
  intros [Hh Hm Hs Hi _] Hok. split.
  - by eapply heap_ok_checked; [|apply (wo_heap _ Hok)].
  - intros m f i Hf Hin. rewrite Hm in Hf. destruct (wo_lists _ Hok _ _ _ Hf Hin) as (e & He & Ho).
    destruct Hh as [_ Hh]. destruct (Hh _ _ He) as (e' & He' & [-> | ->]); by eexists.
  - intros s j. rewrite Hs, (proj1 Hh). apply (wo_cells _ Hok).
  - intros s. rewrite Hi, Hs. apply (wo_implicit _ Hok).
Qed.

Lemma check_count_spec i w : (i < length w.(heap))%nat →
  comes_to (on_expectation i CheckActionCountIfNotDone) w (λ _ w', checked_world w w').
Proof.
  intros Hi. destruct (lookup_lt_is_Some_2 _ _ Hi) as [e He].
  unfold on_expectation, get_expectation, put_expectation.
  apply comes_assoc, comes_get. eapply comes_defined; [exact He|].
  pose proof (CheckActionCount_checked e) as Hc.
  destruct (CheckActionCountIfNotDone e) as [e' r]. apply comes_modify, report_spec.
  intros r'. split; try done.
  - by apply checked_insert with e.
  - intros x Hx. cbn. apply elem_of_app. auto.
Qed.

Lemma find_matching_spec args l w : world_ok w → (∀ i, i ∈ l → (i < length w.(heap))%nat) →
  comes_to (find_matching args l) w (λ r w', checked_world w w' ∧
    match r with
    | Some i => takes w.(heap) i args ∧
        ∃ l1 l2, l = l1 ++ i :: l2 ∧ ∀ k, k ∈ l1 → ¬ takes w.(heap) k args
    | None => ∀ k, k ∈ l → ¬ takes w.(heap) k args
    end).
Proof.
  revert w. induction l as [|i l IH]; intros w Hok Hl; cbn [find_matching].
  - apply comes_ret. split; [apply checked_world_refl|]. intros k Hk. by apply not_elem_of_nil in Hk.
  - eapply comes_bind; [apply check_count_spec, Hl; by left|]. intros [] w1 Hc1. cbv beta in Hc1. apply comes_get.
    pose proof (checked_world_ok _ _ Hc1 Hok) as Hok1. pose proof (cw_heap _ _ Hc1) as Hh1.
    destruct (should_handle_spec w1.(heap) i args) as (b & Hb & Ht).
    { apply (ok_older _ (wo_heap _ Hok1)). }
    { rewrite (proj1 Hh1). apply Hl. by left. }
    rewrite (checked_takes _ _ _ _ Hh1) in Ht. eapply comes_defined; [exact Hb|]. destruct b.
    + apply comes_ret. split; [done|]. split; [by apply Ht|]. exists [], l. split; [done|].
      intros k Hk. by apply not_elem_of_nil in Hk.
    + assert (¬ takes w.(heap) i args) as Hn by (intros H; by apply Ht in H).
      eapply comes_mono; [apply IH; [done|]|].
      { intros k Hk. rewrite (proj1 Hh1). apply Hl. by right. }
      intros r w2 [Hc2 Hr]. split; [by eapply checked_world_trans|]. destruct r as [j|].
      * destruct Hr as (Hj & l1 & l2 & -> & Hl1). rewrite (checked_takes _ _ _ _ Hh1) in Hj.
        split; [done|]. exists (i :: l1), l2. split; [done|].
        intros k [Hk|Hk]%elem_of_cons; [by rewrite Hk|]. rewrite <- (checked_takes _ _ k args Hh1). auto.
      * intros k [Hk|Hk]%elem_of_cons; [by rewrite Hk|]. rewrite <- (checked_takes _ _ k args Hh1). auto.
Qed.

(** The expectation that takes a call of the function [f]: the newest one that
    is active, has its pre-requisites satisfied, and matches. *)
Definition newest (h : Heap Args Action) (f : FunctionMocker Args Action) (args : Args) (i : nat) : Prop :=
  takes h i args ∧
  ∃ l1 l2, f.(untyped_expectations_) = l1 ++ i :: l2 ∧ ∀ k, k ∈ l2 → ¬ takes h k args.

Lemma FindMatching_spec m f args w : world_ok w → w.(mockers) !! m = Some f →
  comes_to (FindMatchingExpectationLocked m args) w (λ r w', checked_world w w' ∧
    match r with
    | Some i => newest w.(heap) f args i
    | None => ∀ k, k ∈ f.(untyped_expectations_) → ¬ takes w.(heap) k args
    end).
Proof.
  intros Hok Hf. unfold FindMatchingExpectationLocked, get_mocker.
  apply comes_assoc, comes_get. eapply comes_defined; [exact Hf|].
  eapply comes_mono; [apply find_matching_spec; [done|]|].
  { intros i Hi. rewrite elem_of_reverse in Hi. destruct (wo_lists _ Hok _ _ _ Hf Hi) as (e & He & _).
    by eapply lookup_lt_Some. }
  intros r w' [Hc Hr]. split; [done|]. destruct r as [i|].
  - destruct Hr as (Ht & l1 & l2 & E & Hl1). split; [done|]. exists (reverse l2), (reverse l1). split.
    + rewrite <- (reverse_involutive (untyped_expectations_ f)), E, reverse_app, reverse_cons.
      by rewrite <- app_assoc.
    + intros k Hk. apply Hl1. by rewrite elem_of_reverse in Hk.
  - intros k Hk. apply Hr. by rewrite elem_of_reverse.
Qed.

(** * The message of an unexpected call *)

Lemma list_prerequisites_some (h : Heap Args Action) n l :
  (∀ p, p ∈ l → ∃ k e, p = Some k ∧ h !! k = Some e) → is_Some (list_prerequisites h n l).
Proof.
  revert n. induction l as [|p l IH]; intros n Hl; cbn [list_prerequisites]; [by eexists|].
  destruct (Hl p) as (k & e & -> & He); [by left|].
  destruct (IH (n + 1)) as [s Hs]; [intros q Hq; apply Hl; by right|].
  unfold expectation_base. simpl. rewrite He. simpl. rewrite Hs. by eexists.
Qed.

Lemma Explain_some h i (args : Args) : heap_ok h → (i < length h)%nat →
  is_Some (ExplainMatchResultTo (Action := Action) h i args).
Proof.
  intros Hh Hi. pose proof (ok_older _ Hh) as Ho. destruct (lookup_lt_is_Some_2 h i Hi) as [e He].
  unfold ExplainMatchResultTo. rewrite He. cbn [mbind option_bind].
  destruct (retired_ e); [by eexists|]. destruct (negb (Matches e args)); [by eexists|].
  destruct (AllPrerequisites_spec (enough h) h i Ho Hi) as (b & -> & _); [unfold enough; lia|].
  cbn [mbind option_bind]. destruct (negb b); [|by eexists].
  destruct (FindUnsatisfied_spec (enough h) h i [] Ho Hi) as (r & -> & Hr); [unfold enough; lia|].
  cbn [mbind option_bind].
  destruct (list_prerequisites_some h 0 r) as [s Hs]; [|rewrite Hs; by eexists].
  intros p [Hp|(k & -> & Hb)]%Hr; [by apply not_elem_of_nil in Hp|].
  destruct (blocks_sound _ _ _ Hb) as (_ & e' & ? & _). eauto.
Qed.

Lemma tried_some h count n l (args : Args) : heap_ok h → (∀ i, i ∈ l → (i < length h)%nat) →
  is_Some (tried (Action := Action) h count n l args).
Proof.
  intros Hh. revert n. induction l as [|i l IH]; intros n Hl; cbn [tried]; [by eexists|].
  assert (i < length h)%nat as Hi by (apply Hl; by left).
  destruct (lookup_lt_is_Some_2 h i Hi) as [e He], (Explain_some h i args Hh Hi) as [why Hw].
  destruct (IH (n + 1)) as [rest Hrest]; [intros k Hk; apply Hl; by right|].
  rewrite He. cbn [mbind option_bind]. rewrite Hw. cbn [mbind option_bind]. rewrite Hrest. by eexists.
Qed.

(** * What happens to expectations over time *)

(** What was specified stays; an expectation that is retired is counted no
    more; what is in a sequence stays there; what was reported was. *)
Definition same_spec (d d' : TypedExpectation) : Prop :=
  d'.(file_) = d.(file_) ∧ d'.(line_) = d.(line_) ∧ d'.(cardinality_) = d.(cardinality_) ∧
  d'.(immediate_prerequisites_) = d.(immediate_prerequisites_).
Definition heap_evolves (h h' : Heap Args Action) : Prop :=
  ∀ j d, h !! j = Some d → ∃ d', h' !! j = Some d' ∧ same_spec d d' ∧
    (d.(retired_) = true → d'.(retired_) = true ∧ d'.(call_count_) = d.(call_count_)).
Record evolves (w w' : World) : Prop := {
  ev_heap : heap_evolves w.(heap) w'.(heap);
  ev_cells s j : in_sequence w s j → in_sequence w' s j;
  ev_reports r : r ∈ w.(reports) → r ∈ w'.(reports)
}.

Lemma heap_evolves_refl h : heap_evolves h h.
Proof. intros j d Hd. exists d. by split_and!. Qed.
Lemma heap_evolves_trans h1 h2 h3 : heap_evolves h1 h2 → heap_evolves h2 h3 → heap_evolves h1 h3.
Proof.
  intros H1 H2 j d Hd. destruct (H1 j d Hd) as (d2 & Hd2 & (? & ? & ? & ?) & R2).
  destruct (H2 j d2 Hd2) as (d3 & Hd3 & (? & ? & ? & ?) & R3). exists d3.
  split; [done|]. split; [split_and!; congruence|]. intros Hr. destruct (R2 Hr) as [Hr2 ?].
  destruct (R3 Hr2). split; congruence.
Qed.
Lemma evolves_refl w : evolves w w.
Proof. split; auto using heap_evolves_refl. Qed.
Lemma evolves_trans w1 w2 w3 : evolves w1 w2 → evolves w2 w3 → evolves w1 w3.
Proof. intros [] []. split; [by eapply heap_evolves_trans|auto..]. Qed.

Lemma heap_evolves_pre h h' a b : heap_evolves h h' → pre h a b → pre h' a b.
Proof.
  intros H (x & Hx & Hb). destruct (H a x Hx) as (x' & Hx' & (_ & _ & _ & E) & _).
  exists x'. split; [done|]. by rewrite E.
Qed.
Lemma evolves_intro w w' : heap_evolves w.(heap) w'.(heap) → w'.(sequences) = w.(sequences) →
  (∀ r, r ∈ w.(reports) → r ∈ w'.(reports)) → evolves w w'.
Proof.
  intros Hh Hs Hr. split; [done| |done]. intros s j (l & Hl & Hlj). exists l. rewrite Hs.
  split; [done|]. eapply rtc_mono; [|exact Hlj]. intros a b. by apply heap_evolves_pre.
Qed.
Lemma evolves_tc w w' i j : evolves w w' → tc (pre w.(heap)) i j → tc (pre w'.(heap)) i j.
Proof. intros H. apply tc_mono. intros a b. apply heap_evolves_pre, (ev_heap _ _ H). Qed.

Lemma checked_evolves w w' : checked_world w w' → evolves w w'.
Proof.
  intros [Hh _ Hs _ Hr]. apply evolves_intro; [|done..]. intros j d Hd.
  destruct (proj2 Hh j d Hd) as (d' & Hd' & [-> | ->]); eexists; (split; [done|by split_and!]).
Qed.
Lemma building_evolves w0 m i w : building w0 m i w → evolves w0 w.
Proof.
  intros Hb. split; [|apply (bu_sequences _ _ _ _ Hb)|apply (bu_reports _ _ _ _ Hb)].
  intros j d Hd. exists d. split; [by apply (bu_old _ _ _ _ Hb)|by split_and!].
Qed.
Lemma call_effect_evolves h i e e' S h' : h !! i = Some e → e.(retired_) = false →
  call_effect h i e e' S h' → heap_evolves h h'.
Proof.
  intros He Hr HC j d Hd. destruct (decide (j = i)) as [->|Hne].
  - simplify_eq. exists e'. split; [apply (ce_self _ _ _ _ _ _ HC)|].
    split; [|congruence]. by destruct (ce_fields _ _ _ _ _ _ HC) as [-> | ->].
  - destruct (ce_other _ _ _ _ _ _ HC j d Hne Hd) as (d' & Hd' & [-> | ->] & _);
      eexists; (split; [done|by split_and!]).
Qed.

(** * The critical section of a call *)

(** What a call did that [i] took, from [w] to [w']. *)
Record took (w : World) (i : nat) (r : Match Action) (w' : World) : Prop := {
  tk_self : ∃ e e', w.(heap) !! i = Some e ∧ w'.(heap) !! i = Some e' ∧ same_spec e e' ∧
    e'.(call_count_) = e.(call_count_) + 1 ∧ r.(is_excessive) = IsSaturated e ∧
    r.(untyped_action) = (if IsSaturated e then None else nth_action e e.(call_count_));
  tk_length : length w'.(heap) = length w.(heap);
  tk_other j d : j ≠ i → w.(heap) !! j = Some d →
    ∃ d', w'.(heap) !! j = Some d' ∧ d'.(call_count_) = d.(call_count_);
  tk_before j : r.(is_excessive) = false → tc (pre w.(heap)) i j →
    ∃ d, w'.(heap) !! j = Some d ∧ d.(retired_) = true ∧ IsSatisfied d = true
}.

Definition countable (w : World) (f : FunctionMocker Args Action) : Prop :=
  ∀ i e, i ∈ f.(untyped_expectations_) → w.(heap) !! i = Some e → e.(call_count_) < INT_MAX.

Lemma world_ok_heap h w : world_ok w → heap_ok h → heap_evolves w.(heap) h → length h = length w.(heap) →
  (∀ j d d', w.(heap) !! j = Some d → h !! j = Some d' → d'.(owner_) = d.(owner_)) →
  world_ok (set_heap h w).
Proof.
  intros Hok Hh Hev Hl Ho. split; cbn.
  - done.
  - intros m f i Hf Hin. destruct (wo_lists _ Hok _ _ _ Hf Hin) as (e & He & <-).
    destruct (Hev i e He) as (e' & He' & _). exists e'. split; [done|]. by eapply Ho.
  - intros s j Hj. rewrite Hl. by eapply wo_cells.
  - apply (wo_implicit _ Hok).
Qed.

(** The part of [UntypedFindMatchingExpectation] after the search. *)
Lemma take_call d i w w0 e0 args : world_ok w0 → checked_world w0 w → takes w0.(heap) i args →
  w0.(heap) !! i = Some e0 → e0.(call_count_) < INT_MAX →
  ∃ e r w', w.(heap) !! i = Some e ∧ GetActionForArguments d w.(heap) i = Some r ∧
    set_heap r.(heap_after) w = w' ∧ world_ok w' ∧ evolves w0 w' ∧
    ∀ what why, took w0 i (mkMatch (Some i) (mjoin r.(action_for)) (IsSaturated e) what why) w'.
Proof.
  intros Hok0 Hc (e & He & Hr & Hs & Hm) He0 Hmax. assert (e = e0) as -> by congruence.
  pose proof (checked_world_ok _ _ Hc Hok0) as Hok. pose proof (cw_heap _ _ Hc) as Hh.
  destruct (proj2 Hh i e0 He) as (e1 & He1 & C1).
  assert (∀ j, tc (pre w.(heap)) i j ↔ tc (pre w0.(heap)) i j) as Etc
    by (intros j; apply tc_equiv; intros; by apply checked_pre).
  destruct (GetAction_spec d w.(heap) i e1 (wo_heap _ Hok)) as (r & e' & E & Hh' & HC & _ & Ha); [done|..].
  { by destruct C1 as [-> | ->]. }
  { intros j Hj. apply (checked_satisfied _ _ j Hh), Hs. by apply Etc. }
  { by destruct C1 as [-> | ->]. }
  assert (heap_evolves w.(heap) r.(heap_after)) as Hev.
  { eapply call_effect_evolves; [exact He1| |exact HC]. by destruct C1 as [-> | ->]. }
  assert (IsSaturated e1 = IsSaturated e0) as Es by by destruct C1 as [-> | ->].
  exists e1, r, (set_heap r.(heap_after) w). split_and!; [done..| | |].
  - apply world_ok_heap; [done..|apply (ce_length _ _ _ _ _ _ HC)|].
    intros j x x' Hx Hx'. destruct (ce_back _ _ _ _ _ _ _ _ HC Hx') as [[-> ->]|(_ & y & Hy & Hyx & _)].
    + simplify_eq. by destruct (ce_fields _ _ _ _ _ _ HC) as [-> | ->].
    + simplify_eq. by destruct Hyx as [-> | ->].
  - eapply evolves_trans; [by apply checked_evolves|]. by apply evolves_intro.
  - intros what why. split; cbn [is_excessive untyped_action heap set_heap].
    + exists e0, e'. split_and!; [done|apply (ce_self _ _ _ _ _ _ HC)| | |done|].
      * destruct (ce_fields _ _ _ _ _ _ HC) as [-> | ->], C1 as [-> | ->]; done.
      * destruct (ce_fields _ _ _ _ _ _ HC) as [-> | ->], C1 as [-> | ->]; done.
      * rewrite Ha, Es. destruct (IsSaturated e0); [done|]. cbn. by destruct C1 as [-> | ->].
    + rewrite (ce_length _ _ _ _ _ _ HC). apply (proj1 Hh).
    + intros j x Hne Hx. destruct (proj2 Hh j x Hx) as (x1 & Hx1 & Cx).
      destruct (ce_other _ _ _ _ _ _ HC j x1 Hne Hx1) as (x' & Hx' & Cx' & _).
      exists x'. split; [done|]. destruct Cx' as [-> | ->], Cx as [-> | ->]; done.
    + intros j Hex Hj. apply Etc in Hj.
      destruct (tc_lookup _ _ _ (ok_older _ (wo_heap _ Hok)) Hj) as [x1 Hx1].
      assert (j ≠ i) as Hne.
      { intros ->. apply tc_older in Hj; [lia|]. apply (ok_older _ (wo_heap _ Hok)). }
      destruct (ce_other _ _ _ _ _ _ HC j x1 Hne Hx1) as (x' & Hx' & _ & Hret).
      assert (x'.(retired_) = true) by (apply Hret; right; done).
      exists x'. split_and!; [done..|]. by eapply ok_retired.
Qed.

(** The critical section of a call never fails: it finds the newest
    expectation that may take the call, or none and says why. *)
Lemma critical_section m f args w : world_ok w → w.(mockers) !! m = Some f → countable w f →
  comes_to (UntypedFindMatchingExpectation returns_void m args) w (λ r w',
    world_ok w' ∧ evolves w w' ∧ w'.(mockers) = w.(mockers) ∧
    match r.(matched_expectation) with
    | Some i => newest w.(heap) f args i ∧ took w i r w'
    | None => checked w.(heap) w'.(heap) ∧ r.(is_excessive) = false ∧ r.(untyped_action) = None ∧
        ∀ k, k ∈ f.(untyped_expectations_) → ¬ takes w.(heap) k args
    end).
Proof.
  intros Hok Hf Hmax. unfold UntypedFindMatchingExpectation.
  eapply comes_bind; [by eapply FindMatching_spec|]. intros o w1 [Hc Ho].
  unfold get_mocker. apply comes_assoc, comes_get. eapply comes_defined; [by rewrite (cw_mockers _ _ Hc)|].
  apply comes_get. pose proof (checked_world_ok _ _ Hc Hok) as Hok1. destruct o as [i|].
  - assert (i ∈ f.(untyped_expectations_)) as Hin.
    { destruct Ho as (_ & l1 & l2 & -> & _). apply elem_of_app. right. by left. }
    destruct (wo_lists _ Hok _ _ _ Hf Hin) as (e0 & He0 & _).
    destruct (take_call (DescribeDefaultActionTo returns_void f args) i w1 w e0 args)
      as (e & r & w' & He & Hr & Hw' & Hok' & Hev & Htk); [done..|apply Ho|done|by eapply Hmax|].
    unfold get_expectation. apply comes_assoc, comes_get. eapply comes_defined; [exact He|].
    eapply comes_defined; [exact Hr|]. apply comes_modify. rewrite Hw'.
    eapply comes_bind.
    { apply report_spec with (Q := λ _ w2, same_core w' w2 ∧ evolves w' w2 ∧
        w2.(mockers) = w'.(mockers) ∧ w2.(heap) = w'.(heap)).
      intros r'. split_and!; [done..|by apply same_core_reports| |done|done].
      apply evolves_intro; [apply heap_evolves_refl|done|]. intros x Hx. cbn. apply elem_of_app. auto. }
    intros _ w2 (Hs2 & Hev2 & Hm2 & Hh2). apply comes_ret.
    refine (conj _ (conj _ (conj _ (conj Ho _)))).
    + by eapply world_ok_same.
    + by eapply evolves_trans.
    + rewrite Hm2, <- Hw'. apply (cw_mockers _ _ Hc).
    + destruct (Htk r.(what_for) r.(why_for)) as [H1 H2 H3 H4]. split; by rewrite Hh2.
  - destruct (tried_some w1.(heap) (Z.of_nat (length f.(untyped_expectations_))) 0
      f.(untyped_expectations_) args (wo_heap _ Hok1)) as [s Hs].
    { intros k Hk. destruct (wo_lists _ Hok1 m f k) as (x & Hx & _); [by rewrite (cw_mockers _ _ Hc)|done|].
      by eapply lookup_lt_Some. }
    eapply comes_defined.
    { unfold PrintTriedExpectationsLocked. rewrite Hs. reflexivity. }
    apply comes_ret. split_and!; [done|by apply checked_evolves|apply (cw_mockers _ _ Hc)|].
    split_and!; [apply (cw_heap _ _ Hc)|done..].
Qed.

(** * Operations that leave the expectations alone *)

(** From [w] on, only reports, owners, names, default actions and the registry
    changed, and lists of expectations only lost some. *)
Definition calm_change (w w' : World) : Prop := same_core w w' ∧ ∀ r, r ∈ w.(reports) → r ∈ w'.(reports).
Definition calm {A} (x : M A) : Prop :=
  ∀ w, match x w with
       | Done _ w' | Thrown _ w' | Aborted w' => calm_change w w'
       | Undefined => True
       end.

Lemma calm_change_refl w : calm_change w w.
Proof. split; [|done]. split_and!; [done..|]. intros m f Hf. by exists f. Qed.
Lemma calm_change_trans w1 w2 w3 : calm_change w1 w2 → calm_change w2 w3 → calm_change w1 w3.
Proof.
  intros [(H1 & H2 & H3 & H4) R1] [(K1 & K2 & K3 & K4) R2]. split; [|auto].
  split_and!; [congruence..|]. intros m f Hf. destruct (K4 m f Hf) as (g & Hg & Kg).
  destruct (H4 m g Hg) as (g' & Hg' & Hsub). exists g'. auto.
Qed.
Lemma calm_change_ok w w' : calm_change w w' → world_ok w → world_ok w' ∧ evolves w w'.
Proof.
  intros [Hs Hr] Hok. split; [by eapply world_ok_same|]. destruct Hs as (Hh & Hseq & _ & _).
  apply evolves_intro; [|done..]. rewrite Hh. apply heap_evolves_refl.
Qed.

Lemma calm_ret {A} (a : A) : calm (ret a).
Proof. intros w. apply calm_change_refl. Qed.
Lemma calm_bind {A B} (x : M A) (k : A → M B) : calm x → (∀ a, calm (k a)) → calm (bind x k).
Proof.
  intros Hx Hk w. specialize (Hx w). unfold bind. destruct (x w) as [a w1|what w1|w1|]; [|done..].
  specialize (Hk a w1). destruct (k a w1); [eapply calm_change_trans; eauto..|done].
Qed.
Lemma calm_get : calm get.
Proof. intros w. apply calm_change_refl. Qed.
Lemma calm_defined {A} (o : option A) : calm (defined o).
Proof. intros w. destruct o; cbn; [apply calm_change_refl|done]. Qed.
Lemma calm_modify f : (∀ w, calm_change w (f w)) → calm (modify f).
Proof. intros H w. apply H. Qed.
Lemma calm_report r : calm (report r).
Proof.
  apply calm_modify. intros w. split; [apply same_core_reports|].
  intros x Hx. cbn. apply elem_of_app. auto.
Qed.
Lemma calm_Assert b file line msg : calm (Assert b file line msg).
Proof.
  unfold Assert. destruct b; [apply calm_ret|]. apply calm_bind; [apply calm_report|].
  intros _ w. apply calm_change_refl.
Qed.
Lemma calm_put_mocker m f :
  (∀ g i, i ∈ (f g).(untyped_expectations_) → i ∈ g.(untyped_expectations_)) → calm (put_mocker m f).
Proof.
  intros Hf. apply calm_modify. intros w. split; [|done]. split_and!; [done..|].
  intros m' f'. cbn. destruct (decide (m' = m)) as [->|Hne].
  - rewrite list_lookup_alter_eq. intros (g & Hg & ->)%fmap_Some_1. exists g. split; [done|]. apply Hf.
  - rewrite list_lookup_alter_ne by done. intros H. by exists f'.
Qed.
Lemma calm_registry (f : World → gmap nat MockObjectState) : calm (modify (λ w, set_registry (f w) w)).
Proof. apply calm_modify. intros w. split; [|done]. split_and!; [done..|]. intros m g Hg. by exists g. Qed.
Lemma calm_uninteresting (f : World → gmap nat CallReaction) :
  calm (modify (λ w, set_uninteresting (f w) w)).
Proof. apply calm_modify. intros w. split; [|done]. split_and!; [done..|]. intros m g Hg. by exists g. Qed.
End Facts.

Create HintDb calm.
#[export] Hint Resolve calm_ret calm_get calm_defined calm_report calm_Assert calm_registry
  calm_uninteresting : calm.

(** The operation is a sequence of calm ones. *)
Ltac calm :=
  repeat first
    [ solve [auto 1 with calm]
    | apply calm_bind; [|intros ?]
    | match goal with
      | |- calm (match ?x with _ => _ end) => destruct x
      | |- calm (put_mocker _ _) => apply calm_put_mocker; cbn; (done || set_solver)
      end ].

Section Facts.
Context {Args Action Result : Type}.
Context (Perform : Action → Args → Result) (DefaultValue : option Result)
        (returns_void : bool) (UniversalPrint : Args → string) (PrintAsActionResult : Result → string).
Notation World := (World Args Action).
Notation M := (M Args Action).
Notation TypedExpectation := (TypedExpectation Args Action).
Notation call := (call Perform DefaultValue returns_void UniversalPrint PrintAsActionResult).

Lemma calm_MockObject m : calm (MockObject (Args := Args) (Action := Action) m).
Proof. unfold MockObject, get_mocker. calm. Qed.
#[local] Hint Resolve calm_MockObject : calm.
Lemma calm_Name m : calm (Name (Args := Args) (Action := Action) m).
Proof. unfold Name, get_mocker. calm. Qed.
#[local] Hint Resolve calm_Name : calm.
Lemma calm_PerformDefaultAction m args s : calm (PerformDefaultAction Perform DefaultValue m args s).
Proof.
  unfold PerformDefaultAction, get_mocker, perform_on_call.
  calm; intros w; apply calm_change_refl.
Qed.
#[local] Hint Resolve calm_PerformDefaultAction : calm.
Lemma calm_perform m a args s : calm (perform Perform DefaultValue m a args s).
Proof. unfold perform. destruct a; [auto with calm|apply calm_PerformDefaultAction]. Qed.
#[local] Hint Resolve calm_perform : calm.
Lemma calm_uninteresting_call m args :
  calm (uninteresting_call Perform DefaultValue returns_void UniversalPrint PrintAsActionResult m args).
Proof.
  unfold uninteresting_call, GetReactionOnUninterestingCalls, UntypedDescribeUninterestingCall,
    ReportUninterestingCall, get_mocker.
  calm.
Qed.
#[local] Hint Resolve calm_uninteresting_call : calm.
Lemma calm_SetOwnerAndName m obj name : calm (SetOwnerAndName (Args := Args) (Action := Action) m obj name).
Proof. unfold SetOwnerAndName. calm. Qed.
#[local] Hint Resolve calm_SetOwnerAndName : calm.
Lemma calm_ON_CALL m obj file line o c matchers clauses :
  calm (ON_CALL (Args := Args) (Action := Action) m obj file line o c matchers clauses).
Proof.
  unfold ON_CALL, RegisterOwner, Register, LogWithLocation, RegisterUseByOnCallOrExpectCall.
  calm.
Qed.
#[local] Hint Resolve calm_ON_CALL : calm.
Lemma calm_verify l b : calm (verify (Args := Args) (Action := Action) l b).
Proof. revert b. induction l; intros b; cbn; unfold get_expectation; calm. Qed.
#[local] Hint Resolve calm_verify : calm.
Lemma calm_VerifyAndClearLocked m : calm (VerifyAndClearExpectationsLocked (Args := Args) (Action := Action) m).
Proof. unfold VerifyAndClearExpectationsLocked, get_mocker. calm. Qed.
#[local] Hint Resolve calm_VerifyAndClearLocked : calm.
Lemma calm_ClearDefaultActionsLocked m : calm (ClearDefaultActionsLocked (Args := Args) (Action := Action) m).
Proof. unfold ClearDefaultActionsLocked. calm. Qed.
#[local] Hint Resolve calm_ClearDefaultActionsLocked : calm.
Lemma calm_VerifyAndClearExpectations obj :
  calm (VerifyAndClearExpectations (Args := Args) (Action := Action) obj).
Proof.
  unfold VerifyAndClearExpectations. calm.
  generalize true. induction (function_mockers m) as [|x l IH]; intros b; cbn; calm.
Qed.
#[local] Hint Resolve calm_VerifyAndClearExpectations : calm.
Lemma calm_VerifyAndClear obj : calm (VerifyAndClear (Args := Args) (Action := Action) obj).
Proof.
  unfold VerifyAndClear, ClearDefaultActions. calm.
  induction (function_mockers m) as [|x l IH]; cbn; calm.
Qed.
#[local] Hint Resolve calm_VerifyAndClear : calm.
Lemma calm_destroy_mocker m : calm (destroy_mocker (Args := Args) (Action := Action) m).
Proof.
  unfold destroy_mocker, UnregisterLocked. calm.
Qed.
#[local] Hint Resolve calm_destroy_mocker : calm.
End Facts.

#[export] Hint Resolve calm_MockObject calm_Name calm_PerformDefaultAction calm_perform
  calm_uninteresting_call calm_SetOwnerAndName calm_ON_CALL calm_verify calm_VerifyAndClearLocked
  calm_ClearDefaultActionsLocked calm_VerifyAndClearExpectations calm_VerifyAndClear
  calm_destroy_mocker : calm.
