(* ===== verification/MockSafety.v ===== *)
(** What a test may rely on: the order of expectations, the verification, and
    the reports, over everything a test does with mock objects.  The facts about
    [Mocker] over time. *)

From S2P Require Import Prelude Strings Cardinality Expectation ExpectationFacts Mocker MockerFacts.
From stdpp Require Import base gmap list strings relations.
From Stdlib Require Import ZArith Lia.

Open Scope Z_scope.

Section Safety.
Context {Args Action Result : Type}.
Context (Perform : Action → Args → Result) (DefaultValue : option Result)
        (returns_void : bool) (UniversalPrint : Args → string) (PrintAsActionResult : Result → string).
Notation World := (World Args Action).
Notation M := (M Args Action).
Notation TypedExpectation := (TypedExpectation Args Action).
Notation call := (call Perform DefaultValue returns_void UniversalPrint PrintAsActionResult).
Notation finish_call := (finish_call Perform DefaultValue UniversalPrint PrintAsActionResult).

(** * A whole call *)

Lemma calm_finish_call m args r : calm (finish_call m args r).
Proof. unfold finish_call, get_expectation. calm. Qed.

(** What a call leaves behind when it returns. *)
Definition call_reported (args : Args) (r : Match Action) (w1 : World) (res : Result) (w' : World) : Prop :=
  (r.(matched_expectation) = None → ∃ msg, Failure false None (-1) msg ∈ w'.(reports)) ∧
  (∀ i e, r.(matched_expectation) = Some i → r.(is_excessive) = true → w1.(heap) !! i = Some e →
     ∃ msg, Failure false (Some e.(file_)) e.(line_) msg ∈ w'.(reports)) ∧
  (∀ a, r.(untyped_action) = Some a → res = Perform a args).

Lemma bind_Done {A B} (x : M A) (k : A → M B) w b w' : bind x k w = Done b w' →
  ∃ a w1, x w = Done a w1 ∧ k a w1 = Done b w'.
Proof. unfold bind. destruct (x w) as [a w1|what w1|w1|]; [|done..]. eauto. Qed.

Lemma perform_some m a args s w res w' :
  perform Perform DefaultValue m (Some a) args s w = Done res w' → res = Perform a args.
Proof. by intros [= <- _]. Qed.

Lemma report_failure (w : World) file line msg w' u :
  report (Expect false file line msg) w = Done u w' → Failure false file line msg ∈ w'.(reports).
Proof. intros [= _ <-]. cbn. apply elem_of_app. right. by left. Qed.

Lemma report_exact file line msg (w : World) (Q : unit → World → Prop) :
  (∀ f, f = Expect false file line msg → Q tt (set_reports (w.(reports) ++ f) w)) →
  comes_to (report (Expect false file line msg)) w Q.
Proof. intros H. eexists _, _. split; [reflexivity|]. by apply H. Qed.

Lemma finish_call_reports m args r w1 res w' :
  (∀ i, r.(matched_expectation) = Some i → is_Some (w1.(heap) !! i)) →
  finish_call m args r w1 = Done res w' → call_reported args r w1 res w'.
Proof.
  intros Hi. unfold finish_call. intros H. change (bind get ?k w1) with (k w1 w1) in H. cbv beta in H.
  destruct (negb _) eqn:Hn.
  - (* nothing to report *)
    apply negb_true_iff, orb_false_iff in Hn as [Hn _]. apply orb_false_iff in Hn as [Hf He].
    split_and!.
    + intros E. rewrite E in Hf. done.
    + intros i e _ Hx. congruence.
    + intros a Ha. rewrite Ha in H. by eapply perform_some.
  - clear Hn. apply bind_Done in H as (name & w2 & Hname & H).
    apply bind_Done in H as (x & w3 & Hx & H). apply bind_Done in H as (u & w4 & Hr & [= <- <-]).
    pose proof (calm_Name (Args := Args) (Action := Action) m w1) as C1. rewrite Hname in C1.
    pose proof (calm_perform Perform DefaultValue m r.(untyped_action) args
      (r.(what_of_match) +:+ "    Function call: " +:+ name +:+ UniversalPrint args) w2) as C2.
    rewrite Hx in C2. destruct (calm_change_trans _ _ _ C1 C2) as [(Hh & _) _].
    split_and!.
    + intros E. rewrite E in Hr. eexists. by eapply report_failure.
    + intros i e E Hex He. rewrite E in Hr. apply bind_Done in Hr as (e' & w5 & Hg & Hr).
      unfold get_expectation in Hg. change (bind get ?k w3) with (k w3 w3) in Hg. cbv beta in Hg.
      rewrite Hh, He in Hg. injection Hg as <- <-. rewrite Hex in Hr. eexists. by eapply report_failure.
    + intros a Ha. rewrite Ha in Hx. by eapply perform_some.
Qed.

(** A call sets the owner and the name first. *)
Lemma call_named m obj name args (w : World) f : w.(mockers) !! m = Some f →
  ∃ w0 f', calm_change w w0 ∧ w0.(heap) = w.(heap) ∧ w0.(mockers) !! m = Some f' ∧
    f'.(untyped_expectations_) = f.(untyped_expectations_) ∧
    call m obj name args w =
      match f.(untyped_expectations_) with
      | [] => uninteresting_call Perform DefaultValue returns_void UniversalPrint PrintAsActionResult m args w0
      | _ => bind (UntypedFindMatchingExpectation returns_void m args) (finish_call m args) w0
      end.
Proof.
  intros Hf. exists (set_mockers (alter (λ f, mkMocker (Some obj) (Some name)
    f.(untyped_on_call_specs_) f.(untyped_expectations_)) m w.(mockers)) w).
  exists (mkMocker (Some obj) (Some name) f.(untyped_on_call_specs_) f.(untyped_expectations_)).
  split_and!; [|done|cbn; by rewrite list_lookup_alter_eq, Hf|done|].
  - split; [|done]. split_and!; [done..|]. intros m' g. cbn. destruct (decide (m' = m)) as [->|Hn].
    + rewrite list_lookup_alter_eq, Hf. intros [= <-]. by exists f.
    + rewrite list_lookup_alter_ne by done. intros H. by exists g.
  - unfold call, SetOwnerAndName, put_mocker, UntypedInvokeWith, get_mocker.
    change (bind (modify ?g) ?k w) with (k tt (g w)). cbv beta.
    unfold bind at 1. unfold bind at 1. unfold get at 1. cbn [mockers set_mockers].
    rewrite list_lookup_alter_eq, Hf. cbn. by destruct (untyped_expectations_ f).
Qed.

Lemma call_spec m obj name args w f : world_ok w → w.(mockers) !! m = Some f → countable w f →
  f.(untyped_expectations_) ≠ [] →
  ∃ r w1, world_ok w1 ∧ evolves w w1 ∧
    match r.(matched_expectation) with
    | Some i => newest w.(heap) f args i ∧ took w i r w1
    | None => checked w.(heap) w1.(heap) ∧ r.(is_excessive) = false ∧ r.(untyped_action) = None ∧
        ∀ k, k ∈ f.(untyped_expectations_) → ¬ takes w.(heap) k args
    end ∧
    match call m obj name args w with
    | Done res w' => calm_change w1 w' ∧ call_reported args r w1 res w'
    | Thrown _ w' | Aborted w' => calm_change w1 w'
    | Undefined => True
    end.
Proof.
  intros Hok Hf Hmax Hne.
  destruct (call_named m obj name args w f Hf) as (w0 & f' & Hc0 & Hh & Hf' & Hl & ->).
  destruct (calm_change_ok _ _ Hc0 Hok) as [Hok0 Hev0].
  destruct (critical_section returns_void m f' args w0) as (r & w1 & E & Hok1 & Hev1 & _ & Hr); [done..| |].
  { intros i e. rewrite Hl, Hh. apply Hmax. }
  exists r, w1. split_and!; [done|by eapply evolves_trans| |].
  - unfold newest in Hr. rewrite Hl, Hh in Hr. destruct (matched_expectation r); [|exact Hr].
    destruct Hr as [H1 [T1 T2 T3 T4]]. split; [exact H1|]. rewrite Hh in T1, T2, T3, T4. by split.
  - destruct (untyped_expectations_ f) as [|x l]; [done|].
    unfold bind. rewrite E. pose proof (calm_finish_call m args r w1) as Hcalm.
    pose proof (finish_call_reports m args r w1) as Hrep.
    destruct (finish_call m args r w1) as [res w'|what w'|w'|]; try done.
    split; [done|]. apply Hrep; [|done]. intros i Hi. rewrite Hi in Hr.
    destruct Hr as [_ Htk]. destruct (tk_self _ _ _ _ Htk) as (? & e' & _ & He' & _). by eexists.
Qed.

(** * A test *)

(** What a test does with mock objects, a statement or a call at a time; in a
    test where a call may throw, the test goes on after it. *)
Inductive step (throws : bool) : World → World → Prop :=
  | step_expect m obj file line o c matchers clauses i f w w' :
      w.(mockers) !! m = Some f → Forall (valid_clause w) clauses →
      EXPECT_CALL m obj file line o c matchers clauses w = Done i w' → step throws w w'
  | step_on_call m obj file line o c matchers clauses w w' :
      ON_CALL m obj file line o c matchers clauses w = Done tt w' → step throws w w'
  | step_call m obj name args f res w w' :
      w.(mockers) !! m = Some f → countable w f → call m obj name args w = Done res w' → step throws w w'
  | step_call_throws m obj name args f what w w' : throws = true →
      w.(mockers) !! m = Some f → countable w f → call m obj name args w = Thrown what w' →
      step throws w w'
  | step_verify obj b w w' : VerifyAndClearExpectations obj w = Done b w' → step throws w w'
  | step_verify_and_clear obj b w w' : VerifyAndClear obj w = Done b w' → step throws w w'
  | step_destroy_mocker m w w' : destroy_mocker m w = Done tt w' → step throws w w'
  | step_destroy_expectation i w w' : destroy_expectation i w = Done tt w' → step throws w w'
  | step_new_mocker w : step throws w (set_mockers (w.(mockers) ++ [new_mocker]) w)
  | step_new_sequence s w w' : new_sequence w = Done s w' → step throws w w'
  | step_enter b w w' : enter_InSequence w = Done b w' → step throws w w'
  | step_leave b w w' : leave_InSequence b w = Done tt w' → step throws w w'
  | step_react obj reaction w w' :
      SetReactionOnUninterestingCalls obj reaction w = Done tt w' → step throws w w'
  | step_forget obj w w' : UnregisterCallReaction obj w = Done tt w' → step throws w w'
  | step_leak obj w w' : AllowLeak obj w = Done tt w' → step throws w w'.

(** Nothing but the flags. *)
Definition start (flag : string) (catch : bool) (test : option (string * string)) : World :=
  mkWorld [] [] [] None ∅ ∅ flag catch test [].

Lemma start_ok flag catch test : world_ok (start flag catch test).
Proof. by split. Qed.

Lemma calm_Done {A} (x : M A) a w w' : calm x → x w = Done a w' → calm_change w w'.
Proof. intros H E. specialize (H w). by rewrite E in H. Qed.

(** Adding a sequence. *)
Lemma new_sequence_ok (w w' : World) s : new_sequence w = Done s w' → world_ok w →
  world_ok w' ∧ evolves w w' ∧ s = length w.(sequences) ∧ w'.(sequences) = w.(sequences) ++ [None] ∧
  w'.(heap) = w.(heap).
Proof.
  intros [= <- <-] Hok. split_and!; [| |done..].
  - split; try apply Hok.
    + intros s j. cbn. intros [[_ H]|[_ [=]]]%lookup_snoc_Some. by eapply wo_cells.
    + intros s. cbn. intros Hs. destruct (wo_implicit _ Hok s Hs) as [x Hx]. exists x.
      by apply lookup_app_l_Some.
  - split; [apply heap_evolves_refl| |done]. intros s j (l & Hl & Hr). exists l.
    split; [by apply lookup_app_l_Some|done].
Qed.

Lemma set_implicit_ok (w : World) o : world_ok w → (∀ s, o = Some s → is_Some (w.(sequences) !! s)) →
  world_ok (set_sequences w.(sequences) o w) ∧ evolves w (set_sequences w.(sequences) o w).
Proof.
  intros Hok Ho. split; [split; try apply Hok; exact Ho|].
  apply evolves_intro; [apply heap_evolves_refl|done..].
Qed.

(** A call keeps the invariant, also when it throws. *)
Lemma call_ok m obj name args f w o w' : world_ok w → w.(mockers) !! m = Some f → countable w f →
  call m obj name args w = o →
  (∃ res, o = Done res w') ∨ (∃ what, o = Thrown what w') →
  world_ok w' ∧ evolves w w'.
Proof.
  intros Hok Hf Hn E Ho. destruct (decide (f.(untyped_expectations_) = [])) as [H0|H0].
  - apply calm_change_ok; [|done].
    destruct (call_named m obj name args w f Hf) as (w0 & f' & Hc0 & _ & _ & _ & E').
    rewrite H0, E in E'. clear E. eapply calm_change_trans; [exact Hc0|].
    pose proof (calm_uninteresting_call Perform DefaultValue returns_void UniversalPrint
      PrintAsActionResult m args w0) as Hc. rewrite <- E' in Hc.
    destruct Ho as [[? ->]|[? ->]]; done.
  - destruct (call_spec m obj name args w f Hok Hf Hn H0) as (r & w1 & Hok1 & Hev1 & _ & H).
    rewrite E in H.
    assert (calm_change w1 w') as Hc by (destruct Ho as [[? ->]|[? ->]]; [apply H|done]).
    destruct (calm_change_ok _ _ Hc Hok1) as [? ?]. split; [done|by eapply evolves_trans].
Qed.

(** Every step keeps the invariant, and everything develops in one way. *)
Lemma step_ok throws w w' : step throws w w' → world_ok w → world_ok w' ∧ evolves w w'.
Proof.
  intros Hs Hok.
  destruct Hs as
    [m obj file line o c matchers clauses i f w w' Hf Hv E|m obj file line o c matchers clauses w w' E
    |m obj name args f res w w' Hf Hn E|m obj name args f what w w' _ Hf Hn E
    |obj b w w' E|obj b w w' E|m w w' E|i w w' E|w|s w w' E|b w w' E|b w w' E
    |obj reaction w w' E|obj w w' E|obj w w' E];
    try (apply calm_change_ok; [|done]; eapply calm_Done; [|exact E];
         unfold UnregisterCallReaction, AllowLeak, SetReactionOnUninterestingCalls;
         solve [calm]).
  - (* EXPECT_CALL *)
    destruct (EXPECT_CALL_spec m obj file line o c matchers clauses w f Hok Hf Hv)
      as (i' & w1 & E' & Hb & _). rewrite E in E'. injection E' as <- <-.
    split; [apply (bu_ok _ _ _ _ Hb)|by eapply building_evolves].
  - eapply call_ok; [done|exact Hf|exact Hn|exact E|by left; eexists].
  - eapply call_ok; [done|exact Hf|exact Hn|exact E|by right; eexists].
  - (* ~TypedExpectation *)
    destruct (decide (i < length w.(heap))%nat) as [Hi|Hi].
    + destruct (check_count_spec i w Hi) as (u & w1 & E' & Hc). unfold destroy_expectation in E.
      rewrite E in E'. injection E' as _ <-.
      split; [by eapply checked_world_ok|by apply checked_evolves].
    + exfalso. unfold destroy_expectation, on_expectation, get_expectation, bind, get in E. cbn in E.
      by rewrite lookup_ge_None_2 in E by lia.
  - split.
    + split; try apply Hok. intros m f i. cbn.
      intros [[_ H]|[_ <-]]%lookup_snoc_Some; [by eapply wo_lists|]. cbn.
      intros Hi. by apply not_elem_of_nil in Hi.
    + apply evolves_intro; [apply heap_evolves_refl|done..].
  - by destruct (new_sequence_ok _ _ _ E Hok) as (? & ? & _).
  - (* InSequence::InSequence *)
    unfold enter_InSequence in E. change (bind get ?k w) with (k w w) in E. cbv beta in E.
    destruct (implicit_sequence w) as [s|]; [injection E as _ <-; auto using evolves_refl|].
    apply bind_Done in E as (s & w1 & E1 & [= _ <-]).
    destruct (new_sequence_ok _ _ _ E1 Hok) as (Hok1 & Hev1 & -> & Hs1 & _).
    destruct (set_implicit_ok w1 (Some (length w.(sequences))) Hok1) as [Hok2 Hev2].
    { intros s [= <-]. rewrite Hs1, lookup_app_r, Nat.sub_diag by lia. by eexists. }
    split; [done|by eapply evolves_trans].
  - unfold leave_InSequence in E. destruct b; injection E as <-; [|auto using evolves_refl].
    by apply set_implicit_ok.
Qed.

Lemma steps_ok throws w w' : rtc (step throws) w w' → world_ok w → world_ok w' ∧ evolves w w'.
Proof.
  induction 1 as [w|w1 w2 w3 H _ IH]; intros Hok; [split; [done|apply evolves_refl]|].
  destruct (step_ok _ _ _ H Hok) as [Hok2 Hev2]. destruct (IH Hok2). split; [done|by eapply evolves_trans].
Qed.

(** A state of a test that began with nothing. *)
Definition reachable (throws : bool) (w : World) : Prop :=
  ∃ flag catch test, rtc (step throws) (start flag catch test) w.
Lemma reachable_ok throws w : reachable throws w → world_ok w.
Proof. intros (flag & catch & test & H). by eapply steps_ok; [|apply start_ok]. Qed.

(** * Every excessive call was reported *)

(** The failure of an expectation: it names its place. *)
Definition blamed (w : World) (e : TypedExpectation) : Prop :=
  ∃ msg, Failure false (Some e.(file_)) e.(line_) msg ∈ w.(reports).
Definition reported (w : World) : Prop :=
  ∀ i e, w.(heap) !! i = Some e → IsOverSaturated e = true → blamed w e.

Lemma blamed_mono (w w' : World) e e' : (∀ r, r ∈ w.(reports) → r ∈ w'.(reports)) → same_spec e e' →
  blamed w e → blamed w' e'.
Proof. intros Hr (E1 & E2 & _) (msg & Hm). exists msg. rewrite E1, E2. auto. Qed.

Lemma over_saturated_same (e e' : TypedExpectation) : same_spec e e' →
  e'.(call_count_) = e.(call_count_) → IsOverSaturated e' = IsOverSaturated e.
Proof. intros (_ & _ & E1 & _) E2. unfold IsOverSaturated. by rewrite E1, E2. Qed.

(** Where counts stay, so does the property. *)
Lemma reported_mono (w w' : World) : reported w →
  (∀ r, r ∈ w.(reports) → r ∈ w'.(reports)) →
  (∀ j e', w'.(heap) !! j = Some e' → IsOverSaturated e' = true → blamed w' e' ∨
     ∃ e, w.(heap) !! j = Some e ∧ same_spec e e' ∧ e'.(call_count_) = e.(call_count_)) →
  reported w'.
Proof.
  intros H Hr Hh j e' He' Ho. destruct (Hh j e' He' Ho) as [?|(e & He & Hs & Hc)]; [done|].
  eapply blamed_mono; [exact Hr|exact Hs|]. apply (H j e He). by rewrite <- (over_saturated_same e e').
Qed.
Lemma reported_heap (w w' : World) : w'.(heap) = w.(heap) →
  (∀ r, r ∈ w.(reports) → r ∈ w'.(reports)) → reported w → reported w'.
Proof.
  intros Hh Hr H. eapply reported_mono; [done..|]. intros j e. rewrite Hh. intros He _. right.
  exists e. by split_and!.
Qed.

Lemma uncalled_not_over i (e : TypedExpectation) : uncalled i e → IsOverSaturated e = false.
Proof.
  intros [H0 _ Hc _]. unfold IsOverSaturated, IsOverSaturatedByCallCount. rewrite H0.
  destruct (IsSaturatedByCallCount _ 0) eqn:E; [|done]. by rewrite satisfied_at_start.
Qed.

(** The call that reaches the upper bound is within it. *)
Lemma counted_not_over (e e' : TypedExpectation) : Counting e.(cardinality_) → 0 <= e.(call_count_) →
  IsSaturated e = false → same_spec e e' → e'.(call_count_) = e.(call_count_) + 1 →
  IsOverSaturated e' = false.
Proof.
  intros Hc H0 Hs (_ & _ & E & _) Hcnt. unfold IsOverSaturated, IsOverSaturatedByCallCount.
  rewrite E, Hcnt. destruct (IsSaturatedByCallCount _ _) eqn:Es; [|done].
  by rewrite satisfied_when_saturating.
Qed.

Lemma call_step_reported m obj name args f res w w' : world_ok w → w.(mockers) !! m = Some f →
  countable w f → call m obj name args w = Done res w' → reported w → reported w'.
Proof.
  intros Hok Hf Hn E Hrep. destruct (decide (f.(untyped_expectations_) = [])) as [H0|H0].
  { destruct (call_named m obj name args w f Hf) as (w0 & f' & Hc0 & _ & _ & _ & E').
    rewrite H0, E in E'. pose proof (calm_uninteresting_call Perform DefaultValue returns_void
      UniversalPrint PrintAsActionResult m args w0) as Hc. rewrite <- E' in Hc.
    destruct (calm_change_trans _ _ _ Hc0 Hc) as [(Hh & _) Hr]. by eapply reported_heap. }
  destruct (call_spec m obj name args w f Hok Hf Hn H0) as (r & w1 & Hok1 & Hev1 & Hm & H).
  rewrite E in H. destruct H as [[(Hh & _) Hr] (_ & Hex & _)].
  eapply reported_mono; [exact Hrep|intros x Hx; apply Hr; by apply (ev_reports _ _ Hev1)|].
  intros j e' He' Ho. rewrite Hh in He'.
  assert (∀ d, w.(heap) !! j = Some d → same_spec d e') as Hspec.
  { intros d Hd. destruct (ev_heap _ _ Hev1 j d Hd) as (d' & Hd' & Hs & _). by simplify_eq. }
  destruct (matched_expectation r) as [i|] eqn:Ei.
  - destruct Hm as [_ Htk]. destruct (decide (j = i)) as [->|Hne].
    + destruct (tk_self _ _ _ _ Htk) as (e & e1 & He & He1 & Hs & Hc & Hx & _).
      assert (e1 = e') as -> by congruence. destruct (IsSaturated e) eqn:Es.
      * left. by eapply Hex.
      * destruct (ok_counting _ (wo_heap _ Hok) i e He) as [Hcnt Hge].
        by rewrite (counted_not_over e e') in Ho.
    + right. destruct (lookup_lt_is_Some_2 w.(heap) j) as [d Hd].
      { rewrite <- (tk_length _ _ _ _ Htk). by eapply lookup_lt_Some. }
      destruct (tk_other _ _ _ _ Htk j d Hne Hd) as (d' & Hd' & Hc). exists d. split_and!; [done|auto|congruence].
  - destruct Hm as (Hch & _). right. destruct (checked_back _ _ _ _ Hch He') as (d & Hd & Hc).
    exists d. split_and!; [done|auto|]. by destruct Hc as [-> | ->].
Qed.

(** Unless a call throws, an excessive call is reported when it happens. *)
Lemma step_reported w w' : step false w w' → world_ok w → reported w → reported w'.
Proof.
  intros Hs Hok Hrep.
  destruct Hs as
    [m obj file line o c matchers clauses i f w w' Hf Hv E|m obj file line o c matchers clauses w w' E
    |m obj name args f res w w' Hf Hn E|m obj name args f what w w' [=] Hf Hn E
    |obj b w w' E|obj b w w' E|m w w' E|i w w' E|w|s w w' E|b w w' E|b w w' E
    |obj reaction w w' E|obj w w' E|obj w w' E];
    try (apply calm_Done in E as [(Hh & _) Hr];
         [by eapply reported_heap|
          unfold UnregisterCallReaction, AllowLeak, SetReactionOnUninterestingCalls; solve [calm]]).
  - destruct (EXPECT_CALL_spec m obj file line o c matchers clauses w f Hok Hf Hv)
      as (i' & w1 & E' & Hb & _). rewrite E in E'. injection E' as <- <-.
    eapply reported_mono; [exact Hrep|apply (bu_reports _ _ _ _ Hb)|]. intros j e He Ho. right.
    destruct (bu_new _ _ _ _ Hb) as (e0 & He0 & Hu & _).
    destruct (decide (j = i)) as [->|Hne].
    + assert (e0 = e) as -> by congruence. by rewrite (uncalled_not_over i e Hu) in Ho.
    + destruct (lookup_lt_is_Some_2 w.(heap) j) as [d Hd].
      { apply lookup_lt_Some in He. rewrite (bu_length _ _ _ _ Hb), (bu_number _ _ _ _ Hb) in He.
        rewrite (bu_number _ _ _ _ Hb) in Hne. lia. }
      pose proof (bu_old _ _ _ _ Hb _ _ Hd). simplify_eq. exists e. by split_and!.
  - by eapply call_step_reported.
  - destruct (decide (i < length w.(heap))%nat) as [Hi|Hi].
    + destruct (check_count_spec i w Hi) as (u & w1 & E' & Hc). unfold destroy_expectation in E.
      rewrite E in E'. injection E' as _ <-.
      eapply reported_mono; [exact Hrep|apply (cw_reports _ _ Hc)|]. intros j e' He' _. right.
      destruct (checked_back _ _ _ _ (cw_heap _ _ Hc) He') as (d & Hd & Hd').
      exists d. split; [done|]. by destruct Hd' as [-> | ->].
    + exfalso. unfold destroy_expectation, on_expectation, get_expectation, bind, get in E. cbn in E.
      by rewrite lookup_ge_None_2 in E by lia.
  - by eapply reported_heap.
  - injection E as _ <-. by eapply reported_heap.
  - unfold enter_InSequence in E. change (bind get ?k w) with (k w w) in E. cbv beta in E.
    destruct (implicit_sequence w) as [s|]; [by injection E as _ <-|].
    apply bind_Done in E as (s & w1 & [= _ <-] & [= _ <-]). by eapply reported_heap.
  - unfold leave_InSequence in E. destruct b; injection E as <-; [|done]. by eapply reported_heap.
Qed.

Lemma reachable_reported w : reachable false w → reported w.
Proof.
  intros (flag & catch & test & H).
  assert (∀ w1 w2, rtc (step false) w1 w2 → world_ok w1 → reported w1 → reported w2) as Hr.
  { induction 1 as [|w1 w2 w3 Hs _ IH]; intros Hok Hrep; [done|].
    destruct (step_ok _ _ _ Hs Hok). apply IH; [done|]. by eapply step_reported. }
  eapply Hr; [exact H|apply start_ok|]. intros i e He. done.
Qed.

(** * Verification *)

Lemma over_unsatisfied (e : TypedExpectation) : IsOverSaturated e = true → IsSatisfied e = false.
Proof. unfold IsOverSaturated, IsOverSaturatedByCallCount, IsSatisfied. by intros [_ ?%negb_true_iff]%andb_true_iff. Qed.

Lemma verify_spec l b (w : World) : (∀ i, i ∈ l → is_Some (w.(heap) !! i)) →
  comes_to (verify l b) w (λ b' w', ∃ rs, w' = set_reports (w.(reports) ++ rs) w ∧
    (b' = true ↔ b = true ∧ ∀ i, i ∈ l → satisfied w.(heap) i) ∧
    (∀ i e, i ∈ l → w.(heap) !! i = Some e → IsSatisfied e = false → IsOverSaturated e = false →
       blamed w' e) ∧
    (b' = true → rs = [])).
Proof.
  revert b w. induction l as [|i l IH]; intros b w Hl; cbn [verify].
  { apply comes_ret. exists []. rewrite app_nil_r. split_and!; [by destruct w| | |done].
    - split; [intros ->; split; [done|]|by intros [? _]]. intros j Hj. by apply not_elem_of_nil in Hj.
    - intros j e Hj. by apply not_elem_of_nil in Hj. }
  destruct (Hl i) as [e He]; [by left|].
  assert (∀ j, j ∈ l → is_Some (w.(heap) !! j)) as Hl' by (intros j ?; apply Hl; by right).
  assert (satisfied w.(heap) i ↔ IsSatisfied e = true) as Hsat.
  { split; [intros (e' & ? & ?); by simplify_eq|by exists e]. }
  unfold get_expectation. apply comes_assoc, comes_get. eapply comes_defined; [exact He|].
  destruct (IsOverSaturated e) eqn:Ho; [|destruct (IsSatisfied e) eqn:Es].
  - pose proof (over_unsatisfied e Ho) as Es.
    eapply comes_mono; [by apply IH|]. intros b' w' (rs & -> & Hb & Hf & Hn). exists rs.
    split_and!; [done| | |done].
    + rewrite Hb. split; [by intros [? _]|]. intros [_ H]. assert (IsSatisfied e = true) by (apply Hsat, H; by left).
      congruence.
    + intros j d [->|Hj]%elem_of_cons Hd Hs Hov; [simplify_eq; congruence|by eapply Hf].
  - cbn [negb]. eapply comes_mono; [by apply IH|]. intros b' w' (rs & -> & Hb & Hf & Hn). exists rs.
    split_and!; [done| | |done].
    + rewrite Hb. split.
      * intros [? H]. split; [done|]. intros j [->|Hj]%elem_of_cons; [by apply Hsat|auto].
      * intros [? H]. split; [done|]. intros j Hj. apply H. by right.
    + intros j d [->|Hj]%elem_of_cons Hd Hs Hov; [simplify_eq; congruence|by eapply Hf].
  - cbn [negb]. set (f := Expect _ _ _ _).
    eapply comes_bind.
    { apply report_exact with (Q := λ _ w', w' = set_reports (w.(reports) ++ f) w). by intros ? ->. }
    intros [] ? ->.
    eapply comes_mono; [by apply IH|]. intros b' w' (rs & -> & Hb & Hf & Hn). cbn in *. exists (f ++ rs).
    split_and!.
    + unfold set_reports. cbn [reports heap mockers sequences implicit_sequence registry uninteresting
        verbose catch_leaked_mocks current_test]. by rewrite <- app_assoc.
    + rewrite Hb. split; [by intros [? _]|]. intros [_ H].
      by pose proof (proj1 Hsat (H i (list_elem_of_here _ _))).
    + intros j d [->|Hj]%elem_of_cons Hd Hs Hov; [|by eapply Hf].
      simplify_eq. eexists. cbn. rewrite !elem_of_app. left. right. by left.
    + intros Ht. apply Hb in Ht. by destruct Ht.
Qed.

(** C38: In a test in which no call throws, the verification of a mock function
    tells the truth and leaves nothing unsaid: it succeeds exactly when every
    expectation was called as often as it allows, it then reports nothing, and
    for every expectation that was not, called too rarely or too often, a
    failure with its place is among the reports. *)
Theorem verification_is_complete w m f : reachable false w → w.(mockers) !! m = Some f →
  ∃ b w', VerifyAndClearExpectationsLocked m w = Done b w' ∧
    (b = true ↔ ∀ i, i ∈ f.(untyped_expectations_) → satisfied w.(heap) i) ∧
    (b = true → w'.(reports) = w.(reports)) ∧
    (∀ i e, i ∈ f.(untyped_expectations_) → w.(heap) !! i = Some e → IsSatisfied e = false → blamed w' e) ∧
    ∃ f', w'.(mockers) !! m = Some f' ∧ f'.(untyped_expectations_) = [].
Proof.
  intros Hreach Hf. pose proof (reachable_ok _ _ Hreach) as Hok.
  destruct (verify_spec f.(untyped_expectations_) true w) as (b & w1 & E & rs & -> & Hb & Hbl & Hn).
  { intros i Hi. destruct (wo_lists _ Hok _ _ _ Hf Hi) as (e & He & _). by eexists. }
  eexists b, _. split.
  { unfold VerifyAndClearExpectationsLocked, get_mocker, bind, get. rewrite Hf. cbn [defined].
    rewrite E. reflexivity. }
  split_and!.
  - rewrite Hb. tauto.
  - intros Hbt. cbn. by rewrite (Hn Hbt), app_nil_r.
  - intros i e Hi He Hs. destruct (IsOverSaturated e) eqn:Ho; [|by eapply Hbl].
    destruct (reachable_reported w Hreach i e He Ho) as [msg Hm]. exists msg. cbn. apply elem_of_app. by left.
  - cbn. rewrite list_lookup_alter_eq, Hf. by eexists.
Qed.

(** * The order of the calls *)

(** Whatever way a call ends, it counts one expectation at most. *)
Lemma counted_is_taken m obj name args f w w' i e e' : world_ok w → w.(mockers) !! m = Some f →
  countable w f →
  (∃ res, call m obj name args w = Done res w') ∨ (∃ what, call m obj name args w = Thrown what w') →
  w.(heap) !! i = Some e → w'.(heap) !! i = Some e' → e'.(call_count_) ≠ e.(call_count_) →
  newest w.(heap) f args i ∧ ∃ r w1, took w i r w1 ∧ calm_change w1 w' ∧ world_ok w1.
Proof.
  intros Hok Hf Hn Hc He He' Hne. destruct (decide (f.(untyped_expectations_) = [])) as [H0|H0].
  { exfalso. destruct (call_named m obj name args w f Hf) as (w0 & f' & Hc0 & _ & _ & _ & E').
    pose proof (calm_uninteresting_call Perform DefaultValue returns_void
      UniversalPrint PrintAsActionResult m args w0) as Hcalm. rewrite H0 in E'. rewrite <- E' in Hcalm.
    assert (calm_change w0 w') as Hc1 by (destruct Hc as [[? E]|[? E]]; by rewrite E in Hcalm).
    destruct (calm_change_trans _ _ _ Hc0 Hc1) as [(Hh & _) _]. rewrite Hh in He'. congruence. }
  destruct (call_spec m obj name args w f Hok Hf Hn H0) as (r & w1 & Hok1 & _ & Hm & H).
  assert (calm_change w1 w') as Hc1 by (destruct Hc as [[? E]|[? E]]; rewrite E in H; [apply H|done]).
  pose proof (proj1 (proj1 Hc1)) as Hh. rewrite Hh in He'.
  destruct (matched_expectation r) as [i'|].
  - destruct Hm as [Hnew Htk]. destruct (decide (i = i')) as [->|Hii].
    + split; [done|]. by exists r, w1.
    + destruct (tk_other _ _ _ _ Htk i e Hii He) as (d & Hd & ?). congruence.
  - destruct Hm as [Hch _]. destruct (checked_back _ _ _ _ Hch He') as (d & Hd & Hd').
    destruct Hne. destruct Hd' as [-> | ->]; by simplify_eq.
Qed.

(** C37: Expectations of one sequence are consumed in their order, across all mock
    functions: take [j] in the sequence [s] and [i] put into it later, by the
    clause [InSequence] or by an object of the class.  Once a call counted [i]
    within its bounds, [j] is satisfied, and whatever the test does later, the
    count of [j] never changes again. *)
Theorem sequence_is_consumed_in_order throws s j w0 m obj file line o c matchers clauses f i w1
    w2 m' obj' name args f' w3 e2 e3 w4 :
  reachable throws w0 → in_sequence w0 s j →
  UseInSequence s ∈ clauses ∨ w0.(implicit_sequence) = Some s →
  w0.(mockers) !! m = Some f → Forall (valid_clause w0) clauses →
  EXPECT_CALL m obj file line o c matchers clauses w0 = Done i w1 →
  rtc (step throws) w1 w2 →
  w2.(mockers) !! m' = Some f' → countable w2 f' →
  (∃ res, call m' obj' name args w2 = Done res w3) ∨ (∃ what, call m' obj' name args w2 = Thrown what w3) →
  w2.(heap) !! i = Some e2 → w3.(heap) !! i = Some e3 →
  e3.(call_count_) ≠ e2.(call_count_) → IsSaturated e2 = false →
  rtc (step throws) w3 w4 →
  ∃ d3 d4, w3.(heap) !! j = Some d3 ∧ IsSatisfied d3 = true ∧
    w4.(heap) !! j = Some d4 ∧ d4.(call_count_) = d3.(call_count_).
Proof.
  intros Hreach Hj Hs Hf Hv E H12 Hf' Hn Hcall He2 He3 Hne Hsat H34.
  pose proof (reachable_ok _ _ Hreach) as Hok0.
  destruct (EXPECT_CALL_spec m obj file line o c matchers clauses w0 f Hok0 Hf Hv)
    as (i' & w1' & E' & Hb & _ & Ha & Hi). rewrite E in E'. injection E' as <- <-.
  assert (tc (pre w1.(heap)) i j) as Ht.
  { destruct Hs as [Hin|Himp]; [|by eapply Hi]. rewrite Forall_forall in Ha. by apply (Ha _ Hin). }
  destruct (steps_ok _ _ _ H12 (bu_ok _ _ _ _ Hb)) as [Hok2 Hev12].
  apply (evolves_tc _ _ _ _ Hev12) in Ht.
  destruct (counted_is_taken m' obj' name args f' w2 w3 i e2 e3) as (_ & r & wk & Htk & Hc & Hokk); [done..|].
  destruct (tk_self _ _ _ _ Htk) as (e & _ & He & _ & _ & _ & Hex & _). simplify_eq.
  destruct (tk_before _ _ _ _ Htk j) as (d & Hd & Hr & Hds); [by rewrite Hex|done|].
  destruct (calm_change_ok _ _ Hc Hokk) as [Hok3 _]. destruct (steps_ok _ _ _ H34 Hok3) as [_ Hev].
  pose proof (proj1 (proj1 Hc)) as Hh. rewrite <- Hh in Hd.
  destruct (ev_heap _ _ Hev j d Hd) as (d4 & Hd4 & _ & Hfin). destruct (Hfin Hr).
  by exists d, d4.
Qed.

Lemma satisfied_or_not (h : Heap Args Action) k : satisfied h k ∨ ¬ satisfied h k.
Proof.
  destruct (h !! k) as [e|] eqn:He; [|right; intros (e & ? & _); congruence].
  destruct (IsSatisfied e) eqn:Es; [left; by exists e|]. right. intros (e' & ? & ?). congruence.
Qed.

(** The newest expectation that may take a call takes it: one that is not
    retired, has everything it comes after satisfied, and matches.  It is
    counted; within its bounds the call performs its next action, beyond them
    a failure at its place is reported.  When there is none a failure without
    place is reported, and no count changes. *)
Theorem newest_expectation_takes_the_call throws m obj name args f w res w' :
  reachable throws w → w.(mockers) !! m = Some f → f.(untyped_expectations_) ≠ [] → countable w f →
  call m obj name args w = Done res w' →
  (∃ i e e', newest w.(heap) f args i ∧ w.(heap) !! i = Some e ∧ w'.(heap) !! i = Some e' ∧
     e'.(call_count_) = e.(call_count_) + 1 ∧
     if IsSaturated e then blamed w' e
     else ∀ a, nth_action e e.(call_count_) = Some a → res = Perform a args) ∨
  ((∀ k, k ∈ f.(untyped_expectations_) → ¬ takes w.(heap) k args) ∧
   (∃ msg, Failure false None (-1) msg ∈ w'.(reports)) ∧
   ∀ k e, w.(heap) !! k = Some e → ∃ e', w'.(heap) !! k = Some e' ∧ e'.(call_count_) = e.(call_count_)).
Proof.
  intros Hreach Hf H0 Hn E. pose proof (reachable_ok _ _ Hreach) as Hok.
  destruct (call_spec m obj name args w f Hok Hf Hn H0) as (r & w1 & Hok1 & _ & Hm & H).
  rewrite E in H. destruct H as [[(Hh & _) Hr] (Hnone & Hex & Hact)]. rewrite Hh.
  destruct (matched_expectation r) as [i|] eqn:Ei.
  - left. destruct Hm as [Hnew Htk].
    destruct (tk_self _ _ _ _ Htk) as (e & e' & He & He' & Hs & Hc & Hx & Ha).
    exists i, e, e'. split; [done|]. split_and!; [done..|]. destruct (IsSaturated e).
    + destruct (Hex i e' eq_refl Hx He') as [msg Hmsg]. exists msg.
      destruct Hs as (<- & <- & _). done.
    + intros a Hna. apply Hact. by rewrite Ha.
  - right. destruct Hm as (Hch & _ & _ & Hno). split_and!; [done|by apply Hnone|].
    intros k e He. destruct (proj2 Hch k e He) as (e' & He' & Hc). exists e'. split; [done|].
    by destruct Hc as [-> | ->].
Qed.

(** [RetireAllPreRequisites] may stop at a retired expectation, as its comment
    claims: in every state of a test it comes to an end and retires exactly the
    expectations this one comes after, directly or not. *)
Theorem retirement_shortcut_is_right throws w i e : reachable throws w → w.(heap) !! i = Some e →
  ∃ h', RetireAllPreRequisites (enough w.(heap)) w.(heap) i = Some h' ∧
    ∀ j d, w.(heap) !! j = Some d → ∃ d', h' !! j = Some d' ∧ (d' = d ∨ d' = Retire d) ∧
      (d'.(retired_) = true ↔ d.(retired_) = true ∨ tc (pre w.(heap)) i j).
Proof.
  intros Hreach He. pose proof (wo_heap _ (reachable_ok _ _ Hreach)) as Hh.
  pose proof (lookup_lt_Some _ _ _ He) as Hi.
  destruct (RetireAll_spec (enough w.(heap)) w.(heap) i (ok_older _ Hh) (ok_closed _ Hh) Hi)
    as (h' & E & [_ H] & _); [unfold enough; lia|]. by exists h'.
Qed.

(** The explanation of a call that an active, matching expectation did not take
    is never empty: the list it prints names unsatisfied expectations, each of
    which this one comes after, and at least one of them. *)
Theorem explanation_names_what_is_missing throws w i e args :
  reachable throws w → w.(heap) !! i = Some e → e.(retired_) = false → Matches e args = true →
  ¬ takes w.(heap) i args →
  ∃ r, FindUnsatisfiedPrerequisites (enough w.(heap)) w.(heap) i [] = Some r ∧ r ≠ [] ∧
    ∀ p, p ∈ r → ∃ k d, p = Some k ∧ tc (pre w.(heap)) i k ∧ w.(heap) !! k = Some d ∧ IsSatisfied d = false.
Proof.
  intros Hreach He Hr Hm Hn. pose proof (wo_heap _ (reachable_ok _ _ Hreach)) as Hh.
  pose proof (lookup_lt_Some _ _ _ He) as Hi.
  destruct (FindUnsatisfied_spec (enough w.(heap)) w.(heap) i [] (ok_older _ Hh) Hi) as (r & E & Hel);
    [unfold enough; lia|].
  exists r. split_and!; [done| |].
  - intros ->. apply Hn. exists e. split_and!; [done..| |done]. intros k Hk.
    destruct (satisfied_or_not w.(heap) k) as [?|Hns]; [done|]. exfalso.
    destruct (blocks_complete _ i k Hh Hk Hns) as [j Hj].
    assert (Some j ∈ ([] : ExpectationSet)) as Hin by (apply Hel; right; by exists j).
    by apply not_elem_of_nil in Hin.
  - intros p [Hp|(k & -> & Hb)]%Hel; [by apply not_elem_of_nil in Hp|].
    destruct (blocks_sound _ _ _ Hb) as (Ht & d & Hd & Hs). by exists k, d.
Qed.

End Safety.

(** * A test *)

(** Two mock functions of one object, 0 and 1, whose arguments, actions and
    results are numbers; an action returns itself. *)
Module Sample.
Definition Perform (a args : nat) : nat := a.
Definition show (n : nat) : string := to_string (Z.of_nat n).
Definition any : ArgumentMatcherTuple nat := mkMatchers (λ _, true) (λ _, "").
Definition World := World nat nat.
Notation call default := (Mocker.call Perform default false show show).
Notation step default := (step Perform default false show show).
Notation reachable default := (reachable Perform default false show show).

Definition world {A} (o : Outcome nat nat A) : World :=
  match o with
  | Done _ w | Thrown _ w | Aborted w => w
  | Undefined => start "warning" true None
  end.
Definition value {A} (o : Outcome nat nat A) : option A :=
  match o with Done a _ => Some a | _ => None end.
Lemma world_done {A} (o : Outcome nat nat A) a : value o = Some a → o = Done a (world o).
Proof. by destruct o; cbn; intros [= ->]. Qed.
Notation expect m line clauses := (EXPECT_CALL m 7 "test.cc" line "foo" "Bar(_)" any clauses).

(** Both functions, one sequence, an expectation of each function in it, and
    two calls in their order. *)
Definition w0 : World := start "warning" true None.
Definition w1 : World := set_mockers (w0.(mockers) ++ [new_mocker]) w0.
Definition w2 : World := set_mockers (w1.(mockers) ++ [new_mocker]) w1.
Definition w3 : World := world (new_sequence w2).
Definition first : list (ClauseUse nat nat) := [UseInSequence 0; UseWillOnce (Some 5%nat)].
Definition second : list (ClauseUse nat nat) := [UseTimes (Exactly 1); UseInSequence 0].
Definition w4 : World := world (expect 0 10 first w3).
Definition w5 : World := world (expect 1 11 second w4).
Definition w6 : World := world (call (Some 0%nat) 0 7 "Bar" 3%nat w5).
Definition w7 : World := world (call (Some 0%nat) 1 7 "Baz" 3%nat w6).

Definition may_be_called (w : World) (m : nat) : Prop :=
  match w.(mockers) !! m with
  | Some f => Forall (λ i, match w.(heap) !! i with Some e => e.(call_count_) < INT_MAX | None => True end)
                f.(untyped_expectations_)
  | None => True
  end.
Lemma may_be_called_countable w m f : may_be_called w m → w.(mockers) !! m = Some f → countable w f.
Proof.
  unfold may_be_called. intros H Hf. rewrite Hf in H. intros i e Hi He.
  rewrite Forall_forall in H. specialize (H i Hi). by rewrite He in H.
Qed.

Lemma first_valid : Forall (valid_clause w3) first.
Proof. repeat constructor. Qed.
Lemma second_valid : Forall (valid_clause w4) second.
Proof. apply Forall_cons. split; [apply Exactly_counting|]. by repeat constructor. Qed.

Lemma w4_is : expect 0 10 first w3 = Done 0%nat w4.
Proof. apply (world_done (expect 0 10 first w3)). vm_compute. reflexivity. Qed.
Lemma w5_is : expect 1 11 second w4 = Done 1%nat w5.
Proof. apply (world_done (expect 1 11 second w4)). vm_compute. reflexivity. Qed.
Lemma w6_is : call (Some 0%nat) 0 7 "Bar" 3%nat w5 = Done 5%nat w6.
Proof. apply (world_done (call (Some 0%nat) 0 7 "Bar" 3%nat w5)). vm_compute. reflexivity. Qed.
Lemma w7_is : call (Some 0%nat) 1 7 "Baz" 3%nat w6 = Done 0%nat w7.
Proof. apply (world_done (call (Some 0%nat) 1 7 "Baz" 3%nat w6)). vm_compute. reflexivity. Qed.

Lemma mocker_w4 : w4.(mockers) !! 1%nat = Some (mkMocker None (Some "") [] []).
Proof. vm_compute. reflexivity. Qed.
Lemma mocker_w5 : w5.(mockers) !! 0%nat = Some (mkMocker (Some 7%nat) (Some "") [] [0%nat]).
Proof. vm_compute. reflexivity. Qed.
Lemma mocker_w6 : w6.(mockers) !! 1%nat = Some (mkMocker (Some 7%nat) (Some "") [] [1%nat]).
Proof. vm_compute. reflexivity. Qed.
Lemma countable_w5 : countable w5 (mkMocker (Some 7%nat) (Some "") [] [0%nat]).
Proof.
  apply (may_be_called_countable w5 0); [|exact mocker_w5].
  unfold may_be_called. rewrite mocker_w5. apply Forall_singleton. vm_compute. reflexivity.
Qed.
Lemma countable_w6 : countable w6 (mkMocker (Some 7%nat) (Some "") [] [1%nat]).
Proof.
  apply (may_be_called_countable w6 1); [|exact mocker_w6].
  unfold may_be_called. rewrite mocker_w6. apply Forall_singleton. vm_compute. reflexivity.
Qed.

Lemma to_w3 throws : rtc (step (Some 0%nat) throws) w0 w3.
Proof.
  eapply rtc_l; [apply step_new_mocker|]. eapply rtc_l; [apply step_new_mocker|].
  eapply rtc_l; [|apply rtc_refl]. by eapply step_new_sequence.
Qed.
Lemma to_w4 throws : step (Some 0%nat) throws w3 w4.
Proof.
  eapply (step_expect _ _ _ _ _ _ 0 7 "test.cc" 10 "foo" "Bar(_)" any first 0);
    [reflexivity|exact first_valid|exact w4_is].
Qed.
Lemma to_w5 throws : step (Some 0%nat) throws w4 w5.
Proof.
  eapply (step_expect _ _ _ _ _ _ 1 7 "test.cc" 11 "foo" "Bar(_)" any second 1);
    [exact mocker_w4|exact second_valid|exact w5_is].
Qed.
Lemma to_w6 throws : step (Some 0%nat) throws w5 w6.
Proof.
  eapply (step_call _ _ _ _ _ _ 0 7 "Bar" 3%nat _ 5%nat); [exact mocker_w5|exact countable_w5|exact w6_is].
Qed.
Lemma to_w7 throws : step (Some 0%nat) throws w6 w7.
Proof.
  eapply (step_call _ _ _ _ _ _ 1 7 "Baz" 3%nat _ 0%nat); [exact mocker_w6|exact countable_w6|exact w7_is].
Qed.
Lemma reachable_w4 throws : reachable (Some 0%nat) throws w4.
Proof.
  exists "warning", true, None. eapply rtc_r; [apply to_w3|apply to_w4].
Qed.
Lemma reachable_w6 throws : reachable (Some 0%nat) throws w6.
Proof.
  exists "warning", true, None. eapply rtc_r; [|apply to_w6]. eapply rtc_r; [|apply to_w5].
  eapply rtc_r; [apply to_w3|apply to_w4].
Qed.
Lemma reachable_w5 throws : reachable (Some 0%nat) throws w5.
Proof.
  exists "warning", true, None. eapply rtc_r; [|apply to_w5]. eapply rtc_r; [apply to_w3|apply to_w4].
Qed.

(** The expectation with a number. *)
Definition at_ (w : World) (i : nat) : TypedExpectation nat nat :=
  default (new_expectation 0 "" 0 "" any) (w.(heap) !! i).
Lemma at_is (w : World) i : bool_decide (i < length w.(heap))%nat = true → w.(heap) !! i = Some (at_ w i).
Proof.
  intros H%bool_decide_eq_true. unfold at_. by destruct (lookup_lt_is_Some_2 _ _ H) as [e ->].
Qed.
Lemma w5_before : pre w5.(heap) 1 0.
Proof. exists (at_ w5 1). split; [by apply at_is; vm_compute|]. vm_compute. left. Qed.

Lemma w5_first : w5.(heap) !! 0%nat = Some (at_ w5 0).
Proof. apply at_is. vm_compute. reflexivity. Qed.
Lemma w5_missing : IsSatisfied (at_ w5 0) = false.
Proof. vm_compute. reflexivity. Qed.

(** ** Throwing away a report *)

(** One expectation for one call, of a function whose result has no default. *)
Definition u1 : World := set_mockers (w0.(mockers) ++ [new_mocker]) w0.
Definition once : list (ClauseUse nat nat) := [UseWillOnce (Some 5%nat)].
Definition u2 : World := world (expect 0 10 once u1).
Definition u3 : World := world (call None 0 7 "Bar" 3%nat u2).
Definition u4 : World := world (call None 0 7 "Bar" 3%nat u3).
Definition u5 : World := world (destroy_mocker 0 u4).
Definition is_failure (r : Report) : bool := match r with Failure _ _ _ _ => true | _ => false end.

(** ** A pre-requisite behind another *)

Definition chain (l : list (list (ClauseUse nat nat))) (w : World) : World :=
  foldl (λ w c, world (expect 0 10 c w)) w l.
Definition v1 : World :=
  chain [[UseTimes (Exactly 1)]; [UseTimes AnyNumber; UseAfter [Some 0%nat]]; [UseAfter [Some 1%nat]]] u1.
End Sample.

Import Sample.

Lemma verification_is_complete_witness :
  ∃ b w', VerifyAndClearExpectationsLocked 1 w6 = Done b w' ∧
    (b = true ↔ ∀ i, i ∈ [1%nat] → satisfied w6.(heap) i).
Proof.
  destruct (verification_is_complete Perform (Some 0%nat) false show show w6 1 _
    (reachable_w6 false) mocker_w6) as (b & w' & E & Hb & _).
  exists b, w'. split; [exact E|exact Hb].
Defined.

Lemma sequence_is_consumed_in_order_witness :
  ∃ d3 d4, w7.(heap) !! 0%nat = Some d3 ∧ IsSatisfied d3 = true ∧
    w7.(heap) !! 0%nat = Some d4 ∧ d4.(call_count_) = d3.(call_count_).
Proof.
  apply (sequence_is_consumed_in_order Perform (Some 0%nat) false show show false 0 0 w4 1 7 "test.cc" 11
    "foo" "Bar(_)" any second (mkMocker None (Some "") [] []) 1 w5 w6 1 7 "Baz" 3%nat
    (mkMocker (Some 7%nat) (Some "") [] [1%nat]) w7 (at_ w6 1) (at_ w7 1) w7).
  - exact (reachable_w4 false).
  - exists 0%nat. split; [vm_compute; reflexivity|apply rtc_refl].
  - left. unfold second. right. left.
  - exact mocker_w4.
  - exact second_valid.
  - exact w5_is.
  - apply rtc_once. exact (to_w6 false).
  - exact mocker_w6.
  - exact countable_w6.
  - left. exists 0%nat. exact w7_is.
  - apply at_is. vm_compute. reflexivity.
  - apply at_is. vm_compute. reflexivity.
  - vm_compute. discriminate.
  - vm_compute. reflexivity.
  - apply rtc_refl.
Defined.

Lemma newest_expectation_takes_the_call_witness :
  (∃ i e e', newest w6.(heap) (mkMocker (Some 7%nat) (Some "") [] [1%nat]) 3%nat i ∧
     w6.(heap) !! i = Some e ∧ w7.(heap) !! i = Some e' ∧ e'.(call_count_) = e.(call_count_) + 1) ∨
  (∃ msg, Failure false None (-1) msg ∈ w7.(reports)).
Proof.
  destruct (newest_expectation_takes_the_call Perform (Some 0%nat) false show show false 1 7 "Baz" 3%nat
    (mkMocker (Some 7%nat) (Some "") [] [1%nat]) w6 0%nat w7 (reachable_w6 false) mocker_w6) as [H|H].
  - discriminate.
  - exact countable_w6.
  - exact w7_is.
  - left. destruct H as (i & e & e' & H1 & H2 & H3 & H4 & _).
    exists i, e, e'. exact (conj H1 (conj H2 (conj H3 H4))).
  - right. apply H.
Defined.

Lemma retirement_shortcut_is_right_witness :
  ∃ h', RetireAllPreRequisites (enough w5.(heap)) w5.(heap) 1 = Some h'.
Proof.
  destruct (retirement_shortcut_is_right Perform (Some 0%nat) false show show false w5 1 (at_ w5 1)
    (reachable_w5 false)) as (h' & E & _).
  - apply at_is. vm_compute. reflexivity.
  - exists h'. exact E.
Defined.

Lemma explanation_names_what_is_missing_witness :
  ∃ r, FindUnsatisfiedPrerequisites (enough w5.(heap)) w5.(heap) 1 [] = Some r ∧ r ≠ [].
Proof.
  destruct (explanation_names_what_is_missing Perform (Some 0%nat) false show show false w5 1 (at_ w5 1) 3%nat
    (reachable_w5 false)) as (r & E & Hne & _).
  - apply at_is. vm_compute. reflexivity.
  - vm_compute. reflexivity.
  - vm_compute. reflexivity.
  - intros (e & _ & _ & Hs & _). destruct (Hs 0%nat (tc_once _ _ _ w5_before)) as (d & Hd & Hsat).
    pose proof (eq_trans (eq_sym Hd) w5_first) as Hd'. injection Hd' as ->.
    rewrite w5_missing in Hsat. discriminate.
  - exists r. split; [exact E|exact Hne].
Defined.

(** Where a call throws, "the error was already reported when it occurred" does
    not hold: an excessive call of a function whose result type has no default
    value throws before the failure is reported, and a program that handles the
    exception passes the test: the destructor finds the expectation
    over-saturated and says nothing. *)
Example excessive_call_goes_unreported :
  value (call None 0 7 "Bar" 3%nat u2) = Some 5%nat ∧
  (∃ what, call None 0 7 "Bar" 3%nat u3 = Thrown what u4) ∧
  value (destroy_mocker 0 u4) = Some tt ∧
  IsOverSaturated (at_ u4 0) = true ∧
  filter (λ r, is_failure r) u5.(reports) = [].
Proof.
  split; [vm_compute; reflexivity|]. split.
  - unfold u4. destruct (call None 0 7 "Bar" 3%nat u3) as [a w|what w|w|] eqn:E.
    + exfalso. assert (value (call None 0 7 "Bar" 3%nat u3) = None) as F by (vm_compute; reflexivity).
      rewrite E in F. discriminate.
    + by exists what.
    + exfalso. assert (match call None 0 7 "Bar" 3%nat u3 with Thrown _ _ => True | _ => False end) as F
        by (vm_compute; exact I). by rewrite E in F.
    + exfalso. assert (match call None 0 7 "Bar" 3%nat u3 with Thrown _ _ => True | _ => False end) as F
        by (vm_compute; exact I). by rewrite E in F.
  - split_and!; vm_compute; reflexivity.
Qed.

(** The explanation speaks of immediate pre-requisites and names one that is
    not: behind a pre-requisite satisfied without a call, the one that is
    missing. *)
Example explanation_names_a_distant_one :
  FindUnsatisfiedPrerequisites (enough v1.(heap)) v1.(heap) 2 [] = Some [Some 0%nat] ∧
  (at_ v1 2).(immediate_prerequisites_) = [Some 1%nat].
Proof. vm_compute. done. Qed.
