(* ===== verification/LogFile.v ===== *)
(** Log files of glog: [LogFileObject] of [src/lib/glog/src/logging.cc], over a
    small file system.

    A [FILE*] is the number of an inode; the directory maps names to inodes and to
    symbolic links.  What the operating system answers during one call is the
    record [Os].  What the log files of all severities share (the flag that stops
    the writing, the process id, the list of directories) is the record [Shared]. *)

From S2P Require Import Prelude Strings.
From stdpp Require Import base gmap list strings.
From Stdlib Require Import ZArith Lia Ascii.

Open Scope string_scope.
Open Scope Z_scope.

(** * Severities *)

Inductive LogSeverity := GLOG_INFO | GLOG_WARNING | GLOG_ERROR | GLOG_FATAL.

#[export] Instance LogSeverity_eq_dec : EqDecision LogSeverity.
Proof. solve_decision. Defined.

Definition severity_int (s : LogSeverity) : Z :=
  match s with GLOG_INFO => 0 | GLOG_WARNING => 1 | GLOG_ERROR => 2 | GLOG_FATAL => 3 end.

Definition LogSeverityNames (s : LogSeverity) : string :=
  match s with
  | GLOG_INFO => "INFO" | GLOG_WARNING => "WARNING"
  | GLOG_ERROR => "ERROR" | GLOG_FATAL => "FATAL"
  end.

(** * Files *)

(** Bytes of a file, and how many of them have been flushed to the system. *)
Record Inode := mkInode { data : string; flushed : nat }.

Inductive DirEntry := Regular (i : nat) | Symlink (target : string).

Record FileSystem := mkFs {
  dir : gmap string DirEntry;
  inodes : gmap nat Inode;
  next_inode : nat
}.

(** The fields of [struct tm] that are printed. *)
Record Tm := mkTm {
  tm_year : Z; tm_mon : Z; tm_mday : Z; tm_hour : Z; tm_min : Z; tm_sec : Z
}.

(** What the system answers during a call: the time in microseconds, the calendar,
    the process id, the host, the environment, whether names may be created, and
    for every piece given to [fwrite] how much of it is taken and whether [errno]
    is then [ENOSPC]. *)
Record Os := mkOs {
  gettimeofday : Z;
  localtime : Z → Tm;
  getpid : Z;
  nodename : string;
  getenv : string → option string;
  is_dir : string → bool;
  can_open : string → bool;
  can_fdopen : string → bool;
  can_link : string → bool;
  fwritten : string → nat * bool;
  strerror : string
}.

Definition unlink (p : string) (fs : FileSystem) : FileSystem :=
  mkFs (delete p fs.(dir)) fs.(inodes) fs.(next_inode).

Definition fflush (i : nat) (fs : FileSystem) : FileSystem :=
  mkFs fs.(dir) (alter (λ n, mkInode n.(data) (String.length n.(data))) i fs.(inodes))
    fs.(next_inode).

(** [fclose] writes out what is buffered; the handle is gone. *)
Definition fclose (i : nat) (fs : FileSystem) : FileSystem := fflush i fs.

(** [fwrite] in append mode: the bytes taken go behind those there are. *)
Definition fwrite (os : Os) (s : string) (i : nat) (fs : FileSystem) : FileSystem :=
  mkFs fs.(dir)
    (alter (λ n, mkInode (n.(data) +:+ String.substring 0 (os.(fwritten) s).1 s) n.(flushed))
       i fs.(inodes)) fs.(next_inode).

(** [open] with [O_CREAT | O_EXCL], then [fdopen]: a new empty file. *)
Definition create (p : string) (fs : FileSystem) : FileSystem :=
  mkFs (<[p := Regular fs.(next_inode)]> fs.(dir))
    (<[fs.(next_inode) := mkInode "" 0]> fs.(inodes)) (S fs.(next_inode)).

(** [unlink(linkpath); symlink(dest, linkpath)], which may both be refused. *)
Definition relink (os : Os) (dest linkpath : string) (fs : FileSystem) : FileSystem :=
  if os.(can_link) linkpath then
    mkFs (<[linkpath := Symlink dest]> (dir (unlink linkpath fs))) fs.(inodes) fs.(next_inode)
  else fs.

(** * Flags and shared state *)

Record Flags := mkFlags {
  FLAGS_max_log_size : Z;
  FLAGS_logbufsecs : Z;
  FLAGS_stop_logging_if_full_disk : bool;
  FLAGS_log_dir : string;
  FLAGS_log_link : string
}.

Record Shared := mkShared {
  fs : FileSystem;
  stop_writing : bool;
  g_main_thread_pid : Z;
  hostname_ : string;
  logging_directories_list : option (list string);
  g_program_invocation_short_name : option string;
  g_my_user_name : string;
  stderr : string
}.

Definition set_fs (x : FileSystem) (g : Shared) : Shared :=
  mkShared x g.(stop_writing) g.(g_main_thread_pid) g.(hostname_)
    g.(logging_directories_list) g.(g_program_invocation_short_name)
    g.(g_my_user_name) g.(stderr).
Definition set_stop (x : bool) (g : Shared) : Shared :=
  mkShared g.(fs) x g.(g_main_thread_pid) g.(hostname_)
    g.(logging_directories_list) g.(g_program_invocation_short_name)
    g.(g_my_user_name) g.(stderr).
Definition set_pid (x : Z) (g : Shared) : Shared :=
  mkShared g.(fs) g.(stop_writing) x g.(hostname_)
    g.(logging_directories_list) g.(g_program_invocation_short_name)
    g.(g_my_user_name) g.(stderr).
Definition set_hostname (x : string) (g : Shared) : Shared :=
  mkShared g.(fs) g.(stop_writing) g.(g_main_thread_pid) x
    g.(logging_directories_list) g.(g_program_invocation_short_name)
    g.(g_my_user_name) g.(stderr).
Definition set_dirs (x : option (list string)) (g : Shared) : Shared :=
  mkShared g.(fs) g.(stop_writing) g.(g_main_thread_pid) g.(hostname_)
    x g.(g_program_invocation_short_name) g.(g_my_user_name) g.(stderr).
Definition set_program (x : option string) (g : Shared) : Shared :=
  mkShared g.(fs) g.(stop_writing) g.(g_main_thread_pid) g.(hostname_)
    g.(logging_directories_list) x g.(g_my_user_name) g.(stderr).
Definition WriteToStderr (x : string) (g : Shared) : Shared :=
  mkShared g.(fs) g.(stop_writing) g.(g_main_thread_pid) g.(hostname_)
    g.(logging_directories_list) g.(g_program_invocation_short_name)
    g.(g_my_user_name) (g.(stderr) +:+ x).

(** * utilities.cc *)

Definition CycleClock_Now (os : Os) : Z := os.(gettimeofday).
Definition UsecToCycles (usec : Z) : Z := usec.

Definition PidHasChanged (os : Os) (g : Shared) : bool * Shared :=
  if g.(g_main_thread_pid) =? os.(getpid) then (false, g)
  else (true, set_pid os.(getpid) g).

Definition ProgramInvocationShortName (g : Shared) : string :=
  match g.(g_program_invocation_short_name) with Some s => s | None => "UNKNOWN" end.

Definition IsGoogleLoggingInitialized (g : Shared) : bool :=
  match g.(g_program_invocation_short_name) with Some _ => true | None => false end.

(** [strrchr]: the string up to and with the last [c], and what follows. *)
Fixpoint split_last (c : ascii) (s : string) : option (string * string) :=
  match s with
  | "" => None
  | String d s' =>
      match split_last c s' with
      | Some (a, b) => Some (String d a, b)
      | None => if decide (d = c) then Some (String d "", s') else None
      end
  end.

Definition const_basename (filepath : string) : string :=
  match split_last "/" filepath with Some (_, base) => base | None => filepath end.

Definition MyUserNameInitializer (os : Os) : string :=
  match os.(getenv) "USER" with Some user => user | None => "invalid-user" end.

(** * Directories *)

Definition DefaultLogDir (os : Os) : string :=
  match os.(getenv) "GOOGLE_LOG_DIR" with
  | Some (String _ _ as env) => env
  | _ =>
      match os.(getenv) "TEST_TMPDIR" with
      | Some (String _ _ as env) => env
      | _ => ""
      end
  end.

(** The last character; [None] for the empty string, where the code reads at the
    index [-1]. *)
Fixpoint last_char (s : string) : option ascii :=
  match s with
  | "" => None
  | String c "" => Some c
  | String _ s => last_char s
  end.

Definition newline : string := String "010" "".

(** The loop over the candidates, [None] where the code reads out of bounds. *)
Fixpoint temp_dirs (os : Os) (candidates : list (option string)) : option (list string) :=
  match candidates with
  | [] => Some []
  | None :: l => temp_dirs os l
  | Some d :: l =>
      c ← last_char d;
      let dstr := if decide (c = "/"%char) then d else d +:+ "/" in
      if os.(is_dir) d then Some [dstr]
      else rest ← temp_dirs os l; Some (dstr :: rest)
  end.

Definition GetTempDirectories (os : Os) : option (list string) :=
  temp_dirs os [os.(getenv) "TEST_TMPDIR"; os.(getenv) "TMPDIR"; os.(getenv) "TMP";
                Some "/tmp"].

Definition GetLoggingDirectories (fl : Flags) (os : Os) (g : Shared)
    : option (list string * Shared) :=
  match g.(logging_directories_list) with
  | Some l => Some (l, g)
  | None =>
      l ← (if decide (fl.(FLAGS_log_dir) ≠ "") then Some [fl.(FLAGS_log_dir)]
           else l ← GetTempDirectories os; Some (l ++ ["./"])%list);
      Some (l, set_dirs (Some l) g)
  end.

Definition MaxLogSize (fl : Flags) : Z :=
  if 0 <? fl.(FLAGS_max_log_size) then fl.(FLAGS_max_log_size) else 1.

(** [LogDestination::hostname]. *)
Definition hostname (os : Os) (g : Shared) : string * Shared :=
  match g.(hostname_) with
  | "" =>
      let h := match os.(nodename) with "" => "(unknown)" | h => h end in
      (h, set_hostname h g)
  | h => (h, g)
  end.

(** * The file of one severity *)

Definition kRolloverAttemptFrequency : Z := 32.

Definition u32 (z : Z) : Z := z mod U32.

Record LogFileObject := mkLogFile {
  base_filename_selected_ : bool;
  base_filename_ : string;
  symlink_basename_ : string;
  filename_extension_ : string;
  file_ : option nat;
  severity_ : LogSeverity;
  bytes_since_flush_ : Z;
  file_length_ : Z;
  rollover_attempt_ : Z;
  next_flush_time_ : Z
}.

Definition set_file (file : option nat) (bytes length attempt : Z) (f : LogFileObject)
    : LogFileObject :=
  mkLogFile f.(base_filename_selected_) f.(base_filename_) f.(symlink_basename_)
    f.(filename_extension_) file f.(severity_) bytes length attempt f.(next_flush_time_).
Definition set_base (selected : bool) (base : string) (f : LogFileObject) : LogFileObject :=
  mkLogFile selected base f.(symlink_basename_) f.(filename_extension_) f.(file_)
    f.(severity_) f.(bytes_since_flush_) f.(file_length_) f.(rollover_attempt_)
    f.(next_flush_time_).
Definition set_flush_time (t : Z) (f : LogFileObject) : LogFileObject :=
  mkLogFile f.(base_filename_selected_) f.(base_filename_) f.(symlink_basename_)
    f.(filename_extension_) f.(file_) f.(severity_) f.(bytes_since_flush_)
    f.(file_length_) f.(rollover_attempt_) t.

(** The constructor, with [base_filename] [NULL] or a string. *)
Definition new_LogFileObject (g : Shared) (severity : LogSeverity)
    (base_filename : option string) : LogFileObject :=
  mkLogFile (bool_decide (is_Some base_filename)) (default "" base_filename)
    (ProgramInvocationShortName g) "" None severity 0 0 (kRolloverAttemptFrequency - 1) 0.

Definition close_file (f : LogFileObject) (g : Shared) : Shared :=
  match f.(file_) with Some i => set_fs (fclose i g.(fs)) g | None => g end.

Definition delete_LogFileObject (f : LogFileObject) (g : Shared) : Shared := close_file f g.

Definition SetBasename (basename : string) (f : LogFileObject) (g : Shared)
    : LogFileObject * Shared :=
  let f := set_base true f.(base_filename_) f in
  if decide (f.(base_filename_) ≠ basename) then
    match f.(file_) with
    | Some i =>
        (set_base true basename
           (set_file None f.(bytes_since_flush_) f.(file_length_)
              (kRolloverAttemptFrequency - 1) f),
         close_file f g)
    | None => (set_base true basename f, g)
    end
  else (f, g).

Definition set_extension (ext : string) (f : LogFileObject) : LogFileObject :=
  mkLogFile f.(base_filename_selected_) f.(base_filename_) f.(symlink_basename_)
    ext f.(file_) f.(severity_) f.(bytes_since_flush_) f.(file_length_)
    f.(rollover_attempt_) f.(next_flush_time_).

Definition SetExtension (ext : string) (f : LogFileObject) (g : Shared)
    : LogFileObject * Shared :=
  if decide (f.(filename_extension_) ≠ ext) then
    match f.(file_) with
    | Some i =>
        (set_extension ext
           (set_file None f.(bytes_since_flush_) f.(file_length_)
              (kRolloverAttemptFrequency - 1) f),
         close_file f g)
    | None => (set_extension ext f, g)
    end
  else (f, g).

Definition SetSymlinkBasename (symlink_basename : string) (f : LogFileObject)
    : LogFileObject :=
  mkLogFile f.(base_filename_selected_) f.(base_filename_) symlink_basename
    f.(filename_extension_) f.(file_) f.(severity_) f.(bytes_since_flush_)
    f.(file_length_) f.(rollover_attempt_) f.(next_flush_time_).

Definition FlushUnlocked (fl : Flags) (os : Os) (f : LogFileObject) (g : Shared)
    : LogFileObject * Shared :=
  let '(f, g) :=
    match f.(file_) with
    | Some i =>
        (set_file (Some i) 0 f.(file_length_) f.(rollover_attempt_) f,
         set_fs (fflush i g.(fs)) g)
    | None => (f, g)
    end in
  let next := fl.(FLAGS_logbufsecs) * 1000000 in
  (set_flush_time (i64 (CycleClock_Now os + UsecToCycles next)) f, g).

(** ** Creating a file *)

(** The symbolic links to a new file. *)
Definition make_links (fl : Flags) (os : Os) (filename : string) (f : LogFileObject)
    (fs : FileSystem) : FileSystem :=
  if decide (f.(symlink_basename_) = "") then fs
  else
    let linkname := f.(symlink_basename_) +:+ "." +:+ LogSeverityNames f.(severity_) in
    let '(dirname, linkdest) :=
      match split_last "/" filename with Some x => x | None => ("", filename) end in
    let fs := relink os linkdest (dirname +:+ linkname) fs in
    if decide (fl.(FLAGS_log_link) = "") then fs
    else relink os filename (fl.(FLAGS_log_link) +:+ "/" +:+ linkname) fs.

Definition CreateLogfile (fl : Flags) (os : Os) (time_pid_string : string)
    (f : LogFileObject) (g : Shared) : bool * LogFileObject * Shared :=
  let filename := f.(base_filename_) +:+ f.(filename_extension_) +:+ time_pid_string in
  if bool_decide (g.(fs).(dir) !! filename = None) && os.(can_open) filename then
    let i := g.(fs).(next_inode) in
    let fs1 := create filename g.(fs) in
    if os.(can_fdopen) filename then
      (true,
       set_file (Some i) f.(bytes_since_flush_) f.(file_length_) f.(rollover_attempt_) f,
       set_fs (make_links fl os filename f fs1) g)
    else
      (false,
       set_file None f.(bytes_since_flush_) f.(file_length_) f.(rollover_attempt_) f,
       set_fs (unlink filename fs1) g)
  else (false, f, g).

(** The loop over the directories: the first in which the file can be made.  The
    base name of the last one tried stays. *)
Fixpoint try_dirs (fl : Flags) (os : Os) (stripped_filename time_pid_string : string)
    (log_dirs : list string) (f : LogFileObject) (g : Shared)
    : bool * LogFileObject * Shared :=
  match log_dirs with
  | [] => (false, f, g)
  | d :: log_dirs =>
      let f := set_base f.(base_filename_selected_) (d +:+ "/" +:+ stripped_filename) f in
      let '(success, f, g) := CreateLogfile fl os time_pid_string f g in
      if success : bool then (true, f, g)
      else try_dirs fl os stripped_filename time_pid_string log_dirs f g
  end.

(** [setw(w)] with a fill character: padding on the left. *)
Definition setw (fill : ascii) (w : nat) (s : string) : string :=
  String.string_of_list_ascii (replicate (w - String.length s) fill) +:+ s.

Definition two (n : Z) : string := setw "0" 2 (to_string n).

Definition time_pid (os : Os) (pid timestamp : Z) : string :=
  let t := os.(localtime) timestamp in
  to_string (1900 + t.(tm_year)) +:+ two (1 + t.(tm_mon)) +:+ two t.(tm_mday) +:+ "-"
    +:+ two t.(tm_hour) +:+ two t.(tm_min) +:+ two t.(tm_sec) +:+ "." +:+ to_string pid.

Definition file_header (os : Os) (host : string) (timestamp : Z) : string :=
  let t := os.(localtime) timestamp in
  "Log file created at: " +:+ to_string (1900 + t.(tm_year)) +:+ "/"
    +:+ two (1 + t.(tm_mon)) +:+ "/" +:+ two t.(tm_mday) +:+ " "
    +:+ two t.(tm_hour) +:+ ":" +:+ two t.(tm_min) +:+ ":" +:+ two t.(tm_sec) +:+ newline
    +:+ "Running on machine: " +:+ host +:+ newline
    +:+ "Log line format: [IWEF]mmdd hh:mm:ss.uuuuuu " +:+ "threadid file:line] msg"
    +:+ newline.

(** [perror(message)]. *)
Definition perror (os : Os) (message : string) : string :=
  message +:+ ": " +:+ os.(strerror) +:+ newline.

Definition default_stripped_filename (os : Os) (f : LogFileObject) (g : Shared) : string :=
  let uidname := match g.(g_my_user_name) with "" => "invalid-user" | u => u end in
  ProgramInvocationShortName g +:+ "." +:+ os.(nodename) +:+ "." +:+ uidname
    +:+ ".log." +:+ LogSeverityNames f.(severity_) +:+ ".".

(** Making the file of a message: under the name selected, or in the first of the
    logging directories that takes it; then its header.  [None] is undefined
    behaviour. *)
Definition open_file (fl : Flags) (os : Os) (timestamp : Z) (f : LogFileObject)
    (g : Shared) : option (bool * LogFileObject * Shared) :=
  let time_pid_string := time_pid os g.(g_main_thread_pid) timestamp in
  r ← (if f.(base_filename_selected_) then
         let '(ok, f, g) := CreateLogfile fl os time_pid_string f g in
         if ok : bool then Some (true, f, g)
         else
           Some (false, f,
             WriteToStderr (perror os "Could not create log file" +:+
               "COULD NOT CREATE LOGFILE '" +:+ time_pid_string +:+ "'!" +:+ newline) g)
       else
         '(log_dirs, g) ← GetLoggingDirectories fl os g;
         let '(success, f, g) :=
           try_dirs fl os (default_stripped_filename os f g) time_pid_string log_dirs f g in
         if success : bool then Some (true, f, g)
         else
           Some (false, f,
             WriteToStderr (perror os "Could not create logging file" +:+
               "COULD NOT CREATE A LOGGINGFILE " +:+ time_pid_string +:+ "!") g));
  let '(ok, f, g) := (r : bool * LogFileObject * Shared) in
  match ok, f.(file_) with
  | true, Some i =>
      let '(host, g) := hostname os g in
      let header := file_header os host timestamp in
      let len := Z.of_nat (String.length header) in
      Some (true,
        set_file (Some i) (u32 (f.(bytes_since_flush_) + len)) (u32 (f.(file_length_) + len))
          f.(rollover_attempt_) f,
        set_fs (fwrite os header i g.(fs)) g)
  | _, _ => Some (false, f, g)
  end.

(** ** Writing *)

(** What the test for a rollover does; the process id is looked at only when the
    file is not too long. *)
Definition needs_rollover (fl : Flags) (os : Os) (f : LogFileObject) (g : Shared)
    : bool * Shared :=
  if MaxLogSize fl <=? Z.shiftr f.(file_length_) 20 then (true, g) else PidHasChanged os g.

Definition rollover (f : LogFileObject) (g : Shared) : LogFileObject * Shared :=
  (set_file None 0 0 (kRolloverAttemptFrequency - 1) f, close_file f g).

(** The message itself, into the open file. *)
Definition write_message (fl : Flags) (os : Os) (force_flush : bool) (message : string)
    (i : nat) (f : LogFileObject) (g : Shared) : LogFileObject * Shared :=
  if negb g.(stop_writing) then
    let g := set_fs (fwrite os message i g.(fs)) g in
    if fl.(FLAGS_stop_logging_if_full_disk) && (os.(fwritten) message).2 then
      (f, set_stop true g)
    else
      let len := Z.of_nat (String.length message) in
      let f := set_file (Some i) (u32 (f.(bytes_since_flush_) + len))
                 (u32 (f.(file_length_) + len)) f.(rollover_attempt_) f in
      if force_flush || (1000000 <=? f.(bytes_since_flush_)) ||
         (f.(next_flush_time_) <=? CycleClock_Now os)
      then FlushUnlocked fl os f g
      else (f, g)
  else
    (f, if f.(next_flush_time_) <=? CycleClock_Now os then set_stop false g else g).

Definition Write (fl : Flags) (os : Os) (force_flush : bool) (timestamp : Z)
    (message : string) (f : LogFileObject) (g : Shared) : option (LogFileObject * Shared) :=
  if f.(base_filename_selected_) && bool_decide (f.(base_filename_) = "") then Some (f, g)
  else
    let '(roll, g) := needs_rollover fl os f g in
    let '(f, g) := if roll : bool then rollover f g else (f, g) in
    match f.(file_) with
    | Some i => Some (write_message fl os force_flush message i f g)
    | None =>
        let attempt := u32 (f.(rollover_attempt_) + 1) in
        let f := set_file None f.(bytes_since_flush_) f.(file_length_) attempt f in
        if negb (attempt =? kRolloverAttemptFrequency) then Some (f, g)
        else
          '(ok, f, g) ← open_file fl os timestamp
                          (set_file None f.(bytes_since_flush_) f.(file_length_) 0 f) g;
          match (ok : bool), f.(file_) with
          | true, Some i => Some (write_message fl os force_flush message i f g)
          | _, _ => Some (f, g)
          end
    end.
