(* ===== verification/LogFileFacts.v ===== *)
(** Properties of log files: a run of writes loses and duplicates nothing while files
    can be made and the disk takes what is written, files are rolled over by their
    size, what is not flushed is bounded, and what happens when a file cannot be
    made. *)

From S2P Require Import Prelude Strings LogFile.
From stdpp Require Import base gmap list strings.
From Stdlib Require Import ZArith Lia Ascii Sorting.Sorted.

Open Scope string_scope.
Open Scope Z_scope.

#[local] Arguments String.substring : simpl never.
#[local] Arguments file_header : simpl never.
#[local] Arguments fwrite : simpl never.

(** * The file system *)

(** Every inode has a number below the next one. *)
Definition fs_wf (s : FileSystem) : Prop :=
  ∀ i, is_Some (s.(inodes) !! i) → (i < s.(next_inode))%nat.

(** [s'] keeps the bytes of the files of [s]. *)
Record keeps (s s' : FileSystem) : Prop := {
  keeps_next : (s.(next_inode) <= s'.(next_inode))%nat;
  keeps_data i : (i < s.(next_inode))%nat →
    data <$> s'.(inodes) !! i = data <$> s.(inodes) !! i;
  keeps_wf : fs_wf s → fs_wf s'
}.

#[export] Instance keeps_preorder : PreOrder keeps.
Proof.
  split.
  - split; auto.
  - intros a b c [? Hd1 ?] [? Hd2 ?]. split; [lia| |auto].
    intros i Hi. rewrite Hd2 by lia. by apply Hd1.
Qed.

Lemma keeps_dir s d : keeps s (mkFs d s.(inodes) s.(next_inode)).
Proof. split; auto. Qed.

Lemma keeps_fflush i s : keeps s (fflush i s).
Proof.
  split; simpl; [done| |].
  - intros j _. rewrite lookup_alter. case_decide; [|done]. subst.
    by destruct (inodes s !! j).
  - intros Hwf j. unfold fflush; simpl. rewrite lookup_alter_is_Some. apply Hwf.
Qed.

Lemma keeps_create p s : fs_wf s → keeps s (create p s).
Proof.
  intros Hwf. split; simpl; [lia| |].
  - intros i Hi. rewrite lookup_insert_ne by lia. done.
  - intros _ j. unfold create; simpl. rewrite lookup_insert_is_Some.
    intros [<-|[_ H]]; [lia|]. specialize (Hwf _ H). lia.
Qed.

Lemma relink_inodes os a b s : inodes (relink os a b s) = inodes s.
Proof. unfold relink. by case_match. Qed.
Lemma relink_next os a b s : next_inode (relink os a b s) = next_inode s.
Proof. unfold relink. by case_match. Qed.

Lemma make_links_inodes fl os p f s : inodes (make_links fl os p f s) = inodes s.
Proof. unfold make_links. by repeat case_match; rewrite ?relink_inodes. Qed.
Lemma make_links_next fl os p f s : next_inode (make_links fl os p f s) = next_inode s.
Proof. unfold make_links. by repeat case_match; rewrite ?relink_next. Qed.

Lemma keeps_same_inodes s s' :
  inodes s' = inodes s → next_inode s' = next_inode s → keeps s s'.
Proof. intros H1 H2. split; rewrite ?H1, ?H2; auto. unfold fs_wf. by rewrite H1, H2. Qed.

Lemma keeps_make_links fl os p f s : keeps s (make_links fl os p f s).
Proof. apply keeps_same_inodes; [apply make_links_inodes|apply make_links_next]. Qed.

(** * Making a file *)

(** What making a file, or failing to, does to the shared state and the object. *)
Record made (f f' : LogFileObject) (g g' : Shared) (ok : bool) : Prop := {
  made_keeps : keeps g.(fs) g'.(fs);
  made_stop : g'.(stop_writing) = g.(stop_writing);
  made_host : g'.(hostname_) = g.(hostname_);
  made_bytes : f'.(bytes_since_flush_) = f.(bytes_since_flush_);
  made_length : f'.(file_length_) = f.(file_length_);
  made_attempt : f'.(rollover_attempt_) = f.(rollover_attempt_);
  made_flush : f'.(next_flush_time_) = f.(next_flush_time_);
  made_file : if ok then ∃ i, f'.(file_) = Some i ∧ (g.(fs).(next_inode) <= i)%nat ∧
                          g'.(fs).(inodes) !! i = Some (mkInode "" 0)
              else f.(file_) = None → f'.(file_) = None
}.

Lemma CreateLogfile_made fl os t f g ok f' g' :
  fs_wf g.(fs) → CreateLogfile fl os t f g = (ok, f', g') → made f f' g g' ok.
Proof.
  intros Hwf. unfold CreateLogfile. intros H.
  pose proof (keeps_create (base_filename_ f +:+ filename_extension_ f +:+ t) _ Hwf) as Hc.
  repeat case_match; simplify_eq; split; simpl; auto.
  - etrans; [exact Hc|]. apply keeps_make_links.
  - eexists; split_and!; [done|done|]. rewrite make_links_inodes. simpl.
    by rewrite lookup_insert_eq.
  - etrans; [exact Hc|]. apply keeps_dir.
  - reflexivity.
Qed.

Lemma made_trans_fail f f1 f' g g1 g' ok :
  made f f1 g g1 false → made f1 f' g1 g' ok → made f f' g g' ok.
Proof.
  intros [] []. split; try congruence; [by etrans|].
  destruct ok.
  - destruct made_file1 as (i & ? & Hi & ?). exists i. split_and!; [done| |done].
    destruct made_keeps0. lia.
  - auto.
Qed.

Lemma made_set_base f b s f' g g' ok :
  made (set_base b s f) f' g g' ok → made f f' g g' ok.
Proof. intros []. by split. Qed.

Lemma try_dirs_made fl os st t dirs f g ok f' g' :
  fs_wf g.(fs) → try_dirs fl os st t dirs f g = (ok, f', g') → made f f' g g' ok.
Proof.
  revert f g. induction dirs as [|d dirs IH]; intros f g Hwf H; simpl in H.
  { simplify_eq. split; try done; auto. }
  destruct (CreateLogfile _ _ _ _ _) as [[ok1 f1] g1] eqn:Hc.
  apply CreateLogfile_made in Hc; [|done]. apply made_set_base in Hc.
  destruct ok1; [by simplify_eq|].
  eapply made_trans_fail; [done|]. apply IH; [|done].
  apply (keeps_wf _ _ (made_keeps _ _ _ _ _ Hc)), Hwf.
Qed.

Lemma GetLoggingDirectories_fs fl os g l g' :
  GetLoggingDirectories fl os g = Some (l, g') → fs g' = fs g ∧ stop_writing g' = stop_writing g ∧
  hostname_ g' = hostname_ g.
Proof.
  unfold GetLoggingDirectories. destruct (logging_directories_list g); intros H; simplify_eq; [done|].
  destruct (if decide _ then _ else _) in H; by simplify_eq/=.
Qed.

Lemma hostname_fs os g h g' :
  hostname os g = (h, g') → fs g' = fs g ∧ stop_writing g' = stop_writing g.
Proof. unfold hostname. intros H. by destruct (hostname_ g); simplify_eq/=. Qed.

(** * The disk takes everything *)

Definition disk_ok (os : Os) : Prop := ∀ s, os.(fwritten) s = (String.length s, false).

Lemma substring_all s : String.substring 0 (String.length s) s = s.
Proof.
  induction s as [|c s IH]; [done|].
  change (String c (String.substring 0 (String.length s) s) = String c s). by rewrite IH.
Qed.

Lemma fwrite_inode os s i fs n :
  disk_ok os → inodes fs !! i = Some n →
  inodes (fwrite os s i fs) !! i = Some (mkInode (data n +:+ s) (flushed n)).
Proof.
  intros Hd Hi. unfold fwrite; simpl. rewrite lookup_alter_eq, Hi. simpl.
  rewrite Hd. cbn [fst]. by rewrite substring_all.
Qed.

Lemma fwrite_other os s i j fs :
  i ≠ j → inodes (fwrite os s i fs) !! j = inodes fs !! j.
Proof. intros. unfold fwrite. simpl. by rewrite lookup_alter_ne. Qed.

Lemma fwrite_wf os s i fs : fs_wf fs → fs_wf (fwrite os s i fs).
Proof. intros H j. unfold fwrite; simpl. rewrite lookup_alter_is_Some. apply H. Qed.

(** Writing into a file that is not one of those of [s]. *)
Lemma keeps_fwrite_new os t i s s' :
  keeps s s' → (next_inode s <= i)%nat → keeps s (fwrite os t i s').
Proof.
  intros [Hn Hd Hwf] Hi. split; [done| |].
  - intros j Hj. rewrite fwrite_other by lia. by apply Hd.
  - intros H. by apply fwrite_wf, Hwf.
Qed.

(** What [open_file] does. *)
Lemma open_file_spec fl os ts f g ok f' g' :
  fs_wf g.(fs) → f.(file_) = None → open_file fl os ts f g = Some (ok, f', g') →
  keeps g.(fs) g'.(fs) ∧ g'.(stop_writing) = g.(stop_writing) ∧
  f'.(rollover_attempt_) = f.(rollover_attempt_) ∧
  f'.(next_flush_time_) = f.(next_flush_time_) ∧
  if ok then
    ∃ i h, h = file_header os (hostname os g).1 ts ∧ f'.(file_) = Some i ∧
      (g.(fs).(next_inode) <= i)%nat ∧
      g'.(hostname_) = (hostname os g).1 ∧
      f'.(bytes_since_flush_) = u32 (f.(bytes_since_flush_) + Z.of_nat (String.length h)) ∧
      f'.(file_length_) = u32 (f.(file_length_) + Z.of_nat (String.length h)) ∧
      (disk_ok os → g'.(fs).(inodes) !! i = Some (mkInode h 0))
  else
    f'.(file_) = None ∧ f'.(bytes_since_flush_) = f.(bytes_since_flush_) ∧
    f'.(file_length_) = f.(file_length_) ∧ g'.(hostname_) = g.(hostname_).
Proof.
  intros Hwf Hnone H. unfold open_file in H.
  set (t := time_pid os _ ts) in H.
  destruct (if base_filename_selected_ f then _ else _) as [[[ok1 f1] g1]|] eqn:E;
    [|done]; simpl in H.
  assert (made f f1 g g1 ok1) as Hm.
  { destruct (base_filename_selected_ f).
    - destruct (CreateLogfile fl os t f g) as [[k f2] g2] eqn:Hc.
      apply CreateLogfile_made in Hc; [|done].
      destruct k; simplify_eq; [done|]. by destruct Hc; split.
    - destruct (GetLoggingDirectories fl os g) as [[l g2]|] eqn:Hg; [|done]. simpl in E.
      apply GetLoggingDirectories_fs in Hg as (Hfs & Hst & Hh).
      destruct (try_dirs _ _ _ _ _ _ _) as [[k f2] g3] eqn:Hc.
      apply try_dirs_made in Hc; [|by rewrite Hfs].
      destruct Hc as [Hk Hs Hho ? ? ? ? Hf]. rewrite Hfs in Hk, Hf. rewrite Hst in Hs. rewrite Hh in Hho.
      destruct k; simplify_eq; split; done. }
  destruct Hm as [Hk Hs Hho Hb Hl Ha Hfl Hf]. destruct ok1.
  - destruct Hf as (i & Hi & Hge & Hin). rewrite Hi in H.
    destruct (hostname os g1) as [host g2] eqn:Hh. simplify_eq/=.
    assert (hostname os g = (host, set_hostname host g)) as Hhg.
    { revert Hh. unfold hostname. rewrite Hho. destruct (hostname_ g) eqn:E2; intros; simplify_eq; [done|].
      f_equal. rewrite <-E2. by destruct g. }
    pose proof (hostname_fs _ _ _ _ Hh) as [Hf2 Hs2]. rewrite Hf2, Hs2.
    split_and!; [by apply keeps_fwrite_new|congruence|congruence|congruence|].
    exists i, (file_header os host ts). rewrite Hhg; simpl.
    split_and!; [done..| | | |].
    + clear -Hh. revert Hh. unfold hostname. destruct (hostname_ g1) eqn:E2; intros; simplify_eq; done.
    + by rewrite Hb.
    + by rewrite Hl.
    + intros Hd. apply (fwrite_inode os _ i (fs g1) (mkInode "" 0) Hd Hin).
  - specialize (Hf Hnone). simplify_eq. by split_and!.
Qed.

(** The file made has a name: the base is not empty, since the name of a default
    file has a slash. *)
Lemma CreateLogfile_base fl os t f g ok f' g' :
  CreateLogfile fl os t f g = (ok, f', g') → f'.(base_filename_) = f.(base_filename_).
Proof. unfold CreateLogfile. intros H. by repeat case_match; simplify_eq. Qed.

Lemma try_dirs_base fl os st t dirs f g f' g' :
  try_dirs fl os st t dirs f g = (true, f', g') → f'.(base_filename_) ≠ "".
Proof.
  revert f g. induction dirs as [|d dirs IH]; intros f g H; simpl in H; [done|].
  destruct (CreateLogfile _ _ _ _ _) as [[ok f1] g1] eqn:Hc.
  destruct ok; [|by eapply IH]. simplify_eq.
  apply CreateLogfile_base in Hc. rewrite Hc. simpl. by destruct d.
Qed.

Lemma open_file_base fl os ts f g f' g' :
  open_file fl os ts f g = Some (true, f', g') →
  (f.(base_filename_selected_) = true → f.(base_filename_) ≠ "") →
  f'.(base_filename_) ≠ "".
Proof.
  intros H Hsel. unfold open_file in H.
  set (t := time_pid os _ ts) in H.
  destruct (if base_filename_selected_ f then _ else _) as [[[ok1 f1] g1]|] eqn:E;
    [|done]; simpl in H.
  assert (ok1 = true → f1.(base_filename_) ≠ "") as Hb.
  { intros ->. destruct (base_filename_selected_ f).
    - destruct (CreateLogfile fl os t f g) as [[k f2] g2] eqn:Hc.
      apply CreateLogfile_base in Hc. destruct k; simplify_eq. rewrite Hc. auto.
    - destruct (GetLoggingDirectories fl os g) as [[l g2]|]; [|done]. simpl in E.
      destruct (try_dirs _ _ _ _ _ _ _) as [[k f2] g3] eqn:Hc.
      destruct k; simplify_eq. by apply try_dirs_base in Hc. }
  destruct ok1; [|done]. destruct (file_ f1); [|done].
  destruct (hostname os g1). simplify_eq. by apply Hb.
Qed.

(** * Writing into an open file *)

#[local] Arguments u32 : simpl never.
#[local] Arguments Z.of_nat : simpl never.
#[local] Arguments Z.mul : simpl never.

Lemma slength_app s t : String.length (s +:+ t) = (String.length s + String.length t)%nat.
Proof. induction s as [|c s IH]; [done|]. rewrite string_app_cons. cbn. by rewrite IH. Qed.

(** The file [i] has taken [m], and nothing else has changed. *)
Record took (i : nat) (m : string) (s s' : FileSystem) (n n' : Inode) : Prop := {
  took_before : s.(inodes) !! i = Some n;
  took_after : s'.(inodes) !! i = Some n';
  took_data : data n' = data n +:+ m;
  took_others j : j ≠ i → s'.(inodes) !! j = s.(inodes) !! j;
  took_next : s'.(next_inode) = s.(next_inode)
}.

Lemma took_fwrite os i m s n :
  disk_ok os → inodes s !! i = Some n →
  took i m s (fwrite os m i s) n (mkInode (data n +:+ m) (flushed n)).
Proof.
  intros. split; [done|by apply fwrite_inode|done| |done].
  intros j ?. by apply fwrite_other.
Qed.

Lemma took_fflush i m s s' n n' :
  took i m s s' n n' →
  took i m s (fflush i s') n (mkInode (data n') (String.length (data n'))).
Proof.
  intros []. split; simpl; [done| |done| |done].
  - by rewrite lookup_alter_eq, took_after0.
  - intros j ?. rewrite lookup_alter_ne by done. auto.
Qed.

(** The effect of [write_message] when the disk takes what is written: the counters,
    and a flush when it is forced or due. *)
Lemma write_message_spec fl os force m i f g n f' g' :
  disk_ok os → g.(stop_writing) = false → g.(fs).(inodes) !! i = Some n →
  write_message fl os force m i f g = (f', g') →
  ∃ n', took i m g.(fs) g'.(fs) n n' ∧
    f'.(file_) = Some i ∧ f'.(base_filename_) = f.(base_filename_) ∧
    g'.(stop_writing) = false ∧ g'.(hostname_) = g.(hostname_) ∧
    f'.(file_length_) = u32 (f.(file_length_) + Z.of_nat (String.length m)) ∧
    ((flushed n' = String.length (data n') ∧ f'.(bytes_since_flush_) = 0) ∨
     (flushed n' = flushed n ∧ force = false ∧ gettimeofday os < f.(next_flush_time_) ∧
      f'.(bytes_since_flush_) = u32 (f.(bytes_since_flush_) + Z.of_nat (String.length m)) ∧
      f'.(bytes_since_flush_) < 1000000)).
Proof.
  intros Hd Hs Hi H. unfold write_message in H. rewrite Hs in H. simpl negb in H. cbn iota in H.
  rewrite (Hd m) in H. simpl snd in H. rewrite andb_false_r in H. simpl in H.
  pose proof (took_fwrite os i m _ n Hd Hi) as Ht.
  destruct (force || _ || _) eqn:E.
  - unfold FlushUnlocked in H. simpl in H. simplify_eq. simpl.
    eexists. split; [by apply took_fflush|]. split_and!; [done..|]. by left.
  - simplify_eq. simpl. apply orb_false_iff in E as [[-> E2]%orb_false_iff E3].
    eexists. split; [done|]. split_and!; [done..|]. right. unfold CycleClock_Now in E3. simpl in *.
    split_and!; [done|done|lia|done|lia].
Qed.

(** * One write *)

Definition MAX_LENGTH (fl : Flags) : Z := MaxLogSize fl * 1048576.

(** The counters of the object are those of the file it has open. *)
Definition tracks (f : LogFileObject) (g : Shared) : Prop :=
  match f.(file_) with
  | Some i => ∃ n, g.(fs).(inodes) !! i = Some n ∧
      Z.of_nat (String.length (data n)) = f.(file_length_) ∧
      Z.of_nat (String.length (data n)) - Z.of_nat (flushed n) <= f.(bytes_since_flush_) ∧
      0 <= f.(bytes_since_flush_) < 1000000
  | None => f.(file_length_) = 0 ∧ f.(bytes_since_flush_) = 0
  end.

(** The message [m] went behind [old] in the file [i] that is open now: behind what
    the file had, if it was open before and not too long, or else behind the header
    of a new file. *)
Inductive landed (fl : Flags) (os : Os) (ts : Z) (m : string) (i : nat)
    (f : LogFileObject) (g : Shared) (s' : FileSystem) : Prop :=
  | landed_same n n' :
      f.(file_) = Some i → took i m g.(fs) s' n n' →
      Z.of_nat (String.length (data n)) < MAX_LENGTH fl → landed fl os ts m i f g s'
  | landed_new n' :
      (g.(fs).(next_inode) <= i)%nat → (i < s'.(next_inode))%nat →
      s'.(inodes) !! i = Some n' →
      data n' = file_header os (hostname os g).1 ts +:+ m →
      (∀ j, (j < g.(fs).(next_inode))%nat →
         data <$> s'.(inodes) !! j = data <$> g.(fs).(inodes) !! j) →
      landed fl os ts m i f g s'.

Lemma u32_small z : 0 <= z < 4294967296 → u32 z = z.
Proof. intros. unfold u32, U32. apply Z.mod_small. lia. Qed.

Lemma shiftr_20 n z : z <= Z.shiftr n 20 ↔ z * 1048576 <= n.
Proof.
  rewrite Z.shiftr_div_pow2 by lia. change (2 ^ 20) with 1048576.
  pose proof (Z.div_mod n 1048576 ltac:(lia)). pose proof (Z.mod_pos_bound n 1048576 ltac:(lia)).
  nia.
Qed.

Lemma MaxLogSize_pos fl : 0 < MaxLogSize fl.
Proof. unfold MaxLogSize. case_match; lia. Qed.

Lemma tracks_inode f g i : tracks f g → f.(file_) = Some i → is_Some (inodes (fs g) !! i).
Proof. unfold tracks. intros H E. rewrite E in H. destruct H as (n & -> & _). by eexists. Qed.

Lemma needs_rollover_spec fl os f g b g1 :
  needs_rollover fl os f g = (b, g1) →
  fs g1 = fs g ∧ stop_writing g1 = stop_writing g ∧ hostname_ g1 = hostname_ g ∧
  (b = false → f.(file_length_) < MAX_LENGTH fl).
Proof.
  unfold needs_rollover, PidHasChanged, MAX_LENGTH. intros H.
  destruct (MaxLogSize fl <=? _) eqn:E; [by simplify_eq|].
  apply Z.leb_gt in E. assert (¬ MaxLogSize fl * 1048576 <= file_length_ f).
  { rewrite <-shiftr_20. lia. }
  destruct (_ =? _) in H; simplify_eq; split_and!; try done; lia.
Qed.

(** ** The header is short *)

Lemma decimal_length fuel n : (String.length (decimal fuel n "") <= fuel)%nat.
Proof.
  revert n. induction fuel as [|k IH]; intros n; [done|].
  cbn [decimal]. case_match; [cbn; lia|].
  rewrite decimal_app, slength_app. specialize (IH (n / 10)). cbn [String.length]. lia.
Qed.

Lemma to_string_length n : (String.length (to_string n) <= 11)%nat.
Proof.
  unfold to_string. case_match; cbn [String.length];
    [pose proof (decimal_length 10 (- n))|pose proof (decimal_length 10 n)]; lia.
Qed.

Lemma setw_length c w s :
  String.length (setw c w s) = Nat.max w (String.length s).
Proof.
  unfold setw. rewrite slength_app.
  assert (∀ l, String.length (String.string_of_list_ascii l) = length l) as ->.
  { induction l as [|x l IH]; [done|]. cbn. by rewrite IH. }
  rewrite length_replicate. lia.
Qed.

Lemma two_length n : (String.length (two n) <= 11)%nat.
Proof. unfold two. rewrite setw_length. pose proof (to_string_length n). lia. Qed.

Lemma file_header_length os host ts :
  (String.length (file_header os host ts) <= String.length host + 211)%nat.
Proof.
  unfold file_header. cbv zeta. rewrite !slength_app.
  pose proof (to_string_length (1900 + tm_year (localtime os ts))).
  pose proof (two_length (1 + tm_mon (localtime os ts))).
  pose proof (two_length (tm_mday (localtime os ts))).
  pose proof (two_length (tm_hour (localtime os ts))).
  pose proof (two_length (tm_min (localtime os ts))).
  pose proof (two_length (tm_sec (localtime os ts))).
  cbn [String.length newline]. unfold newline. cbn [String.length]. lia.
Qed.

(** * A write in calm conditions

    The disk takes what is written; names of hosts and messages are not absurdly
    long; and the maximum size of a file fits the 32 bits of its length. *)
Record calm (fl : Flags) (os : Os) (m : string) : Prop := {
  calm_disk : disk_ok os;
  calm_host : (String.length os.(nodename) <= 255)%nat;
  calm_message : Z.of_nat (String.length m) <= 1000000;
  calm_max : MaxLogSize fl <= 4094
}.

(** What holds of the object and the shared state between writes. *)
Record ready (f : LogFileObject) (g : Shared) : Prop := {
  ready_wf : fs_wf g.(fs);
  ready_stop : g.(stop_writing) = false;
  ready_host : (String.length g.(hostname_) <= 255)%nat;
  ready_name : f.(file_) ≠ None → f.(base_filename_) ≠ "";
  ready_tracks : tracks f g
}.

Lemma hostname_length os g :
  (String.length g.(hostname_) <= 255)%nat → (String.length os.(nodename) <= 255)%nat →
  (String.length (hostname os g).1 <= 255)%nat.
Proof.
  intros H1 H2. unfold hostname. destruct (hostname_ g) eqn:E; [|done].
  destruct (nodename os) eqn:E2; [|done]. cbn. lia.
Qed.

(** The message goes into the open file: what [write_message] does keeps the object
    ready. *)
Lemma write_message_ready fl os force m i f g n f' g' :
  calm fl os m → fs_wf g.(fs) → g.(stop_writing) = false →
  (String.length g.(hostname_) <= 255)%nat →
  g.(fs).(inodes) !! i = Some n →
  Z.of_nat (String.length (data n)) = f.(file_length_) →
  f.(file_length_) <= 4094 * 1048576 →
  Z.of_nat (String.length (data n)) - Z.of_nat (flushed n) <= f.(bytes_since_flush_) →
  0 <= f.(bytes_since_flush_) < 1000000 →
  f.(base_filename_) ≠ "" →
  write_message fl os force m i f g = (f', g') →
  ready f' g' ∧ f'.(file_) = Some i ∧ ∃ n', took i m g.(fs) g'.(fs) n n' ∧
    ((flushed n' = String.length (data n') ∧ f'.(bytes_since_flush_) = 0) ∨
     force = false ∧ gettimeofday os < f.(next_flush_time_)).
Proof.
  intros [Hd Hh Hm Hmax] Hwf Hs Hho Hi Hl Hle Hfl Hb Hne H.
  destruct (write_message_spec _ _ _ _ _ _ _ _ _ _ Hd Hs Hi H)
    as (n' & Ht & Hf' & Hb' & Hs' & Hho' & Hl' & Hcase).
  split_and!; [|done|].
  - destruct Ht. split; [|done|congruence|congruence|].
    + intros j. rewrite took_next0. destruct (decide (j = i)) as [->|Hji].
      * intros _. apply Hwf. by eexists.
      * rewrite took_others0 by done. apply Hwf.
    + unfold tracks. rewrite Hf'. exists n'. split; [done|].
      rewrite Hl', took_data0, slength_app, u32_small by lia.
      split; [lia|]. rewrite took_data0, slength_app in Hcase.
      destruct Hcase as [[-> ->]|(-> & _ & _ & Hby & Hlt)]; [lia|].
      rewrite u32_small in Hby by lia. lia.
  - exists n'. split; [done|]. destruct Hcase as [?|(_ & ? & ? & _)]; auto.
Qed.

(** Closing the file for a rollover. *)
Lemma rollover_spec f g f' g' :
  rollover f g = (f', g') →
  keeps g.(fs) g'.(fs) ∧ g'.(fs).(next_inode) = g.(fs).(next_inode) ∧
  g'.(stop_writing) = g.(stop_writing) ∧
  g'.(hostname_) = g.(hostname_) ∧ f' = set_file None 0 0 31 f.
Proof.
  unfold rollover, close_file. intros H. simplify_eq.
  split_and!; try by destruct (file_ f).
  destruct (file_ f); [apply keeps_fflush|reflexivity].
Qed.

Lemma hostname_ext os g g' : hostname_ g = hostname_ g' → (hostname os g).1 = (hostname os g').1.
Proof. unfold hostname. intros ->. by destruct (hostname_ g'). Qed.

(** The branch of [Write] that makes a file. *)
Definition write_new (fl : Flags) (os : Os) (force : bool) (ts : Z) (m : string)
    (f : LogFileObject) (g : Shared) : option (LogFileObject * Shared) :=
  '(ok, f, g) ← open_file fl os ts (set_file None f.(bytes_since_flush_) f.(file_length_) 0 f) g;
  match (ok : bool), f.(file_) with
  | true, Some i => Some (write_message fl os force m i f g)
  | _, _ => Some (f, g)
  end.

Lemma write_new_spec fl os force ts m f g f' g' i :
  calm fl os m → fs_wf g.(fs) → g.(stop_writing) = false →
  (String.length g.(hostname_) <= 255)%nat →
  (f.(base_filename_selected_) = true → f.(base_filename_) ≠ "") →
  f.(file_length_) = 0 → f.(bytes_since_flush_) = 0 →
  write_new fl os force ts m f g = Some (f', g') → f'.(file_) = Some i →
  ready f' g' ∧ ∃ n', (g.(fs).(next_inode) <= i)%nat ∧ (i < g'.(fs).(next_inode))%nat ∧
      g'.(fs).(inodes) !! i = Some n' ∧
      data n' = file_header os (hostname os g).1 ts +:+ m ∧
      (∀ j, (j < g.(fs).(next_inode))%nat →
         data <$> g'.(fs).(inodes) !! j = data <$> g.(fs).(inodes) !! j) ∧
      (force = true ∨ f.(next_flush_time_) <= gettimeofday os →
       flushed n' = String.length (data n')).
Proof.
  intros Hc Hwf Hs Hho Hsel Hl0 Hb0 HW Hi'. pose proof Hc as [Hd Hh Hm Hmax].
  unfold write_new in HW.
  destruct (open_file _ _ _ _ _) as [[[ok f1] g1]|] eqn:Ho; [|done]. simpl in HW.
  pose proof (λ H : ok = true, open_file_base _ _ _ _ _ _ _ (eq_trans Ho (f_equal (λ b, Some (b, f1, g1)) H)) Hsel) as Hne.
  apply open_file_spec in Ho as (Hk & Hs1 & _ & Hnf & Hok); [|done|done]. simpl in *.
  destruct ok; [|destruct Hok as (E & _); simplify_eq; congruence].
  destruct Hok as (k & h & -> & Hfk & Hge & Hho1 & Hby & Hln & Hdat). rewrite Hfk in HW.
  specialize (Hdat Hd). rewrite Hl0 in Hln. rewrite Hb0 in Hby.
  pose proof (hostname_length os g Hho Hh) as Hhl.
  pose proof (file_header_length os (hostname os g).1 ts) as Hhd.
  set (h := file_header os (hostname os g).1 ts) in *.
  rewrite u32_small in Hln, Hby by lia.
  specialize (Hne eq_refl).
  injection HW as HW.
  pose proof (keeps_wf _ _ Hk Hwf) as Hwf1.
  destruct (write_message_ready fl os force m k f1 g1 (mkInode h 0) f' g' Hc Hwf1 ltac:(congruence)
    ltac:(rewrite Hho1; done) Hdat ltac:(cbn [data]; lia) ltac:(lia)
    ltac:(cbn [data flushed]; lia) ltac:(lia) Hne HW) as (Hr & Hfi & n' & Ht & Hcase).
  assert (k = i) as -> by congruence. destruct Ht. split; [done|]. exists n'.
  split_and!; [done| |done|done| |].
  - rewrite took_next0. apply Hwf1. by eexists.
  - intros j Hj. rewrite took_others0 by lia. by apply (keeps_data _ _ Hk).
  - rewrite Hnf in Hcase. intros Hor. destruct Hcase as [[? _]|[-> ?]]; [done|].
    destruct Hor; [done|lia].
Qed.

(** A write that ends with an open file has put its message there. *)
Lemma Write_step fl os force ts m f g f' g' i :
  calm fl os m → ready f g → Write fl os force ts m f g = Some (f', g') →
  f'.(file_) = Some i →
  ready f' g' ∧ landed fl os ts m i f g g'.(fs) ∧
  (force = true ∨ f.(next_flush_time_) <= gettimeofday os →
   ∃ n, g'.(fs).(inodes) !! i = Some n ∧ flushed n = String.length (data n)).
Proof.
  intros Hc [Hwf Hs Hho Hname Ht] HW Hi'. pose proof Hc as [Hd Hh Hm Hmax].
  unfold Write in HW. destruct (_ && _) eqn:Esel.
  { simplify_eq. apply andb_true_iff in Esel as [_ Hb]. apply bool_decide_eq_true in Hb.
    exfalso. apply Hname; [|done]. by rewrite Hi'. }
  assert (f.(base_filename_selected_) = true → f.(base_filename_) ≠ "") as Hsel.
  { intros E. rewrite E in Esel. by apply bool_decide_eq_false in Esel. }
  destruct (needs_rollover fl os f g) as [roll g1] eqn:Hr.
  apply needs_rollover_spec in Hr as (Hfs1 & Hs1 & Hho1 & Hlt).
  assert (roll = false ∧ f.(file_) ≠ None ∨ 
     ∃ f2 g2, write_new fl os force ts m f2 g2 = Some (f', g') ∧
       keeps g.(fs) g2.(fs) ∧ next_inode (fs g2) = next_inode (fs g) ∧
       stop_writing g2 = false ∧ hostname_ g2 = hostname_ g ∧
       file_length_ f2 = 0 ∧ bytes_since_flush_ f2 = 0 ∧
       base_filename_ f2 = base_filename_ f ∧
       base_filename_selected_ f2 = base_filename_selected_ f ∧
       next_flush_time_ f2 = next_flush_time_ f) as [[-> Hsome]|H].
  { destruct roll.
    - unfold rollover in HW. simpl in HW. change (u32 (31 + 1) =? 32) with true in HW.
      right. eexists _, (close_file f g1). split; [exact HW|].
      pose proof (rollover_spec f g1 _ _ eq_refl) as (Hk & Hn & Hs2 & Hh2 & _).
      rewrite Hfs1 in Hk, Hn. split_and!; try done; congruence.
    - destruct (file_ f) as [k|] eqn:Hfi; [by left|]. right.
      unfold tracks in Ht. rewrite Hfi in Ht. destruct Ht as [Hl0 Hb0].
      destruct (u32 (rollover_attempt_ f + 1) =? _); simpl in HW; [|by simplify_eq].
      eexists _, g1. split; [exact HW|]. rewrite Hfs1. simpl.
      split_and!; try done; congruence. }
  - destruct (file_ f) as [k|] eqn:Hfi; [|done]. injection HW as HW.
    unfold tracks in Ht. rewrite Hfi in Ht. destruct Ht as (n & Hn & Hlen & Hfl & Hby).
    specialize (Hlt eq_refl). unfold MAX_LENGTH in Hlt.
    destruct (write_message_ready fl os force m k f g1 n f' g' Hc
      ltac:(by rewrite Hfs1) ltac:(congruence) ltac:(by rewrite Hho1)
      ltac:(by rewrite Hfs1) Hlen ltac:(lia) Hfl Hby ltac:(by apply Hname) HW)
      as (Hr & Hfi' & n' & Hto & Hcase).
    rewrite Hfs1 in Hto. assert (k = i) as -> by congruence. split; [done|]. split.
    + eapply landed_same; [done|done|]. unfold MAX_LENGTH. lia.
    + intros Hor. exists n'. split; [apply Hto|].
      destruct Hcase as [[? _]|[-> ?]]; [done|]. destruct Hor; [done|lia].
  - destruct H as (f2 & g2 & Hnew & Hk & Hn & H1 & H2 & H3 & H4 & H5 & H6 & H7).
    apply (write_new_spec _ _ _ _ _ _ _ _ _ i Hc) in Hnew;
      [|by apply (keeps_wf _ _ Hk)|done|by rewrite H2|by rewrite H5, H6|done..].
    destruct Hnew as (Hrdy & n' & Hge & Hlt' & Hin & Hdata & Hoth & Hfl). split; [done|].
    rewrite H7 in Hfl. split; [|intros Hor; exists n'; auto].
    eapply landed_new; [by rewrite <-Hn|done|done| |].
    + by rewrite Hdata, (hostname_ext os g2 g).
    + intros j Hj. rewrite Hoth by lia. by apply (keeps_data _ _ Hk).
Qed.

(** * Runs of writes *)

Record LogCall := mkCall {
  call_os : Os; call_force : bool; call_time : Z; call_message : string
}.

(** Writes one after the other, each of which ends with an open file; the journal
    says which file was open after each message. *)
Fixpoint write_all (fl : Flags) (calls : list LogCall) (f : LogFileObject) (g : Shared)
    : option (LogFileObject * Shared * list (nat * string)) :=
  match calls with
  | [] => Some (f, g, [])
  | c :: calls =>
      '(f, g) ← Write fl c.(call_os) c.(call_force) c.(call_time) c.(call_message) f g;
      i ← f.(file_);
      '(f, g, j) ← write_all fl calls f g;
      Some (f, g, (i, c.(call_message)) :: j)
  end.

Definition flat (l : list string) : string := foldr String.append "" l.

(** The messages the journal has for file [i]. *)
Definition messages (i : nat) (j : list (nat * string)) : list string :=
  (filter (λ x, x.1 = i) j).*2.

Definition is_header (calls : list LogCall) (h : string) : Prop :=
  ∃ c host, c ∈ calls ∧ h = file_header c.(call_os) host c.(call_time).

(** File [i] has, behind [base], its messages in order; and a message was only put
    behind others when the file was shorter than the maximum. *)
Record filled (fl : Flags) (fresh : bool) (base : string) (i : nat)
    (j : list (nat * string)) (n : Inode) : Prop := {
  filled_data : data n = base +:+ flat (messages i j);
  filled_size j1 m j2 : j = (j1 ++ (i, m) :: j2)%list →
    (fresh = true → messages i j1 ≠ []) →
    Z.of_nat (String.length (base +:+ flat (messages i j1))) < MAX_LENGTH fl
}.

Lemma messages_cons_eq i m j : messages i ((i, m) :: j) = m :: messages i j.
Proof. unfold messages. by rewrite filter_cons_True. Qed.
Lemma messages_cons_ne i k m j : k ≠ i → messages i ((k, m) :: j) = messages i j.
Proof. intros. unfold messages. by rewrite filter_cons_False. Qed.
Lemma messages_nil i j : i ∉ j.*1 → messages i j = [].
Proof.
  induction j as [|[k m] j IH]; [done|]. intros H. apply not_elem_of_cons in H as [H1 H2].
  rewrite messages_cons_ne by done. auto.
Qed.

(** One more message in front. *)
Lemma filled_cons fl fresh base i m j n :
  filled fl false (base +:+ m) i j n →
  (fresh = false → Z.of_nat (String.length base) < MAX_LENGTH fl) →
  filled fl fresh base i ((i, m) :: j) n.
Proof.
  intros [Hd Hs] Hlt. split.
  - by rewrite Hd, messages_cons_eq, string_app_assoc.
  - intros [|[k m1] j1] m2 j2 E Hne; simplify_eq/=.
    + rewrite string_app_nil_r. destruct fresh; [by destruct (Hne eq_refl)|auto].
    + specialize (Hs j1 m2 j2 eq_refl ltac:(done)).
      rewrite messages_cons_eq. simpl. by rewrite <-string_app_assoc.
Qed.

Lemma filled_skip fl fresh base i k m j n :
  k ≠ i → filled fl fresh base i j n → filled fl fresh base i ((k, m) :: j) n.
Proof.
  intros Hk [Hd Hs]. split; [by rewrite messages_cons_ne|].
  intros [|[k' m1] j1] m2 j2 E Hne; simplify_eq/=.
  rewrite messages_cons_ne in Hne |- * by done. eauto.
Qed.

Lemma filled_nil fl base i j n fresh :
  i ∉ j.*1 → data n = base → filled fl fresh base i j n.
Proof.
  intros Hi <-. split; [by rewrite messages_nil, string_app_nil_r|].
  intros j1 m j2 -> _. destruct Hi. rewrite fmap_app. set_solver.
Qed.

(** What a run has done when it ends. *)
Record run_result (fl : Flags) (calls : list LogCall) (f : LogFileObject) (g : Shared)
    (f' : LogFileObject) (g' : Shared) (j : list (nat * string)) : Prop := {
  run_ready : ready f' g';
  run_messages : j.*2 = call_message <$> calls;
  run_next : (next_inode (fs g) <= next_inode (fs g'))%nat;
  run_sorted : StronglySorted le j.*1;
  run_where i : i ∈ j.*1 → f.(file_) = Some i ∨ (next_inode (fs g) <= i)%nat;
  run_others i : (i < next_inode (fs g))%nat → f.(file_) ≠ Some i →
    data <$> g'.(fs).(inodes) !! i = data <$> g.(fs).(inodes) !! i;
  run_open i n : f.(file_) = Some i → g.(fs).(inodes) !! i = Some n →
    ∃ n', g'.(fs).(inodes) !! i = Some n' ∧ filled fl false (data n) i j n';
  run_new i : i ∈ j.*1 → f.(file_) ≠ Some i →
    ∃ n' h, g'.(fs).(inodes) !! i = Some n' ∧ is_header calls h ∧ filled fl true h i j n'
}.

Lemma is_header_cons c calls h : is_header calls h → is_header (c :: calls) h.
Proof. intros (d & host & ? & ?). exists d, host. set_solver. Qed.

Lemma run_cons_same fl c calls f g f1 g1 f' g' i j n n' :
  f.(file_) = Some i → f1.(file_) = Some i →
  took i c.(call_message) g.(fs) g1.(fs) n n' →
  Z.of_nat (String.length (data n)) < MAX_LENGTH fl →
  (i < next_inode (fs g))%nat →
  run_result fl calls f1 g1 f' g' j →
  run_result fl (c :: calls) f g f' g' ((i, c.(call_message)) :: j).
Proof.
  intros Hf Hf1 [Hn Hn' Hdat Hoth Hnx] Hlt Hi [Hr Hm Hne Hso Hw Ho Hop Hnew].
  rewrite Hnx in *. split; simpl; [done|by f_equal|done| | | | |].
  - constructor; [done|]. apply Forall_forall. intros k Hk.
    destruct (Hw k Hk) as [E|?]; [rewrite Hf1 in E; simplify_eq; lia|lia].
  - intros k [->|Hk]%elem_of_cons; [by left|]. rewrite Hf. rewrite Hf1 in Hw. auto.
  - intros k Hk Hfk. rewrite Hf in Hfk. rewrite Ho by congruence.
    rewrite Hoth by congruence. done.
  - intros k n0 E1 E2. rewrite Hf in E1. simplify_eq.
    destruct (Hop k n' Hf1 Hn') as (n1 & ? & Hfi). exists n1. split; [done|].
    rewrite Hdat in Hfi. by apply filled_cons.
  - intros k Hk Hfk. rewrite Hf in Hfk.
    apply elem_of_cons in Hk as [->|Hk]; [done|].
    destruct (Hnew k Hk ltac:(congruence)) as (n1 & h & ? & ? & ?).
    exists n1, h. split_and!; [done|by apply is_header_cons|]. apply filled_skip; congruence.
Qed.

Lemma run_cons_new fl c calls f g f1 g1 f' g' i j n' host :
  (∀ k, f.(file_) = Some k → (k < next_inode (fs g))%nat) →
  f1.(file_) = Some i → (next_inode (fs g) <= i < next_inode (fs g1))%nat →
  g1.(fs).(inodes) !! i = Some n' →
  data n' = file_header c.(call_os) host c.(call_time) +:+ c.(call_message) →
  (∀ k, (k < next_inode (fs g))%nat →
     data <$> g1.(fs).(inodes) !! k = data <$> g.(fs).(inodes) !! k) →
  run_result fl calls f1 g1 f' g' j →
  run_result fl (c :: calls) f g f' g' ((i, c.(call_message)) :: j).
Proof.
  intros Hlt Hf1 [Hge Hlt'] Hn' Hdat Hoth [Hr Hm Hne Hso Hw Ho Hop Hnew].
  assert (∀ k, k ∈ j.*1 → k = i ∨ (next_inode (fs g1) <= k)%nat) as Hwhere.
  { intros k Hk. destruct (Hw k Hk); [left; congruence|by right]. }
  assert (∀ k, (k < next_inode (fs g))%nat → f1.(file_) ≠ Some k) as Hne1.
  { intros k Hk. rewrite Hf1. intros [= ->]. lia. }
  split; simpl; [done|by f_equal|lia| | | | |].
  - constructor; [done|]. apply Forall_forall. intros k Hk. destruct (Hwhere k Hk); lia.
  - intros k [->|Hk]%elem_of_cons; right; [done|]. destruct (Hwhere k Hk); lia.
  - intros k Hk _. rewrite Ho by (auto; lia). auto.
  - intros k n Ek En. pose proof (Hlt k Ek) as Hk.
    pose proof (Ho k ltac:(lia) (Hne1 k Hk)) as E. rewrite Hoth, En in E by done. simpl in E.
    destruct (inodes (fs g') !! k) as [n0|]; simplify_eq/=. exists n0. split; [done|].
    apply filled_nil; [|done]. simpl. apply not_elem_of_cons. split; [lia|].
    intros Hin. destruct (Hwhere k Hin); lia.
  - intros k Hk Hfk. apply elem_of_cons in Hk.
    destruct (decide (k = i)) as [->|Hki].
    + destruct (Hop i n' Hf1 Hn') as (n0 & ? & Hfi). rewrite Hdat in Hfi.
      exists n0, (file_header c.(call_os) host c.(call_time)).
      split_and!; [done| |by apply filled_cons]. exists c, host. set_solver.
    + destruct Hk as [?|Hk]; [done|].
      destruct (Hnew k Hk ltac:(congruence)) as (n1 & h & ? & ? & ?).
      exists n1, h. split_and!; [done|by apply is_header_cons|by apply filled_skip].
Qed.

Lemma write_all_result fl calls f g f' g' j :
  Forall (λ c, calm fl c.(call_os) c.(call_message)) calls → ready f g →
  write_all fl calls f g = Some (f', g', j) → run_result fl calls f g f' g' j.
Proof.
  revert f g j. induction calls as [|c calls IH]; intros f g j Hc Hr H; simpl in H.
  { simplify_eq. split; try done; [constructor|set_solver| |set_solver].
    intros i n _ Hn. exists n. split; [done|]. apply filled_nil; [set_solver|done]. }
  apply Forall_cons in Hc as [Hc Hcs].
  destruct (Write _ _ _ _ _ _ _) as [[f1 g1]|] eqn:HW; [|done]. simpl in H.
  destruct (file_ f1) as [i|] eqn:Hi; [|done]. simpl in H.
  destruct (write_all _ _ _ _) as [[[f2 g2] j2]|] eqn:Hrest; [|done]. simplify_eq/=.
  destruct (Write_step _ _ _ _ _ _ _ _ _ _ Hc Hr HW Hi) as (Hr1 & Hl & _).
  specialize (IH _ _ _ Hcs Hr1 Hrest).
  assert (∀ k, f.(file_) = Some k → (k < next_inode (fs g))%nat) as Hlt.
  { intros k Hk. apply (ready_wf _ _ Hr). destruct (tracks_inode f g k); [apply Hr|done|].
    by eexists. }
  destruct Hl as [n n' Hf Ht Hlen|n' Hge Hlt' Hin Hdat Hoth].
  - exact (run_cons_same _ _ _ _ _ _ _ _ _ _ _ _ _ Hf Hi Ht Hlen (Hlt i Hf) IH).
  - exact (run_cons_new _ _ _ _ _ _ _ _ _ _ _ _ _ Hlt Hi (conj Hge Hlt') Hin Hdat Hoth IH).
Qed.

(** ** The two theorems about runs *)

Section Runs.
Variables (fl : Flags) (calls : list LogCall) (g : Shared).
Variables (severity : LogSeverity) (base : option string).
Variables (f' : LogFileObject) (g' : Shared) (j : list (nat * string)).

Definition fresh_file : LogFileObject := new_LogFileObject g severity base.

Lemma fresh_ready :
  fs_wf g.(fs) → g.(stop_writing) = false → (String.length g.(hostname_) <= 255)%nat →
  ready fresh_file g.
Proof. intros. by split. Qed.

(** A maximum of 4096 megabytes or more is never reached: the length has 32 bits. *)
Lemma never_full fl0 os f0 g0 :
  4096 <= MaxLogSize fl0 → 0 <= f0.(file_length_) < U32 →
  needs_rollover fl0 os f0 g0 = PidHasChanged os g0.
Proof.
  intros Hm Hl. unfold needs_rollover.
  destruct (_ <=? Z.shiftr _ _) eqn:E; [|done].
  apply Z.leb_le, shiftr_20 in E. unfold U32 in Hl. lia.
Qed.

Lemma file_messages_app i j1 j2 : messages i (j1 ++ j2)%list = (messages i j1 ++ messages i j2)%list.
Proof. unfold messages. by rewrite filter_app, fmap_app. Qed.

Lemma flat_app l1 l2 : flat (l1 ++ l2)%list = flat l1 +:+ flat l2.
Proof. induction l1 as [|x l1 IH]; [done|]. simpl. rewrite IH. by rewrite string_app_assoc. Qed.

(** C26: Nothing is lost, duplicated or reordered: when a new object logs messages of
    at most a million bytes, with a maximum file size of at most 4094 megabytes and
    host names of at most 255 bytes, each write ends with an open file and the disk
    takes what is written, then the files it made, in the order they were made,
    hold behind their headers exactly the messages in their order; no file is
    returned to after another was made, and the files that were there before have
    what they had. *)
Theorem log_loses_nothing :
  Forall (λ c, calm fl c.(call_os) c.(call_message)) calls →
  fs_wf g.(fs) → g.(stop_writing) = false → (String.length g.(hostname_) <= 255)%nat →
  write_all fl calls fresh_file g = Some (f', g', j) →
  j.*2 = call_message <$> calls ∧ StronglySorted le j.*1 ∧
  (∀ i, i ∈ j.*1 → (next_inode (fs g) <= i)%nat ∧
     ∃ n h, g'.(fs).(inodes) !! i = Some n ∧ is_header calls h ∧
       data n = h +:+ flat (messages i j)) ∧
  (∀ i, (i < next_inode (fs g))%nat →
     data <$> g'.(fs).(inodes) !! i = data <$> g.(fs).(inodes) !! i).
Proof.
  intros Hc Hwf Hs Hh H.
  destruct (write_all_result _ _ _ _ _ _ _ Hc (fresh_ready Hwf Hs Hh) H)
    as [_ Hm _ Hso Hw Ho _ Hn].
  split_and!; [done|done| |].
  - intros i Hi. split; [by destruct (Hw i Hi)|].
    destruct (Hn i Hi) as (n & h & ? & ? & []); [done|]. by exists n, h.
  - intros i Hi. by apply Ho.
Qed.

(** C27: Files are rolled over by their size, as long as the maximum is at most 4094
    megabytes: when a new object logs messages of at most a million bytes, with
    host names of at most 255 bytes, each write ends with an open file and the disk
    takes what is written, then in every file that the run makes, what stands
    before a message is the header alone or shorter than the maximum; and less than
    a million bytes of the open file are not flushed.  A maximum of 4096 megabytes
    or more bounds nothing: the length is kept in 32 bits, so no length that the
    object can have leads to a rollover. *)
Theorem files_are_bounded :
  Forall (λ c, disk_ok c.(call_os) ∧ (String.length c.(call_os).(nodename) <= 255)%nat ∧
               Z.of_nat (String.length c.(call_message)) <= 1000000) calls →
  fs_wf g.(fs) → g.(stop_writing) = false → (String.length g.(hostname_) <= 255)%nat →
  write_all fl calls fresh_file g = Some (f', g', j) →
  (MaxLogSize fl <= 4094 →
   (∀ j1 i m j2, j = (j1 ++ (i, m) :: j2)%list → messages i j1 ≠ [] →
     ∃ n h rest, g'.(fs).(inodes) !! i = Some n ∧ is_header calls h ∧
       data n = h +:+ flat (messages i j1) +:+ rest ∧
       Z.of_nat (String.length (h +:+ flat (messages i j1))) < MaxLogSize fl * 1048576) ∧
   (∀ i n, f'.(file_) = Some i → g'.(fs).(inodes) !! i = Some n →
     Z.of_nat (String.length (data n)) - Z.of_nat (flushed n) < 1000000)) ∧
  (4096 <= MaxLogSize fl →
   ∀ os f0 g0, 0 <= f0.(file_length_) < U32 → needs_rollover fl os f0 g0 = PidHasChanged os g0).
Proof.
  intros Hq Hwf Hs Hh H. split; [|intros Hm os f0 g0; by apply never_full].
  intros Hmax.
  assert (Forall (λ c, calm fl c.(call_os) c.(call_message)) calls) as Hc
    by (eapply Forall_impl; [exact Hq|]; intros c (? & ? & ?); by split).
  destruct (write_all_result _ _ _ _ _ _ _ Hc (fresh_ready Hwf Hs Hh) H)
    as [Hr _ _ _ _ _ _ Hn].
  split.
  - intros j1 i m j2 -> Hne.
    destruct (Hn i) as (n & h & ? & ? & Hd & Hsz); [|done|].
    { rewrite fmap_app. set_solver. }
    exists n, h, (flat (messages i ((i, m) :: j2))). split_and!; [done|done| |].
    + rewrite Hd, file_messages_app. by rewrite flat_app.
    + eapply Hsz; [done|]. intros _. done.
  - intros i n Hi Hin. pose proof (ready_tracks _ _ Hr) as Ht. unfold tracks in Ht.
    rewrite Hi in Ht. destruct Ht as (n0 & ? & ? & ? & ?). simplify_eq. lia.
Qed.
End Runs.

(** * When a file cannot be made *)

(** Writes one after the other, whatever becomes of them. *)
Fixpoint writes (fl : Flags) (calls : list LogCall) (f : LogFileObject) (g : Shared)
    : option (LogFileObject * Shared) :=
  match calls with
  | [] => Some (f, g)
  | c :: calls =>
      '(f, g) ← Write fl c.(call_os) c.(call_force) c.(call_time) c.(call_message) f g;
      writes fl calls f g
  end.

Definition with_attempt (n : Z) (f : LogFileObject) : LogFileObject :=
  set_file None f.(bytes_since_flush_) f.(file_length_) n f.

(** No file open, the length below the maximum, the process the same. *)
Definition waiting (fl : Flags) (c : LogCall) (f : LogFileObject) (g : Shared) : Prop :=
  f.(file_) = None ∧ f.(file_length_) < MAX_LENGTH fl ∧
  (f.(base_filename_selected_) = true → f.(base_filename_) ≠ "") ∧
  g.(g_main_thread_pid) = c.(call_os).(getpid).

Lemma Write_waiting fl c f g :
  waiting fl c f g →
  Write fl c.(call_os) c.(call_force) c.(call_time) c.(call_message) f g =
  if u32 (f.(rollover_attempt_) + 1) =? kRolloverAttemptFrequency
  then write_new fl c.(call_os) c.(call_force) c.(call_time) c.(call_message)
         (with_attempt 32 f) g
  else Some (with_attempt (u32 (f.(rollover_attempt_) + 1)) f, g).
Proof.
  intros (Hf & Hl & Hb & Hp). unfold Write, with_attempt.
  assert ((base_filename_selected_ f && bool_decide (base_filename_ f = "")) = false) as ->.
  { destruct (base_filename_selected_ f); [|done]. simpl. apply bool_decide_eq_false. auto. }
  unfold needs_rollover, PidHasChanged, MAX_LENGTH in *.
  assert ((MaxLogSize fl <=? Z.shiftr (file_length_ f) 20) = false) as ->.
  { apply Z.leb_gt. apply Z.nle_gt. rewrite shiftr_20. lia. }
  rewrite Hp, Z.eqb_refl. cbv iota. rewrite Hf. by destruct (_ =? _).
Qed.

Lemma waiting_with_attempt fl c n f g :
  waiting fl c f g → waiting fl c (with_attempt n f) g.
Proof. intros (? & ? & ? & ?). by split_and!. Qed.

Lemma writes_waiting fl calls f g :
  Forall (λ c, waiting fl c f g) calls → f.(file_) = None →
  0 <= f.(rollover_attempt_) → f.(rollover_attempt_) + Z.of_nat (length calls) <= 31 →
  writes fl calls f g =
  Some (with_attempt (f.(rollover_attempt_) + Z.of_nat (length calls)) f, g).
Proof.
  revert f. induction calls as [|c calls IH]; intros f H Hf H0 Hlen; simpl.
  { unfold with_attempt, set_file. rewrite Z.add_0_r. destruct f; simpl in *. by subst. }
  apply Forall_cons in H as [Hc Hcs]. rewrite Write_waiting by done.
  simpl in Hlen. rewrite u32_small by lia.
  destruct (_ =? _) eqn:E; [apply Z.eqb_eq in E; unfold kRolloverAttemptFrequency in E; lia|].
  simpl. rewrite IH; simpl; [|by eapply Forall_impl; [done|]; intros; apply waiting_with_attempt|done|lia|lia].
  unfold with_attempt, set_file; simpl. by rewrite Nat2Z.inj_succ, <-Z.add_assoc, Z.add_1_l.
Qed.

(** A file that cannot be made costs 32 messages: the one that was to make it, and
    31 more for which nothing is tried, whatever they are, even when they force a
    flush; only the write after them tries again. *)
Theorem failure_discards_31 fl c calls c' f g f1 g1 :
  write_new fl c.(call_os) c.(call_force) c.(call_time) c.(call_message) f g
    = Some (f1, g1) →
  f1.(file_) = None → fs_wf g.(fs) →
  length calls = 31%nat → Forall (λ d, waiting fl d f1 g1) (calls ++ [c'])%list →
  writes fl calls f1 g1 = Some (with_attempt 31 f1, g1) ∧
  writes fl (calls ++ [c'])%list f1 g1 =
    write_new fl c'.(call_os) c'.(call_force) c'.(call_time) c'.(call_message)
      (with_attempt 32 f1) g1 ∧
  (∀ i, (i < next_inode (fs g))%nat →
     data <$> g1.(fs).(inodes) !! i = data <$> g.(fs).(inodes) !! i).
Proof.
  intros HW Hf Hwf Hlen Hall. apply Forall_app in Hall as [Hcs Hc'].
  assert (rollover_attempt_ f1 = 0 ∧ keeps g.(fs) g1.(fs)) as [Ha Hk].
  { unfold write_new in HW.
    destruct (open_file _ _ _ _ _) as [[[ok f2] g2]|] eqn:Ho; [|done]. simpl in HW.
    apply open_file_spec in Ho as (Hk & _ & Ha & _ & Hok); [|done|done].
    destruct ok; [|by simplify_eq]. destruct Hok as (i & h & _ & Hi & _).
    rewrite Hi in HW. unfold write_message, FlushUnlocked in HW. exfalso.
    repeat case_match; simplify_eq/=; congruence. }
  assert (writes fl calls f1 g1 = Some (with_attempt 31 f1, g1)) as Hw.
  { rewrite writes_waiting; [|done|done|lia|lia]. by rewrite Ha, Hlen. }
  split_and!; [done| |apply Hk].
  assert (∀ l l' f g, writes fl (l ++ l')%list f g =
    '(f, g) ← writes fl l f g; writes fl l' f g) as Happ.
  { induction l as [|d l IH]; intros l' f2 g2; simpl; [done|].
    destruct (Write _ _ _ _ _ _ _) as [[f3 g3]|]; simpl; [|done]. apply IH. }
  rewrite Happ, Hw. simpl. apply Forall_inv in Hc'.
  rewrite Write_waiting by (by apply waiting_with_attempt).
  change (u32 (rollover_attempt_ (with_attempt 31 f1) + 1) =? kRolloverAttemptFrequency)
    with true. cbv iota. change (with_attempt 32 (with_attempt 31 f1)) with (with_attempt 32 f1).
  clear HW. by destruct (write_new _ _ _ _ _ _ _) as [[]|].
Qed.

(** * Lengths that are not those of the file *)

(** A new name does not reset the length: the file made under it starts with the
    length the old file had, and is rolled over that much too early. *)
Theorem renamed_file_keeps_length fl os force ts m basename f g f1 g1 f' g' i k n :
  calm fl os m → fs_wf g.(fs) → g.(stop_writing) = false →
  f.(file_) = Some k → g.(fs).(inodes) !! k = Some n →
  f.(base_filename_) ≠ basename → basename ≠ "" →
  0 <= f.(file_length_) < MAX_LENGTH fl → 0 <= f.(bytes_since_flush_) < 1000000 →
  (String.length g.(hostname_) <= 255)%nat →
  g.(g_main_thread_pid) = os.(getpid) →
  SetBasename basename f g = (f1, g1) →
  Write fl os force ts m f1 g1 = Some (f', g') → f'.(file_) = Some i →
  ∃ n', g'.(fs).(inodes) !! i = Some n' ∧ i ≠ k ∧
    f'.(file_length_) = f.(file_length_) + Z.of_nat (String.length (data n')).
Proof.
  intros [Hd Hh Hm Hmax] Hwf Hs Hf Hk Hne Hne' Hl Hb Hho Hp HS HW Hi.
  unfold SetBasename in HS. simpl in HS. rewrite decide_True, Hf in HS by done. simplify_eq.
  change (close_file _ g) with (close_file f g) in HW.
  change (Write fl os force ts m ?a ?b = _) with
    (Write fl (call_os (mkCall os force ts m)) (call_force (mkCall os force ts m))
       (call_time (mkCall os force ts m)) (call_message (mkCall os force ts m)) a b
     = Some (f', g')) in HW.
  assert (keeps (fs g) (fs (close_file f g)) ∧ stop_writing (close_file f g) = false ∧
    hostname_ (close_file f g) = hostname_ g) as (Hkc & Hsc & Hhc).
  { unfold close_file. rewrite Hf. split_and!; [apply keeps_fflush|done..]. }
  pose proof (keeps_wf _ _ Hkc Hwf) as Hwfc.
  rewrite Write_waiting in HW.
  2:{ split_and!; simpl; [done|lia|done|]. unfold close_file. cbn. by rewrite Hf. }
  simpl in HW. change (u32 (31 + 1) =? kRolloverAttemptFrequency) with true in HW.
  cbv iota in HW. unfold write_new in HW. simpl in HW.
  destruct (open_file _ _ _ _ _) as [[[ok f2] g2]|] eqn:Ho; [|done]. simpl in HW.
  apply open_file_spec in Ho as (Hk2 & Hs2 & _ & _ & Hok); [|done|done]. simpl in Hok.
  destruct ok; [|destruct Hok as (E & _); simplify_eq; congruence].
  destruct Hok as (k2 & h & -> & Hfk & Hge & _ & _ & Hln & Hdat). rewrite Hfk in HW.
  injection HW as HW. specialize (Hdat Hd).
  destruct (write_message_spec _ _ _ _ _ _ _ _ _ _ Hd (eq_trans Hs2 Hsc) Hdat HW)
    as (n' & [] & Hf' & _ & _ & _ & Hl' & _).
  assert (k2 = i) as -> by congruence. exists n'. split_and!; [done| |].
  - assert (k < next_inode (fs g))%nat by (apply Hwf; by eexists).
    destruct Hkc. lia.
  - pose proof (file_header_length os (hostname os (close_file f g)).1 ts).
    pose proof (hostname_length os (close_file f g) ltac:(by rewrite Hhc) Hh).
    unfold MAX_LENGTH in *.
    rewrite took_data0, slength_app. cbn [data]. rewrite Hl', Hln, !u32_small; rewrite ?u32_small; lia.
Qed.

(** * Directories *)

Lemma last_char_app s c : last_char (s +:+ String c "") = Some c.
Proof.
  induction s as [|d s IH]; [done|]. rewrite string_app_cons. cbn [last_char]. rewrite IH.
  by destruct s.
Qed.

(** Directories for temporary files: the first that exist among the candidates set,
    each with one slash behind; a variable set to nothing in front of them is
    undefined behaviour: the character before its text is read. *)
Theorem temp_dirs_spec os candidates :
  match temp_dirs os candidates with
  | Some l => Forall (λ d, last_char d = Some "/"%char) l
  | None => ∃ l1 l2, candidates = (l1 ++ Some "" :: l2)%list ∧
              ∀ d, Some d ∈ l1 → os.(is_dir) d = false
  end.
Proof.
  induction candidates as [|[d|] l IH]; simpl; [by constructor| |].
  - destruct (last_char d) as [c|] eqn:Hc; simpl.
    + assert (last_char (if decide (c = "/"%char) then d else d +:+ "/") = Some "/"%char) as Hd.
      { destruct (decide _) as [->|_]; [done|]. apply last_char_app. }
      destruct (is_dir os d) eqn:Hdir; [by constructor|].
      destruct (temp_dirs os l) as [rest|]; simpl; [by constructor|].
      destruct IH as (l1 & l2 & -> & Hl1). exists (Some d :: l1), l2. split; [done|].
      intros x [[= ->]|?]%elem_of_cons; auto.
    + exists [], l. assert (d = "") as ->; [|split; [done|set_solver]].
      clear -Hc. induction d as [|c [|c' d] IH]; [done|done|]. by specialize (IH Hc).
  - destruct (temp_dirs os l); [done|].
    destruct IH as (l1 & l2 & -> & Hl1). exists (None :: l1), l2. split; [done|].
    intros x [?|?]%elem_of_cons; [done|auto].
Qed.

(** * Examples *)

Module Example_log.

Definition no_string (_ : string) : option string := None.
Definition disk (s : string) : nat * bool := (String.length s, false).

(** A system on which everything is allowed, at time [now] in process [pid]. *)
Definition os (now pid : Z) : Os :=
  mkOs now (λ t, mkTm 120 1 2 3 4 (t mod 60)) pid "host" no_string (λ _, true)
    (λ _, true) (λ _, true) (λ _, true) disk "error".

(** The same, but no file may be made. *)
Definition full_os (now pid : Z) : Os :=
  mkOs now (λ t, mkTm 120 1 2 3 4 (t mod 60)) pid "host" no_string (λ _, true)
    (λ _, false) (λ _, false) (λ _, false) disk "error".

Definition flags : Flags := mkFlags 1800 30 false "" "".
Definition shared : Shared :=
  mkShared (mkFs ∅ ∅ 0) false 7 "" None (Some "raft") "me" "".

Lemma disk_ok_os now pid : disk_ok (os now pid).
Proof. done. Qed.

Lemma calm_os now pid m :
  Z.of_nat (String.length m) <= 1000000 → calm flags (os now pid) m.
Proof. intros. split; [done|vm_compute; lia|done|vm_compute; discriminate]. Qed.

(** Two messages, a fork, and a third one, which goes to a new file. *)
Definition calls : list LogCall :=
  [mkCall (os 1 7) false 1 "one"; mkCall (os 2 7) true 2 "two"; mkCall (os 3 8) false 3 "three"].

Definition outcome : LogFileObject * Shared * list (nat * string) :=
  match write_all flags calls (fresh_file shared GLOG_INFO (Some "/tmp/raft.")) shared with
  | Some x => x
  | None => (fresh_file shared GLOG_INFO None, shared, [])
  end.

Lemma calls_calm : Forall (λ c, calm flags c.(call_os) c.(call_message)) calls.
Proof. repeat constructor; simpl; try done; vm_compute; lia. Qed.

Lemma outcome_eq :
  write_all flags calls (fresh_file shared GLOG_INFO (Some "/tmp/raft.")) shared
  = Some outcome.
Proof. vm_compute. reflexivity. Qed.

Lemma shared_wf : fs_wf (fs shared).
Proof. intros i [x H]. exfalso. exact (lookup_empty_Some (M := gmap nat) i x H). Qed.

Lemma log_loses_nothing_witness :
  outcome.2 = [(0%nat, "one"); (0%nat, "two"); (1%nat, "three")] ∧
  outcome.2.*2 = call_message <$> calls ∧ StronglySorted le outcome.2.*1.
Proof.
  split; [vm_compute; reflexivity|].
  destruct (log_loses_nothing flags calls shared GLOG_INFO (Some "/tmp/raft.")
    outcome.1.1 outcome.1.2 outcome.2 calls_calm shared_wf eq_refl ltac:(simpl; lia))
    as (H1 & H2 & _ & _); [vm_compute; reflexivity|]. exact (conj H1 H2).
Defined.

Lemma calls_small :
  Forall (λ c, disk_ok c.(call_os) ∧ (String.length c.(call_os).(nodename) <= 255)%nat ∧
               Z.of_nat (String.length c.(call_message)) <= 1000000) calls.
Proof. eapply Forall_impl; [exact calls_calm|]. by intros c []. Qed.

Lemma files_are_bounded_witness :
  ∃ n h rest, outcome.1.2.(fs).(inodes) !! 0%nat = Some n ∧
    data n = h +:+ "one" +:+ rest ∧
    Z.of_nat (String.length (h +:+ "one")) < MaxLogSize flags * 1048576.
Proof.
  destruct (files_are_bounded flags calls shared GLOG_INFO (Some "/tmp/raft.")
    outcome.1.1 outcome.1.2 outcome.2 calls_small shared_wf eq_refl ltac:(simpl; lia))
    as (H0 & _); [vm_compute; reflexivity|]. destruct (H0 ltac:(vm_compute; discriminate)) as [H _].
  destruct (H [(0%nat, "one")] 0%nat "two" [(1%nat, "three")]) as (n & h & rest & H1 & _ & H2 & H3);
    [vm_compute; reflexivity|vm_compute; discriminate|].
  exists n, h, rest. exact (conj H1 (conj H2 H3)).
Defined.

(** No file may be made: 32 messages are gone, and the 33rd is the next to try. *)
Definition full_call : LogCall := mkCall (full_os 1 7) true 1 "lost".
Definition failed : LogFileObject * Shared :=
  match write_new flags (full_os 1 7) true 1 "lost"
          (fresh_file shared GLOG_INFO (Some "/tmp/raft.")) shared with
  | Some x => x
  | None => (fresh_file shared GLOG_INFO None, shared)
  end.

Lemma failure_discards_31_witness :
  writes flags (replicate 31 full_call) failed.1 failed.2
    = Some (with_attempt 31 failed.1, failed.2).
Proof.
  refine (proj1 (failure_discards_31 flags full_call (replicate 31 full_call) full_call
    (fresh_file shared GLOG_INFO (Some "/tmp/raft.")) shared failed.1 failed.2 _ _ shared_wf _ _)).
  - vm_compute. reflexivity.
  - vm_compute. reflexivity.
  - reflexivity.
  - apply Forall_forall. intros x Hx.
    assert (x = full_call) as ->; [set_solver|].
    split_and!; [vm_compute; reflexivity|vm_compute; reflexivity| |vm_compute; reflexivity].
    intros _ H. apply (f_equal String.length) in H. vm_compute in H. discriminate.
Defined.
End Example_log.
