(* ===== verification/Logging.v ===== *)
(** Messages of glog and where they go: [LogDestination] and [LogMessage] of
    [src/lib/glog/src/logging.cc], over the log files of [LogFile].

    The state of the library is the record [Log].  What leaves it (sinks, user
    loggers, mail, the system log, the containers of [LOG_STRING] and
    [LOG_TO_STRING]) is a list of events.  A call returns, ends the process, blocks
    on [log_mutex], or is undefined. *)

From S2P Require Import Prelude Strings LogFile.
From stdpp Require Import base gmap list strings.
From Stdlib Require Import ZArith Lia Ascii.

Open Scope string_scope.
Open Scope Z_scope.

Definition severity_nat (s : LogSeverity) : nat := Z.to_nat (severity_int s).
Definition severities : list LogSeverity := [GLOG_INFO; GLOG_WARNING; GLOG_ERROR; GLOG_FATAL].

(** * State *)

(** The flags that are not about files. *)
Record LogFlags := mkLogFlags {
  file_flags : Flags;
  FLAGS_logtostderr : bool;
  FLAGS_alsologtostderr : bool;
  FLAGS_colorlogtostderr : bool;
  FLAGS_stderrthreshold : Z;
  FLAGS_alsologtoemail : string;
  FLAGS_log_prefix : bool;
  FLAGS_minloglevel : Z;
  FLAGS_logbuflevel : Z;
  FLAGS_logemaillevel : Z;
  FLAGS_logmailer : string;
  FLAGS_log_backtrace_at : string
}.

(** [logger_] is the file object ([None]) or an object of the user. *)
Record LogDestination := mkDestination { fileobject_ : LogFileObject; logger_ : option nat }.

Inductive Event :=
  | SinkSend (sink : nat) (severity : LogSeverity) (full_filename base_filename : string)
      (line : Z) (message : string)
  | SinkWait (sink : nat)
  | LoggerWrite (logger : nat) (force_flush : bool) (timestamp : Z) (message : string)
  | LoggerFlush (logger : nat)
  | Mail (command body : string)
  | PushBack (outvec : nat) (message : string)
  | Assign (string_ : nat) (message : string)
  | Syslog (level : Z) (message : string).

Record CrashReason := mkCrash { crash_filename : string; crash_line : Z; crash_message : string }.

(** [sinks_]: [NULL], a vector of sinks, or a pointer to a vector that was deleted. *)
Inductive SinkVector := NullSinks | Sinks (l : list nat) | DeletedSinks.

Record Log := mkLog {
  flags : LogFlags;
  shared : Shared;
  log_destinations_ : list (option LogDestination);
  sinks_ : SinkVector;
  email_logging_severity_ : Z;
  addresses_ : string;
  num_messages_ : list Z;
  log_mutex : bool;
  exit_on_dfatal : bool;
  already_warned_before_initgoogle : bool;
  fatal_msg_exclusive : bool;
  crash_reason : option CrashReason;
  fatal_message : string;
  fatal_time : Z;
  errno : Z;
  events : list Event
}.

Definition set_flags (x : LogFlags) (s : Log) : Log :=
  mkLog x s.(shared) s.(log_destinations_) s.(sinks_) s.(email_logging_severity_)
    s.(addresses_) s.(num_messages_) s.(log_mutex) s.(exit_on_dfatal)
    s.(already_warned_before_initgoogle) s.(fatal_msg_exclusive) s.(crash_reason)
    s.(fatal_message) s.(fatal_time) s.(errno) s.(events).
Definition set_files (x : Shared) (d : list (option LogDestination)) (s : Log) : Log :=
  mkLog s.(flags) x d s.(sinks_) s.(email_logging_severity_)
    s.(addresses_) s.(num_messages_) s.(log_mutex) s.(exit_on_dfatal)
    s.(already_warned_before_initgoogle) s.(fatal_msg_exclusive) s.(crash_reason)
    s.(fatal_message) s.(fatal_time) s.(errno) s.(events).
Definition set_shared (x : Shared) (s : Log) : Log := set_files x s.(log_destinations_) s.
Definition set_sinks (x : SinkVector) (s : Log) : Log :=
  mkLog s.(flags) s.(shared) s.(log_destinations_) x s.(email_logging_severity_)
    s.(addresses_) s.(num_messages_) s.(log_mutex) s.(exit_on_dfatal)
    s.(already_warned_before_initgoogle) s.(fatal_msg_exclusive) s.(crash_reason)
    s.(fatal_message) s.(fatal_time) s.(errno) s.(events).
Definition set_email (severity : Z) (addresses : string) (s : Log) : Log :=
  mkLog s.(flags) s.(shared) s.(log_destinations_) s.(sinks_) severity
    addresses s.(num_messages_) s.(log_mutex) s.(exit_on_dfatal)
    s.(already_warned_before_initgoogle) s.(fatal_msg_exclusive) s.(crash_reason)
    s.(fatal_message) s.(fatal_time) s.(errno) s.(events).
Definition set_num (x : list Z) (s : Log) : Log :=
  mkLog s.(flags) s.(shared) s.(log_destinations_) s.(sinks_) s.(email_logging_severity_)
    s.(addresses_) x s.(log_mutex) s.(exit_on_dfatal)
    s.(already_warned_before_initgoogle) s.(fatal_msg_exclusive) s.(crash_reason)
    s.(fatal_message) s.(fatal_time) s.(errno) s.(events).
Definition set_mutex (x : bool) (s : Log) : Log :=
  mkLog s.(flags) s.(shared) s.(log_destinations_) s.(sinks_) s.(email_logging_severity_)
    s.(addresses_) s.(num_messages_) x s.(exit_on_dfatal)
    s.(already_warned_before_initgoogle) s.(fatal_msg_exclusive) s.(crash_reason)
    s.(fatal_message) s.(fatal_time) s.(errno) s.(events).
Definition set_exit (x : bool) (s : Log) : Log :=
  mkLog s.(flags) s.(shared) s.(log_destinations_) s.(sinks_) s.(email_logging_severity_)
    s.(addresses_) s.(num_messages_) s.(log_mutex) x
    s.(already_warned_before_initgoogle) s.(fatal_msg_exclusive) s.(crash_reason)
    s.(fatal_message) s.(fatal_time) s.(errno) s.(events).
Definition set_warned (x : bool) (s : Log) : Log :=
  mkLog s.(flags) s.(shared) s.(log_destinations_) s.(sinks_) s.(email_logging_severity_)
    s.(addresses_) s.(num_messages_) s.(log_mutex) s.(exit_on_dfatal)
    x s.(fatal_msg_exclusive) s.(crash_reason)
    s.(fatal_message) s.(fatal_time) s.(errno) s.(events).
Definition set_exclusive (x : bool) (s : Log) : Log :=
  mkLog s.(flags) s.(shared) s.(log_destinations_) s.(sinks_) s.(email_logging_severity_)
    s.(addresses_) s.(num_messages_) s.(log_mutex) s.(exit_on_dfatal)
    s.(already_warned_before_initgoogle) x s.(crash_reason)
    s.(fatal_message) s.(fatal_time) s.(errno) s.(events).
Definition set_crash (reason : option CrashReason) (message : string) (time : Z) (s : Log)
    : Log :=
  mkLog s.(flags) s.(shared) s.(log_destinations_) s.(sinks_) s.(email_logging_severity_)
    s.(addresses_) s.(num_messages_) s.(log_mutex) s.(exit_on_dfatal)
    s.(already_warned_before_initgoogle) s.(fatal_msg_exclusive) reason
    message time s.(errno) s.(events).
Definition set_errno (x : Z) (s : Log) : Log :=
  mkLog s.(flags) s.(shared) s.(log_destinations_) s.(sinks_) s.(email_logging_severity_)
    s.(addresses_) s.(num_messages_) s.(log_mutex) s.(exit_on_dfatal)
    s.(already_warned_before_initgoogle) s.(fatal_msg_exclusive) s.(crash_reason)
    s.(fatal_message) s.(fatal_time) x s.(events).
Definition emit (e : Event) (s : Log) : Log :=
  mkLog s.(flags) s.(shared) s.(log_destinations_) s.(sinks_) s.(email_logging_severity_)
    s.(addresses_) s.(num_messages_) s.(log_mutex) s.(exit_on_dfatal)
    s.(already_warned_before_initgoogle) s.(fatal_msg_exclusive) s.(crash_reason)
    s.(fatal_message) s.(fatal_time) s.(errno) (s.(events) ++ [e])%list.

(** What [strerror_r] does: it sets [errno], it writes the text into the buffer, or it
    returns a text of its own. *)
Inductive StrErrorReply := Fails | InBuffer (s : string) | OwnText (s : string).

(** What the system answers, beyond [Os]: whether the mailer runs, the thread, the
    microseconds, the stack trace, the text of an error number, what the system
    leaves in [errno] when a message is sent. *)
Record Env := mkEnv {
  os : Os;
  popen : bool;
  pclose : bool;
  gettid : Z;
  usecs : Z;
  time : Z;
  stacktrace : string;
  strerror_r : Z → StrErrorReply;
  errno_after : Z
}.

(** [posix_strerror_r] on a buffer of [len] bytes: its text, [None] for [-1]. *)
Definition posix_strerror_r (e : Env) (err : Z) (len : nat) : option string :=
  match e.(strerror_r) err with
  | Fails => None
  | InBuffer s | OwnText s => Some (String.substring 0 (len - 1) s)
  end.

Definition StrError (e : Env) (err : Z) : string :=
  match posix_strerror_r e err 100 with
  | None | Some "" => String.substring 0 99 ("Error number " +:+ to_string err)
  | Some s => s
  end.

(** Outcomes. *)
Inductive Result (A : Type) := Returns (a : A) | Aborted (s : Log) | Blocked | Undefined.
Arguments Returns {A} _.
Arguments Aborted {A} _.
Arguments Blocked {A}.
Arguments Undefined {A}.

Definition bind_result {A B} (f : A → Result B) (r : Result A) : Result B :=
  match r with
  | Returns a => f a
  | Aborted s => Aborted s
  | Blocked => Blocked
  | Undefined => Undefined
  end.

#[export] Instance Result_bind : MBind Result := λ A B f r, bind_result f r.
#[export] Instance Result_ret : MRet Result := @Returns.

(** [MutexLock l(&log_mutex)]. *)
Definition lock (s : Log) : Result Log :=
  if s.(log_mutex) then Blocked else Returns (set_mutex true s).
Definition unlock (s : Log) : Log := set_mutex false s.

Definition err (x : string) (s : Log) : Log := set_shared (WriteToStderr x s.(shared)) s.

(** * Destinations *)

(** [log_destination(severity)]: made when first asked for. *)
Definition log_destination (severity : LogSeverity) (s : Log) : LogDestination * Log :=
  match s.(log_destinations_) !! severity_nat severity with
  | Some (Some d) => (d, s)
  | _ =>
      let d := mkDestination (new_LogFileObject s.(shared) severity None) None in
      (d, set_files s.(shared) (<[severity_nat severity := Some d]> s.(log_destinations_)) s)
  end.

(** Storing a destination that has changed. *)
Definition put (severity : LogSeverity) (d : LogDestination) (g : Shared) (s : Log) : Log :=
  set_files g (<[severity_nat severity := Some d]> s.(log_destinations_)) s.

Section Operations.
Variable e : Env.

(** [logger_->Write]. *)
Definition write_logger (severity : LogSeverity) (force_flush : bool) (timestamp : Z)
    (message : string) (d : LogDestination) (s : Log) : Result Log :=
  match d.(logger_) with
  | Some l => Returns (emit (LoggerWrite l force_flush timestamp message) s)
  | None =>
      match Write s.(flags).(file_flags) e.(os) force_flush timestamp message
              d.(fileobject_) s.(shared) with
      | Some (f, g) => Returns (put severity (mkDestination f None) g s)
      | None => Undefined
      end
  end.

(** [logger_->Flush] and [fileobject_.FlushUnlocked]. *)
Definition flush_file (severity : LogSeverity) (d : LogDestination) (s : Log) : Log :=
  let '(f, g) := FlushUnlocked s.(flags).(file_flags) e.(os) d.(fileobject_) s.(shared) in
  put severity (mkDestination f d.(logger_)) g s.

Definition flush_logger (severity : LogSeverity) (d : LogDestination) (s : Log) : Log :=
  match d.(logger_) with
  | Some l => emit (LoggerFlush l) s
  | None => flush_file severity d s
  end.

(** The severities from [min_severity] on. *)
Definition from_severity (min_severity : Z) : list LogSeverity :=
  filter (λ s, min_severity <= severity_int s) severities.

(** The loops start at [min_severity], which indexes the array: below 0 it is
    undefined. *)
Definition FlushLogFilesUnsafe (min_severity : Z) (s : Log) : Result Log :=
  if min_severity <? 0 then Undefined
  else
    Returns (foldl (λ s i,
      match s.(log_destinations_) !! severity_nat i with
      | Some (Some d) => flush_file i d s
      | _ => s
      end) s (from_severity min_severity)).

Definition FlushLogFiles (min_severity : Z) (s : Log) : Result Log :=
  s ← lock s;
  if min_severity <? 0 then Undefined
  else
    Returns (unlock (foldl (λ s i,
      let '(d, s) := log_destination i s in flush_logger i d s)
      s (from_severity min_severity))).

Definition SetLogDestination (severity : LogSeverity) (base_filename : string) (s : Log)
    : Result Log :=
  s ← lock s;
  let '(d, s) := log_destination severity s in
  let '(f, g) := SetBasename base_filename d.(fileobject_) s.(shared) in
  Returns (unlock (put severity (mkDestination f d.(logger_)) g s)).

Definition SetLogSymlink (severity : LogSeverity) (symlink_basename : string) (s : Log)
    : Result Log :=
  s ← lock s;
  let '(d, s) := log_destination severity s in
  let f := SetSymlinkBasename symlink_basename d.(fileobject_) in
  Returns (unlock (put severity (mkDestination f d.(logger_)) s.(shared) s)).

Definition AddLogSink (destination : nat) (s : Log) : Result Log :=
  match s.(sinks_) with
  | NullSinks => Returns (set_sinks (Sinks [destination]) s)
  | Sinks l => Returns (set_sinks (Sinks (l ++ [destination])%list) s)
  | DeletedSinks => Undefined
  end.

(** The loop of [RemoveLogSink], from the index [i - 1] down to 0. *)
Fixpoint remove_sink_loop (destination : nat) (i : nat) (l : list nat) : list nat :=
  match i with
  | O => l
  | S i =>
      if decide (l !! i = Some destination) then
        match l !! (length l - 1)%nat with
        | Some last => take (length l - 1) (<[i := last]> l)
        | None => l
        end
      else remove_sink_loop destination i l
  end.

Definition RemoveLogSink (destination : nat) (s : Log) : Result Log :=
  match s.(sinks_) with
  | NullSinks => Returns s
  | Sinks l => Returns (set_sinks (Sinks (remove_sink_loop destination (length l) l)) s)
  | DeletedSinks => Undefined
  end.

Definition SetLogFilenameExtension (ext : string) (s : Log) : Result Log :=
  s ← lock s;
  Returns (unlock (foldl (λ s i,
    let '(d, s) := log_destination i s in
    let '(f, g) := SetExtension ext d.(fileobject_) s.(shared) in
    put i (mkDestination f d.(logger_)) g s) s severities)).

Definition set_stderrthreshold (x : Z) (fl : LogFlags) : LogFlags :=
  mkLogFlags fl.(file_flags) fl.(FLAGS_logtostderr) fl.(FLAGS_alsologtostderr)
    fl.(FLAGS_colorlogtostderr) x fl.(FLAGS_alsologtoemail) fl.(FLAGS_log_prefix)
    fl.(FLAGS_minloglevel) fl.(FLAGS_logbuflevel) fl.(FLAGS_logemaillevel)
    fl.(FLAGS_logmailer) fl.(FLAGS_log_backtrace_at).

Definition SetStderrLogging (min_severity : LogSeverity) (s : Log) : Result Log :=
  s ← lock s;
  Returns (unlock (set_flags (set_stderrthreshold (severity_int min_severity) s.(flags)) s)).

Fixpoint no_logfiles (l : list LogSeverity) (s : Log) : Result Log :=
  match l with
  | [] => Returns s
  | i :: l => s ← SetLogDestination i "" s; no_logfiles l s
  end.

Definition LogToStderr (s : Log) : Result Log :=
  s ← SetStderrLogging GLOG_INFO s;
  no_logfiles severities s.

Definition SetEmailLogging (min_severity : LogSeverity) (addresses : string) (s : Log)
    : Result Log :=
  s ← lock s;
  Returns (unlock (set_email (severity_int min_severity) addresses s)).

Definition SetLogger (severity : LogSeverity) (logger : option nat) (s : Log) : Result Log :=
  s ← lock s;
  let '(d, s) := log_destination severity s in
  Returns (unlock (put severity (mkDestination d.(fileobject_) logger) s.(shared) s)).

(** [delete sinks_] twice is undefined; the pointer is not reset. *)
Definition DeleteLogDestinations (s : Log) : Result Log :=
  let s :=
    (foldl (λ s i,
       match s.(log_destinations_) !! severity_nat i with
       | Some (Some d) =>
           set_files (delete_LogFileObject d.(fileobject_) s.(shared))
             (<[severity_nat i := None]> s.(log_destinations_)) s
       | _ => s
       end) s severities) in
  match s.(sinks_) with
  | NullSinks => Returns s
  | Sinks _ => Returns (set_sinks DeletedSinks s)
  | DeletedSinks => Undefined
  end.

(** ** Standard error *)

Inductive GLogColor := COLOR_DEFAULT | COLOR_RED | COLOR_GREEN | COLOR_YELLOW.

#[export] Instance GLogColor_eq_dec : EqDecision GLogColor.
Proof. solve_decision. Defined.

Definition SeverityToColor (severity : LogSeverity) : GLogColor :=
  match severity with
  | GLOG_INFO => COLOR_DEFAULT
  | GLOG_WARNING => COLOR_YELLOW
  | GLOG_ERROR | GLOG_FATAL => COLOR_RED
  end.

Definition GetAnsiColorCode (color : GLogColor) : string :=
  match color with
  | COLOR_RED => "1" | COLOR_GREEN => "2" | COLOR_YELLOW => "3" | COLOR_DEFAULT => ""
  end.

Definition TerminalSupportsColor : bool :=
  match e.(os).(getenv) "TERM" with
  | Some term =>
      bool_decide (term ∈ ["xterm"; "xterm-color"; "xterm-256color"; "screen-256color";
                           "screen"; "linux"; "cygwin"])
  | None => false
  end.

Definition escape : string := String "027" "".

Definition ColoredWriteToStderr (severity : LogSeverity) (message : string) (s : Log) : Log :=
  let color :=
    if TerminalSupportsColor && s.(flags).(FLAGS_colorlogtostderr)
    then SeverityToColor severity else COLOR_DEFAULT in
  if decide (color = COLOR_DEFAULT) then err message s
  else
    err (escape +:+ "[m")
      (err message (err (escape +:+ "[0;3" +:+ GetAnsiColorCode color +:+ "m") s)).

Definition MaybeLogToStderr (severity : LogSeverity) (message : string) (s : Log) : Log :=
  if (s.(flags).(FLAGS_stderrthreshold) <=? severity_int severity) ||
     s.(flags).(FLAGS_alsologtostderr)
  then ColoredWriteToStderr severity message s
  else s.

(** ** Mail *)

Definition quote : string := String "034" "".

(** [SendEmailInternal] with [use_logging] false. *)
Definition SendEmailInternal (dest subject body : string) (s : Log) : bool * Log :=
  match dest with
  | "" => (false, s)
  | _ =>
      let s := err ("Trying to send TITLE: " +:+ subject +:+ " BODY: " +:+ body +:+ " to "
                      +:+ dest +:+ newline) s in
      let cmd := s.(flags).(FLAGS_logmailer) +:+ " -s" +:+ quote +:+ subject +:+ quote
                   +:+ " " +:+ dest in
      if e.(popen) then
        let s := emit (Mail cmd body) s in
        if e.(pclose) then (true, s)
        else (false, err ("Problems sending mail to " +:+ dest +:+ ": "
                            +:+ StrError e e.(errno_after) +:+ newline) s)
      else (false, err ("Unable to send mail to " +:+ dest +:+ newline) s)
  end.

Definition MaybeLogToEmail (severity : LogSeverity) (message : string) (s : Log) : Log :=
  if (s.(email_logging_severity_) <=? severity_int severity) ||
     (s.(flags).(FLAGS_logemaillevel) <=? severity_int severity)
  then
    let to := s.(flags).(FLAGS_alsologtoemail) in
    let to :=
      if decide (s.(addresses_) = "") then to
      else (if decide (to = "") then to else to +:+ ",") +:+ s.(addresses_) in
    let subject := "[LOG] " +:+ LogSeverityNames severity +:+ ": "
                     +:+ ProgramInvocationShortName s.(shared) in
    let '(host, g) := hostname e.(os) s.(shared) in
    let body := host +:+ newline +:+ newline +:+ message in
    (SendEmailInternal to subject body (set_shared g s)).2
  else s.

(** ** Files and sinks *)

Definition MaybeLogToLogfile (severity : LogSeverity) (timestamp : Z) (message : string)
    (s : Log) : Result Log :=
  let should_flush := s.(flags).(FLAGS_logbuflevel) <? severity_int severity in
  let '(destination, s) := log_destination severity s in
  write_logger severity should_flush timestamp message destination s.

(** The severities from [severity] down to 0. *)
Definition down_from (severity : LogSeverity) : list LogSeverity :=
  match severity with
  | GLOG_INFO => [GLOG_INFO]
  | GLOG_WARNING => [GLOG_WARNING; GLOG_INFO]
  | GLOG_ERROR => [GLOG_ERROR; GLOG_WARNING; GLOG_INFO]
  | GLOG_FATAL => [GLOG_FATAL; GLOG_ERROR; GLOG_WARNING; GLOG_INFO]
  end.

Fixpoint log_to_files (l : list LogSeverity) (timestamp : Z) (message : string) (s : Log)
    : Result Log :=
  match l with
  | [] => Returns s
  | i :: l => s ← MaybeLogToLogfile i timestamp message s; log_to_files l timestamp message s
  end.

Definition LogToAllLogfiles (severity : LogSeverity) (timestamp : Z) (message : string)
    (s : Log) : Result Log :=
  if s.(flags).(FLAGS_logtostderr) then Returns (ColoredWriteToStderr severity message s)
  else log_to_files (down_from severity) timestamp message s.

Definition LogToSinks (severity : LogSeverity) (full_filename base_filename : string)
    (line : Z) (message : string) (s : Log) : Result Log :=
  match s.(sinks_) with
  | NullSinks => Returns s
  | Sinks l =>
      Returns (foldr (λ k s,
        emit (SinkSend k severity full_filename base_filename line message) s) s l)
  | DeletedSinks => Undefined
  end.

(** * Messages *)

Inductive SendMethod :=
  | SendToLog_ | SendToSink_ | SendToSinkAndLog_ | SaveOrSendToLog_
  | WriteToStringAndLog_ | SendToSyslogAndLog_.

#[export] Instance SendMethod_eq_dec : EqDecision SendMethod.
Proof. solve_decision. Defined.

Definition kMaxLogMessageLen : nat := (300 * 100)%nat.
Definition kNoLogPrefix : Z := -1.

(** [target_] is the union of [sink_], [outvec_] and [message_]. *)
Record LogMessageData := mkData {
  preserved_errno_ : Z;
  message_text_ : list ascii;
  pcount : nat;
  severity_ : LogSeverity;
  line_ : Z;
  send_method_ : SendMethod;
  target_ : option nat;
  timestamp_ : Z;
  num_prefix_chars_ : nat;
  num_chars_to_log_ : nat;
  num_chars_to_syslog_ : nat;
  basename_ : string;
  fullname_ : string;
  has_been_flushed_ : bool;
  first_fatal_ : bool
}.

Definition set_text (text : list ascii) (n : nat) (d : LogMessageData) : LogMessageData :=
  mkData d.(preserved_errno_) text n d.(severity_) d.(line_) d.(send_method_)
    d.(target_) d.(timestamp_) d.(num_prefix_chars_) d.(num_chars_to_log_)
    d.(num_chars_to_syslog_) d.(basename_) d.(fullname_) d.(has_been_flushed_)
    d.(first_fatal_).
Definition set_counts (prefix log syslog : nat) (flushed : bool) (d : LogMessageData)
    : LogMessageData :=
  mkData d.(preserved_errno_) d.(message_text_) d.(pcount) d.(severity_) d.(line_)
    d.(send_method_) d.(target_) d.(timestamp_) prefix log
    syslog d.(basename_) d.(fullname_) flushed d.(first_fatal_).

(** A character into the stream: [LogStreamBuf] takes two characters less than its
    length and ignores the rest. *)
Definition sputc (c : ascii) (d : LogMessageData) : LogMessageData :=
  if (d.(pcount) <? kMaxLogMessageLen - 2)%nat
  then set_text (<[d.(pcount) := c]> d.(message_text_)) (S d.(pcount)) d
  else d.

Fixpoint stream (s : string) (d : LogMessageData) : LogMessageData :=
  match s with "" => d | String c s => stream s (sputc c d) end.

(** The first [n] characters of the buffer. *)
Definition text (n : nat) (d : LogMessageData) : string :=
  String.string_of_list_ascii (take n d.(message_text_)).

(** The message without its prefix and its last character. *)
Definition body (d : LogMessageData) : string :=
  String.string_of_list_ascii
    (take (d.(num_chars_to_log_) - d.(num_prefix_chars_) - 1)
       (drop d.(num_prefix_chars_) d.(message_text_))).

(** ** Making a message *)

(** The prefix of a line. *)
Definition log_prefix (file : string) (line : Z) (severity : LogSeverity) : string :=
  let t := e.(os).(localtime) e.(time) in
  String.substring 0 1 (LogSeverityNames severity) +:+ two (1 + t.(tm_mon))
    +:+ two t.(tm_mday) +:+ " " +:+ two t.(tm_hour) +:+ ":" +:+ two t.(tm_min)
    +:+ ":" +:+ two t.(tm_sec) +:+ "." +:+ setw "0" 6 (to_string e.(usecs))
    +:+ " " +:+ setw " " 5 (to_string (u32 e.(gettid))) +:+ " "
    +:+ const_basename file +:+ ":" +:+ to_string line +:+ "] ".

(** Which storage a message gets: the first fatal one has one of its own. *)
Definition fatal_storage (severity : LogSeverity) (s : Log) : bool * Log :=
  if bool_decide (severity ≠ GLOG_FATAL) || negb s.(exit_on_dfatal) then (false, s)
  else if s.(fatal_msg_exclusive) then (true, set_exclusive false s)
  else (false, s).

(** [Init]; [garbage] is what the buffer of the message holds before. *)
Definition Init (garbage : list ascii) (file : string) (line : Z) (severity : LogSeverity)
    (send_method : SendMethod) (s : Log) : LogMessageData * Log :=
  let '(first_fatal, s) := fatal_storage severity s in
  let d := mkData s.(errno) garbage 0 severity line send_method None e.(time) 0 0 0
             (const_basename file) file false first_fatal in
  let d :=
    if s.(flags).(FLAGS_log_prefix) && negb (line =? kNoLogPrefix)
    then stream (log_prefix file line severity) d
    else d in
  let d := set_counts d.(pcount) 0 0 false d in
  let at_ := s.(flags).(FLAGS_log_backtrace_at) in
  let fileline := String.substring 0 127 (const_basename file +:+ ":" +:+ to_string line) in
  let d :=
    if bool_decide (at_ ≠ "") && bool_decide (at_ = fileline)
    then stream (" (stacktrace:" +:+ newline +:+ e.(stacktrace) +:+ ") ") d else d in
  (d, s).

Definition set_target (p : option nat) (d : LogMessageData) : LogMessageData :=
  mkData d.(preserved_errno_) d.(message_text_) d.(pcount) d.(severity_) d.(line_)
    d.(send_method_) p d.(timestamp_) d.(num_prefix_chars_) d.(num_chars_to_log_)
    d.(num_chars_to_syslog_) d.(basename_) d.(fullname_) d.(has_been_flushed_)
    d.(first_fatal_).

(** The constructors: [LOG], [CHECK_OP], [LOG_TO_SINK], [LOG_STRING] and
    [LOG_TO_STRING]. *)
Definition LogMessage (garbage : list ascii) (file : string) (line : Z)
    (severity : LogSeverity) (s : Log) : LogMessageData * Log :=
  Init garbage file line severity SendToLog_ s.

Definition LogMessage_check (garbage : list ascii) (file : string) (line : Z)
    (result : string) (s : Log) : LogMessageData * Log :=
  let '(d, s) := Init garbage file line GLOG_FATAL SendToLog_ s in
  (stream ("Check failed: " +:+ result +:+ " ") d, s).

Definition LogMessage_sink (garbage : list ascii) (file : string) (line : Z)
    (severity : LogSeverity) (sink : option nat) (also_send_to_log : bool) (s : Log)
    : LogMessageData * Log :=
  let '(d, s) := Init garbage file line severity
                   (if also_send_to_log then SendToSinkAndLog_ else SendToSink_) s in
  (set_target sink d, s).

Definition LogMessage_outvec (garbage : list ascii) (file : string) (line : Z)
    (severity : LogSeverity) (outvec : option nat) (s : Log) : LogMessageData * Log :=
  let '(d, s) := Init garbage file line severity SaveOrSendToLog_ s in
  (set_target outvec d, s).

Definition LogMessage_string (garbage : list ascii) (file : string) (line : Z)
    (severity : LogSeverity) (message : option nat) (s : Log) : LogMessageData * Log :=
  let '(d, s) := Init garbage file line severity WriteToStringAndLog_ s in
  (set_target message d, s).

(** ** Sending a message *)

Definition WaitForSinks (d : LogMessageData) (s : Log) : Result Log :=
  s ← match s.(sinks_) with
      | NullSinks => Returns s
      | Sinks l => Returns (foldr (λ k s, emit (SinkWait k) s) s l)
      | DeletedSinks => Undefined
      end;
  Returns
    (if decide (d.(send_method_) = SendToSink_ ∨ d.(send_method_) = SendToSinkAndLog_) then
       match d.(target_) with Some k => emit (SinkWait k) s | None => s end
     else s).

(** [RecordCrashReason] and the copy of the message for [ReprintFatalMessage]. *)
Definition record_crash (d : LogMessageData) (s : Log) : Log :=
  let reason :=
    mkCrash d.(fullname_) d.(line_)
      (String.string_of_list_ascii
         (take (d.(num_chars_to_log_) - d.(num_prefix_chars_))
            (drop d.(num_prefix_chars_) d.(message_text_)))) in
  let copy := Nat.min d.(num_chars_to_log_) 255 in
  set_crash (match s.(crash_reason) with Some r => Some r | None => Some reason end)
    (text copy d) d.(timestamp_) s.

(** The loop that flushes all files by an empty message. *)
Fixpoint flush_all (l : list LogSeverity) (s : Log) : Result Log :=
  match l with
  | [] => Returns s
  | i :: l =>
      s ← match s.(log_destinations_) !! severity_nat i with
          | Some (Some d) => write_logger i true 0 "" d s
          | _ => Returns s
          end;
      flush_all l s
  end.

Definition warn_before_init (s : Log) : Log :=
  if negb s.(already_warned_before_initgoogle) &&
     negb (IsGoogleLoggingInitialized s.(shared))
  then set_warned true
         (err ("WARNING: Logging before InitGoogleLogging() is written to STDERR" +:+ newline)
            s)
  else s.

Definition SendToLog (d : LogMessageData) (s : Log) : Result Log :=
  let s := warn_before_init s in
  let message := text d.(num_chars_to_log_) d in
  s ← (if s.(flags).(FLAGS_logtostderr) || negb (IsGoogleLoggingInitialized s.(shared)) then
         LogToSinks d.(severity_) d.(fullname_) d.(basename_) d.(line_) (body d)
           (ColoredWriteToStderr d.(severity_) message s)
       else
         s ← LogToAllLogfiles d.(severity_) d.(timestamp_) message s;
         LogToSinks d.(severity_) d.(fullname_) d.(basename_) d.(line_) (body d)
           (MaybeLogToEmail d.(severity_) message
              (MaybeLogToStderr d.(severity_) message s)));
  if bool_decide (d.(severity_) = GLOG_FATAL) && s.(exit_on_dfatal) then
    let s := if d.(first_fatal_) then record_crash d s else s in
    s ← (if negb s.(flags).(FLAGS_logtostderr) then flush_all severities s else Returns s);
    s ← WaitForSinks d (unlock s);
    Aborted (err ("*** Check failure stack trace: ***" +:+ newline) s)
  else Returns s.

Definition SendToSink (d : LogMessageData) (s : Log) : Log :=
  match d.(target_) with
  | Some k => emit (SinkSend k d.(severity_) d.(fullname_) d.(basename_) d.(line_) (body d)) s
  | None => s
  end.

Definition SEVERITY_TO_LEVEL (severity : LogSeverity) : Z :=
  match severity with GLOG_INFO => 6 | GLOG_WARNING => 4 | GLOG_ERROR => 3 | GLOG_FATAL => 0 end.

(** [data_->send_method_]. *)
Definition send (d : LogMessageData) (s : Log) : Result Log :=
  match d.(send_method_) with
  | SendToLog_ => SendToLog d s
  | SendToSink_ => Returns (SendToSink d s)
  | SendToSinkAndLog_ => SendToLog d (SendToSink d s)
  | SaveOrSendToLog_ =>
      match d.(target_) with
      | Some p => Returns (emit (PushBack p (body d)) s)
      | None => SendToLog d s
      end
  | WriteToStringAndLog_ =>
      SendToLog d
        match d.(target_) with Some p => emit (Assign p (body d)) s | None => s end
  | SendToSyslogAndLog_ =>
      SendToLog d
        (emit (Syslog (Z.lor 8 (SEVERITY_TO_LEVEL d.(severity_)))
           (String.string_of_list_ascii
              (take d.(num_chars_to_syslog_) (drop d.(num_prefix_chars_) d.(message_text_)))))
           s)
  end.

Definition count_message (d : LogMessageData) (s : Log) : Log :=
  set_num (alter (λ n, n + 1) (severity_nat d.(severity_)) s.(num_messages_)) s.

(** [Flush]: a newline is put behind the text for the time of sending.  A message
    without a character is undefined: the character before the buffer is read. *)
Definition Flush (d : LogMessageData) (s : Log) : Result (LogMessageData * Log) :=
  if d.(has_been_flushed_) || (severity_int d.(severity_) <? s.(flags).(FLAGS_minloglevel))
  then Returns (d, s)
  else
    let n := d.(pcount) in
    match n with
    | O => Undefined
    | S last =>
        let append_newline := bool_decide (d.(message_text_) !! last ≠ Some "010"%char) in
        let original_final_char := default "000"%char (d.(message_text_) !! n) in
        let d1 := set_counts d.(num_prefix_chars_) n (n - d.(num_prefix_chars_)) false d in
        let d1 :=
          if append_newline then
            set_counts d.(num_prefix_chars_) (S n) (n - d.(num_prefix_chars_)) false
              (set_text (<[n := "010"%char]> d.(message_text_)) n d1)
          else d1 in
        s ← lock s;
        s ← send d1 s;
        s ← WaitForSinks d1 (unlock (count_message d1 s));
        let d2 :=
          if append_newline then
            set_text (<[(d1.(num_chars_to_log_) - 1)%nat := original_final_char]>
                        d1.(message_text_)) n d1
          else d1 in
        let s := set_errno (if decide (d.(preserved_errno_) ≠ 0) then d.(preserved_errno_)
                            else e.(errno_after)) s in
        Returns (set_counts d2.(num_prefix_chars_) d2.(num_chars_to_log_)
                   d2.(num_chars_to_syslog_) true d2, s)
    end.

(** A statement [LOG(severity) << s]: constructor, stream, destructor.  [LOG(FATAL)]
    is a [LogMessageFatal], which ends the process whatever [Flush] does. *)
Definition LOG (garbage : list ascii) (file : string) (line : Z) (severity : LogSeverity)
    (message : string) (s : Log) : Result Log :=
  let '(d, s) := LogMessage garbage file line severity s in
  '(_, s) ← Flush (stream message d) s;
  if decide (severity = GLOG_FATAL) then Aborted s else Returns s.

(** [PLOG]: [ErrnoLogMessage] appends the error. *)
Definition PLOG (garbage : list ascii) (file : string) (line : Z) (severity : LogSeverity)
    (message : string) (s : Log) : Result Log :=
  let '(d, s) := LogMessage garbage file line severity s in
  let d := stream message d in
  let d := stream (": " +:+ StrError e d.(preserved_errno_) +:+ " ["
                     +:+ to_string d.(preserved_errno_) +:+ "]") d in
  '(_, s) ← Flush d s; Returns s.

(** [CHECK_OP]: nothing when the check holds. *)
Definition CHECK_OP (garbage : list ascii) (file : string) (line : Z)
    (result : option string) (s : Log) : Result Log :=
  match result with
  | None => Returns s
  | Some r =>
      let '(d, s) := LogMessage_check garbage file line r s in
      '(_, s) ← Flush d s; Aborted s
  end.

Definition ReprintFatalMessage (s : Log) : Result Log :=
  match s.(fatal_message) with
  | "" => Returns s
  | m =>
      let s := if negb s.(flags).(FLAGS_logtostderr) then err m s else s in
      LogToAllLogfiles GLOG_ERROR s.(fatal_time) m s
  end.

(** ** Start and end *)

Definition InitGoogleLogging (garbage : list ascii) (argv0 : string) (s : Log) : Result Log :=
  s ← (if IsGoogleLoggingInitialized s.(shared) then
         LOG garbage "src/utilities.cc" 322 GLOG_FATAL
           ("Check failed: !IsGoogleLoggingInitialized() " +:+
            "You called InitGoogleLogging() twice!") s
       else Returns s);
  Returns (set_shared (set_program (Some (const_basename argv0)) s.(shared)) s).

Definition ShutdownGoogleLogging (garbage : list ascii) (s : Log) : Result Log :=
  s ← (if IsGoogleLoggingInitialized s.(shared) then Returns s
       else
         LOG garbage "src/utilities.cc" 337 GLOG_FATAL
           ("Check failed: IsGoogleLoggingInitialized() You called " +:+
            "ShutdownGoogleLogging() without calling InitGoogleLogging() first!") s);
  s ← DeleteLogDestinations (set_shared (set_program None s.(shared)) s);
  Returns (set_shared (set_dirs None s.(shared)) s).

End Operations.
