(* ===== verification/LoggingFacts.v ===== *)
(** Properties of the messages of glog: one line per message to the files of its
    severity and below, fatal messages, sinks, and what is undefined. *)

From S2P Require Import Prelude Strings LogFile LogFileFacts Logging.
From stdpp Require Import base gmap list strings.
From Stdlib Require Import ZArith Lia Ascii.

Open Scope string_scope.
Open Scope Z_scope.

#[local] Arguments String.substring : simpl never.
#[local] Arguments fwrite : simpl never.
#[local] Opaque kMaxLogMessageLen.
#[local] Arguments String.append : simpl never.

(** * The text of a message *)

(** The buffer has its 30001 characters and the stream is within its limit. *)
Definition data_wf (d : LogMessageData) : Prop :=
  length d.(message_text_) = S kMaxLogMessageLen ∧ (d.(pcount) <= kMaxLogMessageLen - 2)%nat.

Lemma sputc_wf c d : data_wf d → data_wf (sputc c d).
Proof.
  intros [Hl Hp]. unfold sputc. destruct (Nat.ltb_spec (pcount d) (kMaxLogMessageLen - 2)); [|done].
  split; [simpl; by rewrite length_insert|unfold set_text; cbn [pcount]; lia].
Qed.

Lemma stream_wf s d : data_wf d → data_wf (stream s d).
Proof. revert d. induction s as [|c s IH]; intros d H; simpl; [done|]. by apply IH, sputc_wf. Qed.

Lemma string_of_app l l' :
  String.string_of_list_ascii (l ++ l')%list
  = String.string_of_list_ascii l +:+ String.string_of_list_ascii l'.
Proof. induction l as [|c l IH]; [done|]. cbn. by rewrite IH. Qed.

Lemma text_sputc c d :
  data_wf d → (d.(pcount) < kMaxLogMessageLen - 2)%nat →
  text (pcount (sputc c d)) (sputc c d) = text (pcount d) d +:+ String c "".
Proof.
  intros [Hl Hp] Hlt. unfold sputc.
  rewrite (proj2 (Nat.ltb_lt _ _) Hlt). unfold text; simpl.
  erewrite take_S_r by (apply list_lookup_insert_eq; rewrite Hl; lia).
  rewrite take_insert_ge by lia. by rewrite string_of_app.
Qed.

(** What is streamed goes behind what there is, as far as it fits. *)
Lemma text_stream s d :
  data_wf d →
  text (pcount (stream s d)) (stream s d)
  = text (pcount d) d +:+ String.substring 0 (kMaxLogMessageLen - 2 - pcount d) s.
Proof.
  revert d. induction s as [|c s IH]; intros d Hd; simpl.
  { destruct (_ - _)%nat; by rewrite string_app_nil_r. }
  rewrite IH by by apply sputc_wf. pose proof Hd as [Hl Hp].
  destruct (decide (pcount d < kMaxLogMessageLen - 2)%nat) as [Hlt|Hge].
  - rewrite text_sputc by done.
    assert (pcount (sputc c d) = S (pcount d)) as ->.
    { unfold sputc. by rewrite (proj2 (Nat.ltb_lt _ _) Hlt). }
    rewrite string_app_assoc. f_equal.
    destruct (kMaxLogMessageLen - 2 - pcount d)%nat as [|k] eqn:E; [lia|].
    replace (kMaxLogMessageLen - 2 - S (pcount d))%nat with k by lia. done.
  - unfold sputc. destruct (Nat.ltb_spec (pcount d) (kMaxLogMessageLen - 2)); [lia|].
    replace (kMaxLogMessageLen - 2 - pcount d)%nat with 0%nat by lia.
    by destruct s.
Qed.

(** The fields that streaming leaves alone. *)
Lemma stream_fields s d :
  severity_ (stream s d) = severity_ d ∧ send_method_ (stream s d) = send_method_ d ∧
  target_ (stream s d) = target_ d ∧ has_been_flushed_ (stream s d) = has_been_flushed_ d ∧
  num_prefix_chars_ (stream s d) = num_prefix_chars_ d ∧
  first_fatal_ (stream s d) = first_fatal_ d ∧ timestamp_ (stream s d) = timestamp_ d ∧
  preserved_errno_ (stream s d) = preserved_errno_ d ∧
  (pcount d <= pcount (stream s d))%nat.
Proof.
  revert d. induction s as [|c s IH]; intros d; simpl; [by split_and!|].
  specialize (IH (sputc c d)). unfold sputc in *.
  destruct (_ <? _)%nat; simpl in *; [|done].
  destruct IH as (?&?&?&?&?&?&?&?&?). split_and!; try done. lia.
Qed.

Definition newline_char : ascii := "010".

(** The line of a message: its text with one newline at the end. *)
Definition line_of (d : LogMessageData) : string :=
  if bool_decide (d.(message_text_) !! (pcount d - 1)%nat = Some newline_char)
  then text (pcount d) d else text (pcount d) d +:+ newline.

(** What [Flush] hands to the send method. *)
Definition to_send (d : LogMessageData) : LogMessageData :=
  let n := d.(pcount) in
  let d1 := set_counts d.(num_prefix_chars_) n (n - d.(num_prefix_chars_)) false d in
  if bool_decide (d.(message_text_) !! (n - 1)%nat ≠ Some newline_char) then
    set_counts d.(num_prefix_chars_) (S n) (n - d.(num_prefix_chars_)) false
      (set_text (<[n := newline_char]> d.(message_text_)) n d1)
  else d1.

Lemma to_send_text d :
  data_wf d → text (num_chars_to_log_ (to_send d)) (to_send d) = line_of d.
Proof.
  intros [Hl Hp]. unfold to_send, line_of. cbv zeta.
  destruct (decide (message_text_ d !! (pcount d - 1)%nat = Some newline_char)) as [E|E].
  - rewrite bool_decide_eq_false_2 by auto. by rewrite bool_decide_eq_true_2.
  - rewrite bool_decide_eq_true_2 by auto. rewrite bool_decide_eq_false_2 by done.
    unfold text; simpl.
    erewrite take_S_r by (apply list_lookup_insert_eq; rewrite Hl; lia).
    rewrite take_insert_ge by lia. by rewrite string_of_app.
Qed.

Lemma to_send_fields d :
  severity_ (to_send d) = severity_ d ∧ send_method_ (to_send d) = send_method_ d ∧
  target_ (to_send d) = target_ d ∧ timestamp_ (to_send d) = timestamp_ d ∧
  first_fatal_ (to_send d) = first_fatal_ d.
Proof. unfold to_send. by case_match. Qed.

(** [Flush], in one equation: what is sent, and that the message is afterwards what
    it was but for the counts. *)
Lemma Flush_eq e d s :
  data_wf d →
  Flush e d s =
  if d.(has_been_flushed_) || (severity_int d.(severity_) <? s.(flags).(FLAGS_minloglevel))
  then Returns (d, s)
  else if decide (pcount d = 0%nat) then Undefined
  else
    s ← lock s;
    s ← send e (to_send d) s;
    s ← WaitForSinks (to_send d) (unlock (count_message (to_send d) s));
    Returns (set_counts d.(num_prefix_chars_) (num_chars_to_log_ (to_send d))
               (num_chars_to_syslog_ (to_send d)) true d,
             set_errno (if decide (d.(preserved_errno_) ≠ 0) then d.(preserved_errno_)
                        else e.(errno_after)) s).
Proof.
  intros [Hl Hp]. unfold Flush, to_send. destruct (_ || _); [done|].
  destruct (pcount d) as [|last] eqn:Hn; [done|].
  replace (S last - 1)%nat with last by lia.
  destruct (lock s) as [s1| | |]; [|done..]. simpl.
  change "010"%char with newline_char.
  destruct (bool_decide (message_text_ d !! last ≠ Some newline_char)); [|done].
  destruct (send _ _ _) as [s2| | |]; [|done..]. simpl.
  destruct (WaitForSinks _ _) as [s3| | |]; [|done..]. simpl. do 2 f_equal.
  unfold set_counts, set_text; simpl. rewrite Hn. f_equal.
  rewrite list_insert_insert_eq. apply list_insert_id.
  destruct (lookup_lt_is_Some_2 (message_text_ d) (S last)) as [x Hx]; [lia|].
  by rewrite Hx.
Qed.

(** * Messages reach their files *)

Lemma severity_nat_inj i j : severity_nat i = severity_nat j → i = j.
Proof. by destruct i, j. Qed.

#[local] Arguments severity_nat : simpl never.

(** The file object of severity [i] has the file [k] open, with room for [room] more
    bytes before it is rolled over. *)
Definition opened (room : Z) (i : LogSeverity) (k : nat) (s : Log) : Prop :=
  ∃ f n, s.(log_destinations_) !! severity_nat i = Some (Some (mkDestination f None)) ∧
    f.(file_) = Some k ∧ f.(base_filename_) ≠ "" ∧
    0 <= f.(file_length_) ∧ f.(file_length_) + room < MAX_LENGTH s.(flags).(file_flags) ∧
    s.(shared).(fs).(inodes) !! k = Some n.

(** The disk takes everything and the process is the one that opened the files. *)
Record usual (e : Env) (s : Log) : Prop := {
  usual_disk : disk_ok e.(os);
  usual_stop : s.(shared).(stop_writing) = false;
  usual_pid : s.(shared).(g_main_thread_pid) = e.(os).(getpid);
  usual_max : MaxLogSize s.(flags).(file_flags) <= 4094
}.

(** [s'] differs from [s] in its files and file objects only. *)
Definition only_files (s s' : Log) : Prop :=
  s' = set_files (set_fs s'.(shared).(fs) s.(shared)) s'.(log_destinations_) s.

#[export] Instance only_files_preorder : PreOrder only_files.
Proof.
  split.
  - by intros [? [] ? ? ? ? ? ? ? ? ? ? ? ? ? ?].
  - intros a b c -> ->. done.
Qed.

Lemma Write_open fl os force ts m f g k :
  f.(base_filename_) ≠ "" → f.(file_) = Some k → f.(file_length_) < MAX_LENGTH fl →
  g.(g_main_thread_pid) = os.(getpid) →
  Write fl os force ts m f g = Some (write_message fl os force m k f g).
Proof.
  intros Hb Hf Hl Hp. unfold Write.
  assert ((base_filename_selected_ f && bool_decide (base_filename_ f = "")) = false) as ->.
  { rewrite bool_decide_eq_false_2 by done. apply andb_false_r. }
  unfold needs_rollover, PidHasChanged, MAX_LENGTH in *.
  assert ((MaxLogSize fl <=? Z.shiftr (file_length_ f) 20) = false) as ->.
  { apply Z.leb_gt. apply Z.nle_gt. rewrite shiftr_20. lia. }
  rewrite Hp, Z.eqb_refl. cbv iota. by rewrite Hf.
Qed.

Lemma write_message_shared fl os force m i f g f' g' :
  disk_ok os → g.(stop_writing) = false →
  write_message fl os force m i f g = (f', g') →
  g' = set_fs g'.(fs) g ∧ f'.(base_filename_) = f.(base_filename_).
Proof.
  intros Hd Hs H. unfold write_message in H. rewrite Hs in H. cbn [negb] in H.
  rewrite (Hd m) in H. cbn [snd] in H. rewrite andb_false_r in H. simpl in H.
  destruct (force || _ || _); unfold FlushUnlocked in H; simpl in H; by simplify_eq.
Qed.

(** One message into the file of one severity. *)
Lemma write_logger_opened e force ts m room i k f n s :
  usual e s → Z.of_nat (String.length m) <= room →
  s.(log_destinations_) !! severity_nat i = Some (Some (mkDestination f None)) →
  f.(file_) = Some k → f.(base_filename_) ≠ "" → 0 <= f.(file_length_) →
  f.(file_length_) + room < MAX_LENGTH s.(flags).(file_flags) →
  s.(shared).(fs).(inodes) !! k = Some n →
  ∃ s' n', write_logger e i force ts m (mkDestination f None) s = Returns s' ∧
    only_files s s' ∧ usual e s' ∧ took k m s.(shared).(fs) s'.(shared).(fs) n n' ∧
    (∀ j, j ≠ i → s'.(log_destinations_) !! severity_nat j
                  = s.(log_destinations_) !! severity_nat j) ∧
    opened (room - Z.of_nat (String.length m)) i k s' ∧
    (force = true → flushed n' = String.length (data n')).
Proof.
  intros [Hd Hs Hp Hmax] Hm Hdst Hf Hb Hl0 Hl Hn.
  unfold write_logger; simpl. erewrite Write_open by (try done; lia).
  destruct (write_message _ _ _ _ _ _ _) as [f' g'] eqn:Hw.
  pose proof (write_message_shared _ _ _ _ _ _ _ _ _ Hd Hs Hw) as [Hg Hb'].
  destruct (write_message_spec _ _ _ _ _ _ _ _ _ _ Hd Hs Hn Hw)
    as (n' & Ht & Hf' & _ & Hs' & _ & Hl' & Hcase).
  exists (put i (mkDestination f' None) g' s), n'. split; [done|].
  assert (severity_nat i < length (log_destinations_ s))%nat as Hlen
    by (apply lookup_lt_is_Some_1; by eexists).
  split_and!.
  - unfold only_files, put; simpl. by rewrite <-Hg.
  - split; simpl; [done|done|by rewrite Hg|done].
  - done.
  - intros j Hj. simpl. apply list_lookup_insert_ne.
    intros E. apply severity_nat_inj in E. congruence.
  - exists f', n'. split_and!; simpl.
    + by rewrite list_lookup_insert_eq.
    + done.
    + by rewrite Hb'.
    + rewrite Hl'. apply Z.mod_pos_bound. done.
    + unfold MAX_LENGTH in *. rewrite Hl', u32_small by lia. lia.
    + apply Ht.
  - intros ->. destruct Hcase as [[? _]|(_ & ? & _)]; [done|congruence].
Qed.

(** What a message has done to the files [ks i] of the severities [l]. *)
Record appended (l : list LogSeverity) (ks : LogSeverity → nat) (m : string) (force : bool)
    (a b : FileSystem) : Prop := {
  appended_data i : i ∈ l → ∃ n n', a.(inodes) !! ks i = Some n ∧
    b.(inodes) !! ks i = Some n' ∧ data n' = data n +:+ m ∧
    (force = true → flushed n' = String.length (data n'));
  appended_others k : (∀ i, i ∈ l → ks i ≠ k) → b.(inodes) !! k = a.(inodes) !! k
}.

(** A loop that writes to one severity after the other. *)
Lemma writes_appended e (step : LogSeverity → Log → Result Log)
    (loop : list LogSeverity → Log → Result Log) m force room ks :
  (∀ s, loop [] s = Returns s) →
  (∀ i l s, loop (i :: l) s = (s ← step i s; loop l s)) →
  (∀ i s, usual e s → opened room i (ks i) s → ∃ s' n n',
     step i s = Returns s' ∧ only_files s s' ∧ usual e s' ∧
     took (ks i) m s.(shared).(fs) s'.(shared).(fs) n n' ∧
     (∀ j, j ≠ i → s'.(log_destinations_) !! severity_nat j
                  = s.(log_destinations_) !! severity_nat j) ∧
     opened (room - Z.of_nat (String.length m)) i (ks i) s' ∧
     (force = true → flushed n' = String.length (data n'))) →
  ∀ l s, NoDup l → (∀ i j, i ∈ l → j ∈ l → ks i = ks j → i = j) →
    usual e s → (∀ i, i ∈ l → opened room i (ks i) s) →
    ∃ s', loop l s = Returns s' ∧ appended l ks m force s.(shared).(fs) s'.(shared).(fs) ∧
      only_files s s' ∧ usual e s' ∧
      (∀ i, i ∈ l → opened (room - Z.of_nat (String.length m)) i (ks i) s') ∧
      (∀ j, j ∉ l → s'.(log_destinations_) !! severity_nat j
                    = s.(log_destinations_) !! severity_nat j).
Proof.
  intros Hnil Hcons Hstep l. induction l as [|i l IH]; intros s Hnd Hinj Hu Hop.
  { exists s. rewrite Hnil. split_and!; try done; [|set_solver].
    split; [set_solver|done]. }
  apply NoDup_cons in Hnd as [Hi Hnd].
  destruct (Hstep i s Hu (Hop i ltac:(set_solver)))
    as (s1 & n & n' & Hs1 & Ho1 & Hu1 & Ht & Hdst & Hop1 & Hfl).
  assert (∀ j, j ∈ l → ks j ≠ ks i) as Hne.
  { intros j Hj E. apply Hinj in E; [|set_solver|set_solver]. by subst. }
  assert (∀ j r, j ≠ i → ks j ≠ ks i → opened r j (ks j) s → opened r j (ks j) s1) as Hkeep.
  { intros j r Hji Hkj (f & x & H1 & H2 & H3 & H4 & H5 & H6). exists f, x.
    rewrite Hdst by done. split_and!; try done; [by rewrite Ho1|].
    rewrite (took_others _ _ _ _ _ _ Ht) by done. done. }
  destruct (IH s1) as (s' & Hs' & [Hd Hoth] & Hon & Hu' & Hop' & Hdst'); [done| |done| |].
  { intros a b Ha Hb. apply Hinj; set_solver. }
  { intros j Hj. apply Hkeep; [by intros ->|by apply Hne|apply Hop; set_solver]. }
  exists s'. rewrite Hcons, Hs1. simpl. split; [done|].
  assert (inodes (fs (shared s')) !! ks i = Some n') as Hki.
  { rewrite Hoth by done. apply Ht. }
  split_and!; [split| | | |].
  - intros j [->|Hj]%elem_of_cons.
    + exists n, n'. split_and!; [apply Ht|done|apply Ht|done].
    + destruct (Hd j Hj) as (a & b & Ha & Hb & Hab & Hfb). exists a, b.
      rewrite (took_others _ _ _ _ _ _ Ht) in Ha by (by apply Hne). done.
  - intros k Hk. rewrite Hoth by (intros; apply Hk; set_solver).
    apply (took_others _ _ _ _ _ _ Ht). intros ->. apply (Hk i); set_solver.
  - by etrans.
  - done.
  - intros j [->|Hj]%elem_of_cons; [|by apply Hop'].
    destruct Hop1 as (f & x & H1 & H2 & H3 & H4 & H5 & H6). exists f, n'.
    rewrite Hdst' by done. split_and!; try done. by rewrite Hon.
  - intros j Hj. apply not_elem_of_cons in Hj as [? ?].
    rewrite Hdst' by done. by apply Hdst.
Qed.

Lemma log_to_files_appended e ts m room ks l s :
  Z.of_nat (String.length m) <= room →
  NoDup l → (∀ i j, i ∈ l → j ∈ l → ks i = ks j → i = j) →
  usual e s → (∀ i, i ∈ l → opened room i (ks i) s) →
  ∃ s', log_to_files e l ts m s = Returns s' ∧
    appended l ks m false s.(shared).(fs) s'.(shared).(fs) ∧ only_files s s' ∧ usual e s' ∧
    (∀ i, i ∈ l → opened (room - Z.of_nat (String.length m)) i (ks i) s') ∧
    (∀ j, j ∉ l → s'.(log_destinations_) !! severity_nat j
                  = s.(log_destinations_) !! severity_nat j).
Proof.
  intros Hm. apply (writes_appended e (λ i s, MaybeLogToLogfile e i ts m s)
    (λ l s, log_to_files e l ts m s)); [done|done|].
  intros i s0 Hu (f & n & H1 & H2 & H3 & H4 & H5 & H6).
  unfold MaybeLogToLogfile, log_destination. rewrite H1.
  destruct (write_logger_opened e (FLAGS_logbuflevel (flags s0) <? severity_int i) ts m room
    i (ks i) f n s0) as (s' & n' & ? & ? & ? & ? & ? & ? & ?); try done.
  exists s', n, n'. by split_and!.
Qed.

(** The empty message of a fatal one, which flushes. *)
Lemma flush_all_appended e room ks l s :
  0 <= room → NoDup l → (∀ i j, i ∈ l → j ∈ l → ks i = ks j → i = j) →
  usual e s → (∀ i, i ∈ l → opened room i (ks i) s) →
  ∃ s', flush_all e l s = Returns s' ∧
    appended l ks "" true s.(shared).(fs) s'.(shared).(fs) ∧ only_files s s' ∧ usual e s' ∧
    (∀ i, i ∈ l → opened (room - Z.of_nat (String.length "")) i (ks i) s') ∧
    (∀ j, j ∉ l → s'.(log_destinations_) !! severity_nat j
                  = s.(log_destinations_) !! severity_nat j).
Proof.
  intros Hm. apply (writes_appended e
    (λ i s, match s.(log_destinations_) !! severity_nat i with
            | Some (Some d) => write_logger e i true 0 "" d s
            | _ => Returns s end)
    (λ l s, flush_all e l s)); [done|done|].
  intros i s0 Hu (f & n & H1 & H2 & H3 & H4 & H5 & H6). rewrite H1.
  destruct (write_logger_opened e true 0 "" room i (ks i) f n s0)
    as (s' & n' & ? & ? & ? & ? & ? & ? & ?); try done.
  exists s', n, n'. by split_and!.
Qed.

(** * What a message does besides *)

(** [s'] has the files of [s], its destinations, its flags and its sinks. *)
Record quiet (s s' : Log) : Prop := {
  quiet_fs : s'.(shared).(fs) = s.(shared).(fs);
  quiet_stop : s'.(shared).(stop_writing) = s.(shared).(stop_writing);
  quiet_pid : s'.(shared).(g_main_thread_pid) = s.(shared).(g_main_thread_pid);
  quiet_dst : s'.(log_destinations_) = s.(log_destinations_);
  quiet_flags : s'.(flags) = s.(flags);
  quiet_sinks : s'.(sinks_) = s.(sinks_);
  quiet_exit : s'.(exit_on_dfatal) = s.(exit_on_dfatal)
}.

#[export] Instance quiet_preorder : PreOrder quiet.
Proof.
  split; [by split|]. intros a b c [] []. split; congruence.
Qed.

Lemma quiet_err x s : quiet s (err x s).
Proof. by split. Qed.
Lemma quiet_emit x s : quiet s (emit x s).
Proof. by split. Qed.
Lemma quiet_mutex b s : quiet s (set_mutex b s).
Proof. by split. Qed.

Lemma quiet_crash d s : quiet s (record_crash d s).
Proof. unfold record_crash, set_crash. split; reflexivity. Qed.

Create HintDb quiet.
#[export] Hint Resolve quiet_err quiet_emit quiet_mutex : quiet.
#[export] Hint Extern 1 (quiet ?s ?s) => reflexivity : quiet.

Ltac quiet := repeat first [solve [auto with quiet] | etrans; [|solve [auto with quiet]]].

Lemma quiet_emits {A} (f : A → Event) l s : quiet s (foldr (λ k s, emit (f k) s) s l).
Proof. induction l as [|k l IH]; simpl; [reflexivity|]. etrans; [done|apply quiet_emit]. Qed.

Lemma quiet_stderr e sev m s : quiet s (ColoredWriteToStderr e sev m s).
Proof. unfold ColoredWriteToStderr. case_decide; quiet. Qed.

Lemma quiet_MaybeStderr e sev m s : quiet s (MaybeLogToStderr e sev m s).
Proof. unfold MaybeLogToStderr. case_match; [apply quiet_stderr|reflexivity]. Qed.

Lemma quiet_email e sev m s : quiet s (MaybeLogToEmail e sev m s).
Proof.
  unfold MaybeLogToEmail. destruct (_ || _); [|reflexivity].
  destruct (hostname (os e) (shared s)) as [host g] eqn:Hh.
  assert (quiet s (set_shared g s)) as Hq.
  { pose proof (hostname_fs _ _ _ _ Hh) as [H1 H2].
    unfold hostname in Hh. split; simpl; try done. by destruct (hostname_ (shared s)); simplify_eq. }
  etrans; [exact Hq|]. unfold SendEmailInternal.
  repeat case_match; simpl; quiet.
Qed.

Lemma LogToSinks_returns sev full base line m s :
  s.(sinks_) ≠ DeletedSinks →
  ∃ s', LogToSinks sev full base line m s = Returns s' ∧ quiet s s'.
Proof.
  intros H. unfold LogToSinks. destruct (sinks_ s); [|eexists; split; [done|apply quiet_emits]|done].
  eexists. split; [done|reflexivity].
Qed.

Lemma emits_mutex {A} (f : A → Event) l s :
  log_mutex (foldr (λ k s, emit (f k) s) s l) = log_mutex s.
Proof. by induction l. Qed.

Lemma WaitForSinks_returns d s :
  s.(sinks_) ≠ DeletedSinks →
  ∃ s', WaitForSinks d s = Returns s' ∧ quiet s s' ∧ log_mutex s' = log_mutex s.
Proof.
  intros H. unfold WaitForSinks.
  destruct (sinks_ s) as [|l|]; [|eexists; split; [done|]; split|done].
  - eexists. split; [done|]. split; [repeat case_match; quiet|by repeat case_match].
  - etrans; [apply (quiet_emits SinkWait)|]. repeat case_match; quiet.
  - rewrite <-(emits_mutex SinkWait l s). by repeat case_match.
Qed.

(** * A whole message *)

Lemma kMax_big : (2 < kMaxLogMessageLen)%nat.
Proof. apply Nat.ltb_lt. vm_compute. reflexivity. Qed.

Lemma pcount_stream_pos c s d :
  pcount d = 0%nat → (0 < pcount (stream (String c s) d))%nat.
Proof.
  intros H. simpl. pose proof kMax_big.
  destruct (stream_fields s (sputc c d)) as (_&_&_&_&_&_&_&_&Hp).
  unfold sputc in *. destruct (Nat.ltb_spec (pcount d) (kMaxLogMessageLen - 2)); simpl in *; lia.
Qed.

Record init_spec (sev : LogSeverity) (m : SendMethod) (ts : Z) (d : LogMessageData) : Prop := {
  init_wf : data_wf d;
  init_severity : d.(severity_) = sev;
  init_method : d.(send_method_) = m;
  init_time : d.(timestamp_) = ts;
  init_flushed : d.(has_been_flushed_) = false
}.

Lemma stream_init sev m ts x d : init_spec sev m ts d → init_spec sev m ts (stream x d).
Proof.
  intros []. destruct (stream_fields x d) as (?&?&?&?&?&?&?&?&_).
  split; [by apply stream_wf|congruence..].
Qed.

Lemma log_prefix_cons e file line sev :
  ∃ c r, log_prefix e file line sev = String c r.
Proof. unfold log_prefix. destruct sev; by eexists _, _. Qed.

Lemma Init_init e garbage file line sev m s :
  length garbage = S kMaxLogMessageLen →
  init_spec sev m (time e) (Init e garbage file line sev m s).1 ∧
  ((FLAGS_log_prefix (flags s) && negb (line =? kNoLogPrefix)) = true →
   (0 < pcount (Init e garbage file line sev m s).1)%nat).
Proof.
  intros Hg. unfold Init.
  destruct (fatal_storage sev s) as [ff s0] eqn:E.
  assert (flags s0 = flags s) as ->.
  { unfold fatal_storage in E. by repeat case_match; simplify_eq. }
  set (d0 := mkData _ _ _ _ _ _ _ _ _ _ _ _ _ _ _).
  assert (init_spec sev m (time e) d0) as H0. { split; try done. split; simpl; [done|lia]. }
  destruct (log_prefix_cons e file line sev) as (c & r & Hcr). rewrite Hcr.
  set (d1 := if FLAGS_log_prefix (flags s) && negb (line =? kNoLogPrefix)
             then stream (String c r) d0 else d0).
  assert (init_spec sev m (time e) d1) as H1.
  { unfold d1. destruct (_ && _); [by apply stream_init|done]. }
  assert ((FLAGS_log_prefix (flags s) && negb (line =? kNoLogPrefix)) = true → (0 < pcount d1)%nat) as Hp.
  { unfold d1. intros ->. by apply pcount_stream_pos. }
  set (d2 := set_counts (pcount d1) 0 0 false d1).
  assert (init_spec sev m (time e) d2) as H2 by (by destruct H1).
  set (trace := " (stacktrace:" +:+ _).
  destruct (bool_decide _ && _); cbn [fst]; [|split; [exact H2|exact Hp]].
  split; [by apply stream_init|]. intros Hx.
  destruct (stream_fields trace d2) as (_&_&_&_&_&_&_&_&Hle).
  specialize (Hp Hx). change (pcount d2) with (pcount d1) in Hle. lia.
Qed.

Lemma Init_state e garbage file line sev m s :
  (Init e garbage file line sev m s).2 = s ∨
  sev = GLOG_FATAL ∧ (Init e garbage file line sev m s).2 = set_exclusive false s.
Proof.
  assert ((Init e garbage file line sev m s).2 = (fatal_storage sev s).2) as ->.
  { unfold Init. by destruct (fatal_storage sev s). }
  unfold fatal_storage. destruct (decide (sev = GLOG_FATAL)) as [->|Hne].
  - destruct (_ || _); [by left|]. destruct (fatal_msg_exclusive s); [by right|by left].
  - rewrite bool_decide_eq_true_2 by done. by left.
Qed.

(** Where a message goes: the files [ks i] of its severity and those below. *)
Record ready_to_log (e : Env) (garbage : list ascii) (line : Z) (sev : LogSeverity)
    (ks : LogSeverity → nat) (s : Log) : Prop := {
  rl_garbage : length garbage = S kMaxLogMessageLen;
  rl_level : s.(flags).(FLAGS_minloglevel) <= severity_int sev;
  rl_prefix : s.(flags).(FLAGS_log_prefix) = true;
  rl_line : line ≠ kNoLogPrefix;
  rl_backtrace : s.(flags).(FLAGS_log_backtrace_at) = "";
  rl_init : IsGoogleLoggingInitialized s.(shared) = true;
  rl_files : s.(flags).(FLAGS_logtostderr) = false;
  rl_mutex : s.(log_mutex) = false;
  rl_sinks : s.(sinks_) ≠ DeletedSinks;
  rl_usual : usual e s;
  rl_inj i j : ks i = ks j → i = j;
  rl_opened i : i ∈ down_from sev → opened 30000 i (ks i) s
}.

Lemma in_down_from sev i : severity_int i <= severity_int sev ↔ i ∈ down_from sev.
Proof.
  rewrite <-(bool_decide_spec (severity_int i <= severity_int sev)),
    <-(bool_decide_spec (i ∈ down_from sev)).
  by destruct i, sev.
Qed.

Lemma in_severities i : i ∈ severities.
Proof. apply (bool_decide_unpack _). by destruct i. Qed.

Lemma severities_NoDup : NoDup severities.
Proof. apply (bool_decide_unpack _). done. Qed.

Lemma down_from_NoDup sev : NoDup (down_from sev).
Proof. apply (bool_decide_unpack _). by destruct sev. Qed.

Lemma text_length n d : (String.length (text n d) <= n)%nat.
Proof.
  unfold text.
  assert (∀ l, String.length (String.string_of_list_ascii l) = length l) as ->.
  { induction l as [|x l IH]; [done|]. cbn. by rewrite IH. }
  rewrite length_take. lia.
Qed.

Lemma line_length d : data_wf d → Z.of_nat (String.length (line_of d)) <= 30000.
Proof.
  intros [_ Hp]. pose proof (text_length (pcount d) d) as Ht.
  assert (Z.of_nat kMaxLogMessageLen = 30000) as Hk by (vm_compute; reflexivity).
  unfold line_of. case_match; [lia|]. rewrite slength_app. change (String.length newline) with 1%nat.
  lia.
Qed.

(** The part of [SendToLog] before it looks whether the message is fatal. *)
Lemma SendToLog_files e d s ks :
  IsGoogleLoggingInitialized s.(shared) = true → s.(flags).(FLAGS_logtostderr) = false →
  s.(sinks_) ≠ DeletedSinks → usual e s → (∀ i j, ks i = ks j → i = j) →
  Z.of_nat (String.length (text (num_chars_to_log_ d) d)) <= 30000 →
  (∀ i, i ∈ down_from d.(severity_) → opened 30000 i (ks i) s) →
  ∃ s1, SendToLog e d s =
    (if bool_decide (d.(severity_) = GLOG_FATAL) && s1.(exit_on_dfatal) then
       let s := if d.(first_fatal_) then record_crash d s1 else s1 in
       s ← (if negb s.(flags).(FLAGS_logtostderr) then flush_all e severities s else Returns s);
       s ← WaitForSinks d (unlock s);
       Aborted (err ("*** Check failure stack trace: ***" +:+ newline) s)
     else Returns s1) ∧
    appended (down_from d.(severity_)) ks (text (num_chars_to_log_ d) d) false
      s.(shared).(fs) s1.(shared).(fs) ∧
    usual e s1 ∧ s1.(flags) = s.(flags) ∧ s1.(sinks_) = s.(sinks_) ∧
    s1.(exit_on_dfatal) = s.(exit_on_dfatal) ∧
    (∀ i, i ∈ down_from d.(severity_) →
       opened (30000 - Z.of_nat (String.length (text (num_chars_to_log_ d) d))) i (ks i) s1).
Proof.
  intros Hinit Hfl Hsk Hu Hinj Hlen Hop. unfold SendToLog.
  assert (warn_before_init s = s) as ->.
  { unfold warn_before_init. rewrite Hinit. by rewrite andb_false_r. }
  cbv zeta. rewrite Hfl, Hinit. simpl orb. cbv iota.
  unfold LogToAllLogfiles. rewrite Hfl.
  set (m := text (num_chars_to_log_ d) d) in *.
  destruct (log_to_files_appended e (timestamp_ d) m 30000 ks (down_from (severity_ d)) s)
    as (s1 & Hs1 & Ha & Hof & Hu1 & Hop1 & _);
    [done|apply down_from_NoDup|auto|done|done|].
  rewrite Hs1. simpl.
  set (s2 := MaybeLogToEmail _ _ _ _).
  assert (quiet s1 s2) as Hq.
  { unfold s2. etrans; [apply quiet_MaybeStderr|apply quiet_email]. }
  unfold only_files in Hof.
  destruct (LogToSinks_returns (severity_ d) (fullname_ d) (basename_ d) (line_ d) (body d) s2)
    as (s3 & Hs3 & Hq3).
  { rewrite (quiet_sinks _ _ Hq), Hof. done. }
  rewrite Hs3. simpl. exists s3. split; [done|].
  assert (quiet s1 s3) as [Q1 Q2 Q3 Q4 Q5 Q6 Q7] by (by etrans).
  split_and!.
  - by rewrite Q1.
  - destruct Hu1. split; [done|congruence|congruence|by rewrite Q5].
  - by rewrite Q5, Hof.
  - by rewrite Q6, Hof.
  - by rewrite Q7, Hof.
  - intros i Hi. destruct (Hop1 i Hi) as (f & n & H1 & H2 & H3 & H4 & H5 & H6).
    exists f, n. rewrite Q4, Q5, Q1. by split_and!.
Qed.

(** ** What is in the line *)

Definition one_line (t : string) : string :=
  if decide (last_char t = Some newline_char) then t else t +:+ newline.

Lemma last_char_list l :
  last_char (String.string_of_list_ascii l) = last l.
Proof.
  induction l as [|c [|d l] IH]; [done|done|].
  rewrite last_cons_cons, <-IH. done.
Qed.

Lemma line_of_one_line d :
  data_wf d → (0 < pcount d)%nat → line_of d = one_line (text (pcount d) d).
Proof.
  intros [Hl Hp] Hpos. unfold line_of, one_line.
  assert (last_char (text (pcount d) d) = message_text_ d !! (pcount d - 1)%nat) as ->.
  { unfold text. rewrite last_char_list, last_lookup, length_take, lookup_take_lt by lia.
    f_equal. lia. }
  by case_bool_decide; case_decide.
Qed.

Lemma substring_length n s :
  String.length (String.substring 0 n s) = Nat.min n (String.length s).
Proof.
  revert n. induction s as [|c s IH]; intros [|n]; try done.
  change (S (String.length (String.substring 0 n s)) = S (Nat.min n (String.length s))).
  by rewrite IH.
Qed.

Lemma substring_app n a b :
  String.substring 0 n (a +:+ b)
  = String.substring 0 n a +:+ String.substring 0 (n - String.length a) b.
Proof.
  revert n. induction a as [|c a IH]; intros n.
  { rewrite Nat.sub_0_r. by destruct n. }
  destruct n as [|n]; [by destruct b|].
  change (String c (String.substring 0 n (a +:+ b)) = String c (String.substring 0 n a) +:+
    String.substring 0 (n - String.length a) b). by rewrite IH.
Qed.

(** The text of a message with a prefix: the prefix and what was streamed, cut where
    the buffer ends. *)
Lemma message_text e garbage file line sev m msg s :
  length garbage = S kMaxLogMessageLen →
  FLAGS_log_prefix (flags s) = true → line ≠ kNoLogPrefix →
  FLAGS_log_backtrace_at (flags s) = "" →
  let d := stream msg (Init e garbage file line sev m s).1 in
  text (pcount d) d = String.substring 0 (kMaxLogMessageLen - 2) (log_prefix e file line sev +:+ msg).
Proof.
  intros Hg Hp Hl Hb d.
  assert (∃ d0, pcount d0 = 0%nat ∧ data_wf d0 ∧ d = stream msg
    (set_counts (pcount (stream (log_prefix e file line sev) d0)) 0 0 false
       (stream (log_prefix e file line sev) d0))) as (d0 & H0 & Hw & ->).
  { unfold d, Init. destruct (fatal_storage sev s) as [ff s0] eqn:E.
    assert (flags s0 = flags s) as ->.
    { unfold fatal_storage in E. by repeat case_match; simplify_eq. }
    rewrite Hp, Hb. apply Z.eqb_neq in Hl. rewrite Hl. cbv zeta.
    change (true && negb false) with true. cbv iota.
    rewrite (bool_decide_eq_false_2 ("" ≠ "")) by auto. cbn [andb fst].
    eexists. split; [|split; [|reflexivity]]; [done|]. split; simpl; [done|lia]. }
  set (p := log_prefix e file line sev).
  rewrite text_stream.
  2:{ pose proof (stream_wf p d0 Hw) as [? ?]. by split. }
  change (text (pcount (set_counts _ _ _ _ ?a)) (set_counts _ _ _ _ _)) with (text (pcount a) a).
  change (pcount (set_counts _ _ _ _ ?a)) with (pcount a).
  rewrite text_stream by done. rewrite H0.
  change (text 0 d0) with "". change ("" +:+ ?x) with x. rewrite Nat.sub_0_r.
  rewrite substring_app. f_equal. f_equal.
  assert (String.length (text (pcount (stream p d0)) (stream p d0)) = pcount (stream p d0)) as Hlen.
  { unfold text.
    assert (∀ l, String.length (String.string_of_list_ascii l) = length l) as ->.
    { induction l as [|x l IH]; [done|]. cbn. by rewrite IH. }
    rewrite length_take. destruct (stream_wf p d0 Hw). lia. }
  rewrite text_stream, H0 in Hlen by done. change (text 0 d0) with "" in Hlen.
  change ("" +:+ ?x) with x in Hlen. rewrite substring_length, Nat.sub_0_r in Hlen. lia.
Qed.

(** ** Messages that return, and fatal ones *)

Section Messages.
Context (e : Env) (garbage : list ascii) (file : string) (line : Z) (msg : string).
Context (ks : LogSeverity → nat).

(** The line of the message. *)
Definition the_line (sev : LogSeverity) : string :=
  one_line (String.substring 0 (kMaxLogMessageLen - 2) (log_prefix e file line sev +:+ msg)).

Lemma LOG_data sev s :
  ready_to_log e garbage line sev ks s →
  let d := stream msg (LogMessage e garbage file line sev s).1 in
  data_wf d ∧ d.(severity_) = sev ∧ d.(send_method_) = SendToLog_ ∧
  d.(has_been_flushed_) = false ∧ (0 < pcount d)%nat ∧ line_of d = the_line sev.
Proof.
  intros [] d. unfold d, LogMessage.
  destruct (Init_init e garbage file line sev SendToLog_ s rl_garbage0) as [Hi Hp].
  rewrite rl_prefix0 in Hp. apply Z.eqb_neq in rl_line0 as E. rewrite E in Hp.
  specialize (Hp eq_refl).
  pose proof (stream_init _ _ _ msg _ Hi) as [].
  destruct (stream_fields msg (Init e garbage file line sev SendToLog_ s).1)
    as (_&_&_&_&_&_&_&_&Hle).
  split_and!; try done; [lia|].
  rewrite line_of_one_line by (done || lia). unfold the_line. f_equal.
  by apply message_text.
Qed.

Lemma usual_quiet s s' : quiet s s' → usual e s → usual e s'.
Proof. intros [] []. split; [done|congruence|congruence|by rewrite quiet_flags0]. Qed.

Lemma opened_quiet room i k s s' : quiet s s' → opened room i k s → opened room i k s'.
Proof.
  intros [Q1 Q2 Q3 Q4 Q5 Q6] (f & n & ?). exists f, n. by rewrite Q4, Q5, Q1.
Qed.

(** What [SendToLog] does with the message, under the lock. *)
Lemma LOG_sends sev s :
  ready_to_log e garbage line sev ks s →
  let d := stream msg (LogMessage e garbage file line sev s).1 in
  let s0 := (LogMessage e garbage file line sev s).2 in
  Flush e d s0 =
    (s2 ← SendToLog e (to_send d) (set_mutex true s0);
     s2 ← WaitForSinks (to_send d) (unlock (count_message (to_send d) s2));
     Returns (set_counts d.(num_prefix_chars_) (num_chars_to_log_ (to_send d))
                (num_chars_to_syslog_ (to_send d)) true d,
              set_errno (if decide (d.(preserved_errno_) ≠ 0) then d.(preserved_errno_)
                         else e.(errno_after)) s2)) ∧
  quiet s (set_mutex true s0) ∧
  IsGoogleLoggingInitialized (shared (set_mutex true s0)) = true.
Proof.
  intros Hr d s0. destruct (LOG_data sev s Hr) as (Hw & Hs & Hm & Hf & Hp & Hl).
  fold d in Hw, Hs, Hm, Hf, Hp, Hl. destruct Hr.
  assert (quiet s s0 ∧ log_mutex s0 = log_mutex s ∧ shared s0 = shared s) as (Hq & Hmx & Hsh).
  { unfold s0, LogMessage.
    destruct (Init_state e garbage file line sev SendToLog_ s) as [->|[_ ->]];
      split_and!; try done; by split. }
  split_and!.
  - rewrite Flush_eq by done. rewrite Hf, Hs, (quiet_flags _ _ Hq).
    destruct (Z.ltb_spec (severity_int sev) (FLAGS_minloglevel (flags s))); [lia|].
    simpl orb. cbv iota. destruct (decide (pcount d = 0%nat)); [lia|].
    unfold lock. rewrite Hmx, rl_mutex0. cbn [mbind Result_bind bind_result]. unfold send.
    destruct (to_send_fields d) as (_ & -> & _). by rewrite Hm.
  - etrans; [exact Hq|apply quiet_mutex].
  - simpl. by rewrite Hsh.
Qed.

(** C28: When the library is initialised, [log_mutex] is free and the sinks are not
    deleted, the severity of the message is not below [FLAGS_minloglevel], prefixes
    are on and the line is not [kNoLogPrefix], no location for a backtrace is set,
    logging goes to files ([FLAGS_logtostderr] is off), the files of its severity
    and of all lower ones are already open, by this process and each its own, with
    30000 bytes left before a maximum of at most 4094 megabytes and no logger of
    the user in their place, and the disk takes what is written, then a message
    that is not fatal returns, and its one line is behind what these files had; no
    other file changes, and the lock is free again. *)
Theorem message_reaches_its_files sev s :
  ready_to_log e garbage line sev ks s → sev ≠ GLOG_FATAL →
  ∃ s', LOG e garbage file line sev msg s = Returns s' ∧
    (∀ i, severity_int i <= severity_int sev →
       ∃ n n', s.(shared).(fs).(inodes) !! ks i = Some n ∧
         s'.(shared).(fs).(inodes) !! ks i = Some n' ∧
         data n' = data n +:+ the_line sev) ∧
    (∀ k, (∀ i, severity_int i <= severity_int sev → ks i ≠ k) →
       s'.(shared).(fs).(inodes) !! k = s.(shared).(fs).(inodes) !! k) ∧
    s'.(log_mutex) = false.
Proof.
  intros Hr Hne. pose proof (LOG_data sev s Hr) as (Hw & Hs & Hm & Hf & Hp & Hl).
  pose proof (LOG_sends sev s Hr) as (Hfl & Hq & Hin). cbv zeta in *.
  destruct Hr. unfold LOG.
  destruct (LogMessage e garbage file line sev s) as [d0 s0]. simpl in *.
  set (d := stream msg d0) in *.
  destruct (to_send_fields d) as (Hsv & _).
  destruct (SendToLog_files e (to_send d) (set_mutex true s0) ks)
    as (s1 & Hs1 & [Ha Ho] & _ & _ & Hsk & _ & _); try done.
  - by rewrite (quiet_flags _ _ Hq).
  - by rewrite (quiet_sinks _ _ Hq).
  - by eapply usual_quiet.
  - rewrite to_send_text by done. by apply line_length.
  - intros i Hi. rewrite Hsv, Hs in Hi. eapply opened_quiet; [done|auto].
  - rewrite Hsv, Hs in Hs1, Ha, Ho. rewrite bool_decide_eq_false_2 in Hs1 by done.
    rewrite Hfl, Hs1. simpl.
    destruct (WaitForSinks_returns (to_send d) (unlock (count_message (to_send d) s1)))
      as (s2 & Hs2 & Hq2 & Hmx).
    { simpl. rewrite Hsk. by rewrite (quiet_sinks _ _ Hq). }
    rewrite Hs2. simpl. rewrite decide_False by done.
    assert (fs (shared s2) = fs (shared s1)) as Hfs by apply (quiet_fs _ _ Hq2).
    assert (fs (shared (set_mutex true s0)) = fs (shared s)) as Hfs0 by apply (quiet_fs _ _ Hq).
    rewrite to_send_text, Hl, Hfs0 in Ha by done. rewrite Hfs0 in Ho.
    eexists. split; [done|]. cbn. rewrite Hfs. split_and!.
    + intros i Hi. destruct (Ha i (proj1 (in_down_from sev i) Hi)) as (n & n' & ? & ? & ? & _). eauto.
    + intros k Hk. apply Ho. intros i Hi. by apply Hk, in_down_from.
    + by rewrite Hmx.
Qed.

(** C29: When the library is initialised and would end the process
    ([exit_on_dfatal]), [log_mutex] is free and the sinks are not deleted,
    [FLAGS_minloglevel] does not suppress fatal messages, prefixes are on and the
    line is not [kNoLogPrefix], no location for a backtrace is set, logging goes to
    files ([FLAGS_logtostderr] is off), the files of all four severities are already
    open, by this process and each its own, with 30000 bytes left before a maximum
    of at most 4094 megabytes and no logger of the user in their place, and the
    disk takes what is written, then a fatal message ends the process and never
    returns; when it ends it, the lock is free, so that the handlers of the signal
    can log, its line is behind what the files of all severities had, and
    everything in them is flushed. *)
Theorem fatal_message_is_flushed s :
  ready_to_log e garbage line GLOG_FATAL ks s → s.(exit_on_dfatal) = true →
  ∃ s', LOG e garbage file line GLOG_FATAL msg s = Aborted s' ∧
    s'.(log_mutex) = false ∧
    (∀ i, ∃ n n', s.(shared).(fs).(inodes) !! ks i = Some n ∧
       s'.(shared).(fs).(inodes) !! ks i = Some n' ∧
       data n' = data n +:+ the_line GLOG_FATAL ∧
       flushed n' = String.length (data n')).
Proof.
  intros Hr Hexit. pose proof (LOG_data _ s Hr) as (Hw & Hs & Hm & Hf & Hp & Hl).
  pose proof (LOG_sends _ s Hr) as (Hfl & Hq & Hin). cbv zeta in *.
  destruct Hr. unfold LOG.
  destruct (LogMessage e garbage file line GLOG_FATAL s) as [d0 s0]. simpl in *.
  set (d := stream msg d0) in *.
  destruct (to_send_fields d) as (Hsv & _).
  pose proof (line_length d Hw) as Hlen.
  destruct (SendToLog_files e (to_send d) (set_mutex true s0) ks)
    as (s1 & Hs1 & [Ha Ho] & Hu1 & Hflg & Hsk & Hex & Hop1); try done.
  - by rewrite (quiet_flags _ _ Hq).
  - by rewrite (quiet_sinks _ _ Hq).
  - by eapply usual_quiet.
  - by rewrite to_send_text.
  - intros i Hi. rewrite Hsv, Hs in Hi. eapply opened_quiet; [done|auto].
  - rewrite Hsv, Hs in Hs1, Ha, Hop1. rewrite bool_decide_eq_true_2 in Hs1 by done.
    rewrite Hex, (quiet_exit _ _ Hq), Hexit in Hs1. cbn [andb] in Hs1. cbv iota zeta in Hs1.
    set (s2 := if first_fatal_ (to_send d) then record_crash (to_send d) s1 else s1) in Hs1.
    assert (quiet s1 s2) as Hq2 by (unfold s2; destruct (first_fatal_ (to_send d)); [apply quiet_crash|reflexivity]).
    rewrite to_send_text, Hl in Hop1, Ha by done. rewrite Hl in Hlen.
    destruct (flush_all_appended e (30000 - Z.of_nat (String.length (the_line GLOG_FATAL)))
      ks severities s2) as (s3 & Hs3 & [Ha3 _] & Hof & _).
    { lia. } { apply severities_NoDup. } { auto. } { by eapply usual_quiet. }
    { intros i _. eapply opened_quiet; [done|]. apply Hop1, in_down_from. destruct i; simpl; lia. }
    rewrite (quiet_flags _ _ Hq2), Hflg, (quiet_flags _ _ Hq), rl_files0 in Hs1.
    cbn [negb] in Hs1. rewrite Hs3 in Hs1. cbn [mbind Result_bind bind_result] in Hs1.
    destruct (WaitForSinks_returns (to_send d) (unlock s3)) as (s4 & Hs4 & Hq4 & Hmx).
    { unfold only_files in Hof. rewrite Hof. simpl.
      by rewrite (quiet_sinks _ _ Hq2), Hsk, (quiet_sinks _ _ Hq). }
    rewrite Hs4 in Hs1. cbn [mbind Result_bind bind_result] in Hs1.
    rewrite Hfl, Hs1. eexists. split; [reflexivity|]. split; [exact Hmx|].
    assert (fs (shared s4) = fs (shared s3)) as Hfs by apply (quiet_fs _ _ Hq4).
    assert (fs (shared (set_mutex true s0)) = fs (shared s)) as Hfs0 by apply (quiet_fs _ _ Hq).
    rewrite Hfs0 in Ha. rewrite (quiet_fs _ _ Hq2) in Ha3.
    intros i. destruct (Ha i) as (n & n1 & Hn & Hn1 & Hd1 & _).
    { apply in_down_from. destruct i; simpl; lia. }
    destruct (Ha3 i (in_severities i)) as (n2 & n' & Hn2 & Hn' & Hd' & Hflushed).
    assert (n2 = n1) as -> by congruence. exists n, n'. simpl. rewrite Hfs.
    split_and!; [done|done| |auto]. rewrite Hd', Hd1. by rewrite string_app_nil_r.
Qed.
End Messages.

(** A message is sent once, and the buffer is afterwards what it was: the newline that
    is put behind the text is taken back. *)
Theorem Flush_once e d s d' s' :
  data_wf d → Flush e d s = Returns (d', s') →
  message_text_ d' = message_text_ d ∧ pcount d' = pcount d ∧
  Flush e d' s' = Returns (d', s').
Proof.
  intros Hw H. pose proof H as H0. rewrite Flush_eq in H by done.
  destruct (_ || _) eqn:E; [by simplify_eq|].
  destruct (decide _); [done|]. destruct (lock s) as [s1| | |]; [|done..]. simpl in H.
  destruct (send _ _ _) as [s2| | |]; [|done..]. simpl in H.
  destruct (WaitForSinks _ _) as [s3| | |]; [|done..]. simpl in H. by simplify_eq.
Qed.

(** Without a prefix, a message of nothing is undefined: the character before the
    buffer is compared with the newline. *)
Theorem empty_message_is_undefined e garbage file line sev s :
  length garbage = S kMaxLogMessageLen →
  s.(flags).(FLAGS_log_prefix) = false → s.(flags).(FLAGS_log_backtrace_at) = "" →
  s.(flags).(FLAGS_minloglevel) <= severity_int sev →
  LOG e garbage file line sev "" s = Undefined.
Proof.
  intros Hg Hp Hb Hlev. unfold LOG, LogMessage, Init.
  destruct (fatal_storage sev s) as [ff s0] eqn:E.
  assert (flags s0 = flags s) as Hfl.
  { unfold fatal_storage in E. by repeat case_match; simplify_eq. }
  rewrite Hfl, Hp, Hb. rewrite (bool_decide_eq_false_2 ("" ≠ "")) by auto.
  cbn [andb]. cbv zeta iota. cbn [stream].
  unfold Flush. cbn [has_been_flushed_ severity_ set_counts pcount orb]. rewrite Hfl.
  destruct (Z.ltb_spec (severity_int sev) (FLAGS_minloglevel (flags s))); [lia|]. done.
Qed.

(** A fatal message below the minimum level still ends the process, but leaves
    nothing: no file, no output, no event. *)
Theorem suppressed_fatal_dies_silently e garbage file line msg s :
  3 < s.(flags).(FLAGS_minloglevel) → length garbage = S kMaxLogMessageLen →
  ∃ s', LOG e garbage file line GLOG_FATAL msg s = Aborted s' ∧
    shared s' = shared s ∧ events s' = events s.
Proof.
  intros Hlev Hg. unfold LOG, LogMessage.
  destruct (Init_init e garbage file line GLOG_FATAL SendToLog_ s Hg) as [Hi _].
  pose proof (Init_state e garbage file line GLOG_FATAL SendToLog_ s) as Hst.
  destruct (Init e garbage file line GLOG_FATAL SendToLog_ s) as [d0 s0]. simpl in *.
  pose proof (stream_init _ _ _ msg _ Hi) as [Hw Hsv _ _ Hf].
  assert (flags s0 = flags s) as Hfl by (by destruct Hst as [->|[_ ->]]).
  rewrite Flush_eq by done. rewrite Hf, Hsv, Hfl. simpl.
  destruct (Z.ltb_spec 3 (FLAGS_minloglevel (flags s))); [|lia]. simpl.
  exists s0. split; [done|]. by destruct Hst as [->|[_ ->]].
Qed.

(** * Sinks *)

(** Moving the last element to the place of [x]. *)
Lemma remove_swap (x : nat) l1 l2 :
  let l := (l1 ++ x :: l2)%list in
  x :: match l !! (length l - 1)%nat with
       | Some last => take (length l - 1) (<[length l1 := last]> l)
       | None => l
       end ≡ₚ l.
Proof.
  cbv zeta. induction l2 as [|z l3 _] using rev_ind.
  - rewrite length_app. simpl. replace (length l1 + 1 - 1)%nat with (length l1) by lia.
    rewrite lookup_app_r, Nat.sub_diag by lia. simpl.
    rewrite insert_app_r_alt, Nat.sub_diag by lia. simpl.
    rewrite take_app_length. by rewrite Permutation_app_comm.
  - replace (length (l1 ++ x :: l3 ++ [z])%list - 1)%nat with (length (l1 ++ x :: l3)%list)
      by (rewrite !length_app; simpl; rewrite length_app; simpl; lia).
    replace (l1 ++ x :: l3 ++ [z])%list with ((l1 ++ x :: l3) ++ [z])%list
      by by rewrite <-app_assoc.
    rewrite lookup_app_r, Nat.sub_diag by lia. simpl.
    rewrite insert_app_l by (rewrite length_app; simpl; lia).
    rewrite insert_app_r_alt, Nat.sub_diag by lia. simpl.
    replace (length (l1 ++ x :: l3)%list) with (length (l1 ++ z :: l3)%list)
      by (rewrite !length_app; done).
    rewrite take_app_length. rewrite <-app_assoc. simpl.
    assert ((l3 ++ [z])%list ≡ₚ z :: l3) as -> by (by rewrite Permutation_app_comm).
    by rewrite <-(Permutation_middle l1 (z :: l3) x).
Qed.

Lemma remove_sink_loop_spec x i l :
  (i <= length l)%nat →
  (x ∈ take i l → x :: remove_sink_loop x i l ≡ₚ l) ∧
  (x ∉ take i l → remove_sink_loop x i l = l).
Proof.
  revert l. induction i as [|i IH]; intros l Hi; simpl; [split; [set_solver|done]|].
  destruct (lookup_lt_is_Some_2 l i) as [y Hy]; [lia|].
  rewrite (take_S_r l i y Hy), elem_of_app, list_elem_of_singleton.
  destruct (decide (l !! i = Some x)) as [E|E].
  - assert (y = x) as -> by congruence. split; [intros _|tauto].
    apply list_elem_of_split_length in E as (l1 & l2 & -> & ->). by apply remove_swap.
  - assert (y ≠ x) as Hyx by congruence.
    destruct (IH l ltac:(lia)) as [H1 H2]. split.
    + intros [?|?]; [auto|congruence].
    + intros H. apply H2. tauto.
Qed.

(** Removing a sink takes away one registration of it and keeps all others; a sink
    that is not registered changes nothing. *)
Theorem RemoveLogSink_removes_one x l s :
  s.(sinks_) = Sinks l →
  ∃ l', RemoveLogSink x s = Returns (set_sinks (Sinks l') s) ∧
    (x ∈ l → x :: l' ≡ₚ l) ∧ (x ∉ l → l' = l).
Proof.
  intros H. unfold RemoveLogSink. rewrite H. eexists. split; [done|].
  pose proof (remove_sink_loop_spec x (length l) l ltac:(done)) as [H1 H2].
  rewrite firstn_all in H1, H2. done.
Qed.

(** After [ShutdownGoogleLogging] the pointer to the sinks dangles: if a sink had ever
    been added, the next message that is not suppressed is undefined. *)
Theorem message_after_shutdown_is_undefined e garbage file line sev msg s s' l :
  s.(sinks_) = Sinks l → ShutdownGoogleLogging e garbage s = Returns s' →
  IsGoogleLoggingInitialized s.(shared) = true →
  length garbage = S kMaxLogMessageLen → s'.(log_mutex) = false →
  s'.(flags).(FLAGS_log_prefix) = true → line ≠ kNoLogPrefix →
  s'.(flags).(FLAGS_minloglevel) <= severity_int sev →
  LOG e garbage file line sev msg s' = Undefined.
Proof.
  intros Hs Hsh Hin Hg Hmx Hp Hl Hlev.
  assert (s'.(sinks_) = DeletedSinks ∧ IsGoogleLoggingInitialized s'.(shared) = false) as [Hdel Hni].
  { unfold ShutdownGoogleLogging in Hsh. rewrite Hin in Hsh. cbn [mbind Result_bind bind_result] in Hsh.
    unfold DeleteLogDestinations in Hsh. cbv zeta in Hsh.
    match type of Hsh with context [foldl ?f ?a0 severities] =>
      assert (∀ ls a, sinks_ (foldl f a ls) = sinks_ a ∧
        g_program_invocation_short_name (shared (foldl f a ls))
        = g_program_invocation_short_name (shared a)) as Hfold end.
    { intros ls. induction ls as [|i ls IH]; intros a; [done|]. simpl. rewrite !(proj1 (IH _)), !(proj2 (IH _)).
      destruct (log_destinations_ a !! severity_nat i) as [[d|]|]; [|done|done].
      split; [done|]. simpl. unfold delete_LogFileObject, close_file.
      by destruct (file_ (fileobject_ d)). }
    match type of Hsh with context [foldl ?f ?a severities] =>
      destruct (Hfold severities a) as [F1 F2]; set (b := foldl f a severities) in *; clearbody b
    end.
    simpl in F1, F2. rewrite F1, Hs in Hsh. simpl in Hsh. simplify_eq. split; [done|].
    unfold IsGoogleLoggingInitialized. simpl. by rewrite F2. }
  unfold LOG, LogMessage.
  destruct (Init_init e garbage file line sev SendToLog_ s' Hg) as [Hi Hpos].
  rewrite Hp in Hpos. apply Z.eqb_neq in Hl. rewrite Hl in Hpos. specialize (Hpos eq_refl).
  assert (quiet s' (Init e garbage file line sev SendToLog_ s').2 ∧
    shared (Init e garbage file line sev SendToLog_ s').2 = shared s' ∧
    log_mutex (Init e garbage file line sev SendToLog_ s').2 = log_mutex s') as (Hq & Hshr & Hmx').
  { destruct (Init_state e garbage file line sev SendToLog_ s') as [->|[_ ->]];
      split_and!; try done; by split. }
  destruct (Init e garbage file line sev SendToLog_ s') as [d0 s0]. simpl in *.
  pose proof (stream_init _ _ _ msg _ Hi) as [Hw Hsv Hm _ Hf].
  destruct (stream_fields msg d0) as (_&_&_&_&_&_&_&_&Hle).
  rewrite Flush_eq by done. rewrite Hf, Hsv, (quiet_flags _ _ Hq).
  destruct (Z.ltb_spec (severity_int sev) (FLAGS_minloglevel (flags s'))); [lia|]. simpl orb. cbv iota.
  destruct (decide (pcount (stream msg d0) = 0%nat)); [lia|]. unfold lock. rewrite Hmx', Hmx.
  cbn [mbind Result_bind bind_result]. unfold send.
  destruct (to_send_fields (stream msg d0)) as (_ & -> & _). rewrite Hm.
  unfold SendToLog. cbv zeta.
  set (s1 := warn_before_init (set_mutex true s0)).
  assert (sinks_ s1 = DeletedSinks ∧ IsGoogleLoggingInitialized (shared s1) = false) as [Hd1 Hi1].
  { unfold s1, warn_before_init. rewrite <-Hshr in Hni.
    destruct (_ && _); simpl; rewrite (quiet_sinks _ _ Hq); done. }
  rewrite Hi1, orb_true_r. unfold LogToSinks.
  rewrite (quiet_sinks _ _ (quiet_stderr e _ _ s1)), Hd1. done.
Qed.

(** * Examples *)

Module Example_logging.

Definition env (pid : Z) : Env :=
  mkEnv (Example_log.os 5 pid) true true 42 0 5 "" (λ _, InBuffer "error") 0.

Definition garbage : list ascii := replicate (S kMaxLogMessageLen) " "%char.

Lemma garbage_length : length garbage = S kMaxLogMessageLen.
Proof. apply length_replicate. Qed.

(** All four files open, each with one byte. *)
Definition file (i : LogSeverity) : LogFileObject :=
  mkLogFile true "/tmp/raft." "" "" (Some (severity_nat i)) i 1 1 0 100.
Definition four_files : gmap nat Inode :=
  {[0%nat := mkInode "I" 0; 1%nat := mkInode "W" 0; 2%nat := mkInode "E" 0;
    3%nat := mkInode "F" 0]}.
Definition log_flags : LogFlags :=
  mkLogFlags Example_log.flags false false false 2 "" true 0 0 999 "/bin/mail" "".
Definition state : Log :=
  mkLog log_flags (mkShared (mkFs ∅ four_files 4) false 7 "" None (Some "raft") "me" "")
    ((λ i, Some (mkDestination (file i) None)) <$> severities)
    (Sinks [10%nat; 11%nat]) 99999 "" [0; 0; 0; 0] false true false true None "" 0 0 [].

Lemma state_ready sev : ready_to_log (env 7) garbage 12 sev severity_nat state.
Proof.
  split; try done.
  - by destruct sev.
  - intros i j. apply severity_nat_inj.
  - intros i _. exists (file i). destruct i; eexists; split_and!; try reflexivity; try done.
Qed.

Lemma message_reaches_its_files_witness :
  ∃ s', LOG (env 7) garbage "raft.cpp" 12 GLOG_WARNING "hello" state = Returns s' ∧
    ∃ n n', inodes (fs (shared state)) !! 1%nat = Some n ∧
      inodes (fs (shared s')) !! 1%nat = Some n' ∧
      data n' = data n +:+ the_line (env 7) "raft.cpp" 12 "hello" GLOG_WARNING.
Proof.
  destruct (message_reaches_its_files (env 7) garbage "raft.cpp" 12 "hello" severity_nat
    GLOG_WARNING state (state_ready GLOG_WARNING) ltac:(discriminate)) as (s' & H & H1 & _).
  exists s'. split; [exact H|]. exact (H1 GLOG_WARNING ltac:(simpl; lia)).
Defined.

Lemma fatal_message_is_flushed_witness :
  ∃ s', LOG (env 7) garbage "raft.cpp" 12 GLOG_FATAL "bye" state = Aborted s' ∧
    log_mutex s' = false.
Proof.
  destruct (fatal_message_is_flushed (env 7) garbage "raft.cpp" 12 "bye" severity_nat
    state (state_ready GLOG_FATAL) eq_refl) as (s' & H & H1 & _).
  exists s'. split; [exact H|exact H1].
Defined.

(** The process was forked: the first file to be written, that of the message's
    severity, is made anew; the files below it are not, so that the child writes into
    the files of its parent. *)
Theorem forked_child_writes_to_parents_file :
  match LogToAllLogfiles (env 8) GLOG_WARNING 5 "child" state with
  | Returns s =>
      (data <$> s.(shared).(fs).(inodes) !! 1%nat) = Some "W" ∧
      (data <$> s.(shared).(fs).(inodes) !! 0%nat) = Some "Ichild"
  | _ => False
  end.
Proof. vm_compute. split; reflexivity. Qed.
End Example_logging.
