(* ===== verification/LogTools.v ===== *)
(** The rest of glog's messages: [TruncateLogFile] and the texts of failed checks of
    [src/lib/glog/src/logging.cc], and [RawLog__] of [raw_logging.cc]. *)

From S2P Require Import Prelude Strings LogFile Logging.
From stdpp Require Import base list strings.
From Stdlib Require Import ZArith Lia Ascii.

Open Scope Z_scope.

(** Bytes over what is in a buffer or file from [pos] on. *)
Definition write_at {A} (l : list A) (pos : nat) (x : list A) : list A :=
  take pos l ++ x ++ drop (pos + length x) l.

(** * Keeping the end of a file *)

Inductive OpenResult := Opened | TooBig | CannotOpen.

(** What the system answers: how many of the bytes that are there the [n]-th [pread]
    returns (at least one), whether it fails, and how many the [n]-th [pwrite] takes,
    [None] being a failure. *)
Record FileSys := mkFileSys {
  open_result : OpenResult;
  truncate_ok : bool;
  fstat_ok : bool;
  is_regular : bool;
  pread_fails : nat → bool;
  pread_count : nat → nat;
  pwrite_count : nat → nat → option nat;
  ftruncate_ok : bool
}.

Definition kCopyBlockSize : nat := 2 ^ 13.

(** The bytes [pread] delivers from [offset] on. *)
Definition pread (w : FileSys) (step : nat) (file : list ascii) (offset : nat) : list ascii :=
  take (Nat.max 1 (Nat.min kCopyBlockSize (w.(pread_count) step))) (drop offset file).

Fixpoint copy_loop (w : FileSys) (fuel step : nat) (read_offset write_offset : nat)
    (file : list ascii) : list ascii * nat :=
  match fuel with
  | O => (file, write_offset)
  | S fuel =>
      if w.(pread_fails) step then (file, write_offset)
      else
        let copybuf := pread w step file read_offset in
        let bytesin := length copybuf in
        if decide (bytesin = 0%nat) then (file, write_offset)
        else
          match w.(pwrite_count) step bytesin with
          | None => (file, write_offset)
          | Some k =>
              let bytesout := Nat.min k bytesin in
              copy_loop w fuel (S step) (read_offset + bytesin) (write_offset + bytesout)
                (write_at file write_offset (take bytesout copybuf))
          end
  end.

(** What becomes of the file.  An offset behind the end, for a negative [keep], reads
    nothing. *)
Definition TruncateLogFile (w : FileSys) (limit keep : Z) (file : list ascii) : list ascii :=
  let st_size := Z.of_nat (length file) in
  match w.(open_result) with
  | CannotOpen => file
  | TooBig => if w.(truncate_ok) then [] else file
  | Opened =>
      if negb w.(fstat_ok) || negb w.(is_regular) then file
      else if (st_size <=? limit) || (st_size <=? keep) then file
      else
        let '(file, write_offset) :=
          copy_loop w (S (length file)) 0 (Z.to_nat (st_size - keep)) 0 file in
        if w.(ftruncate_ok) then take write_offset file else file
  end.

(** [TruncateStdoutStderr]: [MaxLogSize() << 20] is a shift of an [int], undefined when
    it overflows. *)
Definition stdout_limit (fl : Flags) : option Z :=
  let limit := MaxLogSize fl * 1048576 in
  if decide (is_i32 limit) then Some limit else None.

Definition TruncateStdoutStderr (w1 w2 : FileSys) (fl : Flags) (out err : list ascii)
    : option (list ascii * list ascii) :=
  limit ← stdout_limit fl;
  Some (TruncateLogFile w1 limit 1048576 out, TruncateLogFile w2 limit 1048576 err).

(** * Texts of failed checks *)

(** The four [CHECK_STR] functions: [func] is [strcmp] or [strcasecmp], as a test for
    equality; a null pointer is [None], equal to itself only. *)
Definition CheckStrop (name : string) (func : string → string → bool) (expected : bool)
    (s1 s2 : option string) (names : string) : option string :=
  let equal :=
    match s1, s2 with
    | None, None => true
    | Some a, Some b => func a b
    | _, _ => false
    end in
  if Bool.eqb equal expected then None
  else Some (name +:+ " failed: " +:+ names +:+ " (" +:+ default "" s1 +:+ " vs. "
               +:+ default "" s2 +:+ ")")%string.

(** [MakeCheckOpValueString] for the three character types. *)
Definition check_char (kind : string) (v : Z) : string :=
  if (32 <=? v) && (v <=? 126) then
    ("'" +:+ String (ascii_of_N (Z.to_N v)) "" +:+ "'")%string
  else (kind +:+ " value " +:+ to_string v)%string.

(** [CheckOpMessageBuilder]: the expression, the values and a parenthesis. *)
Definition MakeCheckOpString (exprtext v1 v2 : string) : string :=
  (exprtext +:+ " (" +:+ v1 +:+ " vs. " +:+ v2 +:+ ")")%string.

(** * Raw messages *)

Definition NUL : ascii := "000".

Definition cchars (s : string) : list ascii := String.list_ascii_of_string s.

(** The text up to the first null character. *)
Fixpoint cstring (l : list ascii) : list ascii :=
  match l with
  | [] => []
  | c :: l => if decide (c = NUL) then [] else c :: cstring l
  end.

(** [vsnprintf(buf, size, ...)], for the text the format produces. *)
Definition vsnprintf (buffer : list ascii) (pos size : nat) (s : list ascii) : list ascii :=
  match size with
  | O => buffer
  | S room => write_at buffer pos (take room s ++ [NUL])
  end.

(** [DoRawLog] and [VADoRawLog]: the buffer, the position behind what was written and
    the room left; [None] is an encoding error. *)
Definition DoRawLog (buffer : list ascii) (pos size : nat) (s : option (list ascii))
    : bool * list ascii * nat * nat :=
  match s with
  | None => (false, buffer, pos, size)
  | Some s =>
      let buffer := vsnprintf buffer pos size s in
      if (size <? length s)%nat then (false, buffer, pos, size)
      else (true, buffer, pos + length s, size - length s)%nat
  end.

Definition kLogBufSize : nat := 3000.

Definition raw_too_long : list ascii :=
  cchars ("RAW_LOG ERROR: The Message was too long!" +:+ newline)%string.

Definition raw_suppressed (fl : LogFlags) (g : Shared) (severity : LogSeverity) : bool :=
  negb (fl.(FLAGS_logtostderr) || (fl.(FLAGS_stderrthreshold) <=? severity_int severity)
          || fl.(FLAGS_alsologtostderr) || negb (IsGoogleLoggingInitialized g)).

Definition raw_prefix (t : Tm) (usecs tid : Z) (severity : LogSeverity) (file : string)
    (line : Z) : list ascii :=
  cchars (String.substring 0 1 (LogSeverityNames severity) +:+ two (1 + t.(tm_mon))
    +:+ two t.(tm_mday) +:+ " " +:+ two t.(tm_hour) +:+ ":" +:+ two t.(tm_min) +:+ ":"
    +:+ two t.(tm_sec) +:+ "." +:+ setw "0" 6 (to_string usecs) +:+ " "
    +:+ setw " " 5 (to_string (u32 tid)) +:+ " " +:+ const_basename file +:+ ":"
    +:+ to_string line +:+ "] RAW: ")%string.

(** The buffer of [RawLog__] when it is written out. *)
Definition raw_buffer (buffer prefix : list ascii) (message : option (list ascii))
    : list ascii :=
  let '(_, buffer, buf, size) := DoRawLog buffer 0 kLogBufSize (Some prefix) in
  let '(no_chop, buffer, buf, size) := DoRawLog buffer buf size message in
  let '(_, buffer, _, _) :=
    if no_chop : bool then DoRawLog buffer buf size (Some (cchars newline))
    else DoRawLog buffer buf size (Some raw_too_long) in
  buffer.

(** What [RawLog__] writes to standard error, and whether it ends the process. *)
Definition RawLog (fl : LogFlags) (g : Shared) (severity : LogSeverity)
    (buffer prefix : list ascii) (message : option (list ascii)) : list ascii * bool :=
  if raw_suppressed fl g severity then ([], false)
  else (cstring (raw_buffer buffer prefix message), bool_decide (severity = GLOG_FATAL)).

(** * Properties of [TruncateLogFile] *)

Lemma write_at_length {A} (l : list A) pos x :
  (pos + length x <= length l)%nat → length (write_at l pos x) = length l.
Proof. intros. unfold write_at. rewrite !length_app, length_take, length_drop. lia. Qed.

(** No call fails and every write takes everything; reads may be short. *)
Record no_errors (w : FileSys) : Prop := {
  ne_open : w.(open_result) = Opened;
  ne_stat : w.(fstat_ok) = true;
  ne_reg : w.(is_regular) = true;
  ne_read n : w.(pread_fails) n = false;
  ne_write n k : w.(pwrite_count) n k = Some k;
  ne_trunc : w.(ftruncate_ok) = true
}.

(** The loop, part of the way: [n] bytes from [r] on have been copied to the front. *)
Lemma copy_loop_copies w orig r n fuel step :
  no_errors w → (0 < r)%nat → (r + n <= length orig)%nat →
  (length orig - r - n < fuel)%nat →
  let file := (take n (drop r orig) ++ drop n orig) in
  ∃ rest, copy_loop w fuel step (r + n) n file =
    (drop r orig ++ rest, length orig - r)%nat.
Proof.
  intros Hw Hr. revert n step. induction fuel as [|fuel IH]; intros n step Hn Hf; [lia|].
  cbv zeta. cbn [copy_loop]. rewrite (ne_read w Hw).
  assert (∀ k, drop (r + n + k) (take n (drop r orig) ++ drop n orig) = drop (r + n + k) orig) as Hd.
  { intros k. rewrite drop_app_ge; rewrite length_take, length_drop; [|lia].
    rewrite drop_drop. f_equal. lia. }
  unfold pread. pose proof (Hd 0%nat) as Hd0. rewrite Nat.add_0_r in Hd0. rewrite Hd0.
  set (c := Nat.max 1 _). assert (1 <= c)%nat by lia.
  set (buf := take c (drop (r + n) orig)).
  assert (length buf = Nat.min c (length orig - (r + n))) as Hbuf
    by (unfold buf; rewrite length_take, length_drop; done).
  destruct (decide (length buf = 0%nat)) as [E|E].
  - assert (r + n = length orig)%nat by lia. exists (drop n orig).
    rewrite (take_ge (drop r orig)) by (rewrite length_drop; lia). f_equal. lia.
  - rewrite (ne_write w Hw), Nat.min_id, firstn_all.
    replace (r + n + length buf)%nat with (r + (n + length buf))%nat by lia.
    assert (write_at (take n (drop r orig) ++ drop n orig) n buf
      = take (n + length buf) (drop r orig) ++ drop (n + length buf) orig) as ->.
    { unfold write_at.
      rewrite take_app_length' by (rewrite length_take, length_drop; lia).
      rewrite drop_app_ge by (rewrite length_take, length_drop; lia).
      rewrite length_take, length_drop, drop_drop, app_assoc. f_equal; [|f_equal; lia].
      assert (buf = take (length buf) (drop n (drop r orig))) as ->.
      { unfold buf. rewrite drop_drop, length_take, length_drop.
        destruct (decide (c <= length orig - (r + n))%nat).
        - by rewrite Nat.min_l by lia.
        - rewrite Nat.min_r by lia. rewrite !take_ge; [done|rewrite length_drop; lia..]. }
      rewrite take_take_drop. f_equal. rewrite length_take, !length_drop. lia. }
    destruct (IH (n + length buf)%nat (S step)) as (rest & ->); [lia|lia|].
    by exists rest.
Qed.

(** [TruncateLogFile] keeps exactly the last [keep] bytes of a file that is longer than
    the limit, however short the reads are, and leaves any other file alone. *)
Theorem TruncateLogFile_keeps_the_end w limit keep file :
  no_errors w → 0 <= keep →
  TruncateLogFile w limit keep file =
  if (Z.of_nat (length file) <=? limit) || (Z.of_nat (length file) <=? keep) then file
  else drop (length file - Z.to_nat keep) file.
Proof.
  intros Hw Hk. pose proof Hw as []. unfold TruncateLogFile. cbv zeta.
  rewrite ne_open0, ne_stat0, ne_reg0. cbn [negb orb].
  destruct (_ || _) eqn:E; [done|]. apply orb_false_iff in E as [_ E].
  apply Z.leb_gt in E. set (r := Z.to_nat (Z.of_nat (length file) - keep)).
  destruct (copy_loop_copies w file r 0 (S (length file)) 0 Hw) as (rest & Hc);
    [unfold r; lia|unfold r; lia|lia|].
  rewrite Nat.add_0_r, take_0, drop_0, app_nil_l in Hc.
  rewrite Hc, ne_trunc0.
  rewrite take_app_length' by (rewrite length_drop; lia). f_equal. unfold r. lia.
Qed.

(** The limit for standard output overflows its type from 2048 megabytes on. *)
Theorem stdout_limit_overflows fl :
  stdout_limit fl = None ↔ 2048 <= fl.(FLAGS_max_log_size).
Proof.
  unfold stdout_limit, MaxLogSize. destruct (0 <? FLAGS_max_log_size fl) eqn:E;
    case_decide as D; unfold is_i32, I32_MAX in D; split; intros; (done || lia).
Qed.

Module Example_truncate.
Definition sys : FileSys :=
  mkFileSys Opened true true true (λ _, false) (λ n, if decide (n = 0%nat) then 1 else 5)%nat
    (λ _ k, Some k) true.
Lemma TruncateLogFile_keeps_the_end_witness :
  TruncateLogFile sys 4 3 (cchars "abcdefgh") = cchars "fgh".
Proof.
  rewrite (TruncateLogFile_keeps_the_end sys 4 3 (cchars "abcdefgh")); [reflexivity|by split|lia].
Defined.
End Example_truncate.

(** * Properties of raw messages *)

#[local] Opaque kLogBufSize.

Lemma cstring_app l r : NUL ∉ l → cstring (l ++ r) = l ++ cstring r.
Proof.
  induction l as [|c l IH]; intros H; simpl; [done|].
  apply not_elem_of_cons in H as [Hc H]. rewrite decide_False by done. by rewrite IH.
Qed.

Lemma cstring_nul l r : NUL ∉ l → cstring (l ++ NUL :: r) = l.
Proof. intros H. rewrite cstring_app by done. simpl. by rewrite app_nil_r. Qed.

(** Writing behind [a], which begins the buffer: [a] stays, and the string ends where
    the room ends. *)
Lemma vsnprintf_behind a buffer size s :
  (0 < size)%nat →
  ∃ r, vsnprintf (a ++ buffer) (length a) size s = a ++ take (size - 1) s ++ NUL :: r.
Proof.
  intros Hs. destruct size as [|room]; [lia|]. unfold vsnprintf, write_at.
  rewrite take_app_length. eexists. rewrite <-app_assoc. simpl. by rewrite Nat.sub_0_r.
Qed.

Lemma elem_of_take_nul n (l : list ascii) : NUL ∉ l → NUL ∉ take n l.
Proof. intros H Hin. apply H. by eapply list.elem_of_take in Hin as (i & ? & ?); eapply list_elem_of_lookup_2. Qed.

Lemma newline_chars : cchars newline = [ascii_of_N 10].
Proof. done. Qed.

(** What a raw message leaves on standard error, by the room the buffer has behind the
    prefix: the whole line; without its newline when there is no room for it; without
    its last character, and no complaint, when it fills the room exactly; and only the
    complaint when it is longer. *)
Theorem raw_message_written buffer prefix text :
  NUL ∉ prefix → NUL ∉ text → (length prefix < kLogBufSize)%nat →
  let room := (kLogBufSize - length prefix)%nat in
  cstring (raw_buffer buffer prefix (Some text)) =
  if decide (length text + 1 < room)%nat then prefix ++ text ++ [ascii_of_N 10]
  else if decide (length text < room)%nat then prefix ++ text
  else if decide (length text = room) then prefix ++ take (room - 1) text
  else prefix ++ take (room - 1) raw_too_long.
Proof.
  intros Hp Ht Hlen room. unfold raw_buffer.
  assert (∃ b1, DoRawLog buffer 0 kLogBufSize (Some prefix) =
    (true, prefix ++ NUL :: b1, length prefix, room)) as (b1 & ->).
  { unfold DoRawLog. destruct (vsnprintf_behind [] buffer kLogBufSize prefix) as (r & Hr);
      [lia|]. cbn [app length] in Hr. rewrite Hr.
    destruct (Nat.ltb_spec kLogBufSize (length prefix)); [lia|].
    rewrite take_ge by lia. eexists. done. }
  cbv iota beta zeta. unfold DoRawLog at 1.
  destruct (vsnprintf_behind prefix (NUL :: b1) room text) as (r & Hr); [unfold room; lia|].
  rewrite Hr. destruct (Nat.ltb_spec room (length text)) as [Hlong|Hfits].
  - rewrite !decide_False by lia. unfold DoRawLog.
    destruct (vsnprintf_behind prefix (take (room - 1) text ++ NUL :: r) room raw_too_long)
      as (r' & Hr'); [unfold room; lia|]. rewrite Hr'.
    assert (cstring (prefix ++ take (room - 1) raw_too_long ++ NUL :: r') =
            prefix ++ take (room - 1) raw_too_long) as E.
    { rewrite cstring_app by done. f_equal. apply cstring_nul, elem_of_take_nul.
      by apply (bool_decide_unpack _). }
    by destruct (_ <? _)%nat.
  - unfold DoRawLog. destruct (decide (length text = room)) as [E|Hne].
    + rewrite !(decide_False (P := (_ < _)%nat)) by lia.
      replace (room - length text)%nat with 0%nat by lia. cbn [vsnprintf].
      assert (cstring (prefix ++ take (room - 1) text ++ NUL :: r)
              = prefix ++ take (room - 1) text) as Ec.
      { rewrite cstring_app by done. f_equal. by apply cstring_nul, elem_of_take_nul. }
      by destruct (_ <? _)%nat.
    + rewrite (take_ge text) by lia. rewrite newline_chars.
      destruct (vsnprintf_behind (prefix ++ text) (NUL :: r) (room - length text)
        [ascii_of_N 10]) as (r' & Hr'); [lia|].
      rewrite length_app, <-!app_assoc in Hr'. rewrite Hr'.
      case_decide as D1.
      * rewrite (take_ge [_]) by (simpl; lia).
        assert (cstring (prefix ++ text ++ [ascii_of_N 10] ++ NUL :: r')
                = prefix ++ text ++ [ascii_of_N 10]) as Ec.
        { rewrite !cstring_app by done. done. }
        by destruct (_ <? _)%nat.
      * rewrite decide_True by lia. replace (room - length text - 1)%nat with 0%nat by lia.
        assert (cstring (prefix ++ text ++ take 0 [ascii_of_N 10] ++ NUL :: r')
                = prefix ++ text) as Ec.
        { rewrite cstring_app by done. change (take 0 [ascii_of_N 10] ++ NUL :: r') with (NUL :: r').
          by rewrite cstring_nul. }
        by destruct (_ <? _)%nat.
Qed.

(** A failed comparison of strings has a text, a passed one has none; a null pointer
    equals a null pointer only. *)
Theorem CheckStrop_fails_iff name func expected s1 s2 names :
  CheckStrop name func expected s1 s2 names = None ↔
  (match s1, s2 with
   | None, None => true
   | Some a, Some b => func a b
   | _, _ => false
   end) = expected.
Proof.
  unfold CheckStrop. cbv zeta. destruct (Bool.eqb _ _) eqn:E.
  - by rewrite eqb_true_iff in E.
  - rewrite eqb_false_iff in E. done.
Qed.
