(* ===== verification/Signal.v ===== *)
(** The failure signal handler of glog ([src/lib/glog/src/signalhandler.cc]):
    the formatter that needs no [printf], the lines of a report, and the
    handler itself, in a process whose threads take its steps in any order and
    may take further signals at any of them.

    The lines end up in the failure writer; the logs, which the handler flushes
    before it ends the process, are those of [Logging]; time, identifiers, the
    addresses of the stack trace and the state of the symbolizer are arguments. *)

From S2P Require Import Prelude LogFile Logging.
From S2P Require Import Demangle Symbolize.
From stdpp Require Import base list strings gmap.
From Stdlib Require Import ZArith Ascii.

Open Scope list_scope.
Open Scope Z_scope.

(** * [class MinimalFormatter] *)

(** [end_] is the length of [buffer_]. *)
Record MinimalFormatter := mkFormatter { buffer_ : list ascii; cursor_ : nat }.

Definition new_formatter (buffer : list ascii) : MinimalFormatter := mkFormatter buffer 0.
Definition num_bytes_written (f : MinimalFormatter) : nat := f.(cursor_).

(** The text a writer gets. *)
Definition written (f : MinimalFormatter) : list ascii := take (num_bytes_written f) f.(buffer_).

Fixpoint AppendString (str : list ascii) (f : MinimalFormatter) : MinimalFormatter :=
  match str with
  | [] => f
  | c :: str =>
      if (f.(cursor_) <? length f.(buffer_))%nat
      then AppendString str (mkFormatter (<[f.(cursor_) := c]> f.(buffer_)) (S f.(cursor_)))
      else f
  end.

Definition radix_char (tmp : Z) : ascii :=
  ascii_of_N (Z.to_N (if tmp <? 10 then 48 + tmp else 97 + tmp - 10)).

(** The loop of [AppendUint64]: the digits, lowest first, into the [space]
    left of the buffer at [i]. *)
Fixpoint digits_loop (space : nat) (buffer : list ascii) (i : nat) (number radix : Z)
    : list ascii * nat :=
  match space with
  | O => (buffer, i)
  | S space =>
      let tmp := number mod radix in
      let number := number / radix in
      let buffer := <[i := radix_char tmp]> buffer in
      if number =? 0 then (buffer, S i) else digits_loop space buffer (S i) number radix
  end.

Definition AppendUint64 (number radix : Z) (f : MinimalFormatter) : MinimalFormatter :=
  let '(buffer, i) :=
    digits_loop (length f.(buffer_) - f.(cursor_)) f.(buffer_) f.(cursor_) number radix in
  mkFormatter (overwrite f.(cursor_) (reverse (slice f.(cursor_) i buffer)) buffer) i.

(** [AppendHexWithPadding]; [None] is a write behind the buffer.  The ranges of
    its [std::copy] may overlap; the copy moves the bytes. *)
Definition AppendHexWithPadding (number : Z) (width : nat) (f : MinimalFormatter)
    : option MinimalFormatter :=
  let start := f.(cursor_) in
  let f := AppendUint64 number 16 (AppendString (bytes "0x") f) in
  if (f.(cursor_) <? start + width)%nat then
    let delta := (start + width - f.(cursor_))%nat in
    if (start + width <=? length f.(buffer_))%nat then
      let moved := overwrite (start + delta) (slice start f.(cursor_) f.(buffer_)) f.(buffer_) in
      Some (mkFormatter (overwrite start (repeat " "%char delta) moved) (start + width))
    else None
  else Some f.

(** * The lines *)

Definition SIGILL : Z := 4.
Definition SIGABRT : Z := 6.
Definition SIGBUS : Z := 7.
Definition SIGFPE : Z := 8.
Definition SIGSEGV : Z := 11.
Definition SIGTERM : Z := 15.

Definition kFailureSignals : list (Z * list ascii) :=
  [(SIGSEGV, bytes "SIGSEGV"); (SIGILL, bytes "SIGILL"); (SIGFPE, bytes "SIGFPE");
   (SIGABRT, bytes "SIGABRT"); (SIGBUS, bytes "SIGBUS"); (SIGTERM, bytes "SIGTERM")].

(** What a handler is given and asks the system for: [siginfo], the program
    counter in [ucontext] if there is one, the time, the process, the
    addresses of [GetStackTrace], and whether the signal came while some thread
    was inside the code of the logs, so that their structures may be half
    changed and their locks held. *)
Record Context := mkContext {
  si_addr : Z; si_pid : Z;
  ucontext : option Z;
  now : Z; pid : Z;
  stack_trace : list Z;
  inside_logging : bool
}.

Definition GetPC (c : Context) : Z := default 0 c.(ucontext).

Definition quote : list ascii := ["034"%char].

Definition DumpTimeInfo (stack : list ascii) (time_in_sec : Z) : list ascii :=
  let f := new_formatter (take 256 stack) in
  let f := AppendString (bytes "*** Aborted at ") f in
  let f := AppendUint64 time_in_sec 10 f in
  let f := AppendString (bytes " (unix time)") f in
  let f := AppendString (bytes " try " ++ quote ++ bytes "date -d @") f in
  let f := AppendUint64 time_in_sec 10 f in
  let f := AppendString (quote ++ bytes " if you are using GNU date ***" ++ [LF]) f in
  written f.

(** The loop over [kFailureSignals], whose last match counts. *)
Definition signal_name (signal_number : Z) : option (list ascii) :=
  foldl (λ name s, if signal_number =? fst s then Some (snd s) else name) None kFailureSignals.

Definition DumpSignalInfo (stack : list ascii) (signal_number thread : Z) (c : Context) : list ascii :=
  let f := new_formatter (take 256 stack) in
  let f := AppendString (bytes "*** ") f in
  let f := match signal_name signal_number with
           | Some name => AppendString name f
           | None => AppendUint64 (u64 signal_number) 10 (AppendString (bytes "Signal ") f)
           end in
  let f := AppendString (bytes " (@0x") f in
  let f := AppendUint64 c.(si_addr) 16 f in
  let f := AppendString (bytes ")") f in
  let f := AppendString (bytes " received by PID ") f in
  let f := AppendUint64 (u64 c.(pid)) 10 f in
  let f := AppendString (bytes " (TID 0x") f in
  let f := AppendUint64 thread 16 f in
  let f := AppendString (bytes ") ") f in
  let f := AppendString (bytes "from PID ") f in
  let f := AppendUint64 (u64 c.(si_pid)) 10 f in
  let f := AppendString (bytes "; ") f in
  let f := AppendString (bytes "stack trace: ***" ++ [LF]) f in
  written f.

Section Report.
(** [Symbolize] as the process is: the bytes of ELF structures, the files, the
    turns a loop may take. *)
Variable as_Ehdr : list ascii → Ehdr.
Variable as_Shdr : list ascii → Shdr.
Variable as_Sym : list ascii → Sym.
Variable open : list ascii → option Fd.
Variable fuel : nat.
(** What the system answers to the flush of the log files. *)
Variable e : Env.
(** What the stack holds where a buffer comes to lie. *)
Variable stack : list ascii.

Definition DumpStackFrameInfo (prefix : list ascii) (pc : Z) : Outcome (list ascii) :=
  Symbolize as_Ehdr as_Shdr as_Sym fuel open stack (u64 (pc - 1)) (take 1024 stack)
    >>! λ '(symbolized, b),
  let symbol := if b : bool then take (strlen symbolized) symbolized else bytes "(unknown)" in
  let f := new_formatter (take 1024 stack) in
  let f := AppendString prefix f in
  let f := AppendString (bytes "@ ") f in
  match AppendHexWithPadding pc 18 f with
  | None => OutOfBounds
  | Some f =>
      let f := AppendString (bytes " ") f in
      let f := AppendString symbol f in
      let f := AppendString [LF] f in
      Val (written f)
  end.

(** What [FailureSignalHandler] hands to the writer, call by call. *)
Definition report (signal_number thread : Z) (c : Context) : list (Outcome (list ascii)) :=
  [Val (DumpTimeInfo stack (u64 c.(now))); DumpStackFrameInfo (bytes "PC: ") (GetPC c);
   Val (DumpSignalInfo stack signal_number thread c)]
  ++ (DumpStackFrameInfo (bytes "    ") <$> take 32 c.(stack_trace)).

(** * The handler *)

(** Where a call of [FailureSignalHandler] is: at the exchange; at the
    comparison, where it was not the first; writing, after so many calls of
    the writer; at [FlushLogFilesUnsafe]; at [sigaction] and at [kill] of [InvokeDefaultSignalHandler], as
    one that came in again or not; in the endless loop; at its end. *)
Inductive Phase :=
  | Entering | Comparing | Dumping (k : nat) | Flushing
  | Defaulting (again : bool) | Raising (again : bool)
  | Sleeping | Returning.

(** A call, with what it reports. *)
Record Call := mkCall { signal_number : Z; context : Context; phase : Phase }.

(** The process: of each thread the calls that are active, the innermost
    first; the signals that have the handler; those that are pending;
    [g_entered_thread_id_pointer], the thread whose identifier it points to;
    [g_failure_writer] and what writers got; the state of the logs. *)
Record Process := mkProcess {
  calls : gmap Z (list Call);
  handled : gset Z;
  pending : gset Z;
  g_entered_thread_id_pointer : option Z;
  g_failure_writer : Z;
  output : list (Z * list ascii);
  logs : Log;
  alive : bool
}.

Definition WriteToStderr : Z := 2.

Definition started (threads : list Z) (l : Log) : Process :=
  mkProcess (list_to_map ((λ t, (t, [])) <$> threads)) ∅ ∅ None WriteToStderr [] l true.

Definition InstallFailureSignalHandler (p : Process) : Process :=
  mkProcess p.(calls) (p.(handled) ∪ list_to_set (fst <$> kFailureSignals)) p.(pending)
    p.(g_entered_thread_id_pointer) p.(g_failure_writer) p.(output) p.(logs) p.(alive).

Definition IsFailureSignalHandlerInstalled (p : Process) : bool :=
  bool_decide (SIGABRT ∈ p.(handled)).

Definition InstallFailureWriter (writer : Z) (p : Process) : Process :=
  mkProcess p.(calls) p.(handled) p.(pending) p.(g_entered_thread_id_pointer) writer p.(output)
    p.(logs) p.(alive).

(** The signals a thread blocks: without [SA_NODEFER], those it handles. *)
Definition blocked (active : list Call) (s : Z) : bool :=
  existsb (λ c, s =? c.(signal_number)) active.

Definition killed (p : Process) : Process :=
  mkProcess p.(calls) p.(handled) p.(pending) p.(g_entered_thread_id_pointer)
    p.(g_failure_writer) p.(output) p.(logs) false.

Definition with_calls (p : Process) (t : Z) (active : list Call) : Process :=
  mkProcess (<[t := active]> p.(calls)) p.(handled) p.(pending) p.(g_entered_thread_id_pointer)
    p.(g_failure_writer) p.(output) p.(logs) p.(alive).

(** What happens: a signal reaches a thread that does not block it, one that is
    pending is delivered, a thread commits a fault whose signal it blocks, and
    a thread runs, from its innermost call. *)
Inductive Event :=
  | Signal (t s : Z) (c : Context)
  | Deliver (t s : Z) (c : Context)
  | Fault (t s : Z)
  | Run (t : Z)
  | Install
  | SetWriter (writer : Z).
#[global] Instance Context_eq_dec : EqDecision Context.
Proof. solve_decision. Defined.
#[global] Instance Event_eq_dec : EqDecision Event.
Proof. solve_decision. Defined.

(** One step of a call of [FailureSignalHandler] in thread [t].  The flush of the
    logs comes back when no thread was inside their code; otherwise it may hang
    or bring the process down, and the model has no step for it: the thread stays
    there until a signal or a fault comes. *)
Definition FailureSignalHandler (p : Process) (t : Z) (c : Call) (outer : list Call)
    : option Process :=
  let at_phase (ph : Phase) := mkCall c.(signal_number) c.(context) ph :: outer in
  match c.(phase) with
  | Entering =>
      match p.(g_entered_thread_id_pointer) with
      | None =>
          Some (mkProcess (<[t := at_phase (Dumping 0)]> p.(calls)) p.(handled) p.(pending)
                  (Some t) p.(g_failure_writer) p.(output) p.(logs) p.(alive))
      | Some _ => Some (with_calls p t (at_phase Comparing))
      end
  | Comparing =>
      Some (with_calls p t
        (at_phase (if decide (p.(g_entered_thread_id_pointer) = Some t)
                   then Defaulting true else Sleeping)))
  | Dumping k =>
      match report c.(signal_number) t c.(context) !! k with
      | Some (Val line) =>
          Some (mkProcess (<[t := at_phase (Dumping (S k))]> p.(calls)) p.(handled) p.(pending)
                  p.(g_entered_thread_id_pointer) p.(g_failure_writer)
                  (p.(output) ++ [(p.(g_failure_writer), line)]) p.(logs) p.(alive))
      | Some _ => None
      | None => Some (with_calls p t (at_phase Flushing))
      end
  | Flushing =>
      if c.(context).(inside_logging) then None
      else
        match FlushLogFilesUnsafe e 0 p.(logs) with
        | Returns l =>
            Some (mkProcess (<[t := at_phase (Defaulting false)]> p.(calls)) p.(handled)
                    p.(pending) p.(g_entered_thread_id_pointer) p.(g_failure_writer) p.(output)
                    l p.(alive))
        | _ => None
        end
  | Defaulting again =>
      Some (mkProcess (<[t := at_phase (Raising again)]> p.(calls))
              (p.(handled) ∖ {[c.(signal_number)]}) p.(pending) p.(g_entered_thread_id_pointer)
              p.(g_failure_writer) p.(output) p.(logs) p.(alive))
  | Raising again =>
      Some (mkProcess (<[t := at_phase (if again then Sleeping else Returning)]> p.(calls))
              p.(handled) ({[c.(signal_number)]} ∪ p.(pending)) p.(g_entered_thread_id_pointer)
              p.(g_failure_writer) p.(output) p.(logs) p.(alive))
  | Sleeping => None
  | Returning =>
      (** the signals pending for the thread come before its next instruction *)
      if existsb (λ s, bool_decide (s ∉ p.(handled)) && negb (blocked outer s))
           (elements p.(pending))
      then Some (killed p)
      else Some (with_calls p t outer)
  end.

Definition step (p : Process) (ev : Event) : option Process :=
  if p.(alive) then
    match ev with
    | Signal t s c =>
        active ← p.(calls) !! t;
        if blocked active s then None
        else if decide (s ∈ p.(handled))
        then Some (with_calls p t (mkCall s c Entering :: active))
        else Some (killed p)
    | Deliver t s c =>
        active ← p.(calls) !! t;
        if decide (s ∈ p.(pending)) then
          if blocked active s then None
          else if decide (s ∈ p.(handled))
          then Some (mkProcess (<[t := mkCall s c Entering :: active]> p.(calls)) p.(handled)
                       (p.(pending) ∖ {[s]}) p.(g_entered_thread_id_pointer)
                       p.(g_failure_writer) p.(output) p.(logs) p.(alive))
          else Some (killed p)
        else None
    | Fault t s =>
        active ← p.(calls) !! t; if blocked active s then Some (killed p) else None
    | Run t =>
        active ← p.(calls) !! t;
        match active with
        | [] => Some p
        | c :: outer => FailureSignalHandler p t c outer
        end
    | Install => Some (InstallFailureSignalHandler p)
    | SetWriter writer => Some (InstallFailureWriter writer p)
    end
  else None.

Definition steps (p : Process) (es : list Event) : option Process :=
  foldl (λ o e, p ← o; step p e) (Some p) es.
End Report.
