(* ===== verification/SignalFacts.v ===== *)
(** Properties of the failure signal handler: what its lines say, and what the
    process comes to whatever its threads and signals do. *)

From S2P Require Import Prelude LogFile LogFileFacts Logging LoggingFacts.
From S2P Require Import Demangle Symbolize SymbolizeFacts Signal.
From stdpp Require Import base list strings gmap sets.
From Stdlib Require Import ZArith Ascii.

Open Scope list_scope.
Open Scope Z_scope.

(** * The formatter *)

(** The digits of a number, lowest first. *)
Fixpoint low (fuel : nat) (radix n : Z) : list Z :=
  match fuel with
  | O => []
  | S fuel => n mod radix :: (if n / radix =? 0 then [] else low fuel radix (n / radix))
  end.

(** A number as it is written: the reference for the formatter. *)
Definition shown (radix n : Z) : list ascii := radix_char <$> reverse (low 64 radix n).
#[local] Arguments shown : simpl never.

(** The formatter of a buffer of [size] bytes has written [text]. *)
Definition has_written (size : nat) (text : list ascii) (f : MinimalFormatter) : Prop :=
  length f.(buffer_) = size ∧ f.(cursor_) = length text ∧ (length text <= size)%nat ∧
  take (length text) f.(buffer_) = text.

Lemma has_written_new size buffer :
  length buffer = size → has_written size [] (new_formatter buffer).
Proof. intros <-. repeat split; simpl; lia. Qed.

Lemma written_ok size text f : has_written size text f → written f = text.
Proof. intros (_ & H2 & _ & H4). unfold written, num_bytes_written. by rewrite H2. Qed.

Lemma AppendString_ok size text str f :
  has_written size text f → has_written size (take size (text ++ str)) (AppendString str f).
Proof.
  revert text f. induction str as [|c str IH]; intros text f (H1 & H2 & H3 & H4).
  - rewrite app_nil_r, take_ge by lia. done.
  - simpl. destruct (Nat.ltb_spec (cursor_ f) (length (buffer_ f))) as [Hlt|Hge].
    + replace (text ++ c :: str) with ((text ++ [c]) ++ str) by by rewrite <- app_assoc.
      apply IH. split; [simpl; by rewrite length_insert|]. rewrite length_app. simpl.
      split; [lia|]. split; [lia|].
      rewrite Nat.add_1_r, (take_S_r _ _ c) by (rewrite H2; apply list_lookup_insert_eq; lia).
      rewrite take_insert_ge by lia. by rewrite H4.
    + rewrite take_app_le, take_ge by lia. done.
Qed.

Lemma digits_loop_ok fuel space buffer i n radix :
  (length (low fuel radix n) <= space)%nat → (length (low fuel radix n) < fuel)%nat →
  (i + space <= length buffer)%nat →
  digits_loop space buffer i n radix
  = (overwrite i (radix_char <$> low fuel radix n) buffer, (i + length (low fuel radix n))%nat).
Proof.
  revert space buffer i n. induction fuel as [|fuel IH]; intros space buffer i n Hs Hf Hb; [simpl in Hf; lia|].
  simpl in *. destruct space as [|space]; [lia|]. simpl.
  destruct (n / radix =? 0).
  - simpl. rewrite Nat.add_1_r. f_equal. unfold overwrite. simpl. rewrite Nat.add_1_r.
    apply insert_take_drop. lia.
  - rewrite IH by (try rewrite length_insert; lia). simpl. rewrite overwrite_insert by lia.
    f_equal. lia.
Qed.

Lemma low_length k fuel radix n :
  2 <= radix → 0 <= n < radix ^ Z.of_nat (S k) → (length (low fuel radix n) <= S k)%nat.
Proof.
  intros Hr. revert fuel n. induction k as [|k IH]; intros fuel n Hn.
  - destruct fuel as [|fuel]; simpl; [lia|]. rewrite Z.div_small by lia. simpl. lia.
  - destruct fuel as [|fuel]; simpl; [lia|]. destruct (Z.eqb_spec (n / radix) 0); [simpl; lia|].
    apply le_n_S, IH. rewrite (Nat2Z.inj_succ (S k)), Z.pow_succ_r in Hn by lia.
    split; [apply Z.div_pos; lia|]. apply Z.div_lt_upper_bound; lia.
Qed.

Lemma AppendUint64_ok size text n radix f :
  has_written size text f → 2 <= radix → 0 <= n < U64 →
  (length text + length (shown radix n) <= size)%nat → (length (shown radix n) < 64)%nat →
  has_written size (text ++ shown radix n) (AppendUint64 n radix f).
Proof.
  intros (H1 & H2 & H3 & H4) Hr Hn Hfit Hshort. unfold AppendUint64. rewrite H2 in *.
  assert (length (shown radix n) = length (low 64 radix n)) as Hl
    by (unfold shown; by rewrite length_fmap, length_reverse).
  rewrite Hl in *. rewrite (digits_loop_ok 64) by lia. cbv iota.
  set (l := low 64 radix n) in *.
  assert (length (overwrite (length text) (radix_char <$> l) (buffer_ f)) = size) as Hov
    by (rewrite length_overwrite; rewrite ?length_fmap; lia).
  assert (slice (length text) (length text + length l) (overwrite (length text) (radix_char <$> l) (buffer_ f))
          = radix_char <$> l) as ->.
  { rewrite <- (length_fmap radix_char l). apply slice_overwrite. rewrite length_fmap. lia. }
  rewrite <- fmap_reverse. change (radix_char <$> reverse l) with (shown radix n).
  assert (length (shown radix n) = length l) as Hl' by done.
  unfold has_written. cbn [buffer_ cursor_]. split; [rewrite length_overwrite; lia|]. rewrite length_app, Hl'.
  split; [lia|]. split; [lia|].
  unfold overwrite at 1. rewrite app_assoc, take_app_le.
  2:{ rewrite length_app, length_take. lia. }
  rewrite take_ge by (rewrite length_app, length_take; lia). f_equal.
  unfold overwrite. rewrite take_app_le by (rewrite length_take; lia). by rewrite take_take, Nat.min_id.
Qed.

Lemma shown_10 n : 0 <= n < U64 → (length (shown 10 n) <= 20)%nat.
Proof.
  intros Hn. unfold shown. rewrite length_fmap, length_reverse.
  apply (low_length 19); [lia|]. change (10 ^ Z.of_nat 20) with 100000000000000000000.
  unfold U64 in Hn. lia.
Qed.

Lemma shown_16 n : 0 <= n < U64 → (length (shown 16 n) <= 16)%nat.
Proof.
  intros Hn. unfold shown. rewrite length_fmap, length_reverse.
  apply (low_length 15); [lia|]. change (16 ^ Z.of_nat 16) with 18446744073709551616.
  unfold U64 in Hn. lia.
Qed.

Lemma AppendString_fits size text str f :
  has_written size text f → (length text + length str <= size)%nat →
  has_written size (text ++ str) (AppendString str f).
Proof.
  intros H Hl. apply (AppendString_ok _ _ str) in H.
  by rewrite take_ge in H by (rewrite length_app; lia).
Qed.

(** A number in hexadecimal with its prefix, to the right of a field. *)
Definition padded (width : nat) (n : Z) : list ascii :=
  let hex := bytes "0x" ++ shown 16 n in repeat " "%char (width - length hex) ++ hex.

Lemma overwrite_at text l (old rest : list ascii) :
  length old = length l → overwrite (length text) l (text ++ old ++ rest) = text ++ l ++ rest.
Proof.
  intros Hl. unfold overwrite. rewrite take_app_length, drop_app_add, <- Hl. by rewrite drop_app_length.
Qed.

Lemma AppendHexWithPadding_ok size text n width f :
  has_written size text f → 0 <= n < U64 → (length text + length (padded width n) <= size)%nat →
  ∃ f', AppendHexWithPadding n width f = Some f' ∧ has_written size (text ++ padded width n) f'.
Proof.
  intros Hw Hn Hfit. pose proof (shown_16 n Hn) as H16. unfold AppendHexWithPadding.
  assert (length (bytes "0x" ++ shown 16 n) = 2 + length (shown 16 n))%nat as Hhex by done.
  unfold padded in *. cbv zeta in *. set (hex := bytes "0x" ++ shown 16 n) in *.
  rewrite length_app, repeat_length in Hfit.
  assert (has_written size (text ++ hex) (AppendUint64 n 16 (AppendString (bytes "0x") f))) as H.
  { unfold hex. rewrite app_assoc. apply AppendUint64_ok; [|lia|done| |lia].
    - apply AppendString_fits; [done|]. change (length (bytes "0x")) with 2%nat. lia.
    - rewrite length_app. change (length (bytes "0x")) with 2%nat. lia. }
  assert (cursor_ f = length text) as -> by apply Hw.
  set (f1 := AppendUint64 _ _ _) in *. destruct H as (H1 & H2 & H3 & H4).
  rewrite length_app in H2, H3, H4. rewrite H2.
  destruct (Nat.ltb_spec (length text + length hex) (length text + width)) as [Hlt|Hge].
  2:{ exists f1. split; [done|]. replace (width - length hex)%nat with 0%nat by lia.
      split; [done|]. simpl. rewrite length_app. done. }
  destruct (Nat.leb_spec (length text + width) (length (buffer_ f1))) as [_|]; [|lia].
  eexists. split; [done|]. set (delta := (width - length hex)%nat) in *.
  replace (length text + width - (length text + length hex))%nat with delta by lia.
  assert (slice (length text) (length text + length hex) (buffer_ f1) = hex) as ->.
  { unfold slice. rewrite take_drop_commute.
    replace (length text + (length text + length hex - length text))%nat
      with (length text + length hex)%nat by lia.
    rewrite H4. apply drop_app_length. }
  assert (take (length text) (buffer_ f1) = text) as Htext.
  { rewrite <- (take_app_length text hex) at 2. rewrite <- H4, take_take. f_equal. lia. }
  set (moved := overwrite (length text + delta) hex (buffer_ f1)).
  assert (∃ old rest, moved = text ++ old ++ hex ++ rest ∧ length old = delta) as (old & rest & Hm & Ho).
  { exists (take delta (drop (length text) (buffer_ f1))),
      (drop (length text + delta + length hex) (buffer_ f1)).
    split; [|rewrite length_take, length_drop; lia]. unfold moved, overwrite.
    rewrite <- (take_take_drop _ (length text) delta), Htext. by rewrite <- !app_assoc. }
  rewrite Hm, overwrite_at by by rewrite repeat_length.
  assert (length (text ++ repeat " "%char delta ++ hex) = length text + width)%nat as Hlen.
  { rewrite !length_app, repeat_length. lia. }
  assert (length moved = size) as Hsize by (unfold moved; rewrite length_overwrite; lia).
  rewrite Hm, !length_app in Hsize.
  split; [|split; [|split]]; cbn [buffer_ cursor_]; rewrite ?Hlen; [|done|lia|].
  - rewrite !length_app, repeat_length. lia.
  - rewrite <- Hlen, !app_assoc. apply take_app_length'. by rewrite <- !app_assoc.
Qed.

(** * The lines *)

(** Goes through a formatter's calls, where everything fits; the lengths of
    the numbers are in the context. *)
#[local] Ltac lengths := repeat rewrite length_app; simpl length; lia.
#[local] Ltac formatted :=
  first [ apply has_written_new; rewrite length_take; lia
        | eapply AppendString_fits; [formatted|lengths]
        | eapply AppendUint64_ok; [formatted|lia|done|lengths|lia] ].

(** The first line of a report says when the process went down, in full,
    whatever the time and whatever the buffer held. *)
Theorem DumpTimeInfo_says stack time_in_sec :
  (256 <= length stack)%nat → 0 <= time_in_sec < U64 →
  DumpTimeInfo stack time_in_sec =
    bytes "*** Aborted at " ++ shown 10 time_in_sec ++ bytes " (unix time)"
    ++ bytes " try " ++ quote ++ bytes "date -d @" ++ shown 10 time_in_sec
    ++ quote ++ bytes " if you are using GNU date ***" ++ [LF].
Proof.
  intros Hs Ht. pose proof (shown_10 _ Ht) as Hl. unfold DumpTimeInfo.
  erewrite (written_ok 256); [|formatted]. by rewrite <- !app_assoc.
Qed.

Lemma DumpTimeInfo_says_witness :
  DumpTimeInfo (repeat NUL 1024) 1462000000 =
    bytes "*** Aborted at 1462000000 (unix time) try " ++ quote ++ bytes "date -d @1462000000"
    ++ quote ++ bytes " if you are using GNU date ***" ++ [LF].
Proof.
  etransitivity; [apply DumpTimeInfo_says; [rewrite repeat_length; lia|unfold U64; lia]|].
  reflexivity.
Defined.

(** The name of a signal in a report. *)
Definition signal_text (s : Z) : list ascii :=
  default (bytes "Signal " ++ shown 10 (u64 s)) (signal_name s).

(** The line about the signal names it, or says its number, and gives the
    address, the process, the thread and the sender, in full, whatever the numbers
    are: 256 bytes are enough. *)
Theorem DumpSignalInfo_says stack s thread c :
  (256 <= length stack)%nat → 0 <= c.(si_addr) < U64 → 0 <= thread < U64 →
  DumpSignalInfo stack s thread c =
    bytes "*** " ++ signal_text s ++ bytes " (@0x" ++ shown 16 c.(si_addr)
    ++ bytes ") received by PID " ++ shown 10 (u64 c.(pid)) ++ bytes " (TID 0x" ++ shown 16 thread
    ++ bytes ") from PID " ++ shown 10 (u64 c.(si_pid)) ++ bytes "; stack trace: ***" ++ [LF].
Proof.
  intros Hs Ha Ht. pose proof (shown_16 _ Ha). pose proof (shown_16 _ Ht).
  pose proof (u64_range c.(pid)) as Hp. pose proof (u64_range c.(si_pid)) as Hq.
  pose proof (u64_range s) as Hn.
  pose proof (shown_10 _ Hp). pose proof (shown_10 _ Hq). pose proof (shown_10 _ Hn).
  unfold DumpSignalInfo, signal_text. destruct (signal_name s) as [name|] eqn:En.
  - assert (length name <= 7)%nat.
    { unfold signal_name in En. simpl in En.
      repeat (case_match; [simplify_eq; simpl; lia|]). done. }
    erewrite (written_ok 256); [|formatted]. simpl default. by rewrite <- !app_assoc.
  - erewrite (written_ok 256); [|formatted]. simpl default. by rewrite <- !app_assoc.
Qed.

Lemma DumpSignalInfo_says_witness :
  DumpSignalInfo (repeat NUL 256) SIGSEGV 139637976 (mkContext 4096 17 None 0 1234 [] false) =
    bytes "*** SIGSEGV (@0x1000) received by PID 1234 (TID 0x852b4d8) from PID 17; "
    ++ bytes "stack trace: ***" ++ [LF].
Proof.
  etransitivity;
    [apply DumpSignalInfo_says; [rewrite repeat_length; lia|simpl; unfold U64; lia|unfold U64; lia]|].
  reflexivity.
Defined.

(** The line about an address, for as long as the symbolizer comes back: the
    prefix, the address in a field of 18 characters, and the symbol of the
    address before it or "(unknown)", cut off at 1024 characters. *)
Theorem DumpStackFrameInfo_says as_Ehdr as_Shdr as_Sym open fuel stack prefix pc symbolized b :
  (1024 <= length stack)%nat → (length prefix <= 900)%nat → 0 <= pc < U64 →
  Symbolize as_Ehdr as_Shdr as_Sym fuel open stack (u64 (pc - 1)) (take 1024 stack)
    = Val (symbolized, b) →
  DumpStackFrameInfo as_Ehdr as_Shdr as_Sym open fuel stack prefix pc =
    Val (take 1024 (take 1024
      (prefix ++ bytes "@ " ++ padded 18 pc ++ bytes " "
       ++ (if b then take (strlen symbolized) symbolized else bytes "(unknown)")) ++ [LF])).
Proof.
  intros Hs Hp Hpc HS. pose proof (shown_16 _ Hpc) as H16. unfold DumpStackFrameInfo. rewrite HS.
  cbn [bind_outcome]. cbv zeta.
  assert (length (padded 18 pc) <= 18)%nat as Hpad.
  { unfold padded. rewrite !length_app, repeat_length. change (length (bytes "0x")) with 2%nat. lia. }
  destruct (AppendHexWithPadding_ok 1024 (([] ++ prefix) ++ bytes "@ ") pc 18
              (AppendString (bytes "@ ") (AppendString prefix (new_formatter (take 1024 stack)))))
    as (f & -> & Hf); [formatted|done|lengths|].
  f_equal. apply written_ok with 1024%nat. apply AppendString_ok.
  replace (prefix ++ _) with
    ((((([] ++ prefix) ++ bytes "@ ") ++ padded 18 pc) ++ bytes " ")
      ++ (if b then take (strlen symbolized) symbolized else bytes "(unknown)"))
    by by rewrite <- !app_assoc.
  apply AppendString_ok, AppendString_fits; [done|lengths].
Qed.

#[local] Definition no_headers : list ascii → Ehdr := λ _, mkEhdr false 0 0 0 0 0.
#[local] Definition no_sections : list ascii → Shdr := λ _, mkShdr 0 0 0 0 0 0.

Lemma DumpStackFrameInfo_says_witness :
  DumpStackFrameInfo no_headers no_sections Elf64_Sym (λ _, None) 9 (repeat NUL 1024) (bytes "PC: ")
    4198400 = Val (bytes "PC: @           0x401000 (unknown)" ++ [LF]).
Proof.
  etransitivity.
  - eapply (DumpStackFrameInfo_says _ _ _ _ _ _ _ _ _ false);
      [rewrite repeat_length; lia|simpl; lia|unfold U64; lia|vm_compute; reflexivity].
  - vm_compute. reflexivity.
Defined.

(** * The process *)

Section Process.
Variable as_Ehdr : list ascii → Ehdr.
Variable as_Shdr : list ascii → Shdr.
Variable as_Sym : list ascii → Sym.
Variable open : list ascii → option Fd.
Variable fuel : nat.
Variable env : Env.
Variable stack : list ascii.

#[local] Abbreviation report := (report as_Ehdr as_Shdr as_Sym open fuel stack).
#[local] Abbreviation step := (step as_Ehdr as_Shdr as_Sym open fuel env stack).
#[local] Abbreviation steps := (steps as_Ehdr as_Shdr as_Sym open fuel env stack).
#[local] Abbreviation handler := (FailureSignalHandler as_Ehdr as_Shdr as_Sym open fuel env stack).

(** An invariant of every step is one of every execution. *)
Lemma steps_invariant (I : Process → Prop) :
  (∀ p e p', I p → step p e = Some p' → I p') →
  ∀ es p p', I p → steps p es = Some p' → I p'.
Proof.
  intros Hstep es p p' Hp. unfold Signal.steps.
  assert (∀ o, (∀ q, o = Some q → I q) →
    ∀ q, foldl (λ o e, p ← o; step p e) o es = Some q → I q) as H.
  { induction es as [|e es IH]; intros o Ho q; simpl; [apply Ho|]. apply IH.
    intros r Hr. apply bind_Some in Hr as (x & Hx & Hr). eapply Hstep; [|done]. by apply Ho. }
  intros E. eapply (H (Some p)); [|done]. by intros q [= <-].
Qed.

(** The calls that write, in a thread. *)
Definition writing (c : Call) : bool := match c.(phase) with Dumping _ => true | _ => false end.
Definition writers (p : Process) (t : Z) : list Call :=
  List.filter writing (default [] (p.(calls) !! t)).

(** At most one call writes, and what came out is how far it has got. *)
Definition one_writer (p : Process) : Prop :=
  match p.(g_entered_thread_id_pointer) with
  | None => p.(output) = [] ∧ ∀ t, writers p t = []
  | Some t => ∃ s c k,
      (Val ∘ snd <$> p.(output)) = take k (report s t c) ∧
      ∀ t', writers p t' = [] ∨ (t' = t ∧ writers p t' = [mkCall s c (Dumping k)])
  end.

Lemma writers_set p p' t active t' :
  p'.(calls) = <[t := active]> p.(calls) →
  writers p' t' = if decide (t' = t) then List.filter writing active else writers p t'.
Proof.
  intros Hc. unfold writers. rewrite Hc. destruct (decide (t' = t)) as [->|Hne].
  - by rewrite lookup_insert_eq.
  - by rewrite lookup_insert_ne.
Qed.

Lemma one_writer_keeps p p' :
  p'.(g_entered_thread_id_pointer) = p.(g_entered_thread_id_pointer) → p'.(output) = p.(output) →
  (∀ t, writers p' t = writers p t ∨ writers p' t = []) → one_writer p → one_writer p'.
Proof.
  unfold one_writer. intros -> -> Hw. destruct (g_entered_thread_id_pointer p) as [t|].
  - intros (s & c & k & Ho & H). exists s, c, k. split; [done|]. intros t'.
    destruct (Hw t') as [->| ->]; [apply H|by left].
  - intros [Ho H]. split; [done|]. intros t. by destruct (Hw t) as [->| ->].
Qed.

Lemma one_writer_set p p' t active active' :
  p'.(g_entered_thread_id_pointer) = p.(g_entered_thread_id_pointer) → p'.(output) = p.(output) →
  p.(calls) !! t = Some active → p'.(calls) = <[t := active']> p.(calls) →
  List.filter writing active' = List.filter writing active → one_writer p → one_writer p'.
Proof.
  intros He Ho Ha Hc Hf. apply one_writer_keeps; [done..|]. intros t'. left.
  rewrite (writers_set p p' t active') by done. case_decide as E; [|done].
  subst t'. unfold writers. by rewrite Ha.
Qed.

Lemma one_writer_handler p t c outer p' :
  p.(calls) !! t = Some (c :: outer) → handler p t c outer = Some p' →
  one_writer p → one_writer p'.
Proof.
  intros Ha E H. unfold FailureSignalHandler in E.
  assert (writers p t = List.filter writing (c :: outer)) as Hwt by (unfold writers; by rewrite Ha).
  destruct c as [s ctx ph]; cbn [phase signal_number context] in *. simpl in Hwt.
  destruct ph as [| |k| |again|again| |].
  - destruct (g_entered_thread_id_pointer p) as [o|] eqn:Ee; simplify_eq/=.
    + by eapply (one_writer_set p _ t).
    + unfold one_writer in *. rewrite Ee in H. destruct H as [Ho Hw]. simpl.
      exists s, ctx, 0%nat. rewrite Ho. split; [done|]. intros t'.
      erewrite (writers_set p) by done. case_decide as Et; [right; subst t'|left; apply Hw].
      split; [done|]. simpl. by rewrite <- Hwt, Hw.
  - simplify_eq/=. eapply (one_writer_set p _ t); [done..| |done]. by case_decide.
  - unfold one_writer in H. destruct (g_entered_thread_id_pointer p) as [o|] eqn:Ee.
    2:{ destruct H as [_ Hw]. by rewrite Hw in Hwt. }
    destruct H as (s0 & c0 & k0 & Ho & Hw).
    destruct (Hw t) as [Hn|[-> Hn]]; rewrite Hn in Hwt; [done|]. injection Hwt as -> -> -> Hout.
    destruct (report s o ctx !! k) as [[line| | | |]|] eqn:El; simplify_eq/=.
    + unfold one_writer. cbn [g_entered_thread_id_pointer output]. rewrite ?Ee.
      exists s, ctx, (S k). split.
      { rewrite fmap_app, Ho. symmetry. apply (take_S_r _ _ (Val line)), El. }
      intros t'. erewrite (writers_set p) by done. case_decide as Et.
      * right. split; [done|]. simpl. by rewrite <- Hout.
      * destruct (Hw t') as [->|[-> _]]; [by left|done].
    + eapply (one_writer_keeps p); [done..| |].
      * intros t'. erewrite (writers_set p) by done. case_decide; [right|by left]. simpl. by rewrite <- Hout.
      * unfold one_writer. rewrite Ee. by exists s, ctx, k.
  - destruct (inside_logging ctx); [done|].
    destruct (FlushLogFilesUnsafe env 0 (logs p)) as [l0| | |]; try done. injection E as <-.
    by eapply (one_writer_set p _ t).
  - simplify_eq/=. by eapply (one_writer_set p _ t).
  - simplify_eq/=. eapply (one_writer_set p _ t); [done..| |done]. by destruct again.
  - done.
  - destruct (existsb _ _) in E; simplify_eq/=.
    + eapply (one_writer_keeps p); [done..| |done]. intros t'. by left.
    + by eapply (one_writer_set p _ t).
Qed.

Lemma one_writer_step p e p' : one_writer p → step p e = Some p' → one_writer p'.
Proof.
  intros H E. unfold Signal.step in E. destruct (alive p); [|done].
  assert (one_writer (killed p)) as Hk
    by (eapply (one_writer_keeps p); [done..| |done]; intros t'; by left).
  destruct e as [t s c|t s c|t s|t| |w].
  - apply bind_Some in E as (active & Ha & E). destruct (blocked active s); [done|].
    case_decide; simplify_eq; [|done]. by eapply (one_writer_set p _ t).
  - apply bind_Some in E as (active & Ha & E). case_decide; [|done].
    destruct (blocked active s); [done|]. case_decide; simplify_eq; [|done].
    by eapply (one_writer_set p _ t).
  - apply bind_Some in E as (active & Ha & E). by destruct (blocked active s); simplify_eq.
  - apply bind_Some in E as ([|c outer] & Ha & E); simplify_eq; [done|].
    by eapply one_writer_handler.
  - simplify_eq. eapply (one_writer_keeps p); [done..| |done]. intros t'. by left.
  - simplify_eq. eapply (one_writer_keeps p); [done..| |done]. intros t'. by left.
Qed.

Lemma calls_started threads l t active : (started threads l).(calls) !! t = Some active → active = [].
Proof.
  simpl. intros H. apply elem_of_list_to_map_2 in H. apply list_elem_of_fmap in H as (x & Hx & _).
  congruence.
Qed.

Lemma writers_started threads l t : writers (started threads l) t = [].
Proof.
  unfold writers. destruct (calls (started threads l) !! t) eqn:E; [|done].
  apply calls_started in E as ->. done.
Qed.

(** Whatever signals arrive in whatever threads, in whatever order the threads
    run, and whoever installs handlers and writers meanwhile: what the writers
    have got is at any time the beginning of one report, that of the one
    thread which came first.  No line of another report gets in between, and no
    second report is begun, not even by the same thread coming in again. *)
Theorem one_report threads l es p :
  steps (started threads l) es = Some p →
  p.(output) = [] ∨
  ∃ t s c k, p.(g_entered_thread_id_pointer) = Some t ∧
    (Val ∘ snd <$> p.(output)) = take k (report s t c).
Proof.
  intros E. assert (one_writer p) as H.
  { eapply steps_invariant; [apply one_writer_step| |done]. split; [done|].
    apply writers_started. }
  unfold one_writer in H. destruct (g_entered_thread_id_pointer p) as [t|].
  - right. destruct H as (s & c & k & H & _). by exists t, s, c, k.
  - left. apply H.
Qed.
(** The signals of the calls of a thread, and what calls that are nearly done
    have seen to. *)
Definition signals (active : list Call) : list Z := signal_number <$> active.

Definition seen_to (p : Process) (c : Call) : Prop :=
  match c.(phase) with
  | Raising _ => c.(signal_number) ∉ p.(handled)
  | Returning => c.(signal_number) ∈ p.(pending) ∧ c.(signal_number) ∉ p.(handled)
  | _ => True
  end.

Definition settled (p : Process) : Prop :=
  ∀ t active, p.(calls) !! t = Some active →
    NoDup (signals active) ∧ Forall (seen_to p) active.

Lemma blocked_spec active s : blocked active s = bool_decide (s ∈ signals active).
Proof.
  unfold blocked, signals. induction active as [|c active IH]; [done|]. simpl. rewrite IH.
  destruct (Z.eqb_spec s (signal_number c)) as [->|Hne]; simpl.
  - symmetry. apply bool_decide_eq_true. set_solver.
  - apply bool_decide_ext. set_solver.
Qed.

(** Nothing that was seen to is undone where fewer signals have the handler and
    those that had it may be no longer pending. *)
Lemma seen_to_mono p p' c :
  p'.(handled) ⊆ p.(handled) → (∀ s, s ∈ p.(pending) → s ∉ p.(handled) → s ∈ p'.(pending)) →
  seen_to p c → seen_to p' c.
Proof. intros Hh Hp. unfold seen_to. destruct (phase c); set_solver. Qed.

Lemma settled_set p p' t active :
  p'.(handled) ⊆ p.(handled) → (∀ s, s ∈ p.(pending) → s ∉ p.(handled) → s ∈ p'.(pending)) →
  p'.(calls) = <[t := active]> p.(calls) →
  NoDup (signals active) → Forall (seen_to p') active → settled p → settled p'.
Proof.
  intros Hh Hp Hc Hd Hf H t' active'. rewrite Hc. destruct (decide (t' = t)) as [->|Hne].
  - rewrite lookup_insert_eq. by intros [= <-].
  - rewrite lookup_insert_ne by done. intros Ha. destruct (H _ _ Ha) as [? Hs].
    split; [done|]. eapply Forall_impl; [done|]. intros c. by apply seen_to_mono.
Qed.

(** Every call that is active stays so. *)
Definition stays (p p' : Process) : Prop :=
  ∀ t active, p.(calls) !! t = Some active →
    ∃ active', p'.(calls) !! t = Some active' ∧ signals active `suffix_of` signals active'.

Lemma stays_set p p' t active active' :
  p.(calls) !! t = Some active → p'.(calls) = <[t := active']> p.(calls) →
  signals active `suffix_of` signals active' → stays p p'.
Proof.
  intros Ha Hc Hs t' x Hx. rewrite Hc. destruct (decide (t' = t)) as [->|Hne].
  - rewrite lookup_insert_eq. exists active'. simplify_eq. done.
  - rewrite lookup_insert_ne by done. by exists x.
Qed.

Lemma stays_refl p p' : p'.(calls) = p.(calls) → stays p p'.
Proof. intros Hc t active Ha. exists active. by rewrite Hc. Qed.

Lemma settled_handler p t c outer p' :
  p.(calls) !! t = Some (c :: outer) → handler p t c outer = Some p' →
  settled p → settled p' ∧ (p'.(alive) = true → stays p p').
Proof.
  intros Ha E H. unfold FailureSignalHandler in E.
  destruct (H _ _ Ha) as [Hd Hs]. apply Forall_cons in Hs as [Hc Hs].
  destruct c as [s ctx ph]. cbn [phase signal_number context] in *.
  assert (∀ p1 ph1, p1.(calls) = <[t := mkCall s ctx ph1 :: outer]> p.(calls) →
    p1.(handled) ⊆ p.(handled) → (∀ s, s ∈ p.(pending) → s ∉ p.(handled) → s ∈ p1.(pending)) →
    seen_to p1 (mkCall s ctx ph1) → settled p1 ∧ (p1.(alive) = true → stays p p1)) as Hnext.
  { intros p1 ph1 H1 H2 H3 H4. split.
    - eapply (settled_set p); [done..| |done]. constructor; [done|].
      eapply Forall_impl; [done|]. intros c. by apply seen_to_mono.
    - intros _. by eapply (stays_set p p1 t). }
  destruct ph as [| |k| |again|again| |].
  - destruct (g_entered_thread_id_pointer p); simplify_eq; by eapply Hnext.
  - simplify_eq. eapply Hnext; [done..|]. by case_decide.
  - destruct (report s t ctx !! k) as [[line| | | |]|]; simplify_eq; by eapply Hnext.
  - destruct (inside_logging ctx); [done|].
    destruct (FlushLogFilesUnsafe env 0 (logs p)) as [l0| | |]; try done. injection E as <-.
    by eapply Hnext.
  - simplify_eq. eapply Hnext; [done|simpl; set_solver|done|]. unfold seen_to. simpl. set_solver.
  - simplify_eq. eapply Hnext; [done|done|simpl; set_solver|]. unfold seen_to in *. simpl in *.
    destruct again; [done|set_solver].
  - done.
  - destruct Hc as [Hp Hh]. cbn [signal_number] in *.
    assert (existsb (λ s, bool_decide (s ∉ p.(handled)) && negb (blocked outer s))
              (elements p.(pending)) = true) as Hdie.
    { apply existsb_exists. exists s. split; [by apply list_elem_of_In, elem_of_elements|].
      rewrite blocked_spec, !andb_true_iff, negb_true_iff. split; [by apply bool_decide_eq_true|].
      apply bool_decide_eq_false. by apply NoDup_cons in Hd as [? _]. }
    rewrite Hdie in E. simplify_eq. split; [|done]. exact H.
Qed.

Lemma settled_step p e p' :
  e ≠ Install → settled p → step p e = Some p' → settled p' ∧ (p'.(alive) = true → stays p p').
Proof.
  intros He H E. unfold Signal.step in E. destruct (alive p); [|done].
  assert (∀ p1 t active s c, p1.(calls) = <[t := mkCall s c Entering :: active]> p.(calls) →
    p.(calls) !! t = Some active → blocked active s = false →
    p1.(handled) = p.(handled) → (∀ s, s ∈ p.(pending) → s ∉ p.(handled) → s ∈ p1.(pending)) →
    settled p1 ∧ (p1.(alive) = true → stays p p1)) as Hcall.
  { intros p1 t active s c H1 Ha Hb H2 H3. destruct (H _ _ Ha) as [Hd Hs]. split.
    - eapply (settled_set p); [by rewrite H2|done|done| | |done].
      + rewrite blocked_spec in Hb. apply bool_decide_eq_false in Hb. by constructor.
      + constructor; [done|]. eapply Forall_impl; [done|]. intros c'.
        apply seen_to_mono; [by rewrite H2|done].
    - intros _. eapply (stays_set p p1 t); [done..|]. by exists [s]. }
  destruct e as [t s c|t s c|t s|t| |w].
  - apply bind_Some in E as (active & Ha & E). destruct (blocked active s) eqn:Hb; [done|].
    case_decide; simplify_eq; [|by split]. by eapply Hcall.
  - apply bind_Some in E as (active & Ha & E). case_decide; [|done].
    destruct (blocked active s) eqn:Hb; [done|]. case_decide; simplify_eq; [|by split].
    eapply Hcall; [done..|]. simpl. set_solver.
  - apply bind_Some in E as (active & Ha & E). destruct (blocked active s); by simplify_eq.
  - apply bind_Some in E as ([|c outer] & Ha & E); simplify_eq.
    + split; [done|]. intros _. by apply stays_refl.
    + by eapply settled_handler.
  - done.
  - simplify_eq. split; [exact H|]. intros _. by apply stays_refl.
Qed.

Lemma steps_cons p e es : steps p (e :: es) = (p' ← step p e; steps p' es).
Proof.
  unfold Signal.steps. simpl. destruct (step p e) as [p'|]; [done|].
  simpl. by induction es.
Qed.

Lemma stays_steps es p p' :
  Install ∉ es → settled p → steps p es = Some p' → p'.(alive) = true → settled p' ∧ stays p p'.
Proof.
  revert p. induction es as [|e es IH]; intros p Hi Hs E Ha.
  - injection E as <-. split; [done|]. by apply stays_refl.
  - rewrite steps_cons in E. apply bind_Some in E as (q & Eq & E).
    destruct (settled_step p e q) as [Hq Hst]; [set_solver|done..|].
    assert (q.(alive) = true) as Haq.
    { destruct es as [|e' es]; [by injection E as <-|]. rewrite steps_cons in E.
      apply bind_Some in E as (r & Er & _). unfold Signal.step in Er. by destruct (alive q). }
    destruct (IH q) as [Hp' Hst']; [set_solver|done..|]. split; [done|].
    intros t active Hac. destruct (Hst Haq t active Hac) as (a1 & Ha1 & H1).
    destruct (Hst' t a1 Ha1) as (a2 & Ha2 & H2). exists a2. split; [done|]. by etrans.
Qed.

Lemma settled_installed threads l : settled (InstallFailureSignalHandler (started threads l)).
Proof.
  intros t active Ha. apply (calls_started threads l) in Ha as ->. split; constructor.
Qed.

(** A thread that took a failure signal does not go back into the program:
    once the handlers are installed, and as long as nobody installs them again,
    each call of the handler that is active in a thread is active for as long
    as the process lives.  Where the handler ends, the signal it has raised is
    pending, has its default action and is blocked no longer, and ends the
    process. *)
Theorem handler_never_returns threads l es es' p p' t active :
  steps (InstallFailureSignalHandler (started threads l)) es = Some p → Install ∉ es →
  p.(calls) !! t = Some active → p.(alive) = true →
  steps p es' = Some p' → Install ∉ es' → p'.(alive) = true →
  ∃ active', p'.(calls) !! t = Some active' ∧ signals active `suffix_of` signals active'.
Proof.
  intros E Hi Ha Hal E' Hi' Hal'.
  destruct (stays_steps es _ p Hi (settled_installed threads l) E Hal) as [Hs _].
  destruct (stays_steps es' p p' Hi' Hs E' Hal') as [_ Hst]. by apply Hst.
Qed.

(** A process where the innermost call of [t] has come to [ph]. *)
Definition at_phase (p : Process) (t s : Z) (ctx : Context) (outer : list Call) (ph : Phase) : Prop :=
  p.(calls) !! t = Some (mkCall s ctx ph :: outer) ∧ p.(alive) = true.

Lemma run_step p t s ctx outer ph :
  at_phase p t s ctx outer ph → step p (Run t) = handler p t (mkCall s ctx ph) outer.
Proof. intros [Hc Ha]. unfold Signal.step. by rewrite Ha, Hc. Qed.

Lemma run_ends p t s ctx outer :
  at_phase p t s ctx outer (Defaulting false) → blocked outer s = false →
  ∃ p', steps p (repeat (Run t) 3) = Some p' ∧ p'.(alive) = false ∧ p'.(output) = p.(output) ∧
    p'.(logs) = p.(logs).
Proof.
  intros H Hb. cbn [repeat]. rewrite steps_cons, (run_step _ _ _ _ _ _ H). simpl.
  rewrite steps_cons. erewrite run_step by (split; [apply lookup_insert_eq|apply H]). simpl.
  rewrite steps_cons. erewrite run_step by (split; [apply lookup_insert_eq|apply H]). simpl.
  cbn [FailureSignalHandler phase pending handled]. destruct (existsb _ _) eqn:Hex.
  { eexists. split; [done|]. by split. }
  apply not_true_iff_false in Hex. destruct Hex. apply existsb_exists. exists s.
  split; [apply list_elem_of_In, elem_of_elements; set_solver|].
  rewrite Hb, andb_true_r. apply bool_decide_eq_true. set_solver.
Qed.

(** The flush, and what follows it. *)
Lemma run_flush p t s ctx outer :
  at_phase p t s ctx outer Flushing → blocked outer s = false → ctx.(inside_logging) = false →
  ∃ p', steps p (repeat (Run t) 4) = Some p' ∧ p'.(alive) = false ∧ p'.(output) = p.(output) ∧
    FlushLogFilesUnsafe env 0 p.(logs) = Returns p'.(logs).
Proof.
  intros H Hb Hin. cbn [repeat]. rewrite steps_cons, (run_step _ _ _ _ _ _ H).
  cbn [FailureSignalHandler phase signal_number context]. rewrite Hin.
  destruct (FlushLogFilesUnsafe env 0 (logs p)) as [l| | |] eqn:El; try discriminate El.
  simpl mbind. set (q := mkProcess _ _ _ _ _ _ _ _).
  destruct (run_ends q t s ctx outer) as (p' & E & Hd & Ho & Hl);
    [split; [apply lookup_insert_eq|apply H]|done|].
  exists p'. split; [exact E|]. split; [done|]. split; [done|]. by rewrite Hl.
Qed.

Lemma run_dump p t s ctx outer lines k :
  at_phase p t s ctx outer (Dumping k) → blocked outer s = false → ctx.(inside_logging) = false →
  drop k (report s t ctx) = Val <$> lines →
  ∃ p', steps p (repeat (Run t) (length lines + 5)) = Some p' ∧ p'.(alive) = false ∧
    p'.(output) = p.(output) ++ ((λ l, (p.(g_failure_writer), l)) <$> lines) ∧
    FlushLogFilesUnsafe env 0 p.(logs) = Returns p'.(logs).
Proof.
  intros H Hb Hin. revert p k H. induction lines as [|l lines IH]; intros p k H Hl.
  - cbn [length Nat.add repeat]. rewrite steps_cons, (run_step _ _ _ _ _ _ H).
    cbn [FailureSignalHandler phase signal_number context].
    assert (report s t ctx !! k = None) as ->.
    { apply lookup_ge_None. apply (f_equal length) in Hl. rewrite length_drop, length_fmap in Hl. cbn [length] in Hl. lia. }
    simpl mbind.
    destruct (run_flush (with_calls p t (mkCall s ctx Flushing :: outer)) t s ctx outer)
      as (p' & E & Hd & Ho & Hf); [split; [apply lookup_insert_eq|apply H]|done|done|].
    exists p'. split; [exact E|]. split; [done|]. split; [|exact Hf].
    rewrite Ho. simpl. by rewrite app_nil_r.
  - assert (report s t ctx !! k = Some (Val l)) as Hk.
    { pose proof (f_equal (λ x, x !! 0%nat) Hl) as H0. simpl in H0.
      rewrite lookup_drop, Nat.add_0_r in H0. exact H0. }
    cbn [length Nat.add repeat]. rewrite steps_cons, (run_step _ _ _ _ _ _ H).
    cbn [FailureSignalHandler phase signal_number context]. rewrite Hk. simpl mbind.
    edestruct (IH (mkProcess (<[t := mkCall s ctx (Dumping (S k)) :: outer]> p.(calls)) p.(handled)
        p.(pending) p.(g_entered_thread_id_pointer) p.(g_failure_writer)
        (p.(output) ++ [(p.(g_failure_writer), l)]) p.(logs) p.(alive)) (S k))
      as (p' & E & Hd & Ho & Hf);
      [split; [apply lookup_insert_eq|apply H]| |].
    { rewrite <- Nat.add_1_r, <- drop_drop, Hl. done. }
    exists p'. split; [exact E|]. split; [done|]. split; [|exact Hf].
    rewrite Ho. simpl. by rewrite <- app_assoc.
Qed.


(** One step of the innermost call, computed. *)
#[local] Ltac running :=
  unfold Signal.step, FailureSignalHandler, with_calls; cbn [alive calls];
  rewrite lookup_insert_eq; cbn;
  rewrite ?decide_True by done; reflexivity.

Lemma steps_step p e es q : step p e = Some q → steps p (e :: es) = steps q es.
Proof. intros E. by rewrite steps_cons, E. Qed.

Lemma signal_step p t s c active :
  p.(calls) !! t = Some active → p.(alive) = true → blocked active s = false → s ∈ p.(handled) →
  step p (Signal t s c) = Some (with_calls p t (mkCall s c Entering :: active)).
Proof.
  intros Hc Ha Hb Hs. unfold Signal.step. rewrite Ha, Hc. simpl. rewrite Hb.
  by rewrite decide_True by done.
Qed.

(** A second signal in the thread that reports does not "kill ourself by the
    default signal handler", where that is the only thread: the second call
    gives the signal its default action and raises it while its own thread
    blocks it, so it stays pending; the call then sleeps for ever and the
    process neither ends nor goes on.  Only another signal can end it. *)
Theorem reentered_handler_hangs l t c c' :
  ∃ p, steps (InstallFailureSignalHandler (started [t] l))
         [Signal t SIGSEGV c; Run t; Run t; Signal t SIGABRT c'; Run t; Run t; Run t; Run t] = Some p ∧
    p.(alive) = true ∧ p.(pending) = {[SIGABRT]} ∧
    (Val ∘ snd <$> p.(output)) = take 1 (report SIGSEGV t c) ∧
    (∀ t', step p (Run t') = None) ∧ (∀ t' s c'', step p (Deliver t' s c'') = None).
Proof.
  set (p0 := InstallFailureSignalHandler (started [t] l)).
  assert (p0.(calls) !! t = Some []) as H0 by apply lookup_insert_eq.
  assert (∀ s, s ∈ fst <$> kFailureSignals → s ∈ p0.(handled)) as Hh.
  { intros s Hs. apply elem_of_union_r. by apply elem_of_list_to_set. }
  assert (p0.(alive) = true ∧ p0.(pending) = ∅ ∧ p0.(output) = [] ∧
    p0.(g_entered_thread_id_pointer) = None) as (Hal & Hpe & Hou & Hen) by done.
  assert (∀ t', t' ≠ t → p0.(calls) !! t' = None) as Hother.
  { intros t' Ht'. change (<[t := []]> (∅ : gmap Z (list Call)) !! t' = None).
    rewrite lookup_insert_ne by done. apply lookup_empty. }
  clearbody p0.
  rewrite (steps_step _ _ _ _ (signal_step p0 t SIGSEGV c [] H0 Hal eq_refl
    ltac:(apply Hh; bd))).
  destruct p0 as [cs h pe g w o al]. cbn in H0, Hh, Hal, Hpe, Hou, Hen, Hother. subst.
  unfold with_calls. cbn [calls handled pending g_entered_thread_id_pointer g_failure_writer output alive].
  do 2 (erewrite steps_step; [|running]).
  erewrite steps_step.
  2:{ apply (signal_step _ t SIGABRT c' [mkCall SIGSEGV c (Dumping 1)]);
      [apply lookup_insert_eq|done|done|]. apply Hh. bd. }
  do 4 (erewrite steps_step; [|running]).
  eexists. split; [reflexivity|]. split; [done|].
  split; [apply right_id_L; apply _|]. split; [reflexivity|]. split.
  - intros t'. destruct (decide (t' = t)) as [->|Hne]; unfold Signal.step; cbn [alive calls].
    + by rewrite lookup_insert_eq.
    + rewrite !lookup_insert_ne by done. by rewrite Hother.
  - intros t' s c''. destruct (decide (t' = t)) as [->|Hne]; unfold Signal.step; cbn [alive calls].
    + rewrite lookup_insert_eq. cbn -[union difference].
      destruct (decide (s ∈ {[SIGABRT]} ∪ ∅)) as [Hs|]; [|done].
      assert (s = SIGABRT) as -> by set_solver. done.
    + rewrite !lookup_insert_ne by done. by rewrite Hother.
Qed.
End Process.

(** Two threads, both in the handler. *)
#[local] Definition two_calls : list Event :=
  [Install; Signal 1 SIGSEGV (mkContext 4096 0 None 7 42 [] false); Run 1; Run 1;
   Signal 2 SIGBUS (mkContext 0 0 None 7 42 [] false); Run 2; Run 2; Run 1].

Lemma one_report_witness :
  ∃ p, steps no_headers no_sections Elf64_Sym (λ _, None) 9 (Example_logging.env 7) (repeat NUL 1024) (started [1; 2] Example_logging.state) two_calls
         = Some p ∧ length p.(output) = 2%nat ∧
       ∃ t s c k, p.(g_entered_thread_id_pointer) = Some t ∧
         (Val ∘ snd <$> p.(output))
         = take k (report no_headers no_sections Elf64_Sym (λ _, None) 9 (repeat NUL 1024) s t c).
Proof.
  destruct (steps no_headers no_sections Elf64_Sym (λ _, None) 9 (Example_logging.env 7) (repeat NUL 1024) (started [1; 2] Example_logging.state)
              two_calls) as [p|] eqn:E; [|exfalso; revert E; vm_compute; discriminate].
  exists p. split; [done|].
  assert (length p.(output) = 2%nat) as Hl.
  { revert E. vm_compute. intros E. injection E as <-. reflexivity. }
  split; [exact Hl|].
  destruct (one_report _ _ _ _ _ _ _ _ _ _ _ E) as [H|H]; [rewrite H in Hl; discriminate Hl|exact H].
Defined.

Lemma handler_never_returns_witness :
  ∃ p active', steps no_headers no_sections Elf64_Sym (λ _, None) 9 (Example_logging.env 7) (repeat NUL 1024)
      (InstallFailureSignalHandler (started [1; 2] Example_logging.state)) (tail two_calls) = Some p ∧
    p.(calls) !! 2 = Some active' ∧ [SIGBUS] `suffix_of` signals active'.
Proof.
  eexists _, _. split; [vm_compute; reflexivity|]. split; [vm_compute; reflexivity|].
  edestruct (handler_never_returns no_headers no_sections Elf64_Sym (λ _, None) 9 (Example_logging.env 7) (repeat NUL 1024)
      [1; 2] Example_logging.state
      (take 4 (tail two_calls)) (drop 4 (tail two_calls))) with (t := 2)
    as (active' & Ha & Hs);
    [vm_compute; reflexivity|bd|vm_compute; reflexivity|reflexivity|vm_compute; reflexivity|bd
    |reflexivity|].
  vm_compute in Ha. injection Ha as <-. exact Hs.
Defined.

