(* ===== verification/Runner.v ===== *)
(** The runner of Google Test ([src/lib/googletest/src/gtest.cc]): [Test::Run],
    [TestInfo::Run], [TestCase::Run], [UnitTestImpl::RunAllTests], the results of tests
    and the events for listeners.

    The code of the user (constructors, fixtures, bodies, environments) is a list of
    actions per iteration: results reported, properties recorded, exceptions thrown.
    Cases and tests are numbered as they were registered; their marks and their order
    are those of [TestRun].  Listeners observe only; times are left out. *)

From S2P Require Import Prelude Strings TestRun.
From stdpp Require Import base gmap list strings.
From Stdlib Require Import ZArith Ascii.

Open Scope Z_scope.

(** * Results *)

Inductive PartType := kSuccess | kNonFatalFailure | kFatalFailure.

#[export] Instance PartType_eq_dec : EqDecision PartType.
Proof. solve_decision. Defined.

Record TestPartResult := mkPart {
  part_type : PartType; file_name : option string; line_number : Z; message : string
}.

Definition failed (p : TestPartResult) : bool := bool_decide (p.(part_type) ≠ kSuccess).
Definition fatally_failed (p : TestPartResult) : bool :=
  bool_decide (p.(part_type) = kFatalFailure).
Definition nonfatally_failed (p : TestPartResult) : bool :=
  bool_decide (p.(part_type) = kNonFatalFailure).

Record TestProperty := mkProperty { key_ : string; value_ : string }.

Record TestResult := mkResult {
  test_part_results_ : list TestPartResult;
  test_properties_ : list TestProperty
}.

Definition empty_result : TestResult := mkResult [] [].

Definition AddTestPartResult_ (p : TestPartResult) (r : TestResult) : TestResult :=
  mkResult (r.(test_part_results_) ++ [p]) r.(test_properties_).

Definition ResultFailed (r : TestResult) : bool := existsb failed r.(test_part_results_).
Definition HasFatalFailure (r : TestResult) : bool :=
  (0 <? Z.of_nat (count_true fatally_failed r.(test_part_results_))).
Definition HasNonfatalFailure (r : TestResult) : bool :=
  (0 <? Z.of_nat (count_true nonfatally_failed r.(test_part_results_))).

(** A property replaces the one with its key, or goes to the end. *)
Fixpoint set_property (p : TestProperty) (l : list TestProperty) : list TestProperty :=
  match l with
  | [] => [p]
  | q :: l =>
      if decide (q.(key_) = p.(key_)) then mkProperty q.(key_) p.(value_) :: l
      else q :: set_property p l
  end.

Definition reserved_attributes (xml_element : string) : option (list string) :=
  if decide (xml_element = "testsuites") then
    Some ["disabled"; "errors"; "failures"; "name"; "random_seed"; "tests"; "time"; "timestamp"]
  else if decide (xml_element = "testsuite") then
    Some ["disabled"; "errors"; "failures"; "name"; "tests"; "time"]
  else if decide (xml_element = "testcase") then
    Some ["classname"; "name"; "status"; "time"; "type_param"; "value_param"]
  else None.

Fixpoint format_words (i n : nat) (words : list string) : string :=
  match words with
  | [] => ""
  | w :: words =>
      (if (0 <? i)%nat && (2 <? n)%nat then ", " else "") +:+
      (if (i =? n - 1)%nat then "and " else "") +:+ "'" +:+ w +:+ "'" +:+
      format_words (S i) n words
  end.
Definition FormatWordList (words : list string) : string :=
  format_words 0 (length words) words.

(** * The code of the user *)

Record TraceInfo := mkTrace { trace_file : option string; trace_line : Z; trace_message : string }.

(** A result is reported with the traces of the scopes it is in, innermost first, and
    a stack trace. *)
Inductive Action :=
  | Report (type : PartType) (file : option string) (line : Z) (msg : string)
      (traces : list TraceInfo) (os_stack_trace : string)
  | RecordProperty (key value : string)
  | Throw (what : option string).

(** What the code does in an iteration. *)
Definition Script : Type := nat → list Action.

Record TestCode := mkCode {
  fixture_class_id : nat;
  constructor : Script;
  SetUp : Script;
  TestBody : Script;
  TearDown : Script;
  destructor : Script
}.

Record CaseCode := mkCaseCode {
  SetUpTestCase : Script; TearDownTestCase : Script; codes : list TestCode
}.

Record EnvironmentCode := mkEnvironment { env_SetUp : Script; env_TearDown : Script }.

Definition TestId : Type := nat * nat.

Inductive Event :=
  | OnTestProgramStart | OnTestIterationStart (i : nat)
  | OnEnvironmentsSetUpStart | OnEnvironmentsSetUpEnd
  | OnTestCaseStart (c : nat) | OnTestStart (t : TestId)
  | OnTestPartResult (p : TestPartResult)
  | OnTestEnd (t : TestId) | OnTestCaseEnd (c : nat)
  | OnEnvironmentsTearDownStart | OnEnvironmentsTearDownEnd
  | OnTestIterationEnd (i : nat) | OnTestProgramEnd.

(** The calls of the code of the user. *)
Inductive Call :=
  | Constructor (t : TestId) | CallSetUp (t : TestId) | Body (t : TestId)
  | CallTearDown (t : TestId) | Destructor (t : TestId)
  | CallSetUpTestCase (c : nat) | CallTearDownTestCase (c : nat)
  | EnvSetUp (n : nat) | EnvTearDown (n : nat).

(** * State and outcomes *)

Record Unit := mkUnit {
  results : gmap (nat * nat) TestResult;
  case_ad_hoc : gmap nat TestResult;
  ad_hoc_test_result_ : TestResult;
  current_test_case_ : option nat;
  current_test_info_ : option (nat * nat);
  events : list (nat * Event);
  calls : list Call
}.

Definition set_results (x : gmap (nat * nat) TestResult) (u : Unit) : Unit :=
  mkUnit x u.(case_ad_hoc) u.(ad_hoc_test_result_) u.(current_test_case_)
    u.(current_test_info_) u.(events) u.(calls).
Definition set_case_ad_hoc (x : gmap nat TestResult) (u : Unit) : Unit :=
  mkUnit u.(results) x u.(ad_hoc_test_result_) u.(current_test_case_)
    u.(current_test_info_) u.(events) u.(calls).
Definition set_ad_hoc (x : TestResult) (u : Unit) : Unit :=
  mkUnit u.(results) u.(case_ad_hoc) x u.(current_test_case_)
    u.(current_test_info_) u.(events) u.(calls).
Definition set_current (c : option nat) (t : option (nat * nat)) (u : Unit) : Unit :=
  mkUnit u.(results) u.(case_ad_hoc) u.(ad_hoc_test_result_) c t u.(events) u.(calls).
Definition set_events (x : list (nat * Event)) (u : Unit) : Unit :=
  mkUnit u.(results) u.(case_ad_hoc) u.(ad_hoc_test_result_) u.(current_test_case_)
    u.(current_test_info_) x u.(calls).
Definition set_calls (x : list Call) (u : Unit) : Unit :=
  mkUnit u.(results) u.(case_ad_hoc) u.(ad_hoc_test_result_) u.(current_test_case_)
    u.(current_test_info_) u.(events) x.

(** Exceptions: the one of [--gtest_throw_on_failure], and those of the user. *)
Inductive Exc := GoogleTestFailure | UserException (what : option string).

Inductive Outcome (A : Type) := Ok (a : A) | Thrown (e : Exc) | Crash.
Arguments Ok {A} _.
Arguments Thrown {A} _.
Arguments Crash {A}.

Definition M (A : Type) : Type := Unit → Outcome A * Unit.

Definition ret {A} (a : A) : M A := λ u, (Ok a, u).
Definition bind {A B} (m : M A) (f : A → M B) : M B :=
  λ u, match m u with
       | (Ok a, u) => f a u
       | (Thrown e, u) => (Thrown e, u)
       | (Crash, u) => (Crash, u)
       end.
Definition modify (f : Unit → Unit) : M () := λ u, (Ok (), f u).
Definition gets {A} (f : Unit → A) : M A := λ u, (Ok (f u), u).
Definition throw {A} (e : Exc) : M A := λ u, (Thrown e, u).
Definition crash {A} : M A := λ u, (Crash, u).

Declare Scope run_scope.
Delimit Scope run_scope with run.
Notation "'let*' x := m 'in' f" := (bind m (λ x, f))
  (at level 200, x pattern, right associativity) : run_scope.
Notation "m ;; f" := (bind m (λ _, f)) (at level 100, right associativity) : run_scope.
Open Scope run_scope.

(** * What stays the same during a run *)

Record Config := mkConfig {
  catch_exceptions : bool;
  break_on_failure : bool;
  throw_on_failure : bool;
  flag_shuffle : bool;
  flag_random_seed : Z;
  flag_repeat : Z;
  listeners_ : list nat;
  forwarding_enabled_ : bool;
  environments_ : list EnvironmentCode;
  program : list CaseCode
}.

Section Run.
Variable cfg : Config.
(** The iteration, for the code of the user. *)
Variable iteration : nat.

(** ** Listeners *)

Definition in_reverse (e : Event) : bool :=
  match e with
  | OnEnvironmentsSetUpEnd | OnEnvironmentsTearDownEnd | OnTestEnd _ | OnTestCaseEnd _
  | OnTestIterationEnd _ | OnTestProgramEnd => true
  | _ => false
  end.

(** The methods of [TestEventRepeater]. *)
Definition notify (e : Event) : M () :=
  modify (λ u,
    if cfg.(forwarding_enabled_) then
      set_events (u.(events) ++
        ((λ l, (l, e)) <$> (if in_reverse e then reverse cfg.(listeners_)
                            else cfg.(listeners_)))) u
    else u).

(** ** Reporting *)

Definition result_of (u : Unit) (t : TestId) : TestResult :=
  default empty_result (u.(results) !! t).

Definition current_test_result (u : Unit) : TestResult :=
  match u.(current_test_info_) with
  | Some t => result_of u t
  | None => u.(ad_hoc_test_result_)
  end.

(** [DefaultGlobalTestPartResultReporter::ReportTestPartResult]. *)
Definition ReportTestPartResult (p : TestPartResult) : M () :=
  modify (λ u,
    match u.(current_test_info_) with
    | Some t => set_results (<[t := AddTestPartResult_ p (result_of u t)]> u.(results)) u
    | None => set_ad_hoc (AddTestPartResult_ p u.(ad_hoc_test_result_)) u
    end) ;;
  notify (OnTestPartResult p).

Definition FormatFileLocation (file : option string) (line : Z) : string :=
  let file_name := default "unknown file" file in
  if line <? 0 then file_name +:+ ":"
  else file_name +:+ ":" +:+ to_string line +:+ ":".

Definition newline : string := String (ascii_of_N 10) "".

Definition full_message (msg : string) (traces : list TraceInfo) (os_stack_trace : string)
    : string :=
  msg +:+
  (match traces with
   | [] => ""
   | _ => newline +:+ "Google Test trace:" +:+
          foldr (λ t s, newline +:+ FormatFileLocation t.(trace_file) t.(trace_line) +:+ " "
                          +:+ t.(trace_message) +:+ s) "" traces
   end) +:+
  (match os_stack_trace with
   | "" => ""
   | s => newline +:+ "Stack trace:" +:+ newline +:+ s
   end).

(** [UnitTest::AddTestPartResult]. *)
Definition AddTestPartResult (type : PartType) (file : option string) (line : Z)
    (msg : string) (traces : list TraceInfo) (os_stack_trace : string) : M () :=
  ReportTestPartResult (mkPart type file line (full_message msg traces os_stack_trace)) ;;
  if bool_decide (type ≠ kSuccess) then
    if cfg.(break_on_failure) then crash
    else if cfg.(throw_on_failure) then throw GoogleTestFailure
    else ret ()
  else ret ().

Definition ValidateTestPropertyName (property_name : string) (reserved_names : list string)
    : M bool :=
  if decide (property_name ∈ reserved_names) then
    AddTestPartResult kNonFatalFailure (Some "src/gtest.cc") 2145
      ("Failed" +:+ newline +:+ "Reserved key used in RecordProperty(): " +:+ property_name
         +:+ " (" +:+ FormatWordList reserved_names +:+ " are reserved by Google Test)")
      [] "" ;;
    ret false
  else ret true.

(** [TestResult::RecordProperty] on the result that [get] and [put] are about. *)
Definition record_property (xml_element : string) (get : Unit → TestResult)
    (put : TestResult → Unit → Unit) (p : TestProperty) : M () :=
  match reserved_attributes xml_element with
  | None => crash
  | Some reserved =>
      let* valid := ValidateTestPropertyName p.(key_) reserved in
      if valid : bool then
        modify (λ u, put (mkResult (get u).(test_part_results_)
                            (set_property p (get u).(test_properties_))) u)
      else ret ()
  end.

(** [UnitTestImpl::RecordProperty]. *)
Definition record (key value : string) : M () :=
  let* t := gets current_test_info_ in
  let* c := gets current_test_case_ in
  match t, c with
  | Some t, _ =>
      record_property "testcase" (λ u, result_of u t)
        (λ r u, set_results (<[t := r]> u.(results)) u) (mkProperty key value)
  | None, Some c =>
      record_property "testsuite" (λ u, default empty_result (u.(case_ad_hoc) !! c))
        (λ r u, set_case_ad_hoc (<[c := r]> u.(case_ad_hoc)) u) (mkProperty key value)
  | None, None =>
      record_property "testsuites" ad_hoc_test_result_ set_ad_hoc (mkProperty key value)
  end.

(** ** Running code of the user *)

Fixpoint run_actions (l : list Action) : M () :=
  match l with
  | [] => ret ()
  | Report type file line msg traces trace :: l =>
      AddTestPartResult type file line msg traces trace ;; run_actions l
  | RecordProperty key value :: l => record key value ;; run_actions l
  | Throw what :: _ => throw (UserException what)
  end.

Definition quote : string := String (ascii_of_N 34) "".

Definition FormatCxxExceptionMessage (description : option string) (location : string) : string :=
  (match description with
   | Some d => "C++ exception with description " +:+ quote +:+ d +:+ quote
   | None => "Unknown C++ exception"
   end) +:+ " thrown in " +:+ location +:+ ".".

(** [HandleExceptionsInMethodIfSupported]: the value, or that an exception was caught
    and reported. *)
Definition HandleExceptions {A} (method : M A) (location : string) : M (option A) :=
  λ u,
    match method u with
    | (Ok a, u) => (Ok (Some a), u)
    | (Crash, u) => (Crash, u)
    | (Thrown e, u) =>
        if cfg.(catch_exceptions) then
          match e with
          | GoogleTestFailure => (Thrown e, u)
          | UserException what =>
              (AddTestPartResult kFatalFailure None (-1) (FormatCxxExceptionMessage what location)
                 [] "" ;; ret None) u
          end
        else (Thrown e, u)
    end.

(** A method of the user, with the call on record. *)
Definition call (c : Call) (s : Script) (location : string) : M bool :=
  modify (λ u, set_calls (u.(calls) ++ [c]) u) ;;
  let* r := HandleExceptions (run_actions (s iteration)) location in
  ret (match r with Some _ => true | None => false end).

Definition current_fatal : M bool := gets (λ u, HasFatalFailure (current_test_result u)).

(** ** One test *)

Definition mixed_fixtures (c : string) (first_is_TEST this_is_TEST : bool)
    (first_test_name this_test_name : string) : string :=
  if first_is_TEST || this_is_TEST then
    let TEST_name := if first_is_TEST then first_test_name else this_test_name in
    let TEST_F_name := if first_is_TEST then this_test_name else first_test_name in
    "All tests in the same test case must use the same test fixture" +:+ newline +:+
    "class, so mixing TEST_F and TEST in the same test case is" +:+ newline +:+
    "illegal.  In test case " +:+ c +:+ "," +:+ newline +:+
    "test " +:+ TEST_F_name +:+ " is defined using TEST_F but" +:+ newline +:+
    "test " +:+ TEST_name +:+ " is defined using TEST.  You probably" +:+ newline +:+
    "want to change the TEST to TEST_F or move it to another test" +:+ newline +:+ "case."
  else
    "All tests in the same test case must use the same test fixture" +:+ newline +:+
    "class.  However, in test case " +:+ c +:+ "," +:+ newline +:+
    "you defined test " +:+ first_test_name +:+ " and test " +:+ this_test_name +:+ newline +:+
    "using two different test fixture classes.  This can happen if" +:+ newline +:+
    "the two classes are from different namespaces or translation" +:+ newline +:+
    "units and have the same name.  You should probably rename one" +:+ newline +:+
    "of the classes to put the tests into different test cases.".

(** The fixture class of [TEST]. *)
Definition TestTypeId : nat := 0.

Definition HasSameFixtureClass (info : TestCase) (code : CaseCode) (j : nat) : M bool :=
  match code.(codes) !! 0%nat, code.(codes) !! j, info.(test_info_list) !! 0%nat,
        info.(test_info_list) !! j with
  | Some first, Some this, Some first_info, Some this_info =>
      if decide (this.(fixture_class_id) ≠ first.(fixture_class_id)) then
        AddTestPartResult kNonFatalFailure (Some "src/gtest.cc") 2302
          ("Failed" +:+ newline +:+
           mixed_fixtures (String.string_of_list_ascii info.(case_name))
             (bool_decide (first.(fixture_class_id) = TestTypeId))
             (bool_decide (this.(fixture_class_id) = TestTypeId))
             (String.string_of_list_ascii first_info.(test_name))
             (String.string_of_list_ascii this_info.(test_name))) [] "" ;;
        ret false
      else ret true
  | _, _, _, _ => crash
  end.

(** [Test::Run]. *)
Definition Test_Run (info : TestCase) (case : CaseCode) (t : TestId) (code : TestCode) : M () :=
  let* same := HasSameFixtureClass info case t.2 in
  if negb same then ret ()
  else
    call (CallSetUp t) code.(SetUp) "SetUp()" ;;
    let* fatal := current_fatal in
    (if negb fatal then call (Body t) code.(TestBody) "the test body" ;; ret () else ret ()) ;;
    call (CallTearDown t) code.(TearDown) "TearDown()" ;;
    ret ().

(** [TestInfo::Run].  The destructor is called on a null pointer when the constructor
    threw, where it does nothing. *)
Definition TestInfo_Run (info : TestCase) (case : CaseCode) (t : TestId) : M () :=
  match info.(test_info_list) !! t.2, case.(codes) !! t.2 with
  | Some test_info, Some code =>
      if negb test_info.(should_run_) then ret ()
      else
        modify (λ u, set_current u.(current_test_case_) (Some t) u) ;;
        notify (OnTestStart t) ;;
        let* created := call (Constructor t) code.(constructor) "the test fixture's constructor" in
        let* fatal := current_fatal in
        (if created && negb fatal then Test_Run info case t code else ret ()) ;;
        (if created : bool
         then call (Destructor t) code.(destructor) "the test fixture's destructor" ;; ret ()
         else ret ()) ;;
        notify (OnTestEnd t) ;;
        modify (λ u, set_current u.(current_test_case_) None u)
  | _, _ => crash
  end.

(** The tests of a case in the order of their indices; [-1] is a null pointer. *)
Fixpoint run_tests (info : TestCase) (case : CaseCode) (c : nat) (indices : list Z) : M () :=
  match indices with
  | [] => ret ()
  | index :: indices =>
      (if index <? 0 then crash else TestInfo_Run info case (c, Z.to_nat index)) ;;
      run_tests info case c indices
  end.

(** The indices of the loop [i = 0 .. total - 1]. *)
Definition in_turn (indices : list Z) (total : nat) : list Z :=
  (λ i, GetElementOr indices (Z.of_nat i) (-1)) <$> seq 0 total.

(** [TestCase::Run]. *)
Definition TestCase_Run (info : TestCase) (case : CaseCode) (indices : list Z) (c : nat)
    : M () :=
  if negb info.(should_run) then ret ()
  else
    modify (λ u, set_current (Some c) u.(current_test_info_) u) ;;
    notify (OnTestCaseStart c) ;;
    call (CallSetUpTestCase c) case.(SetUpTestCase) "SetUpTestCase()" ;;
    run_tests info case c (in_turn indices (length info.(test_info_list))) ;;
    call (CallTearDownTestCase c) case.(TearDownTestCase) "TearDownTestCase()" ;;
    notify (OnTestCaseEnd c) ;;
    modify (λ u, set_current None u.(current_test_info_) u).

(** ** One iteration *)

Fixpoint run_cases (test_cases : list TestCase) (o : Order) (indices : list Z) : M () :=
  match indices with
  | [] => ret ()
  | index :: indices =>
      (if index <? 0 then crash
       else
         let c := Z.to_nat index in
         match test_cases !! c, cfg.(program) !! c, o.(test_indices_) !! c with
         | Some info, Some case, Some l => TestCase_Run info case l c
         | _, _, _ => crash
         end) ;;
      run_cases test_cases o indices
  end.

(** Environments are not guarded against exceptions one by one. *)
Fixpoint run_environments (set_up : bool) (l : list (nat * EnvironmentCode)) : M () :=
  match l with
  | [] => ret ()
  | (n, e) :: l =>
      modify (λ u, set_calls (u.(calls) ++ [if set_up then EnvSetUp n else EnvTearDown n]) u) ;;
      run_actions ((if set_up then env_SetUp e else env_TearDown e) iteration) ;;
      run_environments set_up l
  end.

Definition numbered : list (nat * EnvironmentCode) := imap pair cfg.(environments_).

Definition case_failed (u : Unit) (c : nat) (info : TestCase) : bool :=
  existsb (λ x, x.2.(should_run_) && ResultFailed (result_of u (c, x.1)))
    (imap pair info.(test_info_list)).

(** [UnitTestImpl::Failed]. *)
Definition Failed (test_cases : list TestCase) (u : Unit) : bool :=
  existsb (λ x, x.2.(should_run) && case_failed u x.1 x.2) (imap pair test_cases)
  || ResultFailed u.(ad_hoc_test_result_).

(** The body of the loop of [RunAllTests], after the shuffle. *)
Definition run_iteration (test_cases : list TestCase) (has_tests_to_run : bool) (o : Order)
    : M () :=
  notify (OnTestIterationStart iteration) ;;
  (if has_tests_to_run then
     notify OnEnvironmentsSetUpStart ;;
     run_environments true numbered ;;
     notify OnEnvironmentsSetUpEnd ;;
     let* fatal := current_fatal in
     (if negb fatal
      then run_cases test_cases o (in_turn o.(test_case_indices_) (length test_cases))
      else ret ()) ;;
     notify OnEnvironmentsTearDownStart ;;
     run_environments false (reverse numbered) ;;
     notify OnEnvironmentsTearDownEnd
   else ret ()) ;;
  notify (OnTestIterationEnd iteration).

End Run.

(** [ClearNonAdHocTestResult]. *)
Definition ClearNonAdHocTestResult (u : Unit) : Unit :=
  set_results ∅ (set_case_ad_hoc ∅ u).

(** The loop of [RunAllTests]: [n] more iterations, from number [i]; the result is
    whether any has failed. *)
Fixpoint iterations (cfg : Config) (test_cases : list TestCase) (has_tests_to_run : bool)
    (n i : nat) (o : Order) (random_seed_ : Z) : M bool :=
  match n with
  | O => ret false
  | S n =>
      modify ClearNonAdHocTestResult ;;
      match (if has_tests_to_run && cfg.(flag_shuffle)
             then ShuffleTests (mkOrder o.(test_case_indices_) o.(test_indices_)
                                  o.(last_death_test_case_) random_seed_)
             else Some o) with
      | None => crash
      | Some shuffled =>
          run_iteration cfg i test_cases has_tests_to_run shuffled ;;
          let* failed := gets (Failed test_cases) in
          match (if cfg.(flag_shuffle) then GetNextRandomSeed random_seed_ else Some random_seed_) with
          | None => crash
          | Some seed =>
              let* rest := iterations cfg test_cases has_tests_to_run n (S i)
                             (UnshuffleTests shuffled) seed in
              ret (failed || rest)
          end
      end
  end.

(** How often the tests are repeated; [None] is forever. *)
Definition repeat_count (cfg : Config) (in_subprocess_for_death_test : bool) : option nat :=
  let repeat := if in_subprocess_for_death_test then 1 else cfg.(flag_repeat) in
  if repeat <? 0 then None else Some (Z.to_nat repeat).

(** [RunAllTests] after the choice of the tests, with a count of repetitions. *)
Definition RunAllTests (cfg : Config) (now : Z) (repeat : nat) (test_cases : list TestCase)
    (has_tests_to_run : bool) (o : Order) : M bool :=
  let seed := if cfg.(flag_shuffle)
              then GetRandomSeedFromFlag cfg.(flag_random_seed) now else 0 in
  notify cfg OnTestProgramStart ;;
  let* failed := iterations cfg test_cases has_tests_to_run repeat 0 o seed in
  notify cfg OnTestProgramEnd ;;
  ret (negb failed).

(** [UnitTest::Run]: the status of the process. *)
Definition Run (cfg : Config) (now : Z) (repeat : nat) (test_cases : list TestCase)
    (has_tests_to_run : bool) (o : Order) : M Z :=
  let* passed := HandleExceptions cfg (RunAllTests cfg now repeat test_cases has_tests_to_run o)
                   "auxiliary test code (environments or event listeners)" in
  ret (match passed with Some true => 0 | _ => 1 end).
