(* ===== verification/RunnerFacts.v ===== *)
(** Properties of the runner of Google Test: the life of a test, the nesting of the
    events, and what the status of the process says. *)

From S2P Require Import Prelude Strings Demangle TestRun TestRunFacts Runner.
From stdpp Require Import base gmap list strings.
From Stdlib Require Import ZArith Lia Ascii.

Open Scope Z_scope.
Open Scope run_scope.

#[local] Arguments FormatWordList : simpl never.
#[local] Arguments mixed_fixtures : simpl never.
#[local] Arguments full_message : simpl never.
#[local] Arguments FormatCxxExceptionMessage : simpl never.

(** * What a piece of the run does to the state *)

Definition parts (u : Unit) (t : TestId) : list TestPartResult :=
  test_part_results_ (result_of u t).
Definition ad_hoc (u : Unit) : list TestPartResult :=
  test_part_results_ u.(ad_hoc_test_result_).

Definition parts_ev (ps : list TestPartResult) : list Event := OnTestPartResult <$> ps.

Lemma parts_ev_app p q : parts_ev (p ++ q) = parts_ev p ++ parts_ev q.
Proof. apply fmap_app. Qed.

(** Looks into the first step of a sequence. *)
Ltac run_bind := unfold bind at 1; cbv beta iota.

Section Facts.
Variable cfg : Config.

(** What the listeners are told of a list of events. *)
Definition broadcast (evs : list Event) : list (nat * Event) :=
  if cfg.(forwarding_enabled_) then
    evs ≫= λ e, (λ l, (l, e)) <$> (if in_reverse e then reverse cfg.(listeners_)
                                   else cfg.(listeners_))
  else [].

Lemma broadcast_app a b : broadcast (a ++ b) = broadcast a ++ broadcast b.
Proof. unfold broadcast. destruct (forwarding_enabled_ cfg); [apply bind_app|done]. Qed.

(** From [u] to [u']: the events and the calls that came, and the results, which went
    to the test that is current, or else to the ad hoc ones. *)
Record stepped (evs : list Event) (cs : list Call) (ps : list TestPartResult) (u u' : Unit)
    : Prop := {
  st_case : u'.(current_test_case_) = u.(current_test_case_);
  st_test : u'.(current_test_info_) = u.(current_test_info_);
  st_events : u'.(events) = u.(events) ++ broadcast evs;
  st_calls : u'.(calls) = u.(calls) ++ cs;
  st_parts t : parts u' t =
    parts u t ++ (if decide (u.(current_test_info_) = Some t) then ps else []);
  st_ad_hoc : ad_hoc u' =
    ad_hoc u ++ (if decide (u.(current_test_info_) = None) then ps else [])
}.

Lemma stepped_refl u : stepped [] [] [] u u.
Proof.
  split; [done|done| | |intros t; case_decide|case_decide];
    unfold broadcast; try (destruct (forwarding_enabled_ cfg)); by rewrite app_nil_r.
Qed.

Lemma stepped_trans e1 c1 p1 e2 c2 p2 u v w :
  stepped e1 c1 p1 u v → stepped e2 c2 p2 v w →
  stepped (e1 ++ e2) (c1 ++ c2) (p1 ++ p2) u w.
Proof.
  intros [A1 A2 A3 A4 A5 A6] [B1 B2 B3 B4 B5 B6]. rewrite A2 in B5, B6.
  split; [congruence|congruence| | |intros t|].
  - by rewrite B3, A3, broadcast_app, app_assoc.
  - by rewrite B4, A4, app_assoc.
  - rewrite B5, A5, <-app_assoc. by destruct (decide (current_test_info_ u = Some t)).
  - rewrite B6, A6, <-app_assoc. by destruct (decide (current_test_info_ u = None)).
Qed.

(** A step that changes neither results nor calls nor what is current. *)
Lemma notify_stepped e u :
  ∃ u', notify cfg e u = (Ok (), u') ∧ stepped [e] [] [] u u' ∧
    results u' = results u ∧ ad_hoc_test_result_ u' = ad_hoc_test_result_ u.
Proof.
  unfold notify, modify. eexists. split; [done|].
  destruct (forwarding_enabled_ cfg) eqn:E; split; try done;
    split; try done; unfold broadcast; rewrite ?E; simpl;
    rewrite ?app_nil_r; try done; intros; by case_decide; rewrite app_nil_r.
Qed.

(** ** Results *)

Hypothesis no_break : break_on_failure cfg = false.
Hypothesis no_throw : throw_on_failure cfg = false.

Lemma parts_insert u t r t' :
  parts (set_results (<[t := r]> (results u)) u) t' =
  if decide (t' = t) then test_part_results_ r else parts u t'.
Proof.
  unfold parts, result_of. simpl. case_decide; subst.
  - by rewrite lookup_insert_eq.
  - by rewrite lookup_insert_ne.
Qed.

Lemma report_stepped p u :
  ∃ u', ReportTestPartResult cfg p u = (Ok (), u') ∧
    stepped [OnTestPartResult p] [] [p] u u'.
Proof.
  unfold ReportTestPartResult, bind, modify.
  set (v := match current_test_info_ u with Some _ => _ | None => _ end).
  destruct (notify_stepped (OnTestPartResult p) v) as (u' & -> & Hs & _).
  exists u'. split; [done|].
  assert (current_test_case_ v = current_test_case_ u ∧
          current_test_info_ v = current_test_info_ u ∧
          events v = events u ∧ calls v = calls u) as (E1 & E2 & E3 & E4).
  { unfold v. by destruct (current_test_info_ u) eqn:E; simpl; rewrite ?E. }
  destruct Hs as [S1 S2 S3 S4 S5 S6].
  assert (∀ P (d : Decision P), (if d then @nil TestPartResult else []) = []) as Hnil
    by (by intros P []).
  rewrite Hnil, app_nil_r in S6.
  split; [congruence|congruence|by rewrite S3, E3|by rewrite S4, E4|intros t|].
  - rewrite S5, Hnil, app_nil_r. unfold v.
    destruct (current_test_info_ u) as [t0|] eqn:Ec; [rewrite parts_insert|];
      repeat destruct (decide _); simplify_eq; try done; by rewrite app_nil_r.
  - rewrite S6. unfold v.
    destruct (current_test_info_ u) as [t0|] eqn:Ec; destruct (decide _); simplify_eq; simpl;
      [by rewrite app_nil_r|done].
Qed.

Lemma AddTestPartResult_stepped ty file line msg tr st u :
  ∃ u', AddTestPartResult cfg ty file line msg tr st u = (Ok (), u') ∧
    stepped [OnTestPartResult (mkPart ty file line (full_message msg tr st))] []
      [mkPart ty file line (full_message msg tr st)] u u'.
Proof.
  unfold AddTestPartResult, bind.
  destruct (report_stepped (mkPart ty file line (full_message msg tr st)) u) as (u' & -> & Hs).
  rewrite no_break, no_throw. exists u'. split; [by case_match|done].
Qed.

(** Changing properties changes no results. *)
Lemma record_property_stepped el get put p u :
  is_Some (reserved_attributes el) →
  (∀ r v, test_part_results_ r = test_part_results_ (get v) →
     current_test_case_ (put r v) = current_test_case_ v ∧
     current_test_info_ (put r v) = current_test_info_ v ∧
     events (put r v) = events v ∧ calls (put r v) = calls v ∧
     (∀ t, parts (put r v) t = parts v t) ∧ ad_hoc (put r v) = ad_hoc v) →
  ∃ u' ps, record_property cfg el get put p u = (Ok (), u') ∧
    stepped (parts_ev ps) [] ps u u' ∧ Forall (λ p, fatally_failed p = false) ps.
Proof.
  intros [res Hres] Hput. unfold record_property. rewrite Hres.
  unfold ValidateTestPropertyName. destruct (decide _).
  - unfold bind. set (m := "Failed" +:+ _).
    destruct (AddTestPartResult_stepped kNonFatalFailure (Some "src/gtest.cc") 2145 m [] "" u)
      as (u' & -> & Hs).
    simpl. exists u', [mkPart kNonFatalFailure (Some "src/gtest.cc") 2145 (full_message m [] "")].
    split; [done|]. split; [exact Hs|]. by repeat constructor.
  - unfold bind, ret, modify. eexists _, []. split; [done|]. split; [|constructor].
    destruct (Hput (mkResult (test_part_results_ (get u)) (set_property p (test_properties_ (get u)))) u)
      as (H1 & H2 & H3 & H4 & H5 & H6); [done|].
    pose proof (stepped_refl u) as [R1 R2 R3 R4 R5 R6].
    split; [done|done|by rewrite H3|by rewrite H4|intros t; by rewrite H5|by rewrite H6].
Qed.

Lemma record_stepped key value u :
  ∃ u' ps, record cfg key value u = (Ok (), u') ∧
    stepped (parts_ev ps) [] ps u u' ∧ Forall (λ p, fatally_failed p = false) ps.
Proof.
  unfold record, bind, gets.
  destruct (current_test_info_ u) as [t|]; [|destruct (current_test_case_ u) as [c|]];
    apply record_property_stepped; try (by eexists); intros r v Hr; simpl in *;
    split_and!; try done.
  intros t'. rewrite parts_insert. case_decide; [by subst|done].
Qed.

(** ** Actions of the user *)

(** Whether the actions end in an exception, and whether they fail fatally: an
    exception that is caught is a fatal failure. *)
Fixpoint throws (l : list Action) : option (option string) :=
  match l with
  | [] => None
  | Throw what :: _ => Some what
  | _ :: l => throws l
  end.
Fixpoint fatal (l : list Action) : bool :=
  match l with
  | [] => false
  | Report ty _ _ _ _ _ :: l => bool_decide (ty = kFatalFailure) || fatal l
  | RecordProperty _ _ :: l => fatal l
  | Throw _ :: _ => true
  end.

Lemma run_actions_stepped l u :
  ∃ u' ps,
    run_actions cfg l u =
      (match throws l with Some w => Thrown (UserException w) | None => Ok () end, u') ∧
    stepped (parts_ev ps) [] ps u u' ∧
    fatal l = existsb fatally_failed ps || bool_decide (is_Some (throws l)).
Proof.
  revert u. induction l as [|a l IH]; intros u; simpl.
  { exists u, []. split; [done|]. split; [apply stepped_refl|done]. }
  destruct a as [ty file line msg tr st|key value|w]; unfold bind.
  - destruct (AddTestPartResult_stepped ty file line msg tr st u) as (u1 & -> & Hs1).
    destruct (IH u1) as (u2 & ps & -> & Hs2 & Hf). eexists u2, (_ :: ps). split; [done|].
    split; [exact (stepped_trans _ _ _ _ _ _ _ _ _ Hs1 Hs2)|].
    simpl. rewrite Hf. unfold fatally_failed at 2. simpl. by rewrite orb_assoc.
  - destruct (record_stepped key value u) as (u1 & p1 & -> & Hs1 & Hnf).
    destruct (IH u1) as (u2 & ps & -> & Hs2 & Hf). exists u2, (p1 ++ ps). split; [done|].
    split; [rewrite parts_ev_app; exact (stepped_trans _ _ _ _ _ _ _ _ _ Hs1 Hs2)|].
    rewrite Hf, existsb_app.
    assert (existsb fatally_failed p1 = false) as ->; [|done].
    clear -Hnf. induction Hnf as [|p p1 Hp _ IH]; simpl; [done|by rewrite Hp].
  - exists u, []. split; [done|]. split; [apply stepped_refl|done].
Qed.

Hypothesis catches : catch_exceptions cfg = true.

(** A guarded call: it returns, saying whether it threw, and fails fatally when it
    did or said so. *)
Lemma call_stepped i c (s : Script) loc u :
  ∃ u' ps, call cfg i c s loc u = (Ok (bool_decide (throws (s i) = None)), u') ∧
    stepped (parts_ev ps) [c] ps u u' ∧
    existsb fatally_failed ps = fatal (s i).
Proof.
  unfold call, bind, modify, HandleExceptions.
  set (v := set_calls (calls u ++ [c]) u).
  assert (stepped [] [c] [] u v) as Hv.
  { pose proof (stepped_refl u) as [R1 R2 R3 R4 R5 R6]. by split. }
  destruct (run_actions_stepped (s i) v) as (u1 & ps & -> & Hs & Hf).
  destruct (throws (s i)) as [w|] eqn:Ht.
  - rewrite catches.
    destruct (AddTestPartResult_stepped kFatalFailure None (-1) (FormatCxxExceptionMessage w loc)
      [] "" u1) as (u2 & E & Hs2). unfold bind. rewrite E. simpl.
    eexists u2, (ps ++ [_]). split; [done|]. split.
    + rewrite parts_ev_app.
      exact (stepped_trans [] [c] [] _ [] _ _ _ _ Hv (stepped_trans _ _ _ _ _ _ _ _ _ Hs Hs2)).
    + rewrite existsb_app. simpl. rewrite Hf. simpl. by rewrite !orb_true_r.
  - exists u1, ps. split; [done|]. split.
    + exact (stepped_trans [] [c] [] _ [] _ _ _ _ Hv Hs).
    + rewrite Hf. simpl. by rewrite orb_false_r.
Qed.

(** * The life of a test *)

Lemma HasFatalFailure_existsb r :
  HasFatalFailure r = existsb fatally_failed (test_part_results_ r).
Proof.
  unfold HasFatalFailure. induction (test_part_results_ r) as [|p l IH]; [done|].
  rewrite count_true_cons. simpl. rewrite <-IH. destruct (fatally_failed p); simpl; [|done].
  apply Z.ltb_lt. lia.
Qed.

(** The calls of the user's code for a test, in order: nothing after a constructor
    that throws; the fixture and the body are left out when the constructor fails
    fatally or the fixture class is not that of the case; the body when [SetUp] fails
    fatally; [TearDown] is called whenever [SetUp] was. *)
Definition test_calls (i : nat) (t : TestId) (same_fixture : bool) (code : TestCode) : list Call :=
  Constructor t ::
  (if bool_decide (throws (constructor code i) = None) then
     (if fatal (constructor code i) || negb same_fixture then []
      else [CallSetUp t] ++ (if fatal (SetUp code i) then [] else [Body t]) ++ [CallTearDown t])
     ++ [Destructor t]
   else []).

Definition same_fixture (case : CaseCode) (j : nat) : bool :=
  bool_decide (fixture_class_id <$> case.(codes) !! j = fixture_class_id <$> case.(codes) !! 0%nat).

Lemma HasSameFixtureClass_stepped info case j u :
  is_Some (case.(codes) !! j) → length info.(test_info_list) = length case.(codes) →
  ∃ u' ps, HasSameFixtureClass cfg info case j u = (Ok (same_fixture case j), u') ∧
    stepped (parts_ev ps) [] ps u u' ∧ existsb fatally_failed ps = false.
Proof.
  intros [this Hthis] Hlen. unfold HasSameFixtureClass, same_fixture.
  pose proof (lookup_lt_Some _ _ _ Hthis) as Hj.
  destruct (lookup_lt_is_Some_2 (codes case) 0) as [first Hfirst]; [lia|].
  destruct (lookup_lt_is_Some_2 (test_info_list info) 0) as [fi Hfi]; [lia|].
  destruct (lookup_lt_is_Some_2 (test_info_list info) j) as [ti Hti]; [lia|].
  rewrite Hthis, Hfirst, Hfi, Hti. simpl.
  destruct (decide (fixture_class_id this ≠ fixture_class_id first)) as [Hne|Heq].
  - unfold bind. set (m := "Failed" +:+ _).
    destruct (AddTestPartResult_stepped kNonFatalFailure (Some "src/gtest.cc") 2302 m [] "" u)
      as (u' & -> & Hs).
    rewrite bool_decide_eq_false_2 by congruence.
    exists u', [mkPart kNonFatalFailure (Some "src/gtest.cc") 2302 (full_message m [] "")].
    split; [done|]. by split.
  - rewrite bool_decide_eq_true_2 by (f_equal; by destruct (decide (fixture_class_id this = fixture_class_id first))).
    exists u, []. split; [done|]. split; [apply stepped_refl|done].
Qed.

(** [Test::Run], for a test that is current. *)
Lemma Test_Run_stepped i info case t code u :
  case.(codes) !! t.2 = Some code → length info.(test_info_list) = length case.(codes) →
  u.(current_test_info_) = Some t → existsb fatally_failed (parts u t) = false →
  ∃ u' ps, Test_Run cfg i info case t code u = (Ok (), u') ∧
    stepped (parts_ev ps)
      (if same_fixture case t.2
       then [CallSetUp t] ++ (if fatal (SetUp code i) then [] else [Body t]) ++ [CallTearDown t]
       else []) ps u u'.
Proof.
  intros Hcode Hlen Hcur Hnf. unfold Test_Run, bind.
  destruct (HasSameFixtureClass_stepped info case t.2 u) as (u1 & p1 & -> & Hs1 & Hf1);
    [by eexists|done|].
  destruct (same_fixture case t.2); simpl; [|by exists u1, p1].
  destruct (call_stepped i (CallSetUp t) (SetUp code) "SetUp()" u1) as (u2 & p2 & -> & Hs2 & Hf2).
  unfold current_fatal, gets. rewrite HasFatalFailure_existsb. unfold current_test_result.
  pose proof (stepped_trans _ _ _ _ _ _ _ _ _ Hs1 Hs2) as H12.
  rewrite (st_test _ _ _ _ _ H12), Hcur.
  assert (existsb fatally_failed (test_part_results_ (result_of u2 t)) = fatal (SetUp code i)) as ->.
  { change (test_part_results_ (result_of u2 t)) with (parts u2 t).
    rewrite (st_parts _ _ _ _ _ H12), Hcur, decide_True by done.
    by rewrite !existsb_app, Hnf, Hf1, Hf2. }
  destruct (fatal (SetUp code i)) eqn:Hfs; simpl.
  - destruct (call_stepped i (CallTearDown t) (TearDown code) "TearDown()" u2)
      as (u3 & p3 & E & Hs3 & _). rewrite E.
    exists u3, ((p1 ++ p2) ++ p3). split; [done|]. rewrite !parts_ev_app.
    exact (stepped_trans _ _ _ _ _ _ _ _ _ H12 Hs3).
  - destruct (call_stepped i (Body t) (TestBody code) "the test body" u2) as (u3 & p3 & E3 & Hs3 & _).
    rewrite E3. simpl.
    destruct (call_stepped i (CallTearDown t) (TearDown code) "TearDown()" u3)
      as (u4 & p4 & E & Hs4 & _). rewrite E.
    exists u4, (((p1 ++ p2) ++ p3) ++ p4). split; [done|]. rewrite !parts_ev_app.
    exact (stepped_trans _ _ _ _ _ _ _ _ _ (stepped_trans _ _ _ _ _ _ _ _ _ H12 Hs3) Hs4).
Qed.

(** What a test has done when it is over. *)
Record tested (t : TestId) (evs : list Event) (cs : list Call) (ps : list TestPartResult)
    (u u' : Unit) : Prop := {
  td_case : u'.(current_test_case_) = u.(current_test_case_);
  td_test : u'.(current_test_info_) = None;
  td_events : u'.(events) = u.(events) ++ broadcast evs;
  td_calls : u'.(calls) = u.(calls) ++ cs;
  td_parts t' : parts u' t' = if decide (t' = t) then ps else parts u t';
  td_ad_hoc : ad_hoc u' = ad_hoc u
}.

Lemma TestInfo_Run_tested i info case t code ti u :
  case.(codes) !! t.2 = Some code → info.(test_info_list) !! t.2 = Some ti →
  length info.(test_info_list) = length case.(codes) →
  ti.(should_run_) = true → u.(current_test_info_) = None → parts u t = [] →
  ∃ u' ps, TestInfo_Run cfg i info case t u = (Ok (), u') ∧
    tested t (OnTestStart t :: parts_ev ps ++ [OnTestEnd t])
      (test_calls i t (same_fixture case t.2) code) ps u u'.
Proof.
  intros Hcode Hti Hlen Hrun Hcur Hp0. unfold TestInfo_Run. rewrite Hti, Hcode, Hrun. cbn [negb].
  cbv iota. run_bind. unfold modify at 1. cbv beta iota.
  run_bind.
  match goal with |- context [notify cfg (OnTestStart t) ?x] => set (v := x) end.
  destruct (notify_stepped (OnTestStart t) v) as (u1 & -> & Hs1 & _).
  run_bind.
  destruct (call_stepped i (Constructor t) (constructor code)
    "the test fixture's constructor" u1) as (u2 & p2 & -> & Hs2 & Hf2).
  pose proof (stepped_trans _ _ _ _ _ _ _ _ _ Hs1 Hs2) as H12.
  assert (current_test_info_ u2 = Some t) as Hc2 by (by rewrite (st_test _ _ _ _ _ H12)).
  assert (parts u2 t = p2) as Hp2.
  { rewrite (st_parts _ _ _ _ _ H12). simpl. rewrite decide_True by done.
    change (parts v t) with (parts u t). by rewrite Hp0. }
  run_bind. unfold current_fatal, gets. cbv beta iota. rewrite HasFatalFailure_existsb.
  unfold current_test_result. rewrite Hc2.
  change (test_part_results_ (result_of u2 t)) with (parts u2 t). rewrite Hp2, Hf2.
  unfold test_calls.
  assert (∃ u3 p3, (if bool_decide (throws (constructor code i) = None) && negb (fatal (constructor code i))
      then Test_Run cfg i info case t code else ret ()) u2 = (Ok (), u3) ∧
    stepped (parts_ev p3)
      (if bool_decide (throws (constructor code i) = None) &&
          negb (fatal (constructor code i) || negb (same_fixture case t.2))
       then [CallSetUp t] ++ (if fatal (SetUp code i) then [] else [Body t]) ++ [CallTearDown t]
       else []) p3 u2 u3) as (u3 & p3 & H3 & Hs3).
  { destruct (bool_decide _ && negb (fatal (constructor code i))) eqn:E.
    - apply andb_true_iff in E as [E1 E2]. apply negb_true_iff in E2.
      destruct (Test_Run_stepped i info case t code u2 Hcode Hlen Hc2) as (u3 & p3 & H3 & Hs3).
      { by rewrite Hp2, Hf2. }
      exists u3, p3. split; [done|]. rewrite E1, E2. simpl. rewrite negb_involutive.
      by destruct (same_fixture case t.2).
    - exists u2, []. split; [done|].
      assert ((bool_decide (throws (constructor code i) = None) &&
        negb (fatal (constructor code i) || negb (same_fixture case t.2))) = false) as ->.
      { destruct (bool_decide _); simpl in *; [|done]. apply negb_false_iff in E. by rewrite E. }
      apply stepped_refl. }
  run_bind. rewrite H3.
  pose proof (stepped_trans _ _ _ _ _ _ _ _ _ H12 Hs3) as H123.
  assert (∃ u4 p4, (if bool_decide (throws (constructor code i) = None)
      then (call cfg i (Destructor t) (destructor code) "the test fixture's destructor" ;; ret ())%run
      else ret ()) u3 = (Ok (), u4) ∧
    stepped (parts_ev p4) (if bool_decide (throws (constructor code i) = None)
      then [Destructor t] else []) p4 u3 u4) as (u4 & p4 & H4 & Hs4).
  { destruct (bool_decide _); [|exists u3, []; split; [done|apply stepped_refl]].
    destruct (call_stepped i (Destructor t) (destructor code) "the test fixture's destructor" u3)
      as (u4 & p4 & E & Hs & _). unfold bind. rewrite E. by exists u4, p4. }
  run_bind. rewrite H4.
  destruct (notify_stepped (OnTestEnd t) u4) as (u5 & H5 & Hs5 & _).
  run_bind. rewrite H5. cbv beta iota. unfold modify.
  pose proof (stepped_trans _ _ _ _ _ _ _ _ _ H123 (stepped_trans _ _ _ _ _ _ _ _ _ Hs4 Hs5))
    as [F1 F2 F3 F4 F5 F6].
  eexists _, ((p2 ++ p3) ++ p4). split; [done|]. simpl in F2.
  split; simpl; try done.
  - rewrite F3, !parts_ev_app. simpl. by rewrite <-!app_assoc.
  - rewrite F4. simpl. rewrite ?app_nil_r. do 2 f_equal.
    destruct (bool_decide (throws (constructor code i) = None)); simpl; [|done].
    by destruct (fatal (constructor code i) || negb (same_fixture case t.2)).
  - intros t'. change (parts (set_current _ _ u5) t') with (parts u5 t'). rewrite F5.
    change (parts v t') with (parts u t').
    change (current_test_info_ v) with (@Some (nat * nat) t).
    destruct (decide (t' = t)) as [->|Hne].
    + rewrite decide_True by done. rewrite Hp0. simpl. by rewrite app_nil_r.
    + rewrite decide_False by congruence. by rewrite app_nil_r.
  - change (ad_hoc (set_current _ _ u5)) with (ad_hoc u5). rewrite F6. simpl.
    by rewrite app_nil_r.
Qed.

(** * Cases and iterations *)

(** The events of the tests [js] of case [c], one after the other. *)
Inductive tests_events (c : nat) : list nat → list Event → Prop :=
  | te_nil : tests_events c [] []
  | te_cons j js ps evs :
      tests_events c js evs →
      tests_events c (j :: js)
        (OnTestStart (c, j) :: parts_ev ps ++ OnTestEnd (c, j) :: evs).

(** The events of the cases [cs], whose tests are [order c]. *)
Inductive cases_events (order : nat → list nat) : list nat → list Event → Prop :=
  | ce_nil : cases_events order [] []
  | ce_cons c cs p1 tests p2 evs :
      tests_events c (order c) tests → cases_events order cs evs →
      cases_events order (c :: cs)
        (OnTestCaseStart c :: parts_ev p1 ++ tests ++ parts_ev p2 ++ OnTestCaseEnd c :: evs).

Definition is_failure (e : Event) : bool :=
  match e with OnTestPartResult p => failed p | _ => false end.

(** Whether a test is open after the events, and the results outside of tests. *)
Fixpoint inside (in_test : bool) (evs : list Event) : bool :=
  match evs with
  | [] => in_test
  | OnTestStart _ :: evs => inside true evs
  | OnTestEnd _ :: evs => inside false evs
  | _ :: evs => inside in_test evs
  end.
Fixpoint outside (in_test : bool) (evs : list Event) : list TestPartResult :=
  match evs with
  | [] => []
  | OnTestStart _ :: evs => outside true evs
  | OnTestEnd _ :: evs => outside false evs
  | OnTestPartResult p :: evs => (if in_test then [] else [p]) ++ outside in_test evs
  | _ :: evs => outside in_test evs
  end.

Lemma inside_app b e1 e2 : inside b (e1 ++ e2) = inside (inside b e1) e2.
Proof. revert b. induction e1 as [|[] e1 IH]; intros b; simpl; auto. Qed.

Lemma outside_app b e1 e2 : outside b (e1 ++ e2) = outside b e1 ++ outside (inside b e1) e2.
Proof.
  revert b. induction e1 as [|[] e1 IH]; intros b; simpl; auto.
  by rewrite IH, <-app_assoc.
Qed.

Lemma inside_parts_ev b ps : inside b (parts_ev ps) = b.
Proof. induction ps; simpl; auto. Qed.

Lemma outside_parts_ev (b : bool) ps : outside b (parts_ev ps) = if b then [] else ps.
Proof. induction ps as [|p ps IH]; simpl; [by destruct b|]. rewrite IH. by destruct b. Qed.

Variable test_cases : list TestCase.

Definition selected (t : TestId) : bool :=
  match test_cases !! t.1 with
  | Some info =>
      info.(should_run) &&
      match info.(test_info_list) !! t.2 with Some ti => ti.(should_run_) | None => false end
  | None => false
  end.

(** Some result of a selected test or outside of the tests is a failure. *)
Definition bad (u : Unit) : Prop :=
  existsb failed (ad_hoc u) = true ∨
  ∃ t, selected t = true ∧ existsb failed (parts u t) = true.

Record ran (evs : list Event) (cs : list Call) (u u' : Unit) : Prop := {
  rn_test : u.(current_test_info_) = None → u'.(current_test_info_) = None;
  rn_events : u'.(events) = u.(events) ++ broadcast evs;
  rn_calls : u'.(calls) = u.(calls) ++ cs;
  rn_bad : bad u' ↔ bad u ∨ existsb is_failure evs = true;
  rn_parts t : OnTestStart t ∉ evs → parts u' t = parts u t;
  rn_ad_hoc : ad_hoc u' = ad_hoc u ++ outside false evs;
  rn_closed : inside false evs = false
}.

Lemma ran_trans e1 c1 e2 c2 u v w :
  ran e1 c1 u v → ran e2 c2 v w → ran (e1 ++ e2) (c1 ++ c2) u w.
Proof.
  intros [A1 A2 A3 A4 A5 A6 A7] [B1 B2 B3 B4 B5 B6 B7]. split; [auto| | | | | |].
  - by rewrite B2, A2, broadcast_app, app_assoc.
  - by rewrite B3, A3, app_assoc.
  - rewrite B4, A4, existsb_app, orb_true_iff. tauto.
  - intros t Ht. rewrite B5, A5; [done|set_solver|set_solver].
  - by rewrite B6, A6, outside_app, A7, app_assoc.
  - by rewrite inside_app, A7.
Qed.

Lemma ran_refl u : ran [] [] u u.
Proof.
  split; [done| | | |done| |done].
  - pose proof (stepped_refl u) as []. done.
  - by rewrite app_nil_r.
  - simpl. split; [auto|intros [?|?]; done].
  - simpl. by rewrite app_nil_r.
Qed.

Lemma existsb_parts_ev ps : existsb is_failure (parts_ev ps) = existsb failed ps.
Proof. induction ps as [|p ps IH]; [done|]. simpl. by rewrite IH. Qed.

Lemma no_start_parts_ev t ps : OnTestStart t ∉ parts_ev ps.
Proof. unfold parts_ev. rewrite list_elem_of_fmap. by intros (? & ? & ?). Qed.

(** Outside of tests. *)
Lemma stepped_ran evs cs ps u u' :
  u.(current_test_info_) = None → stepped evs cs ps u u' →
  existsb is_failure evs = existsb failed ps → outside false evs = ps →
  inside false evs = false → ran evs cs u u'.
Proof.
  intros Hc [S1 S2 S3 S4 S5 S6] Hf Hout Hin. rewrite Hc in S5, S6. rewrite decide_True in S6 by done.
  assert (∀ t, parts u' t = parts u t) as Hp.
  { intros t. rewrite S5, decide_False by done. by rewrite app_nil_r. }
  split; try done; [by rewrite S2| |].
  - unfold bad. rewrite S6, existsb_app, orb_true_iff, Hf. setoid_rewrite Hp. tauto.
  - by rewrite S6, Hout.
Qed.

Lemma stepped_ran_parts cs ps u u' :
  u.(current_test_info_) = None → stepped (parts_ev ps) cs ps u u' → ran (parts_ev ps) cs u u'.
Proof.
  intros Hc Hs. eapply stepped_ran; [done|done|apply existsb_parts_ev| |].
  - apply outside_parts_ev.
  - apply inside_parts_ev.
Qed.

Definition plain (e : Event) : bool :=
  match e with OnTestStart _ | OnTestEnd _ | OnTestPartResult _ => false | _ => true end.

Lemma notify_ran e u :
  u.(current_test_info_) = None → plain e = true →
  ∃ u', notify cfg e u = (Ok (), u') ∧ ran [e] [] u u' ∧
    current_test_case_ u' = current_test_case_ u.
Proof.
  intros Hc Hf. destruct (notify_stepped e u) as (u' & H & Hs & _). exists u'.
  split; [done|]. split; [|apply Hs].
  eapply stepped_ran; [done|done|by destruct e..].
Qed.

Lemma call_ran i c (s : Script) loc u :
  u.(current_test_info_) = None →
  ∃ u' ps b, call cfg i c s loc u = (Ok b, u') ∧ ran (parts_ev ps) [c] u u'.
Proof.
  intros Hc. destruct (call_stepped i c s loc u) as (u' & ps & H & Hs & _).
  eexists u', ps, _. split; [done|]. by apply stepped_ran_parts.
Qed.

(** A test that is selected and has not run. *)
Lemma tested_ran t evs cs ps u u' :
  selected t = true → u.(current_test_info_) = None → parts u t = [] →
  tested t evs cs ps u u' → evs = OnTestStart t :: parts_ev ps ++ [OnTestEnd t] →
  ran evs cs u u'.
Proof.
  intros Hsel Hc Hp0 [T1 T2 T3 T4 T5 T6] ->.
  assert (existsb is_failure (OnTestStart t :: parts_ev ps ++ [OnTestEnd t])
          = existsb failed ps) as Hf.
  { simpl. rewrite existsb_app, existsb_parts_ev. simpl. by rewrite orb_false_r. }
  split; try done.
  - unfold bad. rewrite T6, Hf. split.
    + intros [?|(t' & Ht' & H)]; [by left; left|]. rewrite T5 in H.
      case_decide; [by right|]. left. right. eauto.
    + intros [[?|(t' & Ht' & H)]|H]; [by left| |].
      * right. exists t'. split; [done|]. rewrite T5. case_decide; [|done].
        subst. by rewrite Hp0 in H.
      * right. exists t. split; [done|]. by rewrite T5, decide_True.
  - intros t' Ht'. rewrite T5. case_decide; [subst; set_solver|done].
  - rewrite T6. simpl. by rewrite outside_app, outside_parts_ev, inside_parts_ev, app_nil_r.
  - simpl. by rewrite inside_app.
Qed.

Hypothesis aligned :
  Forall2 (λ info case, length info.(test_info_list) = length case.(codes))
    test_cases cfg.(program).

(** The calls of the code of the tests [js]. *)
Definition tests_calls (i c : nat) (case : CaseCode) (js : list nat) : list Call :=
  js ≫= λ j, match case.(codes) !! j with
             | Some code => test_calls i (c, j) (same_fixture case j) code
             | None => []
             end.

Lemma run_tests_ran i c info case js u :
  test_cases !! c = Some info → cfg.(program) !! c = Some case →
  info.(should_run) = true → u.(current_test_info_) = None →
  NoDup js → (∀ j, j ∈ js → (j < length info.(test_info_list))%nat) →
  (∀ j, j ∈ js → parts u (c, j) = []) →
  ∃ u' evs, run_tests cfg i info case c (Z.of_nat <$> js) u = (Ok (), u') ∧
    ran evs (tests_calls i c case (filter (λ j, selected (c, j) = true) js)) u u' ∧
    tests_events c (filter (λ j, selected (c, j) = true) js) evs.
Proof.
  intros Hinfo Hcase Hrun Hc Hnd Hlt. revert u Hc.
  assert (length info.(test_info_list) = length case.(codes)) as Hlen
    by exact (Forall2_lookup_lr _ _ _ _ _ _ aligned Hinfo Hcase).
  induction js as [|j js IH]; intros u Hc Hfresh; simpl.
  { exists u, []. split; [done|]. split; [apply ran_refl|constructor]. }
  apply NoDup_cons in Hnd as [Hj Hnd].
  destruct (lookup_lt_is_Some_2 (test_info_list info) j) as [ti Hti]; [apply Hlt; set_solver|].
  destruct (lookup_lt_is_Some_2 (codes case) j) as [code Hcode]; [rewrite <-Hlen; apply Hlt; set_solver|].
  assert (selected (c, j) = should_run_ ti) as Hsel.
  { unfold selected. simpl. by rewrite Hinfo, Hti, Hrun. }
  unfold bind. rewrite (proj2 (Z.ltb_ge _ _)), Nat2Z.id by lia.
  destruct (should_run_ ti) eqn:Er.
  - destruct (TestInfo_Run_tested i info case (c, j) code ti u Hcode Hti Hlen Er Hc)
      as (u1 & ps & -> & Ht); [apply Hfresh; set_solver|].
    pose proof (tested_ran _ _ _ _ _ _ Hsel Hc (Hfresh j ltac:(set_solver)) Ht eq_refl) as Hr1.
    destruct (IH Hnd ltac:(intros; apply Hlt; set_solver) u1) as (u2 & evs & H2 & Hr2 & He).
    { apply Ht. }
    { intros k Hk. rewrite (rn_parts _ _ _ _ Hr1); [apply Hfresh; set_solver|].
      intros [E|[E|E]%elem_of_app]%elem_of_cons; [simplify_eq; set_solver
        |by apply no_start_parts_ev in E|set_solver]. }
    rewrite filter_cons_True by done.
    exists u2, ((OnTestStart (c, j) :: parts_ev ps ++ [OnTestEnd (c, j)]) ++ evs).
    split; [done|]. split.
    + unfold tests_calls. simpl. rewrite Hcode. exact (ran_trans _ _ _ _ _ _ _ Hr1 Hr2).
    + simpl. rewrite <-app_assoc. by constructor.
  - assert (TestInfo_Run cfg i info case (c, j) u = (Ok (), u)) as ->.
    { unfold TestInfo_Run. simpl. by rewrite Hti, Hcode, Er. }
    rewrite filter_cons_False by congruence.
    apply IH; [done|intros; apply Hlt; set_solver|done|intros; apply Hfresh; set_solver].
Qed.

(** ** A case *)

Definition selected_case (c : nat) : bool :=
  match test_cases !! c with Some info => info.(should_run) | None => false end.

(** The selected ones of the tests that [order] gives for case [c]. *)
Definition chosen (order : nat → list nat) (c : nat) : list nat :=
  filter (λ j, selected (c, j) = true) (order c).

Definition case_calls (i : nat) (order : nat → list nat) (c : nat) : list Call :=
  match cfg.(program) !! c with
  | Some case =>
      CallSetUpTestCase c :: tests_calls i c case (chosen order c) ++ [CallTearDownTestCase c]
  | None => []
  end.

Lemma in_turn_id (js : list nat) n :
  length js = n → in_turn (Z.of_nat <$> js) n = Z.of_nat <$> js.
Proof.
  intros <-. unfold in_turn. apply list_eq. intros k. rewrite !list_lookup_fmap.
  destruct (decide (k < length js)%nat) as [Hk|Hk].
  - rewrite lookup_seq_lt by done. simpl. unfold GetElementOr.
    rewrite (proj2 (Z.ltb_ge _ _)), (proj2 (Z.leb_gt _ _)) by (rewrite ?length_fmap; lia).
    simpl. rewrite Nat2Z.id, list_lookup_fmap.
    destruct (lookup_lt_is_Some_2 js k Hk) as [j ->]. done.
  - rewrite lookup_seq_ge, (lookup_ge_None_2 js) by lia. done.
Qed.

Lemma tests_events_starts c js evs t :
  tests_events c js evs → OnTestStart t ∈ evs → t.1 = c ∧ t.2 ∈ js.
Proof.
  induction 1 as [|j js ps evs _ IH]; [set_solver|].
  rewrite elem_of_cons, elem_of_app, elem_of_cons. intros [[=->]|[H|[[=]|H]]].
  - set_solver.
  - by apply no_start_parts_ev in H.
  - destruct (IH H). set_solver.
Qed.

Lemma cases_events_starts order cs evs t :
  cases_events order cs evs → OnTestStart t ∈ evs → t.1 ∈ cs ∧ t.2 ∈ order t.1.
Proof.
  induction 1 as [|c cs p1 tests p2 evs Ht _ IH]; [set_solver|].
  rewrite elem_of_cons, !elem_of_app, elem_of_cons.
  intros [[=]|[H|[H|[H|[[=]|H]]]]]; try (by apply no_start_parts_ev in H).
  - destruct (tests_events_starts _ _ _ _ Ht H) as [<- ?]. set_solver.
  - destruct (IH H). set_solver.
Qed.

Lemma set_current_ran c u :
  u.(current_test_info_) = None → ran [] [] u (set_current c u.(current_test_info_) u).
Proof.
  intros Hc. destruct (ran_refl u) as [R1 R2 R3 R4 R5 R6]. by split.
Qed.

Lemma TestCase_Run_ran i c info case order u :
  test_cases !! c = Some info → cfg.(program) !! c = Some case →
  u.(current_test_info_) = None →
  order c ≡ₚ seq 0 (length info.(test_info_list)) →
  (∀ j, parts u (c, j) = []) →
  ∃ u' evs, TestCase_Run cfg i info case (Z.of_nat <$> order c) c u = (Ok (), u') ∧
    ran evs (if info.(should_run) then case_calls i order c else []) u u' ∧
    cases_events (chosen order) (if info.(should_run) then [c] else []) evs.
Proof.
  intros Hinfo Hcase Hc Hord Hfresh. unfold TestCase_Run, case_calls. rewrite Hcase.
  destruct (should_run info) eqn:Hrun; simpl;
    [|exists u, []; split; [done|]; split; [apply ran_refl|constructor]].
  run_bind. unfold modify at 1. cbv beta iota.
  pose proof (set_current_ran (Some c) u Hc) as Hr0.
  set (v := set_current (Some c) (current_test_info_ u) u) in *.
  destruct (notify_ran (OnTestCaseStart c) v Hc eq_refl) as (u1 & E1 & Hr1 & _).
  run_bind. rewrite E1. pose proof (rn_test _ _ _ _ Hr1 Hc) as Hc1.
  destruct (call_ran i (CallSetUpTestCase c) (SetUpTestCase case) "SetUpTestCase()" u1 Hc1)
    as (u2 & p2 & b2 & E2 & Hr2).
  run_bind. rewrite E2. pose proof (rn_test _ _ _ _ Hr2 Hc1) as Hc2.
  rewrite in_turn_id by (by rewrite Hord, length_seq).
  pose proof (ran_trans _ _ _ _ _ _ _ Hr0 (ran_trans _ _ _ _ _ _ _ Hr1 Hr2)) as Hr02.
  destruct (run_tests_ran i c info case (order c) u2 Hinfo Hcase Hrun Hc2)
    as (u3 & e3 & E3 & Hr3 & He3).
  { rewrite Hord. apply NoDup_seq. }
  { intros j. rewrite Hord, elem_of_seq. lia. }
  { intros j _. rewrite (rn_parts _ _ _ _ Hr02); [apply Hfresh|]. simpl.
    intros [[=]|H]%elem_of_cons. by apply no_start_parts_ev in H. }
  run_bind. rewrite E3. pose proof (rn_test _ _ _ _ Hr3 Hc2) as Hc3.
  destruct (call_ran i (CallTearDownTestCase c) (TearDownTestCase case) "TearDownTestCase()" u3 Hc3)
    as (u4 & p4 & b4 & E4 & Hr4).
  run_bind. rewrite E4. pose proof (rn_test _ _ _ _ Hr4 Hc3) as Hc4.
  destruct (notify_ran (OnTestCaseEnd c) u4 Hc4 eq_refl) as (u5 & E5 & Hr5 & _).
  run_bind. rewrite E5. pose proof (rn_test _ _ _ _ Hr5 Hc4) as Hc5.
  unfold modify. cbv beta iota.
  pose proof (set_current_ran None u5 Hc5) as Hr6.
  pose proof (ran_trans _ _ _ _ _ _ _ (ran_trans _ _ _ _ _ _ _ Hr02 Hr3)
    (ran_trans _ _ _ _ _ _ _ Hr4 (ran_trans _ _ _ _ _ _ _ Hr5 Hr6))) as Hr.
  eexists _, _. split; [done|]. split; [exact Hr|]. rewrite <-!app_assoc. simpl.
  constructor; [done|constructor].
Qed.

(** ** The cases *)

(** [o] has the cases in the order [cases], and the tests of case [c] in that of
    [order c]. *)
Record in_order_of (o : Order) (cases : list nat) (order : nat → list nat) : Prop := {
  io_cases : o.(test_case_indices_) = Z.of_nat <$> cases;
  io_tests c : (c < length test_cases)%nat →
    o.(test_indices_) !! c = Some (Z.of_nat <$> order c)
}.

(** They are the registered ones. *)
Record orders (cases : list nat) (order : nat → list nat) : Prop := {
  or_cases : cases ≡ₚ seq 0 (length test_cases);
  or_tests c info : test_cases !! c = Some info →
    order c ≡ₚ seq 0 (length info.(test_info_list))
}.

Definition chosen_cases (cases : list nat) : list nat :=
  filter (λ c, selected_case c = true) cases.

Lemma run_cases_ran i o order cs u :
  (∀ c, (c < length test_cases)%nat → o.(test_indices_) !! c = Some (Z.of_nat <$> order c)) →
  (∀ c info, test_cases !! c = Some info → order c ≡ₚ seq 0 (length info.(test_info_list))) →
  NoDup cs → (∀ c, c ∈ cs → (c < length test_cases)%nat) →
  u.(current_test_info_) = None →
  (∀ c j, c ∈ cs → parts u (c, j) = []) →
  ∃ u' evs, run_cases cfg i test_cases o (Z.of_nat <$> cs) u = (Ok (), u') ∧
    ran evs (chosen_cases cs ≫= case_calls i order) u u' ∧
    cases_events (chosen order) (chosen_cases cs) evs.
Proof.
  intros Ho Hord. revert u. induction cs as [|c cs IH]; intros u Hnd Hlt Hc Hfresh.
  { exists u, []. split; [done|]. split; [apply ran_refl|constructor]. }
  rewrite fmap_cons. cbn [run_cases].
  apply NoDup_cons in Hnd as [Hnin Hnd].
  assert (c < length test_cases)%nat as Hcl by (apply Hlt; set_solver).
  destruct (lookup_lt_is_Some_2 test_cases c Hcl) as [info Hinfo].
  destruct (Forall2_lookup_l _ _ _ _ _ aligned Hinfo) as (case & Hcase & Hlen).
  run_bind. rewrite (proj2 (Z.ltb_ge _ _)), Nat2Z.id, Hinfo, Hcase, Ho by (done || lia).
  destruct (TestCase_Run_ran i c info case order u Hinfo Hcase Hc (Hord _ _ Hinfo))
    as (u1 & e1 & -> & Hr1 & He1); [intros; apply Hfresh; set_solver|].
  destruct (IH u1 Hnd) as (u2 & e2 & -> & Hr2 & He2).
  { intros; apply Hlt; set_solver. }
  { exact (rn_test _ _ _ _ Hr1 Hc). }
  { intros c' j Hc'. rewrite (rn_parts _ _ _ _ Hr1); [apply Hfresh; set_solver|].
    intros H. apply (cases_events_starts _ _ _ _ He1) in H as [H _]. simpl in H.
    destruct (should_run info); set_solver. }
  exists u2, (e1 ++ e2). split; [done|]. unfold chosen_cases.
  assert (selected_case c = should_run info) as Hsel by (unfold selected_case; by rewrite Hinfo).
  destruct (should_run info).
  - rewrite filter_cons_True by done. simpl. split; [exact (ran_trans _ _ _ _ _ _ _ Hr1 Hr2)|].
    inversion He1 as [|? ? ? ? ? ? Ht Hn]; subst. inversion Hn; subst. simpl.
    rewrite <-!app_assoc. simpl. rewrite <-?app_assoc. by constructor.
  - rewrite filter_cons_False by congruence. inversion He1; subst.
    split; [exact (ran_trans _ _ _ _ _ _ _ Hr1 Hr2)|done].
Qed.

(** ** An iteration *)

Definition env_code (set_up : bool) (i : nat) (x : nat * EnvironmentCode) : list Action :=
  (if set_up then env_SetUp x.2 else env_TearDown x.2) i.
Definition env_call (set_up : bool) (x : nat * EnvironmentCode) : Call :=
  if set_up then EnvSetUp x.1 else EnvTearDown x.1.

Lemma run_actions_ran l u :
  throws l = None → u.(current_test_info_) = None →
  ∃ u' ps, run_actions cfg l u = (Ok (), u') ∧ ran (parts_ev ps) [] u u' ∧
    existsb fatally_failed (ad_hoc u') = existsb fatally_failed (ad_hoc u) || fatal l.
Proof.
  intros Ht Hc. destruct (run_actions_stepped l u) as (u' & ps & E & Hs & Hf).
  rewrite Ht in E, Hf. exists u', ps. split; [done|]. split.
  - by apply stepped_ran_parts.
  - rewrite (st_ad_hoc _ _ _ _ _ Hs), Hc, decide_True, existsb_app, Hf by done.
    simpl. by rewrite orb_false_r.
Qed.

Lemma run_environments_ran set_up i l u :
  (∀ x, x ∈ l → throws (env_code set_up i x) = None) → u.(current_test_info_) = None →
  ∃ u' ps, run_environments cfg i set_up l u = (Ok (), u') ∧
    ran (parts_ev ps) (env_call set_up <$> l) u u' ∧
    existsb fatally_failed (ad_hoc u') =
      existsb fatally_failed (ad_hoc u) || existsb (λ x, fatal (env_code set_up i x)) l.
Proof.
  revert u. induction l as [|[n e] l IH]; intros u Ht Hc; simpl.
  { exists u, []. split; [done|]. split; [apply ran_refl|by rewrite orb_false_r]. }
  run_bind. unfold modify at 1. cbv beta iota.
  set (v := set_calls _ u).
  assert (ran [] [env_call set_up (n, e)] u v) as Hv.
  { destruct (ran_refl u) as [R1 R2 R3 R4 R5 R6]. by split. }
  destruct (run_actions_ran (env_code set_up i (n, e)) v) as (u1 & p1 & E1 & Hr1 & Hf1);
    [apply Ht; set_solver|done|].
  unfold env_code in E1. simpl in E1. run_bind. rewrite E1.
  destruct (IH u1) as (u2 & p2 & E2 & Hr2 & Hf2); [intros; apply Ht; set_solver| |].
  { exact (rn_test _ _ _ _ Hr1 Hc). }
  exists u2, (p1 ++ p2). split; [done|]. split.
  - rewrite parts_ev_app.
    exact (ran_trans _ _ _ _ _ _ _ Hv (ran_trans _ _ _ _ _ _ _ Hr1 Hr2)).
  - rewrite Hf2, Hf1, orb_assoc. done.
Qed.

(** The environments do not throw: only the whole run is guarded against them. *)
Definition environments_return : Prop :=
  ∀ i set_up x, x ∈ numbered cfg → throws (env_code set_up i x) = None.

(** Whether an environment fails fatally in its [SetUp]. *)
Definition environments_fail (i : nat) : bool :=
  existsb (λ x, fatal (env_code true i x)) (numbered cfg).

(** The cases that run when the results outside of tests are fatal, or are not. *)
Definition cases_to_run (i : nat) (fatal_before : bool) (cases : list nat) : list nat :=
  if fatal_before || environments_fail i then [] else chosen_cases cases.

Definition iteration_calls (i : nat) (has_tests_to_run fatal_before : bool)
    (cases : list nat) (order : nat → list nat) : list Call :=
  if has_tests_to_run then
    (env_call true <$> numbered cfg) ++
    (cases_to_run i fatal_before cases ≫= case_calls i order) ++
    (env_call false <$> reverse (numbered cfg))
  else [].

Inductive iteration_events (i : nat) (order : nat → list nat) (cases : list nat)
    : bool → list Event → Prop :=
  | ie_tests p1 evs p2 :
      cases_events (chosen order) cases evs →
      iteration_events i order cases true
        (OnTestIterationStart i :: OnEnvironmentsSetUpStart :: parts_ev p1 ++
         OnEnvironmentsSetUpEnd :: evs ++ OnEnvironmentsTearDownStart :: parts_ev p2 ++
         [OnEnvironmentsTearDownEnd; OnTestIterationEnd i])
  | ie_none :
      iteration_events i order cases false [OnTestIterationStart i; OnTestIterationEnd i].

Lemma current_fatal_ad_hoc u :
  u.(current_test_info_) = None → current_fatal u = (Ok (existsb fatally_failed (ad_hoc u)), u).
Proof.
  intros Hc. unfold current_fatal, gets, current_test_result.
  by rewrite Hc, HasFatalFailure_existsb.
Qed.

Lemma notify_ad_hoc e u u' : notify cfg e u = (Ok (), u') → ad_hoc u' = ad_hoc u.
Proof.
  intros H. destruct (notify_stepped e u) as (v & Hv & _ & _ & Ha).
  rewrite H in Hv. injection Hv as ->. unfold ad_hoc. by rewrite Ha.
Qed.

(** The guarded run of the cases of an iteration. *)
Lemma guarded_cases_ran i o cases order u (fatal_ : bool) :
  in_order_of o cases order → orders cases order →
  u.(current_test_info_) = None → (∀ t, parts u t = []) →
  ∃ u' evs,
    (if negb fatal_
     then run_cases cfg i test_cases o (in_turn o.(test_case_indices_) (length test_cases))
     else ret ()) u = (Ok (), u') ∧
    ran evs ((if fatal_ then [] else chosen_cases cases) ≫= case_calls i order) u u' ∧
    cases_events (chosen order) (if fatal_ then [] else chosen_cases cases) evs.
Proof.
  intros [Hio Hit] [Hoc Hot] Hc Hp. destruct fatal_; simpl.
  { exists u, []. split; [done|]. split; [apply ran_refl|constructor]. }
  rewrite Hio, in_turn_id by (by rewrite Hoc, length_seq).
  apply run_cases_ran; try done.
  - rewrite Hoc. apply NoDup_seq.
  - intros c. rewrite Hoc, elem_of_seq. lia.
Qed.

Lemma parts_unstarted evs cs u v :
  ran evs cs u v → (∀ t, parts u t = []) → (∀ t, OnTestStart t ∉ evs) → ∀ t, parts v t = [].
Proof. intros Hr Hp Hn t. rewrite (rn_parts _ _ _ _ Hr); [apply Hp|apply Hn]. Qed.

Lemma run_iteration_ran i has o cases order u :
  in_order_of o cases order → orders cases order → environments_return →
  u.(current_test_info_) = None → (∀ t, parts u t = []) →
  ∃ u' evs, run_iteration cfg i test_cases has o u = (Ok (), u') ∧
    ran evs (iteration_calls i has (existsb fatally_failed (ad_hoc u)) cases order) u u' ∧
    iteration_events i order
      (cases_to_run i (existsb fatally_failed (ad_hoc u)) cases) has evs.
Proof.
  intros Hio Hor Henv Hc Hp. unfold run_iteration, iteration_calls, cases_to_run.
  destruct (notify_ran (OnTestIterationStart i) u Hc eq_refl) as (u1 & E1 & Hr1 & _).
  pose proof (notify_ad_hoc _ _ _ E1) as Ha1. pose proof (rn_test _ _ _ _ Hr1 Hc) as Hc1.
  run_bind. rewrite E1. run_bind. destruct has; cycle 1.
  { unfold ret at 1. cbv beta iota.
    destruct (notify_ran (OnTestIterationEnd i) u1 Hc1 eq_refl) as (u2 & E2 & Hr2 & _).
    eexists u2, _. split; [exact E2|].
    split; [exact (ran_trans _ _ _ _ _ _ _ Hr1 Hr2)|constructor]. }
  destruct (notify_ran OnEnvironmentsSetUpStart u1 Hc1 eq_refl) as (u2 & E2 & Hr2 & _).
  pose proof (notify_ad_hoc _ _ _ E2) as Ha2. pose proof (rn_test _ _ _ _ Hr2 Hc1) as Hc2.
  run_bind. rewrite E2.
  destruct (run_environments_ran true i (numbered cfg) u2) as (u3 & p1 & E3 & Hr3 & Hf3);
    [by intros; apply Henv|done|].
  pose proof (rn_test _ _ _ _ Hr3 Hc2) as Hc3. run_bind. rewrite E3.
  destruct (notify_ran OnEnvironmentsSetUpEnd u3 Hc3 eq_refl) as (u4 & E4 & Hr4 & _).
  pose proof (notify_ad_hoc _ _ _ E4) as Ha4. pose proof (rn_test _ _ _ _ Hr4 Hc3) as Hc4.
  run_bind. rewrite E4. run_bind. rewrite current_fatal_ad_hoc by done. cbv beta iota.
  rewrite Ha4, Hf3, Ha2, Ha1. fold (environments_fail i).
  pose proof (ran_trans _ _ _ _ _ _ _ Hr1 (ran_trans _ _ _ _ _ _ _ Hr2
    (ran_trans _ _ _ _ _ _ _ Hr3 Hr4))) as Hr14.
  destruct (guarded_cases_ran i o cases order u4
    (existsb fatally_failed (ad_hoc u) || environments_fail i) Hio Hor Hc4)
    as (u5 & evs & E5 & Hr5 & He5).
  { apply (parts_unstarted _ _ _ _ Hr14 Hp). intros t.
    pose proof (no_start_parts_ev t p1). set_solver. }
  pose proof (rn_test _ _ _ _ Hr5 Hc4) as Hc5. run_bind. rewrite E5.
  destruct (notify_ran OnEnvironmentsTearDownStart u5 Hc5 eq_refl) as (u6 & E6 & Hr6 & _).
  pose proof (rn_test _ _ _ _ Hr6 Hc5) as Hc6. run_bind. rewrite E6.
  destruct (run_environments_ran false i (reverse (numbered cfg)) u6) as (u7 & p2 & E7 & Hr7 & _);
    [by intros x Hx; apply Henv, elem_of_reverse|done|].
  pose proof (rn_test _ _ _ _ Hr7 Hc6) as Hc7. run_bind. rewrite E7.
  destruct (notify_ran OnEnvironmentsTearDownEnd u7 Hc7 eq_refl) as (u8 & E8 & Hr8 & _).
  pose proof (rn_test _ _ _ _ Hr8 Hc7) as Hc8. rewrite E8.
  destruct (notify_ran (OnTestIterationEnd i) u8 Hc8 eq_refl) as (u9 & E9 & Hr9 & _).
  pose proof (ran_trans _ _ _ _ _ _ _ Hr14 (ran_trans _ _ _ _ _ _ _ Hr5
    (ran_trans _ _ _ _ _ _ _ Hr6 (ran_trans _ _ _ _ _ _ _ Hr7
      (ran_trans _ _ _ _ _ _ _ Hr8 Hr9))))) as Hr.
  eexists u9, _. split; [exact E9|]. rewrite !app_nil_r in Hr. simpl in Hr.
  split; [exact Hr|]. simpl. rewrite <-app_assoc. by constructor.
Qed.

(** ** All iterations *)

Lemma Failed_bad u : Failed test_cases u = true ↔ bad u.
Proof.
  unfold Failed, bad. rewrite orb_true_iff, existsb_exists. split.
  - intros [((c & info) & Hin & H)|H]; [right|by left].
    apply list_elem_of_In, elem_of_lookup_imap in Hin as (c' & info' & [= -> ->] & Hinfo).
    apply andb_true_iff in H as [Hr H]. unfold case_failed in H.
    apply existsb_exists in H as ((j & ti) & Hin & H).
    apply list_elem_of_In, elem_of_lookup_imap in Hin as (j' & ti' & [= -> ->] & Hti).
    apply andb_true_iff in H as [Hs H]. exists (c', j'). split; [|done].
    unfold selected. simpl in *. by rewrite Hinfo, Hti, Hr, Hs.
  - intros [H|((c & j) & Hsel & H)]; [by right|left].
    unfold selected in Hsel. simpl in Hsel.
    destruct (test_cases !! c) as [info|] eqn:Hinfo; [|done].
    apply andb_true_iff in Hsel as [Hr Hsel].
    destruct (test_info_list info !! j) as [ti|] eqn:Hti; [|done].
    exists (c, info). split.
    + apply list_elem_of_In, elem_of_lookup_imap. by eexists _, _.
    + simpl. rewrite Hr. unfold case_failed. apply existsb_exists. exists (j, ti). split.
      * apply list_elem_of_In, elem_of_lookup_imap. by eexists _, _.
      * simpl. by rewrite Hsel.
Qed.

Lemma cleared_parts u t : parts (ClearNonAdHocTestResult u) t = [].
Proof. done. Qed.

Lemma cleared_bad u : bad (ClearNonAdHocTestResult u) ↔ existsb failed (ad_hoc u) = true.
Proof.
  unfold bad. split; [|by left]. intros [H|(t & _ & H)]; [done|].
  by rewrite cleared_parts in H.
Qed.

(** The orders that a shuffle gives. *)
Lemma as_nats l n :
  l ≡ₚ in_order n → l = Z.of_nat <$> (Z.to_nat <$> l) ∧ (Z.to_nat <$> l) ≡ₚ seq 0 n.
Proof.
  intros Hp. assert (∀ z, z ∈ l → 0 <= z) as Hz.
  { intros z. rewrite Hp. unfold in_order. rewrite list_elem_of_fmap. intros (k & -> & _). lia. }
  split.
  - rewrite <-list_fmap_compose, <-(list_fmap_id l) at 1. apply list_fmap_ext.
    intros k z Hk. simpl. rewrite Z2Nat.id; [done|]. by eapply Hz, list_elem_of_lookup_2.
  - rewrite Hp. unfold in_order. rewrite <-list_fmap_compose.
    rewrite <-(list_fmap_id (seq 0 n)) at 2. apply reflexive_eq, list_fmap_ext.
    intros. simpl. by rewrite Nat2Z.id.
Qed.

Definition test_counts : list nat := (λ info, length info.(test_info_list)) <$> test_cases.

Definition registered (c : nat) : list nat :=
  match test_cases !! c with
  | Some info => seq 0 (length info.(test_info_list))
  | None => []
  end.

Lemma registered_orders deaths r :
  in_order_of (unshuffled deaths test_counts r) (seq 0 (length test_cases)) registered ∧
  orders (seq 0 (length test_cases)) registered.
Proof.
  split; split; [| |done|].
  - unfold unshuffled, in_order, test_counts. cbn [test_case_indices_]. by rewrite length_fmap.
  - intros c Hc. destruct (lookup_lt_is_Some_2 test_cases c Hc) as [info Hinfo].
    unfold unshuffled, test_counts, registered. cbn [test_indices_].
    by rewrite !list_lookup_fmap, Hinfo.
  - intros c info Hinfo. unfold registered. by rewrite Hinfo.
Qed.

Lemma shuffled_orders o :
  o.(test_case_indices_) ≡ₚ in_order (length test_counts) →
  Forall2 Permutation o.(test_indices_) (in_order <$> test_counts) →
  in_order_of o (Z.to_nat <$> o.(test_case_indices_))
    (λ c, Z.to_nat <$> default [] (o.(test_indices_) !! c)) ∧
  orders (Z.to_nat <$> o.(test_case_indices_))
    (λ c, Z.to_nat <$> default [] (o.(test_indices_) !! c)).
Proof.
  intros Hc Ht. unfold test_counts in Hc. rewrite length_fmap in Hc.
  assert (∀ c info, test_cases !! c = Some info →
    ∃ l, o.(test_indices_) !! c = Some l ∧ l ≡ₚ in_order (length info.(test_info_list))) as Hl.
  { intros c info Hinfo. destruct (Forall2_lookup_r _ _ _ c (in_order (length info.(test_info_list))) Ht)
      as (l & Hl & Hp); [|by exists l].
    unfold test_counts. by rewrite !list_lookup_fmap, Hinfo. }
  split; split.
  - by apply (as_nats _ _ Hc).
  - intros c Hlt. destruct (lookup_lt_is_Some_2 test_cases c Hlt) as [info Hinfo].
    destruct (Hl c info Hinfo) as (l & -> & Hp). simpl. f_equal. by apply (as_nats _ _ Hp).
  - by apply (as_nats _ _ Hc).
  - intros c info Hinfo. destruct (Hl c info Hinfo) as (l & -> & Hp). simpl.
    by apply (as_nats _ _ Hp).
Qed.

Lemma Unshuffle_unshuffled deaths tests r :
  UnshuffleTests (unshuffled deaths tests r) = unshuffled deaths tests r.
Proof.
  unfold UnshuffleTests, unshuffled.
  cbn [test_case_indices_ test_indices_ random_ last_death_test_case_].
  f_equal; [unfold in_order; by rewrite length_fmap, length_seq|].
  rewrite <-list_fmap_compose. apply list_fmap_ext. intros k n _. simpl.
  unfold in_order. by rewrite length_fmap, length_seq.
Qed.

(** [n] iterations from number [i], where [fatal_] says whether there were fatal
    failures outside of tests before: each has its order, and unless the tests are
    shuffled it is the one in which they were registered. *)
Inductive iterated (has_tests_to_run : bool)
    : nat → nat → bool → list Event → list Call → Prop :=
  | it_done i fatal_ : iterated has_tests_to_run O i fatal_ [] []
  | it_step n i fatal_ cases order evs rest rest_calls :
      orders cases order →
      (cfg.(flag_shuffle) = false → cases = seq 0 (length test_cases) ∧ order = registered) →
      iteration_events i order (cases_to_run i fatal_ cases) has_tests_to_run evs →
      iterated has_tests_to_run n (S i)
        (fatal_ || existsb fatally_failed (outside false evs)) rest rest_calls →
      iterated has_tests_to_run (S n) i fatal_ (evs ++ rest)
        (iteration_calls i has_tests_to_run fatal_ cases order ++ rest_calls).

(** The program has at most [kMaxRange] cases, and so many tests in a case. *)
Definition in_range (deaths : nat) : Prop :=
  (deaths <= length test_counts)%nat ∧ Z.of_nat (length test_counts) <= kMaxRange ∧
  Forall (λ n, Z.of_nat n <= kMaxRange) test_counts.

(** The order of an iteration. *)
Lemma next_order (has : bool) deaths r seed :
  in_range deaths →
  ∃ o cases order,
    (if has && cfg.(flag_shuffle)
     then ShuffleTests (mkOrder (unshuffled deaths test_counts r).(test_case_indices_)
            (unshuffled deaths test_counts r).(test_indices_)
            (unshuffled deaths test_counts r).(last_death_test_case_) seed)
     else Some (unshuffled deaths test_counts r)) = Some o ∧
    in_order_of o cases order ∧ orders cases order ∧
    (cfg.(flag_shuffle) = false → cases = seq 0 (length test_cases) ∧ order = registered) ∧
    ∃ r', UnshuffleTests o = unshuffled deaths test_counts r'.
Proof.
  intros (H1 & H2 & H3). destruct (has && flag_shuffle cfg) eqn:E.
  - apply andb_true_iff in E as [_ E].
    destruct (ShuffleTests_reorders deaths test_counts seed H1 H2 H3)
      as (o & Ho & _ & Hc & Ht & Hu).
    destruct (shuffled_orders o Hc Ht). eexists o, _, _. rewrite E. split_and!; eauto; done.
  - destruct (registered_orders deaths r). eexists _, _, _. split_and!; eauto.
    exists r. apply Unshuffle_unshuffled.
Qed.

Lemma next_seed seed :
  1 <= seed <= kMaxRandomSeed →
  ∃ s, GetNextRandomSeed seed = Some s ∧ 1 <= s <= kMaxRandomSeed.
Proof.
  intros [H1 H2]. unfold GetNextRandomSeed.
  rewrite (proj2 (Z.leb_le _ _) H1), (proj2 (Z.leb_le _ _) H2). simpl.
  eexists. split; [done|]. destruct (kMaxRandomSeed <? seed + 1) eqn:E;
    [unfold kMaxRandomSeed; lia|]. apply Z.ltb_ge in E. lia.
Qed.

Lemma iterations_ran (has : bool) deaths n i r seed u :
  in_range deaths → environments_return → u.(current_test_info_) = None →
  (cfg.(flag_shuffle) = true → 1 <= seed <= kMaxRandomSeed) →
  ∃ u' b evs cs,
    iterations cfg test_cases has n i (unshuffled deaths test_counts r) seed u = (Ok b, u') ∧
    u'.(current_test_info_) = None ∧
    u'.(events) = u.(events) ++ broadcast evs ∧
    u'.(calls) = u.(calls) ++ cs ∧
    iterated has n i (existsb fatally_failed (ad_hoc u)) evs cs ∧
    (b = true ↔ (n ≠ 0%nat ∧ existsb failed (ad_hoc u) = true) ∨ existsb is_failure evs = true).
Proof.
  intros Hrange Henv. revert i r seed u. induction n as [|n IH]; intros i r seed u Hc Hseed.
  { exists u, false, [], []. split; [done|]. split; [done|].
    split; [apply (rn_events _ _ _ _ (ran_refl u))|]. split; [by rewrite app_nil_r|].
    split; [constructor|]. split; [done|]. intros [[? _]|?]; done. }
  cbn [iterations]. run_bind. unfold modify at 1. cbv beta iota.
  destruct (next_order has deaths r seed Hrange)
    as (o & cases & order & -> & Hio & Hor & Hreg & r' & Hu).
  set (v := ClearNonAdHocTestResult u).
  destruct (run_iteration_ran i has o cases order v Hio Hor Henv Hc (cleared_parts u))
    as (u1 & evs & E1 & Hr & He).
  run_bind. rewrite E1. run_bind. unfold gets. cbv beta iota.
  assert (∃ s, (if flag_shuffle cfg then GetNextRandomSeed seed else Some seed) = Some s ∧
    (flag_shuffle cfg = true → 1 <= s <= kMaxRandomSeed)) as (s & Hs & Hs').
  { destruct (flag_shuffle cfg); [|by exists seed].
    destruct (next_seed seed (Hseed eq_refl)) as (s & ? & ?). by exists s. }
  rewrite Hs, Hu. pose proof (rn_test _ _ _ _ Hr Hc) as Hc1.
  destruct (IH (S i) r' s u1 Hc1 Hs') as (u2 & b & rest & cs & E2 & Hc2 & He2 & Hcs & Hit & Hb).
  run_bind. rewrite E2. eexists u2, _, (evs ++ rest), _. split; [done|].
  assert (existsb fatally_failed (ad_hoc u1) =
    existsb fatally_failed (ad_hoc u) || existsb fatally_failed (outside false evs)) as Hfatal.
  { by rewrite (rn_ad_hoc _ _ _ _ Hr), existsb_app. }
  split; [done|]. split_and!.
  - rewrite He2, (rn_events _ _ _ _ Hr), broadcast_app, app_assoc. done.
  - rewrite Hcs, (rn_calls _ _ _ _ Hr), <-app_assoc. done.
  - rewrite Hfatal in Hit. by apply it_step.
  - rewrite orb_true_iff, Hb, Failed_bad, existsb_app, orb_true_iff, (rn_bad _ _ _ _ Hr).
    unfold v. rewrite cleared_bad.
    assert (existsb failed (ad_hoc u1) = true → bad u1) as Hbad by (by left).
    rewrite (rn_bad _ _ _ _ Hr) in Hbad. unfold v in Hbad. rewrite cleared_bad in Hbad.
    assert (S n ≠ 0%nat) by lia. tauto.
Qed.

End Facts.

(** * What the runner promises *)

(** Exceptions are caught, and failures neither break nor throw. *)
Definition usual (cfg : Config) : Prop :=
  cfg.(catch_exceptions) = true ∧ cfg.(break_on_failure) = false ∧
  cfg.(throw_on_failure) = false.

Definition aligned (cfg : Config) (test_cases : list TestCase) : Prop :=
  Forall2 (λ info case, length info.(test_info_list) = length case.(codes))
    test_cases cfg.(program).

Lemma Run_ran cfg now n test_cases (has : bool) deaths r u :
  usual cfg → aligned cfg test_cases → in_range test_cases deaths → environments_return cfg →
  u.(current_test_info_) = None →
  ∃ u' (b : bool) evs cs,
    Run cfg now n test_cases has (unshuffled deaths (test_counts test_cases) r) u =
      (Ok (if b then 1 else 0), u') ∧
    u'.(events) = u.(events) ++ broadcast cfg (OnTestProgramStart :: evs ++ [OnTestProgramEnd]) ∧
    u'.(calls) = u.(calls) ++ cs ∧
    iterated cfg test_cases has n 0 (existsb fatally_failed (ad_hoc u)) evs cs ∧
    (b = true ↔ (n ≠ 0%nat ∧ existsb failed (ad_hoc u) = true) ∨ existsb is_failure evs = true).
Proof.
  intros (Hcatch & Hbreak & Hthrow) Hal Hrange Henv Hc. unfold Run, HandleExceptions. run_bind.
  unfold RunAllTests. set (seed := if flag_shuffle cfg then _ else _).
  assert (flag_shuffle cfg = true → 1 <= seed <= kMaxRandomSeed) as Hseed.
  { unfold seed. intros ->. unfold GetRandomSeedFromFlag, kMaxRandomSeed.
    pose proof (Z.mod_pos_bound
      (((if flag_random_seed cfg =? 0 then now else flag_random_seed cfg) mod U32 - 1) mod U32)
      99999 ltac:(lia)). lia. }
  destruct (notify_ran cfg test_cases OnTestProgramStart u Hc eq_refl)
    as (u1 & E1 & Hr1 & _).
  pose proof (rn_test _ _ _ _ _ _ Hr1 Hc) as Hc1. run_bind. rewrite E1.
  destruct (iterations_ran cfg Hbreak Hthrow Hcatch test_cases Hal has deaths n 0 r seed u1
    Hrange Henv Hc1 Hseed) as (u2 & b & evs & cs & E2 & Hc2 & He2 & Hcs2 & Hit & Hb).
  run_bind. rewrite E2.
  destruct (notify_ran cfg test_cases OnTestProgramEnd u2 Hc2 eq_refl)
    as (u3 & E3 & Hr3 & _).
  run_bind. rewrite E3. unfold ret. cbv beta iota. exists u3, b, evs, cs.
  assert (ad_hoc u1 = ad_hoc u) as Ha.
  { rewrite (rn_ad_hoc _ _ _ _ _ _ Hr1). simpl. by rewrite app_nil_r. }
  rewrite Ha in Hit, Hb. split; [by destruct b|]. split; [|split; [|done]].
  - rewrite (rn_events _ _ _ _ _ _ Hr3), He2, (rn_events _ _ _ _ _ _ Hr1), <-!app_assoc.
    by rewrite <-!broadcast_app.
  - by rewrite (rn_calls _ _ _ _ _ _ Hr3), Hcs2, (rn_calls _ _ _ _ _ _ Hr1), !app_nil_r.
Qed.

(** C32: With the default flags for exceptions and failures (exceptions are caught, no
    failure breaks or throws), a test that is run is announced, its code is called, and its end is announced, with
    the results in between, which become the results of this test and of no other; and
    whatever the code throws or fails, the calls are those of [test_calls]: the body only
    after a fixture without fatal failures, [TearDown] whenever [SetUp] was called, and
    the destructor whenever the constructor returned. *)
Theorem test_life cfg i info case t code ti u :
  usual cfg → case.(codes) !! t.2 = Some code → info.(test_info_list) !! t.2 = Some ti →
  length info.(test_info_list) = length case.(codes) →
  ti.(should_run_) = true → u.(current_test_info_) = None → parts u t = [] →
  ∃ u' ps, TestInfo_Run cfg i info case t u = (Ok (), u') ∧
    u'.(events) = u.(events) ++
      broadcast cfg (OnTestStart t :: (OnTestPartResult <$> ps) ++ [OnTestEnd t]) ∧
    u'.(calls) = u.(calls) ++ test_calls i t (same_fixture case t.2) code ∧
    (∀ t', parts u' t' = if decide (t' = t) then ps else parts u t') ∧
    ad_hoc u' = ad_hoc u ∧
    u'.(current_test_info_) = None.
Proof.
  intros (Hcatch & Hbreak & Hthrow) Hcode Hti Hlen Hrun Hc Hp.
  destruct (TestInfo_Run_tested cfg Hbreak Hthrow Hcatch i info case t code ti u
    Hcode Hti Hlen Hrun Hc Hp) as (u' & ps & H & [T1 T2 T3 T4 T5 T6]).
  by exists u', ps.
Qed.

(** C30: With the default flags for exceptions and failures (exceptions are caught, no
    failure breaks or throws), and environments that do not throw, a run makes its iterations, each of which runs every chosen test of every chosen
    case exactly once, in the order of that iteration (a permutation of the registered
    one, and that itself unless tests are shuffled); the events of a test lie between
    those of its case, and these between those of the environments.  Only after a fatal
    failure outside of tests are no more tests run. *)
Theorem Run_runs_the_chosen_tests cfg now n test_cases (has : bool) deaths r u :
  usual cfg → aligned cfg test_cases → in_range test_cases deaths → environments_return cfg →
  u.(current_test_info_) = None →
  ∃ status u' evs cs,
    Run cfg now n test_cases has (unshuffled deaths (test_counts test_cases) r) u =
      (Ok status, u') ∧
    u'.(events) = u.(events) ++ broadcast cfg (OnTestProgramStart :: evs ++ [OnTestProgramEnd]) ∧
    u'.(calls) = u.(calls) ++ cs ∧
    iterated cfg test_cases has n 0 (existsb fatally_failed (ad_hoc u)) evs cs.
Proof.
  intros H1 H2 H3 H4 H5.
  destruct (Run_ran cfg now n test_cases has deaths r u H1 H2 H3 H4 H5)
    as (u' & b & evs & cs & H & He & Hc & Hi & _).
  by exists (if b then 1 else 0), u', evs, cs.
Qed.

(** C31: With the default flags for exceptions and failures (exceptions are caught, no
    failure breaks or throws), and environments that do not throw, the status of the process is 0 exactly when no failure was reported: none before the
    run, unless it has no iteration, and none in the events of the run, those of every
    iteration. *)
Theorem Run_status cfg now n test_cases (has : bool) deaths r u :
  usual cfg → aligned cfg test_cases → in_range test_cases deaths → environments_return cfg →
  u.(current_test_info_) = None →
  ∃ status u' evs,
    Run cfg now n test_cases has (unshuffled deaths (test_counts test_cases) r) u =
      (Ok status, u') ∧
    u'.(events) = u.(events) ++ broadcast cfg evs ∧
    (status = 0 ∨ status = 1) ∧
    (status = 0 ↔
      (n = 0%nat ∨ existsb failed (ad_hoc u) = false) ∧ existsb is_failure evs = false).
Proof.
  intros H1 H2 H3 H4 H5.
  destruct (Run_ran cfg now n test_cases has deaths r u H1 H2 H3 H4 H5)
    as (u' & b & evs & cs & H & He & Hc & Hi & Hb).
  exists (if b then 1 else 0), u', (OnTestProgramStart :: evs ++ [OnTestProgramEnd]).
  split; [done|]. split; [done|]. split; [destruct b; auto|].
  simpl. rewrite existsb_app. simpl. rewrite orb_false_r.
  destruct (decide (n = 0%nat)) as [->|Hn], b, (existsb failed (ad_hoc u)),
    (existsb is_failure evs); intuition congruence.
Qed.

(** * A program *)

Module Example_runner.

(** Three cases: the first a death test; a test of the second fails fatally in [SetUp];
    the third mixes fixtures, and one of its constructors throws. *)
Definition fails (type : PartType) (msg : string) : Action :=
  Report type (Some "basic_test.cpp") 10 msg [] "".
Definition quiet : Script := λ _, [].
Definition always (l : list Action) : Script := λ _, l.

Definition good : TestCode := mkCode 0 quiet quiet quiet quiet quiet.
Definition bad_set_up : TestCode :=
  mkCode 0 quiet (always [fails kFatalFailure "no file"]) quiet quiet quiet.
Definition other_fixture : TestCode := mkCode 1 quiet quiet quiet quiet quiet.
Definition throwing : TestCode := mkCode 1 (always [Throw (Some "bad_alloc")]) quiet quiet quiet quiet.

Definition ran_test (name : string) : TestInfo := mkTest (bytes name) false true true.
Definition left_out (name : string) : TestInfo := mkTest (bytes name) true true false.

Definition cases : list TestCase :=
  [mkCase (bytes "LogDeathTest") true [ran_test "Dies"];
   mkCase (bytes "NodeTest") true [ran_test "Votes"; ran_test "Appends"; left_out "DISABLED_Slow"];
   mkCase (bytes "LockTest") true [ran_test "Locks"; ran_test "Mixed"; ran_test "Throws"]].

Definition code : list CaseCode :=
  [mkCaseCode quiet quiet [good];
   mkCaseCode quiet quiet [bad_set_up; good; good];
   mkCaseCode quiet quiet [good; other_fixture; throwing]].

Definition config (set_up : Script) : Config :=
  mkConfig true false false true 42 2 [0; 1]%nat true [mkEnvironment set_up quiet] code.

Definition start : Unit := mkUnit ∅ ∅ empty_result None None [] [].

Lemma config_return : environments_return (config quiet).
Proof.
  intros i up x Hx. change (x ∈ [(0%nat, mkEnvironment quiet quiet)]) in Hx.
  apply list_elem_of_singleton in Hx as ->. by destruct up.
Qed.

Lemma config_in_range : in_range cases 1.
Proof.
  unfold in_range, kMaxRange, test_counts, cases. simpl. repeat constructor; simpl; lia.
Qed.

Lemma test_life_witness :
  ∃ u' ps, TestInfo_Run (config quiet) 0 (mkCase (bytes "NodeTest") true
      [ran_test "Votes"; ran_test "Appends"; left_out "DISABLED_Slow"])
      (mkCaseCode quiet quiet [bad_set_up; good; good]) (1, 0)%nat start = (Ok (), u') ∧
    u'.(events) = start.(events) ++ broadcast (config quiet)
      (OnTestStart (1, 0)%nat :: (OnTestPartResult <$> ps) ++ [OnTestEnd (1, 0)%nat]) ∧
    u'.(calls) = start.(calls) ++
      [Constructor (1, 0)%nat; CallSetUp (1, 0)%nat; CallTearDown (1, 0)%nat; Destructor (1, 0)%nat] ∧
    (∀ t', parts u' t' = if decide (t' = (1, 0)%nat) then ps else parts start t') ∧
    ad_hoc u' = ad_hoc start ∧
    u'.(current_test_info_) = None.
Proof.
  apply (test_life (config quiet) 0 (mkCase (bytes "NodeTest") true
    [ran_test "Votes"; ran_test "Appends"; left_out "DISABLED_Slow"])
    (mkCaseCode quiet quiet [bad_set_up; good; good]) (1, 0)%nat bad_set_up (ran_test "Votes") start);
    by repeat split.
Defined.

Lemma Run_runs_the_chosen_tests_witness :
  ∃ status u' evs cs,
    Run (config quiet) 7 2 cases true (unshuffled 1 (test_counts cases) 0) start =
      (Ok status, u') ∧
    u'.(events) = [] ++ broadcast (config quiet) (OnTestProgramStart :: evs ++ [OnTestProgramEnd]) ∧
    u'.(calls) = [] ++ cs ∧
    iterated (config quiet) cases true 2 0 false evs cs.
Proof.
  apply (Run_runs_the_chosen_tests (config quiet) 7 2 cases true 1 0 start);
    [by repeat split|by repeat constructor|apply config_in_range|apply config_return|done].
Defined.

Lemma Run_status_witness :
  (∃ status u' evs,
    Run (config quiet) 7 2 cases true (unshuffled 1 (test_counts cases) 0) start =
      (Ok status, u') ∧
    u'.(events) = [] ++ broadcast (config quiet) evs ∧
    (status = 0 ∨ status = 1) ∧
    (status = 0 ↔ (2 = 0 ∨ false = false)%nat ∧ existsb is_failure evs = false)) ∧
  (Run (config quiet) 7 2 cases true (unshuffled 1 (test_counts cases) 0) start).1 = Ok 1.
Proof.
  split; [|vm_compute; reflexivity].
  apply (Run_status (config quiet) 7 2 cases true 1 0 start);
    [by repeat split|by repeat constructor|apply config_in_range|apply config_return|done].
Defined.

(** The environment fails fatally in its first [SetUp] only. *)
Definition once : Script :=
  λ i, if decide (i = 0%nat) then [fails kFatalFailure "no network"] else [].

(** A fatal failure outside of tests stays: with [--gtest_repeat] no iteration after it
    runs any test, though it may fail nowhere itself. *)
Theorem outside_failure_ends_testing :
  let r := Run (config once) 7 3 cases true (unshuffled 1 (test_counts cases) 0) start in
  r.1 = Ok 1 ∧
  r.2.(calls) = [EnvSetUp 0; EnvTearDown 0; EnvSetUp 0; EnvTearDown 0; EnvSetUp 0; EnvTearDown 0] ∧
  length (filter (λ e, is_failure e.2 = true) r.2.(events)) = 2%nat.
Proof. vm_compute. by repeat split. Qed.

End Example_runner.
