(* ===== verification/Printers.v ===== *)
(** How Google Test prints characters, strings and bytes
    ([src/lib/googletest/src/gtest-printers.cc]), and arrays and containers
    ([include/gtest/gtest-printers.h]).

    A character is the integer it converts to, a text the list of its bytes.  Below, a
    reader of string literals as C++ defines them. *)

From S2P Require Import Prelude Strings Utf8.
From stdpp Require Import base list strings.
From Stdlib Require Import ZArith Lia Ascii.

Open Scope Z_scope.

(** A number of 64 bits, as a stream prints it: twenty digits are enough. *)
Definition show64 (n : Z) : list Z :=
  text (if n <? 0 then String "-" (decimal 20 (- n) "") else decimal 20 n "").

(** * Bytes of an object *)

(** [%02X]. *)
Definition hex2 (b : Z) : list Z := [hex_digit (b / 16); hex_digit (b mod 16)].

Fixpoint byte_segment (obj_bytes : list Z) (i : nat) (start count : nat) : list Z :=
  match count with
  | O => []
  | S count =>
      let j := (start + i)%nat in
      (if decide (i = 0%nat) then [] else if decide (j mod 2 = 0)%nat then text " " else text "-")
      ++ hex2 (default 0 (obj_bytes !! j)) ++ byte_segment obj_bytes (S i) start count
  end.
Definition PrintByteSegmentInObjectTo (obj_bytes : list Z) (start count : nat) : list Z :=
  byte_segment obj_bytes 0 start count.

Definition kThreshold : nat := 132.
Definition kChunkSize : nat := 64.
Definition resume_pos (count : nat) : nat := ((count - kChunkSize + 1) / 2 * 2)%nat.

Definition PrintBytesInObjectTo (obj_bytes : list Z) : list Z :=
  let count := length obj_bytes in
  show64 (Z.of_nat count) ++ text "-byte object <" ++
  (if (count <? kThreshold)%nat then PrintByteSegmentInObjectTo obj_bytes 0 count
   else
     PrintByteSegmentInObjectTo obj_bytes 0 kChunkSize ++ text " ... " ++
     PrintByteSegmentInObjectTo obj_bytes (resume_pos count) (count - resume_pos count))
  ++ text ">".

(** * Characters *)

Inductive CharFormat := kAsIs | kHexEscape | kSpecialEscape.

#[export] Instance CharFormat_eq_dec : EqDecision CharFormat.
Proof. solve_decision. Defined.

Inductive CharType := unsigned_char | signed_char | wchar_t_.

(** [static_cast<UnsignedChar>]. *)
Definition unsigned (ty : CharType) (c : Z) : Z :=
  match ty with wchar_t_ => c | _ => c mod 256 end.

Definition IsPrintableAscii (c : Z) : bool := (0x20 <=? c) && (c <=? 0x7E).

Definition PrintAsCharLiteralTo (ty : CharType) (c : Z) : list Z * CharFormat :=
  if c =? 0 then (text "\0", kSpecialEscape)
  else if c =? 39 then (text "\'", kSpecialEscape)
  else if c =? 92 then (text "\\", kSpecialEscape)
  else if c =? 7 then (text "\a", kSpecialEscape)
  else if c =? 8 then (text "\b", kSpecialEscape)
  else if c =? 12 then (text "\f", kSpecialEscape)
  else if c =? 10 then (text "\n", kSpecialEscape)
  else if c =? 13 then (text "\r", kSpecialEscape)
  else if c =? 9 then (text "\t", kSpecialEscape)
  else if c =? 11 then (text "\v", kSpecialEscape)
  else if IsPrintableAscii c then ([c], kAsIs)
  else (text "\x" ++ FormatHexInt (unsigned ty c), kHexEscape).

(** [PrintAsStringLiteralTo] of a [wchar_t], and of a [char], which is taken as
    unsigned. *)
Definition PrintAsStringLiteralTo (wide : bool) (c : Z) : list Z * CharFormat :=
  let c := if wide then c else c mod 256 in
  if c =? 39 then (text "'", kAsIs)
  else if c =? 34 then ([92; 34], kSpecialEscape)
  else PrintAsCharLiteralTo wchar_t_ c.

Definition PrintCharAndCodeTo (ty : CharType) (c : Z) : list Z :=
  let '(literal, format) := PrintAsCharLiteralTo ty c in
  (match ty with wchar_t_ => text "L'" | _ => text "'" end) ++ literal ++ text "'" ++
  (if c =? 0 then []
   else
     text " (" ++ text (to_string c) ++
     (if bool_decide (format = kHexEscape) || ((1 <=? c) && (c <=? 9)) then []
      else text ", 0x" ++ FormatHexInt (unsigned ty c)) ++ text ")").

(** * Strings *)

(** [IsXDigit]: a wide character must be its low byte. *)
Definition isxdigit (c : Z) : bool :=
  ((48 <=? c) && (c <=? 57)) || ((65 <=? c) && (c <=? 70)) || ((97 <=? c) && (c <=? 102)).
Definition IsXDigit (wide : bool) (c : Z) : bool :=
  if wide then (c =? c mod 256) && isxdigit (c mod 256) else isxdigit (c mod 256).

Definition kQuoteBegin (wide : bool) : list Z := if wide then [76; 34] else [34].

Fixpoint chars_loop (wide : bool) (is_previous_hex : bool) (s : list Z) : list Z :=
  match s with
  | [] => []
  | cur :: s =>
      let '(literal, format) := PrintAsStringLiteralTo wide cur in
      (if is_previous_hex && IsXDigit wide cur then [34; 32] ++ kQuoteBegin wide else [])
      ++ literal ++ chars_loop wide (bool_decide (format = kHexEscape)) s
  end.

Definition PrintCharsAsStringTo (wide : bool) (s : list Z) : list Z :=
  kQuoteBegin wide ++ chars_loop wide false s ++ [34].

(** [UniversalPrintCharArray]. *)
Definition UniversalPrintCharArray (wide : bool) (a : list Z) : list Z :=
  if decide (last a = Some 0) then PrintCharsAsStringTo wide (removelast a)
  else PrintCharsAsStringTo wide a ++ text " (no terminating NUL)".

(** [PrintTo] of a C string at the address that prints as [address]. *)
Definition PrintTo_c_str (wide : bool) (address : list Z) (s : option (list Z)) : list Z :=
  match s with
  | None => text "NULL"
  | Some s => address ++ text " pointing to " ++ PrintCharsAsStringTo wide s
  end.

(** [PrintToString] of a C string. *)
Definition PrintToString (wide : bool) (s : option (list Z)) : list Z :=
  match s with
  | None => text "NULL"
  | Some s => PrintCharsAsStringTo wide s
  end.

(** * Arrays and containers *)

Section Elements.
Context {A : Type} (UniversalPrint : A → list Z).

Fixpoint PrintRawArrayTo (a : list A) : list Z :=
  match a with
  | [] => []
  | [x] => UniversalPrint x
  | x :: a => UniversalPrint x ++ text ", " ++ PrintRawArrayTo a
  end.

Definition UniversalPrintArray (a : list A) : list Z :=
  match a with
  | [] => text "{}"
  | _ =>
      text "{ " ++
      (if (length a <=? 18)%nat then PrintRawArrayTo a
       else PrintRawArrayTo (take 8 a) ++ text ", ..., " ++
            PrintRawArrayTo (drop (length a - 8) a)) ++ text " }"
  end.

(** [DefaultPrintTo] of a container: at most 32 elements. *)
Definition kMaxCount : nat := 32.
Fixpoint container_loop (count : nat) (a : list A) : list Z * nat :=
  match a with
  | [] => ([], count)
  | x :: a =>
      let comma := if decide (0 < count)%nat then text "," else [] in
      if decide (0 < count ∧ count = kMaxCount)%nat then (comma ++ text " ...", count)
      else
        let '(rest, n) := container_loop (S count) a in
        (comma ++ text " " ++ UniversalPrint x ++ rest, n)
  end.
Definition PrintContainerTo (a : list A) : list Z :=
  let '(elements, count) := container_loop 0 a in
  text "{" ++ elements ++ (if decide (0 < count)%nat then text " " else []) ++ text "}".
End Elements.
