(* ===== verification/PrintersFacts.v ===== *)
(** What Google Test prints, read back: a reader of string literals, and the facts about
    [Printers]. *)

From S2P Require Import Prelude Strings Utf8 Printers.
From stdpp Require Import base list strings.
From Stdlib Require Import ZArith Lia Ascii.

Open Scope Z_scope.

(** * A reader of string literals

    Adjacent literals are one; a hexadecimal escape takes all the digits there are, an
    octal one up to [max_octal], which is three in C++. *)

Inductive Reader := Between | Prefix | Normal | Escaped | Hex (n : nat) (v : Z)
  | Octal (n : nat) (v : Z).

Definition simple_escape (c : Z) : option Z :=
  if c =? 39 then Some 39 else if c =? 34 then Some 34 else if c =? 92 then Some 92
  else if c =? 97 then Some 7 else if c =? 98 then Some 8 else if c =? 102 then Some 12
  else if c =? 110 then Some 10 else if c =? 114 then Some 13 else if c =? 116 then Some 9
  else if c =? 118 then Some 11 else None.

Definition is_octal (c : Z) : bool := (48 <=? c) && (c <=? 55).
Definition hex_value (c : Z) : Z :=
  if c <=? 57 then c - 48 else if c <=? 70 then c - 55 else c - 87.

Section Reader.
Context (wide : bool) (max_octal : nat).

Definition limit : Z := if wide then U32 else 256.

Fixpoint read (st : Reader) (l : list Z) : option (list Z) :=
  match l with
  | [] => match st with Between => Some [] | _ => None end
  | c :: l =>
      let normal :=
        if c =? 34 then read Between l
        else if c =? 92 then read Escaped l
        else if c =? 10 then None
        else cons c <$> read Normal l in
      match st with
      | Between =>
          if c =? 32 then read Between l
          else if wide then (if c =? 76 then read Prefix l else None)
          else if c =? 34 then read Normal l else None
      | Prefix => if c =? 34 then read Normal l else None
      | Normal => normal
      | Escaped =>
          if c =? 120 then read (Hex 0 0) l
          else if is_octal c then read (Octal 1 (c - 48)) l
          else match simple_escape c with
               | Some v => cons v <$> read Normal l
               | None => None
               end
      | Hex n v =>
          if isxdigit c then read (Hex (S n) (16 * v + hex_value c)) l
          else if (n =? 0)%nat || (limit <=? v) then None else cons v <$> normal
      | Octal n v =>
          if is_octal c && (n <? max_octal)%nat then read (Octal (S n) (8 * v + (c - 48))) l
          else if limit <=? v then None else cons v <$> normal
      end
  end.

Definition read_literal (l : list Z) : option (list Z) :=
  match l with
  | c :: l =>
      if wide then (if c =? 76 then read Prefix l else None)
      else if c =? 34 then read Normal l else None
  | [] => None
  end.

(** ** Hexadecimal numbers *)

Definition hex_number (ds : list Z) (v : Z) : Z := foldl (λ v d, 16 * v + hex_value d) v ds.

Lemma read_hex ds n v rest :
  Forall (λ d, isxdigit d = true) ds →
  read (Hex n v) (ds ++ rest) = read (Hex (length ds + n) (hex_number ds v)) rest.
Proof.
  intros H. revert n v. induction H as [|d ds Hd _ IH]; intros n v; [done|].
  simpl. rewrite Hd, IH. f_equal. f_equal. lia.
Qed.

Lemma hex_digit_ok d : 0 <= d < 16 → isxdigit (hex_digit d) = true ∧ hex_value (hex_digit d) = d.
Proof.
  intros H. assert (d ∈ seqZ 0 16) as Hin by (apply elem_of_seqZ; lia).
  revert d Hin H. apply (Forall_forall (λ d, 0 <= d < 16 → _)). vm_compute.
  repeat constructor.
Qed.

Lemma hex_digits_ok fuel n acc :
  0 <= n < 16 ^ Z.of_nat fuel → (0 < fuel)%nat → Forall (λ d, isxdigit d = true) acc →
  let r := hex_digits fuel n acc in
  Forall (λ d, isxdigit d = true) r ∧ (length acc < length r)%nat ∧
  hex_number r 0 = hex_number acc n.
Proof.
  revert n acc. induction fuel as [|fuel IH]; intros n acc Hn Hf Hacc; [lia|].
  cbn [hex_digits]. destruct (hex_digit_ok (n mod 16)) as [Hx Hv]; [apply Z.mod_pos_bound; lia|].
  assert (Forall (λ d, isxdigit d = true) (hex_digit (n mod 16) :: acc)) as Hacc' by by constructor.
  rewrite Nat2Z.inj_succ, Z.pow_succ_r in Hn by lia.
  destruct (n / 16 =? 0) eqn:E.
  - apply Z.eqb_eq in E. split; [done|]. split; [simpl; lia|]. unfold hex_number. simpl.
    rewrite Hv. f_equal. pose proof (Z.div_mod n 16). lia.
  - apply Z.eqb_neq in E. destruct (decide (fuel = 0%nat)) as [->|Hf0].
    { exfalso. apply E. simpl in Hn. apply Z.div_small. lia. }
    destruct (IH (n / 16) (hex_digit (n mod 16) :: acc)) as (H1 & H2 & H3); [|lia|done|].
    { split; [apply Z.div_pos; lia|apply Z.div_lt_upper_bound; lia]. }
    split; [done|]. simpl in H2. split; [lia|]. rewrite H3. unfold hex_number. simpl.
    rewrite Hv. f_equal. pose proof (Z.div_mod n 16). lia.
Qed.

Lemma read_FormatHexInt v rest :
  ∃ n, (0 < n)%nat ∧ read (Hex 0 0) (FormatHexInt v ++ rest) = read (Hex n (v mod U32)) rest.
Proof.
  unfold FormatHexInt.
  destruct (hex_digits_ok 8 (v mod U32) []) as (H1 & H2 & H3); [|lia|constructor|].
  { pose proof (Z.mod_pos_bound v U32). unfold U32 in *. simpl. lia. }
  set (ds := hex_digits 8 (v mod U32) []) in *. rewrite read_hex by done.
  rewrite H3. exists (length ds + 0)%nat. split; [simpl in H2; lia|done].
Qed.

(** ** Characters of a literal *)

(** A [wchar_t] has 32 bits with sign; a [char] any value, taken modulo 256. *)
Definition is_char (c : Z) : Prop := if wide then is_i32 c else True.
Definition taken (c : Z) : Z := if wide then c else c mod 256.
(** The code that a reader gives back. *)
Definition code_of (c : Z) : Z := taken c mod (if wide then U32 else 256).

Lemma limit_pos : 0 < limit.
Proof. unfold limit. destruct wide; unfold U32; lia. Qed.

Lemma read_Hex_stop n v c l :
  isxdigit c = false → n ≠ 0%nat → v < limit →
  read (Hex n v) (c :: l) = cons v <$> read Normal (c :: l).
Proof.
  intros Hc Hn Hv. cbn [read]. rewrite Hc.
  rewrite (proj2 (Nat.eqb_neq _ _) Hn), (proj2 (Z.leb_gt _ _) Hv). done.
Qed.

Lemma read_Octal_stop n v c l :
  is_octal c && (n <? max_octal)%nat = false → v < limit →
  read (Octal n v) (c :: l) = cons v <$> read Normal (c :: l).
Proof.
  intros Hc Hv. cbn [read]. by rewrite Hc, (proj2 (Z.leb_gt _ _) Hv).
Qed.

Lemma code_range c : 0 <= code_of c < limit.
Proof. unfold code_of, limit. destruct wide; apply Z.mod_pos_bound; unfold U32; lia. Qed.

Lemma code_small c : 0 <= taken c < 256 → code_of c = taken c.
Proof.
  intros H. unfold code_of. apply Z.mod_small. destruct wide; unfold U32; lia.
Qed.

Lemma hex_code c : is_char c → taken c mod U32 = code_of c.
Proof.
  unfold is_char, code_of, taken. destruct wide; intros H; [done|].
  pose proof (Z.mod_pos_bound c 256). rewrite !(Z.mod_small (c mod 256)); unfold U32; lia.
Qed.

(** A special escape or a character that stands for itself. *)
Definition plain_literal (lit : list Z) (v : Z) : Prop :=
  ∀ rest, read Normal (lit ++ rest) = cons v <$> read Normal rest.

Lemma plain_self c : 0x20 <= c <= 0x7E → c ≠ 34 → c ≠ 92 → plain_literal [c] c.
Proof.
  intros H H1 H2 rest. cbn [app read]. cbv zeta.
  rewrite (proj2 (Z.eqb_neq _ _) H1), (proj2 (Z.eqb_neq _ _) H2), (proj2 (Z.eqb_neq c 10)) by lia.
  done.
Qed.

(** The three ways a character is printed, and its first byte. *)
Lemma literal_cases c :
  let '(lit, fmt) := PrintAsStringLiteralTo wide c in
  (fmt ≠ kHexEscape ∧ taken c = 0 ∧ lit = [92; 48]) ∨
  (fmt ≠ kHexEscape ∧ 0 < taken c <= 126 ∧ plain_literal lit (taken c) ∧
   ∃ h t, lit = h :: t ∧ (h = 92 ∨ h = taken c)) ∨
  (fmt = kHexEscape ∧ lit = 92 :: 120 :: FormatHexInt (taken c)).
Proof.
  unfold PrintAsStringLiteralTo. fold (taken c).
  destruct (taken c =? 39) eqn:E39.
  { apply Z.eqb_eq in E39. right; left. rewrite E39. split; [done|]. split; [lia|].
    split; [apply plain_self; lia|]. eexists _, _. split; [done|]. by right. }
  destruct (taken c =? 34) eqn:E34.
  { apply Z.eqb_eq in E34. right; left. rewrite E34. split; [done|]. split; [lia|].
    split; [intros rest; reflexivity|]. eexists _, _. split; [done|]. by left. }
  unfold PrintAsCharLiteralTo. cbn [unsigned]. destruct (taken c =? 0) eqn:E0.
  { apply Z.eqb_eq in E0. left. by rewrite E0. }
  rewrite E39.
  repeat match goal with
  | |- context [if taken c =? ?k then _ else _] =>
      let E := fresh "E" in destruct (taken c =? k) eqn:E;
      [apply Z.eqb_eq in E; right; left; rewrite E; split; [done|]; split; [lia|];
       split; [intros rest; reflexivity|]; eexists _, _; split; [reflexivity|]; by left|]
  end.
  destruct (IsPrintableAscii (taken c)) eqn:EP.
  - unfold IsPrintableAscii in EP. apply andb_true_iff in EP as [H1 H2].
    apply Z.leb_le in H1, H2. apply Z.eqb_neq in E34. right; left.
    split; [done|]. split; [lia|]. split.
    + apply plain_self; [lia|done|]. match goal with H : (taken c =? 92) = false |- _ => by apply Z.eqb_neq in H end.
    + eexists _, _. split; [done|]. by right.
  - right; right. done.
Qed.

(** ** Strings *)

(** A NUL before an octal digit. *)
Fixpoint nul_then_octal (s : list Z) : bool :=
  match s with
  | c :: ((d :: _) as s) => (taken c =? 0) && is_octal (taken d) || nul_then_octal s
  | _ => false
  end.
Definition octal_first (s : list Z) : bool :=
  match s with d :: _ => is_octal (taken d) | [] => false end.

Lemma nul_then_octal_cons c s :
  nul_then_octal (c :: s) = (taken c =? 0) && octal_first s || nul_then_octal s.
Proof. destruct s; simpl; [by rewrite andb_false_r|done]. Qed.

Lemma IsXDigit_spec c : 0 <= taken c < 256 → IsXDigit wide c = isxdigit (taken c).
Proof.
  unfold IsXDigit, taken. destruct wide; intros H; [|done].
  rewrite Z.mod_small by done. by rewrite Z.eqb_refl.
Qed.

Lemma read_break l :
  read Normal (([34; 32] ++ kQuoteBegin wide) ++ l) = read Normal l.
Proof. unfold kQuoteBegin. destruct wide eqn:E; simpl; by rewrite ?E. Qed.

Lemma read_break_hex n v l :
  n ≠ 0%nat → v < limit →
  read (Hex n v) (([34; 32] ++ kQuoteBegin wide) ++ l) = cons v <$> read Normal l.
Proof.
  intros Hn Hv. rewrite <-(read_break l). exact (read_Hex_stop n v 34 _ eq_refl Hn Hv).
Qed.

(** The reading of what the loop prints, in the three states it can be in. *)
Lemma read_chars s :
  Forall is_char s → (max_octal = 1%nat ∨ nul_then_octal s = false) →
  read Normal (chars_loop wide false s ++ [34]) = Some (code_of <$> s) ∧
  (∀ n v, n ≠ 0%nat → v < limit →
     read (Hex n v) (chars_loop wide true s ++ [34]) = Some (v :: (code_of <$> s))) ∧
  (max_octal = 1%nat ∨ octal_first s = false →
     read (Octal 1 0) (chars_loop wide false s ++ [34]) = Some (0 :: (code_of <$> s))).
Proof.
  intros Hs. induction Hs as [|c s Hc Hs IH]; intros Hamb.
  { cbn [chars_loop app fmap list_fmap]. split; [done|]. split.
    - intros n v Hn Hv. by rewrite read_Hex_stop by done.
    - intros _. by rewrite read_Octal_stop by (done || apply limit_pos). }
  assert (max_octal = 1%nat ∨ nul_then_octal s = false) as Hamb'.
  { destruct Hamb as [?|Hamb]; [by left|right]. rewrite nul_then_octal_cons in Hamb.
    apply orb_false_iff in Hamb. tauto. }
  destruct (IH Hamb') as (IHn & IHh & IHo). clear IH.
  set (lit := (PrintAsStringLiteralTo wide c).1).
  set (fmt := (PrintAsStringLiteralTo wide c).2).
  assert (∀ b, chars_loop wide b (c :: s) =
    (if b && IsXDigit wide c then [34; 32] ++ kQuoteBegin wide else []) ++
    lit ++ chars_loop wide (bool_decide (fmt = kHexEscape)) s) as Hloop.
  { intros b. unfold lit, fmt. cbn [chars_loop].
    by destruct (PrintAsStringLiteralTo wide c) as [l f]. }
  pose proof (literal_cases c) as Hlit.
  assert (PrintAsStringLiteralTo wide c = (lit, fmt)) as Hp by apply surjective_pairing.
  rewrite Hp in Hlit.
  (* what is read from the normal state *)
  assert (read Normal (lit ++ chars_loop wide (bool_decide (fmt = kHexEscape)) s ++ [34])
          = Some (code_of <$> c :: s)) as Hnormal.
  { destruct Hlit as [(Hf & H0 & ->)|[(Hf & Hr & Hpl & _)|(Hf & ->)]].
    - rewrite bool_decide_eq_false_2 by done. rewrite fmap_cons, code_small, H0 by lia.
      change (read (Octal 1 0) (chars_loop wide false s ++ [34]) = Some (0 :: (code_of <$> s))).
      apply IHo. destruct Hamb as [?|Hamb]; [by left|right].
      rewrite nul_then_octal_cons, H0 in Hamb. simpl in Hamb. apply orb_false_iff in Hamb. tauto.
    - rewrite bool_decide_eq_false_2 by done. rewrite Hpl, IHn. simpl.
      by rewrite code_small by lia.
    - rewrite bool_decide_eq_true_2 by done.
      change (read (Hex 0 0) (FormatHexInt (taken c) ++ chars_loop wide true s ++ [34])
              = Some (code_of <$> c :: s)).
      destruct (read_FormatHexInt (taken c) (chars_loop wide true s ++ [34]))
        as (n & Hn & ->). rewrite hex_code by done. apply IHh; [lia|apply code_range]. }
  (* the first byte *)
  assert (∃ h t, lit = h :: t ∧ (h = 92 ∨ (h = taken c ∧ 0 < taken c <= 126))) as (h & t & Hh & Hhc).
  { destruct Hlit as [(_ & _ & ->)|[(_ & Hr & _ & h & t & -> & [?|?])|(_ & ->)]];
      eexists _, _; (split; [done|]); auto. }
  split; [|split].
  - rewrite Hloop. simpl. by rewrite <-app_assoc.
  - intros n v Hn Hv. rewrite Hloop, <-!app_assoc. destruct (IsXDigit wide c) eqn:Hx; cbn [andb].
    + rewrite read_break_hex, Hnormal by done. done.
    + rewrite app_nil_l, Hh. rewrite <-app_comm_cons, read_Hex_stop; [|destruct Hhc as [->|[-> Hr]]; [done|]|done|done].
      * rewrite app_comm_cons, <-Hh, Hnormal. done.
      * rewrite <-IsXDigit_spec by lia. done.
  - intros Ho. rewrite Hloop, <-!app_assoc. cbn [andb]. rewrite app_nil_l, Hh.
    rewrite <-app_comm_cons, read_Octal_stop.
    + rewrite app_comm_cons, <-Hh, Hnormal. done.
    + destruct Ho as [->|Ho]; [by rewrite andb_false_r|]. simpl in Ho.
      destruct Hhc as [->|[-> Hr]]; [done|]. by rewrite Ho.
    + apply limit_pos.
Qed.

Lemma read_printed s :
  Forall is_char s → (max_octal = 1%nat ∨ nul_then_octal s = false) →
  read_literal (PrintCharsAsStringTo wide s) = Some (code_of <$> s).
Proof.
  intros Hs Ha. unfold PrintCharsAsStringTo, read_literal, kQuoteBegin.
  destruct (read_chars s Hs Ha) as (H & _ & _). destruct wide eqn:E; simpl; rewrite ?E; exact H.
Qed.
End Reader.

(** * Literals *)

(** C24: A printed string is a literal that C++ reads as the string it was printed from, as
    long as no NUL is followed by an octal digit: the literal is broken where a digit
    would be taken into a hexadecimal escape. *)
Theorem printed_literal_reads_back wide s :
  Forall (is_char wide) s → nul_then_octal wide s = false →
  read_literal wide 3 (PrintCharsAsStringTo wide s) = Some (code_of wide <$> s).
Proof. intros. by apply read_printed; [|right]. Qed.

Lemma printed_literal_reads_back_witness :
  PrintCharsAsStringTo false [-1; 97; 10; 34; 0; 120]
    = [34] ++ text "\xFF" ++ [34; 32; 34] ++ text "a\n\" ++ [34] ++ text "\0x" ++ [34] ∧
  read_literal false 3 (PrintCharsAsStringTo false [-1; 97; 10; 34; 0; 120])
    = Some (code_of false <$> [-1; 97; 10; 34; 0; 120]).
Proof.
  split; [vm_compute; reflexivity|].
  apply (printed_literal_reads_back false [-1; 97; 10; 34; 0; 120]); [by repeat constructor|].
  vm_compute. reflexivity.
Defined.

(** Strings that are printed alike are alike. *)
Theorem printed_strings_differ wide s t :
  Forall (is_char wide) s → Forall (is_char wide) t →
  PrintCharsAsStringTo wide s = PrintCharsAsStringTo wide t →
  code_of wide <$> s = code_of wide <$> t.
Proof.
  intros Hs Ht E.
  pose proof (read_printed wide 1 s Hs (or_introl eq_refl)) as H1.
  pose proof (read_printed wide 1 t Ht (or_introl eq_refl)) as H2. congruence.
Qed.

Lemma printed_strings_differ_witness :
  code_of false <$> [-1] = code_of false <$> [255].
Proof. apply (printed_strings_differ false [-1] [255]); by repeat constructor. Defined.

(** A NUL before an octal digit is printed so that C++ reads another character. *)
Theorem printed_nul_is_misread :
  read_literal false 3 (PrintCharsAsStringTo false [0; 49]) = Some [1].
Proof. reflexivity. Qed.

(** * Containers *)

Section Container.
Context {A : Type} (UniversalPrint : A → list Z).

Definition with_commas (a : list A) : list Z := a ≫= λ x, text ", " ++ UniversalPrint x.

Lemma PrintRawArrayTo_cons x a :
  PrintRawArrayTo UniversalPrint (x :: a) = UniversalPrint x ++ with_commas a.
Proof.
  revert x. induction a as [|y a IH]; intros x; [by rewrite app_nil_r|].
  change (PrintRawArrayTo UniversalPrint (x :: y :: a))
    with (UniversalPrint x ++ text ", " ++ PrintRawArrayTo UniversalPrint (y :: a)).
  rewrite IH. reflexivity.
Qed.

Lemma container_loop_spec a count :
  (0 < count <= kMaxCount)%nat →
  container_loop UniversalPrint count a =
    (with_commas (take (kMaxCount - count) a) ++
     (if decide (length a <= kMaxCount - count)%nat then [] else text ", ..."),
     (count + Nat.min (kMaxCount - count) (length a))%nat).
Proof.
  revert count. induction a as [|x a IH]; intros count H.
  { rewrite take_nil, decide_True by (simpl; lia). simpl. f_equal. lia. }
  cbn [container_loop]. rewrite (decide_True (P:=(0 < count)%nat)) by lia.
  destruct (decide (0 < count ∧ count = kMaxCount)%nat) as [[_ ->]|Hn].
  - rewrite Nat.sub_diag. rewrite decide_False by (simpl; lia). reflexivity.
  - rewrite IH by lia. destruct (kMaxCount - count)%nat as [|k] eqn:E; [lia|].
    replace (kMaxCount - S count)%nat with k by lia. simpl. f_equal; [|lia].
    unfold with_commas. simpl. rewrite <-!app_assoc. do 4 f_equal.
    destruct (decide (length a <= k)%nat), (decide (S (length a) <= S k)%nat); (done || lia).
Qed.

(** A container is printed like an array, but for what is behind the first 32 elements,
    which is left out. *)
Lemma PrintContainerTo_spec a :
  PrintContainerTo UniversalPrint a =
  match a with
  | [] => text "{}"
  | _ => text "{ " ++ PrintRawArrayTo UniversalPrint (take kMaxCount a) ++
         (if decide (length a <= kMaxCount)%nat then [] else text ", ...") ++ text " }"
  end.
Proof.
  destruct a as [|x a]; [done|]. unfold PrintContainerTo. cbn [container_loop].
  rewrite !decide_False by lia. rewrite container_loop_spec by (unfold kMaxCount; lia).
  assert (0 < 1 + Nat.min (kMaxCount - 1) (length a))%nat as Hpos by (unfold kMaxCount; lia).
  rewrite (decide_True _ _ Hpos).
  change (take kMaxCount (x :: a)) with (x :: take (kMaxCount - 1) a).
  rewrite PrintRawArrayTo_cons, app_nil_l.
  change (text "{ ") with (text "{" ++ text " "). change (text " }") with (text " " ++ text "}").
  rewrite <-!app_assoc. do 4 f_equal.
  destruct (decide (length a <= kMaxCount - 1)%nat) as [?|?],
    (decide (length (x :: a) <= kMaxCount)%nat) as [?|?]; simpl in *; unfold kMaxCount in *; (done || lia).
Qed.
End Container.

(** * Bytes *)

(** The pairs of digits with separators between. *)
Fixpoint read_pairs (fuel : nat) (l : list Z) : list Z :=
  match fuel with
  | O => []
  | S fuel =>
      match l with
      | a :: b :: l => (16 * hex_value a + hex_value b) :: read_pairs fuel (tail l)
      | _ => []
      end
  end.

Lemma hex_pair_ok b :
  0 <= b < 256 → 16 * hex_value (hex_digit (b / 16)) + hex_value (hex_digit (b mod 16)) = b.
Proof.
  intros Hb. destruct (hex_digit_ok (b / 16)) as [_ ->]; [Z.div_mod_to_equations; lia|].
  destruct (hex_digit_ok (b mod 16)) as [_ ->]; Z.div_mod_to_equations; lia.
Qed.

Lemma byte_segment_bytes obj_bytes i start count :
  Forall (λ b, 0 <= b < 256) obj_bytes → (start + i + count <= length obj_bytes)%nat →
  (0 < i)%nat →
  read_pairs count (tail (byte_segment obj_bytes i start count)) =
    take count (drop (start + i) obj_bytes).
Proof.
  intros Hb. revert i. induction count as [|count IH]; intros i Hl Hi; [done|].
  destruct (lookup_lt_is_Some_2 obj_bytes (start + i)) as [b Hbi]; [lia|].
  rewrite (drop_S _ _ _ Hbi). cbn [byte_segment]. rewrite Hbi, decide_False by lia.
  assert (∃ sep, (if decide ((start + i) mod 2 = 0)%nat then text " " else text "-") = [sep])
    as [sep ->] by (case_decide; by eexists).
  pose proof (Forall_lookup_1 _ _ _ _ Hb Hbi) as Hr.
  cbn [app tail default id hex2 read_pairs take].
  f_equal; [exact (hex_pair_ok b Hr)|]. rewrite IH by lia. f_equal. f_equal. lia.
Qed.

(** An object of less than 132 bytes is printed whole; of a larger one the first 64
    and the last 63 or 64, none of them twice. *)
Theorem PrintBytesInObjectTo_bytes obj_bytes :
  Forall (λ b, 0 <= b < 256) obj_bytes →
  (∀ start count, (0 < count)%nat → (start + count <= length obj_bytes)%nat →
     read_pairs count (PrintByteSegmentInObjectTo obj_bytes start count) =
       take count (drop start obj_bytes)) ∧
  let n := length obj_bytes in
  (kThreshold <= n)%nat →
    (kChunkSize < resume_pos n)%nat ∧ (n - resume_pos n = 63 ∨ n - resume_pos n = 64)%nat.
Proof.
  intros Hb. split.
  - intros start [|count] Hc Hl; [lia|]. unfold PrintByteSegmentInObjectTo. cbn [byte_segment].
    rewrite Nat.add_0_r.
    destruct (lookup_lt_is_Some_2 obj_bytes start) as [b Hbi]; [lia|].
    rewrite (drop_S _ _ _ Hbi), Hbi, decide_True by done.
    pose proof (Forall_lookup_1 _ _ _ _ Hb Hbi) as Hr.
    cbn [app default id hex2 read_pairs take].
    f_equal; [exact (hex_pair_ok b Hr)|].
    rewrite byte_segment_bytes by (done || lia). f_equal. f_equal. lia.
  - unfold kThreshold, kChunkSize, resume_pos, kChunkSize. intros H. pose proof (Nat.div_mod_eq (length obj_bytes - 64 + 1) 2).
    pose proof (Nat.mod_upper_bound (length obj_bytes - 64 + 1) 2). lia.
Qed.

Lemma PrintBytesInObjectTo_bytes_witness :
  read_pairs 3 (PrintByteSegmentInObjectTo [1; 171; 255] 0 3) = [1; 171; 255].
Proof.
  apply (PrintBytesInObjectTo_bytes [1; 171; 255]); [|simpl; lia..]. repeat constructor; lia.
Defined.
