(* ===== verification/Assertions.v ===== *)
(** The results of assertions and the messages of those that fail
    ([src/lib/googletest/src/gtest.cc]): equality with its diff, comparisons of integers
    and of C strings, substrings, and the string helpers they use.

    A text is the list of its bytes; a C string is a text without NUL, [None] a null
    pointer. *)

From S2P Require Import Prelude Strings Utf8 Printers EditDistance.
From stdpp Require Import base list strings.
From Stdlib Require Import ZArith Lia Ascii.

Open Scope Z_scope.

(** * Texts *)

(** A text as a string of the diffs, and back. *)
Definition of_text (l : list Z) : string :=
  String.string_of_list_ascii ((λ c, ascii_of_N (Z.to_N c)) <$> l).

Definition newline : list Z := [10].

(** [std::string::substr]. *)
Definition substr (str : list Z) (pos n : nat) : list Z := take n (drop pos str).

(** [str.find(delimiter, pos)] and the text before it. *)
Fixpoint find_char (delimiter : Z) (str : list Z) : option nat :=
  match str with
  | [] => None
  | c :: str => if c =? delimiter then Some 0%nat else S <$> find_char delimiter str
  end.

(** [SplitString]; every round but the last takes a delimiter. *)
Fixpoint split_string_loop (fuel : nat) (str : list Z) (delimiter : Z) : list (list Z) :=
  match fuel, find_char delimiter str with
  | S fuel, Some colon =>
      take colon str :: split_string_loop fuel (drop (S colon) str) delimiter
  | _, _ => [str]
  end.
Definition SplitString (str : list Z) (delimiter : Z) : list (list Z) :=
  split_string_loop (length str) str delimiter.

(** The loop of [SplitEscapedString], [n] rounds from [i] on: the lines, and where the
    last one starts. *)
Fixpoint split_loop (n : nat) (str : list Z) (start i : nat) (escaped : bool)
    : list (list Z) * nat :=
  match n with
  | O => ([], start)
  | S n =>
      let c := default 0 (str !! i) in
      if escaped then
        if c =? 110 then
          let '(lines, last) := split_loop n str (S i) (S i) false in
          (substr str start (i - start - 1) :: lines, last)
        else split_loop n str start (S i) false
      else split_loop n str start (S i) (c =? 92)
  end.

Definition SplitEscapedString (str : list Z) : list (list Z) :=
  let size := length str in
  let '(start, end_) :=
    if (2 <? size)%nat && bool_decide (str !! 0%nat = Some 34)
         && bool_decide (str !! (size - 1)%nat = Some 34)
    then (1, size - 1)%nat else (0, size)%nat in
  let '(lines, start) := split_loop (end_ - 1 - start) str start start false in
  lines ++ [substr str start (end_ - start)].

(** * Comparisons of C strings *)

Definition CStringEquals (lhs rhs : option (list Z)) : bool := bool_decide (lhs = rhs).

(** [tolower] in the C locale. *)
Definition tolower (c : Z) : Z := if (65 <=? c) && (c <=? 90) then c + 32 else c.
(** [strcasecmp] is zero. *)
Definition StrCaseEq (lhs rhs : list Z) : bool := bool_decide (tolower <$> lhs = tolower <$> rhs).

Definition CaseInsensitiveCStringEquals (lhs rhs : option (list Z)) : bool :=
  match lhs, rhs with
  | None, None => true
  | Some lhs, Some rhs => StrCaseEq lhs rhs
  | _, _ => false
  end.

(** [c_str()] up to the NUL is what is compared. *)
Definition EndsWithCaseInsensitive (str suffix : list Z) : bool :=
  let str_len := length str in
  let suffix_len := length suffix in
  (suffix_len <=? str_len)%nat &&
  CaseInsensitiveCStringEquals (Some (from_c_str (drop (str_len - suffix_len) str)))
    (Some (from_c_str suffix)).

(** * Assertion results *)

Inductive AssertionResult := AssertionSuccess | AssertionFailure (message_ : list Z).

(** [AssertionFailure() << message]. *)
Definition failure (message : list Z) : AssertionResult :=
  AssertionFailure (StringStreamToString message).

Definition AppendUserMessage (gtest_msg user_msg : list Z) : list Z :=
  match StringStreamToString user_msg with
  | [] => gtest_msg
  | user_msg_string => gtest_msg ++ newline ++ user_msg_string
  end.

(** The diff of two values, with the default context. *)
Definition with_diff (lhs_value rhs_value : list Z) : option (list Z) :=
  match lhs_value, rhs_value with
  | _ :: _, _ :: _ =>
      let lhs_lines := SplitEscapedString lhs_value in
      let rhs_lines := SplitEscapedString rhs_value in
      if (1 <? length lhs_lines)%nat || (1 <? length rhs_lines)%nat then
        diff ← CreateUnifiedDiff (of_text <$> lhs_lines) (of_text <$> rhs_lines) 2;
        Some (newline ++ text "With diff:" ++ newline ++ text diff)
      else Some []
  | _, _ => Some []
  end.

(** [EqFailure]; [None] would be a diff that ran out of fuel. *)
Definition EqFailure (lhs_expression rhs_expression lhs_value rhs_value : list Z)
    (ignoring_case : bool) : option AssertionResult :=
  diff ← with_diff lhs_value rhs_value;
  Some (failure
    (text "      Expected: " ++ lhs_expression ++
     (if bool_decide (lhs_value = lhs_expression) then []
      else newline ++ text "      Which is: " ++ lhs_value) ++
     newline ++ text "To be equal to: " ++ rhs_expression ++
     (if bool_decide (rhs_value = rhs_expression) then []
      else newline ++ text "      Which is: " ++ rhs_value) ++
     (if ignoring_case then newline ++ text "Ignoring case" else []) ++ diff)).

Definition GetBoolAssertionFailureMessage (actual_message expression_text
    actual_predicate_value expected_predicate_value : list Z) : list Z :=
  StringStreamToString
    (text "Value of: " ++ expression_text ++
     newline ++ text "  Actual: " ++ actual_predicate_value ++
     (match actual_message with [] => [] | m => text " (" ++ m ++ text ")" end) ++
     newline ++ text "Expected: " ++ expected_predicate_value).

(** ** Integers *)

Definition CmpHelperEQ (lhs_expression rhs_expression : list Z) (lhs rhs : Z)
    : option AssertionResult :=
  if lhs =? rhs then Some AssertionSuccess
  else EqFailure lhs_expression rhs_expression (show64 lhs) (show64 rhs) false.

(** [GTEST_IMPL_CMP_HELPER_]. *)
Definition CmpHelper (op_text : string) (op : Z → Z → bool) (expr1 expr2 : list Z)
    (val1 val2 : Z) : AssertionResult :=
  if op val1 val2 then AssertionSuccess
  else
    failure (text "Expected: (" ++ expr1 ++ text ") " ++ text op_text ++ text " (" ++ expr2 ++
             text "), actual: " ++ show64 val1 ++ text " vs " ++ show64 val2).

Definition CmpHelperNE := CmpHelper "!=" (λ a b, negb (a =? b)).
Definition CmpHelperLE := CmpHelper "<=" Z.leb.
Definition CmpHelperLT := CmpHelper "<" Z.ltb.
Definition CmpHelperGE := CmpHelper ">=" (λ a b, b <=? a).
Definition CmpHelperGT := CmpHelper ">" (λ a b, b <? a).

(** ** C strings *)

(** [Message << s] of a C string. *)
Definition show_c_str (s : option (list Z)) : list Z := default (text "(null)") s.

Definition CmpHelperSTREQ (lhs_expression rhs_expression : list Z) (lhs rhs : option (list Z))
    : option AssertionResult :=
  if CStringEquals lhs rhs then Some AssertionSuccess
  else EqFailure lhs_expression rhs_expression (PrintToString false lhs)
         (PrintToString false rhs) false.

Definition CmpHelperSTRCASEEQ (lhs_expression rhs_expression : list Z)
    (lhs rhs : option (list Z)) : option AssertionResult :=
  if CaseInsensitiveCStringEquals lhs rhs then Some AssertionSuccess
  else EqFailure lhs_expression rhs_expression (PrintToString false lhs)
         (PrintToString false rhs) true.

Definition str_ne (note : string) (s1_expression s2_expression : list Z)
    (s1 s2 : option (list Z)) : AssertionResult :=
  failure (text "Expected: (" ++ s1_expression ++ text ") != (" ++ s2_expression ++ text ")" ++
           text note ++ text ", actual: " ++ [34] ++ show_c_str s1 ++ [34] ++ text " vs " ++ [34]
           ++ show_c_str s2 ++ [34]).

Definition CmpHelperSTRNE (s1_expression s2_expression : list Z) (s1 s2 : option (list Z))
    : AssertionResult :=
  if negb (CStringEquals s1 s2) then AssertionSuccess
  else str_ne "" s1_expression s2_expression s1 s2.

Definition CmpHelperSTRCASENE (s1_expression s2_expression : list Z) (s1 s2 : option (list Z))
    : AssertionResult :=
  if negb (CaseInsensitiveCStringEquals s1 s2) then AssertionSuccess
  else str_ne " (ignoring case)" s1_expression s2_expression s1 s2.

(** ** Wide strings *)

Definition WideCStringEquals (lhs rhs : option (list Z)) : bool := bool_decide (lhs = rhs).

Definition CmpHelperSTREQ_wide (lhs_expression rhs_expression : list Z)
    (lhs rhs : option (list Z)) : option AssertionResult :=
  if WideCStringEquals lhs rhs then Some AssertionSuccess
  else EqFailure lhs_expression rhs_expression (PrintToString true lhs)
         (PrintToString true rhs) false.

Definition CmpHelperSTRNE_wide (s1_expression s2_expression : list Z) (s1 s2 : option (list Z))
    : AssertionResult :=
  if negb (WideCStringEquals s1 s2) then AssertionSuccess
  else
    failure (text "Expected: (" ++ s1_expression ++ text ") != (" ++ s2_expression ++
             text "), actual: " ++ PrintToString true s1 ++ text " vs " ++ PrintToString true s2).

(** ** Substrings *)

(** [strstr] and [std::string::find]. *)
Fixpoint starts_with (prefix l : list Z) : bool :=
  match prefix, l with
  | [], _ => true
  | p :: prefix, c :: l => (p =? c) && starts_with prefix l
  | _, [] => false
  end.
Fixpoint find_text (needle haystack : list Z) : bool :=
  starts_with needle haystack ||
  match haystack with [] => false | _ :: haystack => find_text needle haystack end.

Definition IsSubstringPred (needle haystack : option (list Z)) : bool :=
  match needle, haystack with
  | Some needle, Some haystack => find_text needle haystack
  | None, None => true
  | _, _ => false
  end.

Definition IsSubstringImpl (expected_to_be_substring : bool)
    (needle_expr haystack_expr : list Z) (needle haystack : option (list Z))
    : AssertionResult :=
  if Bool.eqb (IsSubstringPred needle haystack) expected_to_be_substring then AssertionSuccess
  else
    failure (text "Value of: " ++ needle_expr ++ newline ++
             text "  Actual: " ++ [34] ++ show_c_str needle ++ [34] ++ newline ++
             text "Expected: " ++ (if expected_to_be_substring then [] else text "not ") ++
             text "a substring of " ++ haystack_expr ++ newline ++
             text "Which is: " ++ [34] ++ show_c_str haystack ++ [34]).

Definition IsSubstring := IsSubstringImpl true.
Definition IsNotSubstring := IsSubstringImpl false.
