(* ===== verification/AssertionsFacts.v ===== *)
(** Facts about the messages of assertions: how texts are split, and what the diff of a
    failed equality says. *)

From S2P Require Import Prelude Strings Utf8 Printers PrintersFacts EditDistance EditDistanceFacts Assertions.
From stdpp Require Import base sets list strings.
From Stdlib Require Import ZArith Lia Ascii.

Open Scope Z_scope.

(** * [SplitString] *)

Fixpoint joined (delimiter : Z) (parts : list (list Z)) : list Z :=
  match parts with
  | [] => []
  | [p] => p
  | p :: parts => p ++ delimiter :: joined delimiter parts
  end.

Lemma joined_cons d p ps : ps ≠ [] → joined d (p :: ps) = p ++ d :: joined d ps.
Proof. by destruct ps. Qed.

Lemma find_char_Some d str n :
  find_char d str = Some n →
  ∃ before after, str = before ++ d :: after ∧ length before = n ∧ d ∉ before.
Proof.
  revert n. induction str as [|c str IH]; intros n; simpl; [done|].
  destruct (c =? d) eqn:E.
  - intros [= <-]. apply Z.eqb_eq in E. subst. exists [], str. set_solver.
  - apply Z.eqb_neq in E. destruct (find_char d str) as [k|]; [|done].
    intros [= <-]. destruct (IH k eq_refl) as (b & a & -> & <- & Hb).
    exists (c :: b), a. set_solver.
Qed.

Lemma find_char_None d str : find_char d str = None → d ∉ str.
Proof.
  induction str as [|c str IH]; simpl; [set_solver|]. destruct (c =? d) eqn:E; [done|].
  apply Z.eqb_neq in E. destruct (find_char d str); [done|]. intros _. set_solver.
Qed.

Lemma find_char_absent d l : d ∉ l → find_char d l = None.
Proof.
  induction l as [|c l IH]; intros H; [done|]. cbn [find_char].
  rewrite (proj2 (Z.eqb_neq c d)) by set_solver. by rewrite IH by set_solver.
Qed.

Lemma split_string_spec delimiter str :
  joined delimiter (SplitString str delimiter) = str ∧
  Forall (λ p, delimiter ∉ p) (SplitString str delimiter) ∧ SplitString str delimiter ≠ [].
Proof.
  unfold SplitString.
  assert (∀ fuel s, (length s <= fuel)%nat →
    joined delimiter (split_string_loop fuel s delimiter) = s ∧
    Forall (λ p, delimiter ∉ p) (split_string_loop fuel s delimiter) ∧
    split_string_loop fuel s delimiter ≠ []) as H; [|apply H; lia].
  induction fuel as [|fuel IH]; intros s Hl.
  { destruct s; [|simpl in Hl; lia]. simpl. split; [done|]. split; [|done].
    constructor; [set_solver|constructor]. }
  simpl. destruct (find_char delimiter s) as [n|] eqn:E.
  - apply find_char_Some in E as (b & a & -> & <- & Hb).
    rewrite take_app_length, drop_app, (drop_ge b) by lia.
    replace (S (length b) - length b)%nat with 1%nat by lia. cbn [drop app].
    rewrite length_app in Hl. simpl in Hl. destruct (IH a) as (H1 & H2 & H3); [lia|].
    rewrite drop_0. split; [|split; [by constructor|done]].
    by rewrite joined_cons, H1.
  - split; [done|]. split; [|done]. constructor; [by apply find_char_None|constructor].
Qed.

(** Splitting at a delimiter gives parts without it that, joined by it, are the text. *)
Theorem SplitString_joined delimiter str :
  joined delimiter (SplitString str delimiter) = str ∧
  Forall (λ p, delimiter ∉ p) (SplitString str delimiter) ∧ SplitString str delimiter ≠ [].
Proof. apply split_string_spec. Qed.

(** * [SplitEscapedString] *)

(** The loop as a walk over the text, with the line that is being read. *)
Fixpoint split_scan (cur : list Z) (escaped : bool) (l : list Z) : list (list Z) :=
  match l with
  | [] => [cur]
  | c :: l =>
      match l with
      | [] => [cur ++ [c]]
      | _ :: _ =>
          if escaped then
            if c =? 110 then removelast cur :: split_scan [] false l
            else split_scan (cur ++ [c]) false l
          else split_scan (cur ++ [c]) (c =? 92) l
      end
  end.

Lemma substr_mid pre cur post : substr (pre ++ cur ++ post) (length pre) (length cur) = cur.
Proof. unfold substr. by rewrite drop_app_length, take_app_length. Qed.

Lemma split_loop_scan l pre cur post escaped :
  (escaped = true → ∃ cur', cur = cur' ++ [92]) →
  let str := pre ++ (cur ++ l) ++ post in
  let '(lines, last) :=
    split_loop (length l - 1) str (length pre) (length pre + length cur) escaped in
  lines ++ [substr str last (length pre + length cur + length l - last)] =
  split_scan cur escaped l.
Proof.
  revert pre cur escaped. induction l as [|c l IH]; intros pre cur escaped Hesc; cbv zeta.
  { cbn [length Nat.sub split_loop split_scan app].
    rewrite app_nil_r. do 2 f_equal. replace (_ - _)%nat with (length cur) by lia.
    apply substr_mid. }
  destruct l as [|d l].
  { cbn [length Nat.sub split_loop split_scan app]. do 2 f_equal.
    replace (_ - _)%nat with (length (cur ++ [c])) by (rewrite length_app; simpl; lia).
    apply substr_mid. }
  replace (length (c :: d :: l) - 1)%nat with (S (length (d :: l) - 1)) by (simpl; lia).
  cbn [split_loop].
  assert ((pre ++ (cur ++ c :: d :: l) ++ post) !! (length pre + length cur)%nat = Some c) as ->.
  { rewrite lookup_app_r by lia. rewrite lookup_app_l by (rewrite length_app; simpl; lia).
    rewrite lookup_app_r by lia. replace (_ - _ - _)%nat with 0%nat by lia. done. }
  cbn [default id].
  assert (∀ e, split_scan cur e (c :: d :: l) =
    if e then if c =? 110 then removelast cur :: split_scan [] false (d :: l)
              else split_scan (cur ++ [c]) false (d :: l)
    else split_scan (cur ++ [c]) (c =? 92) (d :: l)) as -> by done.
  assert (∀ e', (e' = true → c = 92) →
    let '(lines, last) :=
      split_loop (length (d :: l) - 1) (pre ++ (cur ++ c :: d :: l) ++ post) (length pre)
        (S (length pre + length cur)) e' in
    lines ++ [substr (pre ++ (cur ++ c :: d :: l) ++ post) last
                (length pre + length cur + length (c :: d :: l) - last)] =
    split_scan (cur ++ [c]) e' (d :: l)) as Hgo.
  { intros e' He'. specialize (IH pre (cur ++ [c]) e').
    rewrite length_app in IH. cbn [length] in IH |- *.
    rewrite (cons_middle c cur (d :: l)) in *.
    replace (length pre + (length cur + 1))%nat with (S (length pre + length cur)) in IH by lia.
    replace (S (length pre + length cur) + S (length l))%nat
      with (length pre + length cur + S (S (length l)))%nat in IH by lia.
    rewrite (app_assoc cur [c] (d :: l)). apply IH. intros He. exists cur. by rewrite (He' He). }
  destruct escaped; [|apply Hgo; by intros ?%Z.eqb_eq].
  destruct (c =? 110) eqn:En; [|by apply Hgo].
  destruct (Hesc eq_refl) as [cur' ->].
  specialize (IH (pre ++ (cur' ++ [92]) ++ [c]) [] false ltac:(done)). cbv zeta in IH.
  set (str := pre ++ ((cur' ++ [92]) ++ c :: d :: l) ++ post).
  assert ((pre ++ (cur' ++ [92]) ++ [c]) ++ ([] ++ d :: l) ++ post = str) as Hstr
    by (unfold str; by rewrite <-!app_assoc).
  assert (substr str (length pre) (length cur') = cur') as Hline.
  { unfold str. replace ((cur' ++ [92]) ++ c :: d :: l) with (cur' ++ 92 :: c :: d :: l)
      by (by rewrite <-app_assoc). rewrite <-(app_assoc cur'). apply substr_mid. }
  rewrite Hstr in IH. clearbody str. rewrite !length_app in *. cbn [length] in *.
  replace (length pre + (length cur' + 1 + 1) + 0)%nat
    with (S (length pre + (length cur' + 1))) in IH by lia.
  replace (length pre + (length cur' + 1 + 1))%nat
    with (S (length pre + (length cur' + 1))) in IH by lia.
  rewrite removelast_last.
  destruct (split_loop (S (length l) - 1) str _ _ false) as [lines last].
  replace (S (length pre + (length cur' + 1)) + S (length l))%nat
    with (length pre + (length cur' + 1) + S (S (length l)))%nat in IH by lia.
  rewrite <-IH. cbn [app]. f_equal.
  by replace (length pre + (length cur' + 1) - length pre - 1)%nat with (length cur') by lia.
Qed.

(** ** Printed strings *)

(** How a byte is printed. *)
Lemma literal_shape c :
  0 <= c < 256 →
  let lit := (PrintAsStringLiteralTo false c).1 in
  (lit = [c] ∧ c ≠ 92) ∨
  (∃ x, lit = [92; x] ∧ (x = 110 ↔ c = 10)) ∨
  (∃ ds, lit = 92 :: 120 :: ds ∧ Forall (λ d, isxdigit d = true) ds ∧ c ≠ 10).
Proof.
  intros Hc lit. unfold lit, PrintAsStringLiteralTo. rewrite Z.mod_small by done.
  destruct (c =? 39) eqn:E39; [apply Z.eqb_eq in E39; subst; by left|].
  destruct (c =? 34) eqn:E34; [apply Z.eqb_eq in E34; subst; right; left; by exists 34|].
  unfold PrintAsCharLiteralTo. rewrite E39.
  repeat match goal with
  | |- context [if c =? ?k then _ else _] =>
      let E := fresh "E" in destruct (c =? k) eqn:E;
      [apply Z.eqb_eq in E; rewrite E; right; left; eexists; split; [reflexivity|]; done|]
  end.
  repeat match goal with H : (c =? _) = false |- _ => apply Z.eqb_neq in H end.
  destruct (IsPrintableAscii c); [by left|]. right; right.
  exists (FormatHexInt c). split; [done|]. split; [|done].
  apply hex_digits_ok; [|lia|constructor].
  pose proof (Z.mod_pos_bound c U32). unfold U32 in *. simpl. lia.
Qed.

(** Text without escaped newlines. *)
Definition transparent (w : list Z) : Prop :=
  ∀ cur r, split_scan cur false (w ++ r) = split_scan (cur ++ w) false r.

Lemma transparent_nil : transparent [].
Proof. intros cur r. by rewrite app_nil_r. Qed.

Lemma transparent_app v w : transparent v → transparent w → transparent (v ++ w).
Proof. intros Hv Hw cur r. by rewrite <-app_assoc, Hv, Hw, app_assoc. Qed.

Lemma transparent_one c : c ≠ 92 → transparent [c].
Proof.
  intros Hc cur [|d r]; [done|]. cbn [app split_scan].
  by rewrite (proj2 (Z.eqb_neq _ _) Hc).
Qed.

Lemma transparent_many w : Forall (λ c, c ≠ 92) w → transparent w.
Proof.
  induction 1 as [|c w Hc _ IH]; [apply transparent_nil|].
  exact (transparent_app [c] w (transparent_one c Hc) IH).
Qed.

Lemma transparent_escape x : x ≠ 110 → transparent [92; x].
Proof.
  intros Hx cur [|d r]; cbn [app split_scan]; rewrite <-?app_assoc; [done|].
  change (92 =? 92) with true. cbv iota.
  rewrite (proj2 (Z.eqb_neq _ _) Hx). done.
Qed.

(** The lines of a string; a newline at its end stays with its line. *)
Fixpoint pieces (s : list Z) : list (list Z) :=
  match s with
  | [] => [[]]
  | c :: s =>
      if (c =? 10) && negb (bool_decide (s = [])) then [] :: pieces s
      else match pieces s with p :: ps => (c :: p) :: ps | [] => [[c]] end
  end.

Lemma pieces_nonempty s : pieces s ≠ [].
Proof.
  destruct s as [|c s]; [done|]. simpl. destruct (_ && _); [done|]. by destruct (pieces s).
Qed.

(** How they are printed; the hexadecimal state goes on in the first. *)
Definition printed (b : bool) (ps : list (list Z)) : list (list Z) :=
  match ps with
  | [] => []
  | p :: ps => chars_loop false b p :: (chars_loop false false <$> ps)
  end.

Lemma chars_loop_cons b c s :
  chars_loop false b (c :: s) =
    ((if b && IsXDigit false c then [34; 32; 34] else []) ++ (PrintAsStringLiteralTo false c).1) ++
    chars_loop false (bool_decide ((PrintAsStringLiteralTo false c).2 = kHexEscape)) s.
Proof.
  cbn [chars_loop]. destruct (PrintAsStringLiteralTo false c) as [lit fmt]. simpl.
  by rewrite <-app_assoc.
Qed.

Lemma chars_loop_nil b s : chars_loop false b s = [] → s = [].
Proof.
  destruct s as [|c s]; [done|]. rewrite chars_loop_cons. intros H.
  apply app_eq_nil in H as [H _]. apply app_eq_nil in H as [_ H].
  unfold PrintAsStringLiteralTo, PrintAsCharLiteralTo in H.
  repeat match type of H with context [if ?b then _ else _] => destruct b; try done end.
Qed.

Lemma split_scan_printed s b cur :
  Forall (λ c, 0 <= c < 256) s →
  split_scan cur false (chars_loop false b s) =
    match printed b (pieces s) with [] => [] | p :: ps => (cur ++ p) :: ps end.
Proof.
  intros Hs. revert b cur. induction Hs as [|c s Hc Hs IH]; intros b cur.
  { simpl. by rewrite app_nil_r. }
  rewrite chars_loop_cons. set (b' := bool_decide _).
  set (brk := if b && IsXDigit false c then [34; 32; 34] else []).
  assert (transparent brk) as Hbrk.
  { unfold brk. destruct (_ && _); [|apply transparent_nil]. apply transparent_many.
    by repeat constructor. }
  assert (∀ w, transparent w → (PrintAsStringLiteralTo false c).1 = w →
    (c =? 10) && negb (bool_decide (s = [])) = false →
    split_scan cur false ((brk ++ w) ++ chars_loop false b' s) =
    match printed b (pieces (c :: s)) with [] => [] | p :: ps => (cur ++ p) :: ps end) as Hgo.
  { intros w Hw Hlit Hn. rewrite (transparent_app _ _ Hbrk Hw), IH. cbn [pieces]. rewrite Hn.
    destruct (pieces s) as [|p ps] eqn:Ep; [by apply pieces_nonempty in Ep|].
    cbn [printed]. rewrite chars_loop_cons. fold b' brk. by rewrite Hlit, <-!app_assoc. }
  destruct (literal_shape c Hc) as [[Hl Hne]|[(x & Hl & Hx)|(ds & Hl & Hds & Hne)]]; rewrite Hl.
  - destruct ((c =? 10) && negb (bool_decide (s = []))) eqn:En.
    + exfalso. apply andb_true_iff in En as [En _]. apply Z.eqb_eq in En. by subst.
    + apply Hgo; [by apply transparent_one|done|done].
  - destruct (decide (x = 110)) as [->|Hx'].
    + assert (c = 10) as -> by tauto. destruct s as [|d s].
      * cbn [pieces]. cbn [chars_loop]. rewrite app_nil_r, (Hbrk cur [92; 110]).
        rewrite bool_decide_eq_true_2 by done.
        assert (brk = []) as -> by (unfold brk; by destruct b). rewrite app_nil_r.
        destruct b; cbn; by rewrite <-app_assoc.
      * assert (chars_loop false b' (d :: s) ≠ []) as Hn by (intros H; by apply chars_loop_nil in H).
        rewrite <-app_assoc, (Hbrk cur).
        assert (brk = []) as -> by (unfold brk; by destruct b). rewrite app_nil_r.
        specialize (IH b' []). destruct (chars_loop false b' (d :: s)) as [|r rs]; [done|].
        assert (split_scan cur false ([92; 110] ++ r :: rs) = cur :: split_scan [] false (r :: rs))
          as -> by (simpl; by rewrite removelast_last).
        rewrite IH. unfold b'.
        change (bool_decide ((PrintAsStringLiteralTo false 10).2 = kHexEscape)) with false.
        change (pieces (10 :: d :: s)) with ([] :: pieces (d :: s)). cbn [printed].
        destruct (pieces (d :: s)) as [|p ps] eqn:Ep; [by apply pieces_nonempty in Ep|].
        simpl. by rewrite app_nil_r.
    + apply Hgo; [by apply transparent_escape|done|].
      rewrite (proj2 (Z.eqb_neq c 10)) by tauto. done.
  - apply Hgo; [|done|by rewrite (proj2 (Z.eqb_neq c 10))].
    apply (transparent_app [92; 120] ds); [by apply transparent_escape|]. apply transparent_many.
    eapply Forall_impl; [exact Hds|]. intros d Hd ->. done.
Qed.

Definition printed_lines (s : list Z) : list (list Z) :=
  if decide (s = []) then [[34; 34]] else chars_loop false false <$> pieces s.

Lemma split_printed s :
  Forall (λ c, 0 <= c < 256) s →
  SplitEscapedString (PrintCharsAsStringTo false s) = printed_lines s.
Proof.
  intros Hs. unfold printed_lines. case_decide as Hne; [by subst|].
  unfold SplitEscapedString, PrintCharsAsStringTo. change (kQuoteBegin false) with [34].
  set (body := chars_loop false false s).
  assert (body ≠ []) as Hb by (intros H; by apply chars_loop_nil in H).
  assert (0 < length body)%nat as Hlen by (destruct body; [done|simpl; lia]).
  assert (length ([34] ++ body ++ [34]) = S (S (length body))) as ->
    by (rewrite !length_app; simpl; lia).
  rewrite (proj2 (Nat.ltb_lt _ _)) by lia.
  rewrite bool_decide_eq_true_2 by done.
  rewrite bool_decide_eq_true_2; cycle 1.
  { replace (S (S (length body)) - 1)%nat with (length ([34] ++ body)) by (simpl; lia).
    rewrite app_assoc. by rewrite lookup_app_r, Nat.sub_diag by lia. }
  cbn [andb].
  pose proof (split_loop_scan body [34] [] [34] false ltac:(done)) as H. cbv zeta in H.
  rewrite app_nil_l in H. cbn [length] in H.
  replace (1 + 0)%nat with 1%nat in H by lia.
  replace (S (S (length body)) - 1 - 1 - 1)%nat with (length body - 1)%nat by lia.
  replace (S (S (length body)) - 1)%nat with (1 + length body)%nat by lia.
  destruct (split_loop _ _ _ _ _) as [lines last].
  rewrite H. unfold body. rewrite split_scan_printed by done.
  destruct (pieces s) as [|p ps] eqn:E; [by apply pieces_nonempty in E|done].
Qed.

(** A printed string is split at its newlines, but not at one at its end, without the
    quotes; the printed empty string keeps them. *)
Theorem SplitEscapedString_printed s :
  Forall (λ c, 0 <= c < 256) s →
  SplitEscapedString (PrintCharsAsStringTo false s) =
    (if decide (s = []) then [[34; 34]] else chars_loop false false <$> pieces s) ∧
  (s ≠ [] → last s ≠ Some 10 → joined 10 (pieces s) = s ∧ Forall (λ p, 10 ∉ p) (pieces s)).
Proof.
  intros Hs. split; [by apply split_printed|]. clear Hs. intros Hne Hlast.
  induction s as [|c s IH]; [done|]. destruct s as [|d s].
  { simpl. assert (c ≠ 10) as Hc by (intros ->; done).
    rewrite (proj2 (Z.eqb_neq _ _) Hc). simpl. split; [done|].
    constructor; [set_solver|constructor]. }
  destruct (IH ltac:(done)) as [H1 H2]; [by rewrite last_cons_cons in Hlast|].
  set (s' := d :: s) in *. cbn [pieces]. rewrite bool_decide_eq_false_2 by done. simpl negb.
  rewrite andb_true_r. destruct (c =? 10) eqn:E.
  - apply Z.eqb_eq in E. subst c. split; [|by constructor; [set_solver|]].
    rewrite joined_cons by apply pieces_nonempty. by rewrite H1.
  - apply Z.eqb_neq in E. destruct (pieces s') as [|p ps] eqn:Ep; [by apply pieces_nonempty in Ep|].
    inversion H2; subst. split; [|constructor; [set_solver|done]].
    rewrite <-H1. by destruct ps.
Qed.

Lemma SplitEscapedString_printed_witness :
  SplitEscapedString (PrintCharsAsStringTo false (text "ab" ++ [10] ++ text "c"))
    = [text "ab"; text "c"].
Proof.
  rewrite (proj1 (SplitEscapedString_printed (text "ab" ++ [10] ++ text "c")
    ltac:(repeat constructor; vm_compute; done))).
  reflexivity.
Defined.

(** * Equality of C strings *)

Definition which_is (value expression : list Z) : list Z :=
  if bool_decide (value = expression) then [] else newline ++ text "      Which is: " ++ value.

(** [ASSERT_STREQ] succeeds exactly on equal strings.  Otherwise the message has the two
    expressions and printed strings, and when one of them has several lines a diff
    whose hunks turn the printed lines of the one into those of the other. *)
Theorem STREQ_message lhs_e rhs_e l r :
  Forall (λ c, 0 < c < 256) l → Forall (λ c, 0 < c < 256) r →
  if decide (l = r) then
    CmpHelperSTREQ lhs_e rhs_e (Some l) (Some r) = Some AssertionSuccess
  else
    ∃ diff hunks,
      CmpHelperSTREQ lhs_e rhs_e (Some l) (Some r) =
        Some (failure
          (text "      Expected: " ++ lhs_e ++ which_is (PrintCharsAsStringTo false l) lhs_e ++
           newline ++ text "To be equal to: " ++ rhs_e ++
           which_is (PrintCharsAsStringTo false r) rhs_e ++ diff)) ∧
      patch left_start_ left_lines right_lines 0 (of_text <$> printed_lines l) hunks =
        Some (of_text <$> printed_lines r) ∧
      diff = if (1 <? length (printed_lines l))%nat || (1 <? length (printed_lines r))%nat
             then newline ++ text "With diff:" ++ newline ++
                  text (foldr (λ h t, PrintTo h +:+ t) "" hunks)
             else [].
Proof.
  intros Hl Hr. unfold CmpHelperSTREQ, CStringEquals. case_decide as Heq.
  { subst. by rewrite bool_decide_eq_true_2. }
  rewrite bool_decide_eq_false_2 by congruence. unfold EqFailure, with_diff, PrintToString.
  assert (∀ s, PrintCharsAsStringTo false s = 34 :: (chars_loop false false s ++ [34])) as Hcons
    by done.
  assert (∀ s, Forall (λ c, 0 < c < 256) s →
    SplitEscapedString (PrintCharsAsStringTo false s) = printed_lines s) as Hsp.
  { intros s Hs. apply split_printed. eapply Forall_impl; [done|]. simpl. lia. }
  pose proof (Hsp l Hl) as Hl'. pose proof (Hsp r Hr) as Hr'. rewrite (Hcons l), (Hcons r) in *.
  rewrite Hl', Hr'.
  destruct (unified_diff_ok (of_text <$> printed_lines l) (of_text <$> printed_lines r) 2)
    as (hunks & _ & Hd & Hp & _); [lia|].
  destruct (_ || _).
  - rewrite Hd. cbn [mbind option_bind]. eexists _, hunks. split; [|by split].
    unfold which_is. by rewrite app_nil_l.
  - cbn [mbind option_bind]. eexists [], hunks. split; [|by split]. unfold which_is. done.
Qed.

Lemma STREQ_message_witness :
  ∃ diff hunks,
    CmpHelperSTREQ (text "a") (text "b") (Some (text "x" ++ [10] ++ text "y"))
        (Some (text "x" ++ [10] ++ text "z")) =
      Some (failure
        (text "      Expected: " ++ text "a" ++
         which_is (PrintCharsAsStringTo false (text "x" ++ [10] ++ text "y")) (text "a") ++
         newline ++ text "To be equal to: " ++ text "b" ++
         which_is (PrintCharsAsStringTo false (text "x" ++ [10] ++ text "z")) (text "b") ++ diff)) ∧
    patch left_start_ left_lines right_lines 0 ["x"; "y"] hunks = Some ["x"; "z"] ∧
    diff = newline ++ text "With diff:" ++ newline ++
             text (foldr (λ h t, PrintTo h +:+ t) "" hunks).
Proof.
  apply (STREQ_message (text "a") (text "b") (text "x" ++ [10] ++ text "y")
    (text "x" ++ [10] ++ text "z")); repeat constructor; vm_compute; done.
Defined.

(** * Substrings *)

Lemma starts_with_spec p l : starts_with p l = true ↔ ∃ r, l = p ++ r.
Proof.
  revert l. induction p as [|c p IH]; intros l; simpl; [split; eauto|].
  destruct l as [|d l]; [split; [done|by intros (r & ?)]|].
  rewrite andb_true_iff, Z.eqb_eq, IH. split.
  - intros [-> (r & ->)]. by exists r.
  - intros (r & [= -> ->]). split; [done|]. by exists r.
Qed.

Lemma find_text_spec n h : find_text n h = true ↔ ∃ a b, h = a ++ n ++ b.
Proof.
  induction h as [|c h IH]; cbn [find_text]; rewrite orb_true_iff, starts_with_spec.
  - split.
    + intros [(r & H)|?]; [by exists [], r|done].
    + intros (a & b & H). left. symmetry in H. apply app_eq_nil in H as [_ H].
      exists b. done.
  - rewrite IH. split.
    + intros [(r & H)|(a & b & ->)]; [by exists [], r|by exists (c :: a), b].
    + intros ([|d a] & b & H); [left; by exists b|right]. injection H as -> ->. by exists a, b.
Qed.

(** [IsSubstring] succeeds exactly when the needle is somewhere in the haystack, or both
    are null; [IsNotSubstring] exactly when [IsSubstring] fails. *)
Theorem IsSubstring_finds needle_expr haystack_expr needle haystack :
  (IsSubstring needle_expr haystack_expr needle haystack = AssertionSuccess ↔
     match needle, haystack with
     | Some n, Some h => ∃ a b, h = a ++ n ++ b
     | None, None => True
     | _, _ => False
     end) ∧
  (IsNotSubstring needle_expr haystack_expr needle haystack = AssertionSuccess ↔
     IsSubstring needle_expr haystack_expr needle haystack ≠ AssertionSuccess).
Proof.
  unfold IsSubstring, IsNotSubstring, IsSubstringImpl, failure.
  split; destruct needle as [n|], haystack as [h|]; cbn [IsSubstringPred]; try (by split).
  - rewrite <-find_text_spec. by destruct (find_text n h).
  - by destruct (find_text n h).
Qed.
