(* ===== verification/Floats.v ===== *)
(** The comparison of floating-point numbers by Google Test and Google Mock:
    [class FloatingPoint] of [src/lib/googletest/include/gtest/internal/gtest-internal.h],
    [FloatingPointLE] and [DoubleNearPredFormat] of [gtest.cc],
    [CmpHelperFloatingPointEQ] of [gtest.h] and [FloatingEqMatcher] of
    [gmock-matchers.h].

    A [float] or [double] is its bits, an unsigned integer; arithmetic and [<] are those
    of IEEE 754 by the specification of the Standard Library, on the number the bits
    encode.  How a number is printed is a parameter of the messages. *)

From S2P Require Import Prelude Strings Utf8 Assertions.
From stdpp Require Import base list strings.
From Stdlib Require Import ZArith SpecFloat Lia.

Open Scope Z_scope.

(** * Formats *)

(** [RawType]: the bits of the type, and those of the fraction. *)
Class Format := {
  kBitCount : Z;
  kFractionBitCount : Z;
  fraction_pos : 0 < kFractionBitCount;
  exponent_two : kFractionBitCount + 3 <= kBitCount
}.

Program Definition Float : Format := {| kBitCount := 32; kFractionBitCount := 23 |}.
Solve Obligations with (simpl; lia).
Program Definition Double : Format := {| kBitCount := 64; kFractionBitCount := 52 |}.
Solve Obligations with (simpl; lia).

Section FloatingPoint.
Context {F : Format}.

Definition kExponentBitCount : Z := kBitCount - 1 - kFractionBitCount.

(** [~] on [Bits]. *)
Definition bit_not (b : Z) : Z := Z.lnot b mod 2 ^ kBitCount.

Definition kSignBitMask : Z := Z.shiftl 1 (kBitCount - 1).
Definition kFractionBitMask : Z := Z.shiftr (bit_not 0) (kExponentBitCount + 1).
Definition kExponentBitMask : Z := bit_not (Z.lor kSignBitMask kFractionBitMask).
Definition kMaxUlps : Z := 4.

Definition exponent_bits (b : Z) : Z := Z.land kExponentBitMask b.
Definition fraction_bits (b : Z) : Z := Z.land kFractionBitMask b.
Definition sign_bit (b : Z) : Z := Z.land kSignBitMask b.

Definition is_nan (b : Z) : bool :=
  (exponent_bits b =? kExponentBitMask) && negb (fraction_bits b =? 0).

Definition SignAndMagnitudeToBiased (sam : Z) : Z :=
  if negb (Z.land kSignBitMask sam =? 0) then (bit_not sam + 1) mod 2 ^ kBitCount
  else Z.lor kSignBitMask sam.

Definition DistanceBetweenSignAndMagnitudeNumbers (sam1 sam2 : Z) : Z :=
  let biased1 := SignAndMagnitudeToBiased sam1 in
  let biased2 := SignAndMagnitudeToBiased sam2 in
  if biased2 <=? biased1 then biased1 - biased2 else biased2 - biased1.

Definition AlmostEquals (lhs rhs : Z) : bool :=
  if is_nan lhs || is_nan rhs then false
  else DistanceBetweenSignAndMagnitudeNumbers lhs rhs <=? kMaxUlps.

(** [Infinity()]. *)
Definition Infinity : Z := kExponentBitMask.

(** ** The number of the bits *)

Definition prec : Z := kFractionBitCount + 1.
Definition emax : Z := 2 ^ (kExponentBitCount - 1).

(** The encoding of IEEE 754: sign, biased exponent, fraction. *)
Definition value_ (b : Z) : spec_float :=
  let s := Z.testbit b (kBitCount - 1) in
  let e := (b / 2 ^ kFractionBitCount) mod 2 ^ kExponentBitCount in
  let m := b mod 2 ^ kFractionBitCount in
  if e =? 2 ^ kExponentBitCount - 1 then
    if m =? 0 then S754_infinity s else S754_nan
  else if e =? 0 then
    match m with Zpos p => S754_finite s p (emin prec emax) | _ => S754_zero s end
  else
    match 2 ^ kFractionBitCount + m with
    | Zpos p => S754_finite s p (emin prec emax + e - 1)
    | _ => S754_nan
    end.

(** The bits of a number of the type. *)
Definition is_bits (b : Z) : Prop := 0 <= b < 2 ^ kBitCount.

(** * Assertions *)

(** How the streams print a number. *)
Context (print : spec_float → list Z).

(** [CmpHelperFloatingPointEQ]. *)
Definition CmpHelperFloatingPointEQ (lhs_expression rhs_expression : list Z)
    (lhs_value rhs_value : Z) : option AssertionResult :=
  if AlmostEquals lhs_value rhs_value then Some AssertionSuccess
  else EqFailure lhs_expression rhs_expression
         (StringStreamToString (print (value_ lhs_value)))
         (StringStreamToString (print (value_ rhs_value))) false.

Definition FloatingPointLE (expr1 expr2 : list Z) (val1 val2 : Z) : AssertionResult :=
  if SFltb (value_ val1) (value_ val2) then AssertionSuccess
  else if AlmostEquals val1 val2 then AssertionSuccess
  else failure (text "Expected: (" ++ expr1 ++ text ") <= (" ++ expr2 ++ text ")" ++ newline ++
                text "  Actual: " ++ StringStreamToString (print (value_ val1)) ++
                text " vs " ++ StringStreamToString (print (value_ val2))).

(** * [FloatingEqMatcher] *)

(** [max_abs_error_] is -1 when units in the last place are compared. *)
Record FloatingEqMatcher := mkFloatingEq {
  expected_ : Z; nan_eq_nan_ : bool; max_abs_error_ : option Z
}.

(** The constructor without an error, and the one with an error, which aborts the
    program unless it is at least 0. *)
Definition FloatingEq (expected : Z) (nan_eq_nan : bool) : FloatingEqMatcher :=
  mkFloatingEq expected nan_eq_nan None.
Definition FloatingNear (expected : Z) (nan_eq_nan : bool) (max_abs_error : Z)
    : option FloatingEqMatcher :=
  if SFleb (S754_zero false) (value_ max_abs_error)
  then Some (mkFloatingEq expected nan_eq_nan (Some max_abs_error)) else None.

(** [HasMaxAbsError]. *)
Definition HasMaxAbsError (m : FloatingEqMatcher) : option Z :=
  match m.(max_abs_error_) with
  | Some e => if SFleb (S754_zero false) (value_ e) then Some e else None
  | None => None
  end.

(** Whether the value matches, and the explanation for an interested listener. *)
Definition MatchAndExplain (m : FloatingEqMatcher) (value : Z) : bool * list Z :=
  let expected := m.(expected_) in
  if is_nan value || is_nan expected then
    (if is_nan value && is_nan expected then (m.(nan_eq_nan_), []) else (false, []))
  else
    match HasMaxAbsError m with
    | Some e =>
        if SFeqb (value_ value) (value_ expected) then (true, [])
        else
          let diff := SFsub prec emax (value_ value) (value_ expected) in
          if SFleb (SFabs diff) (value_ e) then (true, [])
          else (false, text "which is " ++ print diff ++ text " from " ++ print (value_ expected))
    | None => (AlmostEquals value expected, [])
    end.

Definition DescribeTo (m : FloatingEqMatcher) : list Z :=
  if is_nan m.(expected_) then
    if m.(nan_eq_nan_) then text "is NaN" else text "never matches"
  else
    text "is approximately " ++ print (value_ m.(expected_)) ++
    match HasMaxAbsError m with
    | Some e => text " (absolute error <= " ++ print (value_ e) ++ text ")"
    | None => []
    end.

Definition DescribeNegationTo (m : FloatingEqMatcher) : list Z :=
  if is_nan m.(expected_) then
    if m.(nan_eq_nan_) then text "isn't NaN" else text "is anything"
  else
    text "isn't approximately " ++ print (value_ m.(expected_)) ++
    match HasMaxAbsError m with
    | Some e => text " (absolute error > " ++ print (value_ e) ++ text ")"
    | None => []
    end.

End FloatingPoint.

(** [FloatLE] and [DoubleLE]. *)
Definition FloatLE := @FloatingPointLE Float.
Definition DoubleLE := @FloatingPointLE Double.

Definition DoubleNearPredFormat (print : spec_float → list Z)
    (expr1 expr2 abs_error_expr : list Z) (val1 val2 abs_error : Z) : AssertionResult :=
  let value_ := @value_ Double in
  let diff := SFabs (SFsub (@prec Double) (@emax Double) (value_ val1) (value_ val2)) in
  if SFleb diff (value_ abs_error) then AssertionSuccess
  else
    failure (text "The difference between " ++ expr1 ++ text " and " ++ expr2 ++ text " is " ++
             print diff ++ text ", which exceeds " ++ abs_error_expr ++ text ", where" ++ newline
             ++ expr1 ++ text " evaluates to " ++ print (value_ val1) ++ text "," ++ newline
             ++ expr2 ++ text " evaluates to " ++ print (value_ val2) ++ text ", and" ++ newline
             ++ abs_error_expr ++ text " evaluates to " ++ print (value_ abs_error) ++ text ".").
