(* ===== verification/FloatsFacts.v ===== *)
(** Facts about the comparison of floating-point numbers: units in the last place are
    steps between neighbouring numbers, in the order of IEEE 754. *)

From S2P Require Import Prelude Strings Utf8 Assertions Floats.
From stdpp Require Import base list strings.
From Stdlib Require Import ZArith SpecFloat Lia.

Open Scope Z_scope.

(** * Powers of two *)

Lemma land_pow2 n x : 0 <= n → Z.land (2 ^ n) x = if Z.testbit x n then 2 ^ n else 0.
Proof.
  intros Hn. apply Z.bits_inj'. intros k Hk. rewrite Z.land_spec, Z.pow2_bits_eqb by done.
  destruct (n =? k) eqn:E.
  - apply Z.eqb_eq in E. subst. destruct (Z.testbit x k) eqn:Hx;
      [by rewrite Z.pow2_bits_true|by rewrite Z.bits_0].
  - simpl. destruct (Z.testbit x n); [|by rewrite Z.bits_0].
    by rewrite Z.pow2_bits_eqb, E.
Qed.

Lemma testbit_top n x : 0 <= n → 0 <= x < 2 * 2 ^ n → Z.testbit x n = (2 ^ n <=? x).
Proof.
  intros Hn Hx. apply Bool.eq_iff_eq_true. rewrite Z.testbit_true, Z.leb_le by done.
  pose proof (Z.pow_pos_nonneg 2 n ltac:(lia) Hn) as Hp. destruct (Z.leb_spec (2 ^ n) x).
  - rewrite <-(Z.div_unique x (2 ^ n) 1 (x - 2 ^ n)) by lia. split; [lia|done].
  - rewrite Z.div_small by lia. split; [done|lia].
Qed.

Lemma lor_pow2 n x : 0 <= n → 0 <= x < 2 ^ n → Z.lor (2 ^ n) x = 2 ^ n + x.
Proof.
  intros Hn Hx. assert (Z.land (2 ^ n) x = 0) as H0.
  { rewrite land_pow2, testbit_top by lia. by rewrite (proj2 (Z.leb_gt _ _)) by lia. }
  by rewrite <-Z.lxor_lor, Z.add_nocarry_lxor.
Qed.

Section Facts.
Context {F : Format}.

(** * Masks *)

Lemma exponent_pos : 2 <= kExponentBitCount.
Proof. unfold kExponentBitCount. pose proof exponent_two. lia. Qed.

Lemma widths : 0 < kFractionBitCount ∧ kBitCount = kFractionBitCount + kExponentBitCount + 1.
Proof. unfold kExponentBitCount. pose proof fraction_pos. lia. Qed.

(** 2 to the width of the type, to that of the magnitude, and to that of the fraction. *)
Lemma powers :
  2 ^ kBitCount = 2 * 2 ^ (kBitCount - 1) ∧
  2 ^ (kBitCount - 1) = 2 ^ kExponentBitCount * 2 ^ kFractionBitCount ∧
  0 < 2 ^ kFractionBitCount ∧ 4 <= 2 ^ kExponentBitCount.
Proof.
  pose proof widths. pose proof exponent_pos. split; [|split; [|split]].
  - rewrite <-Z.pow_succ_r by lia. f_equal. lia.
  - rewrite <-Z.pow_add_r by lia. f_equal. lia.
  - apply Z.pow_pos_nonneg; lia.
  - change 4 with (2 ^ 2). apply Z.pow_le_mono_r; lia.
Qed.

Lemma half_pos : 0 < 2 ^ (kBitCount - 1).
Proof. pose proof widths. pose proof exponent_pos. apply Z.pow_pos_nonneg; lia. Qed.

Lemma bit_not_sub b : is_bits b → bit_not b = 2 ^ kBitCount - 1 - b.
Proof.
  unfold is_bits, bit_not, Z.lnot. intros H.
  replace (Z.pred (- b)) with (2 ^ kBitCount - 1 - b + -1 * 2 ^ kBitCount) by lia.
  rewrite Z.mod_add by lia. apply Z.mod_small. lia.
Qed.

Lemma sign_mask : kSignBitMask = 2 ^ (kBitCount - 1).
Proof. unfold kSignBitMask. apply Z.shiftl_1_l. Qed.

Lemma fraction_mask : kFractionBitMask = Z.ones kFractionBitCount.
Proof.
  unfold kFractionBitMask. pose proof widths. pose proof exponent_pos. pose proof powers.
  rewrite bit_not_sub by (unfold is_bits; lia).
  rewrite Z.sub_0_r, Z.ones_equiv, Z.shiftr_div_pow2 by lia. symmetry.
  apply Z.div_unique with (2 ^ (kExponentBitCount + 1) - 1).
  - left. pose proof (Z.pow_pos_nonneg 2 (kExponentBitCount + 1)). lia.
  - assert (2 ^ kBitCount = 2 ^ (kExponentBitCount + 1) * 2 ^ kFractionBitCount) as ->
      by (rewrite <-Z.pow_add_r by lia; f_equal; lia).
    lia.
Qed.

Lemma exponent_mask : kExponentBitMask = Z.shiftl (Z.ones kExponentBitCount) kFractionBitCount.
Proof.
  unfold kExponentBitMask. pose proof widths. pose proof exponent_pos. pose proof powers as (P1 & P2 & P3 & P4).
  assert (Z.lor kSignBitMask kFractionBitMask = 2 ^ (kBitCount - 1) + (2 ^ kFractionBitCount - 1)) as ->.
  { rewrite sign_mask, fraction_mask, Z.ones_equiv. apply lor_pow2; [lia|nia]. }
  rewrite bit_not_sub by (unfold is_bits; nia).
  rewrite Z.shiftl_mul_pow2, Z.ones_equiv by lia. nia.
Qed.

(** * The parts of a number *)

(** The sign, and the magnitude: exponent and fraction as one number. *)
Definition neg (b : Z) : bool := 2 ^ (kBitCount - 1) <=? b.
Definition mag (b : Z) : Z := b mod 2 ^ (kBitCount - 1).
(** Its place among the numbers, zero in the middle. *)
Definition signed (b : Z) : Z := if neg b then - mag b else mag b.
(** The magnitude of infinity. *)
Definition inf_mag : Z := (2 ^ kExponentBitCount - 1) * 2 ^ kFractionBitCount.

Lemma mag_eq b : is_bits b → mag b = if neg b then b - 2 ^ (kBitCount - 1) else b.
Proof.
  unfold is_bits, mag, neg. intros H. pose proof powers as (P1 & P2 & P3 & P4).
  destruct (Z.leb_spec (2 ^ (kBitCount - 1)) b).
  - symmetry. apply Z.mod_unique with 1; lia.
  - apply Z.mod_small. lia.
Qed.

Lemma mag_parts b :
  mag b = (b / 2 ^ kFractionBitCount) mod 2 ^ kExponentBitCount * 2 ^ kFractionBitCount
          + b mod 2 ^ kFractionBitCount.
Proof.
  unfold mag. pose proof powers as (P1 & P2 & P3 & P4).
  rewrite P2, (Z.mul_comm (2 ^ kExponentBitCount)), Z.rem_mul_r by lia. lia.
Qed.

Lemma part_ranges b :
  0 <= (b / 2 ^ kFractionBitCount) mod 2 ^ kExponentBitCount < 2 ^ kExponentBitCount ∧
  0 <= b mod 2 ^ kFractionBitCount < 2 ^ kFractionBitCount.
Proof. pose proof powers as (P1 & P2 & P3 & P4). split; apply Z.mod_pos_bound; lia. Qed.

Lemma fraction_bits_eq b : fraction_bits b = b mod 2 ^ kFractionBitCount.
Proof.
  unfold fraction_bits. rewrite fraction_mask, Z.land_comm. apply Z.land_ones.
  pose proof widths. lia.
Qed.

Lemma exponent_bits_eq b :
  exponent_bits b = (b / 2 ^ kFractionBitCount) mod 2 ^ kExponentBitCount * 2 ^ kFractionBitCount.
Proof.
  unfold exponent_bits. pose proof widths. pose proof exponent_pos.
  rewrite <-Z.shiftr_div_pow2, <-Z.land_ones, <-Z.shiftl_mul_pow2, exponent_mask by lia.
  apply Z.bits_inj'. intros k Hk. rewrite Z.land_spec, !Z.shiftl_spec by lia.
  destruct (decide (k < kFractionBitCount)).
  - by rewrite !(Z.testbit_neg_r _ (k - kFractionBitCount)) by lia.
  - rewrite Z.land_spec, Z.shiftr_spec by lia.
    replace (k - kFractionBitCount + kFractionBitCount) with k by lia. apply andb_comm.
Qed.

Lemma is_nan_mag b : is_nan b = (inf_mag <? mag b).
Proof.
  unfold is_nan. rewrite fraction_bits_eq, exponent_bits_eq, exponent_mask.
  pose proof widths. pose proof powers as (P1 & P2 & P3 & P4). pose proof (part_ranges b) as [R1 R2].
  rewrite Z.shiftl_mul_pow2, Z.ones_equiv by lia. apply Bool.eq_iff_eq_true.
  rewrite andb_true_iff, negb_true_iff, Z.eqb_eq, Z.eqb_neq, Z.ltb_lt, mag_parts.
  unfold inf_mag. revert P3 P4 R1 R2.
  generalize ((b / 2 ^ kFractionBitCount) mod 2 ^ kExponentBitCount). intros e.
  generalize (b mod 2 ^ kFractionBitCount). intros m.
  generalize (2 ^ kFractionBitCount), (2 ^ kExponentBitCount). intros T P P3 P4 R1 R2.
  rewrite <-Z.sub_1_r. split; [intros [-> ?]; lia|]. intros Hlt.
  assert (P - 1 <= e) as Hle.
  { apply Z.nlt_ge. intros He. assert ((e + 1) * T <= (P - 1) * T) by (apply Z.mul_le_mono_nonneg_r; lia). lia. }
  assert (e = P - 1) as -> by lia. split; [done|lia].
Qed.

Lemma biased b : is_bits b → SignAndMagnitudeToBiased b = 2 ^ (kBitCount - 1) + signed b.
Proof.
  intros Hb. unfold SignAndMagnitudeToBiased, signed. rewrite mag_eq by done.
  pose proof widths. pose proof exponent_pos. pose proof half_pos.
  pose proof powers as (P1 & P2 & P3 & P4). unfold is_bits in Hb.
  rewrite sign_mask, land_pow2, testbit_top by lia. fold (neg b).
  destruct (neg b) eqn:E; unfold neg in E.
  - apply Z.leb_le in E. rewrite (proj2 (Z.eqb_neq _ _)) by lia. cbn [negb].
    rewrite bit_not_sub by done. rewrite Z.mod_small by lia. lia.
  - apply Z.leb_gt in E. rewrite Z.eqb_refl. cbn [negb]. apply lor_pow2; lia.
Qed.

Lemma AlmostEquals_signed x y :
  is_bits x → is_bits y →
  AlmostEquals x y = true ↔ is_nan x = false ∧ is_nan y = false ∧ Z.abs (signed x - signed y) <= 4.
Proof.
  intros Hx Hy. unfold AlmostEquals, DistanceBetweenSignAndMagnitudeNumbers, kMaxUlps.
  rewrite !biased by done.
  destruct (is_nan x), (is_nan y); simpl; try (split; [done|by intros (?&?&?)]).
  rewrite Z.leb_le. destruct (Z.leb_spec (2 ^ (kBitCount - 1) + signed y) (2 ^ (kBitCount - 1) + signed x));
    split; intros; try split; lia.
Qed.

(** * The order of the numbers *)

(** The number of a magnitude: zero, infinity, or a mantissa and an exponent that make
    up the magnitude. *)
Inductive shape (s : bool) (g : Z) : spec_float → Prop :=
  | shape_zero : g = 0 → shape s g (S754_zero s)
  | shape_infinity : g = inf_mag → shape s g (S754_infinity s)
  | shape_finite p d :
      0 < g < inf_mag → g = Zpos p + d * 2 ^ kFractionBitCount → 0 <= d →
      Zpos p < 2 * 2 ^ kFractionBitCount → (0 < d → 2 ^ kFractionBitCount <= Zpos p) →
      shape s g (S754_finite s p (emin prec emax + d)).

Lemma value_shape b : is_bits b → is_nan b = false → shape (neg b) (mag b) (value_ b).
Proof.
  intros Hb Hn. rewrite is_nan_mag in Hn. apply Z.ltb_ge in Hn.
  pose proof widths. pose proof exponent_pos. pose proof powers as (P1 & P2 & P3 & P4).
  unfold is_bits in Hb. unfold value_. rewrite testbit_top by lia. fold (neg b).
  rewrite mag_parts in *. pose proof (part_ranges b) as [R1 R2]. unfold inf_mag in Hn.
  destruct (Z.eqb_spec ((b / 2 ^ kFractionBitCount) mod 2 ^ kExponentBitCount)
    (2 ^ kExponentBitCount - 1)) as [He|He].
  - rewrite He in *. assert (b mod 2 ^ kFractionBitCount = 0) as -> by lia.
    apply shape_infinity. unfold inf_mag. lia.
  - revert R1 R2 He Hn. generalize ((b / 2 ^ kFractionBitCount) mod 2 ^ kExponentBitCount).
    intros e. generalize (b mod 2 ^ kFractionBitCount). intros m R1 R2 He Hn.
    assert (e * 2 ^ kFractionBitCount + m < inf_mag) as Hlt.
    { unfold inf_mag. assert ((e + 1) * 2 ^ kFractionBitCount
        <= (2 ^ kExponentBitCount - 1) * 2 ^ kFractionBitCount)
        by (apply Z.mul_le_mono_nonneg_r; lia). lia. }
    assert (0 <= e * 2 ^ kFractionBitCount) as He0 by (apply Z.mul_nonneg_nonneg; lia).
    destruct (Z.eqb_spec e 0) as [->|He'].
    + destruct m as [|p|p]; [by apply shape_zero| |lia].
      replace (emin prec emax) with (emin prec emax + 0) at 1 by lia.
      apply shape_finite; lia.
    + assert (0 < e * 2 ^ kFractionBitCount) by (apply Z.mul_pos_pos; lia).
      destruct (2 ^ kFractionBitCount + m) as [|p|p] eqn:Ep; [lia| |lia].
      replace (emin prec emax + e - 1) with (emin prec emax + (e - 1)) by lia.
      apply shape_finite; lia.
Qed.

Lemma shape_range s g v : shape s g v → 0 <= g <= inf_mag.
Proof.
  pose proof powers as (P1 & P2 & P3 & P4). intros []; subst; try lia;
    unfold inf_mag; nia.
Qed.

(** Mantissas and exponents are ordered as the magnitudes they make up. *)
Lemma finite_compare p1 d1 p2 d2 :
  0 <= d1 → 0 <= d2 →
  Zpos p1 < 2 * 2 ^ kFractionBitCount → (0 < d1 → 2 ^ kFractionBitCount <= Zpos p1) →
  Zpos p2 < 2 * 2 ^ kFractionBitCount → (0 < d2 → 2 ^ kFractionBitCount <= Zpos p2) →
  match (emin prec emax + d1 ?= emin prec emax + d2) with
  | Lt => Lt | Gt => Gt | Eq => Pos.compare_cont Eq p1 p2
  end = (Zpos p1 + d1 * 2 ^ kFractionBitCount ?= Zpos p2 + d2 * 2 ^ kFractionBitCount).
Proof.
  pose proof powers as (_ & _ & P3 & _). revert P3. generalize (2 ^ kFractionBitCount).
  intros T HT H1 H2 H3 H4 H5 H6.
  destruct (Z.compare_spec (emin prec emax + d1) (emin prec emax + d2)) as [E|E|E].
  - assert (d1 = d2) as -> by lia. rewrite !(Z.add_comm (Zpos _)), Z.add_compare_mono_l. done.
  - symmetry. apply Z.compare_lt_iff.
    assert ((d1 + 1) * T <= d2 * T) by (apply Z.mul_le_mono_nonneg_r; lia).
    assert (T <= Zpos p2) by lia. lia.
  - symmetry. apply Z.compare_gt_iff.
    assert ((d2 + 1) * T <= d1 * T) by (apply Z.mul_le_mono_nonneg_r; lia).
    assert (T <= Zpos p1) by lia. lia.
Qed.

Lemma shape_compare s1 g1 v1 s2 g2 v2 :
  shape s1 g1 v1 → shape s2 g2 v2 →
  SFcompare v1 v2 = Some ((if s1 then - g1 else g1) ?= (if s2 then - g2 else g2)).
Proof.
  intros H1 H2. pose proof (shape_range _ _ _ H1). pose proof (shape_range _ _ _ H2).
  assert (0 < inf_mag) by (pose proof powers as (P1 & P2 & P3 & P4); unfold inf_mag; nia).
  destruct H1 as [E1|E1|p1 d1 R1 E1 D1 U1 L1], H2 as [E2|E2|p2 d2 R2 E2 D2 U2 L2];
    try (destruct s1, s2; simpl; f_equal; symmetry;
      first [apply Z.compare_eq_iff; lia|apply Z.compare_lt_iff; lia|apply Z.compare_gt_iff; lia]).
  pose proof (finite_compare p1 d1 p2 d2 D1 D2 U1 L1 U2 L2) as Hc. rewrite <-E1, <-E2 in Hc.
  destruct s1, s2; simpl.
  - f_equal. rewrite Z.compare_opp, (Z.compare_antisym g1 g2), <-Hc.
    destruct (emin prec emax + d1 ?= emin prec emax + d2); try done.
  - f_equal. symmetry. apply Z.compare_lt_iff. lia.
  - f_equal. symmetry. apply Z.compare_gt_iff. lia.
  - by rewrite Hc.
Qed.

Lemma value_compare x y :
  is_bits x → is_bits y → is_nan x = false → is_nan y = false →
  SFcompare (value_ x) (value_ y) = Some (signed x ?= signed y).
Proof.
  intros Hx Hy Nx Ny.
  by apply shape_compare; apply value_shape.
Qed.

Lemma nan_value b : is_bits b → is_nan b = true → value_ b = S754_nan.
Proof.
  intros Hb Hn. rewrite is_nan_mag in Hn. apply Z.ltb_lt in Hn.
  pose proof widths. pose proof exponent_pos. pose proof powers as (P1 & P2 & P3 & P4).
  unfold value_. rewrite mag_parts in Hn. pose proof (part_ranges b) as [R1 R2].
  unfold inf_mag in Hn. revert Hn R1 R2.
  generalize ((b / 2 ^ kFractionBitCount) mod 2 ^ kExponentBitCount). intros e.
  generalize (b mod 2 ^ kFractionBitCount). intros m Hn R1 R2.
  assert (2 ^ kExponentBitCount - 1 <= e) as He.
  { apply Z.nlt_ge. intros He. assert ((e + 1) * 2 ^ kFractionBitCount <=
      (2 ^ kExponentBitCount - 1) * 2 ^ kFractionBitCount)
      by (apply Z.mul_le_mono_nonneg_r; lia). lia. }
  assert (e = 2 ^ kExponentBitCount - 1) as -> by lia. rewrite Z.eqb_refl.
  by rewrite (proj2 (Z.eqb_neq m 0)) by lia.
Qed.

(** * Units in the last place *)

Definition is_number (b : Z) : Prop := is_bits b ∧ is_nan b = false.
Definition less (x y : Z) : bool := SFltb (value_ x) (value_ y).

(** [z] is the next number above [x]. *)
Definition next (x z : Z) : Prop :=
  is_number z ∧ less x z = true ∧
  ∀ w, is_number w → less x w = true → less w z = true → False.

(** [y] is [n] numbers above [x]. *)
Inductive ulps : nat → Z → Z → Prop :=
  | ulps_0 x y : SFeqb (value_ x) (value_ y) = true → ulps 0 x y
  | ulps_S n x z y : next x z → ulps n z y → ulps (S n) x y.

Lemma signed_range b : is_number b → - inf_mag <= signed b <= inf_mag.
Proof.
  intros [Hb Hn]. pose proof (shape_range _ _ _ (value_shape b Hb Hn)).
  unfold signed. destruct (neg b); lia.
Qed.

Lemma signed_onto k : - inf_mag <= k <= inf_mag → ∃ b, is_number b ∧ signed b = k.
Proof.
  intros Hk. pose proof powers as (P1 & P2 & P3 & P4). pose proof half_pos.
  assert (inf_mag < 2 ^ (kBitCount - 1)) as Hi by (unfold inf_mag; lia).
  set (b := if k <? 0 then 2 ^ (kBitCount - 1) - k else k).
  assert (is_bits b) as Hb by (unfold b, is_bits; destruct (Z.ltb_spec k 0); lia).
  assert (neg b = (k <? 0) ∧ mag b = Z.abs k) as [Hn Hm].
  { assert (neg b = (k <? 0)) as Hn.
    { unfold neg, b. destruct (Z.ltb_spec k 0); [apply Z.leb_le|apply Z.leb_gt]; lia. }
    split; [done|]. rewrite mag_eq, Hn by done. unfold b. destruct (Z.ltb_spec k 0); lia. }
  exists b. split; [split; [done|rewrite is_nan_mag, Hm; apply Z.ltb_ge; lia]|].
  unfold signed. rewrite Hn, Hm. destruct (Z.ltb_spec k 0); lia.
Qed.

Lemma less_signed x y : is_number x → is_number y → less x y = (signed x <? signed y).
Proof.
  intros [Hx Nx] [Hy Ny]. unfold less, SFltb. rewrite value_compare by done.
  unfold Z.ltb. by destruct (signed x ?= signed y).
Qed.

Lemma equal_signed x y :
  is_number x → is_number y → SFeqb (value_ x) (value_ y) = (signed x =? signed y).
Proof.
  intros [Hx Nx] [Hy Ny]. unfold SFeqb. rewrite value_compare by done.
  rewrite Z.eqb_compare. by destruct (signed x ?= signed y).
Qed.

Lemma next_signed x z : is_number x → is_number z → next x z ↔ signed z = signed x + 1.
Proof.
  intros Hx Hz. unfold next. rewrite less_signed, Z.ltb_lt by done. split.
  - intros (_ & Hlt & Hmin). destruct (decide (signed z = signed x + 1)) as [|Hne]; [done|exfalso].
    pose proof (signed_range x Hx). pose proof (signed_range z Hz).
    destruct (signed_onto (signed x + 1)) as (w & Hw & Ew); [lia|].
    apply (Hmin w Hw); rewrite less_signed, Z.ltb_lt by done; lia.
  - intros E. split; [done|]. split; [lia|]. intros w Hw.
    rewrite !less_signed, !Z.ltb_lt by done. lia.
Qed.

Lemma ulps_signed n x y :
  is_number x → is_number y → ulps n x y ↔ signed y = signed x + Z.of_nat n.
Proof.
  intros Hx Hy. revert x Hx. induction n as [|n IH]; intros x Hx.
  - split.
    + inversion 1; subst. rewrite equal_signed, Z.eqb_eq in * by done. lia.
    + intros E. constructor. rewrite equal_signed, Z.eqb_eq by done. lia.
  - split.
    + inversion 1 as [|? ? z ? Hz Hn]; subst. pose proof Hz as [Nz _].
      apply next_signed in Hz; [|done..]. apply IH in Hn; [lia|done].
    + intros E. pose proof (signed_range x Hx). pose proof (signed_range y Hy).
      destruct (signed_onto (signed x + 1)) as (z & Hz & Ez); [lia|].
      apply ulps_S with z; [by apply next_signed|]. apply IH; [done|lia].
Qed.

Lemma close_ulps x y :
  is_number x → is_number y →
  Z.abs (signed x - signed y) <= 4 ↔ ∃ n, (n <= 4)%nat ∧ (ulps n x y ∨ ulps n y x).
Proof.
  intros Hx Hy. setoid_rewrite ulps_signed; [|done..]. split.
  - intros H. exists (Z.to_nat (Z.abs (signed x - signed y))). lia.
  - intros (n & Hn & H). lia.
Qed.

(** C40: Two floating-point numbers are almost equal exactly when neither is NaN and the one
    is at most four steps, from a number to the next one that can be represented, above
    the other; zeros are equal, and infinity is a step above the largest number. *)
Theorem AlmostEquals_ulps x y :
  is_bits x → is_bits y →
  AlmostEquals x y = true ↔
    is_nan x = false ∧ is_nan y = false ∧
    ∃ n, (n <= 4)%nat ∧ (ulps n x y ∨ ulps n y x).
Proof.
  intros Hx Hy. rewrite AlmostEquals_signed by done. split; intros (Nx & Ny & H);
    split_and!; try done; by apply close_ulps.
Qed.

(** * Assertions and matchers *)

Context (print : spec_float → list Z).

Lemma LE_signed e1 e2 x y :
  is_bits x → is_bits y →
  FloatingPointLE print e1 e2 x y = AssertionSuccess ↔
    is_nan x = false ∧ is_nan y = false ∧ signed x <= signed y + 4.
Proof.
  intros Hx Hy. unfold FloatingPointLE.
  assert (SFltb (value_ x) (value_ y) = true ↔
    is_nan x = false ∧ is_nan y = false ∧ signed x < signed y) as Hlt.
  { destruct (is_nan x) eqn:Nx; [|destruct (is_nan y) eqn:Ny].
    - rewrite (nan_value x) by done. split; [done|by intros (?&?&?)].
    - rewrite (nan_value y) by done. split; [by destruct (value_ x) as [[]|[]| |[]]|by intros (?&?&?)].
    - fold (less x y). rewrite less_signed, Z.ltb_lt by done. tauto. }
  pose proof (AlmostEquals_signed x y Hx Hy) as Ha.
  destruct (SFltb _ _); [split; [intros _|done]; destruct Hlt as [Hlt _]; destruct (Hlt eq_refl) as (?&?&?);
    split_and!; (done || lia)|].
  destruct (AlmostEquals x y).
  - split; [intros _|done]. destruct Ha as [Ha _]. destruct (Ha eq_refl) as (?&?&?).
    split_and!; (done || lia).
  - split; [done|]. intros (Nx & Ny & H). exfalso.
    destruct (decide (signed x < signed y)) as [Hs|Hs].
    + destruct Hlt as [_ Hlt]. by discriminate Hlt.
    + destruct Ha as [_ Ha]. discriminate Ha. split_and!; (done || lia).
Qed.

(** [FloatLE] and [DoubleLE] succeed exactly when the first number is less than the
    second or at most four steps above it, and not with NaN. *)
Theorem FloatingPointLE_spec e1 e2 x y :
  is_bits x → is_bits y →
  FloatingPointLE print e1 e2 x y = AssertionSuccess ↔
    is_nan x = false ∧ is_nan y = false ∧
    (SFltb (value_ x) (value_ y) = true ∨ ∃ n, (n <= 4)%nat ∧ ulps n y x).
Proof.
  intros Hx Hy. rewrite LE_signed by done. split; intros (Nx & Ny & H); split_and!; try done.
  - fold (less x y). rewrite less_signed, Z.ltb_lt by done.
    destruct (decide (signed x < signed y)); [by left|right].
    exists (Z.to_nat (signed x - signed y)). split; [lia|]. apply ulps_signed; [done..|lia].
  - fold (less x y) in H. rewrite less_signed, Z.ltb_lt in H by done.
    destruct H as [H|(n & Hn & H)]; [lia|]. apply ulps_signed in H; [lia|done..].
Qed.

(** The matchers of floating-point numbers: NaN matches NaN if the matcher says so and
    matches nothing else; without an error bound a number matches what is within four
    steps, with one it matches an equal number, infinities included, and what is within
    the bound.  A matcher described by "never matches" matches nothing, and by "is NaN"
    exactly NaN. *)
Theorem FloatingEqMatcher_matches m value :
  is_bits value → is_bits m.(expected_) →
  ((MatchAndExplain print m value).1 = true ↔
    if is_nan m.(expected_) then is_nan value = true ∧ m.(nan_eq_nan_) = true
    else is_nan value = false ∧
      match HasMaxAbsError m with
      | None => ∃ n, (n <= 4)%nat ∧ (ulps n value m.(expected_) ∨ ulps n m.(expected_) value)
      | Some e =>
          SFeqb (value_ value) (value_ m.(expected_)) = true ∨
          SFleb (SFabs (SFsub prec emax (value_ value) (value_ m.(expected_)))) (value_ e) = true
      end) ∧
  (DescribeTo print m = text "never matches" → is_nan m.(expected_) = true →
     (MatchAndExplain print m value).1 = false) ∧
  (DescribeTo print m = text "is NaN" → is_nan m.(expected_) = true →
     (MatchAndExplain print m value).1 = is_nan value).
Proof.
  intros Hv He. unfold MatchAndExplain, DescribeTo.
  destruct (is_nan value) eqn:Nv, (is_nan (expected_ m)) eqn:Ne; simpl.
  - split; [tauto|]. by destruct (nan_eq_nan_ m).
  - split; [|done]. split; [done|by intros [? _]].
  - split; [|done]. split; [done|by intros [? _]].
  - split; [|done]. destruct (HasMaxAbsError m) as [e|].
    + destruct (SFeqb _ _); simpl; [tauto|]. destruct (SFleb _ _); simpl; [tauto|].
      split; [done|]. by intros (_ & [?|?]).
    + simpl. rewrite AlmostEquals_signed by done. rewrite close_ulps by done. tauto.
Qed.
End Facts.

(** * Examples, in the format of [float] *)

Module Example_float.

(** 1.0, the number five steps above, and the largest number. *)
Definition one : Z := 0x3F800000.
Definition above : Z := 0x3F800005.
Definition FLT_MAX : Z := 0x7F7FFFFF.

Lemma AlmostEquals_ulps_witness :
  (∃ n, (n <= 4)%nat ∧ (@ulps Float n FLT_MAX (@Infinity Float) ∨ @ulps Float n (@Infinity Float) FLT_MAX)) ∧
  @AlmostEquals Float one above = false.
Proof.
  split; [|reflexivity].
  apply (AlmostEquals_ulps (F:=Float) FLT_MAX (@Infinity Float)); vm_compute; done.
Defined.

Lemma FloatingPointLE_spec_witness :
  FloatLE (λ _, []) [] [] (one + 4) one = AssertionSuccess ∧
  (SFltb (@value_ Float (one + 4)) (@value_ Float one) = true ∨
   ∃ n, (n <= 4)%nat ∧ @ulps Float n one (one + 4)).
Proof.
  split; [reflexivity|].
  apply (FloatingPointLE_spec (F:=Float) (λ _, []) [] [] (one + 4) one); vm_compute; done.
Defined.

Lemma FloatingEqMatcher_matches_witness :
  (@MatchAndExplain Float (λ _, []) (FloatingEq 0x7FC00000 false) 0x7FC00000).1 = false.
Proof.
  apply (FloatingEqMatcher_matches (F:=Float) (λ _, []) (FloatingEq 0x7FC00000 false) 0x7FC00000);
    vm_compute; done.
Defined.

End Example_float.
