(* ===== verification/RecordedFacts.v ===== *)
(** The properties that tests record: throughout a run of the program the keys of every
    result are distinct, none is reserved for the report, and each was recorded by the
    code of the user; after an iteration the value of a key is the last one recorded. *)

From S2P Require Import Prelude Strings TestRun Runner.
From stdpp Require Import base gmap list strings sets.
From Stdlib Require Import ZArith Lia Ascii.

Open Scope Z_scope.
Open Scope run_scope.

Definition reserved_by (el : string) : list string := default [] (reserved_attributes el).

Definition properties_ok (K : string → Prop) (el : string) (r : TestResult) : Prop :=
  NoDup (key_ <$> r.(test_properties_)) ∧
  Forall (λ p, (p.(key_) ∉ reserved_by el) ∧ K p.(key_)) r.(test_properties_).

(** The invariant of the state. *)
Record recorded (K : string → Prop) (u : Unit) : Prop := {
  rec_test t : properties_ok K "testcase" (result_of u t);
  rec_case c : properties_ok K "testsuite" (default empty_result (u.(case_ad_hoc) !! c));
  rec_ad_hoc : properties_ok K "testsuites" u.(ad_hoc_test_result_)
}.

(** The keys the code of the user records are in [K]. *)
Definition records (K : string → Prop) (s : Script) : Prop :=
  ∀ i k v, RecordProperty k v ∈ s i → K k.

Definition code_records (K : string → Prop) (c : TestCode) : Prop :=
  records K c.(constructor) ∧ records K c.(SetUp) ∧ records K c.(TestBody) ∧
  records K c.(TearDown) ∧ records K c.(destructor).

Record program_records (K : string → Prop) (cfg : Config) : Prop := {
  pr_program : Forall (λ c, records K c.(SetUpTestCase) ∧ records K c.(TearDownTestCase) ∧
                            Forall (code_records K) c.(codes)) cfg.(program);
  pr_environments : Forall (λ e, records K e.(env_SetUp) ∧ records K e.(env_TearDown))
                      cfg.(environments_)
}.

Lemma empty_ok K el : properties_ok K el empty_result.
Proof. split; constructor. Qed.

(** ** Recording a property *)

Lemma set_property_keys p l :
  key_ <$> set_property p l =
    (key_ <$> l) ++ (if decide (p.(key_) ∈ key_ <$> l) then [] else [p.(key_)]).
Proof.
  induction l as [|q l IH]; [done|]. cbn [set_property]. destruct (decide (key_ q = key_ p)) as [E|E].
  - rewrite !fmap_cons. simpl. rewrite decide_True by (rewrite E; by left). by rewrite app_nil_r.
  - rewrite !fmap_cons, IH. simpl. f_equal.
    destruct (decide (key_ p ∈ key_ <$> l)) as [Hin|Hin].
    + rewrite decide_True; [done|by right].
    + rewrite decide_False; [done|]. intros H. apply list_elem_of_In in H as [H|H]; [done|].
      apply Hin. by apply list_elem_of_In.
Qed.

Lemma set_property_ok K el p ps l :
  properties_ok K el (mkResult ps l) → p.(key_) ∉ reserved_by el → K p.(key_) →
  properties_ok K el (mkResult ps (set_property p l)).
Proof.
  intros [Hnd Hf] Hr HK. cbn [test_properties_] in *. split; cbn [test_properties_].
  - rewrite set_property_keys. case_decide; [by rewrite app_nil_r|].
    apply NoDup_app. split; [done|]. split; [|apply NoDup_singleton].
    intros k Hk ->%list_elem_of_singleton. done.
  - clear Hnd. induction Hf as [|q l Hq Hf IH]; cbn [set_property]; [by repeat constructor|].
    destruct (decide (key_ q = key_ p)) as [E|E]; constructor; try done.
Qed.

(** * Every step keeps the invariant *)

Create HintDb keep.

Section Preserves.
Variable K : string → Prop.

Definition preserves {A} (m : M A) : Prop := ∀ u, recorded K u → recorded K (m u).2.

Lemma preserves_bind {A B} (m : M A) (f : A → M B) :
  preserves m → (∀ a, preserves (f a)) → preserves (bind m f).
Proof.
  intros Hm Hf u Hu. unfold bind. specialize (Hm u Hu).
  destruct (m u) as [[a|e|] v]; [by apply Hf|done|done].
Qed.

Lemma preserves_pure {A} (m : M A) : (∀ u, (m u).2 = u) → preserves m.
Proof. intros Hm u Hu. by rewrite Hm. Qed.

Lemma preserves_ret {A} (a : A) : preserves (ret a).
Proof. by apply preserves_pure. Qed.
Lemma preserves_crash {A} : preserves (@crash A).
Proof. by apply preserves_pure. Qed.
Lemma preserves_throw {A} e : preserves (@throw A e).
Proof. by apply preserves_pure. Qed.
Lemma preserves_gets {A} (f : Unit → A) : preserves (gets f).
Proof. by apply preserves_pure. Qed.

(** A change that leaves the results alone. *)
Lemma preserves_modify (f : Unit → Unit) :
  (∀ u, results (f u) = results u ∧ case_ad_hoc (f u) = case_ad_hoc u ∧
        ad_hoc_test_result_ (f u) = ad_hoc_test_result_ u) → preserves (modify f).
Proof.
  intros Hf u [H1 H2 H3]. destruct (Hf u) as (E1 & E2 & E3). simpl.
  split; unfold result_of in *; rewrite ?E1, ?E2, ?E3; done.
Qed.

Lemma recorded_test u t r :
  recorded K u → properties_ok K "testcase" r →
  recorded K (set_results (<[t := r]> u.(results)) u).
Proof.
  intros [H1 H2 H3] Hr. split; [|done|done]. intros t'. unfold result_of in *. simpl.
  destruct (decide (t = t')) as [<-|Hne].
  - by rewrite lookup_insert_eq.
  - by rewrite lookup_insert_ne.
Qed.

Lemma recorded_case u c r :
  recorded K u → properties_ok K "testsuite" r →
  recorded K (set_case_ad_hoc (<[c := r]> u.(case_ad_hoc)) u).
Proof.
  intros [H1 H2 H3] Hr. split; [done| |done]. intros c'. simpl.
  destruct (decide (c = c')) as [<-|Hne].
  - by rewrite lookup_insert_eq.
  - by rewrite lookup_insert_ne.
Qed.

Lemma preserves_if {A} (b : bool) (m n : M A) :
  preserves m → preserves n → preserves (if b then m else n).
Proof. by destruct b. Qed.

#[local] Hint Resolve preserves_ret preserves_crash preserves_throw preserves_gets preserves_if
  : keep.

(** Looks through a sequence, with the lemmas of [keep]. *)
Ltac keep :=
  repeat (lazymatch goal with
    | |- ∀ _, _ => intro
    | |- preserves (bind _ _) => apply preserves_bind
    | |- preserves (match ?x with _ => _ end) => destruct x
    | |- preserves (let _ := _ in _) => cbv zeta
    | |- preserves (modify _) => apply preserves_modify; intros; by repeat case_match
    | |- _ => fail
    end); eauto with keep.

Section Steps.
Variable cfg : Config.

Lemma preserves_notify e : preserves (notify cfg e).
Proof. unfold notify. apply preserves_modify. intros u. by case_match. Qed.

Lemma preserves_report p : preserves (ReportTestPartResult cfg p).
Proof.
  unfold ReportTestPartResult. apply preserves_bind; [|intros; apply preserves_notify].
  intros u Hu. simpl. destruct (current_test_info_ u) as [t|].
  - apply recorded_test; [done|]. exact (rec_test K u Hu t).
  - destruct Hu as [H1 H2 H3]. split; [done|done|exact H3].
Qed.

Lemma preserves_AddTestPartResult ty file line msg tr st :
  preserves (AddTestPartResult cfg ty file line msg tr st).
Proof. unfold AddTestPartResult. keep. apply preserves_report. Qed.

Lemma preserves_HandleExceptions {A} (m : M A) loc :
  preserves m → preserves (HandleExceptions cfg m loc).
Proof.
  intros Hm u Hu. unfold HandleExceptions. specialize (Hm u Hu).
  destruct (m u) as [[a|e|] v]; [done| |done]. simpl in Hm.
  destruct (catch_exceptions cfg); [|done]. destruct e as [|what]; [done|].
  apply (preserves_bind (AddTestPartResult cfg _ _ _ _ _ _) (λ _, ret None)); [|keep|done].
  apply preserves_AddTestPartResult.
Qed.

#[local] Hint Resolve preserves_notify preserves_report preserves_AddTestPartResult
  preserves_HandleExceptions : keep.

(** [get] and [put] are those of a result of the element. *)
Lemma preserves_record_property el get put p :
  K p.(key_) → is_Some (reserved_attributes el) →
  (∀ u, recorded K u → properties_ok K el (get u)) →
  (∀ r u, recorded K u → properties_ok K el r → recorded K (put r u)) →
  preserves (record_property cfg el get put p).
Proof.
  intros HK [res Hres] Hget Hput. unfold record_property. rewrite Hres.
  unfold ValidateTestPropertyName. destruct (decide (key_ p ∈ res)) as [Hin|Hin]; intros u Hu.
  { set (msg := "Failed" +:+ _).
    pose proof (preserves_AddTestPartResult kNonFatalFailure (Some "src/gtest.cc") 2145 msg [] "" u Hu)
      as H. unfold bind. destruct (AddTestPartResult _ _ _ _ _ _ _ u) as [[a|e|] v]; done. }
  simpl. apply Hput; [done|]. destruct (get u) as [ps l] eqn:E. simpl.
  apply set_property_ok; [|unfold reserved_by; by rewrite Hres|done]. rewrite <-E. by apply Hget.
Qed.

Lemma preserves_record k v : K k → preserves (record cfg k v).
Proof.
  intros HK. unfold record. keep; apply preserves_record_property; try done; simpl;
    intros; try (by apply recorded_test || apply recorded_case).
  - by apply rec_test.
  - by apply rec_case.
  - by apply rec_ad_hoc.
  - match goal with H : recorded K _ |- _ => destruct H end. by split.
Qed.

Lemma preserves_run_actions l :
  (∀ k v, RecordProperty k v ∈ l → K k) → preserves (run_actions cfg l).
Proof.
  induction l as [|a l IH]; intros Hl; [apply preserves_ret|].
  assert (preserves (run_actions cfg l)) as Hrest by (apply IH; intros k v Hin; apply (Hl k v); by right).
  destruct a as [ty file line msg tr st|k v|w]; cbn [run_actions]; keep.
  apply preserves_record, (Hl k v). by left.
Qed.

Variable i : nat.

Lemma preserves_call c s loc : records K s → preserves (call cfg i c s loc).
Proof.
  intros Hs. unfold call. keep. apply preserves_HandleExceptions, preserves_run_actions.
  intros k v. apply Hs.
Qed.

Lemma preserves_HasSameFixtureClass info code j : preserves (HasSameFixtureClass cfg info code j).
Proof. unfold HasSameFixtureClass. keep. Qed.

#[local] Hint Resolve preserves_call preserves_HasSameFixtureClass : keep.

Lemma preserves_Test_Run info case t code :
  code_records K code → preserves (Test_Run cfg i info case t code).
Proof. intros (H1 & H2 & H3 & H4 & H5). unfold Test_Run, current_fatal. keep. Qed.

#[local] Hint Resolve preserves_Test_Run : keep.

Lemma preserves_TestInfo_Run info case t :
  Forall (code_records K) case.(codes) → preserves (TestInfo_Run cfg i info case t).
Proof.
  intros Hc. unfold TestInfo_Run, current_fatal. destruct (test_info_list info !! t.2); [|keep].
  destruct (codes case !! t.2) as [code|] eqn:E; [|keep].
  pose proof (Forall_lookup_1 _ _ _ _ Hc E) as Hcode.
  pose proof Hcode as (H1 & H2 & H3 & H4 & H5). keep.
Qed.

Lemma preserves_run_tests info case c l :
  Forall (code_records K) case.(codes) → preserves (run_tests cfg i info case c l).
Proof.
  intros Hc. induction l as [|x l IH]; cbn [run_tests]; keep. by apply preserves_TestInfo_Run.
Qed.

Hypothesis Hcfg : program_records K cfg.

Lemma preserves_TestCase_Run info case indices c :
  case ∈ cfg.(program) → preserves (TestCase_Run cfg i info case indices c).
Proof.
  intros Hin. destruct Hcfg as [Hp _]. eapply Forall_forall in Hp as (H1 & H2 & H3); [|exact Hin].
  unfold TestCase_Run. keep. by apply preserves_run_tests.
Qed.

Lemma preserves_run_cases test_cases o l : preserves (run_cases cfg i test_cases o l).
Proof.
  induction l as [|x l IH]; cbn [run_cases]; [keep|]. apply preserves_bind; [|keep].
  apply preserves_if; [keep|]. cbv zeta. destruct (test_cases !! Z.to_nat x); [|keep].
  destruct (program cfg !! Z.to_nat x) as [case|] eqn:E; [|keep].
  destruct (test_indices_ o !! Z.to_nat x); [|keep].
  apply preserves_TestCase_Run. by eapply list_elem_of_lookup_2.
Qed.

Lemma preserves_run_environments up l :
  Forall (λ x, records K x.2.(env_SetUp) ∧ records K x.2.(env_TearDown)) l →
  preserves (run_environments cfg i up l).
Proof.
  induction 1 as [|[n e] l [H1 H2] Hl IH]; cbn [run_environments]; [keep|].
  apply preserves_bind; [keep|intros _]. apply preserves_bind; [|keep].
  apply preserves_run_actions. intros k v. destruct up; [apply H1|apply H2].
Qed.

Lemma numbered_records :
  Forall (λ x, records K x.2.(env_SetUp) ∧ records K x.2.(env_TearDown)) (numbered cfg).
Proof.
  destruct Hcfg as [_ He]. unfold numbered. apply Forall_lookup. intros n x Hx.
  rewrite list_lookup_imap in Hx. destruct (environments_ cfg !! n) as [e|] eqn:E; [|done].
  simpl in Hx. injection Hx as <-. exact (Forall_lookup_1 _ _ _ _ He E).
Qed.

(** An iteration keeps the invariant, whatever its outcome. *)
Lemma preserves_run_iteration test_cases has o :
  preserves (run_iteration cfg i test_cases has o).
Proof.
  unfold run_iteration, current_fatal. keep.
  - apply preserves_run_environments, numbered_records.
  - apply preserves_run_cases.
  - apply preserves_run_environments, Forall_reverse, numbered_records.
Qed.
End Steps.

Lemma recorded_clear u : recorded K u → recorded K (ClearNonAdHocTestResult u).
Proof.
  intros [H1 H2 H3]. split; [intros t|intros c|done]; unfold result_of; simpl;
    rewrite lookup_empty; apply empty_ok.
Qed.

Lemma preserves_iterations cfg test_cases has n i o seed :
  program_records K cfg → preserves (iterations cfg test_cases has n i o seed).
Proof.
  intros Hcfg. revert i o seed. induction n as [|n IH]; intros i o seed; cbn [iterations]; [keep|].
  apply preserves_bind; [intros u Hu; by apply recorded_clear|intros _].
  destruct (if has && flag_shuffle cfg then _ else _) as [shuffled|]; [|keep].
  apply preserves_bind; [by apply preserves_run_iteration|keep].
Qed.

Lemma preserves_Run cfg now n test_cases has o :
  program_records K cfg → preserves (Run cfg now n test_cases has o).
Proof.
  intros Hcfg. unfold Run. apply preserves_bind; [|keep].
  apply preserves_HandleExceptions. unfold RunAllTests. cbv zeta.
  apply preserves_bind; [apply preserves_notify|intros _].
  apply preserves_bind; [by apply preserves_iterations|intros b].
  apply preserves_bind; [apply preserves_notify|keep].
Qed.
End Preserves.

(** Throughout the program, whatever its outcome, a key is recorded once in a result, it
    is none of the names that the report uses itself, and the user's code recorded it. *)
Theorem Run_keeps_properties K cfg now n test_cases has o u :
  program_records K cfg → recorded K u →
  recorded K (Run cfg now n test_cases has o u).2.
Proof. intros Hcfg. by apply preserves_Run. Qed.

(** * The values of the properties *)

(** Where a property goes: to the test that is current, to the case, or to the program. *)
Inductive Place := AtTest (t : TestId) | AtCase (c : nat) | AtTop.

#[export] Instance place_eq_dec : EqDecision Place.
Proof. solve_decision. Defined.

Definition place_of (cur : option nat * option TestId) : Place :=
  match cur with
  | (_, Some t) => AtTest t
  | (Some c, None) => AtCase c
  | (None, None) => AtTop
  end.
Definition element (pl : Place) : string :=
  match pl with AtTest _ => "testcase" | AtCase _ => "testsuite" | AtTop => "testsuites" end.
Definition result_at (u : Unit) (pl : Place) : TestResult :=
  match pl with
  | AtTest t => result_of u t
  | AtCase c => default empty_result (u.(case_ad_hoc) !! c)
  | AtTop => u.(ad_hoc_test_result_)
  end.

Fixpoint value_of (k : string) (l : list TestProperty) : option string :=
  match l with
  | [] => None
  | p :: l => if decide (p.(key_) = k) then Some p.(value_) else value_of k l
  end.

(** The value of a key after a script that ran at a place: the last one it recorded
    before it threw, unless the key is reserved there. *)
Fixpoint last_value (pl : Place) (k : string) (l : list Action) (old : option string)
    : option string :=
  match l with
  | [] => old
  | RecordProperty key v :: l =>
      last_value pl k l
        (if decide (key = k ∧ k ∉ reserved_by (element pl)) then Some v else old)
  | Report _ _ _ _ _ _ :: l => last_value pl k l old
  | Throw _ :: _ => old
  end.

(** The place and the script of a call of the user's code. *)
Definition call_place (c : Call) : Place :=
  match c with
  | Constructor t | CallSetUp t | Body t | CallTearDown t | Destructor t => AtTest t
  | CallSetUpTestCase c | CallTearDownTestCase c => AtCase c
  | EnvSetUp _ | EnvTearDown _ => AtTop
  end.

Definition of_test (cfg : Config) (t : TestId) (f : TestCode → Script) (i : nat) : list Action :=
  match (case ← cfg.(program) !! t.1; case.(codes) !! t.2) with Some c => f c i | None => [] end.
Definition of_case (cfg : Config) (c : nat) (f : CaseCode → Script) (i : nat) : list Action :=
  match cfg.(program) !! c with Some case => f case i | None => [] end.
Definition of_environment (cfg : Config) (n : nat) (f : EnvironmentCode → Script) (i : nat)
    : list Action :=
  match cfg.(environments_) !! n with Some e => f e i | None => [] end.

Definition call_script (cfg : Config) (i : nat) (c : Call) : list Action :=
  match c with
  | Constructor t => of_test cfg t constructor i
  | CallSetUp t => of_test cfg t SetUp i
  | Body t => of_test cfg t TestBody i
  | CallTearDown t => of_test cfg t TearDown i
  | Destructor t => of_test cfg t destructor i
  | CallSetUpTestCase c => of_case cfg c SetUpTestCase i
  | CallTearDownTestCase c => of_case cfg c TearDownTestCase i
  | EnvSetUp n => of_environment cfg n env_SetUp i
  | EnvTearDown n => of_environment cfg n env_TearDown i
  end.

(** The value of a key at a place after the calls, in their order. *)
Definition value_after (cfg : Config) (i : nat) (pl : Place) (k : string) (cs : list Call)
    (old : option string) : option string :=
  fold_left (λ old c, if decide (call_place c = pl)
                      then last_value pl k (call_script cfg i c) old else old) cs old.

(** ** Recording *)

Lemma value_of_set_property k p l :
  value_of k (set_property p l) = if decide (p.(key_) = k) then Some p.(value_) else value_of k l.
Proof.
  induction l as [|q l IH]; simpl; [done|].
  destruct (decide (key_ q = key_ p)) as [E|E]; simpl.
  - rewrite E. by case_decide.
  - rewrite IH. repeat case_decide; congruence.
Qed.

Definition cur (u : Unit) : option nat * option TestId :=
  (u.(current_test_case_), u.(current_test_info_)).
Definition props (u : Unit) (pl : Place) : list TestProperty :=
  (result_at u pl).(test_properties_).

(** What is current, the calls and the properties are the same. *)
Record same (u u' : Unit) : Prop := {
  sm_cur : cur u' = cur u;
  sm_calls : u'.(calls) = u.(calls);
  sm_props pl : props u' pl = props u pl
}.

Lemma same_refl u : same u u.
Proof. by split. Qed.

Lemma same_trans u v w : same u v → same v w → same u w.
Proof. intros [A1 A2 A3] [B1 B2 B3]. split; [congruence..|]. intros pl. by rewrite B3. Qed.

Section Values.
Variables (cfg : Config) (i : nat).

Lemma notify_same e u : same u (notify cfg e u).2.
Proof. unfold notify, modify. simpl. case_match; [by split|apply same_refl]. Qed.

Lemma report_same p u :
  ∃ u', ReportTestPartResult cfg p u = (Ok (), u') ∧ same u u'.
Proof.
  unfold ReportTestPartResult, bind, modify. eexists. split; [reflexivity|].
  eapply same_trans; [|apply (notify_same (OnTestPartResult p))].
  destruct (current_test_info_ u) as [t|] eqn:E; simpl; split; try done.
  - intros [t'|c|]; [|done..]. unfold props, result_at, result_of. simpl.
    destruct (decide (t = t')) as [<-|Hne]; [by rewrite lookup_insert_eq|by rewrite lookup_insert_ne].
  - by intros [].
Qed.

Hypothesis no_break : break_on_failure cfg = false.
Hypothesis no_throw : throw_on_failure cfg = false.

Lemma add_same ty file line msg tr st u :
  ∃ u', AddTestPartResult cfg ty file line msg tr st u = (Ok (), u') ∧ same u u'.
Proof.
  unfold AddTestPartResult, bind.
  destruct (report_same (mkPart ty file line (full_message msg tr st)) u) as (u' & -> & Hs).
  rewrite no_break, no_throw. exists u'. split; [by case_match|done].
Qed.

(** The script [l] ran from [u] to [u']. *)
Definition scripted (l : list Action) (u u' : Unit) : Prop :=
  cur u' = cur u ∧ u'.(calls) = u.(calls) ∧
  ∀ pl k, value_of k (props u' pl) =
    if decide (place_of (cur u) = pl) then last_value pl k l (value_of k (props u pl))
    else value_of k (props u pl).

(** [get] and [put] are those of the result at the place that is current. *)
Lemma record_property_scripted pl get put key v u :
  place_of (cur u) = pl → (∀ u, get u = result_at u pl) →
  (∀ r u, cur (put r u) = cur u ∧ calls (put r u) = calls u ∧
     ∀ pl', result_at (put r u) pl' = if decide (pl = pl') then r else result_at u pl') →
  ∃ u', record_property cfg (element pl) get put (mkProperty key v) u = (Ok (), u') ∧
    scripted [RecordProperty key v] u u'.
Proof.
  intros Hpl Hget Hput. unfold record_property.
  assert (reserved_attributes (element pl) = Some (reserved_by (element pl))) as ->
    by (by destruct pl).
  unfold ValidateTestPropertyName. simpl key_. destruct (decide (key ∈ _)) as [Hin|Hin].
  - set (msg := "Failed" +:+ _).
    destruct (add_same kNonFatalFailure (Some "src/gtest.cc") 2145 msg [] "" u) as (u' & E & Hs).
    unfold bind. rewrite E. exists u'. split; [done|]. destruct Hs as [H1 H2 H3].
    split; [done|]. split; [done|]. intros pl' k. rewrite H3. simpl. case_decide; [|done].
    subst pl'. rewrite decide_False; [done|]. subst pl. naive_solver.
  - eexists. split; [reflexivity|]. destruct (Hput (mkResult (test_part_results_ (get u))
      (set_property (mkProperty key v) (test_properties_ (get u)))) u) as (H1 & H2 & H3).
    split; [done|]. split; [done|]. intros pl' k. unfold props at 1. rewrite H3, Hget, Hpl.
    case_decide as Hp; [subst pl'|done]. simpl. rewrite value_of_set_property. simpl.
    by destruct (decide (key = k)) as [->|];
      [rewrite decide_True by done|rewrite decide_False by naive_solver].
Qed.

Lemma record_scripted key v u :
  ∃ u', record cfg key v u = (Ok (), u') ∧ scripted [RecordProperty key v] u u'.
Proof.
  unfold record, bind, gets.
  destruct (current_test_info_ u) as [t|] eqn:Et; [|destruct (current_test_case_ u) as [c|] eqn:Ec].
  - apply (record_property_scripted (AtTest t)); [unfold cur; rewrite Et; by destruct (current_test_case_ u)|done|].
    intros r v0. split; [done|]. split; [done|]. intros [t'|c'|]; simpl; [|done..].
    unfold result_of. simpl. case_decide as H; [simplify_eq; by rewrite lookup_insert_eq|].
    rewrite lookup_insert_ne; [done|congruence].
  - apply (record_property_scripted (AtCase c)); [unfold cur; by rewrite Et, Ec|done|].
    intros r v0. split; [done|]. split; [done|]. intros [t'|c'|]; simpl; [done| |done].
    case_decide as H; [simplify_eq; by rewrite lookup_insert_eq|].
    rewrite lookup_insert_ne; [done|congruence].
  - apply (record_property_scripted AtTop); [unfold cur; by rewrite Et, Ec|done|].
    intros r v0. split; [done|]. split; [done|]. by intros [].
Qed.

Lemma scripted_cons a l u v w :
  scripted [a] u v → scripted l v w → (∀ what, a ≠ Throw what) → scripted (a :: l) u w.
Proof.
  intros (A1 & A2 & A3) (B1 & B2 & B3) Ha. split; [congruence|]. split; [congruence|].
  intros pl k. rewrite B3, A1, A3. case_decide; [|done].
  by destruct a as [| |what]; [..|destruct (Ha what)].
Qed.

Lemma run_actions_scripted l u :
  ∃ o u', run_actions cfg l u = (o, u') ∧ scripted l u u' ∧
    (o = Ok () ∨ ∃ w, o = Thrown (UserException w)).
Proof.
  revert u. induction l as [|a l IH]; intros u.
  { eexists _, u. split; [reflexivity|]. split; [|by left].
    split; [done|]. split; [done|]. intros pl k. by case_decide. }
  destruct a as [ty file line msg tr st|key v|w]; cbn [run_actions]; unfold bind.
  - destruct (add_same ty file line msg tr st u) as (u1 & -> & [H1 H2 H3]).
    destruct (IH u1) as (o & u' & -> & Hs & Ho). exists o, u'. split; [done|]. split; [|done].
    eapply scripted_cons; [|exact Hs|done]. split; [done|]. split; [done|].
    intros pl k. rewrite H3. by case_decide.
  - destruct (record_scripted key v u) as (u1 & -> & H1).
    destruct (IH u1) as (o & u' & -> & Hs & Ho). exists o, u'. split; [done|]. split; [|done].
    by eapply scripted_cons.
  - eexists _, u. split; [reflexivity|]. split; [|by right; eexists].
    split; [done|]. split; [done|]. intros pl k. by case_decide.
Qed.

(** ** Following a run *)

(** The step [m] goes from what is current in [c1] to [c2], if it returns; and whatever
    its outcome, the properties are those that its calls recorded. *)
Definition follows {A} (c1 c2 : option nat * option TestId) (m : M A) : Prop :=
  ∀ u, cur u = c1 →
    (∀ a, (m u).1 = Ok a → cur (m u).2 = c2) ∧
    ∃ cs, (m u).2.(calls) = u.(calls) ++ cs ∧
      ∀ pl k, value_of k (props (m u).2 pl) = value_after cfg i pl k cs (value_of k (props u pl)).

Lemma follows_bind {A B} c1 c2 c3 (m : M A) (f : A → M B) :
  follows c1 c2 m → (∀ a, follows c2 c3 (f a)) → follows c1 c3 (bind m f).
Proof.
  intros Hm Hf u Hu. unfold bind. destruct (Hm u Hu) as (Hc & cs & Ecs & Hv).
  destruct (m u) as [[a|e|] v] eqn:E; simpl in *; [|by split; [done|exists cs]..].
  destruct (Hf a v (Hc a eq_refl)) as (Hc' & cs' & Ecs' & Hv'). split; [done|].
  exists (cs ++ cs'). split; [by rewrite Ecs', Ecs, app_assoc|].
  intros pl k. rewrite Hv', Hv. unfold value_after. by rewrite fold_left_app.
Qed.

Lemma follows_same {A} c (m : M A) : (∀ u, same u (m u).2) → follows c c m.
Proof.
  intros Hm u Hu. destruct (Hm u) as [H1 H2 H3]. split; [intros; congruence|].
  exists []. split; [by rewrite app_nil_r|]. intros pl k. by rewrite H3.
Qed.

(** Moving to another test or case. *)
Lemma follows_move c1 c2 (f : Unit → Unit) :
  (∀ u, cur u = c1 → cur (f u) = c2 ∧ calls (f u) = calls u ∧ ∀ pl, props (f u) pl = props u pl) →
  follows c1 c2 (modify f).
Proof.
  intros Hf u Hu. destruct (Hf u Hu) as (H1 & H2 & H3). split; [done|].
  exists []. split; [by rewrite app_nil_r|]. intros pl k. simpl. by rewrite H3.
Qed.

Lemma follows_ret {A} c (a : A) : follows c c (ret a).
Proof. apply follows_same, same_refl. Qed.
Lemma follows_crash {A} c c' : follows c c' (@crash A).
Proof.
  intros u Hu. split; [done|]. exists []. split; [by rewrite app_nil_r|done].
Qed.
Lemma follows_gets {A} c (f : Unit → A) : follows c c (gets f).
Proof. apply follows_same, same_refl. Qed.
Lemma follows_notify c e : follows c c (notify cfg e).
Proof. apply follows_same, notify_same. Qed.
Lemma follows_add c ty file line msg tr st :
  follows c c (AddTestPartResult cfg ty file line msg tr st).
Proof.
  apply follows_same. intros u. by destruct (add_same ty file line msg tr st u) as (? & -> & ?).
Qed.

(** One call, on record when its script runs. *)
Lemma follows_call_script {A} c cl l (m : M A) :
  place_of c = call_place cl → call_script cfg i cl = l →
  (∀ u, scripted l u (m u).2) →
  follows c c (modify (λ u, set_calls (u.(calls) ++ [cl]) u) ;; m).
Proof.
  intros Hpl <- Hm u Hu. unfold bind, modify. set (v := set_calls _ u).
  destruct (Hm v) as (H1 & H2 & H3). split; [intros; by rewrite H1|].
  exists [cl]. split; [done|]. intros pl k. rewrite H3. change (cur v) with (cur u).
  rewrite Hu, Hpl. unfold value_after. simpl. by case_decide.
Qed.

Lemma follows_call c cl (s : Script) loc :
  place_of c = call_place cl → call_script cfg i cl = s i → follows c c (call cfg i cl s loc).
Proof.
  intros Hpl Hs. apply (follows_call_script c cl (s i)); [done|done|]. intros u.
  unfold HandleExceptions, bind.
  destruct (run_actions_scripted (s i) u) as (o & u' & E & Hsc & [->|[w ->]]); rewrite E; [done|].
  destruct (catch_exceptions cfg); [|done].
  destruct (add_same kFatalFailure None (-1) (FormatCxxExceptionMessage w loc) [] "" u')
    as (u2 & -> & [H1 H2 H3]). destruct Hsc as (S1 & S2 & S3).
  split; [simpl; congruence|]. split; [simpl; congruence|]. intros pl k. simpl. by rewrite H3.
Qed.

Create HintDb follow.
#[local] Hint Resolve follows_ret follows_crash follows_gets follows_notify follows_add : follow.

Lemma follows_if {A} c c' (b : bool) (m n : M A) :
  follows c c' m → follows c c' n → follows c c' (if b then m else n).
Proof. by destruct b. Qed.

(** A sequence of steps that stay where they are. *)
Ltac follow :=
  repeat (lazymatch goal with
    | |- ∀ _, _ => intro
    | |- follows ?c ?c (bind _ _) => apply (follows_bind c c c)
    | |- follows _ _ (if ?b then _ else _) => destruct b
    | |- follows _ _ (match ?x with _ => _ end) => destruct x
    | |- _ => fail
    end); auto with follow.

Lemma follows_HasSameFixtureClass c info code j :
  follows c c (HasSameFixtureClass cfg info code j).
Proof. unfold HasSameFixtureClass. follow. Qed.

Lemma follows_current_fatal c : follows c c current_fatal.
Proof. apply follows_gets. Qed.

#[local] Hint Resolve follows_HasSameFixtureClass follows_current_fatal : follow.

Lemma of_test_eq t f case code :
  cfg.(program) !! t.1 = Some case → case.(codes) !! t.2 = Some code →
  of_test cfg t f i = f code i.
Proof. intros H1 H2. unfold of_test. rewrite H1. simpl. by rewrite H2. Qed.

Lemma follows_Test_Run x info case t code :
  cfg.(program) !! t.1 = Some case → case.(codes) !! t.2 = Some code →
  follows (x, Some t) (x, Some t) (Test_Run cfg i info case t code).
Proof.
  intros H1 H2. unfold Test_Run.
  follow; apply follows_call; simpl; first [by destruct x|by apply (of_test_eq _ _ case)].
Qed.

Lemma follows_TestInfo_Run x info case t :
  cfg.(program) !! t.1 = Some case →
  follows (x, None) (x, None) (TestInfo_Run cfg i info case t).
Proof.
  intros H1. unfold TestInfo_Run. destruct (test_info_list info !! t.2) as [ti|]; [|follow].
  destruct (codes case !! t.2) as [code|] eqn:H2; [|follow].
  apply follows_if; [follow|].
  assert (∀ f (s : Script) cl loc, call_place cl = AtTest t → call_script cfg i cl = of_test cfg t f i →
    s = f code → follows (x, Some t) (x, Some t) (call cfg i cl s loc)) as Hcall.
  { intros f s cl loc Hpl Hs ->. apply follows_call; [rewrite Hpl; by destruct x|].
    rewrite Hs. by apply (of_test_eq _ _ case). }
  apply (follows_bind _ (x, Some t)).
  { apply follows_move. intros u [= <- Hu]. split; [done|]. split; [done|]. by intros []. }
  intros _. apply (follows_bind _ (x, Some t)); [follow|intros _].
  apply (follows_bind _ (x, Some t)); [by apply (Hcall constructor)|intros created].
  apply (follows_bind _ (x, Some t)); [follow|intros fatal].
  apply (follows_bind _ (x, Some t)); [follow; by apply follows_Test_Run|intros _].
  apply (follows_bind _ (x, Some t)); [follow; by apply (Hcall destructor)|intros _].
  apply (follows_bind _ (x, Some t)); [follow|intros _].
  apply follows_move. intros u [= <- Hu]. split; [done|]. split; [done|]. by intros [].
Qed.

Lemma follows_run_tests x info case c l :
  cfg.(program) !! c = Some case →
  follows (x, None) (x, None) (run_tests cfg i info case c l).
Proof.
  intros Hc. induction l as [|index l IH]; cbn [run_tests]; follow.
  by apply follows_TestInfo_Run.
Qed.

Lemma follows_TestCase_Run info case indices c :
  cfg.(program) !! c = Some case →
  follows (None, None) (None, None) (TestCase_Run cfg i info case indices c).
Proof.
  intros Hc. unfold TestCase_Run. apply follows_if; [follow|].
  assert (∀ f, of_case cfg c f i = f case i) as Hs by (intros f; unfold of_case; by rewrite Hc).
  apply (follows_bind _ (Some c, None)).
  { apply follows_move. intros u [= Hu1 Hu2]. split; [unfold cur; simpl; by rewrite Hu2|].
    split; [done|]. by intros []. }
  intros _. apply (follows_bind _ (Some c, None)); [follow|intros _].
  apply (follows_bind _ (Some c, None)); [apply follows_call; [done|by apply Hs]|intros _].
  apply (follows_bind _ (Some c, None)); [by apply follows_run_tests|intros _].
  apply (follows_bind _ (Some c, None)); [apply follows_call; [done|by apply Hs]|intros _].
  apply (follows_bind _ (Some c, None)); [follow|intros _].
  apply follows_move. intros u [= Hu1 Hu2]. split; [unfold cur; simpl; by rewrite Hu2|].
  split; [done|]. by intros [].
Qed.

Lemma follows_run_cases test_cases o l :
  follows (None, None) (None, None) (run_cases cfg i test_cases o l).
Proof.
  induction l as [|x l IH]; cbn [run_cases]; [follow|].
  apply (follows_bind _ (None, None)); [|follow]. apply follows_if; [follow|]. cbv zeta.
  destruct (test_cases !! Z.to_nat x); [|follow].
  destruct (program cfg !! Z.to_nat x) as [case|] eqn:E; [|follow].
  destruct (test_indices_ o !! Z.to_nat x); [|follow]. by apply follows_TestCase_Run.
Qed.

Lemma follows_run_environments up l :
  Forall (λ x, cfg.(environments_) !! x.1 = Some x.2) l →
  follows (None, None) (None, None) (run_environments cfg i up l).
Proof.
  induction 1 as [|[n e] l Hn Hl IH]; cbn [run_environments]; [follow|]. simpl in Hn.
  intros u Hu.
  pose proof (follows_call_script (None, None) (if up then EnvSetUp n else EnvTearDown n)
    ((if up then env_SetUp e else env_TearDown e) i)
    (run_actions cfg ((if up then env_SetUp e else env_TearDown e) i))) as Hs.
  apply (follows_bind (None, None) (None, None) (None, None)
    (modify (λ u, set_calls (calls u ++ [if up then EnvSetUp n else EnvTearDown n]) u) ;;
     run_actions cfg ((if up then env_SetUp e else env_TearDown e) i))
    (λ _, run_environments cfg i up l)) in Hu; [|apply Hs|intros _; exact IH].
  - revert Hu. unfold bind, modify.
    by destruct (run_actions cfg _ _) as [[a|ex|] v].
  - by destruct up.
  - destruct up; simpl; unfold of_environment; by rewrite Hn.
  - intros v. destruct (run_actions_scripted ((if up then env_SetUp e else env_TearDown e) i) v)
      as (o & u' & -> & Hsc & _). exact Hsc.
Qed.

Lemma numbered_environments : Forall (λ x, cfg.(environments_) !! x.1 = Some x.2) (numbered cfg).
Proof.
  unfold numbered. apply Forall_lookup. intros n x Hx.
  rewrite list_lookup_imap in Hx. destruct (environments_ cfg !! n) as [e|] eqn:E; [|done].
  simpl in Hx. by injection Hx as <-.
Qed.

Lemma follows_run_iteration test_cases has o :
  follows (None, None) (None, None) (run_iteration cfg i test_cases has o).
Proof.
  unfold run_iteration. follow.
  - apply follows_run_environments, numbered_environments.
  - apply follows_run_cases.
  - apply follows_run_environments, Forall_reverse, numbered_environments.
Qed.
End Values.

(** The tests and the cases start every iteration without properties. *)
Lemma records_anything cfg : program_records (λ _, True) cfg.
Proof.
  assert (∀ s, records (λ _, True) s) as Hr by done.
  split; apply Forall_forall; intros x _; [|done]. do 2 (split; [done|]).
  apply Forall_forall. by repeat split.
Qed.

(** C14: Whatever happens in an iteration, with the flags break_on_failure and
    throw_on_failure off, no test or case running before, and properties before it
    without duplicate or reserved keys, the properties of every result - those of
    each test, of each case and of the program - are those that the calls of the
    user's code made during it recorded there: no key occurs twice, none is reserved
    for the report, and the value of a key is the last one recorded for it, by the
    scripts of these calls in their order, each up to where it threw, or else what
    it was before the iteration. *)
Theorem iteration_records_last_values cfg i test_cases has o u :
  cfg.(break_on_failure) = false → cfg.(throw_on_failure) = false →
  u.(current_test_case_) = None → u.(current_test_info_) = None →
  recorded (λ _, True) u →
  let u' := (run_iteration cfg i test_cases has o u).2 in
  ∃ cs, u'.(calls) = u.(calls) ++ cs ∧
    ∀ pl, NoDup (key_ <$> (result_at u' pl).(test_properties_)) ∧
      ∀ k, value_of k (result_at u' pl).(test_properties_) =
             value_after cfg i pl k cs (value_of k (result_at u pl).(test_properties_)) ∧
           (k ∈ reserved_by (element pl) →
              value_of k (result_at u' pl).(test_properties_) = None).
Proof.
  intros Hb Ht Hc Hi Hrec u'.
  pose proof (preserves_run_iteration (λ _, True) cfg i (records_anything cfg) test_cases has o u Hrec)
    as Hrec'. fold u' in Hrec'.
  destruct (follows_run_iteration cfg i Hb Ht test_cases has o u) as (_ & cs & Ecs & Hv);
    [unfold cur; by rewrite Hc, Hi|].
  exists cs. split; [done|]. intros pl.
  assert (properties_ok (λ _, True) (element pl) (result_at u' pl)) as [Hnd Hok]
    by (destruct Hrec' as [H1 H2 H3]; destruct pl; [apply H1|apply H2|apply H3]).
  split; [done|]. intros k. split; [apply Hv|]. intros Hk. clear -Hok Hk.
  induction Hok as [|p l [Hp _] _ IH]; simpl; [done|]. case_decide; [congruence|done].
Qed.

Module Example_recorded.

(** A test records a key twice, and one that is reserved. *)
Definition quiet : Script := λ _, [].
Definition notes : Script := λ _,
  [RecordProperty "retries" "1"; RecordProperty "retries" "2"; RecordProperty "time" "3"].
Definition cfg : Config :=
  mkConfig true false false false 0 1 [] true []
    [mkCaseCode quiet quiet [mkCode 0 quiet quiet notes quiet quiet]].
Definition cases : list TestCase := [mkCase [] true [mkTest [] false true true]].
Definition order : Order := mkOrder [0] [[0]] (-1) 0.
Definition start : Unit := mkUnit ∅ ∅ empty_result None None [] [].
Definition known (k : string) : Prop := k = "retries" ∨ k = "time".

Lemma start_recorded : recorded known start.
Proof.
  split; [intros t|intros c|]; unfold result_of; simpl; rewrite ?lookup_empty; apply empty_ok.
Qed.

Lemma cfg_records : program_records known cfg.
Proof.
  assert (records known quiet) as Hq by (intros i k v H; by apply not_elem_of_nil in H).
  assert (records known notes) as Hn.
  { intros i k v H. unfold notes, known in *. apply list_elem_of_In in H. simpl in H.
    destruct H as [H|[H|[H|[]]]]; simplify_eq; auto. }
  split; repeat (apply Forall_cons; split); try apply Forall_nil; try done.
  split; [done|]. split; [done|]. repeat (apply Forall_cons; split); by repeat split.
Qed.

Lemma Run_keeps_properties_witness :
  recorded known (Run cfg 0 1 cases true order start).2 ∧
  test_properties_ (result_of (Run cfg 0 1 cases true order start).2 (0, 0)%nat) =
    [mkProperty "retries" "2"].
Proof.
  split; [|vm_compute; reflexivity].
  exact (Run_keeps_properties known cfg 0 1 cases true order start cfg_records start_recorded).
Defined.

Lemma iteration_records_last_values_witness :
  ∃ cs, value_of "retries" (test_properties_
      (result_at (run_iteration cfg 0 cases true order start).2 (AtTest (0, 0)%nat))) =
    value_after cfg 0 (AtTest (0, 0)%nat) "retries" cs
      (value_of "retries" (test_properties_ (result_at start (AtTest (0, 0)%nat)))) ∧
    value_of "retries" (test_properties_
      (result_at (run_iteration cfg 0 cases true order start).2 (AtTest (0, 0)%nat))) = Some "2".
Proof.
  destruct (iteration_records_last_values cfg 0 cases true order start eq_refl eq_refl eq_refl eq_refl)
    as (cs & Hcs & H).
  - split; [intros t|intros c|]; unfold result_of; simpl; rewrite ?lookup_empty; apply empty_ok.
  - exists cs. destruct (H (AtTest (0, 0)%nat)) as [_ Hv].
    destruct (Hv "retries") as [Hv1 _]. split; [exact Hv1|]. vm_compute. reflexivity.
Defined.

End Example_recorded.
