(* ===== verification/Xml.v ===== *)
(** The XML report of Google Test ([src/lib/googletest/src/gtest.cc],
    [class XmlUnitTestResultPrinter]) over the state the runner ends an iteration with.

    A text is the list of its bytes.  Times, parameters of tests and flags are data of
    the report; how a stream prints a number of seconds and [localtime_r] are parameters.
    [None] is an abort of the program or a null pointer that is read. *)

From S2P Require Import Prelude Strings Utf8 Printers TestRun Runner.
From stdpp Require Import base gmap list strings.
From Stdlib Require Import ZArith Ascii.

Open Scope Z_scope.

(** * Characters *)

(** A [char] is signed. *)
Definition schar (c : Z) : Z := if c <? 128 then c else c - 256.

Definition IsNormalizableWhitespace (c : Z) : bool := (c =? 9) || (c =? 10) || (c =? 13).

Definition IsValidXmlCharacter (c : Z) : bool :=
  IsNormalizableWhitespace c || (0x20 <=? schar c).

(** [FormatByte]. *)
Definition FormatByte (value : Z) : list Z := hex2 value.

Definition escape_char (is_attribute : bool) (ch : Z) : list Z :=
  if ch =? 60 then text "&lt;"
  else if ch =? 62 then text "&gt;"
  else if ch =? 38 then text "&amp;"
  else if ch =? 39 then (if is_attribute then text "&apos;" else text "'")
  else if ch =? 34 then (if is_attribute then text "&quot;" else [34])
  else if IsValidXmlCharacter ch then
    if is_attribute && IsNormalizableWhitespace ch then text "&#x" ++ FormatByte ch ++ text ";"
    else [ch]
  else [].

Definition EscapeXml (str : list Z) (is_attribute : bool) : list Z :=
  StringStreamToString (str ≫= escape_char is_attribute).

Definition EscapeXmlAttribute (str : list Z) : list Z := EscapeXml str true.
Definition EscapeXmlText (str : list Z) : list Z := EscapeXml (from_c_str str) false.

Definition RemoveInvalidXmlCharacters (str : list Z) : list Z :=
  filter (λ c, IsValidXmlCharacter c = true) str.

(** * Pieces of the report *)

Fixpoint prefix_of (p l : list Z) : bool :=
  match p, l with
  | [], _ => true
  | a :: p, c :: l => (a =? c) && prefix_of p l
  | _, [] => false
  end.
Fixpoint strstr (haystack needle : list Z) : option nat :=
  if prefix_of needle haystack then Some 0%nat
  else match haystack with [] => None | _ :: haystack => S <$> strstr haystack needle end.

(** The loop over the segments; every round but the last takes three characters. *)
Fixpoint cdata_loop (fuel : nat) (segment : list Z) : list Z :=
  match fuel, strstr segment (text "]]>") with
  | S fuel, Some next_segment =>
      take next_segment segment ++ text "]]>]]&gt;<![CDATA[" ++
      cdata_loop fuel (drop (next_segment + 3) segment)
  | _, _ => segment
  end.
Definition OutputXmlCDataSection (data : list Z) : list Z :=
  text "<![CDATA[" ++ cdata_loop (length data) data ++ text "]]>".

Definition quoted (v : list Z) : list Z := [34] ++ v ++ [34].

Definition OutputXmlAttribute (element_name name : string) (value : list Z)
    : option (list Z) :=
  allowed_names ← reserved_attributes element_name;
  if decide (name ∈ allowed_names) then
    Some (text " " ++ text name ++ text "=" ++ quoted (EscapeXmlAttribute value))
  else None.

Definition output_attributes (element_name : string) (l : list (string * list Z))
    : option (list Z) :=
  @concat Z <$> mapM (λ a, OutputXmlAttribute element_name a.1 a.2) l.

Definition TestPropertiesAsXmlAttributes (r : TestResult) : list Z :=
  StringStreamToString (r.(test_properties_) ≫= λ p,
    text " " ++ from_c_str (text p.(key_)) ++ text "=" ++
    quoted (EscapeXmlAttribute (from_c_str (text p.(value_))))).

(** [FormatIntWidth2]. *)
Definition FormatIntWidth2 (value : Z) : list Z :=
  let s := text (to_string value) in replicate (2 - length s) 48 ++ s.

Record tm := mkTm { tm_year : Z; tm_mon : Z; tm_mday : Z; tm_hour : Z; tm_min : Z; tm_sec : Z }.

Definition FormatEpochTimeInMillisAsIso8601 (localtime_r : Z → option tm) (ms : Z) : list Z :=
  match localtime_r (Z.quot ms 1000) with
  | None => []
  | Some t =>
      text (to_string (t.(tm_year) + 1900)) ++ text "-" ++
      FormatIntWidth2 (t.(tm_mon) + 1) ++ text "-" ++
      FormatIntWidth2 t.(tm_mday) ++ text "T" ++
      FormatIntWidth2 t.(tm_hour) ++ text ":" ++
      FormatIntWidth2 t.(tm_min) ++ text ":" ++ FormatIntWidth2 t.(tm_sec)
  end.

(** ** Results *)

Definition kStackTraceMarker : list Z := [10] ++ text "Stack trace:" ++ [10].

Definition ExtractSummary (message : list Z) : list Z :=
  match strstr message kStackTraceMarker with
  | None => message
  | Some i => take i message
  end.

(** [file_name()]: an empty name is none. *)
Definition part_file (p : TestPartResult) : option string :=
  match p.(file_name) with Some "" => None | f => f end.

Definition FormatCompilerIndependentFileLocation (file : option string) (line : Z) : list Z :=
  let file_name := match file with None => text "unknown file" | Some f => from_c_str (text f) end in
  if line <? 0 then file_name else file_name ++ text ":" ++ text (to_string line).

Definition output_failure (p : TestPartResult) : list Z :=
  let location := FormatCompilerIndependentFileLocation (part_file p) p.(line_number) in
  let message := from_c_str (text p.(message)) in
  let summary := location ++ [10] ++ ExtractSummary message in
  let detail := location ++ [10] ++ message in
  text "      <failure message=" ++ quoted (EscapeXmlAttribute (from_c_str summary)) ++
  text " type=" ++ quoted [] ++ text ">" ++
  OutputXmlCDataSection (from_c_str (RemoveInvalidXmlCharacters detail)) ++
  text "</failure>" ++ [10].

(** The loop over the parts, [failures] so far; the text and the failures in all. *)
Fixpoint output_parts (failures : nat) (l : list TestPartResult) : list Z * nat :=
  match l with
  | [] => ([], failures)
  | p :: l =>
      if failed p then
        let '(rest, n) := output_parts (S failures) l in
        ((if decide (S failures = 1%nat) then text ">" ++ [10] else []) ++
         output_failure p ++ rest, n)
      else output_parts failures l
  end.

(** * The report *)

(** What the report tells besides the results. *)
Record Info := mkInfo {
  type_param : TestId → option string;
  value_param : TestId → option string;
  elapsed_time : TestId → Z;
  case_elapsed_time : nat → Z;
  unit_elapsed_time : Z;
  start_timestamp : Z;
  xml_shuffle : bool;
  random_seed : Z
}.

Definition is_reportable (t : TestInfo) : bool := t.(matches_filter_).

Definition reportable_test_count (info : TestCase) : Z :=
  Z.of_nat (count_true is_reportable info.(test_info_list)).
Definition reportable_disabled_test_count (info : TestCase) : Z :=
  Z.of_nat (count_true (λ t, is_reportable t && t.(is_disabled_)) info.(test_info_list)).
Definition failed_test_count (u : Unit) (c : nat) (info : TestCase) : Z :=
  Z.of_nat (count_true (λ x, x.2.(should_run_) && ResultFailed (result_of u (c, x.1)))
              (imap pair info.(test_info_list))).

(** [SumOverTestCaseList], of a method of the cases by their number. *)
Definition SumOverTestCaseList (method : nat → TestCase → Z) (test_cases : list TestCase) : Z :=
  foldl Z.add 0 (imap method test_cases).

Definition name_text (name : list ascii) : list Z := from_c_str (code <$> name).

Section Report.
(** [ms * 1e-3], as a stream prints it. *)
Variable FormatTimeInMillisAsSeconds : Z → string.
Variable localtime_r : Z → option tm.
Variable i : Info.
Variable u : Unit.

Definition OutputXmlTestInfo (test_case_name : list Z) (t : TestId) (info : TestInfo)
    : option (list Z) :=
  let result := result_of u t in
  attributes ← output_attributes "testcase"
    ([("name", name_text info.(test_name))] ++
     (match i.(value_param) t with Some v => [("value_param", from_c_str (text v))] | None => [] end) ++
     (match i.(type_param) t with Some v => [("type_param", from_c_str (text v))] | None => [] end) ++
     [("status", if info.(should_run_) then text "run" else text "notrun");
      ("time", text (FormatTimeInMillisAsSeconds (i.(elapsed_time) t)));
      ("classname", test_case_name)]);
  let '(parts, failures) := output_parts 0 result.(test_part_results_) in
  Some (text "    <testcase" ++ attributes ++ TestPropertiesAsXmlAttributes result ++ parts ++
        (if decide (failures = 0%nat) then text " />" ++ [10]
         else text "    </testcase>" ++ [10])).

(** The loop over the positions of the tests of a case. *)
Fixpoint output_tests (c : nat) (case : TestCase) (indices : list Z) (positions : list nat)
    : option (list Z) :=
  match positions with
  | [] => Some []
  | pos :: positions =>
      let index := GetElementOr indices (Z.of_nat pos) (-1) in
      if index <? 0 then None
      else
        info ← case.(test_info_list) !! Z.to_nat index;
        out ← (if is_reportable info
               then OutputXmlTestInfo (name_text case.(case_name)) (c, Z.to_nat index) info
               else Some []);
        rest ← output_tests c case indices positions;
        Some (out ++ rest)
  end.

Definition PrintXmlTestCase (c : nat) (case : TestCase) (indices : list Z) : option (list Z) :=
  attributes ← output_attributes "testsuite"
    [("name", name_text case.(case_name));
     ("tests", text (to_string (reportable_test_count case)));
     ("failures", text (to_string (failed_test_count u c case)));
     ("disabled", text (to_string (reportable_disabled_test_count case)));
     ("errors", text "0");
     ("time", text (FormatTimeInMillisAsSeconds (i.(case_elapsed_time) c)))];
  tests ← output_tests c case indices (seq 0 (length case.(test_info_list)));
  Some (text "  <testsuite" ++ attributes ++
        TestPropertiesAsXmlAttributes (default empty_result (u.(case_ad_hoc) !! c)) ++
        text ">" ++ [10] ++ tests ++ text "  </testsuite>" ++ [10]).

(** The loop over the test cases. *)
Fixpoint output_cases (test_cases : list TestCase) (o : Order) (numbers : list nat)
    : option (list Z) :=
  match numbers with
  | [] => Some []
  | c :: numbers =>
      case ← GetTestCase test_cases o (Z.of_nat c);
      out ← (if 0 <? reportable_test_count case then
               indices ← o.(test_indices_) !! c; PrintXmlTestCase c case indices
             else Some []);
      rest ← output_cases test_cases o numbers;
      Some (out ++ rest)
  end.

Definition PrintXmlUnitTest (test_cases : list TestCase) (o : Order) : option (list Z) :=
  attributes ← output_attributes "testsuites"
    ([("tests", text (to_string (SumOverTestCaseList (λ _, reportable_test_count) test_cases)));
      ("failures", text (to_string (SumOverTestCaseList (failed_test_count u) test_cases)));
      ("disabled",
        text (to_string (SumOverTestCaseList (λ _, reportable_disabled_test_count) test_cases)));
      ("errors", text "0");
      ("timestamp", FormatEpochTimeInMillisAsIso8601 localtime_r i.(start_timestamp));
      ("time", text (FormatTimeInMillisAsSeconds i.(unit_elapsed_time)))] ++
     (if i.(xml_shuffle) then [("random_seed", text (to_string i.(random_seed)))] else []));
  name ← OutputXmlAttribute "testsuites" "name" (text "AllTests");
  cases ← output_cases test_cases o (seq 0 (length test_cases));
  Some (text "<?xml version=" ++ quoted (text "1.0") ++ text " encoding=" ++
        quoted (text "UTF-8") ++ text "?>" ++ [10] ++
        text "<testsuites" ++ attributes ++
        TestPropertiesAsXmlAttributes u.(ad_hoc_test_result_) ++ name ++
        text ">" ++ [10] ++ cases ++ text "</testsuites>" ++ [10]).

End Report.
