(* ===== verification/XmlFacts.v ===== *)
(** The XML report is XML: a grammar of documents, and that the report of every run is
    one, with the attributes and the texts of [report_tree]. *)

From S2P Require Import Prelude Strings Utf8 Printers PrintersFacts TestRun TestRunFacts Runner RunnerFacts RecordedFacts Xml.
From stdpp Require Import base gmap list strings sets.
From Stdlib Require Import ZArith Lia Ascii.

Open Scope Z_scope.

(** * A part of XML 1.0

    Documents of ASCII characters without comments, processing instructions and
    namespaces, before the normalisation of line ends.  A content is a list of
    characters and elements. *)

Inductive Xml := Char (c : Z) | Element (name : list Z) (attributes : list (list Z * list Z))
  (content : list Xml).

Definition xml_char (c : Z) : Prop := c = 9 ∨ c = 10 ∨ c = 13 ∨ 32 <= c < 128.
Definition space (c : Z) : bool := (c =? 9) || (c =? 10) || (c =? 13).

Definition name_start (c : Z) : bool :=
  ((65 <=? c) && (c <=? 90)) || ((97 <=? c) && (c <=? 122)) || (c =? 95) || (c =? 58).
Definition name_char (c : Z) : bool :=
  name_start c || ((48 <=? c) && (c <=? 57)) || (c =? 45) || (c =? 46).
Definition is_name (n : list Z) : bool :=
  match n with [] => false | c :: n => name_start c && forallb name_char n end.

Inductive reference : list Z → Z → Prop :=
  | ref_lt : reference (text "lt") 60
  | ref_gt : reference (text "gt") 62
  | ref_amp : reference (text "amp") 38
  | ref_apos : reference (text "apos") 39
  | ref_quot : reference (text "quot") 34
  | ref_hex a b : isxdigit a = true → isxdigit b = true →
      xml_char (16 * hex_value a + hex_value b) →
      reference (text "#x" ++ [a; b]) (16 * hex_value a + hex_value b).

(** What is between the quotes, and the value it stands for. *)
Inductive att_value : list Z → list Z → Prop :=
  | av_nil : att_value [] []
  | av_char c raw v : xml_char c → c ≠ 60 → c ≠ 38 → c ≠ 34 → att_value raw v →
      att_value (c :: raw) ((if space c then 32 else c) :: v)
  | av_ref name c raw v : reference name c → att_value raw v →
      att_value ([38] ++ name ++ [59] ++ raw) (c :: v).

Inductive attributes : list Z → list (list Z * list Z) → Prop :=
  | at_nil : attributes [] []
  | at_cons name raw v rest l : is_name name = true → att_value raw v → name ∉ l.*1 →
      attributes rest l → attributes ([32] ++ name ++ [61; 34] ++ raw ++ [34] ++ rest) ((name, v) :: l).

Inductive content : list Z → list Xml → Prop :=
  | co_nil : content [] []
  | co_char c s l : xml_char c → c ≠ 60 → c ≠ 38 → c ≠ 62 → content s l →
      content (c :: s) (Char c :: l)
  | co_ref name c s l : reference name c → content s l →
      content ([38] ++ name ++ [59] ++ s) (Char c :: l)
  | co_cdata d s l : Forall xml_char d → strstr d (text "]]>") = None → content s l →
      content (text "<![CDATA[" ++ d ++ text "]]>" ++ s) ((Char <$> d) ++ l)
  | co_element e x s l : element e x → content s l → content (e ++ s) (x :: l)
with element : list Z → Xml → Prop :=
  | el_empty name raw l : is_name name = true → attributes raw l →
      element ([60] ++ name ++ raw ++ text " />") (Element name l [])
  | el_content name raw l s x : is_name name = true → attributes raw l → content s x →
      element ([60] ++ name ++ raw ++ [62] ++ s ++ text "</" ++ name ++ [62]) (Element name l x).

Definition prolog : list Z :=
  text "<?xml version=" ++ quoted (text "1.0") ++ text " encoding=" ++ quoted (text "UTF-8") ++
  text "?>" ++ [10].

Inductive document : list Z → Xml → Prop :=
  | doc_element e x : element e x → document (prolog ++ e ++ [10]) x.

Lemma content_app s l s' l' : content s l → content s' l' → content (s ++ s') (l ++ l').
Proof.
  intros H H'. induction H as [|c s l H1 H2 H3 H4 _ IH|n c s l Hr _ IH|d s l Hd Hs _ IH|e x s l He _ IH];
    simpl; [done|by constructor| | |].
  - rewrite <-app_assoc. simpl. by apply (co_ref n).
  - rewrite <-!app_assoc. by apply (co_cdata d).
  - rewrite <-app_assoc. by apply co_element.
Qed.

Lemma content_chars (s : list Z) :
  Forall (λ c, xml_char c ∧ c ≠ 60 ∧ c ≠ 38 ∧ c ≠ 62) s → content s (Char <$> s).
Proof. induction 1 as [|c s (? & ? & ? & ?) _ IH]; [constructor|by constructor]. Qed.

Lemma content_element e x : element e x → content e [x].
Proof. intros H. rewrite <-(app_nil_r e). apply co_element; [done|constructor]. Qed.

Lemma attributes_app s l s' l' :
  attributes s l → attributes s' l' → (∀ n, n ∈ l.*1 → n ∉ l'.*1) →
  attributes (s ++ s') (l ++ l').
Proof.
  intros H H'. induction H as [|n raw v s l Hn Hv Hnin _ IH]; intros Hd; [done|].
  rewrite <-!app_assoc. simpl. apply (at_cons n raw v (s ++ s') (l ++ l')); [done|done| |].
  - rewrite fmap_app, elem_of_app. intros [?|?]; [done|]. by apply (Hd n); [left|].
  - apply IH. intros m Hm. apply Hd. by right.
Qed.

(** * Escaping *)

Definition is_byte (c : Z) : Prop := 0 <= c < 256.

Lemma text_bytes s : Forall is_byte (text s).
Proof.
  unfold text. apply Forall_fmap, Forall_true. intros c. unfold is_byte, code. simpl.
  pose proof (N_ascii_bounded c). lia.
Qed.

Lemma name_bytes (l : list ascii) : Forall is_byte (code <$> l).
Proof.
  apply Forall_fmap, Forall_true. intros c. unfold is_byte, code. simpl.
  pose proof (N_ascii_bounded c). lia.
Qed.

Lemma from_c_str_sub (P : Z → Prop) l : Forall P l → Forall P (from_c_str l).
Proof. induction 1 as [|c l Hc _ IH]; simpl; [constructor|]. case_match; by constructor. Qed.

Lemma valid_char c : is_byte c → IsValidXmlCharacter c = true → xml_char c.
Proof.
  unfold is_byte, IsValidXmlCharacter, IsNormalizableWhitespace, schar, xml_char. intros Hb H.
  destruct (c <? 128) eqn:E; [apply Z.ltb_lt in E|apply Z.ltb_ge in E]; lia.
Qed.

Lemma nonzero_stream l : Forall (λ c, c ≠ 0) l → StringStreamToString l = l.
Proof.
  unfold StringStreamToString. induction 1 as [|c l Hc _ IH]; [done|]. rewrite bind_cons, IH.
  by rewrite (proj2 (Z.eqb_neq c 0)).
Qed.

Lemma escape_char_nonzero attr c : Forall (λ c, c ≠ 0) (escape_char attr c).
Proof.
  unfold escape_char. repeat (case_match; [destruct attr; by repeat constructor|]).
  destruct (IsValidXmlCharacter c) eqn:E; [|constructor].
  destruct (attr && IsNormalizableWhitespace c) eqn:E2.
  - apply andb_true_iff in E2 as [_ E2]. unfold IsNormalizableWhitespace in E2.
    apply orb_true_iff in E2 as [E2|E2]; [apply orb_true_iff in E2 as [E2|E2]|];
      apply Z.eqb_eq in E2; subst; by repeat constructor.
  - constructor; [|constructor]. intros ->. done.
Qed.

Lemma EscapeXml_bind str attr : EscapeXml str attr = str ≫= escape_char attr.
Proof.
  unfold EscapeXml. apply nonzero_stream. induction str as [|c str IH]; [constructor|].
  rewrite bind_cons. apply Forall_app. split; [apply escape_char_nonzero|done].
Qed.

(** What a text is in the report. *)
#[local] Notation clean := RemoveInvalidXmlCharacters (only parsing).

(** A character of an attribute. *)
Lemma escape_attribute c raw v :
  is_byte c → att_value raw v →
  att_value (escape_char true c ++ raw) (clean [c] ++ v).
Proof.
  intros Hb Hr. unfold escape_char, clean.
  assert (∀ d : Z, IsValidXmlCharacter d = true → filter (λ c, IsValidXmlCharacter c = true) [d] = [d])
    as Hf by (intros d Hd; by rewrite filter_cons_True).
  destruct (c =? 60) eqn:E1; [apply Z.eqb_eq in E1 as ->; rewrite Hf by done; apply (av_ref (text "lt")); [constructor|done]|].
  destruct (c =? 62) eqn:E2; [apply Z.eqb_eq in E2 as ->; rewrite Hf by done; apply (av_ref (text "gt")); [constructor|done]|].
  destruct (c =? 38) eqn:E3; [apply Z.eqb_eq in E3 as ->; rewrite Hf by done; apply (av_ref (text "amp")); [constructor|done]|].
  destruct (c =? 39) eqn:E4; [apply Z.eqb_eq in E4 as ->; rewrite Hf by done; apply (av_ref (text "apos")); [constructor|done]|].
  destruct (c =? 34) eqn:E5; [apply Z.eqb_eq in E5 as ->; rewrite Hf by done; apply (av_ref (text "quot")); [constructor|done]|].
  apply Z.eqb_neq in E1, E2, E3, E4, E5.
  destruct (IsValidXmlCharacter c) eqn:E; [|by rewrite filter_cons_False by congruence].
  rewrite Hf by done. destruct (IsNormalizableWhitespace c) eqn:Ew; simpl.
  - unfold IsNormalizableWhitespace in Ew.
    apply orb_true_iff in Ew as [Ew|Ew]; [apply orb_true_iff in Ew as [Ew|Ew]|];
      apply Z.eqb_eq in Ew; subst c.
    + apply (av_ref (text "#x" ++ [48; 57]) 9); [|done]. apply (ref_hex 48 57); [done..|]. by left.
    + apply (av_ref (text "#x" ++ [48; 65]) 10); [|done]. apply (ref_hex 48 65); [done..|]. by right; left.
    + apply (av_ref (text "#x" ++ [48; 68]) 13); [|done]. apply (ref_hex 48 68); [done..|].
      by right; right; left.
  - pose proof (av_char c raw v (valid_char c Hb E) E1 E3 E5 Hr) as H.
    unfold space in H. unfold IsNormalizableWhitespace in Ew. by rewrite Ew in H.
Qed.

(** Every attribute reads back as the characters that are valid. *)
Lemma EscapeXmlAttribute_reads str :
  Forall is_byte str → att_value (EscapeXmlAttribute str) (clean str).
Proof.
  unfold EscapeXmlAttribute. rewrite EscapeXml_bind.
  induction 1 as [|c str Hc _ IH]; [constructor|]. rewrite bind_cons.
  change (c :: str) with ([c] ++ str). unfold clean. rewrite filter_app.
  by apply escape_attribute.
Qed.

(** * CDATA sections *)

Lemma prefix_of_spec p l : prefix_of p l = true → l = p ++ drop (length p) l.
Proof.
  revert l. induction p as [|a p IH]; intros [|c l]; try done. simpl.
  intros [->%Z.eqb_eq H]%andb_true_iff. f_equal. by apply IH.
Qed.

Lemma prefix_of_app p l l' : prefix_of p l = true → prefix_of p (l ++ l') = true.
Proof.
  revert l. induction p as [|a p IH]; intros [|c l]; try done. simpl.
  intros [-> H]%andb_true_iff. simpl. by apply IH.
Qed.

(** The first occurrence, and none before it. *)
Lemma strstr_Some h n i :
  n ≠ [] → strstr h n = Some i →
  h = take i h ++ n ++ drop (i + length n) h ∧ strstr (take i h) n = None.
Proof.
  intros Hn. revert i. induction h as [|c h IH]; intros i; cbn [strstr];
    destruct (prefix_of n _) eqn:E; intros H; simplify_eq.
  - by destruct n.
  - split; [by apply prefix_of_spec|]. by destruct n.
  - destruct (strstr h n) as [j|] eqn:Ej; simplify_eq/=.
    destruct (IH j eq_refl) as [H1 H2]. split; [by f_equal|]. rewrite H2.
    destruct (prefix_of n (c :: take j h)) eqn:E2; [|done].
    pose proof (prefix_of_app _ _ (drop j h) E2) as E3. simpl in E3. rewrite take_drop in E3.
    congruence.
Qed.

Lemma cdata_loop_content fuel d s l :
  (length d <= fuel)%nat → Forall xml_char d → content s l →
  content (text "<![CDATA[" ++ cdata_loop fuel d ++ text "]]>" ++ s) ((Char <$> d) ++ l).
Proof.
  revert d s l. induction fuel as [|fuel IH]; intros d s l Hf Hd Hs.
  { destruct d; [|simpl in Hf; lia]. by apply (co_cdata []). }
  cbn [cdata_loop]. destruct (strstr d (text "]]>")) as [i|] eqn:E; [|by apply co_cdata].
  destruct (strstr_Some _ (text "]]>") _ ltac:(by compute) E) as [H1 H2].
  change (length (text "]]>")) with 3%nat in H1.
  set (a := take i d) in *. set (b := drop (i + 3) d) in *. clearbody a b. subst d.
  apply Forall_app in Hd as [Ha [_ Hb]%Forall_app]. rewrite !length_app in Hf.
  change (length (text "]]>")) with 3%nat in Hf.
  rewrite !fmap_app, <-!app_assoc.
  change (text "]]>]]&gt;<![CDATA[") with (text "]]>" ++ ([93; 93] ++ [38] ++ text "gt" ++ [59] ++ text "<![CDATA[")).
  rewrite <-!app_assoc. apply (co_cdata a); [done|done|].
  change (Char <$> text "]]>") with [Char 93; Char 93; Char 62]. simpl.
  apply co_char; [unfold xml_char; lia|done..|].
  apply co_char; [unfold xml_char; lia|done..|].
  apply (co_ref (text "gt") 62); [constructor|]. apply IH; [lia|done|done].
Qed.

(** A CDATA section, or several, with the text given. *)
Lemma OutputXmlCDataSection_reads d :
  Forall xml_char d → content (OutputXmlCDataSection d) (Char <$> d).
Proof.
  intros Hd. pose proof (cdata_loop_content (length d) d [] [] (le_n _) Hd co_nil) as H.
  by rewrite !app_nil_r in H.
Qed.

Lemma clean_chars d : Forall is_byte d → Forall xml_char (clean d).
Proof.
  intros Hd. apply Forall_forall. intros c [Hv Hin]%list_elem_of_filter.
  apply valid_char; [|done]. by eapply Forall_forall in Hd.
Qed.

Lemma clean_nonzero d : Forall (λ c, c ≠ 0) (clean d).
Proof. apply Forall_forall. by intros c [Hv Hin]%list_elem_of_filter ->. Qed.

Lemma from_c_str_id l : Forall (λ c, c ≠ 0) l → from_c_str l = l.
Proof.
  induction 1 as [|c l Hc _ IH]; [done|]. cbn [from_c_str]. rewrite (proj2 (Z.eqb_neq c 0)) by done.
  by rewrite IH.
Qed.

(** * Attributes *)

Lemma text_inj s t : text s = text t → s = t.
Proof.
  revert t. induction s as [|a s IH]; intros [|b t] H; try done.
  unfold text in H. simpl in H. injection H as H1 H2. f_equal; [|by apply IH].
  unfold code in H1. apply N2Z.inj in H1. by rewrite <-(ascii_N_embedding a), H1, ascii_N_embedding.
Qed.

Definition attr (a : string * list Z) : list Z * list Z := (text a.1, clean a.2).

Lemma reserved_names el : Forall (λ n, is_name (text n) = true) (reserved_by el).
Proof.
  unfold reserved_by, reserved_attributes.
  repeat (destruct (decide _); [by repeat constructor|]). constructor.
Qed.

Lemma not_in_attrs (n : string) (l : list (string * list Z)) :
  n ∉ l.*1 → text n ∉ (attr <$> l).*1.
Proof.
  intros Hn (x & Hx & (a & -> & Ha)%list_elem_of_fmap)%list_elem_of_fmap.
  apply text_inj in Hx as ->. apply Hn. apply list_elem_of_fmap. by exists a.
Qed.

Lemma at_output name raw v rest l :
  is_name name = true → att_value raw v → name ∉ l.*1 → attributes rest l →
  attributes ((text " " ++ name ++ text "=" ++ quoted raw) ++ rest) ((name, v) :: l).
Proof.
  intros. unfold quoted. rewrite <-!app_assoc. by apply (at_cons name raw v rest l).
Qed.

Lemma OutputXmlAttribute_ok el n v :
  n ∈ reserved_by el →
  OutputXmlAttribute el n v =
    Some (text " " ++ text n ++ text "=" ++ quoted (EscapeXmlAttribute v)).
Proof.
  unfold OutputXmlAttribute, reserved_by. destruct (reserved_attributes el) as [res|]; simpl.
  - intros Hn. by rewrite decide_True.
  - by intros ?%not_elem_of_nil.
Qed.

(** The attributes of the report itself: all are allowed, so nothing aborts. *)
Lemma output_attributes_ok el l :
  l.*1 ⊆ reserved_by el → NoDup l.*1 → Forall (λ a, Forall is_byte a.2) l →
  ∃ raw, output_attributes el l = Some raw ∧ attributes raw (attr <$> l).
Proof.
  unfold output_attributes. induction l as [|[n v] l IH]; intros Hsub Hnd Hb.
  { exists []. split; [done|constructor]. }
  apply NoDup_cons in Hnd as [Hnin Hnd]. apply Forall_cons in Hb as [Hv Hb].
  destruct IH as (raw & E & Hraw); [set_solver|done|done|].
  destruct (mapM _ l) as [raws|] eqn:Em; [|done]. simpl in E. injection E as <-.
  assert (n ∈ reserved_by el) as Hn by (apply Hsub; by left).
  cbn [mapM fst snd]. rewrite (OutputXmlAttribute_ok el n v Hn). cbn [mbind option_bind]. rewrite Em.
  eexists. split; [done|]. rewrite fmap_cons. cbn [concat].
  apply (at_output (text n) (EscapeXmlAttribute v) (clean v) (concat raws) (attr <$> l)).
  - pose proof (reserved_names el) as Hres. by eapply Forall_forall in Hres.
  - by apply EscapeXmlAttribute_reads.
  - by apply not_in_attrs.
  - done.
Qed.

(** The keys that make attributes. *)
Definition is_xml_name (key : string) : Prop := is_name (text key) = true.

Definition properties (r : TestResult) : list (string * list Z) :=
  (λ p, (p.(key_), from_c_str (text p.(value_)))) <$> r.(test_properties_).

Lemma properties_keys (l : list TestProperty) :
  ((λ p, (p.(key_), from_c_str (text p.(value_)))) <$> l).*1 = key_ <$> l.
Proof. rewrite <-list_fmap_compose. by apply list_fmap_ext. Qed.

Lemma is_name_nonzero n : is_name n = true → Forall (λ c, c ≠ 0) n.
Proof.
  destruct n as [|c n]; [done|]. simpl. intros [Hc Hn]%andb_true_iff. constructor.
  - by intros ->.
  - rewrite forallb_forall in Hn. apply Forall_forall. intros d Hd ->.
    rewrite list_elem_of_In in Hd. by apply Hn in Hd.
Qed.

Lemma TestProperties_ok el r :
  properties_ok is_xml_name el r →
  attributes (TestPropertiesAsXmlAttributes r) (attr <$> properties r).
Proof.
  unfold TestPropertiesAsXmlAttributes, properties. intros [Hnd Hl].
  destruct r as [ps l]. cbn [test_properties_] in *. clear ps. rewrite nonzero_stream.
  - induction l as [|[k v] l IH]; [constructor|].
    apply NoDup_cons in Hnd as [Hnin Hnd]. apply Forall_cons in Hl as [[_ Hk] Hl].
    simpl in Hk, Hnin. rewrite bind_cons. cbn [key_ value_].
    unfold is_xml_name in Hk. rewrite from_c_str_id by (by apply is_name_nonzero).
    apply (at_output (text k) _ (clean (from_c_str (text v)))); [done| | |by apply IH].
    + apply EscapeXmlAttribute_reads, from_c_str_sub, text_bytes.
    + apply not_in_attrs. rewrite properties_keys. exact Hnin.
  - clear Hnd. induction l as [|[k v] l IH]; [constructor|].
    apply Forall_cons in Hl as [[_ Hk] Hl]. rewrite bind_cons. apply Forall_app. split; [|by apply IH].
    cbn [key_ value_]. unfold is_xml_name in Hk. simpl in Hk.
    rewrite from_c_str_id by (by apply is_name_nonzero). unfold quoted.
    rewrite !Forall_app. split_and!; try (by repeat constructor); [by apply is_name_nonzero|].
    unfold EscapeXmlAttribute. rewrite EscapeXml_bind.
    induction (from_c_str (text v)) as [|c s IHs]; [constructor|]. rewrite bind_cons.
    apply Forall_app. split; [apply escape_char_nonzero|done].
Qed.

(** * What the report says *)

Definition chars (s : list Z) : list Xml := Char <$> s.

Definition location (p : TestPartResult) : list Z :=
  FormatCompilerIndependentFileLocation (part_file p) p.(line_number).
Definition failure_summary (p : TestPartResult) : list Z :=
  location p ++ [10] ++ ExtractSummary (from_c_str (text p.(message))).
Definition failure_detail (p : TestPartResult) : list Z :=
  location p ++ [10] ++ from_c_str (text p.(message)).

(** A failure: its message is the summary, without the stack trace; its text is all of
    the message. *)
Definition failure_tree (p : TestPartResult) : list Xml :=
  chars (text "      ") ++
  [Element (text "failure")
     [attr ("message", from_c_str (failure_summary p)); (text "type", [])]
     (chars (clean (failure_detail p)))] ++
  chars [10].

Definition failures_of (r : TestResult) : list TestPartResult :=
  filter (λ p, failed p = true) r.(test_part_results_).

Lemma space_content s : Forall (λ c, c = 10 ∨ c = 32) s → content s (chars s).
Proof.
  intros H. apply content_chars. eapply Forall_impl; [exact H|].
  unfold xml_char. intros c [->| ->]; lia.
Qed.

Lemma location_bytes p : Forall is_byte (location p).
Proof.
  unfold location, FormatCompilerIndependentFileLocation.
  assert (Forall is_byte (match part_file p with
    None => text "unknown file" | Some f => from_c_str (text f) end)) as H
    by (destruct (part_file p); [apply from_c_str_sub|]; apply text_bytes).
  destruct (_ <? 0); [done|]. rewrite !Forall_app. split_and!; [done|apply text_bytes..].
Qed.

Lemma message_bytes p : Forall is_byte (from_c_str (text (message p))).
Proof. apply from_c_str_sub, text_bytes. Qed.

Lemma summary_bytes p : Forall is_byte (failure_summary p).
Proof.
  unfold failure_summary. rewrite !Forall_app. split_and!; [apply location_bytes|by repeat constructor|].
  unfold ExtractSummary. destruct (strstr _ _) as [k|]; [apply Forall_take|]; apply message_bytes.
Qed.

Lemma detail_bytes p : Forall is_byte (failure_detail p).
Proof.
  unfold failure_detail. rewrite !Forall_app.
  split_and!; [apply location_bytes|by repeat constructor|apply message_bytes].
Qed.

Lemma output_failure_content p : content (output_failure p) (failure_tree p).
Proof.
  unfold output_failure, failure_tree.
  fold (location p). fold (failure_summary p). fold (failure_detail p).
  apply (content_app (text "      ")); [apply space_content; repeat constructor; by right|].
  rewrite (from_c_str_id (clean _)) by apply clean_nonzero.
  change ([Element ?n ?a ?x] ++ chars [10]) with (Element n a x :: chars [10]).
  match goal with |- content ?s _ =>
    assert (s = ([60] ++ text "failure" ++
      ((text " " ++ text "message" ++ text "=" ++
         quoted (EscapeXmlAttribute (from_c_str (failure_summary p)))) ++
       (text " " ++ text "type" ++ text "=" ++ quoted []) ++ []) ++ [62] ++
      OutputXmlCDataSection (clean (failure_detail p)) ++ text "</" ++ text "failure" ++ [62])
      ++ [10]) as ->
  end.
  { generalize (EscapeXmlAttribute (from_c_str (failure_summary p))) as a.
    generalize (OutputXmlCDataSection (clean (failure_detail p))) as d. intros d a.
    unfold quoted. rewrite <-!app_assoc. reflexivity. }
  apply co_element; [|apply space_content; repeat constructor; by left].
  apply el_content; [done| |].
  - apply at_output; [done| | |].
    + apply EscapeXmlAttribute_reads, from_c_str_sub, summary_bytes.
    + exact (bool_decide_unpack (text "message" ∉ [text "type"]) I).
    + apply (at_output (text "type") [] []); [done|constructor| |constructor].
      apply not_elem_of_nil.
  - apply OutputXmlCDataSection_reads, clean_chars, detail_bytes.
Qed.

Lemma output_parts_spec n l :
  output_parts n l =
    ((if decide (n = 0%nat ∧ filter (λ p, failed p = true) l ≠ []) then text ">" ++ [10] else [])
      ++ (filter (λ p, failed p = true) l ≫= output_failure),
     (n + length (filter (λ p, failed p = true) l))%nat).
Proof.
  revert n. induction l as [|p l IH]; intros n.
  { rewrite decide_False by (intros [_ []]; done). simpl. f_equal. lia. }
  cbn [output_parts]. destruct (failed p) eqn:E.
  - rewrite IH, filter_cons_True by done.
    rewrite (decide_False (P := S n = 0%nat ∧ _)) by (by intros [? _]).
    rewrite bind_cons, app_nil_l. cbn [length]. rewrite Nat.add_succ_comm. f_equal.
    destruct n as [|n].
    + by rewrite !decide_True.
    + rewrite !decide_False; [done|by intros [? _]|lia].
  - by rewrite IH, filter_cons_False by congruence.
Qed.

Section Tree.
Variable FormatTimeInMillisAsSeconds : Z → string.
Variable localtime_r : Z → option tm.
Variable i : Info.
Variable u : Unit.
Variable test_cases : list TestCase.
#[local] Notation seconds := FormatTimeInMillisAsSeconds.

Definition optional (name : string) (v : option string) : list (string * list Z) :=
  match v with Some v => [(name, from_c_str (text v))] | None => [] end.

Definition test_attributes (test_case_name : list Z) (t : TestId) (info : TestInfo)
    : list (string * list Z) :=
  [("name", name_text info.(test_name))] ++
  optional "value_param" (i.(value_param) t) ++ optional "type_param" (i.(type_param) t) ++
  [("status", if info.(should_run_) then text "run" else text "notrun");
   ("time", text (seconds (i.(elapsed_time) t))); ("classname", test_case_name)].

Definition case_attributes (c : nat) (case : TestCase) : list (string * list Z) :=
  [("name", name_text case.(case_name));
   ("tests", text (to_string (reportable_test_count case)));
   ("failures", text (to_string (failed_test_count u c case)));
   ("disabled", text (to_string (reportable_disabled_test_count case)));
   ("errors", text "0");
   ("time", text (seconds (i.(case_elapsed_time) c)))].

Definition unit_attributes : list (string * list Z) :=
  [("tests", text (to_string (SumOverTestCaseList (λ _, reportable_test_count) test_cases)));
   ("failures", text (to_string (SumOverTestCaseList (failed_test_count u) test_cases)));
   ("disabled",
     text (to_string (SumOverTestCaseList (λ _, reportable_disabled_test_count) test_cases)));
   ("errors", text "0");
   ("timestamp", FormatEpochTimeInMillisAsIso8601 localtime_r i.(start_timestamp));
   ("time", text (seconds i.(unit_elapsed_time)))] ++
  (if i.(xml_shuffle) then [("random_seed", text (to_string i.(random_seed)))] else []).

(** The element of a test, and its lines in the report. *)
Definition test_tree (test_case_name : list Z) (t : TestId) (info : TestInfo) : Xml :=
  let r := result_of u t in
  Element (text "testcase") (attr <$> test_attributes test_case_name t info ++ properties r)
    (match failures_of r with
     | [] => []
     | l => chars [10] ++ (l ≫= failure_tree) ++ chars (text "    ")
     end).
Definition line (indent : string) (e : Xml) : list Xml := chars (text indent) ++ e :: chars [10].

(** The tests of a case that are reported, in the order of the run. *)
Definition reported_tests (case : TestCase) (order : list nat) : list (nat * TestInfo) :=
  omap (λ j, info ← case.(test_info_list) !! j;
             if is_reportable info then Some (j, info) else None) order.

Definition case_tree (order : nat → list nat) (c : nat) (case : TestCase) : Xml :=
  Element (text "testsuite")
    (attr <$> case_attributes c case ++ properties (default empty_result (u.(case_ad_hoc) !! c)))
    (chars [10] ++
     (reported_tests case (order c) ≫= λ x,
        line "    " (test_tree (name_text case.(case_name)) (c, x.1) x.2)) ++
     chars (text "  ")).

(** The cases with such tests, in the order of their registration. *)
Definition reported_cases (numbers : list nat) : list (nat * TestCase) :=
  omap (λ c, case ← test_cases !! c;
             if 0 <? reportable_test_count case then Some (c, case) else None) numbers.

Definition report_tree (order : nat → list nat) : Xml :=
  Element (text "testsuites")
    (attr <$> unit_attributes ++ properties u.(ad_hoc_test_result_) ++ [("name", text "AllTests")])
    (chars [10] ++
     (reported_cases (seq 0 (length test_cases)) ≫= λ x,
        line "  " (case_tree order x.1 x.2))).

(** ** The report is the tree *)

Hypothesis results_ok : ∀ t, properties_ok is_xml_name "testcase" (result_of u t).
Hypothesis case_results_ok : ∀ c,
  properties_ok is_xml_name "testsuite" (default empty_result (u.(case_ad_hoc) !! c)).
Hypothesis ad_hoc_ok : properties_ok is_xml_name "testsuites" u.(ad_hoc_test_result_).

(** The attributes of an element: those of the report, then the properties. *)
Lemma element_attributes el l r :
  l.*1 ⊆ reserved_by el → NoDup l.*1 → Forall (λ a, Forall is_byte a.2) l →
  properties_ok is_xml_name el r →
  ∃ raw, output_attributes el l = Some raw ∧
    attributes (raw ++ TestPropertiesAsXmlAttributes r) (attr <$> l ++ properties r).
Proof.
  intros Hsub Hnd Hb Hr. destruct (output_attributes_ok el l Hsub Hnd Hb) as (raw & E & Ha).
  exists raw. split; [done|]. rewrite fmap_app. apply attributes_app; [done|by apply (TestProperties_ok el)|].
  intros n (x & -> & (a & -> & Hin)%list_elem_of_fmap)%list_elem_of_fmap. simpl.
  apply not_in_attrs. unfold properties. rewrite properties_keys.
  intros (p & Hp & Hin')%list_elem_of_fmap. destruct Hr as [_ Hr].
  eapply Forall_forall in Hr as [Hr _]; [|exact Hin']. apply Hr. rewrite <-Hp. apply Hsub.
  apply list_elem_of_fmap. by exists a.
Qed.

Lemma name_text_bytes n : Forall is_byte (name_text n).
Proof. apply from_c_str_sub, name_bytes. Qed.

Lemma time_bytes ms : Forall is_byte (FormatEpochTimeInMillisAsIso8601 localtime_r ms).
Proof.
  unfold FormatEpochTimeInMillisAsIso8601. destruct (localtime_r _) as [t|]; [|constructor].
  assert (∀ v, Forall is_byte (FormatIntWidth2 v)) as H.
  { intros v. unfold FormatIntWidth2. apply Forall_app. split; [|apply text_bytes].
    apply Forall_replicate. unfold is_byte. lia. }
  rewrite !Forall_app. split_and!; first [apply text_bytes|apply H].
Qed.

(** The values of attributes are bytes. *)
Ltac attr_bytes :=
  repeat first
    [ by apply Forall_nil
    | apply Forall_cons; split;
      [ simpl; first [ apply name_text_bytes | apply text_bytes | apply time_bytes
                     | apply from_c_str_sub, text_bytes | assumption
                     | match goal with |- context [if ?b then _ else _] =>
                         destruct b; apply text_bytes end ] | ] ].

Lemma failures_content l :
  content (l ≫= output_failure) (l ≫= failure_tree).
Proof.
  induction l as [|p l IH]; [constructor|]. rewrite !bind_cons.
  apply content_app; [apply output_failure_content|done].
Qed.

Lemma OutputXmlTestInfo_tree name t info :
  Forall is_byte name →
  ∃ out e, OutputXmlTestInfo seconds i u name t info = Some out ∧
    out = text "    " ++ e ++ [10] ∧ element e (test_tree name t info).
Proof.
  intros Hname.
  destruct (element_attributes "testcase" (test_attributes name t info) (result_of u t))
    as (raw & E & Ha); [| | |done|].
  - unfold test_attributes, optional. change (reserved_by "testcase") with
      ["classname"; "name"; "status"; "time"; "type_param"; "value_param"].
    destruct (value_param i t), (type_param i t); simpl; set_solver.
  - unfold test_attributes, optional. destruct (value_param i t), (type_param i t);
      repeat (apply NoDup_cons; split; [set_solver|]); by apply NoDup_nil.
  - unfold test_attributes, optional. rewrite !Forall_app.
    split_and!; [|destruct (value_param i t)|destruct (type_param i t)|]; attr_bytes.
  - unfold OutputXmlTestInfo. fold (optional "value_param" (value_param i t)).
    fold (optional "type_param" (type_param i t)). fold (test_attributes name t info).
    rewrite E, output_parts_spec. fold (failures_of (result_of u t)). simpl.
    unfold test_tree. destruct (failures_of (result_of u t)) as [|p l] eqn:Ef.
    + rewrite decide_False by (by intros [_ ?]). simpl.
      eexists _, ([60] ++ text "testcase" ++ (raw ++ TestPropertiesAsXmlAttributes (result_of u t)) ++ text " />").
      split; [reflexivity|]. split; [by rewrite <-!app_assoc|]. by apply el_empty.
    + rewrite <-Ef. rewrite decide_True by (by rewrite Ef). rewrite (decide_False (P := _ = 0%nat)) by (by rewrite Ef).
      eexists _, ([60] ++ text "testcase" ++ (raw ++ TestPropertiesAsXmlAttributes (result_of u t)) ++ [62] ++
        ([10] ++ (failures_of (result_of u t) ≫= output_failure) ++ text "    ") ++
        text "</" ++ text "testcase" ++ [62]).
      split; [reflexivity|]. split.
      { generalize (failures_of (result_of u t) ≫= output_failure) as s.
        generalize (TestPropertiesAsXmlAttributes (result_of u t)) as a. intros a s.
        rewrite <-!app_assoc. reflexivity. }
      apply el_content; [done|done|].
      apply content_app; [apply space_content; repeat constructor; by left|].
      apply content_app; [apply failures_content|].
      apply space_content. repeat constructor; by right.
Qed.

Lemma line_content n (e : list Z) x :
  element e x → content (text (String.concat "" (repeat " " n)) ++ e ++ [10])
    (line (String.concat "" (repeat " " n)) x).
Proof.
  intros He. unfold line. apply content_app.
  - apply space_content. apply Forall_forall. intros c Hc. right.
    assert (∀ m, text (String.concat "" (repeat " " m)) = replicate m 32) as H.
    { clear. intros m. induction m as [|[|m] IH]; [done|done|]. 
      change (32 :: text (String.concat "" (repeat " " (S m))) = 32 :: replicate (S m) 32).
      by rewrite IH. }
    rewrite H in Hc. by apply elem_of_replicate in Hc as [-> _].
  - apply co_element; [done|]. apply space_content. repeat constructor; by left.
Qed.

Lemma GetElementOr_nat (js : list nat) k j :
  js !! k = Some j → GetElementOr (Z.of_nat <$> js) (Z.of_nat k) (-1) = Z.of_nat j.
Proof.
  intros H. pose proof (lookup_lt_Some _ _ _ H). unfold GetElementOr.
  rewrite (proj2 (Z.ltb_ge _ _)), (proj2 (Z.leb_gt _ _)) by (rewrite ?length_fmap; lia).
  simpl. by rewrite Nat2Z.id, list_lookup_fmap, H.
Qed.

Lemma output_tests_tree c case js k n :
  (∀ j, j ∈ js → (j < length case.(test_info_list))%nat) → (k + n = length js)%nat →
  ∃ out, output_tests seconds i u c case (Z.of_nat <$> js) (seq k n) = Some out ∧
    content out (reported_tests case (drop k js) ≫= λ x,
      line "    " (test_tree (name_text case.(case_name)) (c, x.1) x.2)).
Proof.
  intros Hjs. revert k. induction n as [|n IH]; intros k Hk.
  { exists []. rewrite drop_ge by lia. split; [done|constructor]. }
  destruct (lookup_lt_is_Some_2 js k) as [j Hj]; [lia|].
  destruct (lookup_lt_is_Some_2 case.(test_info_list) j) as [info Hinfo].
  { apply Hjs. by eapply list_elem_of_lookup_2. }
  destruct (IH (S k)) as (rest & E & Hrest); [lia|].
  cbn [seq output_tests]. rewrite (GetElementOr_nat _ _ _ Hj), (proj2 (Z.ltb_ge _ _)), Nat2Z.id by lia.
  rewrite Hinfo, E, (drop_S _ _ _ Hj). unfold reported_tests in *. cbn [omap list_omap mbind option_bind].
  rewrite Hinfo. cbn [mbind option_bind]. destruct (is_reportable info).
  - destruct (OutputXmlTestInfo_tree (name_text (case_name case)) (c, j) info)
      as (out & e & -> & -> & He); [apply name_text_bytes|].
    eexists. split; [reflexivity|]. rewrite bind_cons. apply content_app; [|done].
    by apply (line_content 4).
  - eexists. split; [reflexivity|]. done.
Qed.

Lemma PrintXmlTestCase_tree c case order :
  order c ≡ₚ seq 0 (length case.(test_info_list)) →
  ∃ out e, PrintXmlTestCase seconds i u c case (Z.of_nat <$> order c) = Some out ∧
    out = text "  " ++ e ++ [10] ∧ element e (case_tree order c case).
Proof.
  intros Hord. unfold PrintXmlTestCase. fold (case_attributes c case).
  destruct (element_attributes "testsuite" (case_attributes c case)
    (default empty_result (case_ad_hoc u !! c))) as (raw & -> & Ha).
  - change (reserved_by "testsuite") with
      ["disabled"; "errors"; "failures"; "name"; "tests"; "time"]. simpl. set_solver.
  - unfold case_attributes. simpl. repeat (apply NoDup_cons; split; [set_solver|]). by apply NoDup_nil.
  - unfold case_attributes. attr_bytes.
  - apply case_results_ok.
  - destruct (output_tests_tree c case (order c) 0 (length (test_info_list case)))
      as (tests & E & Ht).
    { intros j Hj. rewrite Hord in Hj. apply elem_of_seq in Hj. lia. }
    { by rewrite Hord, length_seq. }
    rewrite drop_0 in Ht. unfold case_tree.
    set (a := TestPropertiesAsXmlAttributes _) in *. rewrite E.
    eexists _, ([60] ++ text "testsuite" ++ (raw ++ a) ++ [62] ++
      ([10] ++ tests ++ text "  ") ++ text "</" ++ text "testsuite" ++ [62]).
    split; [reflexivity|]. split; [clearbody a; by rewrite <-!app_assoc|].
    apply el_content; [done|done|].
    apply content_app; [apply space_content; repeat constructor; by left|].
    apply content_app; [done|]. apply space_content. repeat constructor; by right.
Qed.

Lemma output_cases_tree o cases order cs :
  in_order_of test_cases o cases order → orders test_cases cases order →
  (∀ c, c ∈ cs → (c < length test_cases)%nat) →
  ∃ out, output_cases seconds i u test_cases o cs = Some out ∧
    content out (reported_cases cs ≫= λ x, line "  " (case_tree order x.1 x.2)).
Proof.
  intros [Hoc Hot] [Hc Ht] Hcs. induction cs as [|c cs IH].
  { exists []. split; [done|constructor]. }
  destruct IH as (rest & E & Hrest). { intros c' Hc'. apply Hcs. by right. }
  assert (c < length test_cases)%nat as Hlt by (apply Hcs; by left).
  destruct (lookup_lt_is_Some_2 test_cases c Hlt) as [case Hcase].
  destruct (lookup_lt_is_Some_2 cases c) as [j Hj].
  { by rewrite Hc, length_seq. }
  cbn [output_cases]. unfold GetTestCase. rewrite Hoc, (GetElementOr_nat _ _ _ Hj).
  rewrite (proj2 (Z.ltb_ge _ _)), Nat2Z.id, Hcase by lia. cbn [mbind option_bind].
  rewrite E, (Hot c Hlt). unfold reported_cases in *. cbn [omap list_omap mbind option_bind].
  rewrite Hcase. cbn [mbind option_bind]. destruct (0 <? reportable_test_count case).
  - destruct (PrintXmlTestCase_tree c case order (Ht c case Hcase)) as (out & e & -> & -> & He).
    eexists. split; [reflexivity|]. rewrite bind_cons. apply content_app; [|done].
    by apply (line_content 2).
  - eexists. split; [reflexivity|]. done.
Qed.

Lemma PrintXmlUnitTest_tree o cases order :
  in_order_of test_cases o cases order → orders test_cases cases order →
  ∃ out, PrintXmlUnitTest seconds localtime_r i u test_cases o = Some out ∧
    document out (report_tree order).
Proof.
  intros Ho Hor. unfold PrintXmlUnitTest. fold unit_attributes.
  assert (unit_attributes.*1 ++ ["name"] ⊆ reserved_by "testsuites") as Hsub.
  { change (reserved_by "testsuites") with
      ["disabled"; "errors"; "failures"; "name"; "random_seed"; "tests"; "time"; "timestamp"].
    unfold unit_attributes. destruct (xml_shuffle i); simpl; set_solver. }
  destruct (element_attributes "testsuites" unit_attributes (ad_hoc_test_result_ u))
    as (raw & -> & Ha); [set_solver| | |done|].
  - unfold unit_attributes. destruct (xml_shuffle i); simpl;
      repeat (apply NoDup_cons; split; [set_solver|]); by apply NoDup_nil.
  - unfold unit_attributes. apply Forall_app. split.
    + attr_bytes.
    + destruct (xml_shuffle i); attr_bytes.
  - rewrite (OutputXmlAttribute_ok "testsuites" "name") by set_solver.
    destruct (output_cases_tree o cases order (seq 0 (length test_cases)) Ho Hor) as (body & -> & Hb).
    { intros c Hc%elem_of_seq. lia. }
    set (a := TestPropertiesAsXmlAttributes _) in *.
    set (n := EscapeXmlAttribute (text "AllTests")).
    eexists. split; [reflexivity|].
    assert (element ([60] ++ text "testsuites" ++ ((raw ++ a) ++
        (text " " ++ text "name" ++ text "=" ++ quoted n) ++ []) ++ [62] ++ ([10] ++ body) ++
        text "</" ++ text "testsuites" ++ [62]) (report_tree order)) as He.
    { assert (attr <$> unit_attributes ++ properties (ad_hoc_test_result_ u) ++
        [("name", text "AllTests")] =
        (attr <$> unit_attributes ++ properties (ad_hoc_test_result_ u)) ++
        [attr ("name", text "AllTests")]) as Eat by (by rewrite app_assoc, fmap_app).
      unfold report_tree. rewrite Eat. apply el_content; [done| |].
      - apply attributes_app; [done| |].
        + apply (at_output (text "name") n (clean (text "AllTests")) [] []);
            [reflexivity|apply EscapeXmlAttribute_reads, text_bytes|apply not_elem_of_nil|constructor].
        + intros m Hm Hin. apply list_elem_of_singleton in Hin as ->. revert Hm.
          change (text "name" ∉ (attr <$> (unit_attributes ++ properties (ad_hoc_test_result_ u))).*1).
          apply not_in_attrs. rewrite fmap_app. unfold properties. rewrite properties_keys.
          rewrite elem_of_app. intros [H|(p & Hp & Hin)%list_elem_of_fmap].
          * unfold unit_attributes in H. destruct (xml_shuffle i); simpl in H; set_solver.
          * destruct ad_hoc_ok as [_ Hk]. eapply Forall_forall in Hk as [Hk _]; [|exact Hin].
            apply Hk. rewrite <-Hp. set_solver.
      - apply content_app; [apply space_content; repeat constructor; by left|done]. }
    apply doc_element in He. clearbody a n. unfold prolog in He.
    match goal with |- document ?s _ => match type of He with document ?t _ =>
      assert (s = t) as ->; [|exact He] end end.
    unfold quoted. rewrite <-!app_assoc. reflexivity.
Qed.
End Tree.

(** C23: At the end of every iteration of a program that records its properties under XML
    names, whatever else it does, the report is written without an abort and is a
    well-formed document: the elements and attributes of [report_tree], no attribute
    twice, all of every failure message in its text but for the characters that are no
    ASCII characters of XML. *)
Theorem report_is_well_formed seconds localtime_r info cfg i test_cases has o cases order u :
  program_records is_xml_name cfg →
  in_order_of test_cases o cases order → orders test_cases cases order →
  recorded is_xml_name u →
  let u' := (run_iteration cfg i test_cases has o u).2 in
  ∃ out, PrintXmlUnitTest seconds localtime_r info u' test_cases o = Some out ∧
    document out (report_tree seconds localtime_r info u' test_cases order).
Proof.
  intros Hcfg Ho Hor Hu u'.
  destruct (preserves_run_iteration is_xml_name cfg i Hcfg test_cases has o u Hu) as [H1 H2 H3].
  by apply (PrintXmlUnitTest_tree seconds localtime_r info u' test_cases H1 H2 H3 o cases).
Qed.

(** Characters beyond ASCII are negative as [char] and are dropped, so a message in UTF-8
    loses them. *)
Theorem report_drops_utf8 c is_attribute :
  128 <= c < 256 → EscapeXml [c] is_attribute = [] ∧ RemoveInvalidXmlCharacters [c] = [].
Proof.
  intros Hc. assert (IsValidXmlCharacter c = false) as Hv.
  { unfold IsValidXmlCharacter, IsNormalizableWhitespace, schar. rewrite (proj2 (Z.ltb_ge c 128)); lia. }
  split.
  - rewrite EscapeXml_bind. cbn [mbind list_bind]. rewrite app_nil_r. unfold escape_char.
    rewrite !(proj2 (Z.eqb_neq c _)) by lia. by rewrite Hv.
  - unfold RemoveInvalidXmlCharacters. by rewrite filter_cons_False by congruence.
Qed.

Module Example_xml.

(** One case; its first test fails with a message that looks like markup, the second is
    disabled, the third records a property twice. *)
Definition quiet : Script := λ _, [].
Definition fails : Script := λ _,
  [Report kNonFatalFailure (Some "t.cpp") 7 "a]]>b < c" [] "frame"].
Definition notes : Script := λ _, [RecordProperty "retries" "1"; RecordProperty "retries" "2"].

Definition body (s : Script) : TestCode := mkCode 0 quiet quiet s quiet quiet.
Definition cfg : Config :=
  mkConfig true false false false 0 1 [0%nat] true []
    [mkCaseCode quiet quiet [body fails; body quiet; body notes]].
Definition cases : list TestCase :=
  [mkCase (String.list_ascii_of_string "Log") true
     [mkTest (String.list_ascii_of_string "Writes") false true true; mkTest (String.list_ascii_of_string "DISABLED_Slow") true true false;
      mkTest (String.list_ascii_of_string "Retries") false true true]].
Definition info : Info := mkInfo (λ _, None) (λ _, None) (λ _, 0) (λ _, 0) 0 0 false 0.
Definition start : Unit := mkUnit ∅ ∅ empty_result None None [] [].
Definition order : Order := unshuffled 0 [3%nat] 0.

Lemma xml_start : recorded is_xml_name start.
Proof.
  split; [intros t|intros c|]; unfold result_of; simpl; rewrite ?lookup_empty; apply empty_ok.
Qed.

Lemma xml_records : program_records is_xml_name cfg.
Proof.
  assert (records is_xml_name quiet) as Hq by (intros i k v H; by apply not_elem_of_nil in H).
  assert (records is_xml_name fails) as Hf.
  { intros i k v H. by apply list_elem_of_singleton in H. }
  assert (records is_xml_name notes) as Hn.
  { intros i k v H. unfold notes in H. repeat (apply list_elem_of_In in H; destruct H as [H|H];
      [by simplify_eq|apply list_elem_of_In in H]). by apply not_elem_of_nil in H. }
  split; repeat (apply Forall_cons; split); try apply Forall_nil; try done.
  split; [done|]. split; [done|]. repeat (apply Forall_cons; split); by repeat split.
Qed.

Lemma report_is_well_formed_witness :
  ∃ out, PrintXmlUnitTest (λ _, "0") (λ _, None) info
      (run_iteration cfg 0 cases true order start).2 cases order = Some out ∧
    document out (report_tree (λ _, "0") (λ _, None) info
      (run_iteration cfg 0 cases true order start).2 cases (registered cases)).
Proof.
  destruct (registered_orders cases 0 0) as [Ho Hor].
  apply (report_is_well_formed (λ _, "0") (λ _, None) info cfg 0 cases true order
    (seq 0 1) (registered cases) start xml_records Ho Hor xml_start).
Defined.

End Example_xml.
