(* ===== verification/Streaming.v ===== *)
(** [StreamingListener]: the events of a run, sent over a socket
    ([src/lib/googletest/src/gtest-internal-inl.h] and [gtest.cc]).

    What the sockets answer is a parameter: what [socket] and [connect] return for each
    address, and how many characters [write] takes.  [None] is a failed [GTEST_CHECK_],
    which aborts the program. *)

From S2P Require Import Prelude Strings Utf8 Printers TestRun Runner Xml.
From stdpp Require Import base gmap list strings.
From Stdlib Require Import ZArith Ascii.

Open Scope Z_scope.

(** * Encoding *)

Definition url_char (ch : Z) : list Z :=
  if (ch =? 37) || (ch =? 61) || (ch =? 38) || (ch =? 10) then [37] ++ FormatByte ch else [ch].

Definition UrlEncode (str : list Z) : list Z := from_c_str str ≫= url_char.

(** * The socket *)

(** [SocketWriter], with what went to the socket so far. *)
Record SocketWriter := mkSocketWriter { sockfd_ : Z; sent : list Z }.

(** The loop over the addresses: what [socket] returned, and whether [connect] did not
    fail. *)
Fixpoint connect_loop (sockfd_ : Z) (addresses : list (Z * bool)) : Z :=
  match addresses with
  | [] => sockfd_
  | (socket, connected) :: addresses =>
      if sockfd_ =? -1 then
        connect_loop (if socket =? -1 then -1 else if connected : bool then socket else -1) addresses
      else sockfd_
  end.

Definition MakeConnection (addresses : list (Z * bool)) (w : SocketWriter)
    : option SocketWriter :=
  if w.(sockfd_) =? -1 then Some (mkSocketWriter (connect_loop w.(sockfd_) addresses) w.(sent))
  else None.

Definition CloseConnection (w : SocketWriter) : option SocketWriter :=
  if w.(sockfd_) =? -1 then None else Some (mkSocketWriter (-1) w.(sent)).

Section Streaming.
(** [write], given what was sent and the message. *)
Variable write : list Z → list Z → Z.

(** A short write is a warning only. *)
Definition Send (message : list Z) (w : SocketWriter) : option SocketWriter :=
  if w.(sockfd_) =? -1 then None
  else Some (mkSocketWriter w.(sockfd_)
               (w.(sent) ++ take (Z.to_nat (write w.(sent) message)) message)).

Definition SendLn (message : list Z) (w : SocketWriter) : option SocketWriter :=
  Send (message ++ [10]) w.

(** * The listener *)

(** The constructor: the connection, and [Start]. *)
Definition StreamingListener (addresses : list (Z * bool)) : option SocketWriter :=
  w ← MakeConnection addresses (mkSocketWriter (-1) []);
  SendLn (text "gtest_streaming_protocol_version=1.0") w.

Definition FormatBool (value : bool) : list Z := if value then text "1" else text "0".

(** The times are those of the run; [test_cases] are its cases. *)
Variable i : Info.
Variable test_cases : list TestCase.

Definition case_text (c : nat) : list Z :=
  match test_cases !! c with Some case => name_text case.(case_name) | None => [] end.
Definition test_text (t : TestId) : list Z :=
  match test_cases !! t.1 ≫= λ case, case.(test_info_list) !! t.2 with
  | Some info => name_text info.(test_name)
  | None => []
  end.
Definition case_passed (u : Unit) (c : nat) : bool :=
  match test_cases !! c with Some case => negb (case_failed u c case) | None => true end.

Definition elapsed (passed : bool) (ms : Z) : list Z :=
  FormatBool passed ++ text "&elapsed_time=" ++ show64 ms ++ text "ms".

(** The message of a method; environments are not told of. *)
Definition message_of (u : Unit) (e : Event) : option (list Z) :=
  match e with
  | OnTestProgramStart => Some (text "event=TestProgramStart")
  | OnTestProgramEnd =>
      Some (text "event=TestProgramEnd&passed=" ++ FormatBool (negb (Failed test_cases u)))
  | OnTestIterationStart n =>
      Some (text "event=TestIterationStart&iteration=" ++ text (to_string (Z.of_nat n)))
  | OnTestIterationEnd _ =>
      Some (text "event=TestIterationEnd&passed=" ++
            elapsed (negb (Failed test_cases u)) i.(unit_elapsed_time))
  | OnTestCaseStart c => Some (text "event=TestCaseStart&name=" ++ case_text c)
  | OnTestCaseEnd c =>
      Some (text "event=TestCaseEnd&passed=" ++ elapsed (case_passed u c) (i.(case_elapsed_time) c))
  | OnTestStart t => Some (text "event=TestStart&name=" ++ test_text t)
  | OnTestEnd t =>
      Some (text "event=TestEnd&passed=" ++
            elapsed (negb (ResultFailed (result_of u t))) (i.(elapsed_time) t))
  | OnTestPartResult p =>
      Some (text "event=TestPartResult&file=" ++
            UrlEncode (match part_file p with Some f => text f | None => [] end) ++
            text "&line=" ++ text (to_string p.(line_number)) ++
            text "&message=" ++ UrlEncode (text p.(message)))
  | OnEnvironmentsSetUpStart | OnEnvironmentsSetUpEnd
  | OnEnvironmentsTearDownStart | OnEnvironmentsTearDownEnd => None
  end.

(** A method of the listener: the message, and the end of the connection. *)
Definition on_event (u : Unit) (e : Event) (w : SocketWriter) : option SocketWriter :=
  w ← (match message_of u e with Some m => SendLn m w | None => Some w end);
  match e with OnTestProgramEnd => CloseConnection w | _ => Some w end.

(** The events of a run, each with the state it is told in. *)
Fixpoint on_events (l : list (Unit * Event)) (w : SocketWriter) : option SocketWriter :=
  match l with
  | [] => Some w
  | (u, e) :: l => w ← on_event u e w; on_events l w
  end.

(** [~SocketWriter]. *)
Definition destroy (w : SocketWriter) : option SocketWriter :=
  if w.(sockfd_) =? -1 then Some w else CloseConnection w.
End Streaming.
