(* ===== verification/StreamingFacts.v ===== *)
(** What [StreamingListener] sends, read back by a server that splits lines, fields and
    values and decodes them. *)

From S2P Require Import Prelude Strings Utf8 Printers PrintersFacts Assertions AssertionsFacts TestRun Runner Xml Streaming.
From stdpp Require Import base gmap list strings sets.
From Stdlib Require Import ZArith Lia Ascii.

Open Scope Z_scope.

(** * The server *)

Fixpoint url_decode (l : list Z) : list Z :=
  match l with
  | [] => []
  | c :: l =>
      if c =? 37 then
        match l with
        | a :: b :: l => 16 * hex_value a + hex_value b :: url_decode l
        | _ => []
        end
      else c :: url_decode l
  end.

(** A field, cut at its first equals sign. *)
Definition read_field (l : list Z) : list Z * list Z :=
  match find_char 61 l with
  | Some n => (take n l, url_decode (drop (S n) l))
  | None => (l, [])
  end.

Definition read_message (l : list Z) : list (list Z * list Z) := read_field <$> SplitString l 38.
Definition read_stream (l : list Z) : list (list (list Z * list Z)) :=
  read_message <$> removelast (SplitString l 10).

(** What it should read. *)
Definition field (name : string) (value : list Z) : list Z * list Z := (text name, value).

Definition fields_of (i : Info) (test_cases : list TestCase) (u : Unit) (e : Event)
    : option (list (list Z * list Z)) :=
  let event name := field "event" (text name) in
  let ended name passed ms :=
    [event name; field "passed" (FormatBool passed);
     field "elapsed_time" (show64 ms ++ text "ms")] in
  match e with
  | OnTestProgramStart => Some [event "TestProgramStart"]
  | OnTestProgramEnd =>
      Some [event "TestProgramEnd"; field "passed" (FormatBool (negb (Failed test_cases u)))]
  | OnTestIterationStart n =>
      Some [event "TestIterationStart"; field "iteration" (text (to_string (Z.of_nat n)))]
  | OnTestIterationEnd _ =>
      Some (ended "TestIterationEnd" (negb (Failed test_cases u)) i.(unit_elapsed_time))
  | OnTestCaseStart c => Some [event "TestCaseStart"; field "name" (case_text test_cases c)]
  | OnTestCaseEnd c =>
      Some (ended "TestCaseEnd" (case_passed test_cases u c) (i.(case_elapsed_time) c))
  | OnTestStart t => Some [event "TestStart"; field "name" (test_text test_cases t)]
  | OnTestEnd t =>
      Some (ended "TestEnd" (negb (ResultFailed (result_of u t))) (i.(elapsed_time) t))
  | OnTestPartResult p =>
      Some [event "TestPartResult";
            field "file" (from_c_str (match part_file p with Some f => text f | None => [] end));
            field "line" (text (to_string p.(line_number)));
            field "message" (from_c_str (text p.(message)))]
  | _ => None
  end.

(** * Encoding and decoding *)

(** Nothing that separates. *)
Definition plain (l : list Z) : Prop := Forall (λ c, c ≠ 37 ∧ c ≠ 61 ∧ c ≠ 38 ∧ c ≠ 10) l.
Definition separates_not (l : list Z) : Prop := Forall (λ c, c ≠ 61 ∧ c ≠ 38 ∧ c ≠ 10) l.

Lemma url_decode_plain l : plain l → url_decode l = l.
Proof.
  induction 1 as [|c l (H & _) _ IH]; [done|]. cbn [url_decode].
  rewrite (proj2 (Z.eqb_neq c 37)) by done. by rewrite IH.
Qed.

Lemma url_char_ok c l :
  separates_not (url_char c) ∧ url_decode (url_char c ++ l) = c :: url_decode l.
Proof.
  unfold url_char, separates_not. destruct (_ || _) eqn:E.
  - rewrite !orb_true_iff, !Z.eqb_eq in E. destruct E as [[[->| ->]| ->]| ->];
      (split; [|done]; repeat (apply Forall_cons; split; [by vm_compute|]); by apply Forall_nil).
  - rewrite !orb_false_iff, !Z.eqb_neq in E. destruct E as [[[H1 H2] H3] H4].
    split; [by apply Forall_singleton|]. cbn [app url_decode].
    by rewrite (proj2 (Z.eqb_neq c 37)).
Qed.

(** What is encoded has no separators and decodes to the text up to its NUL. *)
Theorem UrlEncode_roundtrip str :
  separates_not (UrlEncode str) ∧ url_decode (UrlEncode str) = from_c_str str.
Proof.
  unfold UrlEncode. induction (from_c_str str) as [|c l [IH1 IH2]]; [by split; [constructor|]|].
  rewrite bind_cons. destruct (url_char_ok c (l ≫= url_char)) as [H1 H2].
  split; [by apply Forall_app|]. by rewrite H2, IH2.
Qed.

(** * Splitting *)

Lemma joined_inj d ps qs :
  Forall (λ p, d ∉ p) ps → Forall (λ p, d ∉ p) qs → ps ≠ [] → qs ≠ [] →
  joined d ps = joined d qs → ps = qs.
Proof.
  assert (∀ (p q a b : list Z), d ∉ p → d ∉ q → p ++ d :: a = q ++ d :: b → p = q ∧ a = b) as Hcut.
  { intros p. induction p as [|x p IH]; intros [|y q] a b Hp Hq H; simplify_eq/=; [done|set_solver|set_solver|].
    destruct (IH q a b) as [-> ->]; [set_solver|set_solver|done|done]. }
  intros Hps. revert qs. induction Hps as [|p ps Hp Hps IH]; intros [|q qs] Hqs Hn Hn' H; try done.
  apply Forall_cons in Hqs as [Hq Hqs].
  destruct (decide (ps = [])) as [->|Hne], (decide (qs = [])) as [->|Hne'].
  - simpl in H. by subst.
  - rewrite (joined_cons d q) in H by done. simpl in H. subst p. set_solver.
  - rewrite (joined_cons d p) in H by done. simpl in H. subst q. set_solver.
  - rewrite !joined_cons in H by done. apply Hcut in H as [-> H]; [|done|done].
    f_equal. by apply IH.
Qed.

Lemma SplitString_of_joined d ps :
  Forall (λ p, d ∉ p) ps → ps ≠ [] → SplitString (joined d ps) d = ps.
Proof.
  intros Hf Hn. destruct (split_string_spec d (joined d ps)) as (H1 & H2 & H3).
  by apply (joined_inj d).
Qed.

(** * Messages *)

Lemma digits_plain s : all_chars is_digit s = true → plain (text s).
Proof.
  induction s as [|c s IH]; [constructor|]. cbn [all_chars]. intros [Hc Hs]%andb_true_iff.
  change (text (String c s)) with (code c :: text s). constructor; [|by apply IH].
  unfold is_digit in Hc. simpl. lia.
Qed.

Lemma minus_plain s : plain (text s) → plain (text (String "-" s)).
Proof. intros H. change (text (String "-" s)) with (45 :: text s). by constructor. Qed.

Lemma number_plain n : plain (text (to_string n)).
Proof.
  unfold to_string. destruct (n <? 0) eqn:E; [apply minus_plain|]; apply digits_plain, decimal_digits; lia.
Qed.

Lemma number64_plain n : plain (show64 n).
Proof.
  unfold show64. destruct (n <? 0) eqn:E; [apply minus_plain|]; apply digits_plain, decimal_digits; lia.
Qed.

Lemma plain_separates l : plain l → separates_not l.
Proof. intros H. eapply Forall_impl; [exact H|]. intros c Hc. simpl in Hc. tauto. Qed.

Lemma separates_not_in (l : list Z) d : separates_not l → d = 61 ∨ d = 38 ∨ d = 10 → d ∉ l.
Proof.
  intros Hl Hd Hin. eapply Forall_forall in Hl; [|exact Hin]. simpl in Hl. lia.
Qed.

Lemma find_char_app d (l r : list Z) : d ∉ l → find_char d (l ++ d :: r) = Some (length l).
Proof.
  induction l as [|c l IH]; intros Hd; cbn [find_char app].
  - by rewrite Z.eqb_refl.
  - rewrite (proj2 (Z.eqb_neq c d)) by set_solver. rewrite IH by set_solver. done.
Qed.

Lemma read_field_ok k raw :
  separates_not (text k) → read_field (text k ++ 61 :: raw) = (text k, url_decode raw).
Proof.
  intros Hk. unfold read_field. rewrite find_char_app by (apply separates_not_in; auto).
  rewrite take_app_length. by rewrite (drop_app_ge _ _ (S _)), Nat.sub_succ_l, Nat.sub_diag by lia.
Qed.

(** A message is its fields, joined; each is a name and an encoded value. *)
Definition encode (l : list (string * list Z)) : list Z :=
  joined 38 ((λ x, text x.1 ++ 61 :: x.2) <$> l).

Lemma joined_no c d ps : c ≠ d → Forall (λ p, c ∉ p) ps → c ∉ joined d ps.
Proof.
  intros Hcd. induction 1 as [|p ps Hp Hps IH]; [by apply not_elem_of_nil|].
  destruct (decide (ps = [])) as [->|Hne]; [done|]. rewrite joined_cons by done. set_solver.
Qed.

Lemma encode_reads l :
  Forall (λ x, separates_not (text x.1) ∧ separates_not x.2) l → l ≠ [] →
  read_message (encode l) = (λ x, (text x.1, url_decode x.2)) <$> l ∧ 10 ∉ encode l.
Proof.
  intros Hl Hn. unfold read_message, encode. split.
  - rewrite SplitString_of_joined.
    + rewrite <-list_fmap_compose. apply list_fmap_ext. intros j x Hx. simpl.
      eapply Forall_lookup_1 in Hl as [Hk _]; [|exact Hx]. by apply read_field_ok.
    + apply Forall_fmap. eapply Forall_impl; [exact Hl|]. intros x [H1 H2]. simpl.
      apply not_elem_of_app. split; [apply separates_not_in; auto|].
      apply not_elem_of_cons. split; [done|]. apply separates_not_in; auto.
    + by destruct l.
  - apply joined_no; [done|]. apply Forall_fmap. eapply Forall_impl; [exact Hl|].
    intros x [H1 H2]. simpl. apply not_elem_of_app. split; [apply separates_not_in; auto|].
    apply not_elem_of_cons. split; [done|]. apply separates_not_in; auto.
Qed.

(** * The messages of the events *)

Section Events.
Variable i : Info.
Variable test_cases : list TestCase.

Definition ended (name : string) (passed : bool) (ms : Z) : list (string * list Z) :=
  [("event", text name); ("passed", FormatBool passed); ("elapsed_time", show64 ms ++ text "ms")].

(** The fields as they are sent. *)
Definition raw_fields (u : Unit) (e : Event) : option (list (string * list Z)) :=
  match e with
  | OnTestProgramStart => Some [("event", text "TestProgramStart")]
  | OnTestProgramEnd =>
      Some [("event", text "TestProgramEnd"); ("passed", FormatBool (negb (Failed test_cases u)))]
  | OnTestIterationStart n =>
      Some [("event", text "TestIterationStart"); ("iteration", text (to_string (Z.of_nat n)))]
  | OnTestIterationEnd _ =>
      Some (ended "TestIterationEnd" (negb (Failed test_cases u)) i.(unit_elapsed_time))
  | OnTestCaseStart c => Some [("event", text "TestCaseStart"); ("name", case_text test_cases c)]
  | OnTestCaseEnd c =>
      Some (ended "TestCaseEnd" (case_passed test_cases u c) (i.(case_elapsed_time) c))
  | OnTestStart t => Some [("event", text "TestStart"); ("name", test_text test_cases t)]
  | OnTestEnd t => Some (ended "TestEnd" (negb (ResultFailed (result_of u t))) (i.(elapsed_time) t))
  | OnTestPartResult p =>
      Some [("event", text "TestPartResult");
            ("file", UrlEncode (match part_file p with Some f => text f | None => [] end));
            ("line", text (to_string p.(line_number)));
            ("message", UrlEncode (text p.(message)))]
  | _ => None
  end.

Lemma message_of_encode u e : message_of i test_cases u e = encode <$> raw_fields u e.
Proof.
  destruct e; cbn [message_of raw_fields fmap option_fmap option_map]; try reflexivity;
    f_equal; unfold encode, ended, elapsed; cbn [fmap list_fmap joined fst snd];
    rewrite <-!app_assoc; reflexivity.
Qed.

(** The names of the tests are sent as they are: those of C++ identifiers, with [/]. *)
Definition names_plain : Prop :=
  (∀ c, plain (case_text test_cases c)) ∧ (∀ t, plain (test_text test_cases t)).

Definition raw_ok (x : string * list Z) : Prop := separates_not (text x.1) ∧ separates_not x.2.

Lemma plain_ok k v : plain (text k) → plain v → raw_ok (k, v).
Proof. intros Hk Hv. by split; apply plain_separates. Qed.

Lemma literal_plain s :
  forallb (λ c, negb ((c =? 37) || (c =? 61) || (c =? 38) || (c =? 10))) (text s) = true →
  plain (text s).
Proof.
  rewrite forallb_forall. intros H. apply Forall_forall. intros c Hc%list_elem_of_In.
  apply H in Hc. lia.
Qed.

Lemma bool_plain b : plain (FormatBool b).
Proof. by destruct b; apply literal_plain. Qed.

Lemma ms_plain n : plain (show64 n ++ text "ms").
Proof. apply Forall_app. split; [apply number64_plain|by apply literal_plain]. Qed.

#[local] Hint Resolve number_plain number64_plain bool_plain ms_plain : core.

Lemma raw_fields_ok u e l :
  names_plain → raw_fields u e = Some l →
  Forall raw_ok l ∧ l ≠ [] ∧
  fields_of i test_cases u e = Some ((λ x, (text x.1, url_decode x.2)) <$> l).
Proof.
  intros [Hc Ht] H.
  assert (∀ s, url_decode (UrlEncode s) = from_c_str s) as Hd by (intros s; apply UrlEncode_roundtrip).
  destruct e; simplify_eq/=; unfold ended, field;
    (split; [repeat (apply Forall_cons; split); try apply Forall_nil; try done;
             first [ apply plain_ok; [by apply literal_plain|];
                     first [done | apply Hc | apply Ht | by apply literal_plain | solve [auto]]
                   | split; [by apply plain_separates, literal_plain|apply UrlEncode_roundtrip] ]
            |split; [done|]]);
    cbn [fmap list_fmap]; cbn [fst snd];
    rewrite ?Hd, ?url_decode_plain; try done; auto; by apply literal_plain.
Qed.
End Events.

(** * The stream *)

Section Stream.
Variable write : list Z → list Z → Z.
Variable i : Info.
Variable test_cases : list TestCase.

Hypothesis names : names_plain test_cases.

Definition messages (l : list (Unit * Event)) : list (list Z) :=
  omap (λ x, message_of i test_cases x.1 x.2) l.
Definition lines (ms : list (list Z)) : list Z := ms ≫= λ m, m ++ [10].

(** What the sockets took of the messages: of each a beginning. *)
Definition taken (ts ms : list (list Z)) : Prop := Forall2 prefix ts ms.

Lemma taken_length ts ms : taken ts ms → (length (mjoin ts) <= length (mjoin ms))%nat.
Proof.
  induction 1 as [|t m ts ms Ht _ IH]; [done|]. simpl. rewrite !length_app.
  apply prefix_length in Ht. lia.
Qed.

(** Where no byte was lost, all of every message was taken. *)
Lemma taken_all ts ms : taken ts ms → length (mjoin ts) = length (mjoin ms) → ts = ms.
Proof.
  induction 1 as [|t m ts ms Ht Hts IH]; [done|]. simpl. rewrite !length_app. intros Hl.
  pose proof (prefix_length _ _ Ht). pose proof (taken_length _ _ Hts).
  destruct Ht as [k ->]. rewrite length_app in *.
  assert (k = []) as -> by (apply nil_length_inv; lia). rewrite app_nil_r in *.
  f_equal. apply IH. lia.
Qed.

Lemma Send_takes m w :
  w.(sockfd_) ≠ -1 →
  ∃ t, t `prefix_of` m ∧ Send write m w = Some (mkSocketWriter w.(sockfd_) (w.(sent) ++ t)).
Proof.
  intros H. unfold Send. rewrite (proj2 (Z.eqb_neq _ _)) by done.
  eexists. split; [|reflexivity]. apply prefix_take.
Qed.

Definition ended_lines (ms : list (list Z)) : list (list Z) := (λ m, m ++ [10]) <$> ms.

(** As long as the program has not ended the connection stays. *)
Lemma on_events_sends l w :
  w.(sockfd_) ≠ -1 → Forall (λ x, x.2 ≠ OnTestProgramEnd) l →
  ∃ ts, taken ts (ended_lines (messages l)) ∧
    on_events write i test_cases l w =
      Some (mkSocketWriter w.(sockfd_) (w.(sent) ++ mjoin ts)).
Proof.
  intros Hw Hl. revert w Hw. induction Hl as [|[u e] l He Hl IH]; intros w Hw.
  { exists []. split; [constructor|]. simpl. rewrite app_nil_r. by destruct w. }
  cbn [on_events]. unfold on_event, messages. cbn [omap list_omap fst snd].
  simpl in He. destruct (message_of i test_cases u e) as [m|].
  - unfold SendLn. destruct (Send_takes (m ++ [10]) w Hw) as (t & Ht & ->). cbn [mbind option_bind].
    destruct (IH (mkSocketWriter w.(sockfd_) (w.(sent) ++ t)) Hw) as (ts & Hts & E).
    exists (t :: ts). split; [by constructor|].
    destruct e; try done; cbn [mbind option_bind]; rewrite E; simpl; by rewrite <-app_assoc.
  - cbn [mbind option_bind]. destruct e; try done; cbn [mbind option_bind]; by apply IH.
Qed.

Lemma lines_joined ms : joined 10 (ms ++ [[]]) = lines ms.
Proof.
  induction ms as [|m ms IH]; [done|]. cbn [app]. rewrite joined_cons by (by destruct ms).
  unfold lines. rewrite bind_cons, IH, <-app_assoc. done.
Qed.

Lemma read_stream_lines ms :
  Forall (λ m, 10 ∉ m) ms → read_stream (lines ms) = read_message <$> ms.
Proof.
  intros Hms. unfold read_stream. rewrite <-lines_joined, SplitString_of_joined.
  - by rewrite removelast_last.
  - apply Forall_app. split; [done|]. constructor; [apply not_elem_of_nil|constructor].
  - by destruct ms.
Qed.

Definition start_message : list Z := text "gtest_streaming_protocol_version=1.0".

Lemma messages_read l :
  Forall (λ m, 10 ∉ m) (messages l) ∧
  read_message <$> messages l = omap (λ x, fields_of i test_cases x.1 x.2) l.
Proof.
  induction l as [|[u e] l [IH1 IH2]]; [done|]. unfold messages in *. cbn [omap list_omap fst snd].
  destruct (message_of i test_cases u e) as [m|] eqn:Em; rewrite message_of_encode in Em.
  - destruct (raw_fields i test_cases u e) as [fs|] eqn:Er; [|done]. injection Em as <-.
    destruct (raw_fields_ok i test_cases u e fs names Er) as (H1 & H2 & ->).
    destruct (encode_reads fs H1 H2) as [H3 H4]. rewrite fmap_cons. cbn [fst snd].
    split; [by constructor|]. by rewrite H3, IH2.
  - assert (fields_of i test_cases u e = None) as -> by (by destruct e). done.
Qed.

Lemma ended_lines_join ms : mjoin (ended_lines ms) = lines ms.
Proof. induction ms as [|m ms IH]; [done|]. unfold lines in *. cbn. f_equal. exact IH. Qed.

Lemma messages_app l l' : messages (l ++ l') = messages l ++ messages l'.
Proof. unfold messages. apply omap_app. Qed.

(** The events of one run of the program: its end, if it comes, is the last. *)
Definition one_run (l : list (Unit * Event)) (fin : option Unit) : list (Unit * Event) :=
  l ++ match fin with Some u => [(u, OnTestProgramEnd)] | None => [] end.

Lemma on_events_app l l' w :
  on_events write i test_cases (l ++ l') w =
    (w ← on_events write i test_cases l w; on_events write i test_cases l' w).
Proof.
  revert w. induction l as [|[u e] l IH]; intros w; [done|]. cbn [on_events app].
  destruct (on_event write i test_cases u e w); [apply IH|done].
Qed.

(** The run as the sockets see it. *)
Lemma one_run_sends l fin w :
  w.(sockfd_) ≠ -1 → Forall (λ x, x.2 ≠ OnTestProgramEnd) l →
  ∃ ts, taken ts (ended_lines (messages (one_run l fin))) ∧
    on_events write i test_cases (one_run l fin) w =
      Some (mkSocketWriter (if fin then -1 else w.(sockfd_)) (w.(sent) ++ mjoin ts)).
Proof.
  intros Hw Hl. destruct (on_events_sends l w Hw Hl) as (ts & Hts & E).
  unfold one_run. rewrite on_events_app, E. cbn [mbind option_bind].
  destruct fin as [u|]; [|rewrite app_nil_r; by exists ts].
  cbn [on_events]. unfold on_event. cbn [message_of].
  match goal with |- context [SendLn write ?m ?w0] =>
    unfold SendLn; destruct (Send_takes (m ++ [10]) w0 Hw) as (t & Ht & ->) end.
  cbn [mbind option_bind sockfd_ sent]. unfold CloseConnection. cbn [sockfd_ sent].
  rewrite (proj2 (Z.eqb_neq _ _)) by done. cbn [mbind option_bind].
  exists (ts ++ [t]). split.
  - rewrite messages_app. unfold ended_lines. rewrite fmap_app. apply Forall2_app; [done|].
    by repeat constructor.
  - rewrite join_app. simpl. by rewrite app_nil_r, app_assoc.
Qed.

Lemma server_reads addresses l fin w :
  Forall (λ x, x.2 ≠ OnTestProgramEnd) l → StreamingListener write addresses = Some w →
  ∃ w' w'', on_events write i test_cases (one_run l fin) w = Some w' ∧
    destroy w' = Some w'' ∧ w''.(sockfd_) = -1 ∧
    (length w''.(sent) = length (lines (start_message :: messages (one_run l fin))) →
     read_stream w''.(sent) =
      [field "gtest_streaming_protocol_version" (text "1.0")] ::
      omap (λ x, fields_of i test_cases x.1 x.2) (one_run l fin)).
Proof.
  intros Hl. unfold StreamingListener, MakeConnection. cbn [sockfd_ sent].
  change (-1 =? -1) with true. cbn [mbind option_bind].
  set (fd := connect_loop (-1) addresses). unfold SendLn. cbn [sockfd_].
  destruct (decide (fd = -1)) as [E|E];
    [unfold Send; cbn [sockfd_]; rewrite (proj2 (Z.eqb_eq _ _)) by done; done|].
  destruct (Send_takes (start_message ++ [10]) (mkSocketWriter fd []) E) as (t & Ht & Es).
  unfold start_message in Es. rewrite Es. intros [= <-].
  destruct (one_run_sends l fin (mkSocketWriter fd t) E Hl) as (ts & Hts & Er).
  rewrite Er. eexists _, (mkSocketWriter (-1) (t ++ mjoin ts)). split; [reflexivity|].
  cbn [sockfd_ sent]. split.
  { unfold destroy, CloseConnection. cbn [sockfd_ sent]. destruct fin; [done|].
    by rewrite (proj2 (Z.eqb_neq _ _)) by done. }
  split; [done|]. intros Hlen. destruct (messages_read (one_run l fin)) as [H1 H2].
  assert (t :: ts = ended_lines (start_message :: messages (one_run l fin))) as Hall.
  { apply taken_all; [by constructor|]. by rewrite ended_lines_join. }
  replace (t ++ mjoin ts) with (lines (start_message :: messages (one_run l fin)))
    by (by rewrite <-ended_lines_join, <-Hall).
  rewrite read_stream_lines.
  - by rewrite fmap_cons, H2.
  - constructor; [|done]. by apply (bool_decide_unpack (10 ∉ start_message)).
Qed.
End Stream.

(** C36: Once the listener is connected, it takes the events of one run - up to the end
    of the program, which comes last and closes the connection, or to where the run
    broke off - and its destructor without aborting, whatever [write] returns; and
    if no byte of the messages was lost (a short [write] loses the rest with a
    warning only), a server that splits lines, fields and values and decodes them
    reads every event of the run in order, the end included, with the whole text
    of every result up to its NUL, whatever characters are in it.  The names of
    cases and tests, which are not encoded, must be free of the separators. *)
Theorem stream_reads_back write i test_cases addresses l fin w :
  names_plain test_cases → Forall (λ x, x.2 ≠ OnTestProgramEnd) l →
  StreamingListener write addresses = Some w →
  ∃ w' w'', on_events write i test_cases (one_run l fin) w = Some w' ∧
    destroy w' = Some w'' ∧ w''.(sockfd_) = -1 ∧
    (length w''.(sent) = length (lines (start_message :: messages i test_cases (one_run l fin))) →
     read_stream w''.(sent) =
      [field "gtest_streaming_protocol_version" (text "1.0")] ::
      omap (λ x, fields_of i test_cases x.1 x.2) (one_run l fin)).
Proof. intros Hn. by apply server_reads. Qed.

(** A listener that finds no server says so in a warning, and then the message of its
    constructor aborts the program. *)
Theorem no_server_aborts write addresses :
  Forall (λ a, a.1 = -1 ∨ a.2 = false) addresses → StreamingListener write addresses = None.
Proof.
  intros H. unfold StreamingListener, MakeConnection. cbn [sockfd_ sent].
  change (-1 =? -1) with true. cbn [mbind option_bind].
  assert (connect_loop (-1) addresses = -1) as ->; [|done].
  induction H as [|[s c] l Hs _ IH]; [done|]. cbn [connect_loop]. simpl in Hs.
  change (-1 =? -1) with true. cbv iota.
  destruct Hs as [->| ->]; [exact IH|]. by destruct (s =? -1).
Qed.

Module Example_stream.

Definition cases : list TestCase :=
  [mkCase (String.list_ascii_of_string "Log") true
     [mkTest (String.list_ascii_of_string "Writes/0") false true true]].
Definition info : Info := mkInfo (λ _, None) (λ _, None) (λ _, 3) (λ _, 4) 0 0 false 0.
Definition start : Unit := mkUnit ∅ ∅ empty_result None None [] [].
Definition failure : Event := OnTestPartResult (mkPart kFatalFailure None (-1) "100% & a=b").
Definition run : list (Unit * Event) :=
  [(start, OnTestCaseStart 0); (start, OnTestStart (0, 0)%nat); (start, failure);
   (start, OnTestEnd (0, 0)%nat)].
Definition all (s m : list Z) : Z := Z.of_nat (length m).

Lemma cases_plain : names_plain cases.
Proof.
  split.
  - intros [|c]; [by apply (literal_plain "Log")|]. apply Forall_nil. done.
  - intros [[|c] [|j]]; [by apply (literal_plain "Writes/0")|..]; by apply Forall_nil.
Qed.

Lemma stream_reads_back_witness :
  ∃ w' w'', on_events all info cases (one_run run (Some start))
      (mkSocketWriter 5 (start_message ++ [10])) = Some w' ∧
    destroy w' = Some w'' ∧ w''.(sockfd_) = -1 ∧
    read_stream w''.(sent) =
      [field "gtest_streaming_protocol_version" (text "1.0")] ::
      omap (λ x, fields_of info cases x.1 x.2) (one_run run (Some start)).
Proof.
  destruct (stream_reads_back all info cases [(4, false); (-1, true); (5, true)] run (Some start)
    (mkSocketWriter 5 (start_message ++ [10]))) as (w' & w'' & H1 & H2 & H3 & H4);
    [exact cases_plain|by repeat constructor|reflexivity|].
  exists w', w''. split; [exact H1|]. split; [exact H2|]. split; [exact H3|]. apply H4.
  vm_compute in H1. injection H1 as <-. vm_compute in H2. injection H2 as <-.
  vm_compute. reflexivity.
Defined.

Lemma no_server_aborts_witness : StreamingListener all [(4, false); (-1, true)] = None.
Proof.
  apply no_server_aborts. apply Forall_cons. split; [by right|]. apply Forall_singleton. by left.
Defined.

End Example_stream.
