(* ===== verification/FilePath.v ===== *)
(** Paths of Google Test ([src/lib/googletest/src/gtest-filepath.cc]) on POSIX, and the
    file of the report ([gtest.cc]).

    A path is the list of its bytes.  The file system is a class: what [stat] and
    [mkdir] answer, with the laws of POSIX that the theorems rely on. *)

From S2P Require Import Prelude Strings Utf8 Printers Assertions.
From stdpp Require Import base gmap list strings.
From Stdlib Require Import ZArith Ascii.

Open Scope Z_scope.

(** * Paths *)

Definition kPathSeparator : Z := 47.
Definition kCurrentDirectoryString : list Z := text "./".

Definition IsPathSeparator (c : Z) : bool := c =? kPathSeparator.

(** The loop of [Normalize]; [in_separators] within its inner loop. *)
Fixpoint normalize_loop (in_separators : bool) (src : list Z) : list Z :=
  match src with
  | [] => []
  | c :: src =>
      if IsPathSeparator c then
        if in_separators then normalize_loop true src else c :: normalize_loop true src
      else c :: normalize_loop false src
  end.

Definition Normalize (pathname_ : list Z) : list Z := normalize_loop false (from_c_str pathname_).

(** The constructor. *)
Definition FilePath (pathname : list Z) : list Z := Normalize pathname.

Definition IsEmpty (p : list Z) : bool := bool_decide (p = []).

(** [strrchr]: where the last separator is. *)
Fixpoint FindLastPathSeparator (p : list Z) : option nat :=
  match p with
  | [] => None
  | c :: p =>
      match FindLastPathSeparator p with
      | Some i => Some (S i)
      | None => if IsPathSeparator c then Some 0%nat else None
      end
  end.

Definition RemoveDirectoryName (p : list Z) : list Z :=
  match FindLastPathSeparator p with
  | Some last_sep => FilePath (drop (last_sep + 1) p)
  | None => p
  end.

Definition RemoveFileName (p : list Z) : list Z :=
  FilePath (match FindLastPathSeparator p with
            | Some last_sep => take (last_sep + 1) p
            | None => kCurrentDirectoryString
            end).

Definition RemoveExtension (extension p : list Z) : list Z :=
  let dot_extension := text "." ++ extension in
  if EndsWithCaseInsensitive p dot_extension
  then FilePath (substr p 0 (length p - length dot_extension)) else p.

Definition IsDirectory (p : list Z) : bool :=
  match last p with Some c => IsPathSeparator c | None => false end.

Definition RemoveTrailingPathSeparator (p : list Z) : list Z :=
  if IsDirectory p then FilePath (substr p 0 (length p - 1)) else p.

Definition IsRootDirectory (p : list Z) : bool :=
  (length p =? 1)%nat && match p with c :: _ => IsPathSeparator c | [] => false end.

Definition IsAbsolutePath (p : list Z) : bool :=
  match p with c :: _ => IsPathSeparator c | [] => false end.

Definition ConcatPaths (directory relative_path : list Z) : list Z :=
  if IsEmpty directory then relative_path
  else FilePath (RemoveTrailingPathSeparator directory ++ [kPathSeparator] ++ relative_path).

Definition MakeFileName (directory base_name : list Z) (number : Z) (extension : list Z) : list Z :=
  let file :=
    if number =? 0 then base_name ++ text "." ++ extension
    else base_name ++ text "_" ++ text (to_string number) ++ text "." ++ extension in
  ConcatPaths directory (FilePath file).

(** * The file system *)

(** [stat]: nothing, or whether there is a directory; [mkdir]: its result, and the file
    system after it. *)
Class FileSystem (FS : Type) := {
  stat : FS → list Z → option bool;
  mkdir : FS → list Z → Z * FS
}.

(** A directory that was made is there, what was there stays, and nothing but a directory
    is made; it can be made where nothing is, in a directory. *)
Class FileSystemLaws (FS : Type) `{FileSystem FS} := {
  mkdir_makes fs p fs' : mkdir fs p = (0, fs') → stat fs' p = Some true;
  mkdir_keeps fs p q b : stat fs q = Some b → stat (mkdir fs p).2 q = Some b;
  mkdir_files fs p q : stat (mkdir fs p).2 q = Some false → stat fs q = Some false;
  mkdir_result fs p : (mkdir fs p).1 = 0 ∨ (mkdir fs p).1 = -1;
  mkdir_succeeds fs p :
    stat fs p = None → stat fs (RemoveFileName (RemoveTrailingPathSeparator p)) = Some true →
    (mkdir fs p).1 = 0
}.

Section FileSystem.
Context {FS : Type} `{FileSystem FS}.

Definition FileOrDirectoryExists (fs : FS) (p : list Z) : bool := bool_decide (is_Some (stat fs p)).
Definition DirectoryExists (fs : FS) (p : list Z) : bool := bool_decide (stat fs p = Some true).

Definition CreateFolder (fs : FS) (p : list Z) : bool * FS :=
  let '(result, fs) := mkdir fs p in
  (if result =? -1 then DirectoryExists fs p else true, fs).

(** The depth of the calls is fuel. *)
Fixpoint CreateDirectoriesRecursively (fuel : nat) (fs : FS) (p : list Z) : option (bool * FS) :=
  match fuel with
  | O => None
  | S fuel =>
      if negb (IsDirectory p) then Some (false, fs)
      else if (length p =? 0)%nat || DirectoryExists fs p then Some (true, fs)
      else
        let parent := RemoveFileName (RemoveTrailingPathSeparator p) in
        '(made, fs) ← CreateDirectoriesRecursively fuel fs parent;
        Some (if made : bool then CreateFolder fs p else (false, fs))
  end.

(** The loop of [GenerateUniqueFileName], from [number] on. *)
Fixpoint unique_loop (fuel : nat) (fs : FS) (directory base_name extension : list Z) (number : Z)
    : option (list Z) :=
  match fuel with
  | O => None
  | S fuel =>
      let full_pathname := MakeFileName directory base_name number extension in
      if FileOrDirectoryExists fs full_pathname
      then unique_loop fuel fs directory base_name extension (number + 1)
      else Some full_pathname
  end.
Definition GenerateUniqueFileName (fuel : nat) (fs : FS) (directory base_name extension : list Z)
    : option (list Z) :=
  unique_loop fuel fs directory base_name extension 0.

(** * The file of the report *)

Definition kDefaultOutputFile : list Z := text "test_detail.xml".

(** The program's name, of [argv[0]]. *)
Definition GetCurrentExecutableName (argv0 : list Z) : list Z := RemoveDirectoryName (FilePath argv0).

Definition GetOutputFormat (gtest_output_flag : list Z) : list Z :=
  match find_char 58 gtest_output_flag with
  | None => gtest_output_flag
  | Some colon => take colon gtest_output_flag
  end.

Definition GetAbsolutePathToOutputFile (fuel : nat) (fs : FS) (original_working_dir argv0
    gtest_output_flag : list Z) : option (list Z) :=
  match find_char 58 gtest_output_flag with
  | None => Some (ConcatPaths (FilePath original_working_dir) (FilePath kDefaultOutputFile))
  | Some colon =>
      let rest := drop (colon + 1) gtest_output_flag in
      let output_name := FilePath rest in
      let output_name :=
        if IsAbsolutePath output_name then output_name
        else ConcatPaths (FilePath original_working_dir) (FilePath rest) in
      if negb (IsDirectory output_name) then Some output_name
      else GenerateUniqueFileName fuel fs output_name (GetCurrentExecutableName argv0)
             (GetOutputFormat gtest_output_flag)
  end.

(** What [OnTestIterationEnd] does before it opens the file. *)
Definition make_output_dir (fuel : nat) (fs : FS) (output_file : list Z) : option (bool * FS) :=
  CreateDirectoriesRecursively fuel fs (RemoveFileName (FilePath output_file)).

End FileSystem.
