(* ===== verification/FilePathFacts.v ===== *)
(** Facts about the paths of Google Test: normal paths, splitting and joining, the
    directories that are made, and the file of the report. *)

From S2P Require Import Prelude Strings Utf8 Printers Assertions AssertionsFacts FilePath.
From stdpp Require Import base gmap sets list strings.
From Stdlib Require Import ZArith Lia Ascii.

Open Scope Z_scope.

(** * Normal paths *)

(** No separator follows another. *)
Fixpoint no_double (after : bool) (p : list Z) : bool :=
  match p with
  | [] => true
  | c :: p => if IsPathSeparator c then negb after && no_double true p else no_double false p
  end.

Definition normal (p : list Z) : Prop := Forall (λ c, c ≠ 0) p ∧ no_double false p = true.

Lemma no_double_weaken p : no_double true p = true → no_double false p = true.
Proof. destruct p as [|c p]; [done|]. simpl. by destruct (IsPathSeparator c). Qed.

Lemma no_double_app b p q :
  no_double b (p ++ q) = true → no_double b p = true ∧ no_double false q = true.
Proof.
  revert b. induction p as [|c p IH]; intros b H; simpl in *.
  - split; [done|]. destruct b; [by apply no_double_weaken|done].
  - destruct (IsPathSeparator c); [|by apply IH]. apply andb_true_iff in H as [-> H].
    simpl. by apply IH.
Qed.

Lemma normalize_no_double b p : no_double b (normalize_loop b p) = true.
Proof.
  revert b. induction p as [|c p IH]; intros b; [done|]. cbn [normalize_loop].
  destruct (IsPathSeparator c) eqn:E; [destruct b|]; simpl; rewrite ?E; simpl; auto.
Qed.

Lemma normalize_id b p : no_double b p = true → normalize_loop b p = p.
Proof.
  revert b. induction p as [|c p IH]; intros b H; [done|]. cbn [normalize_loop no_double] in *.
  destruct (IsPathSeparator c); [|by rewrite IH].
  apply andb_true_iff in H as [Hb H]. destruct b; [done|]. by rewrite IH.
Qed.

Lemma normalize_forall (P : Z → Prop) b p : Forall P p → Forall P (normalize_loop b p).
Proof.
  intros Hp. revert b. induction Hp as [|c p Hc _ IH]; intros b; [constructor|].
  cbn [normalize_loop]. destruct (IsPathSeparator c); [destruct b|]; try constructor; auto.
Qed.

Lemma from_c_str_nonzero p : Forall (λ c, c ≠ 0) (from_c_str p).
Proof.
  induction p as [|c p IH]; [constructor|]. cbn [from_c_str].
  destruct (c =? 0) eqn:E; [constructor|]. apply Z.eqb_neq in E. by constructor.
Qed.

Lemma c_str_id p : Forall (λ c, c ≠ 0) p → from_c_str p = p.
Proof.
  induction 1 as [|c p Hc _ IH]; [done|]. cbn [from_c_str].
  by rewrite (proj2 (Z.eqb_neq c 0)), IH.
Qed.

Lemma FilePath_normal p : normal (FilePath p).
Proof.
  split; [apply normalize_forall, from_c_str_nonzero|apply normalize_no_double].
Qed.

Lemma normal_FilePath p : normal p → FilePath p = p.
Proof.
  intros [Hz Hd]. unfold FilePath, Normalize. rewrite c_str_id by done. by apply normalize_id.
Qed.

(** The parts of a path between its separators. *)
Fixpoint parts_from (cur : list Z) (p : list Z) : list (list Z) :=
  match p with
  | [] => [cur]
  | c :: p => if IsPathSeparator c then cur :: parts_from [] p else parts_from (cur ++ [c]) p
  end.
Definition components (p : list Z) : list (list Z) := filter (λ x, x ≠ []) (parts_from [] p).

Lemma normalize_parts cur b p :
  (b = true → cur = []) →
  filter (λ x, x ≠ []) (parts_from cur (normalize_loop b p)) =
  filter (λ x, x ≠ []) (parts_from cur p).
Proof.
  revert cur b. induction p as [|c p IH]; intros cur b Hb; [done|]. cbn [normalize_loop].
  destruct (IsPathSeparator c) eqn:E; [destruct b|]; cbn [parts_from]; rewrite ?E.
  - rewrite (Hb eq_refl), filter_cons_False by (intros H; by apply H). by apply IH.
  - destruct (decide (cur ≠ [])).
    + rewrite !filter_cons_True by done. f_equal. by apply IH.
    + rewrite !filter_cons_False by done. by apply IH.
  - by apply IH.
Qed.

(** Whether a path ends with a separator, [after] one. *)
Definition ends (after : bool) (p : list Z) : bool :=
  match last p with Some c => IsPathSeparator c | None => after end.

Lemma ends_cons after c p : ends after (c :: p) = ends (IsPathSeparator c) p.
Proof. unfold ends. rewrite last_cons. by destruct (last p). Qed.

Lemma normalize_ends after p : ends after (normalize_loop after p) = ends after p.
Proof.
  revert after. induction p as [|c p IH]; intros after; [done|]. rewrite ends_cons.
  cbn [normalize_loop]. destruct (IsPathSeparator c) eqn:E; [destruct after|];
    rewrite ?ends_cons, ?E; apply IH.
Qed.

(** Normalising a path takes out the separators that follow another one and nothing
    else: whether it is absolute, whether it is a directory and its components stay, and
    normalising again changes nothing. *)
Theorem Normalize_spec p :
  let q := Normalize p in
  normal q ∧ Normalize q = q ∧ components q = components (from_c_str p) ∧
  IsAbsolutePath q = IsAbsolutePath (from_c_str p) ∧
  IsDirectory q = IsDirectory (from_c_str p).
Proof.
  cbv zeta. split; [apply FilePath_normal|]. split; [apply normal_FilePath, FilePath_normal|].
  unfold Normalize. generalize (from_c_str p) as l. clear p. intros l. split_and!.
  - by apply normalize_parts.
  - destruct l as [|c l]; [done|]. simpl. by destruct (IsPathSeparator c) eqn:E.
  - apply (normalize_ends false).
Qed.

(** * Splitting *)

Lemma normal_app p q : normal (p ++ q) → normal p ∧ normal q.
Proof.
  intros [Hz Hd]. apply Forall_app in Hz as [H1 H2]. apply no_double_app in Hd as [H3 H4].
  by split; split.
Qed.

Lemma last_separator p i :
  FindLastPathSeparator p = Some i →
  ∃ a b, p = a ++ kPathSeparator :: b ∧ length a = i ∧ Forall (λ c, IsPathSeparator c = false) b.
Proof.
  revert i. induction p as [|c p IH]; intros i; [done|]. cbn [FindLastPathSeparator].
  destruct (FindLastPathSeparator p) as [j|] eqn:E.
  - intros [= <-]. destruct (IH j eq_refl) as (a & b & -> & <- & Hb). by exists (c :: a), b.
  - destruct (IsPathSeparator c) eqn:Ec; [|done]. intros [= <-]. apply Z.eqb_eq in Ec as ->.
    exists [], p. split; [done|]. split; [done|]. clear IH. induction p as [|d p IH]; [constructor|].
    cbn [FindLastPathSeparator] in E. destruct (FindLastPathSeparator p); [done|].
    destruct (IsPathSeparator d) eqn:Ed; [done|]. constructor; auto.
Qed.

Lemma no_separator p :
  FindLastPathSeparator p = None → Forall (λ c, IsPathSeparator c = false) p.
Proof.
  induction p as [|c p IH]; [constructor|]. cbn [FindLastPathSeparator].
  destruct (FindLastPathSeparator p); [done|]. destruct (IsPathSeparator c) eqn:E; [done|].
  constructor; auto.
Qed.

(** A path is its directory and its file: the directory is [./] for a file alone. *)
Theorem directory_and_file p :
  normal p →
  (FindLastPathSeparator p = None ∧ RemoveFileName p = text "./" ∧ RemoveDirectoryName p = p) ∨
  (p = RemoveFileName p ++ RemoveDirectoryName p ∧ IsDirectory (RemoveFileName p) = true ∧
   Forall (λ c, IsPathSeparator c = false) (RemoveDirectoryName p)).
Proof.
  intros Hp. unfold RemoveFileName, RemoveDirectoryName.
  destruct (FindLastPathSeparator p) as [i|] eqn:E; [right|by left].
  destruct (last_separator p i E) as (a & b & -> & <- & Hb).
  rewrite (cons_middle kPathSeparator a b), app_assoc in Hp |- *.
  apply normal_app in Hp as [H1 H2].
  replace (length a + 1)%nat with (length (a ++ [kPathSeparator])) by (rewrite length_app; simpl; lia).
  rewrite take_app_length, drop_app_length, !normal_FilePath by done.
  split; [done|]. split; [|done]. unfold IsDirectory. by rewrite last_snoc.
Qed.

(** The documented directory of a file in the root is [./]; it is the root. *)
Theorem directory_of_root_file : RemoveFileName (FilePath (text "/a_file")) = text "/".
Proof. reflexivity. Qed.

(** * Making directories *)

Definition parent (p : list Z) : list Z := RemoveFileName (RemoveTrailingPathSeparator p).

Lemma IsDirectory_split p : IsDirectory p = true → ∃ q, p = q ++ [kPathSeparator].
Proof.
  unfold IsDirectory. destruct (last p) as [c|] eqn:E; [|done]. intros ->%Z.eqb_eq.
  apply last_Some in E as [q ->]. by exists q.
Qed.

Lemma RemoveTrailing_split q : normal (q ++ [kPathSeparator]) →
  RemoveTrailingPathSeparator (q ++ [kPathSeparator]) = q.
Proof.
  intros [Hq _]%normal_app. unfold RemoveTrailingPathSeparator, IsDirectory. rewrite last_snoc.
  cbn. unfold substr. rewrite length_app, drop_0. cbn [length].
  rewrite Nat.add_sub, take_app_length. by apply normal_FilePath.
Qed.

Lemma parent_shorter p :
  normal p → IsDirectory p = true →
  normal (parent p) ∧ IsDirectory (parent p) = true ∧
  (parent p = kCurrentDirectoryString ∨ (length (parent p) < length p)%nat).
Proof.
  intros Hp (q & ->)%IsDirectory_split. unfold parent. rewrite RemoveTrailing_split by done.
  pose proof Hp as [Hq _]%normal_app. split; [apply FilePath_normal|].
  destruct (directory_and_file q Hq) as [(_ & -> & _)|(E & Hd & _)].
  - split; [done|]. by left.
  - split; [done|]. right. rewrite length_app. rewrite E at 2. rewrite length_app. simpl. lia.
Qed.

(** The directories of a path: itself, its parent and so on. *)
Inductive above (p : list Z) : list Z → Prop :=
  | above_self : above p p
  | above_parent q : above (parent p) q → above p q.

Section Directories.
Context {FS : Type} `{FileSystemLaws FS}.

Lemma CreateFolder_spec fs p :
  let r := CreateFolder fs p in
  (∀ q b, stat fs q = Some b → stat r.2 q = Some b) ∧
  (∀ q, stat r.2 q = Some false → stat fs q = Some false) ∧
  (r.1 = true → stat r.2 p = Some true).
Proof.
  unfold CreateFolder. pose proof (mkdir_makes fs p) as Hm. pose proof (mkdir_keeps fs p) as Hk.
  pose proof (mkdir_files fs p) as Hf. pose proof (mkdir_result fs p) as Hr.
  destruct (mkdir fs p) as [z fs']. simpl in *. split_and!; [done|done|].
  destruct Hr as [->| ->]; simpl.
  - intros _. by apply Hm.
  - unfold DirectoryExists. by intros ?%bool_decide_eq_true.
Qed.

Lemma create_spec fuel fs p :
  normal p → IsDirectory p = true → stat fs kCurrentDirectoryString = Some true →
  (length p < fuel)%nat →
  ∃ b fs', CreateDirectoriesRecursively fuel fs p = Some (b, fs') ∧
    (∀ q c, stat fs q = Some c → stat fs' q = Some c) ∧
    (∀ q, stat fs' q = Some false → stat fs q = Some false) ∧
    (b = true → stat fs' p = Some true) ∧
    ((∀ q, above p q → stat fs q ≠ Some false) → b = true).
Proof.
  revert p. induction fuel as [|fuel IH]; intros p Hn Hd Hc Hf; [lia|].
  cbn [CreateDirectoriesRecursively]. rewrite Hd. simpl.
  destruct (length p =? 0)%nat eqn:El; simpl.
  { destruct p; [done|discriminate El]. }
  destruct (DirectoryExists fs p) eqn:Ee; simpl.
  { apply bool_decide_eq_true in Ee. exists true, fs. by split_and!. }
  apply bool_decide_eq_false in Ee.
  destruct (parent_shorter p Hn Hd) as (Hn' & Hd' & Hlen). fold (parent p).
  assert (∃ b fs', CreateDirectoriesRecursively fuel fs (parent p) = Some (b, fs') ∧
    (∀ q c, stat fs q = Some c → stat fs' q = Some c) ∧
    (∀ q, stat fs' q = Some false → stat fs q = Some false) ∧
    (b = true → stat fs' (parent p) = Some true) ∧
    ((∀ q, above (parent p) q → stat fs q ≠ Some false) → b = true))
    as (b & fs' & -> & Hk & Hfl & Hp & Hb).
  { destruct (decide (parent p = kCurrentDirectoryString)) as [E|E]; [|apply IH; [done..|]].
    - rewrite E. destruct fuel as [|fuel]; [destruct p; [done|simpl in Hf; lia]|].
      cbn [CreateDirectoriesRecursively]. change (IsDirectory kCurrentDirectoryString) with true.
      simpl. unfold DirectoryExists. rewrite bool_decide_eq_true_2 by done.
      exists true, fs. by split_and!.
    - destruct Hlen as [?|Hlen]; [done|]. lia. }
  simpl. destruct b.
  - pose proof (CreateFolder_spec fs' p) as (H1 & H2 & H3).
    destruct (CreateFolder fs' p) as [b fs''] eqn:Ec. simpl in *. exists b, fs''.
    split; [done|]. split; [auto|]. split; [auto|]. split; [done|]. intros Ha.
    destruct (stat fs' p) as [[|]|] eqn:Es.
    + unfold CreateFolder in Ec. pose proof (mkdir_keeps fs' p p true Es) as Hm.
      destruct (mkdir fs' p) as [z f]. simplify_eq/=. case_match; [|done].
      by apply bool_decide_eq_true_2.
    + exfalso. apply (Ha p); [constructor|auto].
    + unfold CreateFolder in Ec. pose proof (mkdir_succeeds fs' p Es (Hp eq_refl)) as Hm.
      destruct (mkdir fs' p) as [z f]. simpl in *. by simplify_eq/=.
  - exists false, fs'. split; [done|]. split; [done|]. split; [done|]. split; [done|].
    intros Ha. apply Hb. intros q Hq. apply Ha. by constructor.
Qed.
End Directories.

(** Making a directory with those above it returns, as long as the current directory is
    one: true means that the directory is there, and it is true whenever no file is in
    the way; nothing that was there is lost and no file appears. *)
Theorem CreateDirectories_spec {FS} `{FileSystemLaws FS} fs p :
  normal p → IsDirectory p = true → stat fs kCurrentDirectoryString = Some true →
  ∃ b fs', CreateDirectoriesRecursively (S (length p)) fs p = Some (b, fs') ∧
    (b = true → stat fs' p = Some true) ∧
    ((∀ q, above p q → stat fs q ≠ Some false) → b = true) ∧
    (∀ q c, stat fs q = Some c → stat fs' q = Some c) ∧
    (∀ q, stat fs' q = Some false → stat fs q = Some false).
Proof.
  intros Hn Hd Hc. destruct (create_spec (S (length p)) fs p Hn Hd Hc) as (b & fs' & ? & ? & ? & ? & ?);
    [lia|]. by exists b, fs'.
Qed.

(** When the current directory cannot be examined, making a directory that is not there
    calls itself for [./] for ever. *)
Theorem CreateDirectories_may_not_return {FS} `{FileSystem FS} fs p :
  stat fs kCurrentDirectoryString ≠ Some true → stat fs p ≠ Some true →
  IsDirectory p = true → parent p = kCurrentDirectoryString →
  ∀ fuel, CreateDirectoriesRecursively fuel fs p = None.
Proof.
  intros Hc. assert (∀ fuel p, stat fs p ≠ Some true → IsDirectory p = true →
    parent p = kCurrentDirectoryString → CreateDirectoriesRecursively fuel fs p = None) as Hloop.
  { induction fuel as [|fuel IH]; intros q Hq Hd Hp; [done|].
    cbn [CreateDirectoriesRecursively]. rewrite Hd. simpl.
    destruct (length q =? 0)%nat eqn:El; [by destruct q|]. simpl. unfold DirectoryExists.
    rewrite bool_decide_eq_false_2 by done. fold (parent q). rewrite Hp, IH by done. done. }
  intros Hq Hd Hp fuel. by apply Hloop.
Qed.

(** * A file that is not there *)

Lemma unique_loop_spec {FS} `{FileSystem FS} fs dir base ext (n : nat) fuel k :
  (∀ m, (k <= m < k + n)%nat →
    stat fs (MakeFileName dir base (Z.of_nat m) ext) ≠ None) →
  stat fs (MakeFileName dir base (Z.of_nat (k + n)) ext) = None → (n < fuel)%nat →
  unique_loop fuel fs dir base ext (Z.of_nat k) =
    Some (MakeFileName dir base (Z.of_nat (k + n)) ext).
Proof.
  revert k fuel. induction n as [|n IH]; intros k [|fuel] Hm Hn Hf; try lia; cbn [unique_loop];
    unfold FileOrDirectoryExists.
  - rewrite Nat.add_0_r in *. rewrite bool_decide_eq_false_2; [done|]. rewrite Hn.
    by intros [? ?].
  - rewrite bool_decide_eq_true_2.
    + replace (Z.of_nat k + 1) with (Z.of_nat (S k)) by lia.
      rewrite IH; [by rewrite Nat.add_succ_comm|..]; [|by rewrite Nat.add_succ_comm|lia].
      intros m Hk. apply Hm. lia.
    + destruct (stat fs (MakeFileName dir base (Z.of_nat k) ext)) eqn:E; [by eexists|].
      by apply Hm in E; [|lia].
Qed.

(** The name is the first of the numbered ones that is free. *)
Theorem GenerateUniqueFileName_first {FS} `{FileSystem FS} fs dir base ext n :
  (∀ m, (m < n)%nat → stat fs (MakeFileName dir base (Z.of_nat m) ext) ≠ None) →
  stat fs (MakeFileName dir base (Z.of_nat n) ext) = None →
  GenerateUniqueFileName (S n) fs dir base ext = Some (MakeFileName dir base (Z.of_nat n) ext).
Proof.
  intros Hm Hn. unfold GenerateUniqueFileName.
  apply (unique_loop_spec fs dir base ext n (S n) 0); [|done|lia]. intros m Hk. apply Hm. lia.
Qed.

(** * The file of the report *)

Lemma absolute_app p q : IsAbsolutePath p = true → IsAbsolutePath (p ++ q) = true.
Proof. by destruct p. Qed.

Lemma absolute_FilePath p : IsAbsolutePath p = true → IsAbsolutePath (FilePath p) = true.
Proof.
  intros H. destruct (Normalize_spec p) as (_ & _ & _ & Ha & _). unfold FilePath. rewrite Ha.
  destruct p as [|c p]; [done|]. simpl in H. apply Z.eqb_eq in H as ->. done.
Qed.

Lemma ConcatPaths_absolute d r :
  normal d → IsAbsolutePath d = true →
  normal (ConcatPaths d r) ∧ IsAbsolutePath (ConcatPaths d r) = true.
Proof.
  intros Hn Hd. unfold ConcatPaths, IsEmpty.
  rewrite bool_decide_eq_false_2 by (by intros ->).
  split; [apply FilePath_normal|]. apply absolute_FilePath.
  destruct (IsDirectory d) eqn:E.
  - destruct (IsDirectory_split d E) as [q ->]. rewrite RemoveTrailing_split by done.
    by destruct q.
  - unfold RemoveTrailingPathSeparator. rewrite E. by apply absolute_app.
Qed.

Lemma MakeFileName_absolute d base n ext :
  normal d → IsAbsolutePath d = true →
  normal (MakeFileName d base n ext) ∧ IsAbsolutePath (MakeFileName d base n ext) = true.
Proof. intros. unfold MakeFileName. by apply ConcatPaths_absolute. Qed.

Lemma unique_loop_result {FS} `{FileSystem FS} fuel fs dir base ext n p :
  unique_loop fuel fs dir base ext n = Some p →
  stat fs p = None ∧ ∃ m, p = MakeFileName dir base m ext.
Proof.
  revert n. induction fuel as [|fuel IH]; intros n; [done|]. cbn [unique_loop].
  destruct (FileOrDirectoryExists _ _) eqn:E; [apply IH|]. intros [= <-]. split; [|by eexists].
  apply bool_decide_eq_false, eq_None_not_Some in E. done.
Qed.

(** The report goes to an absolute path when the working directory is one; where the
    flag names a directory it goes to a file in it that is not there yet. *)
Theorem output_file_spec {FS} `{FileSystem FS} fuel fs dir argv0 flag p :
  normal dir → IsAbsolutePath dir = true →
  GetAbsolutePathToOutputFile fuel fs dir argv0 flag = Some p →
  normal p ∧ IsAbsolutePath p = true ∧
  (stat fs p = None ∨
   ∀ colon, find_char 58 flag = Some colon → IsDirectory p = false).
Proof.
  intros Hn Ha. unfold GetAbsolutePathToOutputFile. rewrite (normal_FilePath dir) by done.
  destruct (find_char 58 flag) as [colon|].
  - set (out := if IsAbsolutePath (FilePath (drop (colon + 1) flag)) then _ else _).
    assert (normal out ∧ IsAbsolutePath out = true) as [Ho Hoa].
    { unfold out. destruct (IsAbsolutePath (FilePath _)) eqn:E.
      - split; [apply FilePath_normal|done].
      - by apply ConcatPaths_absolute. }
    destruct (IsDirectory out) eqn:Ed; simpl.
    + intros H1. destruct (unique_loop_result _ _ _ _ _ _ _ H1) as (Hs & m & ->).
      destruct (MakeFileName_absolute out (GetCurrentExecutableName argv0) m
        (GetOutputFormat flag) Ho Hoa). auto.
    + intros [= <-]. auto.
  - intros [= <-]. destruct (ConcatPaths_absolute dir (FilePath kDefaultOutputFile) Hn Ha).
    split_and!; [done|done|]. by right.
Qed.

(** * A file system of directories *)

Module Example_paths.

Definition Directories : Type := gset (list Z).

#[export] Instance directories_fs : FileSystem Directories := {
  stat fs p := if decide (p ∈ fs) then Some true else None;
  mkdir fs p :=
    if decide (p ∈ fs) then (-1, fs)
    else if decide (RemoveFileName (RemoveTrailingPathSeparator p) ∈ fs)
         then (0, {[p]} ∪ fs) else (-1, fs)
}.

#[export] Instance directories_laws : FileSystemLaws Directories.
Proof.
  split; unfold stat, mkdir, directories_fs; intros; repeat case_decide; simplify_eq/=;
    repeat case_decide; try done; set_solver.
Qed.

Definition home : Directories := {[text "./"; text "/"; text "/home/"]}.

Lemma CreateDirectories_spec_witness :
  ∃ b fs', CreateDirectoriesRecursively 14 home (text "/home/ci/out/") = Some (b, fs') ∧
    (b = true → stat fs' (text "/home/ci/out/") = Some true) ∧
    ((∀ q, above (text "/home/ci/out/") q → stat home q ≠ Some false) → b = true) ∧
    (∀ q c, stat home q = Some c → stat fs' q = Some c) ∧
    (∀ q, stat fs' q = Some false → stat home q = Some false).
Proof.
  apply (CreateDirectories_spec home (text "/home/ci/out/")); [|reflexivity|by vm_compute].
  split; [|reflexivity]. by repeat constructor.
Defined.

Lemma CreateDirectories_may_not_return_witness :
  CreateDirectoriesRecursively 100 (∅ : Directories) (text "out/") = None.
Proof. apply CreateDirectories_may_not_return; by vm_compute. Defined.

Lemma GenerateUniqueFileName_first_witness :
  GenerateUniqueFileName 2 ({[text "/t/basic.xml"]} : Directories) (text "/t/") (text "basic")
    (text "xml") = Some (text "/t/basic_1.xml").
Proof.
  apply (GenerateUniqueFileName_first ({[text "/t/basic.xml"]} : Directories) (text "/t/")
    (text "basic") (text "xml") 1); [|by vm_compute].
  intros m Hm. assert (m = 0%nat) as -> by lia. by vm_compute.
Defined.

Lemma output_file_spec_witness :
  normal (text "/home/out/basic_test.xml") ∧ IsAbsolutePath (text "/home/out/basic_test.xml") = true ∧
  (stat home (text "/home/out/basic_test.xml") = None ∨
   ∀ colon, find_char 58 (text "xml:out/") = Some colon →
     IsDirectory (text "/home/out/basic_test.xml") = false).
Proof.
  apply (output_file_spec 1 home (text "/home") (text "build/basic_test") (text "xml:out/"));
    [|reflexivity|by vm_compute].
  split; [|reflexivity]. by repeat constructor.
Defined.

Lemma directory_and_file_witness :
  (FindLastPathSeparator (text "a/b") = None ∧ RemoveFileName (text "a/b") = text "./" ∧
   RemoveDirectoryName (text "a/b") = text "a/b") ∨
  (text "a/b" = RemoveFileName (text "a/b") ++ RemoveDirectoryName (text "a/b") ∧
   IsDirectory (RemoveFileName (text "a/b")) = true ∧
   Forall (λ c, IsPathSeparator c = false) (RemoveDirectoryName (text "a/b"))).
Proof. apply directory_and_file. split; [|reflexivity]. by repeat constructor. Defined.

(** A directory given with two colons, as in the documented example, is one whose name
    begins with a colon. *)
Theorem two_colons_are_kept :
  GetAbsolutePathToOutputFile 1 home (text "/home") (text "basic_test")
    (text "xml::out/") = Some (text "/home/:out/basic_test.xml").
Proof. vm_compute. reflexivity. Qed.

End Example_paths.
