(* ===== verification/Flags.v ===== *)
(** The flags of Google Test ([src/lib/googletest/src/gtest.cc]): their defaults from the
    environment ([gtest-port.cc]), the command line and flag files.

    The global variable of a flag is found by its name.  Warnings that are printed are
    left out.  [None] is an exit of the program. *)

From S2P Require Import Prelude Strings Utf8 Assertions TestRun.
From stdpp Require Import base gmap list strings.
From Stdlib Require Import ZArith Ascii.

Open Scope Z_scope.

(** * State *)

Record State := mkState {
  bools : gmap string bool;
  strings : gmap string string;
  ints : gmap string Z;
  g_help_flag : bool
}.

Definition set_bool (flag : string) (x : bool) (s : State) : State :=
  mkState (<[flag := x]> s.(bools)) s.(strings) s.(ints) s.(g_help_flag).
Definition set_string (flag : string) (x : string) (s : State) : State :=
  mkState s.(bools) (<[flag := x]> s.(strings)) s.(ints) s.(g_help_flag).
Definition set_int (flag : string) (x : Z) (s : State) : State :=
  mkState s.(bools) s.(strings) (<[flag := x]> s.(ints)) s.(g_help_flag).
Definition set_help (s : State) : State :=
  mkState s.(bools) s.(strings) s.(ints) true.

(** * Parsing a flag *)

(** What follows a prefix. *)
Fixpoint SkipPrefix (prefix str : string) : option string :=
  match prefix, str with
  | EmptyString, _ => Some str
  | String p prefix, String c str => if decide (p = c) then SkipPrefix prefix str else None
  | String _ _, EmptyString => None
  end.

Definition GTEST_FLAG_PREFIX_ : string := "gtest_".
Definition GTEST_FLAG_PREFIX_DASH_ : string := "gtest-".

Definition ParseFlagValue (str flag : string) (def_optional : bool) : option string :=
  match SkipPrefix ("--" +:+ GTEST_FLAG_PREFIX_ +:+ flag) str with
  | None => None
  | Some flag_end =>
      if def_optional && bool_decide (flag_end = "") then Some flag_end
      else match flag_end with
           | String c value => if decide (c = "="%char) then Some value else None
           | EmptyString => None
           end
  end.

(** [None] is false, with the variable as it was. *)
Definition ParseBoolFlag (str flag : string) (s : State) : option State :=
  value_str ← ParseFlagValue str flag true;
  Some (set_bool flag
    (match value_str with
     | String c _ => negb (bool_decide (c = "0"%char) || bool_decide (c = "f"%char)
                           || bool_decide (c = "F"%char))
     | EmptyString => true
     end) s).

Definition ParseInt32Flag (str flag : string) (s : State) : option State :=
  value_str ← ParseFlagValue str flag false;
  value ← ParseInt32 value_str;
  Some (set_int flag value s).

Definition ParseStringFlag (str flag : string) (s : State) : option State :=
  value_str ← ParseFlagValue str flag false;
  Some (set_string flag value_str s).

Definition or_skip (prefixes : list string) (str : string) : option string :=
  foldr (λ p rest, match SkipPrefix p str with Some s => Some s | None => rest end) None prefixes.

Definition HasGoogleTestFlagPrefix (str : string) : bool :=
  match or_skip ["--"; "-"; "/"] str with
  | None => false
  | Some str =>
      bool_decide (SkipPrefix (GTEST_FLAG_PREFIX_ +:+ "internal_") str = None) &&
      bool_decide (is_Some (or_skip [GTEST_FLAG_PREFIX_; GTEST_FLAG_PREFIX_DASH_] str))
  end.

(** ** All flags *)

Inductive Kind := BoolFlag | StringFlag | Int32Flag.

Definition google_test_flags : list (Kind * string) :=
  [(BoolFlag, "also_run_disabled_tests"); (BoolFlag, "break_on_failure");
   (BoolFlag, "catch_exceptions"); (StringFlag, "color"); (StringFlag, "death_test_style");
   (BoolFlag, "death_test_use_fork"); (StringFlag, "filter");
   (StringFlag, "internal_run_death_test"); (BoolFlag, "list_tests"); (StringFlag, "output");
   (BoolFlag, "print_time"); (Int32Flag, "random_seed"); (Int32Flag, "repeat");
   (BoolFlag, "shuffle"); (Int32Flag, "stack_trace_depth"); (StringFlag, "stream_result_to");
   (BoolFlag, "throw_on_failure")].

Definition parse_flag (f : Kind * string) (arg : string) (s : State) : option State :=
  match f.1 with
  | BoolFlag => ParseBoolFlag arg f.2 s
  | StringFlag => ParseStringFlag arg f.2 s
  | Int32Flag => ParseInt32Flag arg f.2 s
  end.

(** The chain of [||]. *)
Fixpoint first_flag (flags : list (Kind * string)) (arg : string) (s : State) : option State :=
  match flags with
  | [] => None
  | f :: flags =>
      match parse_flag f arg s with Some s => Some s | None => first_flag flags arg s end
  end.

Definition ParseGoogleTestFlag (arg : string) (s : State) : option State :=
  first_flag google_test_flags arg s.

(** * Flag files *)

(** The contents of files; [None] where a file cannot be opened. *)
Definition Files : Type := string → option string.

Fixpoint load_lines (lines : list string) (s : State) : State :=
  match lines with
  | [] => s
  | l :: lines =>
      load_lines lines
        (if decide (l = "") then s
         else match ParseGoogleTestFlag l s with Some s => s | None => set_help s end)
  end.

Definition LoadFlagsFromFile (files : Files) (path : string) (s : State) : option State :=
  contents ← files path;
  Some (load_lines (of_text ∘ from_c_str <$> SplitString (text contents) 10) s).

(** * The command line *)

(** Whether the argument is removed, and the flags after it. *)
Definition parse_argument (files : Files) (arg : string) (s : State) : option (bool * State) :=
  match ParseGoogleTestFlag arg s with
  | Some s => Some (true, s)
  | None =>
      match ParseStringFlag arg "flagfile" s with
      | Some s =>
          s ← LoadFlagsFromFile files (default "" (s.(strings) !! "flagfile")) s;
          Some (true, s)
      | None =>
          Some (false, if bool_decide (arg ∈ ["--help"; "-h"; "-?"; "/?"]) || HasGoogleTestFlagPrefix arg
                       then set_help s else s)
      end
  end.

(** The loop that shifts the rest of [argv], the null pointer at its end included, to the
    left by one; [n] moves from [j] on. *)
Fixpoint shift_loop (n j : nat) (argv : list (option string)) : list (option string) :=
  match n with
  | O => argv
  | S n => shift_loop n (S j) (match argv !! S j with Some x => <[j := x]> argv | None => argv end)
  end.

(** The loop over the arguments; every round passes one or removes one, so their number
    is fuel.  A null pointer is printed as [(null)]. *)
Fixpoint flags_loop (fuel : nat) (files : Files) (i argc : nat) (argv : list (option string))
    (s : State) : option (nat * list (option string) * State) :=
  match fuel with
  | O => Some (argc, argv, s)
  | S fuel =>
      if (i <? argc)%nat then
        arg ← default "(null)" <$> argv !! i;
        '(remove_flag, s) ← parse_argument files arg s;
        if remove_flag : bool
        then flags_loop fuel files i (argc - 1) (shift_loop (argc - i) i argv) s
        else flags_loop fuel files (S i) argc argv s
      else Some (argc, argv, s)
  end.

Definition ParseGoogleTestFlagsOnly (files : Files) (argc : nat) (argv : list (option string))
    (s : State) : option (nat * list (option string) * State) :=
  flags_loop argc files 1 argc argv s.

(** * Defaults from the environment *)

Definition ToUpper (c : ascii) : ascii :=
  if (97 <=? code c) && (code c <=? 122) then ascii_of_N (Z.to_N (code c - 32)) else c.

Definition FlagToEnvVar (flag : string) : string :=
  String.string_of_list_ascii (ToUpper <$> String.list_ascii_of_string (GTEST_FLAG_PREFIX_ +:+ flag)).

Definition BoolFromGTestEnv (env : Environment) (flag : string) (default_value : bool) : bool :=
  match env (FlagToEnvVar flag) with
  | None => default_value
  | Some string_value => negb (bool_decide (string_value = "0"))
  end.

Definition Int32FromGTestEnv (env : Environment) (flag : string) (default_value : Z) : Z :=
  match env (FlagToEnvVar flag) with
  | None => default_value
  | Some string_value => default default_value (ParseInt32 string_value)
  end.

Definition StringFromGTestEnv (env : Environment) (flag default_value : string) : string :=
  match env (FlagToEnvVar flag) with
  | Some value => value
  | None =>
      if decide (flag = "output") then
        match env "XML_OUTPUT_FILE" with
        | Some value => "xml:" +:+ value
        | None => default_value
        end
      else default_value
  end.

Definition kMaxStackTraceDepth : Z := 100.

(** The variables before the command line is read. *)
Definition initial_flags (env : Environment) : State :=
  mkState
    (list_to_map (((λ x, (x.1, BoolFromGTestEnv env x.1 x.2)) <$>
       [("also_run_disabled_tests", false); ("break_on_failure", false);
        ("catch_exceptions", true); ("print_time", true); ("shuffle", false);
        ("throw_on_failure", false); ("death_test_use_fork", false)]) ++ [("list_tests", false)]))
    (list_to_map (((λ x, (x.1, StringFromGTestEnv env x.1 x.2)) <$>
       [("color", "auto"); ("filter", "*"); ("output", ""); ("stream_result_to", "");
        ("flagfile", ""); ("death_test_style", "fast")]) ++ [("internal_run_death_test", "")]))
    (list_to_map ((λ x, (x.1, Int32FromGTestEnv env x.1 x.2)) <$>
       [("random_seed", 0); ("repeat", 1); ("stack_trace_depth", kMaxStackTraceDepth)]))
    false.

(** * Coloured text *)

Inductive GTestColor := COLOR_DEFAULT | COLOR_RED | COLOR_GREEN | COLOR_YELLOW.

(** [PrintColorEncoded]: what [ColoredPrintf] is called with; every round but the last
    takes a character. *)
Fixpoint color_loop (fuel : nat) (str : list Z) (color : GTestColor) : list (GTestColor * list Z) :=
  match fuel, find_char 64 str with
  | S fuel, Some p =>
      (color, take p str) ::
      let next := drop (p + 2) str in
      match str !! (p + 1)%nat with
      | Some ch =>
          if ch =? 64 then (color, [64]) :: color_loop fuel next color
          else if ch =? 68 then color_loop fuel next COLOR_DEFAULT
          else if ch =? 82 then color_loop fuel next COLOR_RED
          else if ch =? 71 then color_loop fuel next COLOR_GREEN
          else if ch =? 89 then color_loop fuel next COLOR_YELLOW
          else color_loop fuel (drop (p + 1) str) color
      | None => color_loop fuel [] color
      end
  | _, _ => [(color, str)]
  end.
Definition PrintColorEncoded (str : list Z) : list (GTestColor * list Z) :=
  color_loop (length str) str COLOR_DEFAULT.
