(* ===== verification/FlagsFacts.v ===== *)
(** Facts about the flags of Google Test: the loop over the command line is a filter,
    flags are read back from the arguments that set them, and which of command line and
    environment prevails. *)

From S2P Require Import Prelude Strings Utf8 Assertions TestRun TestRunFacts Flags.
From stdpp Require Import base gmap sets list strings.
From Stdlib Require Import ZArith Lia Ascii.

Open Scope Z_scope.

(** * The command line *)

(** The reference: the arguments that stay, and the flags at the end. *)
Fixpoint read_arguments (files : Files) (args : list string) (s : State)
    : option (list string * State) :=
  match args with
  | [] => Some ([], s)
  | arg :: args =>
      '(remove_flag, s) ← parse_argument files arg s;
      '(kept, s) ← read_arguments files args s;
      Some (if remove_flag : bool then kept else arg :: kept, s)
  end.

Lemma shift_loop_spec pre x mid post :
  shift_loop (length mid) (length pre) (pre ++ x :: mid ++ post) =
  pre ++ mid ++ default x (last mid) :: post.
Proof.
  revert pre x. induction mid as [|y mid IH]; intros pre x; [done|].
  cbn [length shift_loop].
  assert ((pre ++ x :: (y :: mid) ++ post) !! S (length pre) = Some y) as ->.
  { rewrite lookup_app_r by lia. by replace (S (length pre) - length pre)%nat with 1%nat by lia. }
  rewrite insert_app_r_alt by lia. rewrite Nat.sub_diag. cbn [insert list_insert app].
  rewrite (cons_middle y pre (y :: mid ++ post)), app_assoc.
  replace (S (length pre)) with (length (pre ++ [y])) by (rewrite length_app; simpl; lia).
  rewrite IH, <-app_assoc. cbn [app]. rewrite last_cons. by destruct (last mid).
Qed.

(** [argv] with some arguments in front of one: the one, and [argv] without it. *)
Lemma argument_lookup pre (a : string) args rest :
  ((Some <$> pre ++ a :: args) ++ None :: rest) !! length pre = Some (Some a).
Proof.
  rewrite fmap_app, <-app_assoc, lookup_app_r by (by rewrite length_fmap).
  by rewrite length_fmap, Nat.sub_diag.
Qed.

Lemma shift_removes pre a args rest :
  shift_loop (length pre + S (length args) - length pre) (length pre)
    ((Some <$> pre ++ a :: args) ++ None :: rest) =
  (Some <$> pre ++ args) ++ None :: None :: rest.
Proof.
  rewrite !fmap_app, <-!app_assoc. cbn [fmap list_fmap app].
  pose proof (shift_loop_spec (Some <$> pre) (Some a) ((Some <$> args) ++ [None]) rest) as Hs.
  rewrite length_app, !length_fmap, last_snoc, <-!app_assoc in Hs. cbn [length app default] in Hs.
  replace (length pre + S (length args) - length pre)%nat with (length args + 1)%nat by lia.
  exact Hs.
Qed.

Lemma flags_loop_spec files fuel pre args rest s :
  (length args <= fuel)%nat →
  match read_arguments files args s with
  | None =>
      flags_loop fuel files (length pre) (length pre + length args)
        ((Some <$> pre ++ args) ++ None :: rest) s = None
  | Some (kept, s') => ∃ rest',
      flags_loop fuel files (length pre) (length pre + length args)
        ((Some <$> pre ++ args) ++ None :: rest) s =
      Some ((length pre + length kept)%nat, (Some <$> pre ++ kept) ++ None :: rest', s')
  end.
Proof.
  revert pre args rest s. induction fuel as [|fuel IH]; intros pre args rest s Hf.
  { destruct args as [|a args]; [|simpl in Hf; lia]. simpl. by exists rest. }
  cbn [flags_loop]. destruct args as [|a args].
  { cbn [read_arguments]. rewrite Nat.ltb_irrefl || rewrite (proj2 (Nat.ltb_ge _ _)) by (simpl; lia).
    by exists rest. }
  rewrite (proj2 (Nat.ltb_lt _ _)) by (simpl; lia).
  rewrite argument_lookup.
  cbn [read_arguments default]. simpl. destruct (parse_argument files a s) as [[[|] s1]|]; [| |done]; simpl.
  - rewrite shift_removes.
    replace (length pre + S (length args) - 1)%nat with (length pre + length args)%nat by lia.
    specialize (IH pre args (None :: rest) s1). destruct (read_arguments files args s1) as [[kept s2]|];
      simpl; apply IH; simpl in Hf; lia.
  - specialize (IH (pre ++ [a]) args rest s1). rewrite length_app, <-!app_assoc in IH.
    cbn [length app] in IH.
    replace (length pre + 1)%nat with (S (length pre)) in IH by lia.
    replace (S (length pre) + length args)%nat with (length pre + S (length args))%nat in IH by lia.
    destruct (read_arguments files args s1) as [[kept s2]|]; simpl in *.
    + destruct IH as [rest' IH]; [lia|]. exists rest'. rewrite IH. rewrite <-!app_assoc. cbn [app].
      repeat f_equal. lia.
    + apply IH. lia.
Qed.

(** C22: The loop that shifts [argv] in place keeps, in their order, the name of the program
    and the arguments that are no flags of Google Test, counts them, and ends them with a
    null pointer; the flags are those of the arguments read one by one. *)
Theorem ParseFlags_filters files prog args s :
  match read_arguments files args s with
  | None =>
      ParseGoogleTestFlagsOnly files (S (length args)) ((Some <$> prog :: args) ++ [None]) s = None
  | Some (kept, s') => ∃ rest,
      ParseGoogleTestFlagsOnly files (S (length args)) ((Some <$> prog :: args) ++ [None]) s =
      Some (S (length kept), (Some <$> prog :: kept) ++ None :: rest, s')
  end.
Proof. apply (flags_loop_spec files (S (length args)) [prog] args [] s). lia. Qed.

(** * Setting and reading a flag *)

Inductive Value := VBool (b : bool) | VString (v : string) | VInt (n : Z).

Definition kind_of (v : Value) : Kind :=
  match v with VBool _ => BoolFlag | VString _ => StringFlag | VInt _ => Int32Flag end.
Definition show_value (v : Value) : string :=
  match v with VBool b => if b then "1" else "0" | VString s => s | VInt n => to_string n end.
Definition set_flag (name : string) (v : Value) (s : State) : State :=
  match v with
  | VBool b => set_bool name b s | VString x => set_string name x s | VInt n => set_int name n s
  end.
Definition get_flag (f : Kind * string) (s : State) : option Value :=
  match f.1 with
  | BoolFlag => VBool <$> s.(bools) !! f.2
  | StringFlag => VString <$> s.(strings) !! f.2
  | Int32Flag => VInt <$> s.(ints) !! f.2
  end.
Definition value_ok (v : Value) : Prop := match v with VInt n => is_i32 n | _ => True end.

Definition argument (name : string) (v : Value) : string :=
  "--" +:+ GTEST_FLAG_PREFIX_ +:+ name +:+ "=" +:+ show_value v.

Fixpoint no_equals (s : string) : bool :=
  match s with
  | EmptyString => true
  | String c s => negb (bool_decide (c = "="%char)) && no_equals s
  end.

Lemma SkipPrefix_app p s : SkipPrefix p (p +:+ s) = Some s.
Proof. induction p as [|c p IH]; [done|].
  rewrite !string_app_cons. cbn [SkipPrefix]. destruct (decide (c = c)); [exact IH|done].
Qed.

Lemma SkipPrefix_common p q s : SkipPrefix (p +:+ q) (p +:+ s) = SkipPrefix q s.
Proof. induction p as [|c p IH]; [done|].
  rewrite !string_app_cons. cbn [SkipPrefix]. destruct (decide (c = c)); [exact IH|done].
Qed.

(** A name that goes on, or ends, elsewhere than the flag of the argument. *)
Lemma SkipPrefix_other name name' v :
  no_equals name = true → no_equals name' = true → name ≠ name' →
  match SkipPrefix name (name' +:+ "=" +:+ v) with
  | Some (String c _) => c ≠ "="%char
  | Some EmptyString => False
  | None => True
  end.
Proof.
  revert name'. induction name as [|c name IH]; intros [|c' name'] H H' Hne; cbn; try done.
  - cbn in H'. apply andb_true_iff in H' as [H' _]. by apply negb_true_iff, bool_decide_eq_false in H'.
  - cbn in H. apply andb_true_iff in H as [H _]. apply negb_true_iff, bool_decide_eq_false in H.
    change ("" +:+ "=" +:+ v) with (String "=" v). cbv iota. by destruct (decide _).
  - rewrite !string_app_cons. destruct (decide (c = c')) as [->|]; [|done]. cbn in H, H'.
    apply andb_true_iff in H as [_ H]. apply andb_true_iff in H' as [_ H'].
    apply IH; [done..|]. by intros ->.
Qed.

Lemma ParseFlagValue_same name v b : ParseFlagValue (argument name v) name b = Some (show_value v).
Proof.
  unfold ParseFlagValue, argument. rewrite !SkipPrefix_common, SkipPrefix_app. cbn.
  by rewrite andb_false_r.
Qed.

Lemma ParseFlagValue_other name name' v b :
  no_equals name = true → no_equals name' = true → name ≠ name' →
  ParseFlagValue (argument name' v) name b = None.
Proof.
  intros H H' Hne. unfold ParseFlagValue, argument. rewrite !SkipPrefix_common.
  pose proof (SkipPrefix_other name name' (show_value v) H H' Hne) as Ho.
  destruct (SkipPrefix name _) as [[|c r]|]; try done. cbn. rewrite andb_false_r.
  by destruct (decide (c = "="%char)).
Qed.

Lemma parse_flag_same k name v s :
  kind_of v = k → value_ok v → parse_flag (k, name) (argument name v) s = Some (set_flag name v s).
Proof.
  intros <- Hv. destruct v as [b|x|n]; cbn; unfold ParseBoolFlag, ParseStringFlag, ParseInt32Flag;
    rewrite ParseFlagValue_same; cbn [mbind option_bind show_value].
  - by destruct b.
  - done.
  - by rewrite ParseInt32_to_string.
Qed.

Lemma parse_flag_other f name v s :
  no_equals f.2 = true → no_equals name = true → f.2 ≠ name →
  parse_flag f (argument name v) s = None.
Proof.
  intros H H' Hne. destruct f as [[] n]; cbn in *;
    unfold ParseBoolFlag, ParseStringFlag, ParseInt32Flag; by rewrite ParseFlagValue_other.
Qed.

Lemma first_flag_finds fs k name v s :
  (k, name) ∈ fs → NoDup fs.*2 → Forall (λ f, no_equals f.2 = true) fs → kind_of v = k →
  value_ok v → first_flag fs (argument name v) s = Some (set_flag name v s).
Proof.
  intros Hin Hnd Heq Hk Hv. induction fs as [|f fs IH]; [by apply not_elem_of_nil in Hin|].
  apply Forall_cons in Heq as [Hf Heq]. apply NoDup_cons in Hnd as [Hnin Hnd]. cbn [first_flag].
  apply elem_of_cons in Hin as [<-|Hin].
  - by rewrite parse_flag_same.
  - rewrite parse_flag_other; [by apply IH|done| |].
    + by eapply (Forall_forall (λ f, no_equals f.2 = true)) in Heq; [|exact Hin].
    + intros E. apply Hnin. rewrite E. apply list_elem_of_fmap. by exists (k, name).
Qed.

Lemma flags_distinct : NoDup google_test_flags.*2.
Proof. bd. Qed.

Lemma flags_no_equals : Forall (λ f, no_equals f.2 = true) google_test_flags.
Proof. by repeat constructor. Qed.

Lemma get_set_other f name v s : f.2 ≠ name → get_flag f (set_flag name v s) = get_flag f s.
Proof. intros H. destruct f as [[] n], v; cbn in *; by rewrite ?lookup_insert_ne. Qed.

Lemma get_set_same name v s : get_flag (kind_of v, name) (set_flag name v s) = Some v.
Proof. destruct v; cbn; by rewrite lookup_insert_eq. Qed.

Lemma set_flag_help name v s : g_help_flag (set_flag name v s) = g_help_flag s.
Proof. by destruct v. Qed.

(** * The arguments for a state *)

Definition arguments_for (fs : list (Kind * string)) (s : State) : list string :=
  omap (λ f, argument f.2 <$> get_flag f s) fs.

Lemma get_flag_kind f s v : get_flag f s = Some v → kind_of v = f.1.
Proof.
  destruct f as [[] n]; cbn; [destruct (bools s !! n)|destruct (strings s !! n)|destruct (ints s !! n)];
    cbn; by intros [= <-].
Qed.

Lemma read_arguments_for files fs s s0 :
  fs ⊆ google_test_flags → NoDup fs.*2 →
  (∀ f, f ∈ fs → ∃ v, get_flag f s = Some v ∧ value_ok v) →
  ∃ s', read_arguments files (arguments_for fs s) s0 = Some ([], s') ∧
    g_help_flag s' = g_help_flag s0 ∧
    (∀ f, f ∈ fs → get_flag f s' = get_flag f s) ∧
    (∀ f, f.2 ∉ fs.*2 → get_flag f s' = get_flag f s0).
Proof.
  revert s0. induction fs as [|[k n] fs IH]; intros s0 Hsub Hnd Hv.
  { exists s0. split_and!; try done. by intros f ?%not_elem_of_nil. }
  apply NoDup_cons in Hnd as [Hnin Hnd]. cbn [fst snd] in Hnin.
  destruct (Hv (k, n)) as (v & Hg & Hok); [by left|].
  pose proof (get_flag_kind _ _ _ Hg) as Hk. cbn in Hk.
  unfold arguments_for. cbn [omap list_omap]. rewrite Hg. cbn [fmap option_fmap option_map snd].
  cbn [read_arguments]. unfold parse_argument, ParseGoogleTestFlag at 1.
  rewrite (first_flag_finds google_test_flags k n v s0); [|apply Hsub; by left
    |apply flags_distinct|apply flags_no_equals|done|done].
  cbn [mbind option_bind].
  destruct (IH (set_flag n v s0)) as (s' & E & Hh & Hin & Hout); [set_solver|done| |].
  { intros f Hf. apply Hv. by right. }
  unfold arguments_for in E. rewrite E. cbn. exists s'. split; [done|]. split.
  { by rewrite Hh, set_flag_help. }
  split.
  - intros f [->|Hf]%elem_of_cons; [|by apply Hin].
    rewrite Hout by done. rewrite <-Hk at 1. by rewrite get_set_same, Hg.
  - intros f Hf. cbn in Hf. apply not_elem_of_cons in Hf as [Hne Hf].
    rewrite Hout by done. by apply get_set_other.
Qed.

(** Whatever the flags were, the arguments that spell the values of all flags set these
    values, are all removed, and ask for no help. *)
Theorem flags_read_back files prog s s0 :
  (∀ f, f ∈ google_test_flags → ∃ v, get_flag f s = Some v ∧ value_ok v) →
  let args := arguments_for google_test_flags s in
  ∃ rest s',
    ParseGoogleTestFlagsOnly files (S (length args)) ((Some <$> prog :: args) ++ [None]) s0 =
      Some (1%nat, Some prog :: None :: rest, s') ∧
    g_help_flag s' = g_help_flag s0 ∧
    ∀ f, f ∈ google_test_flags → get_flag f s' = get_flag f s.
Proof.
  intros Hv args.
  destruct (read_arguments_for files google_test_flags s s0) as (s' & E & Hh & Hg & _);
    [done|apply flags_distinct|done|].
  pose proof (flags_loop_spec files (S (length args)) [prog] args [] s0) as H.
  fold args in E. rewrite E in H. destruct H as [rest H]; [lia|].
  exists rest, s'. split; [exact H|]. by split.
Qed.

(** The report goes where the command line says, else GTEST_OUTPUT, else
    XML_OUTPUT_FILE; without any of them there is none. *)
Theorem output_priority files env prog v :
  get_flag (StringFlag, "output") (initial_flags env) =
    Some (VString match env "GTEST_OUTPUT" with
                  | Some x => x
                  | None => match env "XML_OUTPUT_FILE" with
                            | Some x => "xml:" +:+ x
                            | None => ""
                            end
                  end) ∧
  ∃ rest s,
    ParseGoogleTestFlagsOnly files 2 [Some prog; Some ("--gtest_output=" +:+ v); None]
      (initial_flags env) = Some (1%nat, Some prog :: None :: rest, s) ∧
    get_flag (StringFlag, "output") s = Some (VString v).
Proof.
  split.
  - cbn. unfold StringFromGTestEnv. change (FlagToEnvVar "output") with "GTEST_OUTPUT".
    by destruct (env "GTEST_OUTPUT"), (env "XML_OUTPUT_FILE").
  - pose proof (flags_loop_spec files 2 [prog] ["--gtest_output=" +:+ v] [] (initial_flags env)) as H.
    cbn [read_arguments] in H. unfold parse_argument in H.
    change ("--gtest_output=" +:+ v) with (argument "output" (VString v)) in H.
    unfold ParseGoogleTestFlag in H.
    rewrite (first_flag_finds google_test_flags StringFlag "output" (VString v)) in H;
      [|unfold google_test_flags; set_solver|apply flags_distinct|apply flags_no_equals|done|done].
    destruct H as [rest H]; [simpl; lia|]. exists rest, (set_flag "output" (VString v) (initial_flags env)).
    split; [exact H|]. apply (get_set_same "output" (VString v)).
Qed.

(** A number that cannot be read asks for help. *)
Theorem bad_number_asks_for_help files s :
  parse_argument files "--gtest_repeat=many" s = Some (false, set_help s) ∧
  parse_argument files "--gtest_internal_x" s = Some (false, s) ∧
  parse_argument files "--verbose" s = Some (false, s).
Proof. done. Qed.

Module Example_flags.

Definition no_files : Files := λ _, None.
Definition defaults : State := initial_flags (λ _, None).
Definition wanted : State := set_int "repeat" (-1) (set_string "filter" "A.*-B=C" defaults).

Lemma flags_read_back_witness :
  let args := arguments_for google_test_flags wanted in
  ∃ rest s',
    ParseGoogleTestFlagsOnly no_files (S (length args)) ((Some <$> "basic_test" :: args) ++ [None])
      defaults = Some (1%nat, Some "basic_test" :: None :: rest, s') ∧
    g_help_flag s' = false ∧
    ∀ f, f ∈ google_test_flags → get_flag f s' = get_flag f wanted.
Proof.
  apply (flags_read_back no_files "basic_test" wanted defaults).
  intros f Hf. unfold google_test_flags in Hf. set_unfold in Hf.
  repeat (destruct Hf as [->|Hf]; [eexists; split; [vm_compute; reflexivity|by vm_compute]|]).
  done.
Defined.

Example help_text_colors :
  PrintColorEncoded (text "use @G--x@D, a@@b@") =
    [(COLOR_DEFAULT, text "use "); (COLOR_GREEN, text "--x"); (COLOR_DEFAULT, text ", a");
     (COLOR_DEFAULT, text "@"); (COLOR_DEFAULT, text "b"); (COLOR_DEFAULT, [])].
Proof. reflexivity. Qed.

End Example_flags.
