(* ===== verification/DeathTest.v ===== *)
(** Death tests ([src/lib/googletest/src/gtest-death-test.cc], the macro of
    [gtest-death-test-internal.h], [GTestLog] and the capture of [stderr] of
    [gtest-port.cc]), on Linux.

    A process asks the operating system and gets answers: the answers to come are a list,
    what was asked and answered is a trace.  After a [fork], parent and child are two processes with
    the same past and different answers.  What the process writes to [stderr] is kept; the
    text that was captured is an answer, since the child writes to the same file.  An
    operation ends with a value, the death of the process, the execution of another
    program, or undefined behaviour; it is blocked where no answer is left. *)

From S2P Require Import Prelude Strings Utf8 Printers Assertions Flags.
From stdpp Require Import base gmap list strings.
From Stdlib Require Import ZArith Ascii.

Open Scope Z_scope.

(** * Exit status *)

(** How a process ends, and the status [waitpid] tells; the system decides on a core. *)
Inductive How := Exits (exit_code : Z) | Killed (signum : Z).

Definition wait_status (h : How) (core : bool) : Z :=
  match h with
  | Exits exit_code => Z.shiftl (Z.land exit_code 255) 8
  | Killed signum => Z.lor signum (if core then 128 else 0)
  end.

Definition WTERMSIG (status : Z) : Z := Z.land status 127.
Definition WIFEXITED (status : Z) : bool := WTERMSIG status =? 0.
Definition WEXITSTATUS (status : Z) : Z := Z.shiftr (Z.land status 65280) 8.
Definition WIFSIGNALED (status : Z) : bool :=
  let b := Z.land status 127 + 1 in 0 <? Z.shiftr (if b <? 128 then b else b - 256) 1.
Definition WCOREDUMP (status : Z) : bool := negb (Z.land status 128 =? 0).

Definition ExitedWithCode (exit_code_ exit_status : Z) : bool :=
  WIFEXITED exit_status && (WEXITSTATUS exit_status =? exit_code_).

Definition KilledBySignal (signum_ exit_status : Z) : bool :=
  WIFSIGNALED exit_status && (WTERMSIG exit_status =? signum_).

Definition ExitSummary (exit_code : Z) : list Z :=
  (if WIFEXITED exit_code then text "Exited with exit status " ++ show64 (WEXITSTATUS exit_code)
   else if WIFSIGNALED exit_code then text "Terminated by signal " ++ show64 (WTERMSIG exit_code)
   else []) ++
  (if WCOREDUMP exit_code then text " (core dumped)" else []).

Definition ExitedUnsuccessfully (exit_status : Z) : bool := negb (ExitedWithCode 0 exit_status).

(** * Texts *)

Definition DeathTestThreadWarning (thread_count : Z) : list Z :=
  text "Death tests use fork(), which is unsafe particularly" ++
  text " in a threaded context. For this test, " ++ text "Google Test" ++ text " " ++
  if thread_count =? 0 then text "couldn't detect the number of threads."
  else text "detected " ++ show64 thread_count ++ text " threads.".

(** The loop of [FormatDeathTestOutput]; every round but the last passes a newline. *)
Fixpoint format_loop (fuel : nat) (output : list Z) (at_ : nat) : list Z :=
  match fuel with
  | O => []
  | S fuel =>
      text "[  DEATH   ] " ++
      match find_char 10 (drop at_ output) with
      | None => drop at_ output
      | Some n =>
          let line_end := (at_ + n)%nat in
          substr output at_ (line_end + 1 - at_) ++ format_loop fuel output (line_end + 1)
      end
  end.
Definition FormatDeathTestOutput (output : list Z) : list Z :=
  format_loop (S (length output)) output 0.

Definition kDeathTestLived : Z := 76.
Definition kDeathTestReturned : Z := 82.
Definition kDeathTestThrew : Z := 84.
Definition kDeathTestInternalError : Z := 73.

Inductive DeathTestOutcome := IN_PROGRESS | DIED | LIVED | RETURNED | THREW.
Inductive TestRole := OVERSEE_TEST | EXECUTE_TEST.
Inductive AbortReason :=
  TEST_ENCOUNTERED_RETURN_STATEMENT | TEST_THREW_EXCEPTION | TEST_DID_NOT_DIE.

(** * Processes *)

Inductive Call :=
  | GetThreadCount
  | pipe
  | fork
  | close (fd : Z)
  | read (fd : Z) (count : Z)
  | write (fd : Z) (bytes : list Z)
  | fdopen (fd : Z)
  | waitpid (pid : Z)
  | fcntl_SETFD (fd flags : Z)
  | chdir (dir : list Z)
  | execve (path : list Z) (argv : list (list Z))
  | clone (argv : list (list Z)) (close_fd : Z)
  | sigaction_SIGPROF (ignore : bool)
  | getpagesize
  | mmap (size : Z)
  | munmap (addr size : Z)
  | read_captured_file.

(** What the system answers: the value returned, [errno], and what was written through
    pointers. *)
Record Answer := mkAnswer { ret : Z; errno : Z; data : list Z; values : Z * Z }.

Definition EINTR : Z := 4.
Definition SIGABRT : Z := 6.

Record InternalRunDeathTestFlag := mkFlag {
  file_ : list Z;
  line_ : Z;
  index_ : Z;
  flag_write_fd_ : Z
}.

Record Process := mkProcess {
  answers : list Answer;
  trace : list (Call * Answer);
  stderr : list Z;
  g_captured_stderr : bool;
  g_in_fast_death_test_child : bool;
  last_death_test_message_ : list Z;
  internal_run_death_test_flag : option InternalRunDeathTestFlag;
  current_test_info : option (list Z * list Z);
  death_test_count : Z;
  event_forwarding_enabled : bool;
  flags : Flags.State;
  g_argvs : list (list Z);
  original_working_dir : list Z
}.

Inductive Outcome (A : Type) :=
  | Value (a : A)
  | Dies (h : How)
  | Becomes (path : list Z) (argv : list (list Z))
  | Undefined
  | Blocked.
Arguments Value {A} a.
Arguments Dies {A} h.
Arguments Becomes {A} path argv.
Arguments Undefined {A}.
Arguments Blocked {A}.

Definition M (A : Type) : Type := Process → Outcome A * Process.

#[export] Instance M_ret : MRet M := λ _ a p, (Value a, p).
#[export] Instance M_bind : MBind M := λ _ _ f m p,
  match m p with
  | (Value a, p) => f a p
  | (Dies h, p) => (Dies h, p)
  | (Becomes path argv, p) => (Becomes path argv, p)
  | (Undefined, p) => (Undefined, p)
  | (Blocked, p) => (Blocked, p)
  end.

Definition asked (c : Call) (a : Answer) (answers : list Answer) (p : Process) : Process :=
  mkProcess answers (p.(trace) ++ [(c, a)]) p.(stderr) p.(g_captured_stderr)
    p.(g_in_fast_death_test_child) p.(last_death_test_message_) p.(internal_run_death_test_flag)
    p.(current_test_info) p.(death_test_count) p.(event_forwarding_enabled) p.(flags) p.(g_argvs)
    p.(original_working_dir).
Definition wrote (l : list Z) (p : Process) : Process :=
  mkProcess p.(answers) p.(trace) (p.(stderr) ++ l) p.(g_captured_stderr)
    p.(g_in_fast_death_test_child) p.(last_death_test_message_) p.(internal_run_death_test_flag)
    p.(current_test_info) p.(death_test_count) p.(event_forwarding_enabled) p.(flags) p.(g_argvs)
    p.(original_working_dir).
Definition with_capture (b : bool) (p : Process) : Process :=
  mkProcess p.(answers) p.(trace) p.(stderr) b p.(g_in_fast_death_test_child)
    p.(last_death_test_message_) p.(internal_run_death_test_flag) p.(current_test_info)
    p.(death_test_count) p.(event_forwarding_enabled) p.(flags) p.(g_argvs) p.(original_working_dir).
Definition with_message (l : list Z) (p : Process) : Process :=
  mkProcess p.(answers) p.(trace) p.(stderr) p.(g_captured_stderr) p.(g_in_fast_death_test_child) l
    p.(internal_run_death_test_flag) p.(current_test_info) p.(death_test_count)
    p.(event_forwarding_enabled) p.(flags) p.(g_argvs) p.(original_working_dir).
Definition with_count (n : Z) (p : Process) : Process :=
  mkProcess p.(answers) p.(trace) p.(stderr) p.(g_captured_stderr) p.(g_in_fast_death_test_child)
    p.(last_death_test_message_) p.(internal_run_death_test_flag) p.(current_test_info) n
    p.(event_forwarding_enabled) p.(flags) p.(g_argvs) p.(original_working_dir).

Definition with_flag (flag : option InternalRunDeathTestFlag) (p : Process) : Process :=
  mkProcess p.(answers) p.(trace) p.(stderr) p.(g_captured_stderr) p.(g_in_fast_death_test_child)
    p.(last_death_test_message_) flag p.(current_test_info) p.(death_test_count)
    p.(event_forwarding_enabled) p.(flags) p.(g_argvs) p.(original_working_dir).
Definition without_events (p : Process) : Process :=
  mkProcess p.(answers) p.(trace) p.(stderr) p.(g_captured_stderr) p.(g_in_fast_death_test_child)
    p.(last_death_test_message_) p.(internal_run_death_test_flag) p.(current_test_info)
    p.(death_test_count) false p.(flags) p.(g_argvs) p.(original_working_dir).

(** What the child of a death test of the fast style changes in its copy. *)
Definition become_fast_child (p : Process) : Process :=
  mkProcess p.(answers) p.(trace) p.(stderr) p.(g_captured_stderr) true p.(last_death_test_message_)
    p.(internal_run_death_test_flag) p.(current_test_info) p.(death_test_count) false p.(flags)
    p.(g_argvs) p.(original_working_dir).

Definition get {A} (f : Process → A) : M A := λ p, (Value (f p), p).
Definition update (f : Process → Process) : M unit := λ p, (Value tt, f p).
Definition die {A} (h : How) : M A := λ p, (Dies h, p).
Definition becomes {A} (path : list Z) (argv : list (list Z)) : M A := λ p, (Becomes path argv, p).
Definition undefined {A} : M A := λ p, (Undefined, p).

Definition sys (c : Call) : M Answer := λ p,
  match p.(answers) with
  | [] => (Blocked, p)
  | a :: l => (Value a, asked c a l p)
  end.

(** [GTEST_DEATH_TEST_CHECK_SYSCALL_] and the loops like it: the call is repeated while it
    is interrupted.  Every round takes an answer, so their number is fuel. *)
Fixpoint retry_loop (fuel : nat) (c : Call) : M Answer :=
  match fuel with
  | O => sys c
  | S fuel =>
      a ← sys c;
      if (a.(ret) =? -1) && (a.(errno) =? EINTR) then retry_loop fuel c else mret a
  end.
Definition retry (c : Call) : M Answer := λ p, retry_loop (length p.(answers)) c p.

Definition string_flag (name : string) (p : Process) : string :=
  default EmptyString (p.(flags).(strings) !! name).
Definition bool_flag (name : string) (p : Process) : bool :=
  default false (p.(flags).(bools) !! name).

Definition InDeathTestChild : M bool :=
  style ← get (string_flag "death_test_style");
  if decide (style = "threadsafe") then
    internal ← get (string_flag "internal_run_death_test");
    mret (negb (bool_decide (internal = "")))
  else get g_in_fast_death_test_child.

(** * Messages and errors *)

Section DeathTest.
(** [__FILE__] of this file and of [gtest-port.cc], [strerror], the extended regular expressions of the C library
    with the texts they were made of, and the answer of [StackGrowsDown]. *)
Context (FILE PORT_FILE : list Z) (StrError : Z → list Z).
Context {RE : Type} (PartialMatch : list Z → RE → bool) (pattern : RE → list Z).
Context (stack_grows_down : bool).

Inductive Severity := WARNING | FATAL.

(** [GTestLog], from its constructor to its destructor. *)
Definition GTEST_LOG_ (file : list Z) (severity : Severity) (line : Z) (message : list Z) : M unit :=
  _ ← update (wrote (newline ++
        match severity with WARNING => text "[WARNING]" | FATAL => text "[ FATAL ]" end ++
        text " " ++ file ++ text ":" ++ show64 line ++ text ":" ++ text ": " ++ message ++ newline));
  match severity with FATAL => die (Killed SIGABRT) | WARNING => mret tt end.

Definition DeathTestAbort (message : list Z) : M unit :=
  flag ← get internal_run_death_test_flag;
  match flag with
  | Some flag =>
      parent ← sys (fdopen flag.(flag_write_fd_));
      if parent.(ret) =? 0 then undefined
      else
        _ ← sys (write flag.(flag_write_fd_) (kDeathTestInternalError :: from_c_str message));
        die (Exits 1)
  | None => _ ← update (wrote (from_c_str message)); die (Killed SIGABRT)
  end.

Definition check_failed (line : Z) (what : list Z) : list Z :=
  text "CHECK failed: File " ++ FILE ++ text ", line " ++ show64 line ++ text ": " ++ what.

Definition GTEST_DEATH_TEST_CHECK_ (line : Z) (expression : string) (value : bool) : M unit :=
  if value then mret tt else DeathTestAbort (check_failed line (text expression)).

Definition GTEST_DEATH_TEST_CHECK_SYSCALL_ (line : Z) (expression : string) (c : Call) : M Answer :=
  a ← retry c;
  _ ← (if a.(ret) =? -1
       then DeathTestAbort (check_failed line (text expression ++ text " != -1")) else mret tt);
  mret a.

Definition GetLastErrnoDescription (errno : Z) : list Z :=
  if errno =? 0 then [] else StrError errno.

(** The loops of [FailFromInternalError]; every round takes an answer. *)
Fixpoint read_error_loop (fuel : nat) (fd : Z) (error : list Z) : M (list Z * Answer) :=
  match fuel with
  | O => a ← sys (read fd 255); mret (error, a)
  | S fuel =>
      a ← sys (read fd 255);
      if 0 <? a.(ret)
      then read_error_loop fuel fd (error ++ from_c_str (take (Z.to_nat a.(ret)) a.(data)))
      else if (a.(ret) =? -1) && (a.(errno) =? EINTR) then read_error_loop fuel fd error
      else mret (error, a)
  end.

Definition FailFromInternalError (fd : Z) : M unit :=
  n ← get (λ p, length p.(answers));
  '(error, a) ← read_error_loop n fd [];
  if a.(ret) =? 0 then GTEST_LOG_ FILE FATAL 336 error
  else GTEST_LOG_ FILE FATAL 339 (text "Error while reading death test internal: " ++
         GetLastErrnoDescription a.(errno) ++ text " [" ++ show64 a.(errno) ++ text "]").

(** * The object of a death test *)

(** The class of the object: [NoExecDeathTest] or [ExecDeathTest]. *)
Inductive Class_ := NoExecDeathTest | ExecDeathTest (file : list Z) (line : Z).

Record DeathTestImpl := mkDeathTest {
  class : Class_;
  statement_ : list Z;
  regex_ : RE;
  spawned_ : bool;
  status_ : Z;
  outcome_ : DeathTestOutcome;
  read_fd_ : Z;
  write_fd_ : Z;
  child_pid_ : Z
}.

Definition set_outcome (o : DeathTestOutcome) (d : DeathTestImpl) : DeathTestImpl :=
  mkDeathTest d.(class) d.(statement_) d.(regex_) d.(spawned_) d.(status_) o d.(read_fd_)
    d.(write_fd_) d.(child_pid_).
Definition set_status (s : Z) (d : DeathTestImpl) : DeathTestImpl :=
  mkDeathTest d.(class) d.(statement_) d.(regex_) d.(spawned_) s d.(outcome_) d.(read_fd_)
    d.(write_fd_) d.(child_pid_).
Definition set_read_fd (fd : Z) (d : DeathTestImpl) : DeathTestImpl :=
  mkDeathTest d.(class) d.(statement_) d.(regex_) d.(spawned_) d.(status_) d.(outcome_) fd
    d.(write_fd_) d.(child_pid_).
Definition set_write_fd (fd : Z) (d : DeathTestImpl) : DeathTestImpl :=
  mkDeathTest d.(class) d.(statement_) d.(regex_) d.(spawned_) d.(status_) d.(outcome_) d.(read_fd_)
    fd d.(child_pid_).
Definition set_spawned (b : bool) (d : DeathTestImpl) : DeathTestImpl :=
  mkDeathTest d.(class) d.(statement_) d.(regex_) b d.(status_) d.(outcome_) d.(read_fd_)
    d.(write_fd_) d.(child_pid_).
Definition set_child_pid (pid : Z) (d : DeathTestImpl) : DeathTestImpl :=
  mkDeathTest d.(class) d.(statement_) d.(regex_) d.(spawned_) d.(status_) d.(outcome_) d.(read_fd_)
    d.(write_fd_) pid.

(** The constructors, from [DeathTest] to [ForkingDeathTest]. *)
Definition construct (class : Class_) (a_statement : list Z) (a_regex : RE) : M DeathTestImpl :=
  info ← get current_test_info;
  _ ← (match info with
       | None => DeathTestAbort (text "Cannot run a death test outside of a TEST or " ++
                                 text "TEST_F construct")
       | Some _ => mret tt
       end);
  mret (mkDeathTest class a_statement a_regex false (-1) IN_PROGRESS (-1) (-1) (-1)).

Definition destroy (d : DeathTestImpl) : M unit :=
  GTEST_DEATH_TEST_CHECK_ 385 "read_fd_ == -1" (d.(read_fd_) =? -1).

Definition ReadAndInterpretStatusByte (d : DeathTestImpl) : M DeathTestImpl :=
  a ← retry (read d.(read_fd_) 1);
  d ← (if a.(ret) =? 0 then mret (set_outcome DIED d)
       else if a.(ret) =? 1 then
         let flag := default 0 (head a.(data)) in
         if flag =? kDeathTestReturned then mret (set_outcome RETURNED d)
         else if flag =? kDeathTestThrew then mret (set_outcome THREW d)
         else if flag =? kDeathTestLived then mret (set_outcome LIVED d)
         else if flag =? kDeathTestInternalError then
           _ ← FailFromInternalError d.(read_fd_); mret d
         else
           _ ← GTEST_LOG_ FILE FATAL 465 (text "Death test child process reported " ++
                 text "unexpected status byte (" ++
                 show64 ((if flag <? 128 then flag else flag - 256) mod 4294967296) ++ text ")");
           mret d
       else
         _ ← GTEST_LOG_ FILE FATAL 470 (text "Read from death test child process failed: " ++
               GetLastErrnoDescription a.(errno));
         mret d);
  _ ← GTEST_DEATH_TEST_CHECK_SYSCALL_ 473 "posix::Close(read_fd())" (close d.(read_fd_));
  mret (set_read_fd (-1) d).

Definition status_ch (reason : AbortReason) : Z :=
  match reason with
  | TEST_DID_NOT_DIE => kDeathTestLived
  | TEST_THREW_EXCEPTION => kDeathTestThrew
  | TEST_ENCOUNTERED_RETURN_STATEMENT => kDeathTestReturned
  end.

Definition Abort {A} (reason : AbortReason) (d : DeathTestImpl) : M A :=
  _ ← GTEST_DEATH_TEST_CHECK_SYSCALL_ 489 "posix::Write(write_fd(), &status_ch, 1)"
        (write d.(write_fd_) [status_ch reason]);
  die (Exits 1).

(** [CaptureStderr] and [GetCapturedStderr]. *)
Definition CaptureStderr : M unit :=
  captured ← get g_captured_stderr;
  _ ← (if captured : bool
       then GTEST_LOG_ PORT_FILE FATAL 1020 (text "Only one " ++ text "stderr" ++
              text " capturer can exist at a time.")
       else mret tt);
  update (with_capture true).
Definition GetCapturedStderr : M (list Z) :=
  captured ← get g_captured_stderr;
  if captured : bool then
    a ← sys read_captured_file;
    _ ← update (with_capture false);
    mret a.(data)
  else undefined.

Definition Passed (status_ok : bool) (d : DeathTestImpl) : M bool :=
  if negb d.(spawned_) then mret false
  else
    error_message ← GetCapturedStderr;
    let lived (result : string) :=
      (false, text result ++ newline ++ text " Error msg:" ++ newline ++
              FormatDeathTestOutput error_message) in
    '(success, buffer) ←
      (match d.(outcome_) with
       | LIVED => mret (lived "    Result: failed to die.")
       | THREW => mret (lived "    Result: threw an exception.")
       | RETURNED => mret (lived "    Result: illegal return in test statement.")
       | DIED =>
           mret (if status_ok then
                   if PartialMatch (from_c_str error_message) d.(regex_) then (true, [])
                   else (false, text "    Result: died but not with expected error." ++ newline ++
                                text "  Expected: " ++ pattern d.(regex_) ++ newline ++
                                text "Actual msg:" ++ newline ++ FormatDeathTestOutput error_message)
                 else (false, text "    Result: died but not with expected exit code:" ++ newline ++
                              text "            " ++ ExitSummary d.(status_) ++ newline ++
                              text "Actual msg:" ++ newline ++ FormatDeathTestOutput error_message))
       | IN_PROGRESS =>
           _ ← GTEST_LOG_ FILE FATAL 582 (text "DeathTest::Passed somehow called before conclusion of test");
           mret (false, [])
       end);
    _ ← update (with_message (text "Death test: " ++ d.(statement_) ++ newline ++ buffer));
    mret success.

Definition Wait (d : DeathTestImpl) : M (Z * DeathTestImpl) :=
  if negb d.(spawned_) then mret (0, d)
  else
    d ← ReadAndInterpretStatusByte d;
    a ← GTEST_DEATH_TEST_CHECK_SYSCALL_ 817 "waitpid(child_pid_, &status_value, 0)"
          (waitpid d.(child_pid_));
    let status_value := a.(values).1 in
    mret (status_value, set_status status_value d).

(** * Roles *)

Definition NoExec_AssumeRole (d : DeathTestImpl) : M (TestRole * DeathTestImpl) :=
  threads ← sys GetThreadCount;
  let thread_count := threads.(ret) in
  _ ← (if thread_count =? 1 then mret tt
       else GTEST_LOG_ FILE WARNING 836 (DeathTestThreadWarning thread_count));
  pipe_ ← sys pipe;
  let pipe_fd := pipe_.(values) in
  _ ← GTEST_DEATH_TEST_CHECK_ 840 "pipe(pipe_fd) != -1" (negb (pipe_.(ret) =? -1));
  _ ← update (with_message []);
  _ ← CaptureStderr;
  forked ← sys fork;
  let child_pid := forked.(ret) in
  _ ← GTEST_DEATH_TEST_CHECK_ 854 "child_pid != -1" (negb (child_pid =? -1));
  let d := set_child_pid child_pid d in
  if child_pid =? 0 then
    _ ← GTEST_DEATH_TEST_CHECK_SYSCALL_ 857 "close(pipe_fd[0])" (close pipe_fd.1);
    _ ← update become_fast_child;
    mret (EXECUTE_TEST, set_write_fd pipe_fd.2 d)
  else
    _ ← GTEST_DEATH_TEST_CHECK_SYSCALL_ 869 "close(pipe_fd[1])" (close pipe_fd.2);
    mret (OVERSEE_TEST, set_spawned true (set_read_fd pipe_fd.1 d)).

(** The process that [clone] and [fork] start; it becomes the program of [execve]. *)
Definition ExecDeathTestChildMain (argv : list (list Z)) (close_fd : Z) : M Z :=
  _ ← GTEST_DEATH_TEST_CHECK_SYSCALL_ 962 "close(args->close_fd)" (close close_fd);
  original_dir ← get original_working_dir;
  a ← sys (chdir original_dir);
  if negb (a.(ret) =? 0) then
    _ ← DeathTestAbort (text "chdir(" ++ [34] ++ original_dir ++ [34] ++ text ") failed: " ++
                        GetLastErrnoDescription a.(errno));
    mret 1
  else
    let argv0 := default [] (head argv) in
    a ← sys (execve argv0 argv);
    if negb (a.(ret) =? -1) then becomes argv0 argv
    else
      _ ← DeathTestAbort (text "execve(" ++ argv0 ++ text ", ...) in " ++ original_dir ++
                          text " failed: " ++ GetLastErrnoDescription a.(errno));
      mret 1.

(** What the process of [clone] does. *)
Definition clone_child (argv : list (list Z)) (close_fd : Z) : M unit :=
  status ← ExecDeathTestChildMain argv close_fd;
  die (Exits status).

Definition kMaxStackAlignment : Z := 64.

Definition ExecDeathTestSpawnChild (argv : list (list Z)) (close_fd : Z) : M Z :=
  _ ← GTEST_DEATH_TEST_CHECK_SYSCALL_ 1064
        "sigaction( SIGPROF, &ignore_sigprof_action, &saved_sigprof_action)" (sigaction_SIGPROF true);
  use_fork ← get (bool_flag "death_test_use_fork");
  child_pid ← (if use_fork : bool then mret (-1)
    else
      size ← sys getpagesize;
      let stack_size := u64 size.(ret) in
      mapped ← sys (mmap stack_size);
      let stack := mapped.(ret) in
      _ ← GTEST_DEATH_TEST_CHECK_ 1077 "stack != MAP_FAILED" (negb (stack =? -1));
      let stack_top := stack + if stack_grows_down then stack_size - kMaxStackAlignment else 0 in
      _ ← GTEST_DEATH_TEST_CHECK_ 1089
            ("stack_size > kMaxStackAlignment && " +:+
             "reinterpret_cast<intptr_t>(stack_top) % kMaxStackAlignment == 0")
            ((kMaxStackAlignment <? stack_size) && (u64 stack_top mod kMaxStackAlignment =? 0));
      cloned ← sys (clone argv close_fd);
      unmapped ← sys (munmap stack stack_size);
      _ ← GTEST_DEATH_TEST_CHECK_ 1094 "munmap(stack, stack_size) != -1" (negb (unmapped.(ret) =? -1));
      mret cloned.(ret));
  child_pid ← (if use_fork : bool then
      forked ← sys fork;
      if forked.(ret) =? 0 then
        _ ← ExecDeathTestChildMain argv close_fd;
        die (Exits 0)
      else mret forked.(ret)
    else mret child_pid);
  _ ← GTEST_DEATH_TEST_CHECK_SYSCALL_ 1106 "sigaction(SIGPROF, &saved_sigprof_action, NULL)"
        (sigaction_SIGPROF false);
  _ ← GTEST_DEATH_TEST_CHECK_ 1110 "child_pid != -1" (negb (child_pid =? -1));
  mret child_pid.

Definition filter_flag (info : list Z * list Z) : list Z :=
  text "--" ++ text GTEST_FLAG_PREFIX_ ++ text "filter" ++ text "=" ++
  info.1 ++ text "." ++ info.2.
Definition internal_flag_value (file : list Z) (line death_test_index fd : Z) : list Z :=
  file ++ text "|" ++ show64 line ++ text "|" ++ show64 death_test_index ++ text "|" ++ show64 fd.
Definition internal_flag (file : list Z) (line death_test_index fd : Z) : list Z :=
  text "--" ++ text GTEST_FLAG_PREFIX_ ++ text "internal_run_death_test" ++ text "=" ++
  internal_flag_value file line death_test_index fd.

(** [GetArgvsForDeathTestChildProcess] and [class Arguments]. *)
Definition child_argv (g_argvs : list (list Z)) (filter_flag internal_flag : list Z)
    : list (list Z) :=
  from_c_str <$> g_argvs ++ [filter_flag; internal_flag].

Definition Exec_AssumeRole (file : list Z) (line : Z) (d : DeathTestImpl)
    : M (TestRole * DeathTestImpl) :=
  flag ← get internal_run_death_test_flag;
  info ← get current_test_info;
  match info with
  | None => undefined
  | Some info =>
      death_test_index ← get death_test_count;
      match flag with
      | Some flag => mret (EXECUTE_TEST, set_write_fd flag.(flag_write_fd_) d)
      | None =>
          pipe_ ← sys pipe;
          let pipe_fd := pipe_.(values) in
          _ ← GTEST_DEATH_TEST_CHECK_ 1131 "pipe(pipe_fd) != -1" (negb (pipe_.(ret) =? -1));
          kept ← sys (fcntl_SETFD pipe_fd.2 0);
          _ ← GTEST_DEATH_TEST_CHECK_ 1134 "fcntl(pipe_fd[1], F_SETFD, 0) != -1" (negb (kept.(ret) =? -1));
          argvs ← get g_argvs;
          let args := child_argv argvs (filter_flag info)
                        (internal_flag file line death_test_index pipe_fd.2) in
          _ ← update (with_message []);
          _ ← CaptureStderr;
          child_pid ← ExecDeathTestSpawnChild args pipe_fd.1;
          _ ← GTEST_DEATH_TEST_CHECK_SYSCALL_ 1157 "close(pipe_fd[1])" (close pipe_fd.2);
          mret (OVERSEE_TEST, set_spawned true (set_read_fd pipe_fd.1 (set_child_pid child_pid d)))
      end
  end.

Definition AssumeRole (d : DeathTestImpl) : M (TestRole * DeathTestImpl) :=
  match d.(class) with
  | NoExecDeathTest => NoExec_AssumeRole d
  | ExecDeathTest file line => Exec_AssumeRole file line d
  end.

(** * The factory and the macro *)

Definition Create (statement : list Z) (regex : RE) (file : list Z) (line : Z)
    : M (bool * option DeathTestImpl) :=
  flag ← get internal_run_death_test_flag;
  info ← get current_test_info;
  match info with
  | None => undefined
  | Some _ =>
      n ← get death_test_count;
      let death_test_index := n + 1 in
      _ ← update (with_count death_test_index);
      let new :=
        style ← get (string_flag "death_test_style");
        if decide (style = "threadsafe") then
          d ← construct (ExecDeathTest file line) statement regex; mret (true, Some d)
        else if decide (style = "fast") then
          d ← construct NoExecDeathTest statement regex; mret (true, Some d)
        else
          _ ← update (with_message (text "Unknown death test style " ++ [34] ++ text style ++ [34] ++
                                    text " encountered"));
          mret (false, None) in
      match flag with
      | None => new
      | Some flag =>
          if flag.(index_) <? death_test_index then
            _ ← update (with_message (text "Death test count (" ++ show64 death_test_index ++
                  text ") somehow exceeded expected maximum (" ++ show64 flag.(index_) ++ text ")"));
            mret (false, None)
          else if negb (bool_decide (flag.(file_) = file) && (flag.(line_) =? line) &&
                        (flag.(index_) =? death_test_index))
          then mret (true, None)
          else new
      end
  end.

(** How the statement of a death test ends when it does not die: at its end, by a
    [return], by an exception with its message, by another exception. *)
Inductive Ending := Finishes | Returns | ThrowsStd (what : list Z) | ThrowsOther.

(** The death test at [file] and [line]; [Some] is the message of the failure. *)
Definition GTEST_DEATH_TEST_ (statement_text : list Z) (statement : M Ending) (predicate : Z → bool)
    (regex : RE) (file : list Z) (line : Z) : M (option (list Z)) :=
  let fail := m ← get last_death_test_message_; mret (Some (from_c_str m)) in
  '(ok, gtest_dt) ← Create statement_text regex file line;
  if negb ok then fail
  else match gtest_dt with
  | None => mret None
  | Some d =>
      '(role, d) ← AssumeRole d;
      match role with
      | OVERSEE_TEST =>
          '(status, d) ← Wait d;
          passed ← Passed (predicate status) d;
          _ ← destroy d;
          if passed : bool then mret None else fail
      | EXECUTE_TEST =>
          e ← statement;
          match e with
          | Finishes => Abort TEST_DID_NOT_DIE d
          | Returns => Abort TEST_ENCOUNTERED_RETURN_STATEMENT d
          | ThrowsStd what =>
              _ ← update (wrote (newline ++ file ++ text ":" ++ show64 line ++ text ":" ++
                    text ": Caught std::exception-derived exception escaping the " ++
                    text "death test statement. Exception message: " ++ what ++ newline));
              Abort TEST_THREW_EXCEPTION d
          | ThrowsOther => Abort TEST_THREW_EXCEPTION d
          end
      end
  end.

(** * The flag of the child *)

(** [strtoull] of digits: the value, and whether all is read without overflow. *)
Definition ParseNaturalNumber (str : list Z) : option Z :=
  let s := of_text (from_c_str str) in
  if starts_with_digit (of_text str) then
    let '(parsed, end_) := take_digits s 0 in
    if bool_decide (end_ = "") && (parsed <? U64) then
      let result := i32 parsed in
      if u64 result =? parsed then Some result else None
    else None
  else None.

Definition ParseInternalRunDeathTestFlag : M (option InternalRunDeathTestFlag) :=
  flag ← get (string_flag "internal_run_death_test");
  if decide (flag = "") then mret None
  else
    let bad := _ ← DeathTestAbort (text "Bad --gtest_internal_run_death_test flag: " ++ text flag);
               mret None in
    match SplitString (from_c_str (text flag)) 124 with
    | [file; line; index; fd] =>
        match ParseNaturalNumber line, ParseNaturalNumber index, ParseNaturalNumber fd with
        | Some line, Some index, Some fd => mret (Some (mkFlag file line index fd))
        | _, _, _ => bad
        end
    | _ => bad
    end.

(** [InitDeathTestSubprocessControlInfo] and [SuppressTestEventsIfInSubprocess]. *)
Definition InitDeathTestSubprocessControlInfo : M unit :=
  flag ← ParseInternalRunDeathTestFlag;
  update (with_flag flag).
Definition SuppressTestEventsIfInSubprocess : M unit :=
  flag ← get internal_run_death_test_flag;
  match flag with Some _ => update without_events | None => mret tt end.

End DeathTest.
Arguments DeathTestImpl : clear implicits.
