(* ===== verification/DeathTestFacts.v ===== *)
(** Facts about death tests: exit statuses, the verdict of a parent over its child, the
    command line a child of the threadsafe style is started with, and what such a child
    runs. *)

From S2P Require Import Prelude Demangle Strings Utf8 Utf8Facts Printers PrintersFacts Assertions AssertionsFacts Streaming StreamingFacts TestRun TestRunFacts Flags FlagsFacts DeathTest.
From stdpp Require Import base gmap sets list strings.
From Stdlib Require Import ZArith Lia Ascii.

Open Scope Z_scope.

(** * Exit status *)

(** A signal that kills: 127 stands for a stopped process. *)
Definition valid_how (h : How) : bool :=
  match h with Exits _ => true | Killed signum => (1 <=? signum) && (signum <=? 126) end.

Lemma land_255 z : Z.land z 255 = z mod 256.
Proof. exact (Z.land_ones z 8 ltac:(lia)). Qed.

(** The cases over all bytes are decided by computation. *)
Definition bytes_upto (n : nat) : list Z := Z.of_nat <$> seq 0 n.

Lemma elem_of_bytes_upto n b : 0 <= b < Z.of_nat n → b ∈ bytes_upto n.
Proof.
  intros H. apply list_elem_of_fmap. exists (Z.to_nat b). split; [lia|]. apply elem_of_seq. lia.
Qed.

Lemma exit_status_bytes :
  forallb (λ b, let s := Z.shiftl b 8 in
                WIFEXITED s && (WEXITSTATUS s =? b) && negb (WIFSIGNALED s) && negb (WCOREDUMP s))
    (bytes_upto 256) = true.
Proof. by vm_compute. Qed.

Lemma signal_status_bytes :
  forallb (λ n, forallb (λ core, let s := Z.lor n (if core : bool then 128 else 0) in
      (n =? 0) || negb (WIFEXITED s) && WIFSIGNALED s && (WTERMSIG s =? n) && Bool.eqb (WCOREDUMP s) core)
    [true; false]) (bytes_upto 127) = true.
Proof. by vm_compute. Qed.

Lemma exited_status e core :
  let s := wait_status (Exits e) core in
  WIFEXITED s = true ∧ WEXITSTATUS s = e mod 256 ∧ WIFSIGNALED s = false ∧ WCOREDUMP s = false.
Proof.
  simpl. rewrite land_255. pose proof exit_status_bytes as H. rewrite forallb_forall in H.
  specialize (H (e mod 256)). cbv zeta in H. rewrite !andb_true_iff, !negb_true_iff, Z.eqb_eq in H.
  destruct H as [[[? ?] ?] ?]; [|done]. apply list_elem_of_In, elem_of_bytes_upto. pose proof (Z.mod_pos_bound e 256). lia.
Qed.

Lemma killed_status n core :
  valid_how (Killed n) = true →
  let s := wait_status (Killed n) core in
  WIFEXITED s = false ∧ WIFSIGNALED s = true ∧ WTERMSIG s = n ∧ WCOREDUMP s = core.
Proof.
  intros Hn s. apply andb_true_iff in Hn as [H1 H2]. apply Z.leb_le in H1, H2.
  pose proof signal_status_bytes as H. rewrite forallb_forall in H. specialize (H n).
  rewrite forallb_forall in H. specialize (H (ltac:(apply list_elem_of_In, elem_of_bytes_upto; lia)) core).
  cbv zeta in H. rewrite orb_true_iff, !andb_true_iff, negb_true_iff, !Z.eqb_eq in H.
  destruct H as [H|[[[? ?] ?] ?%Bool.eqb_prop]]; [by destruct core; simpl; auto|lia|done].
Qed.

(** [EXPECT_DEATH], [ExitedWithCode] and [KilledBySignal] accept what they say; only the
    low byte of an exit code is seen, so that the exit code 256 is a success. *)
Theorem exit_predicates h core :
  valid_how h = true →
  let s := wait_status h core in
  (∀ c, ExitedWithCode c s = true ↔ ∃ e, h = Exits e ∧ e mod 256 = c) ∧
  (∀ n, KilledBySignal n s = true ↔ h = Killed n) ∧
  (ExitedUnsuccessfully s = true ↔ ∀ e, h = Exits e → e mod 256 ≠ 0) ∧
  ExitSummary s = match h with
                  | Exits e => text "Exited with exit status " ++ show64 (e mod 256)
                  | Killed n => text "Terminated by signal " ++ show64 n ++
                                if core then text " (core dumped)" else []
                  end.
Proof.
  intros Hv. unfold ExitedUnsuccessfully, ExitedWithCode, KilledBySignal, ExitSummary.
  destruct h as [e|n]; cbv zeta.
  - destruct (exited_status e core) as (-> & -> & -> & ->). rewrite app_nil_r. split_and!; [| | |done].
    + intros c. simpl. rewrite Z.eqb_eq. naive_solver.
    + naive_solver.
    + simpl. rewrite negb_true_iff, Z.eqb_neq. naive_solver.
  - destruct (killed_status n core Hv) as (-> & -> & -> & ->). rewrite app_assoc.
    split_and!; [naive_solver| |naive_solver|done].
    intros m. simpl. rewrite Z.eqb_eq. naive_solver.
Qed.

(** * The marked output *)

Definition mark (line : list Z) : list Z := text "[  DEATH   ] " ++ line.

Lemma format_loop_joined ps fuel pre :
  Forall (λ p, 10 ∉ p) ps → ps ≠ [] → (length ps <= fuel)%nat →
  format_loop fuel (pre ++ joined 10 ps) (length pre) = joined 10 (mark <$> ps).
Proof.
  revert fuel pre. induction ps as [|p ps IH]; [done|]. intros fuel pre [Hp Hps]%Forall_cons _ Hf.
  destruct fuel as [|fuel]; [simpl in Hf; lia|]. cbn [format_loop].
  rewrite drop_app_length. destruct ps as [|q ps].
  { cbn [joined fmap list_fmap]. by rewrite find_char_absent. }
  rewrite joined_cons by done. rewrite find_char_app by done. cbv zeta.
  rewrite (fmap_cons mark p), (joined_cons 10 (mark p)) by done. unfold mark at 1.
  rewrite <-app_assoc. f_equal. unfold substr. rewrite drop_app_length.
  replace (length pre + length p + 1 - length pre)%nat with (length (p ++ [10]))
    by (rewrite length_app; simpl; lia).
  assert (p ++ 10 :: joined 10 (q :: ps) = (p ++ [10]) ++ joined 10 (q :: ps)) as ->
    by (by rewrite <-app_assoc).
  rewrite take_app_length.
  replace (length pre + length p + 1)%nat with (length (pre ++ p ++ [10]))
    by (rewrite !length_app; simpl; lia).
  rewrite (app_assoc pre), IH by (done || simpl in *; lia). by rewrite <-app_assoc.
Qed.

Lemma joined_parts ps : (length ps <= S (length (joined 10 ps)))%nat.
Proof.
  induction ps as [|p [|q ps] IH]; [simpl; lia..|].
  rewrite joined_cons by done. rewrite length_app. cbn [length] in *. lia.
Qed.

(** Every line of the output is marked, the last one too, and nothing else changes. *)
Theorem FormatDeathTestOutput_marks output :
  FormatDeathTestOutput output = joined 10 (mark <$> SplitString output 10).
Proof.
  destruct (split_string_spec 10 output) as (Hj & Hf & Hn). unfold FormatDeathTestOutput.
  rewrite <-Hj at 2. apply (format_loop_joined _ _ []); [done..|].
  rewrite <-Hj at 2. apply joined_parts.
Qed.

(** * Running processes *)

Lemma bind_value {A B} (m : M A) (f : A → M B) p a p' :
  m p = (Value a, p') → (m ≫= f) p = f a p'.
Proof. unfold mbind, M_bind. by intros ->. Qed.

Lemma bind_dies {A B} (m : M A) (f : A → M B) p h p' :
  m p = (Dies h, p') → (m ≫= f) p = (Dies h, p').
Proof. unfold mbind, M_bind. by intros ->. Qed.

Lemma bind_becomes {A B} (m : M A) (f : A → M B) p path argv p' :
  m p = (Becomes path argv, p') → (m ≫= f) p = (Becomes path argv, p').
Proof. unfold mbind, M_bind. by intros ->. Qed.

Lemma bind_assoc {A B C} (m : M A) (f : A → M B) (g : B → M C) p :
  ((m ≫= f) ≫= g) p = (m ≫= (λ a, f a ≫= g)) p.
Proof. unfold mbind, M_bind. by destruct (m p) as [[] ?]. Qed.

(** The process after these calls and answers, with these answers to come. *)
Definition asks (cs : list (Call * Answer)) (l : list Answer) (p : Process) : Process :=
  mkProcess l (p.(trace) ++ cs) p.(stderr) p.(g_captured_stderr) p.(g_in_fast_death_test_child)
    p.(last_death_test_message_) p.(internal_run_death_test_flag) p.(current_test_info)
    p.(death_test_count) p.(event_forwarding_enabled) p.(flags) p.(g_argvs) p.(original_working_dir).

Lemma asks_asks cs cs' l l' p : asks cs' l' (asks cs l p) = asks (cs ++ cs') l' p.
Proof. unfold asks. simpl. by rewrite <-app_assoc. Qed.

Lemma sys_value c a l p : p.(answers) = a :: l → sys c p = (Value a, asks [(c, a)] l p).
Proof. unfold sys. by intros ->. Qed.

Definition interruption : Answer := mkAnswer (-1) EINTR [] (0, 0).

(** A call that is answered after [k] interruptions. *)
Definition asking (k : nat) (c : Call) (a : Answer) : list (Call * Answer) :=
  replicate k (c, interruption) ++ [(c, a)].
Definition after (k : nat) (a : Answer) (l : list Answer) : list Answer :=
  replicate k interruption ++ a :: l.

Lemma retry_loop_value fuel k c a l p :
  p.(answers) = after k a l → (k <= fuel)%nat → a.(ret) ≠ -1 →
  retry_loop fuel c p = (Value a, asks (asking k c a) l p).
Proof.
  intros Ha Hk Hr. revert fuel p Ha Hk. induction k as [|k IH]; intros [|fuel] p Ha Hk.
  - apply sys_value. exact Ha.
  - cbn [retry_loop]. erewrite bind_value by (apply sys_value; exact Ha).
    by rewrite (proj2 (Z.eqb_neq _ _) Hr).
  - lia.
  - cbn [retry_loop]. erewrite bind_value by (apply sys_value; exact Ha). simpl.
    rewrite (IH fuel) by (done || lia). by rewrite asks_asks.
Qed.

Lemma retry_value k c a l p :
  p.(answers) = after k a l → a.(ret) ≠ -1 → retry c p = (Value a, asks (asking k c a) l p).
Proof.
  intros Ha Hr. unfold retry. apply retry_loop_value; [done| |done].
  rewrite Ha. unfold after. rewrite length_app, length_replicate. lia.
Qed.

(** What went through a pipe. *)
Definition pipe_bytes (fd : Z) (cs : list (Call * Answer)) : list Z :=
  cs ≫= λ ca, match ca.1 with
              | write fd' bytes => if fd' =? fd then take (Z.to_nat ca.2.(ret)) bytes else []
              | _ => []
              end.

Lemma pipe_bytes_app fd cs cs' : pipe_bytes fd (cs ++ cs') = pipe_bytes fd cs ++ pipe_bytes fd cs'.
Proof. apply bind_app. Qed.

Lemma pipe_bytes_asking fd k c a : pipe_bytes fd (asking k c a) = pipe_bytes fd [(c, a)].
Proof.
  unfold asking. rewrite pipe_bytes_app. induction k as [|k IH]; [done|].
  cbn [replicate]. change (?x :: ?l) with ([x] ++ l) at 1. rewrite pipe_bytes_app, <-app_assoc, IH.
  unfold pipe_bytes. simpl. destruct c; try done. by destruct (_ =? _).
Qed.

(** * The fast style *)

Section Facts.
Context (FILE PORT_FILE : list Z) (StrError : Z → list Z).
Context {RE : Type} (PartialMatch : list Z → RE → bool) (pattern : RE → list Z).
Context (stack_grows_down : bool).

Notation CHECK_SYSCALL := (GTEST_DEATH_TEST_CHECK_SYSCALL_ FILE).

Lemma check_syscall line e k c a l p :
  p.(answers) = after k a l → a.(ret) ≠ -1 →
  CHECK_SYSCALL line e c p = (Value a, asks (asking k c a) l p).
Proof.
  intros Ha Hr. unfold GTEST_DEATH_TEST_CHECK_SYSCALL_.
  erewrite bind_value by (by apply retry_value). by rewrite (proj2 (Z.eqb_neq _ _) Hr).
Qed.

Definition warn (thread_count : Z) (p : Process) : Process :=
  if thread_count =? 1 then p
  else wrote (newline ++ text "[WARNING]" ++ text " " ++ FILE ++ text ":" ++ show64 836 ++ text ":" ++
              text ": " ++ DeathTestThreadWarning thread_count ++ newline) p.

Lemma warn_value n p :
  (if n =? 1 then mret tt else GTEST_LOG_ FILE WARNING 836 (DeathTestThreadWarning n)) p =
  (Value tt, warn n p).
Proof. unfold warn. by destruct (n =? 1). Qed.

Lemma warn_answers n p : answers (warn n p) = answers p.
Proof. unfold warn. by destruct (n =? 1). Qed.

Lemma warn_captured n p : g_captured_stderr (warn n p) = g_captured_stderr p.
Proof. unfold warn. by destruct (n =? 1). Qed.

Lemma warn_trace n p : trace (warn n p) = trace p.
Proof. unfold warn. by destruct (n =? 1). Qed.

Lemma CaptureStderr_value p :
  p.(g_captured_stderr) = false → CaptureStderr PORT_FILE p = (Value tt, with_capture true p).
Proof. intros H. unfold CaptureStderr, get, update, mbind, M_bind. by rewrite H. Qed.

(** The process after the [fork] of a death test of the fast style. *)
Definition forked (threads pipe_ fork_ : Answer) (l : list Answer) (p : Process) : Process :=
  asks [(fork, fork_)] l (with_capture true (with_message []
    (asks [(pipe, pipe_)] (fork_ :: l)
      (warn threads.(ret) (asks [(GetThreadCount, threads)] (pipe_ :: fork_ :: l) p))))).

Lemma check_not line e x p :
  x ≠ -1 → GTEST_DEATH_TEST_CHECK_ FILE line e (negb (x =? -1)) p = (Value tt, p).
Proof. intros H. by rewrite (proj2 (Z.eqb_neq _ _) H). Qed.

Ltac run_calls :=
  repeat (erewrite bind_value by first
    [ apply check_not; assumption
    | apply sys_value; rewrite ?warn_answers; (reflexivity || eassumption)
    | apply warn_value
    | apply CaptureStderr_value; simpl; rewrite ?warn_captured; simpl; assumption
    | apply check_syscall; [reflexivity|assumption]
    | reflexivity ]; cbv beta zeta).

Lemma NoExec_child (d : DeathTestImpl RE) threads pipe_ fork_ closed k l p :
  p.(answers) = threads :: pipe_ :: fork_ :: after k closed l → p.(g_captured_stderr) = false →
  pipe_.(ret) ≠ -1 → fork_.(ret) = 0 → closed.(ret) ≠ -1 →
  NoExec_AssumeRole FILE PORT_FILE d p =
    (Value (EXECUTE_TEST, set_write_fd pipe_.(values).2 (set_child_pid 0 d)),
     become_fast_child (asks (asking k (close pipe_.(values).1) closed) l
       (forked threads pipe_ fork_ (after k closed l) p))).
Proof.
  intros Ha Hc Hp Hf Hcl. unfold NoExec_AssumeRole.
  assert (fork_.(ret) ≠ -1) by (by rewrite Hf). run_calls. rewrite Hf. cbn [Z.eqb]. run_calls.
  reflexivity.
Qed.

Lemma NoExec_parent (d : DeathTestImpl RE) threads pipe_ fork_ closed k l p :
  p.(answers) = threads :: pipe_ :: fork_ :: after k closed l → p.(g_captured_stderr) = false →
  pipe_.(ret) ≠ -1 → 0 < fork_.(ret) → closed.(ret) ≠ -1 →
  NoExec_AssumeRole FILE PORT_FILE d p =
    (Value (OVERSEE_TEST,
       set_spawned true (set_read_fd pipe_.(values).1 (set_child_pid fork_.(ret) d))),
     asks (asking k (close pipe_.(values).2) closed) l
       (forked threads pipe_ fork_ (after k closed l) p)).
Proof.
  intros Ha Hc Hp Hf Hcl. unfold NoExec_AssumeRole.
  assert (fork_.(ret) ≠ -1) by lia. run_calls. rewrite (proj2 (Z.eqb_neq fork_.(ret) 0)) by lia.
  run_calls. reflexivity.
Qed.

Lemma Abort_value {A} reason (d : DeathTestImpl RE) k written l p :
  p.(answers) = after k written l → written.(ret) ≠ -1 →
  Abort FILE (A := A) reason d p =
    (Dies (Exits 1), asks (asking k (write d.(write_fd_) [status_ch reason]) written) l p).
Proof. intros Ha Hr. unfold Abort. by erewrite bind_value by (by apply check_syscall). Qed.

(** The answers a parent gets: what the pipe holds, the status of the child, and the text
    that was captured. *)
Definition done_ : Answer := mkAnswer 0 0 [] (0, 0).
Definition status_read (bytes : list Z) : Answer :=
  match bytes with [] => done_ | b :: _ => mkAnswer 1 0 [b] (0, 0) end.
Definition waited (pid status : Z) : Answer := mkAnswer pid 0 [] (status, 0).
Definition captured (err : list Z) : Answer := mkAnswer 0 0 err (0, 0).

(** The outcome the parent reads. *)
Definition outcome_of (bytes : list Z) : DeathTestOutcome :=
  match bytes with
  | [] => DIED
  | b :: _ => if b =? kDeathTestReturned then RETURNED else if b =? kDeathTestThrew then THREW
              else LIVED
  end.
Definition status_bytes (bytes : list Z) : Prop :=
  bytes = [] ∨ ∃ reason, bytes = [status_ch reason].

Lemma Wait_value (d : DeathTestImpl RE) bytes pid status k1 k2 k3 l p :
  p.(answers) = after k1 (status_read bytes) (after k2 done_ (after k3 (waited pid status) l)) →
  status_bytes bytes → pid ≠ -1 → d.(spawned_) = true →
  ∃ p', Wait FILE StrError d p =
    (Value (status, set_status status (set_read_fd (-1) (set_outcome (outcome_of bytes) d))), p') ∧
    p'.(answers) = l ∧ p'.(g_captured_stderr) = p.(g_captured_stderr).
Proof.
  intros Ha Hb Hpid Hs. eexists. split.
  - unfold Wait, ReadAndInterpretStatusByte. rewrite Hs. cbn [negb]. rewrite bind_assoc.
    erewrite bind_value; [|apply (retry_value k1 _ _ _ _ Ha); by destruct Hb as [->|[[] ->]]].
    rewrite bind_assoc.
    erewrite (bind_value _ _ _ (set_outcome (outcome_of bytes) d)) by (by destruct Hb as [->|[[] ->]]).
    rewrite bind_assoc.
    erewrite bind_value by (by apply check_syscall). erewrite bind_value by reflexivity.
    erewrite bind_value by (by apply check_syscall). reflexivity.
  - done.
Qed.

(** What a death test should say: by how the statement ended, the status of the child, and
    what it wrote. *)
Definition marked (err : list Z) : list Z := joined 10 (mark <$> SplitString err 10).

Definition report (regex : RE) (status_ok : bool) (o : DeathTestOutcome) (status : Z)
    (err : list Z) : bool * list Z :=
  let lived (result : string) :=
    (false, text result ++ newline ++ text " Error msg:" ++ newline ++ marked err) in
  match o with
  | LIVED => lived "    Result: failed to die."
  | RETURNED => lived "    Result: illegal return in test statement."
  | THREW => lived "    Result: threw an exception."
  | _ =>
      if status_ok then
        if PartialMatch (from_c_str err) regex then (true, [])
        else (false, text "    Result: died but not with expected error." ++ newline ++
                     text "  Expected: " ++ pattern regex ++ newline ++
                     text "Actual msg:" ++ newline ++ marked err)
      else (false, text "    Result: died but not with expected exit code:" ++ newline ++
                   text "            " ++ ExitSummary status ++ newline ++
                   text "Actual msg:" ++ newline ++ marked err)
  end.

(** [None] is a death test that passes. *)
Definition judge (statement_text : list Z) (regex : RE) (status_ok : bool) (o : DeathTestOutcome)
    (status : Z) (err : list Z) : option (list Z) :=
  let '(success, buffer) := report regex status_ok o status err in
  if success then None
  else Some (from_c_str (text "Death test: " ++ statement_text ++ newline ++ buffer)).

Definition how_it_ended (o : Outcome Ending) : DeathTestOutcome :=
  match o with
  | Value Finishes => LIVED
  | Value Returns => RETURNED
  | Value (ThrowsStd _) | Value ThrowsOther => THREW
  | _ => DIED
  end.

Lemma Passed_value status_ok (d : DeathTestImpl RE) err l p :
  p.(answers) = captured err :: l → p.(g_captured_stderr) = true → d.(spawned_) = true →
  d.(outcome_) ≠ IN_PROGRESS →
  let r := report d.(regex_) status_ok d.(outcome_) d.(status_) err in
  Passed FILE PartialMatch pattern status_ok d p =
    (Value r.1, with_message (text "Death test: " ++ d.(statement_) ++ newline ++ r.2)
                  (with_capture false (asks [(read_captured_file, captured err)] l p))).
Proof.
  intros Ha Hc Hs Ho r. unfold Passed. rewrite Hs. cbn [negb].
  erewrite bind_value; [|unfold GetCapturedStderr; erewrite bind_value by reflexivity;
    rewrite Hc; erewrite bind_value by (apply sys_value; exact Ha);
    erewrite bind_value by reflexivity; reflexivity].
  erewrite (bind_value _ _ _ r).
  2:{ subst r. unfold report, marked. rewrite FormatDeathTestOutput_marks. cbn [data captured].
      destruct (outcome_ d); [done|destruct status_ok; [destruct (PartialMatch _ _)|]|..];
        reflexivity. }
  by destruct r.
Qed.

(** ** The verdict *)

Section Verdict.
Context (statement_text file : list Z) (line : Z) (regex : RE) (predicate : Z → bool)
        (statement : M Ending).

Definition death_test : M (option (list Z)) :=
  GTEST_DEATH_TEST_ FILE PORT_FILE StrError PartialMatch pattern stack_grows_down
    statement_text statement predicate regex file line.

(** A process that comes to a death test of the fast style. *)
Record ready (p : Process) : Prop := mkReady {
  ready_flag : p.(internal_run_death_test_flag) = None;
  ready_style : string_flag "death_test_style" p = "fast";
  ready_test : is_Some p.(current_test_info);
  ready_captured : p.(g_captured_stderr) = false;
}.

Definition with_answers (l : list Answer) (p : Process) : Process := asks [] l p.

Definition new_test : DeathTestImpl RE :=
  mkDeathTest NoExecDeathTest statement_text regex false (-1) IN_PROGRESS (-1) (-1) (-1).

Definition counted (p : Process) : Process := with_count (p.(death_test_count) + 1) p.

Lemma Create_style p :
  p.(internal_run_death_test_flag) = None → string_flag "death_test_style" p = "fast" →
  is_Some p.(current_test_info) →
  Create statement_text regex file line p = (Value (true, Some new_test), counted p).
Proof.
  intros Hf Hs [i Hi]. unfold Create. erewrite bind_value by reflexivity.
  erewrite bind_value by reflexivity. rewrite Hi. erewrite bind_value by reflexivity.
  erewrite bind_value by reflexivity. rewrite Hf. erewrite bind_value by reflexivity.
  assert (string_flag "death_test_style" (with_count (death_test_count p + 1) p) = "fast") as ->
    by (by rewrite <-Hs).
  rewrite decide_False, decide_True by done. unfold construct. rewrite bind_assoc.
  erewrite bind_value by reflexivity. change (current_test_info _) with (current_test_info p).
  by rewrite Hi.
Qed.

Lemma Create_fast p :
  ready p →
  Create statement_text regex file line p = (Value (true, Some new_test), counted p).
Proof. intros [Hf Hs Ht _]. by apply Create_style. Qed.

(** The process when the statement of a death test begins, in the child. *)
Definition at_statement (threads pipe_ fork_ closed : Answer) (k : nat) (l : list Answer)
    (p : Process) : Process :=
  become_fast_child (asks (asking k (close pipe_.(values).1) closed) l
    (forked threads pipe_ fork_ (after k closed l)
      (counted (with_answers (threads :: pipe_ :: fork_ :: after k closed l) p)))).

Lemma with_answers_ready l p : ready p → ready (with_answers l p).
Proof. intros [Hf Hs Ht Hc]. by split. Qed.

(** The answer of the child's end, where the statement does not die: it writes a byte. *)
Definition child_goes_on (o : Outcome Ending) (p : Process) : Prop :=
  match o with
  | Value _ => ∃ k l, p.(answers) = after k (mkAnswer 1 0 [] (0, 0)) l
  | Dies _ => True
  | _ => False
  end.

Definition reason_of (e : Ending) : AbortReason :=
  match e with
  | Finishes => TEST_DID_NOT_DIE
  | Returns => TEST_ENCOUNTERED_RETURN_STATEMENT
  | _ => TEST_THREW_EXCEPTION
  end.
Definition last_byte (o : Outcome Ending) : list Z :=
  match o with Value e => [status_ch (reason_of e)] | _ => [] end.
Definition end_of (o : Outcome Ending) : How := match o with Dies h => h | _ => Exits 1 end.

(** The statement in a child, and what follows it. *)
Definition execute (d : DeathTestImpl RE) : M (option (list Z)) :=
  e ← statement;
  match e with
  | Finishes => Abort FILE TEST_DID_NOT_DIE d
  | Returns => Abort FILE TEST_ENCOUNTERED_RETURN_STATEMENT d
  | ThrowsStd what =>
      _ ← update (wrote (newline ++ file ++ text ":" ++ show64 line ++ text ":" ++
            text ": Caught std::exception-derived exception escaping the " ++
            text "death test statement. Exception message: " ++ what ++ newline));
      Abort FILE TEST_THREW_EXCEPTION d
  | ThrowsOther => Abort FILE TEST_THREW_EXCEPTION d
  end.

Lemma execute_value (d : DeathTestImpl RE) p o p1 :
  statement p = (o, p1) → child_goes_on o p1 →
  ∃ p2, execute d p = (Dies (end_of o), p2) ∧
    pipe_bytes d.(write_fd_) p2.(trace) = pipe_bytes d.(write_fd_) p1.(trace) ++ last_byte o.
Proof.
  intros Hst Hgo. unfold execute.
  destruct o as [e|h| | |]; [|by eexists; split; [by apply bind_dies|rewrite app_nil_r]|done..].
  erewrite bind_value by exact Hst. destruct Hgo as (k' & l' & Ha).
  assert (∀ A reason q, answers q = after k' (mkAnswer 1 0 [] (0, 0)) l' → trace q = trace p1 → ∃ p2,
    Abort FILE (A := A) reason d q = (Dies (Exits 1), p2) ∧
    pipe_bytes d.(write_fd_) p2.(trace) =
      pipe_bytes d.(write_fd_) p1.(trace) ++ [status_ch reason]) as Habort.
  { intros A reason q Hq Ht. eexists. split; [by eapply Abort_value|].
    cbn [trace asks]. rewrite Ht, pipe_bytes_app, pipe_bytes_asking. cbn.
    by rewrite Z.eqb_refl. }
  destruct e; [by apply Habort..| |by apply Habort].
  erewrite bind_value by reflexivity. by apply Habort.
Qed.

Lemma child_run threads pipe_ fork_ closed k l p o p1 :
  ready p → pipe_.(ret) ≠ -1 → fork_.(ret) = 0 → closed.(ret) ≠ -1 →
  statement (at_statement threads pipe_ fork_ closed k l p) = (o, p1) →
  child_goes_on o p1 →
  ∃ p2, death_test (with_answers (threads :: pipe_ :: fork_ :: after k closed l) p) =
      (Dies (end_of o), p2) ∧
    pipe_bytes pipe_.(values).2 p2.(trace) = pipe_bytes pipe_.(values).2 p1.(trace) ++ last_byte o.
Proof.
  intros Hp Hpipe Hfork Hcl Hst Hgo. unfold death_test, GTEST_DEATH_TEST_.
  erewrite bind_value by (by apply Create_fast, with_answers_ready). cbn [negb].
  unfold AssumeRole. cbn [class new_test].
  erewrite bind_value by (apply NoExec_child; [reflexivity|apply (ready_captured p Hp)|done..]).
  by apply (execute_value (set_write_fd pipe_.(values).2 (set_child_pid 0 new_test)) _ _ _ Hst).
Qed.

Lemma oversee_value (d : DeathTestImpl RE) bytes pid status err k1 k2 k3 l p :
  p.(answers) = after k1 (status_read bytes) (after k2 done_ (after k3 (waited pid status)
    (captured err :: l))) →
  p.(g_captured_stderr) = true → status_bytes bytes → d.(spawned_) = true →
  d.(statement_) = statement_text → d.(regex_) = regex → pid ≠ -1 →
  ∃ p2, ('(status, d) ← Wait FILE StrError d;
         passed ← Passed FILE PartialMatch pattern (predicate status) d;
         _ ← destroy FILE d;
         if passed : bool then mret None
         else m ← get last_death_test_message_; mret (Some (from_c_str m))) p =
      (Value (judge statement_text regex (predicate status) (outcome_of bytes) status err), p2) ∧
    p2.(g_captured_stderr) = false.
Proof.
  intros Ha Hc Hb Hs <- <- Hpid.
  destruct (Wait_value d bytes pid status k1 k2 k3 _ _ Ha Hb Hpid Hs) as (p1 & Hw & Ha1 & Hc1).
  erewrite bind_value by exact Hw. cbv beta iota.
  erewrite bind_value by (apply Passed_value; [exact Ha1|congruence|exact Hs|];
    by destruct Hb as [->|[[] ->]]).
  erewrite bind_value by reflexivity. cbn [statement_ regex_ outcome_ status_ set_status set_read_fd set_outcome].
  unfold judge. destruct (report _ _ _ _ _) as [[] buffer]; eexists; by split.
Qed.

Lemma parent_run threads pipe_ fork_ bytes status err k1 k2 k3 k4 l p :
  ready p → pipe_.(ret) ≠ -1 → 0 < fork_.(ret) → status_bytes bytes →
  ∃ p2, death_test (with_answers (threads :: pipe_ :: fork_ :: after k1 done_
      (after k2 (status_read bytes) (after k3 done_ (after k4 (waited fork_.(ret) status)
        (captured err :: l))))) p) =
    (Value (judge statement_text regex (predicate status) (outcome_of bytes) status err), p2) ∧
    p2.(g_captured_stderr) = false.
Proof.
  intros Hp Hpipe Hfork Hb. unfold death_test, GTEST_DEATH_TEST_.
  erewrite bind_value by (by apply Create_fast, with_answers_ready). cbn [negb].
  unfold AssumeRole. cbn [class new_test].
  erewrite bind_value by (apply NoExec_parent; [reflexivity|apply (ready_captured p Hp)|done..]).
  by apply (oversee_value _ bytes fork_.(ret) _ _ k2 k3 k4 l); [reflexivity|..|lia].
Qed.

(** C21: Of a death test of the fast style: the child dies, by its statement or by [_exit(1)]
    after it told its parent why; and the parent passes the test exactly when the statement
    died, with a status the predicate accepts, and with the expected text in what was
    captured; else it fails with a message that says which of these was not so, and the
    output of the child.  System calls may be interrupted any number of times. *)
Theorem death_test_verdict p threads pipe_ child pid k l o p1 :
  ready p → pipe_.(ret) ≠ -1 → child.(ret) = 0 → 0 < pid.(ret) →
  statement (at_statement threads pipe_ child done_ k l p) = (o, p1) → child_goes_on o p1 →
  pipe_bytes pipe_.(values).2 p1.(trace) = [] →
  ∃ p2, death_test (with_answers (threads :: pipe_ :: child :: after k done_ l) p) =
      (Dies (end_of o), p2) ∧
    ∀ core err k1 k2 k3 k4 l',
      let bytes := pipe_bytes pipe_.(values).2 p2.(trace) in
      let status := wait_status (end_of o) core in
      ∃ p3, death_test (with_answers (threads :: pipe_ :: pid :: after k1 done_
          (after k2 (status_read bytes) (after k3 done_ (after k4 (waited pid.(ret) status)
            (captured err :: l'))))) p) =
        (Value (judge statement_text regex (predicate status) (how_it_ended o) status err), p3).
Proof.
  intros Hp Hpipe Hc Hpid Hst Hgo Hempty.
  destruct (child_run threads pipe_ child done_ k l p o p1) as (p2 & Hrun & Hb); try done.
  exists p2. split; [exact Hrun|]. intros core err k1 k2 k3 k4 l'. cbv zeta.
  rewrite Hb, Hempty. cbn [app].
  assert (how_it_ended o = outcome_of (last_byte o)) as -> by (by destruct o as [[]| | | |]).
  destruct (parent_run threads pipe_ pid (last_byte o) (wait_status (end_of o) core) err k1 k2 k3 k4 l' p)
    as (p3 & H & _); try done; [|by exists p3].
  destruct o; [right; by eexists|by left..].
Qed.

(** Outside of a test the factory uses the current test before the constructor checks that
    there is one. *)
Lemma death_test_outside_of_a_test p : p.(current_test_info) = None → death_test p = (Undefined, p).
Proof.
  intros H. unfold death_test, GTEST_DEATH_TEST_.
  assert (Create statement_text regex file line p = (Undefined, p)) as Hc.
  { unfold Create. erewrite bind_value by reflexivity. erewrite bind_value by reflexivity. by rewrite H. }
  unfold mbind, M_bind. by rewrite Hc.
Qed.

(** A death test of the fast style inside the statement of another: the copy of the process
    captures already, so the child aborts before it comes to the inner statement.  The
    outer test sees a death, whatever the statements do. *)
Theorem nested_death_test_dies p threads pipe_ l :
  p.(internal_run_death_test_flag) = None → string_flag "death_test_style" p = "fast" →
  is_Some p.(current_test_info) → p.(g_captured_stderr) = true →
  p.(answers) = threads :: pipe_ :: l → pipe_.(ret) ≠ -1 →
  ∃ p1, death_test p = (Dies (Killed SIGABRT), p1).
Proof.
  intros Hf Hs Ht Hc Ha Hpipe. unfold death_test, GTEST_DEATH_TEST_.
  eexists. erewrite bind_value by (by apply Create_style). cbn [negb].
  unfold AssumeRole. cbn [class new_test]. apply bind_dies. unfold NoExec_AssumeRole.
  erewrite bind_value by (apply sys_value; exact Ha). cbv beta zeta.
  run_calls. apply bind_dies. unfold CaptureStderr. erewrite bind_value by reflexivity.
  cbn [g_captured_stderr with_message asks]. rewrite warn_captured. cbn. rewrite Hc. reflexivity.
Qed.

End Verdict.

(** * The threadsafe style *)

(** A death test of the source: where it is, and what it consists of. *)
Record Site := mkSite {
  site_text : list Z;
  site_statement : M Ending;
  site_predicate : Z → bool;
  site_regex : RE;
  site_file : list Z;
  site_line : Z
}.

Definition run_site (s : Site) : M (option (list Z)) :=
  death_test s.(site_text) s.(site_file) s.(site_line) s.(site_regex) s.(site_predicate)
    s.(site_statement).

(** The death tests of a test, one after the other. *)
Fixpoint run_sites (ds : list Site) : M (list (option (list Z))) :=
  match ds with
  | [] => mret []
  | d :: ds => r ← run_site d; rs ← run_sites ds; mret (r :: rs)
  end.

Definition exec_test (s : Site) : DeathTestImpl RE :=
  mkDeathTest (ExecDeathTest s.(site_file) s.(site_line)) s.(site_text) s.(site_regex) false (-1)
    IN_PROGRESS (-1) (-1) (-1).

(** The child of a death test of the threadsafe style. *)
Record told (f : InternalRunDeathTestFlag) (p : Process) : Prop := mkTold {
  told_flag : p.(internal_run_death_test_flag) = Some f;
  told_style : string_flag "death_test_style" p = "threadsafe";
  told_test : is_Some p.(current_test_info)
}.

Lemma told_count f n p : told f p → told f (with_count n p).
Proof. intros [Hf Hs Ht]. by split. Qed.

Lemma other_site_skipped f (s : Site) p :
  told f p → p.(death_test_count) + 1 < f.(index_) →
  run_site s p = (Value None, with_count (p.(death_test_count) + 1) p).
Proof.
  intros [Hf Hs [i Hi]] Hn.
  assert (Create s.(site_text) s.(site_regex) s.(site_file) s.(site_line) p =
    (Value (true, None), with_count (p.(death_test_count) + 1) p)) as Hcreate.
  { unfold Create. erewrite bind_value by reflexivity. erewrite bind_value by reflexivity. rewrite Hi.
    erewrite bind_value by reflexivity. erewrite bind_value by reflexivity. rewrite Hf.
    rewrite (proj2 (Z.ltb_ge _ _)) by lia. rewrite (proj2 (Z.eqb_neq (index_ f) _)) by lia.
    by rewrite andb_false_r. }
  unfold run_site, death_test, GTEST_DEATH_TEST_. by erewrite bind_value by exact Hcreate.
Qed.

Lemma own_site_executed f (s : Site) p o p1 :
  told f p → p.(death_test_count) + 1 = f.(index_) →
  f.(file_) = s.(site_file) → f.(line_) = s.(site_line) →
  s.(site_statement) (with_count f.(index_) p) = (o, p1) → child_goes_on o p1 →
  ∃ p2, run_site s p = (Dies (end_of o), p2) ∧
    pipe_bytes f.(flag_write_fd_) p2.(trace) =
      pipe_bytes f.(flag_write_fd_) p1.(trace) ++ last_byte o.
Proof.
  intros [Hf Hs [i Hi]] Hn Hfile Hline Hst Hgo.
  assert (Create s.(site_text) s.(site_regex) s.(site_file) s.(site_line) p =
    (Value (true, Some (exec_test s)), with_count f.(index_) p)) as Hcreate.
  { unfold Create. erewrite bind_value by reflexivity. erewrite bind_value by reflexivity. rewrite Hi.
    erewrite bind_value by reflexivity. erewrite bind_value by reflexivity. rewrite Hf, Hn.
    rewrite Z.ltb_irrefl, bool_decide_true, Hline, !Z.eqb_refl by done. cbn [negb andb].
    erewrite bind_value by reflexivity.
    assert (string_flag "death_test_style" (with_count (index_ f) p) = "threadsafe") as ->
      by (by rewrite <-Hs).
    rewrite decide_True by done. unfold construct. rewrite bind_assoc.
    erewrite bind_value by reflexivity.
    change (current_test_info _) with (current_test_info p). by rewrite Hi. }
  unfold run_site, death_test, GTEST_DEATH_TEST_. erewrite bind_value by exact Hcreate. cbn [negb].
  erewrite bind_value.
  2:{ unfold AssumeRole. cbn [class exec_test]. unfold Exec_AssumeRole.
      erewrite bind_value by reflexivity. erewrite bind_value by reflexivity.
      cbn [current_test_info internal_run_death_test_flag with_count]. rewrite Hi, Hf.
      erewrite bind_value by reflexivity. reflexivity. }
  by apply (execute_value s.(site_file) s.(site_line) s.(site_statement)
    (set_write_fd f.(flag_write_fd_) (exec_test s)) _ _ _ Hst).
Qed.

(** The child of the threadsafe style comes to the same death tests as its parent.  It
    passes over those before the one it was started for, runs the statement of that one,
    and dies there as the statement does, or after it told its parent through the pipe why
    not; it never comes to a later one. *)
Theorem child_runs_its_death_test f ds s p o p1 :
  told f p → p.(death_test_count) = 0 →
  1 <= f.(index_) → ds !! Z.to_nat (f.(index_) - 1) = Some s →
  f.(file_) = s.(site_file) → f.(line_) = s.(site_line) →
  s.(site_statement) (with_count f.(index_) p) = (o, p1) → child_goes_on o p1 →
  ∃ p2, run_sites ds p = (Dies (end_of o), p2) ∧
    pipe_bytes f.(flag_write_fd_) p2.(trace) =
      pipe_bytes f.(flag_write_fd_) p1.(trace) ++ last_byte o.
Proof.
  intros Ht Hc Hpos Hd Hfile Hline.
  assert (∀ n p, told f p → p.(death_test_count) + 1 + Z.of_nat n = f.(index_) → ds !! n = Some s →
    s.(site_statement) (with_count f.(index_) p) = (o, p1) → child_goes_on o p1 →
    ∃ p2, run_sites ds p = (Dies (end_of o), p2) ∧
      pipe_bytes f.(flag_write_fd_) p2.(trace) =
        pipe_bytes f.(flag_write_fd_) p1.(trace) ++ last_byte o) as H.
  { clear p Ht Hc Hd. induction ds as [|d ds' IH]; [done|]. intros n p Ht Hn Hd Hst Hgo.
    cbn [run_sites]. destruct n as [|n].
    - injection Hd as ->. destruct (own_site_executed f s p o p1) as (p2 & Hr & Hb); try done; [lia|].
      exists p2. split; [by apply bind_dies|done].
    - erewrite bind_value by (apply (other_site_skipped f); [done|lia]).
      destruct (IH n (with_count (death_test_count p + 1) p)) as (p2 & Hr & Hb); try done;
        [by apply told_count|cbn; lia|].
      exists p2. split; [by apply bind_dies|done]. }
  intros Hst Hgo. by apply (H (Z.to_nat (f.(index_) - 1))); [|lia|..].
Qed.

(** ** Starting the child *)

Definition fd_pair (r w : Z) : Answer := mkAnswer 0 0 [] (r, w).
Definition returned (n : Z) : Answer := mkAnswer n 0 [] (0, 0).

Ltac asks_next :=
  rewrite ?bind_assoc; erewrite bind_value by (apply sys_value; reflexivity); cbn [ret returned].

Lemma spawn_value argv r size addr pid k1 k2 l p :
  bool_flag "death_test_use_fork" p = false →
  p.(answers) = after k1 done_ (returned size :: returned addr :: returned pid :: done_ ::
                  after k2 done_ l) →
  64 < size < U64 → addr ≠ -1 → 0 < pid →
  u64 (addr + if stack_grows_down then size - 64 else 0) mod 64 = 0 →
  ∃ cs, ExecDeathTestSpawnChild FILE StrError stack_grows_down argv r p = (Value pid, asks cs l p) ∧
    (clone argv r, returned pid) ∈ cs.
Proof.
  clear RE PartialMatch pattern. intros Hfork Ha Hsize Haddr Hpid Hal. eexists. split.
  - unfold ExecDeathTestSpawnChild. erewrite bind_value by (by apply check_syscall).
    erewrite bind_value by reflexivity.
    change (bool_flag _ (asks _ _ _)) with (bool_flag "death_test_use_fork" p). rewrite Hfork.
    asks_next. rewrite u64_small by (unfold is_u64; lia). asks_next.
    rewrite ?bind_assoc. erewrite bind_value by (by apply check_not).
    rewrite ?bind_assoc. unfold kMaxStackAlignment.
    rewrite (proj2 (Z.ltb_lt _ _)), (proj2 (Z.eqb_eq _ _) Hal) by lia.
    erewrite bind_value by reflexivity.
    asks_next. asks_next. rewrite ?bind_assoc. erewrite bind_value by (by apply check_not).
    erewrite bind_value by reflexivity. erewrite bind_value by reflexivity.
    erewrite bind_value by (by apply check_syscall).
    erewrite bind_value by (apply check_not; lia). rewrite !asks_asks. reflexivity.
  - set_solver.
Qed.


(** The parent starts, through [clone], a process that closes the end of the pipe it does
    not need and becomes the program of the parent, with the parent's own arguments and the
    two flags that choose the death test. *)
Theorem exec_starts_child (d : DeathTestImpl RE) file line info p r w size addr pid k1 k2 k3 k4 l l' :
  p.(internal_run_death_test_flag) = None → p.(current_test_info) = Some info →
  p.(g_captured_stderr) = false → bool_flag "death_test_use_fork" p = false →
  p.(answers) = fd_pair r w :: done_ :: after k1 done_ (returned size :: returned addr ::
    returned pid :: done_ :: after k2 done_ (after k3 done_ l)) →
  64 < size < U64 → addr ≠ -1 → 0 < pid →
  u64 (addr + if stack_grows_down then size - 64 else 0) mod 64 = 0 →
  let argv := child_argv p.(g_argvs) (filter_flag info)
                (internal_flag file line p.(death_test_count) w) in
  (∃ p1, Exec_AssumeRole FILE PORT_FILE StrError stack_grows_down file line d p =
      (Value (OVERSEE_TEST, set_spawned true (set_read_fd r (set_child_pid pid d))), p1) ∧
    p1.(answers) = l ∧ p1.(g_captured_stderr) = true ∧ (clone argv r, returned pid) ∈ p1.(trace)) ∧
  ∀ p', p'.(answers) = after k4 done_ (done_ :: done_ :: l') →
    ∃ p2, clone_child FILE StrError argv r p' = (Becomes (default [] (head argv)) argv, p2).
Proof.
  clear PartialMatch pattern. intros Hf Hi Hc Hfork Ha Hsize Haddr Hpid Hal argv. split.
  - set (p0 := with_capture true (with_message []
      (asks [(pipe, fd_pair r w); (fcntl_SETFD w 0, done_)]
        (after k1 done_ (returned size :: returned addr :: returned pid :: done_ ::
           after k2 done_ (after k3 done_ l))) p))).
    destruct (spawn_value argv r size addr pid k1 k2 (after k3 done_ l) p0) as (cs & Hspawn & Hcs);
      try done.
    eexists. split.
    + unfold Exec_AssumeRole. erewrite bind_value by reflexivity. erewrite bind_value by reflexivity.
      rewrite Hi. erewrite bind_value by reflexivity. rewrite Hf.
      erewrite bind_value by (apply sys_value; exact Ha). cbv beta zeta.
      erewrite bind_value by (by apply check_not).
      erewrite bind_value by (by apply sys_value).
      erewrite bind_value by (by apply check_not).
      erewrite bind_value by reflexivity. erewrite bind_value by reflexivity.
      erewrite bind_value by (by apply CaptureStderr_value). rewrite asks_asks.
      erewrite bind_value by exact Hspawn.
      erewrite bind_value by (by apply check_syscall). reflexivity.
    + split; [done|]. split; [done|]. cbn [trace asks]. set_solver.
  - intros p' Ha'. eexists. unfold clone_child. apply bind_becomes. unfold ExecDeathTestChildMain.
    erewrite bind_value by (by apply check_syscall). erewrite bind_value by reflexivity.
    erewrite bind_value by (by apply sys_value). cbn [ret done_ Z.eqb negb].
    erewrite bind_value by (by apply sys_value). reflexivity.
Qed.

End Facts.

(** * The flags of the child *)

(** The characters of a C string. *)
Notation ok_bytes := (Forall (λ c, 0 < c < 256)).

Lemma code_of_byte c : 0 <= c < 256 → code (ascii_of_N (Z.to_N c)) = c.
Proof. intros H. unfold code. rewrite N_ascii_embedding by lia. lia. Qed.

Lemma text_of_text l : ok_bytes l → text (of_text l) = l.
Proof.
  intros H. unfold text, of_text. rewrite String.list_ascii_of_string_of_list_ascii.
  rewrite <-list_fmap_compose. rewrite <-(list_fmap_id l) at 2.
  apply list_fmap_ext. intros i c Hc. cbn. apply code_of_byte.
  apply (Forall_lookup_1 _ _ _ _ H) in Hc. lia.
Qed.

Lemma of_text_text s : of_text (text s) = s.
Proof.
  unfold text, of_text. rewrite <-list_fmap_compose. rewrite <-(String.string_of_list_ascii_of_string s) at 2.
  f_equal. rewrite <-(list_fmap_id (String.list_ascii_of_string s)) at 2.
  apply list_fmap_ext. intros i c _. cbn. unfold code. rewrite N2Z.id. apply ascii_N_embedding.
Qed.

Lemma of_text_app a b : of_text (a ++ b) = of_text a +:+ of_text b.
Proof.
  unfold of_text. rewrite fmap_app. induction (_ <$> a) as [|c l IH]; [done|].
  cbn. by rewrite IH.
Qed.

Lemma ok_bytes_c_str l : ok_bytes l → from_c_str l = l.
Proof.
  induction 1 as [|c l Hc _ IH]; [done|]. cbn [from_c_str].
  rewrite (proj2 (Z.eqb_neq c 0)) by lia. by rewrite IH.
Qed.

Lemma digits_ok s : all_chars is_digit s = true → ok_bytes (text s) ∧ 124 ∉ text s.
Proof.
  induction s as [|c s IH]; [intros _; split; [constructor|set_solver]|]. cbn [all_chars].
  intros [Hc Hs]%andb_true_iff. destruct (IH Hs) as [H1 H2].
  change (text (String c s)) with (code c :: text s). unfold is_digit in Hc.
  split; [constructor; [lia|done]|]. apply not_elem_of_cons. split; [lia|done].
Qed.

Lemma show64_nonneg n : 0 <= n → show64 n = text (decimal 20 n "").
Proof. intros H. unfold show64. by rewrite (proj2 (Z.ltb_ge _ _)) by lia. Qed.

Lemma show64_ok n : 0 <= n → ok_bytes (show64 n) ∧ 124 ∉ show64 n.
Proof. intros H. rewrite show64_nonneg by done. by apply digits_ok, decimal_digits. Qed.

(** A number that fits an [int] is read back. *)
Lemma ParseNaturalNumber_shown n : 0 <= n <= I32_MAX → ParseNaturalNumber (show64 n) = Some n.
Proof.
  intros Hn. unfold ParseNaturalNumber.
  rewrite ok_bytes_c_str by (apply show64_ok; lia). rewrite show64_nonneg by lia.
  rewrite of_text_text, decimal_nonempty by lia.
  rewrite take_digits_decimal by (unfold I32_MAX in Hn; lia). cbn [take_digits].
  rewrite bool_decide_true by done. cbn [andb].
  rewrite (proj2 (Z.ltb_lt n U64)) by (unfold I32_MAX, U64 in *; lia).
  rewrite i32_small by (unfold is_i32; lia). rewrite u64_small by (unfold is_u64, I32_MAX, U64 in *; lia).
  by rewrite Z.eqb_refl.
Qed.

(** It is meant to read a natural number, but reads the greatest ones of 64 bits as
    negative ones; those between do not fit an [int] and are refused. *)
Theorem ParseNaturalNumber_accepts_negative :
  ParseNaturalNumber (text "2147483647") = Some 2147483647 ∧
  ParseNaturalNumber (text "2147483648") = None ∧
  ParseNaturalNumber (text "18446744073709551615") = Some (-1) ∧
  ParseNaturalNumber (text "18446744073709551616") = None ∧
  ParseNaturalNumber (text "+1") = None ∧ ParseNaturalNumber (text "1x") = None ∧
  ParseNaturalNumber [] = None.
Proof. split_and!; by vm_compute. Qed.

Lemma read_arguments_app files a b s :
  read_arguments files (a ++ b) s =
  ('(k1, s1) ← read_arguments files a s; '(k2, s2) ← read_arguments files b s1;
   Some (k1 ++ k2, s2)).
Proof.
  revert s. induction a as [|x a IH]; intros s; cbn [app read_arguments].
  - cbn. by destruct (read_arguments files b s) as [[]|].
  - destruct (parse_argument files x s) as [[rm s']|]; [|done]. cbn. rewrite IH.
    destruct (read_arguments files a s') as [[k1 s1]|]; [|done]. cbn.
    destruct (read_arguments files b s1) as [[k2 s2]|]; [|done]. cbn. by destruct rm.
Qed.

Lemma string_argument files name v s :
  (StringFlag, name) ∈ google_test_flags →
  parse_argument files (argument name (VString v)) s = Some (true, set_string name v s).
Proof.
  intros Hin. unfold parse_argument, ParseGoogleTestFlag.
  by rewrite (first_flag_finds google_test_flags StringFlag name (VString v))
    by (done || apply flags_distinct || apply flags_no_equals).
Qed.

Lemma filter_flag_argument info :
  of_text (filter_flag info) = argument "filter" (VString (of_text (info.1 ++ text "." ++ info.2))).
Proof. unfold filter_flag. by rewrite !of_text_app, !of_text_text. Qed.

Lemma internal_flag_argument file line index fd :
  of_text (internal_flag file line index fd) =
  argument "internal_run_death_test" (VString (of_text (internal_flag_value file line index fd))).
Proof. unfold internal_flag. by rewrite !of_text_app, !of_text_text. Qed.

Lemma ok_bytes_text s : all_chars (λ c, negb (code c =? 0)) s = true → ok_bytes (text s).
Proof.
  induction s as [|c s IH]; [constructor|]. cbn [all_chars]. intros [Hc Hs]%andb_true_iff.
  change (text (String c s)) with (code c :: text s). constructor; [|by apply IH].
  apply negb_true_iff, Z.eqb_neq in Hc. unfold code in *. pose proof (N_ascii_bounded c). lia.
Qed.

Lemma internal_value_ok file line index fd :
  ok_bytes file → 0 <= line → 0 <= index → 0 <= fd →
  ok_bytes (internal_flag_value file line index fd).
Proof.
  intros. unfold internal_flag_value.
  repeat apply Forall_app_2; (done || by apply show64_ok || by apply ok_bytes_text).
Qed.

Lemma internal_value_joined file line index fd :
  internal_flag_value file line index fd = joined 124 [file; show64 line; show64 index; show64 fd].
Proof. unfold internal_flag_value. cbn [joined]. done. Qed.

(** The flag reads as what it was written from. *)
Lemma ParseInternal_shown file line index fd p :
  ok_bytes file → 124 ∉ file → 0 <= line <= I32_MAX → 0 <= index <= I32_MAX → 0 <= fd <= I32_MAX →
  string_flag "internal_run_death_test" p = of_text (internal_flag_value file line index fd) →
  ParseInternalRunDeathTestFlag p = (Value (Some (mkFlag file line index fd)), p).
Proof.
  intros Hok Hbar Hl Hi Hfd Hp.
  assert (ok_bytes (internal_flag_value file line index fd)) as Hv by (apply internal_value_ok; lia || done).
  unfold ParseInternalRunDeathTestFlag. erewrite bind_value by reflexivity. rewrite Hp.
  rewrite decide_False.
  2:{ intros E. apply (f_equal text) in E. rewrite text_of_text in E by done.
      unfold internal_flag_value in E. by destruct file. }
  rewrite text_of_text, ok_bytes_c_str, internal_value_joined by done.
  rewrite SplitString_of_joined; [|repeat constructor; try done; apply show64_ok; lia|done].
  by rewrite !ParseNaturalNumber_shown.
Qed.

(** The program a parent starts for a death test reads, from its command line, the flags
    the parent had on its own, a filter that is the name of the test, and the death test:
    its file and line, its number within the test, and the descriptor of the pipe.  The
    arguments that are no flags are left to the program. *)
Theorem child_flags_read_back files prog args s0 kept s1 info file line index fd :
  Forall ok_bytes (prog :: args) → ok_bytes info.1 → ok_bytes info.2 → ok_bytes file → 124 ∉ file →
  0 <= line <= I32_MAX → 0 <= index <= I32_MAX → 0 <= fd <= I32_MAX →
  read_arguments files (of_text <$> args) s0 = Some (kept, s1) →
  let argv := child_argv (prog :: args) (filter_flag info) (internal_flag file line index fd) in
  ∃ rest s2,
    ParseGoogleTestFlagsOnly files (length argv) ((Some <$> (of_text <$> argv)) ++ [None]) s0 =
      Some (S (length kept), (Some <$> of_text prog :: kept) ++ None :: rest, s2) ∧
    s2.(strings) !! "filter" = Some (of_text (info.1 ++ text "." ++ info.2)) ∧
    ∀ p, p.(flags) = s2 →
      InitDeathTestSubprocessControlInfo p = (Value tt, with_flag (Some (mkFlag file line index fd)) p).
Proof.
  intros Hargs Hi1 Hi2 Hfile Hbar Hl Hi Hfd Hread argv.
  set (s2 := set_string "internal_run_death_test" (of_text (internal_flag_value file line index fd))
    (set_string "filter" (of_text (info.1 ++ text "." ++ info.2)) s1)).
  assert (of_text <$> argv = of_text prog :: (of_text <$> args) ++
    [argument "filter" (VString (of_text (info.1 ++ text "." ++ info.2)));
     argument "internal_run_death_test" (VString (of_text (internal_flag_value file line index fd)))])
    as Hargv.
  { subst argv. unfold child_argv.
    assert (from_c_str <$> (prog :: args) ++ [filter_flag info; internal_flag file line index fd] =
      (prog :: args) ++ [filter_flag info; internal_flag file line index fd]) as ->.
    { rewrite <-(list_fmap_id (_ ++ _)) at 2. apply list_fmap_ext. intros i x Hx.
      apply ok_bytes_c_str. apply list_elem_of_lookup_2 in Hx. apply elem_of_app in Hx as [Hx|Hx].
      - by apply (Forall_forall (λ l, ok_bytes l) (prog :: args)).
      - set_unfold in Hx. destruct Hx as [->|[->|[]]]; unfold filter_flag, internal_flag;
          repeat apply Forall_app_2;
          first [done | by apply ok_bytes_text | apply show64_ok; lia]. }
    rewrite fmap_app. cbn [fmap list_fmap app]. by rewrite filter_flag_argument, internal_flag_argument. }
  pose proof (flags_loop_spec files (length argv) [of_text prog]
    ((of_text <$> args) ++ [argument "filter" (VString (of_text (info.1 ++ text "." ++ info.2)));
     argument "internal_run_death_test" (VString (of_text (internal_flag_value file line index fd)))])
    [] s0) as H.
  assert (length argv = S (length args + 2)) as Hlen.
  { subst argv. unfold child_argv. rewrite length_fmap, length_app. simpl. lia. }
  assert (read_arguments files ((of_text <$> args) ++
    [argument "filter" (VString (of_text (info.1 ++ text "." ++ info.2)));
     argument "internal_run_death_test" (VString (of_text (internal_flag_value file line index fd)))]) s0 =
    Some (kept, s2)) as Hall.
  { rewrite read_arguments_app, Hread. cbn [mbind option_bind read_arguments].
    do 2 (rewrite string_argument by (unfold google_test_flags; set_solver); cbn [mbind option_bind]).
    by rewrite app_nil_r. }
  rewrite Hall in H.
  destruct H as [rest H]; [rewrite length_app, length_fmap, Hlen; simpl; lia|].
  exists rest, s2. split; [|split].
  - rewrite Hargv. unfold ParseGoogleTestFlagsOnly. rewrite length_app, length_fmap in H.
    cbn [length] in H. rewrite Hlen in H |- *. cbn [app] in H. exact H.
  - subst s2. cbn. by rewrite lookup_insert_ne, lookup_insert_eq.
  - intros p Hp. unfold InitDeathTestSubprocessControlInfo. erewrite bind_value; [reflexivity|].
    apply ParseInternal_shown; try done. unfold string_flag. rewrite Hp. subst s2. cbn.
    by rewrite lookup_insert_eq.
Qed.

(** * The filter of the child *)

Definition literal (l : list ascii) : Prop := Forall (λ c, c ∉ bytes "*?:-") l.

Lemma glob_literal p s : literal p → glob p s ↔ s = p.
Proof.
  intros Hp. split.
  - intros Hg. induction Hg as [|c p s Hc Hg IH|d p s Hg IH|p s1 s2 Hg IH].
    + done.
    + apply Forall_cons in Hp as [_ Hp]. by rewrite IH.
    + apply Forall_cons in Hp as [Hp _]. destruct Hp. by vm_compute; set_solver.
    + apply Forall_cons in Hp as [Hp _]. destruct Hp. by vm_compute; set_solver.
  - intros ->. induction Hp as [|c p Hc Hp IH]; [constructor|]. constructor; [|done].
    intros ->. apply Hc. by vm_compute; set_solver.
Qed.

Lemma patterns_literal l : literal l → patterns l = [l].
Proof.
  induction 1 as [|c l Hc _ IH]; [done|]. cbn [patterns]. rewrite IH.
  rewrite decide_False; [done|]. intros ->. apply Hc. by vm_compute; set_solver.
Qed.

(** The filter a child gets selects its test and no other, as long as the names are made
    of the characters of identifiers: a case's name holds no dot. *)
Theorem child_filter_selects_one test_case test c n :
  literal test_case → literal test → "."%char ∉ test_case → "."%char ∉ c →
  FilterMatchesTest (test_case ++ bytes "." ++ test) c n = true ↔ c = test_case ∧ n = test.
Proof.
  intros Hc Hn Hdot Hdot'.
  assert (literal (test_case ++ bytes "." ++ test)) as Hl.
  { apply Forall_app_2; [done|]. apply Forall_app_2; [|done]. repeat constructor. bd. }
  rewrite (FilterMatchesTest_selects _ _ _ (test_case ++ bytes "." ++ test) []).
  2:{ left. split; [done|]. split; [|done]. intros Hin.
      apply (Forall_forall _ _) with (x := "-"%char) in Hl; [|done]. apply Hl. bd. }
  cbv zeta. rewrite patterns_literal by done. split.
  - intros [[(p & ->%list_elem_of_singleton & Hg)|[Hnil _]] _]; [|by destruct test_case].
    apply glob_literal in Hg; [|done]. clear Hl Hc. revert c Hdot' Hg.
    induction test_case as [|x l IH]; intros [|y c] Hd Hg; simplify_eq/=; [done|set_solver|set_solver|].
    destruct (IH ltac:(set_solver) c ltac:(set_solver) ltac:(done)) as [-> ->]. done.
  - intros [-> ->]. split; [left; eexists; split; [by left|by apply glob_literal]|].
    intros (p & Hp & Hg). vm_compute in Hp.
    apply list_elem_of_singleton in Hp as ->. inversion Hg. by destruct test_case.
Qed.

Module Example_death.

Definition contains (s needle : list Z) : bool := find_text needle s.
Definition errors (errno : Z) : list Z := text "error".

(** A program with one test, [RaftTest.Dies]. *)
Definition start (style : string) : Process :=
  mkProcess [] [] [] false false [] None (Some (text "RaftTest", text "Dies")) 0 true
    (set_string "death_test_style" style (initial_flags (λ _, None)))
    [text "./basic_test"; text "--gtest_repeat=2"] (text "/home").

(** A statement that writes and exits. *)
Definition dying : M Ending := _ ← update (wrote (text "no leader")); die (Exits 3).
Definition living : M Ending := mret Finishes.

Definition test_of (statement : M Ending) : M (option (list Z)) :=
  death_test (text "death.cc") (text "port.cc") errors contains (λ re, re) true
    (text "Run()") (text "test.cc") 7 (text "leader") (ExitedWithCode 3) statement.

Definition child_at (statement : M Ending) (l : list Answer) : Outcome Ending * Process :=
  statement (at_statement (text "death.cc") (returned 1) (fd_pair 5 6) done_ done_ 1 l (start "fast")).

Lemma start_ready : ready (start "fast").
Proof. split; [done|by vm_compute|by eexists|done]. Qed.

Lemma death_test_verdict_witness :
  let '(o, p1) := child_at dying [] in
  ∃ p2, test_of dying (with_answers (returned 1 :: fd_pair 5 6 :: done_ :: after 1 done_ []) (start "fast")) =
      (Dies (end_of o), p2) ∧
    ∀ core err k1 k2 k3 k4 l',
      let bytes := pipe_bytes 6 p2.(trace) in
      let status := wait_status (end_of o) core in
      ∃ p3, test_of dying (with_answers (returned 1 :: fd_pair 5 6 :: returned 42 :: after k1 done_
          (after k2 (status_read bytes) (after k3 done_ (after k4 (waited 42 status)
            (captured err :: l'))))) (start "fast")) =
        (Value (judge contains (λ re, re) (text "Run()") (text "leader")
                  (ExitedWithCode 3 status) (how_it_ended o) status err), p3).
Proof.
  apply (death_test_verdict (text "death.cc") (text "port.cc") errors contains (λ re, re) true
    (text "Run()") (text "test.cc") 7 (text "leader") (ExitedWithCode 3) dying (start "fast")
    (returned 1) (fd_pair 5 6) done_ (returned 42) 1 [] (Dies (Exits 3)) (child_at dying []).2).
  - exact start_ready.
  - done.
  - done.
  - done.
  - reflexivity.
  - exact I.
  - reflexivity.
Defined.

(** What the judge says in that run, and for a statement that does not die. *)
Example verdicts :
  judge contains (λ re, re) (text "Run()") (text "leader") (ExitedWithCode 3 768) DIED 768
    (text "no leader") = None ∧
  judge contains (λ re, re) (text "Run()") (text "leader") true LIVED 256 (text "a" ++ newline ++ text "b") =
    Some (text "Death test: Run()" ++ newline ++ text "    Result: failed to die." ++ newline ++
          text " Error msg:" ++ newline ++ text "[  DEATH   ] a" ++ newline ++ text "[  DEATH   ] b").
Proof. done. Qed.

Lemma nested_death_test_dies_witness :
  ∃ p1, test_of living (with_answers [returned 1; fd_pair 5 6] (with_capture true (start "fast"))) =
    (Dies (Killed SIGABRT), p1).
Proof.
  apply (nested_death_test_dies (text "death.cc") (text "port.cc") errors contains (λ re, re) true
    (text "Run()") (text "test.cc") 7 (text "leader") (ExitedWithCode 3) living
    (with_answers [returned 1; fd_pair 5 6] (with_capture true (start "fast")))
    (returned 1) (fd_pair 5 6) []); [done|by vm_compute|by eexists|done..].
Defined.

(** ** The threadsafe style *)

Definition site (statement : M Ending) (line : Z) : Site :=
  mkSite (text "Run()") statement (ExitedWithCode 3) (text "leader") (text "test.cc") line.
Definition told_second : Process :=
  with_flag (Some (mkFlag (text "test.cc") 9 2 6)) (start "threadsafe").

Lemma child_runs_its_death_test_witness :
  ∃ p2, run_sites (text "death.cc") (text "port.cc") errors contains (λ re, re) true
      [site dying 7; site living 9; site dying 11]
      (with_answers [returned 1] told_second) = (Dies (Exits 1), p2) ∧
    pipe_bytes 6 p2.(trace) = [kDeathTestLived].
Proof.
  apply (child_runs_its_death_test (text "death.cc") (text "port.cc") errors contains (λ re, re) true
    (mkFlag (text "test.cc") 9 2 6) [site dying 7; site living 9; site dying 11] (site living 9)
    (with_answers [returned 1] told_second) (Value Finishes)
    (with_count 2 (with_answers [returned 1] told_second))).
  - split; [done|by vm_compute|by eexists].
  - done.
  - simpl. lia.
  - reflexivity.
  - reflexivity.
  - reflexivity.
  - reflexivity.
  - by exists 0%nat, [].
Defined.

Definition spawning : list Answer :=
  fd_pair 5 6 :: done_ :: after 0 done_ (returned 4096 :: returned 8192 :: returned 42 :: done_ ::
    after 1 done_ (after 0 done_ [])).
Definition second_test : Process := with_count 2 (with_answers spawning (start "threadsafe")).

Lemma exec_starts_child_witness :
  let argv := [text "./basic_test"; text "--gtest_repeat=2"; text "--gtest_filter=RaftTest.Dies";
               text "--gtest_internal_run_death_test=test.cc|9|2|6"] in
  (∃ p1, Exec_AssumeRole (text "death.cc") (text "port.cc") errors true (text "test.cc") 9
        (exec_test (site living 9)) second_test =
      (Value (OVERSEE_TEST, set_spawned true (set_read_fd 5 (set_child_pid 42 (exec_test (site living 9))))), p1) ∧
    p1.(answers) = [] ∧ p1.(g_captured_stderr) = true ∧ (clone argv 5, returned 42) ∈ p1.(trace)) ∧
  ∀ p', p'.(answers) = after 0 done_ [done_; done_] →
    ∃ p2, clone_child (text "death.cc") errors argv 5 p' = (Becomes (text "./basic_test") argv, p2).
Proof.
  apply (exec_starts_child (text "death.cc") (text "port.cc") errors true (exec_test (site living 9))
    (text "test.cc") 9 (text "RaftTest", text "Dies") second_test 5 6 4096 8192 42 0 1 0 0 [] []);
    [done|done|done|by vm_compute|done|split; reflexivity|done|done|reflexivity].
Defined.

Lemma child_flags_read_back_witness :
  ∃ rest s2,
    ParseGoogleTestFlagsOnly (λ _, None) 4
      [Some "./basic_test"; Some "--verbose"; Some "--gtest_filter=RaftTest.Dies";
       Some "--gtest_internal_run_death_test=test.cc|9|2|6"; None] (initial_flags (λ _, None)) =
      Some (2%nat, [Some "./basic_test"; Some "--verbose"] ++ None :: rest, s2) ∧
    s2.(strings) !! "filter" = Some "RaftTest.Dies" ∧
    ∀ p, p.(flags) = s2 →
      InitDeathTestSubprocessControlInfo p =
        (Value tt, with_flag (Some (mkFlag (text "test.cc") 9 2 6)) p).
Proof.
  apply (child_flags_read_back (λ _, None) (text "./basic_test") [text "--verbose"]
    (initial_flags (λ _, None)) ["--verbose"] (initial_flags (λ _, None))
    (text "RaftTest", text "Dies") (text "test.cc") 9 2 6);
    [by repeat constructor..| |split; done|split; done|split; done|reflexivity].
  bd.
Defined.

Lemma child_filter_selects_one_witness :
  FilterMatchesTest (bytes "RaftTest.Dies") (bytes "RaftTest") (bytes "Dies") = true ↔
  bytes "RaftTest" = bytes "RaftTest" ∧ bytes "Dies" = bytes "Dies".
Proof. apply (child_filter_selects_one (bytes "RaftTest") (bytes "Dies")); bd. Defined.

Lemma exit_predicates_witness :
  (∀ n, KilledBySignal n (wait_status (Killed 6) true) = true ↔ Killed 6 = Killed n) ∧
  ExitSummary (wait_status (Killed 6) true) = text "Terminated by signal 6 (core dumped)".
Proof.
  destruct (exit_predicates (Killed 6) true) as (_ & H & _ & ->); [reflexivity|]. split; [exact H|done].
Defined.

End Example_death.
