(* ===== verification/Matchers.v ===== *)
(** The matchers of Google Mock ([src/lib/googlemock/include/gmock/gmock-matchers.h]).

    A matcher of a type is a record of the functions of [MatcherInterface].  What it writes
    to a listener is the text so far and more; a listener without a stream is [None].  The
    printers, the operators and the type names of the user's types are type classes.  A
    pointer is an [option] of what it points to, a container the list of its elements. *)

From S2P Require Import Prelude Strings Matching Utf8 Printers Assertions.
From stdpp Require Import base list strings.
From Stdlib Require Import ZArith Ascii.

Open Scope Z_scope.

(** * Listeners and matchers *)

(** [MatchResultListener]: its stream. *)
Definition Listener : Type := option (list Z).

Definition IsInterested (l : Listener) : bool := match l with Some _ => true | None => false end.

(** [operator<<]. *)
Definition say (x : list Z) (l : Listener) : Listener := (λ t, t ++ x) <$> l.

(** [StringMatchResultListener]: an empty one, and [str]. *)
Definition string_listener : Listener := Some [].
Definition str (l : Listener) : list Z := default [] l.

Record Matcher (T : Type) := mkMatcher {
  MatchAndExplain : T → Listener → bool * Listener;
  DescribeTo : list Z;
  DescribeNegationTo : list Z
}.
Arguments mkMatcher {T} _ _ _.
Arguments MatchAndExplain {T} _ _ _.
Arguments DescribeTo {T} _.
Arguments DescribeNegationTo {T} _.

(** [DummyMatchResultListener]. *)
Definition Matches {T} (m : Matcher T) (x : T) : bool := (MatchAndExplain m x None).1.

(** [ExplainMatchResultTo]. *)
Definition ExplainMatchResultTo {T} (m : Matcher T) (x : T) (os : list Z) : list Z :=
  str (MatchAndExplain m x (Some os)).2.

(** [MatcherDescriberInterface::DescribeNegationTo], where it is not overridden. *)
Definition default_negation (describe : list Z) : list Z := text "not (" ++ describe ++ text ")".

(** A matcher that explains nothing. *)
Definition silent {T} (f : T → bool) (describe negation : list Z) : Matcher T :=
  mkMatcher (λ x l, (f x, l)) describe negation.

(** How values of a type are printed, and the name of the type. *)
Class Printer (T : Type) := { UniversalPrint : T → list Z; GetTypeName : list Z }.
Arguments GetTypeName T {_}.

(** The operators of [AnyEq] to [AnyGe]. *)
Class Operators (L R : Type) := {
  AnyEq : L → R → bool; AnyNe : L → R → bool; AnyLt : L → R → bool;
  AnyGt : L → R → bool; AnyLe : L → R → bool; AnyGe : L → R → bool
}.

#[export] Instance int_operators : Operators Z Z :=
  {| AnyEq := Z.eqb; AnyNe := λ a b, negb (a =? b); AnyLt := Z.ltb; AnyGt := Z.gtb;
     AnyLe := Z.leb; AnyGe := Z.geb |}.

Definition PrintIfNotEmpty (explanation : list Z) (os : Listener) : Listener :=
  if bool_decide (explanation = []) then os else say (text ", " ++ explanation) os.

Definition IsReadableTypeName (type_name : list Z) : bool :=
  (length type_name <=? 20)%nat || negb (bool_decide (60 ∈ type_name ∨ 40 ∈ type_name)).

Definition MatchPrintAndExplain {T} `{Printer T} (value : T) (matcher : Matcher T) (l : Listener)
    : bool * Listener :=
  if IsInterested l then
    let '(match_, inner_listener) := MatchAndExplain matcher value string_listener in
    let type_name := GetTypeName T in
    let l := say (UniversalPrint value) l in
    let l := if IsReadableTypeName type_name then say (text " (of type " ++ type_name ++ text ")") l
             else l in
    (match_, PrintIfNotEmpty (str inner_listener) l)
  else (Matches matcher value, l).

(** [MatcherCastImpl]: a matcher of a type that values are converted to. *)
Definition MatcherCast {T U} (cast : T → U) (source_matcher_ : Matcher U) : Matcher T :=
  mkMatcher (λ x l, MatchAndExplain source_matcher_ (cast x) l)
    (DescribeTo source_matcher_) (DescribeNegationTo source_matcher_).

(** * Simple matchers *)

Definition AnyMatcherImpl {T} : Matcher T :=
  silent (λ _, true) (text "is anything") (text "never matches").

Definition ComparisonBase {Lhs Rhs} `{Printer Rhs} (desc negated_desc : string)
    (op : Lhs → Rhs → bool) (rhs : Rhs) : Matcher Lhs :=
  silent (λ lhs, op lhs rhs) (text desc ++ text " " ++ UniversalPrint rhs)
    (text negated_desc ++ text " " ++ UniversalPrint rhs).

Section Comparisons.
Context {Lhs Rhs : Type} `{Printer Rhs} `{Operators Lhs Rhs}.

Definition EqMatcher : Rhs → Matcher Lhs := ComparisonBase "is equal to" "isn't equal to" AnyEq.
Definition NeMatcher : Rhs → Matcher Lhs := ComparisonBase "isn't equal to" "is equal to" AnyNe.
Definition LtMatcher : Rhs → Matcher Lhs := ComparisonBase "is <" "isn't <" AnyLt.
Definition GtMatcher : Rhs → Matcher Lhs := ComparisonBase "is >" "isn't >" AnyGt.
Definition LeMatcher : Rhs → Matcher Lhs := ComparisonBase "is <=" "isn't <=" AnyLe.
Definition GeMatcher : Rhs → Matcher Lhs := ComparisonBase "is >=" "isn't >=" AnyGe.

Definition PairMatchBase (desc : string) (op : Lhs → Rhs → bool) : Matcher (Lhs * Rhs) :=
  silent (λ args, op args.1 args.2) (text "are " ++ text desc) (text "aren't " ++ text desc).

Definition Eq2Matcher : Matcher (Lhs * Rhs) := PairMatchBase "an equal pair" AnyEq.
Definition Ne2Matcher : Matcher (Lhs * Rhs) := PairMatchBase "an unequal pair" AnyNe.
Definition Lt2Matcher : Matcher (Lhs * Rhs) :=
  PairMatchBase "a pair where the first < the second" AnyLt.
Definition Gt2Matcher : Matcher (Lhs * Rhs) :=
  PairMatchBase "a pair where the first > the second" AnyGt.
Definition Le2Matcher : Matcher (Lhs * Rhs) :=
  PairMatchBase "a pair where the first <= the second" AnyLe.
Definition Ge2Matcher : Matcher (Lhs * Rhs) :=
  PairMatchBase "a pair where the first >= the second" AnyGe.
End Comparisons.

Definition IsNullMatcher {T} : Matcher (option T) :=
  silent (λ p, match p with None => true | Some _ => false end) (text "is NULL") (text "isn't NULL").
Definition NotNullMatcher {T} : Matcher (option T) :=
  silent (λ p, match p with None => false | Some _ => true end) (text "isn't NULL") (text "is NULL").

(** A reference is the address of a variable and its value; [show_address] prints an
    address, [print_ref] the value with it. *)
Definition RefMatcher {T} (show_address : Z → list Z) (print_ref : Z * T → list Z) (object_ : Z * T)
    : Matcher (Z * T) :=
  mkMatcher
    (λ x l, (x.1 =? object_.1, say (text "which is located @" ++ show_address x.1) l))
    (text "references the variable " ++ print_ref object_)
    (text "does not reference the variable " ++ print_ref object_).

Definition TrulyMatcher {T} (predicate_ : T → bool) : Matcher T :=
  silent (λ x, if predicate_ x then true else false) (text "satisfies the given predicate")
    (text "doesn't satisfy the given predicate").

(** * Strings *)

(** A [std::string] may hold NULs: what is behind the first one is compared in turn.
    Every round passes a NUL. *)
Fixpoint case_insensitive_loop (fuel : nat) (s1 s2 : list Z) : bool :=
  if negb (CaseInsensitiveCStringEquals (Some (from_c_str s1)) (Some (from_c_str s2))) then false
  else match find_char 0 s1, find_char 0 s2 with
       | Some i1, Some i2 =>
           match fuel with
           | O => false
           | S fuel => case_insensitive_loop fuel (drop (i1 + 1) s1) (drop (i2 + 1) s2)
           end
       | None, None => true
       | _, _ => false
       end.
Definition CaseInsensitiveStringEquals (s1 s2 : list Z) : bool :=
  case_insensitive_loop (length s1) s1 s2.

(** [UniversalPrint] of a [std::string]. *)
Definition print_string (s : list Z) : list Z := PrintCharsAsStringTo false s.

(** What a matcher of strings makes of a C string: of a null pointer, [null]. *)
Definition on_c_string (null : bool) (m : Matcher (list Z)) : Matcher (option (list Z)) :=
  mkMatcher
    (λ s l, match s with None => (null, l) | Some s => MatchAndExplain m (from_c_str s) l end)
    (DescribeTo m) (DescribeNegationTo m).

Definition StrEquality_DescribeToHelper (string_ : list Z) (case_sensitive_ expect_eq : bool) : list Z :=
  (if expect_eq then text "is " else text "isn't ") ++ text "equal to " ++
  (if case_sensitive_ then [] else text "(ignoring case) ") ++ print_string string_.

Definition StrEqualityMatcher (string_ : list Z) (expect_eq_ case_sensitive_ : bool) : Matcher (list Z) :=
  silent
    (λ s, let eq := if case_sensitive_ then bool_decide (s = string_)
                    else CaseInsensitiveStringEquals s string_ in
          Bool.eqb expect_eq_ eq)
    (StrEquality_DescribeToHelper string_ case_sensitive_ expect_eq_)
    (StrEquality_DescribeToHelper string_ case_sensitive_ (negb expect_eq_)).
Definition StrEquality_c_string (string_ : list Z) (expect_eq_ case_sensitive_ : bool) :=
  on_c_string (negb expect_eq_) (StrEqualityMatcher string_ expect_eq_ case_sensitive_).

Definition HasSubstrMatcher (substring_ : list Z) : Matcher (list Z) :=
  silent (λ s, find_text substring_ s) (text "has substring " ++ print_string substring_)
    (text "has no substring " ++ print_string substring_).
Definition HasSubstr_c_string (substring_ : list Z) := on_c_string false (HasSubstrMatcher substring_).

Definition StartsWithMatcher (prefix_ : list Z) : Matcher (list Z) :=
  silent
    (λ s, (length prefix_ <=? length s)%nat && bool_decide (substr s 0 (length prefix_) = prefix_))
    (text "starts with " ++ print_string prefix_) (text "doesn't start with " ++ print_string prefix_).
Definition StartsWith_c_string (prefix_ : list Z) := on_c_string false (StartsWithMatcher prefix_).

Definition EndsWithMatcher (suffix_ : list Z) : Matcher (list Z) :=
  silent
    (λ s, (length suffix_ <=? length s)%nat &&
          bool_decide (drop (length s - length suffix_) s = suffix_))
    (text "ends with " ++ print_string suffix_) (text "doesn't end with " ++ print_string suffix_).
Definition EndsWith_c_string (suffix_ : list Z) := on_c_string false (EndsWithMatcher suffix_).

(** Regular expressions are those of the C library: their operations are given. *)
Definition MatchesRegexMatcher {RE} (FullMatch PartialMatch : list Z → RE → bool)
    (pattern : RE → list Z) (regex_ : RE) (full_match_ : bool) : Matcher (list Z) :=
  silent (λ s, if full_match_ then FullMatch s regex_ else PartialMatch s regex_)
    ((if full_match_ then text "matches" else text "contains") ++ text " regular expression " ++
     print_string (pattern regex_))
    (text "doesn't " ++ (if full_match_ then text "match" else text "contain") ++
     text " regular expression " ++ print_string (pattern regex_)).
Definition MatchesRegex_c_string {RE} (FullMatch PartialMatch : list Z → RE → bool)
    (pattern : RE → list Z) (regex_ : RE) (full_match_ : bool) :=
  on_c_string false (MatchesRegexMatcher FullMatch PartialMatch pattern regex_ full_match_).

(** * Matchers of matchers *)

Definition NotMatcherImpl {T} (matcher_ : Matcher T) : Matcher T :=
  mkMatcher (λ x l, let '(b, l) := MatchAndExplain matcher_ x l in (negb b, l))
    (DescribeNegationTo matcher_) (DescribeTo matcher_).

(** What is said when both matchers were asked. *)
Definition both_explanations (s1 s2 : list Z) (l : Listener) : Listener :=
  if bool_decide (s1 = []) then say s2 l
  else let l := say s1 l in
       if bool_decide (s2 = []) then l else say (text ", and " ++ s2) l.

Definition BothOfMatcherImpl {T} (matcher1_ matcher2_ : Matcher T) : Matcher T :=
  mkMatcher
    (λ x l,
       let '(b1, listener1) := MatchAndExplain matcher1_ x string_listener in
       if negb b1 then (false, say (str listener1) l)
       else
         let '(b2, listener2) := MatchAndExplain matcher2_ x string_listener in
         if negb b2 then (false, say (str listener2) l)
         else (true, both_explanations (str listener1) (str listener2) l))
    (text "(" ++ DescribeTo matcher1_ ++ text ") and (" ++ DescribeTo matcher2_ ++ text ")")
    (text "(" ++ DescribeNegationTo matcher1_ ++ text ") or (" ++ DescribeNegationTo matcher2_ ++ text ")").

Definition EitherOfMatcherImpl {T} (matcher1_ matcher2_ : Matcher T) : Matcher T :=
  mkMatcher
    (λ x l,
       let '(b1, listener1) := MatchAndExplain matcher1_ x string_listener in
       if b1 : bool then (true, say (str listener1) l)
       else
         let '(b2, listener2) := MatchAndExplain matcher2_ x string_listener in
         if b2 : bool then (true, say (str listener2) l)
         else (false, both_explanations (str listener1) (str listener2) l))
    (text "(" ++ DescribeTo matcher1_ ++ text ") or (" ++ DescribeTo matcher2_ ++ text ")")
    (text "(" ++ DescribeNegationTo matcher1_ ++ text ") and (" ++ DescribeNegationTo matcher2_ ++ text ")").

(** [VariadicMatcher] over [MatcherList], of one matcher and those after it. *)
Fixpoint CreateMatcher {T} (combining : Matcher T → Matcher T → Matcher T) (first : Matcher T)
    (rest : list (Matcher T)) : Matcher T :=
  match rest with
  | [] => first
  | m :: rest => combining first (CreateMatcher combining m rest)
  end.
Definition AllOfMatcher {T} (first : Matcher T) (rest : list (Matcher T)) : Matcher T :=
  CreateMatcher BothOfMatcherImpl first rest.
Definition AnyOfMatcher {T} (first : Matcher T) (rest : list (Matcher T)) : Matcher T :=
  CreateMatcher EitherOfMatcherImpl first rest.

(** [PredicateFormatterFromMatcher], behind [ASSERT_THAT]. *)
Definition PredicateFormatterFromMatcher {T} `{Printer T} (matcher_ : Matcher T)
    (value_text : list Z) (x : T) : AssertionResult :=
  let '(b, listener) := MatchPrintAndExplain x matcher_ string_listener in
  if b : bool then AssertionSuccess
  else failure (text "Value of: " ++ value_text ++ newline ++ text "Expected: " ++
                DescribeTo matcher_ ++ newline ++ text "  Actual: " ++ str listener).

(** * Parts of a value *)

Definition PointeeMatcher {T} `{Printer T} (matcher_ : Matcher T) : Matcher (option T) :=
  mkMatcher
    (λ pointer l,
       match pointer with
       | None => (false, l)
       | Some x => MatchPrintAndExplain x matcher_ (say (text "which points to ") l)
       end)
    (text "points to a value that " ++ DescribeTo matcher_)
    (text "does not point to a value that " ++ DescribeTo matcher_).

(** [dynamic_cast] to a pointer and to a reference: [cast] tells what it gives. *)
Definition cast_description (to_name : list Z) : list Z :=
  text "when dynamic_cast to " ++ to_name ++ text ", ".
Definition WhenDynamicCastToMatcher {From To} `{Printer (option To)} (cast : From → option To)
    (matcher_ : Matcher (option To)) : Matcher From :=
  mkMatcher (λ from l, MatchPrintAndExplain (cast from) matcher_ l)
    (cast_description (GetTypeName (option To)) ++ DescribeTo matcher_)
    (cast_description (GetTypeName (option To)) ++ DescribeNegationTo matcher_).
Definition WhenDynamicCastToReference {From To} `{Printer To} (cast : From → option To)
    (to_name : list Z) (matcher_ : Matcher To) : Matcher From :=
  mkMatcher
    (λ from l,
       match cast from with
       | None => (false, say (text "which cannot be dynamic_cast to " ++ to_name) l)
       | Some to => MatchPrintAndExplain to matcher_ l
       end)
    (cast_description to_name ++ DescribeTo matcher_)
    (cast_description to_name ++ DescribeNegationTo matcher_).

(** The part of an object that a matcher looks at. *)
Definition part_matcher {T P} `{Printer P} (said described : string) (part : T → P)
    (matcher_ : Matcher P) : Matcher T :=
  mkMatcher (λ obj l, MatchPrintAndExplain (part obj) matcher_ (say (text said) l))
    (text described ++ DescribeTo matcher_) (text described ++ DescribeNegationTo matcher_).

Definition through_pointer {T} (m : Matcher T) : Matcher (option T) :=
  mkMatcher
    (λ p l, match p with
            | None => (false, l)
            | Some obj => MatchAndExplain m obj (say (text "which points to an object ") l)
            end)
    (DescribeTo m) (DescribeNegationTo m).

Definition FieldMatcher {T P} `{Printer P} (field_ : T → P) (matcher_ : Matcher P) : Matcher T :=
  part_matcher "whose given field is " "is an object whose given field " field_ matcher_.
Definition PropertyMatcher {T P} `{Printer P} (property_ : T → P) (matcher_ : Matcher P) : Matcher T :=
  part_matcher "whose given property is " "is an object whose given property " property_ matcher_.
Definition ResultOfMatcher {T P} `{Printer P} (callable_ : T → P) (matcher_ : Matcher P) : Matcher T :=
  part_matcher "which is mapped by the given callable to "
    "is mapped by the given callable to a value that " callable_ matcher_.

Definition KeyMatcherImpl {K V} (inner_matcher_ : Matcher K) : Matcher (K * V) :=
  mkMatcher
    (λ key_value l,
       let '(match_, inner_listener) := MatchAndExplain inner_matcher_ key_value.1 string_listener in
       let explanation := str inner_listener in
       (match_, if bool_decide (explanation = []) then l
                else say (text "whose first field is a value " ++ explanation) l))
    (text "has a key that " ++ DescribeTo inner_matcher_)
    (text "doesn't have a key that " ++ DescribeTo inner_matcher_).

Definition ExplainSuccess (first_explanation second_explanation : list Z) (l : Listener) : Listener :=
  let l := say (text "whose both fields match") l in
  let l := if bool_decide (first_explanation = []) then l
           else say (text ", where the first field is a value " ++ first_explanation) l in
  if bool_decide (second_explanation = []) then l
  else
    let l := say (text ", ") l in
    let l := if bool_decide (first_explanation = []) then say (text "where ") l
             else say (text "and ") l in
    say (text "the second field is a value " ++ second_explanation) l.

Definition PairMatcherImpl {A B} (first_matcher_ : Matcher A) (second_matcher_ : Matcher B)
    : Matcher (A * B) :=
  mkMatcher
    (λ a_pair l,
       if IsInterested l then
         let '(b1, first_inner_listener) := MatchAndExplain first_matcher_ a_pair.1 string_listener in
         if negb b1 then
           (false, PrintIfNotEmpty (str first_inner_listener)
                     (say (text "whose first field does not match") l))
         else
           let '(b2, second_inner_listener) :=
             MatchAndExplain second_matcher_ a_pair.2 string_listener in
           if negb b2 then
             (false, PrintIfNotEmpty (str second_inner_listener)
                       (say (text "whose second field does not match") l))
           else (true, ExplainSuccess (str first_inner_listener) (str second_inner_listener) l)
       else (Matches first_matcher_ a_pair.1 && Matches second_matcher_ a_pair.2, l))
    (text "has a first field that " ++ DescribeTo first_matcher_ ++
     text ", and has a second field that " ++ DescribeTo second_matcher_)
    (text "has a first field that " ++ DescribeNegationTo first_matcher_ ++
     text ", or has a second field that " ++ DescribeNegationTo second_matcher_).

(** * Containers *)

Definition show_size (n : nat) : list Z := show64 (Z.of_nat n).

(** A matcher of a number that is taken of a container. *)
Definition number_matcher {T} (said : string) (described : string) (number : T → nat)
    (matcher_ : Matcher Z) : Matcher T :=
  mkMatcher
    (λ container l,
       let '(result, listener) := MatchAndExplain matcher_ (Z.of_nat (number container)) string_listener in
       (result, PrintIfNotEmpty (str listener)
          (say (text said ++ show_size (number container) ++
                if result : bool then text " matches" else text " doesn't match") l)))
    (text described ++ DescribeTo matcher_) (text described ++ DescribeNegationTo matcher_).

Definition SizeIsMatcher {A} (size_matcher_ : Matcher Z) : Matcher (list A) :=
  number_matcher "whose size " "size " length size_matcher_.
Definition BeginEndDistanceIsMatcher {A} (distance_matcher_ : Matcher Z) : Matcher (list A) :=
  number_matcher "whose distance between begin() and end() " "distance between begin() and end() "
    length distance_matcher_.

Section Containers.
Context {A : Type} `{EqDecision A} `{Printer A} `{Printer (list A)}.

(** A loop that prints the elements of one container that are not in the other: whether
    the header is printed, and the stream. *)
Fixpoint missing_loop (header : list Z) (elements others : list A) (printed_header : bool)
    (os : Listener) : bool * Listener :=
  match elements with
  | [] => (printed_header, os)
  | x :: elements =>
      if bool_decide (x ∈ others) then missing_loop header elements others printed_header os
      else missing_loop header elements others true
             (say (UniversalPrint x) (say (if printed_header then text ", " else header) os))
  end.

Definition ContainerEqMatcher (expected_ : list A) : Matcher (list A) :=
  mkMatcher
    (λ lhs l,
       if bool_decide (lhs = expected_) then (true, l)
       else if IsInterested l then
         let '(printed_header, l) :=
           missing_loop (text "which has these unexpected elements: ") lhs expected_ false l in
         let '(_, l) :=
           missing_loop ((if printed_header then text "," ++ newline ++ text "and" else text "which") ++
                         text " doesn't have these expected elements: ") expected_ lhs false l in
         (false, l)
       else (false, l))
    (text "equals " ++ UniversalPrint expected_) (text "does not equal " ++ UniversalPrint expected_).

(** [sort] is [std::sort] with the comparator. *)
Definition WhenSortedByMatcher (sort : list A → list A) (matcher_ : Matcher (list A)) : Matcher (list A) :=
  mkMatcher
    (λ lhs l,
       let sorted_container := sort lhs in
       if IsInterested l then
         let l := say (text "which is ") l in
         let l := say (UniversalPrint sorted_container) l in
         let l := say (text " when sorted") l in
         let '(match_, inner_listener) := MatchAndExplain matcher_ sorted_container string_listener in
         (match_, PrintIfNotEmpty (str inner_listener) l)
       else (Matches matcher_ sorted_container, l))
    (text "(when sorted) " ++ DescribeTo matcher_) (text "(when sorted) " ++ DescribeNegationTo matcher_).

(** [QuantifierMatcherImpl]: the loop, from the [i]-th element on. *)
Fixpoint quantifier_loop (inner_matcher_ : Matcher A) (all_elements_should_match : bool)
    (container : list A) (i : nat) (l : Listener) : bool * Listener :=
  match container with
  | [] => (all_elements_should_match, l)
  | x :: container =>
      let '(matches, inner_listener) := MatchAndExplain inner_matcher_ x string_listener in
      if Bool.eqb matches all_elements_should_match
      then quantifier_loop inner_matcher_ all_elements_should_match container (S i) l
      else (negb all_elements_should_match,
            PrintIfNotEmpty (str inner_listener)
              (say (text "whose element #" ++ show_size i ++
                    if matches : bool then text " matches" else text " doesn't match") l))
  end.

Definition ContainsMatcherImpl (inner_matcher_ : Matcher A) : Matcher (list A) :=
  mkMatcher (λ container l, quantifier_loop inner_matcher_ false container 0 l)
    (text "contains at least one element that " ++ DescribeTo inner_matcher_)
    (text "doesn't contain any element that " ++ DescribeTo inner_matcher_).
Definition EachMatcherImpl (inner_matcher_ : Matcher A) : Matcher (list A) :=
  mkMatcher (λ container l, quantifier_loop inner_matcher_ true container 0 l)
    (text "only contains elements that " ++ DescribeTo inner_matcher_)
    (text "contains some element that " ++ DescribeNegationTo inner_matcher_).

(** ** [ElementsAre] *)

Definition Elements (count : nat) : list Z :=
  show_size count ++ if (count =? 1)%nat then text " element" else text " elements".

(** The descriptions of the elements from the [i]-th on. *)
Fixpoint describe_elements (describe : Matcher A → list Z) (separator : list Z) (i : nat)
    (ms : list (Matcher A)) : list Z :=
  match ms with
  | [] => []
  | m :: ms =>
      text "element #" ++ show_size i ++ text " " ++ describe m ++
      match ms with [] => [] | _ => separator end ++ describe_elements describe separator (S i) ms
  end.

Definition ElementsAre_DescribeTo (matchers_ : list (Matcher A)) : list Z :=
  match matchers_ with
  | [] => text "is empty"
  | [m] => text "has 1 element that " ++ DescribeTo m
  | _ => text "has " ++ Elements (length matchers_) ++ text " where" ++ newline ++
         describe_elements DescribeTo (text "," ++ newline) 0 matchers_
  end.
Definition ElementsAre_DescribeNegationTo (matchers_ : list (Matcher A)) : list Z :=
  match matchers_ with
  | [] => text "isn't empty"
  | _ => text "doesn't have " ++ Elements (length matchers_) ++ text ", or" ++ newline ++
         describe_elements DescribeNegationTo (text ", or" ++ newline) 0 matchers_
  end.

(** The loop over elements and matchers: the explanations, [exam_pos] at its end, the
    elements that are left from there on, and whether a mismatch was found. *)
Fixpoint examine (listener_interested : bool) (container : list A) (ms : list (Matcher A))
    (exam_pos : nat) (explanations : list (list Z)) : list (list Z) * nat * list A * bool :=
  match container, ms with
  | x :: rest, m :: ms =>
      let '(match_, s) :=
        if listener_interested then
          let '(b, s) := MatchAndExplain m x string_listener in (b, str s)
        else (Matches m x, []) in
      let explanations := if listener_interested then <[exam_pos := s]> explanations else explanations in
      if match_ : bool then examine listener_interested rest ms (S exam_pos) explanations
      else (explanations, exam_pos, container, true)
  | _, _ => (explanations, exam_pos, container, false)
  end.

(** The last loop: the explanations that are not empty. *)
Fixpoint reasons_loop (i : nat) (explanations : list (list Z)) (reason_printed : bool) (l : Listener)
    : Listener :=
  match explanations with
  | [] => l
  | s :: explanations =>
      if bool_decide (s = []) then reasons_loop (S i) explanations reason_printed l
      else
        let l := if reason_printed then say (text "," ++ newline ++ text "and ") l else l in
        reasons_loop (S i) explanations true
          (say (text "whose element #" ++ show_size i ++ text " matches, " ++ s) l)
  end.

Definition ElementsAreMatcherImpl (matchers_ : list (Matcher A)) : Matcher (list A) :=
  mkMatcher
    (λ container l,
       let listener_interested := IsInterested l in
       let '(explanations, exam_pos, rest, mismatch_found) :=
         examine listener_interested container matchers_ 0 (replicate (length matchers_) []) in
       let actual_count := (exam_pos + length rest)%nat in
       if negb (actual_count =? length matchers_)%nat then
         (false, if listener_interested && negb (actual_count =? 0)%nat
                 then say (text "which has " ++ Elements actual_count) l else l)
       else if mismatch_found then
         (false, if listener_interested then
                   PrintIfNotEmpty (default [] (explanations !! exam_pos))
                     (say (text "whose element #" ++ show_size exam_pos ++ text " doesn't match") l)
                 else l)
       else (true, if listener_interested then reasons_loop 0 explanations false l else l))
    (ElementsAre_DescribeTo matchers_) (ElementsAre_DescribeNegationTo matchers_).
End Containers.

(** ** [Pointwise] *)

Section Pointwise.
Context {A B : Type} `{Printer A} `{Printer B} `{Printer (list B)}.

Fixpoint pointwise_loop (m : Matcher (A * B)) (lhs : list A) (rhs : list B) (i : nat) (l : Listener)
    : bool * Listener :=
  match lhs, rhs with
  | x :: lhs, y :: rhs =>
      if IsInterested l then
        let '(b, inner_listener) := MatchAndExplain m (x, y) string_listener in
        if b : bool then pointwise_loop m lhs rhs (S i) l
        else
          let l := say (text "where the value pair (") l in
          let l := say (UniversalPrint x) l in
          let l := say (text ", ") l in
          let l := say (UniversalPrint y) l in
          let l := say (text ") at index #" ++ show_size i ++ text " don't match") l in
          (false, PrintIfNotEmpty (str inner_listener) l)
      else if Matches m (x, y) then pointwise_loop m lhs rhs (S i) l else (false, l)
  | _, _ => (true, l)
  end.

Definition PointwiseMatcher (mono_tuple_matcher_ : Matcher (A * B)) (rhs_ : list B) : Matcher (list A) :=
  mkMatcher
    (λ lhs l,
       if negb (length lhs =? length rhs_)%nat
       then (false, say (text "which contains " ++ show_size (length lhs) ++ text " values") l)
       else pointwise_loop mono_tuple_matcher_ lhs rhs_ 0 l)
    (text "contains " ++ show_size (length rhs_) ++
     text " values, where each value and its corresponding value in " ++ UniversalPrint rhs_ ++
     text " " ++ DescribeTo mono_tuple_matcher_)
    (text "doesn't contain exactly " ++ show_size (length rhs_) ++
     text " values, or contains a value x at some index i" ++
     text " where x and the i-th value of " ++ UniversalPrint rhs_ ++
     text " " ++ DescribeNegationTo mono_tuple_matcher_).
End Pointwise.

(** ** [UnorderedElementsAre] *)

Section Unordered.
Context {A : Type} `{Printer A}.

Definition permuted_elements (matchers_ : list (Matcher A)) : list Z :=
  newline ++ text " - " ++ describe_elements DescribeTo (text ", and" ++ newline ++ text " - ") 0 matchers_.

Definition Unordered_DescribeToImpl (matchers_ : list (Matcher A)) : list Z :=
  match matchers_ with
  | [] => text "is empty"
  | [m] => text "has " ++ Elements 1 ++ text " and that element " ++ DescribeTo m
  | _ => text "has " ++ Elements (length matchers_) ++
         text " and there exists some permutation of elements such that:" ++ permuted_elements matchers_
  end.
Definition Unordered_DescribeNegationToImpl (matchers_ : list (Matcher A)) : list Z :=
  match matchers_ with
  | [] => text "isn't empty"
  | [m] => text "doesn't have " ++ Elements 1 ++ text ", or has " ++ Elements 1 ++ text " that " ++
           DescribeNegationTo m
  | _ => text "doesn't have " ++ Elements (length matchers_) ++
         text ", or there exists no permutation of elements such that:" ++ permuted_elements matchers_
  end.

(** The pairing is that of [Matching], which always has a result; its texts are strings. *)
Definition UnorderedElementsAreMatcherImpl (matchers_ : list (Matcher A)) : Matcher (list A) :=
  mkMatcher
    (λ container l,
       let '(result, said) :=
         default (false, ""%string)
           (Matching.MatchAndExplain (λ x, of_text (UniversalPrint x)) container (Matches <$> matchers_)
              (λ i, of_text (default [] (DescribeTo <$> matchers_ !! i))) (IsInterested l)) in
       (result, say (text said) l))
    (Unordered_DescribeToImpl matchers_) (Unordered_DescribeNegationToImpl matchers_).

Context {B : Type} `{Printer B}.

Definition BoundSecondMatcher (mono_tuple2_matcher_ : Matcher (A * B)) (second_value_ : B) : Matcher A :=
  let describe := text "and " ++ UniversalPrint second_value_ ++ text " " ++
                  DescribeTo mono_tuple2_matcher_ in
  mkMatcher (λ x l, MatchAndExplain mono_tuple2_matcher_ (x, second_value_) l)
    describe (default_negation describe).

Definition UnorderedPointwise (tuple2_matcher : Matcher (A * B)) (rhs_container : list B)
    : Matcher (list A) :=
  UnorderedElementsAreMatcherImpl (BoundSecondMatcher tuple2_matcher <$> rhs_container).
End Unordered.

(** * Descriptions of the matchers of [MATCHER] macros *)

Definition IsLower (c : Z) : bool := (97 <=? c) && (c <=? 122).
Definition IsUpper (c : Z) : bool := (65 <=? c) && (c <=? 90).
Definition IsAlpha (c : Z) : bool := IsLower c || IsUpper c.
Definition IsDigit (c : Z) : bool := (48 <=? c) && (c <=? 57).
Definition IsAlNum (c : Z) : bool := IsAlpha c || IsDigit c.

Definition starts_new_word (prev_char c : Z) : bool :=
  IsUpper c || negb (IsAlpha prev_char) && IsLower c || negb (IsDigit prev_char) && IsDigit c.

(** The loop over the characters of the name. *)
Fixpoint words_loop (prev_char : Z) (p : list Z) (result : list Z) : list Z :=
  match p with
  | [] => result
  | c :: p =>
      words_loop c p
        (if IsAlNum c then
           (if starts_new_word prev_char c && negb (bool_decide (result = [])) then result ++ text " "
            else result) ++ [tolower c]
         else result)
  end.
Definition ConvertIdentifierNameToWords (id_name : list Z) : list Z := words_loop 0 (from_c_str id_name) [].

Fixpoint tuple_loop (result : list Z) (fields : list (list Z)) : list Z :=
  match fields with
  | [] => result
  | f :: fields => tuple_loop (result ++ text ", " ++ f) fields
  end.
Definition JoinAsTuple (fields : list (list Z)) : list Z :=
  match fields with
  | [] => []
  | [f] => f
  | f :: fields => tuple_loop (text "(" ++ f) fields ++ text ")"
  end.

Definition FormatMatcherDescription (negation : bool) (matcher_name : list Z)
    (param_values : list (list Z)) : list Z :=
  let result := ConvertIdentifierNameToWords matcher_name in
  let result := if (1 <=? length param_values)%nat then result ++ text " " ++ JoinAsTuple param_values
                else result in
  if negation then text "not (" ++ result ++ text ")" else result.

(** * Tuples of arguments *)

(** A field of the tuples: the matcher and the value of an argument of some type. *)
Record Field := mkField {
  field_type : Type;
  field_printer : Printer field_type;
  field_matcher : Matcher field_type;
  field_value : field_type
}.
Arguments mkField {field_type field_printer} _ _.

(** [TuplePrefix<N>::Matches]. *)
Fixpoint prefix_matches (n : nat) (fields : list Field) : bool :=
  match n with
  | O => true
  | S n => prefix_matches n fields &&
           match fields !! n with Some f => Matches f.(field_matcher) f.(field_value) | None => true end
  end.
Definition TupleMatches (fields : list Field) : bool := prefix_matches (length fields) fields.

Definition explain_field (n : nat) (f : Field) (os : list Z) : list Z :=
  let '(b, listener) := MatchAndExplain f.(field_matcher) f.(field_value) string_listener in
  if b : bool then os
  else os ++ text "  Expected arg #" ++ show_size n ++ text ": " ++ DescribeTo f.(field_matcher) ++
       newline ++ text "           Actual: " ++ @UniversalPrint _ f.(field_printer) f.(field_value) ++
       str (PrintIfNotEmpty (str listener) string_listener) ++ newline.

(** [TuplePrefix<N>::ExplainMatchFailuresTo]. *)
Fixpoint prefix_explain (n : nat) (fields : list Field) (os : list Z) : list Z :=
  match n with
  | O => os
  | S n =>
      let os := prefix_explain n fields os in
      match fields !! n with Some f => explain_field n f os | None => os end
  end.
Definition ExplainMatchFailureTupleTo (fields : list Field) (os : list Z) : list Z :=
  prefix_explain (length fields) fields os.
