(* ===== verification/MatchersFacts.v ===== *)
(** Facts about the matchers of Google Mock: explanations do not change results, the laws
    of [Not], [AllOf] and [AnyOf], and what the matchers of strings, containers and tuples
    decide and explain. *)

From S2P Require Import Prelude Strings Matching MatchingFacts Utf8 Printers Assertions AssertionsFacts Matchers.
From stdpp Require Import base sorting sets list strings.
From Stdlib Require Import ZArith Lia Ascii.

Open Scope Z_scope.

(** * Equal matchers *)

#[export] Instance matcher_equiv {T} : Equiv (Matcher T) := λ m1 m2,
  (∀ x l, MatchAndExplain m1 x l = MatchAndExplain m2 x l) ∧
  DescribeTo m1 = DescribeTo m2 ∧ DescribeNegationTo m1 = DescribeNegationTo m2.

#[export] Instance matcher_equivalence {T} : Equivalence (≡@{Matcher T}).
Proof.
  split.
  - by intros m.
  - intros m1 m2 (H & ? & ?). by split.
  - intros m1 m2 m3 (H & ? & ?) (H' & ? & ?). split_and!; [|by etrans..].
    intros x l. by rewrite H.
Qed.

#[export] Instance Matches_proper {T} : Proper ((≡@{Matcher T}) ==> (=) ==> (=)) Matches.
Proof. intros m1 m2 [H _] x _ <-. unfold Matches. by rewrite H. Qed.

#[export] Instance Not_proper {T} : Proper ((≡@{Matcher T}) ==> (≡)) NotMatcherImpl.
Proof. intros m1 m2 (H & H1 & H2). split_and!; [|done..]. intros x l. simpl. by rewrite H. Qed.

#[export] Instance BothOf_proper {T} : Proper ((≡@{Matcher T}) ==> (≡) ==> (≡)) BothOfMatcherImpl.
Proof.
  intros m1 m2 (H & H1 & H2) m1' m2' (H' & H1' & H2'). split_and!; simpl; [|congruence..].
  intros x l. by rewrite H, H'.
Qed.

#[export] Instance EitherOf_proper {T} : Proper ((≡@{Matcher T}) ==> (≡) ==> (≡)) EitherOfMatcherImpl.
Proof.
  intros m1 m2 (H & H1 & H2) m1' m2' (H' & H1' & H2'). split_and!; simpl; [|congruence..].
  intros x l. by rewrite H, H'.
Qed.

Lemma Not_involutive {T} (m : Matcher T) : NotMatcherImpl (NotMatcherImpl m) ≡ m.
Proof.
  split_and!; [|done..]. intros x l. simpl. destruct (MatchAndExplain m x l). by rewrite negb_involutive.
Qed.

Lemma EitherOf_de_morgan {T} (m1 m2 : Matcher T) :
  EitherOfMatcherImpl m1 m2 ≡
  NotMatcherImpl (BothOfMatcherImpl (NotMatcherImpl m1) (NotMatcherImpl m2)).
Proof.
  split_and!; [|done..]. intros x l. simpl.
  destruct (MatchAndExplain m1 x string_listener) as [[] l1]; [done|]. simpl.
  by destruct (MatchAndExplain m2 x string_listener) as [[] l2].
Qed.

(** [AnyOf] is [Not] of [AllOf] of the negated matchers, whatever the matchers are: it
    matches the same values with the same explanations, and both are described the same. *)
Theorem AnyOf_de_morgan {T} (m : Matcher T) ms :
  AnyOfMatcher m ms ≡ NotMatcherImpl (AllOfMatcher (NotMatcherImpl m) (NotMatcherImpl <$> ms)).
Proof.
  unfold AnyOfMatcher, AllOfMatcher. revert m. induction ms as [|m' ms IH]; intros m.
  - simpl. by rewrite Not_involutive.
  - cbn [CreateMatcher fmap list_fmap]. rewrite IH, EitherOf_de_morgan.
    by rewrite Not_involutive.
Qed.

(** * Explanations *)

(** What a matcher explains of a value. *)
Definition explanation {T} (m : Matcher T) (x : T) : list Z :=
  str (MatchAndExplain m x string_listener).2.

(** The contract of [MatchAndExplain]: the result does not depend on the listener, and
    the listener is only added to. *)
Class Lawful {T} (m : Matcher T) : Prop :=
  lawful x : ∃ b e, ∀ l, MatchAndExplain m x l = (b, say e l).

Lemma say_nil l : say [] l = l.
Proof. destruct l; simpl; [|done]. unfold say. simpl. by rewrite app_nil_r. Qed.

Lemma say_say x y l : say y (say x l) = say (x ++ y) l.
Proof. destruct l; simpl; [|done]. unfold say. simpl. by rewrite app_assoc. Qed.

Lemma IsInterested_say x l : IsInterested (say x l) = IsInterested l.
Proof. by destruct l. Qed.

Lemma str_say e : str (say e string_listener) = e.
Proof. done. Qed.

Lemma lawful_result {T} (m : Matcher T) `{!Lawful m} x l :
  MatchAndExplain m x l = (Matches m x, say (explanation m x) l).
Proof. destruct (lawful x) as (b & e & H). unfold Matches, explanation. by rewrite !H. Qed.

(** After a comma, where there is something to say. *)
Definition after_comma (e : list Z) : list Z := if bool_decide (e = []) then [] else text ", " ++ e.

Lemma PrintIfNotEmpty_say e l : PrintIfNotEmpty e l = say (after_comma e) l.
Proof. unfold PrintIfNotEmpty, after_comma. case_bool_decide; [by rewrite say_nil|done]. Qed.

(** Collects what is said. *)
Ltac says := rewrite ?PrintIfNotEmpty_say, ?str_say, ?say_say.

#[export] Instance silent_lawful {T} (f : T → bool) d n : Lawful (silent f d n).
Proof. intros x. exists (f x), []. intros l. by rewrite say_nil. Qed.

#[export] Instance cast_lawful {T U} (cast : T → U) m : Lawful m → Lawful (MatcherCast cast m).
Proof. intros Hm x. apply Hm. Qed.

#[export] Instance Ref_lawful {T} sa pr (o : Z * T) : Lawful (RefMatcher sa pr o).
Proof. intros x. by eexists _, _. Qed.

#[export] Instance on_c_string_lawful null m : Lawful m → Lawful (on_c_string null m).
Proof. intros Hm [s|]; [apply Hm|]. exists null, []. intros l. by rewrite say_nil. Qed.

#[export] Instance Not_lawful {T} (m : Matcher T) : Lawful m → Lawful (NotMatcherImpl m).
Proof. intros Hm x. eexists _, _. intros l. simpl. rewrite (lawful_result m). reflexivity. Qed.

(** Both explanations, or the one there is. *)
Definition both (e1 e2 : list Z) : list Z :=
  if bool_decide (e1 = []) then e2
  else if bool_decide (e2 = []) then e1 else e1 ++ text ", and " ++ e2.

Lemma both_explanations_say e1 e2 l : both_explanations e1 e2 l = say (both e1 e2) l.
Proof.
  unfold both_explanations, both. case_bool_decide; [done|]. case_bool_decide; [done|].
  by rewrite say_say.
Qed.

Lemma BothOf_result {T} (m1 m2 : Matcher T) `{!Lawful m1, !Lawful m2} x l :
  MatchAndExplain (BothOfMatcherImpl m1 m2) x l =
  if Matches m1 x then
    if Matches m2 x then (true, say (both (explanation m1 x) (explanation m2 x)) l)
    else (false, say (explanation m2 x) l)
  else (false, say (explanation m1 x) l).
Proof.
  simpl. rewrite (lawful_result m1). destruct (Matches m1 x); simpl; [|done].
  rewrite (lawful_result m2). destruct (Matches m2 x); simpl; [|done]. by rewrite both_explanations_say.
Qed.

#[export] Instance BothOf_lawful {T} (m1 m2 : Matcher T) :
  Lawful m1 → Lawful m2 → Lawful (BothOfMatcherImpl m1 m2).
Proof.
  intros H1 H2 x. setoid_rewrite BothOf_result; [|done..].
  destruct (Matches m1 x), (Matches m2 x); by eexists _, _.
Qed.

#[export] Instance lawful_proper {T} : Proper ((≡@{Matcher T}) ==> iff) Lawful.
Proof.
  intros m1 m2 [H _]. split; intros Hm x; destruct (Hm x) as (b & e & He); exists b, e; intros l.
  - by rewrite <-H.
  - by rewrite H.
Qed.

#[export] Instance EitherOf_lawful {T} (m1 m2 : Matcher T) :
  Lawful m1 → Lawful m2 → Lawful (EitherOfMatcherImpl m1 m2).
Proof. intros H1 H2. rewrite EitherOf_de_morgan. apply _. Qed.

(** ** [AllOf] and [AnyOf] *)

(** Texts with a separator between them. *)
Definition separated (sep : list Z) (l : list (list Z)) : list Z :=
  match l with [] => [] | x :: l => x ++ concat ((λ y, sep ++ y) <$> l) end.

Definition told (es : list (list Z)) : list (list Z) := filter (λ e, e ≠ []) es.

Lemma both_separated e es :
  both e (separated (text ", and ") (told es)) = separated (text ", and ") (told (e :: es)).
Proof.
  unfold both, told. rewrite filter_cons. case_bool_decide as He.
  - rewrite decide_False by naive_solver. done.
  - rewrite decide_True by done. cbn [separated]. case_bool_decide as Hs.
    + destruct (filter _ es) as [|y ys] eqn:E; [by rewrite app_nil_r|].
      assert (y ∈ filter (λ e, e ≠ []) es) as Hy by (rewrite E; by left).
      apply list_elem_of_filter in Hy as [Hy _]. cbn in Hs. by destruct y.
    + destruct (filter _ es) as [|y ys]; [done|]. cbn. by rewrite <-?app_assoc.
Qed.

(** [AllOf] asks its matchers in turn.  It matches when all do, and then gives all
    explanations there are, joined by "and"; else it gives that of the first matcher that
    does not match, and the later ones are not asked.  [AnyOf] dually. *)
Theorem AllOf_asks_in_turn {T} (m : Matcher T) ms x l :
  Forall Lawful (m :: ms) →
  MatchAndExplain (AllOfMatcher m ms) x l =
  match find (λ m, negb (Matches m x)) (m :: ms) with
  | Some m' => (false, say (explanation m' x) l)
  | None => (true, say (separated (text ", and ") (told ((λ m, explanation m x) <$> m :: ms))) l)
  end.
Proof.
  unfold AllOfMatcher. revert m l. induction ms as [|m' ms IH]; intros m l [Hm Hms]%Forall_cons.
  - cbn [CreateMatcher find]. rewrite (lawful_result m). destruct (Matches m x); [|done]. cbn [negb fmap list_fmap].
    rewrite <-both_separated. unfold both. cbn. case_bool_decide as He; [by rewrite He|done].
  - cbn [CreateMatcher]. specialize (IH m').
    assert (Lawful (CreateMatcher BothOfMatcherImpl m' ms)) as Hl.
    { clear IH Hm. revert m' Hms. induction ms as [|n ms IHms]; intros m' [H1 H2]%Forall_cons; [done|].
      cbn [CreateMatcher]. apply BothOf_lawful; [done|]. by apply IHms. }
    rewrite (BothOf_result m (CreateMatcher BothOfMatcherImpl m' ms)). set (f := λ m, negb (Matches m x)) in *.
    change (find f (m :: m' :: ms)) with (if negb (Matches m x) then Some m else find f (m' :: ms)).
    destruct (Matches m x); cbn [negb]; [|done].
    pose proof (IH string_listener Hms) as E. rewrite (lawful_result (CreateMatcher BothOfMatcherImpl m' ms)) in E.
    destruct (find f (m' :: ms)) as [m''|]; injection E as -> ->; [done|].
    by rewrite both_separated.
Qed.

Lemma find_forallb {A} (f : A → bool) l : find (λ x, negb (f x)) l = None ↔ forallb f l = true.
Proof.
  induction l as [|x l IH]; [done|]. cbn. destruct (f x); cbn; [done|]. done.
Qed.

(** ** Numbers, parts of values *)

#[export] Instance MatchPrint_lawful {T} `{Printer T} (m : Matcher T) d n :
  Lawful m → Lawful (mkMatcher (λ x l, MatchPrintAndExplain x m l) d n).
Proof.
  intros Hm x. exists (Matches m x). unfold MatchPrintAndExplain. simpl.
  destruct (IsReadableTypeName _); eexists; intros [l|]; cbn [IsInterested]; try reflexivity;
    rewrite (lawful_result m); says; reflexivity.
Qed.

Lemma MatchPrint_result {T} `{Printer T} (m : Matcher T) `{!Lawful m} x :
  ∃ e, ∀ l, MatchPrintAndExplain x m l = (Matches m x, say e l).
Proof.
  destruct (MatchPrint_lawful m [] [] _ x) as (b & e & He). exists e. intros l.
  cbn in He. rewrite He. pose proof (He None) as E. cbn in E. by injection E as <-.
Qed.

#[export] Instance part_lawful {T P} `{Printer P} said described (part : T → P) m :
  Lawful m → Lawful (part_matcher said described part m).
Proof.
  intros Hm x. destruct (MatchPrint_result m (part x)) as [e He]. simpl.
  exists (Matches m (part x)), (text said ++ e). intros l. by rewrite He, say_say.
Qed.

#[export] Instance Pointee_lawful {T} `{Printer T} (m : Matcher T) : Lawful m → Lawful (PointeeMatcher m).
Proof.
  intros Hm [x|]; simpl.
  - destruct (MatchPrint_result m x) as [e He]. exists (Matches m x), (text "which points to " ++ e).
    intros l. by rewrite He, say_say.
  - exists false, []. intros l. by rewrite say_nil.
Qed.

#[export] Instance through_pointer_lawful {T} (m : Matcher T) : Lawful m → Lawful (through_pointer m).
Proof.
  intros Hm [x|]; simpl.
  - exists (Matches m x), (text "which points to an object " ++ explanation m x).
    intros l. by rewrite (lawful_result m), say_say.
  - exists false, []. intros l. by rewrite say_nil.
Qed.

#[export] Instance WhenDynamicCastTo_lawful {From To} `{Printer (option To)} (cast : From → option To) m :
  Lawful m → Lawful (WhenDynamicCastToMatcher cast m).
Proof.
  intros Hm x. simpl. destruct (MatchPrint_result m (cast x)) as [e He]. by exists (Matches m (cast x)), e.
Qed.

#[export] Instance WhenDynamicCastToReference_lawful {From To} `{Printer To} (cast : From → option To) name m :
  Lawful m → Lawful (WhenDynamicCastToReference cast name m).
Proof.
  intros Hm x. simpl. destruct (cast x) as [to|]; [|by eexists _, _].
  destruct (MatchPrint_result m to) as [e He]. by exists (Matches m to), e.
Qed.

#[export] Instance Key_lawful {K V} (m : Matcher K) : Lawful m → Lawful (KeyMatcherImpl (V := V) m).
Proof.
  intros Hm [k v]. simpl. rewrite (lawful_result m). rewrite str_say.
  exists (Matches m k), (if bool_decide (explanation m k = []) then []
                         else text "whose first field is a value " ++ explanation m k).
  intros l. case_bool_decide; [by rewrite say_nil|done].
Qed.

#[export] Instance number_lawful {T} said described (number : T → nat) m :
  Lawful m → Lawful (number_matcher said described number m).
Proof.
  intros Hm x. simpl. rewrite (lawful_result m). says. eexists _, _. intros l. by says.
Qed.

Lemma ExplainSuccess_say e1 e2 : ∃ e, ∀ l, ExplainSuccess e1 e2 l = say e l.
Proof.
  unfold ExplainSuccess. repeat case_bool_decide; eexists; intros l; rewrite ?say_say; reflexivity.
Qed.

#[export] Instance Pair_lawful {A B} (m1 : Matcher A) (m2 : Matcher B) :
  Lawful m1 → Lawful m2 → Lawful (PairMatcherImpl m1 m2).
Proof.
  intros H1 H2 [a b]. simpl. rewrite (lawful_result m1), (lawful_result m2). cbv beta iota.
  destruct (ExplainSuccess_say (explanation m1 a) (explanation m2 b)) as [e He].
  exists (Matches m1 a && Matches m2 b). destruct (Matches m1 a), (Matches m2 b); cbn [negb andb].
  - exists e. intros [l|]; [by rewrite !str_say, He|done].
  - eexists. intros [l|]; [says; reflexivity|done].
  - eexists. intros [l|]; [says; reflexivity|done].
  - eexists. intros [l|]; [says; reflexivity|done].
Qed.

(** [ASSERT_THAT] succeeds exactly when the matcher matches, and else says what was
    expected and what the value is. *)
Theorem ASSERT_THAT_decides {T} `{Printer T} (m : Matcher T) value_text x :
  Lawful m →
  match PredicateFormatterFromMatcher m value_text x with
  | AssertionSuccess => Matches m x = true
  | AssertionFailure message => Matches m x = false ∧ ∃ why,
      message = StringStreamToString
        (text "Value of: " ++ value_text ++ newline ++ text "Expected: " ++ DescribeTo m ++
         newline ++ text "  Actual: " ++ UniversalPrint x ++ why)
  end.
Proof.
  intros Hm. unfold PredicateFormatterFromMatcher, MatchPrintAndExplain. cbn [IsInterested string_listener].
  rewrite (lawful_result m). destruct (Matches m x); [done|]. cbn. split; [done|].
  destruct (IsReadableTypeName _); says; eexists; rewrite ?str_say, <-?app_assoc; cbn;
    rewrite <-?app_assoc; reflexivity.
Qed.

(** ** Containers *)

Section Quantifiers.
Context {A : Type} (m : Matcher A) `{!Lawful m}.

(** The first element whose result is not the one wanted, with its index. *)
Fixpoint exception (wanted : bool) (i : nat) (c : list A) : option (nat * A) :=
  match c with
  | [] => None
  | x :: c => if Bool.eqb (Matches m x) wanted then exception wanted (S i) c else Some (i, x)
  end.

Lemma quantifier_loop_result wanted c i l :
  quantifier_loop m wanted c i l =
  match exception wanted i c with
  | None => (wanted, l)
  | Some (j, x) =>
      (negb wanted, say (text "whose element #" ++ show_size j ++
         (if Matches m x then text " matches" else text " doesn't match") ++
         after_comma (explanation m x)) l)
  end.
Proof.
  revert i. induction c as [|x c IH]; intros i; [done|]. cbn [quantifier_loop exception].
  rewrite (lawful_result m). destruct (Bool.eqb _ _); [apply IH|]. says. by rewrite <-!app_assoc.
Qed.

Lemma exception_None wanted i c :
  exception wanted i c = None ↔ Forall (λ x, Matches m x = wanted) c.
Proof.
  revert i. induction c as [|x c IH]; intros i; cbn [exception]; [by split; [constructor|]|].
  rewrite Forall_cons. destruct (Bool.eqb _ _) eqn:E.
  - apply Bool.eqb_prop in E. rewrite IH. naive_solver.
  - apply Bool.eqb_false_iff in E. naive_solver.
Qed.

Lemma exception_Some wanted i c j x :
  exception wanted i c = Some (j, x) → x ∈ c ∧ Matches m x = negb wanted.
Proof.
  revert i. induction c as [|y c IH]; intros i; cbn [exception]; [done|].
  destruct (Bool.eqb _ _) eqn:E.
  - intros H%IH. set_solver.
  - intros [= -> ->]. apply Bool.eqb_false_iff in E. split; [by left|].
    by destruct (Matches m x), wanted.
Qed.

#[export] Instance Each_lawful : Lawful (EachMatcherImpl m).
Proof.
  intros c. cbn. setoid_rewrite quantifier_loop_result. destruct (exception _ _ _) as [[]|].
  - by eexists _, _.
  - exists true, []. intros l. by rewrite say_nil.
Qed.

#[export] Instance Contains_lawful : Lawful (ContainsMatcherImpl m).
Proof.
  intros c. cbn. setoid_rewrite quantifier_loop_result. destruct (exception _ _ _) as [[]|].
  - by eexists _, _.
  - exists false, []. intros l. by rewrite say_nil.
Qed.

(** [Each] matches when every element does, [Contains] when one does; [Each] of a matcher
    refuses exactly what [Contains] of its negation matches. *)
Theorem quantifiers_decide c :
  (Matches (EachMatcherImpl m) c = true ↔ Forall (λ x, Matches m x = true) c) ∧
  (Matches (ContainsMatcherImpl m) c = true ↔ Exists (λ x, Matches m x = true) c).
Proof.
  unfold Matches at 1 3. cbn. rewrite !quantifier_loop_result. split.
  - pose proof (exception_None true 0 c) as H. destruct (exception true 0 c) as [[]|]; cbn; naive_solver.
  - pose proof (exception_None false 0 c) as H. pose proof (exception_Some false 0 c) as H'.
    rewrite Exists_exists. destruct (exception false 0 c) as [[j x]|]; cbn.
    + destruct (H' j x eq_refl) as [Hx Hm]. split; [|done]. intros _. by exists x.
    + split; [done|]. intros (x & Hx & Hm). destruct H as [H _].
      specialize (H eq_refl). rewrite Forall_forall in H. rewrite (H x Hx) in Hm. done.
Qed.

End Quantifiers.

Section ElementsAre.
Context {A : Type}.

(** The first element that its matcher does not match. *)
Fixpoint mismatch (i : nat) (ms : list (Matcher A)) (c : list A) : option (nat * list Z) :=
  match ms, c with
  | m :: ms, x :: c => if Matches m x then mismatch (S i) ms c else Some (i, explanation m x)
  | _, _ => None
  end.

Lemma mismatch_None i ms c :
  length c = length ms → mismatch i ms c = None ↔ Forall2 (λ m x, Matches m x = true) ms c.
Proof.
  revert i c. induction ms as [|m ms IH]; intros i [|x c] Hl; try done.
  cbn [mismatch]. rewrite Forall2_cons. injection Hl as Hl. destruct (Matches m x); [|naive_solver].
  rewrite (IH (S i) c Hl). naive_solver.
Qed.

(** What is said of the elements, when all match. *)
Fixpoint reasons (i : nat) (es : list (list Z)) : list (list Z) :=
  match es with
  | [] => []
  | e :: es =>
      (if bool_decide (e = []) then []
       else [text "whose element #" ++ show_size i ++ text " matches, " ++ e]) ++ reasons (S i) es
  end.

Definition and_newline : list Z := text "," ++ newline ++ text "and ".

Lemma reasons_loop_say i es printed l :
  reasons_loop i es printed l =
  say (if printed : bool then concat ((λ y, and_newline ++ y) <$> reasons i es)
       else separated and_newline (reasons i es)) l.
Proof.
  revert i printed l. induction es as [|e es IH]; intros i printed l; cbn [reasons_loop reasons].
  - destruct printed; cbn; by rewrite say_nil.
  - case_bool_decide; [apply IH|]. rewrite IH.
    destruct printed; cbn [app fmap list_fmap concat separated]; rewrite !say_say; f_equal;
      unfold and_newline; rewrite <-?app_assoc; reflexivity.
Qed.

Lemma examine_result b ms c pos pre :
  Forall Lawful ms → length pre = pos →
  let '(es, exam_pos, rest, mm) := examine b c ms pos (pre ++ replicate (length ms) []) in
  (exam_pos + length rest = pos + length c)%nat ∧
  mm = bool_decide (is_Some (mismatch pos ms c)) ∧
  (mm = false → length c = length ms →
     es = pre ++ if b then zip_with explanation ms c else replicate (length ms) []) ∧
  match mismatch pos ms c with
  | Some (j, e) => exam_pos = j ∧ (b = true → es !! j = Some e)
  | None => True
  end.
Proof.
  intros Hms. revert c pos pre. induction Hms as [|m ms Hm Hms IH]; intros c pos pre Hp.
  { destruct c; cbn [examine mismatch length]; split_and!; try done; cbn; try lia.
    intros _ _. by destruct b. }
  destruct c as [|x c]; [by cbn; split_and!|]. cbn [examine mismatch replicate length].
  assert ((if b then let '(b0, s) := MatchAndExplain m x string_listener in (b0, str s)
           else (Matches m x, [])) = (Matches m x, if b then explanation m x else [])) as ->.
  { destruct b; [|done]. by rewrite (lawful_result m). }
  cbv beta iota.
  assert ((if b then <[pos := if b then explanation m x else []]> (pre ++ [] :: replicate (length ms) [])
           else pre ++ [] :: replicate (length ms) []) =
          (pre ++ [if b then explanation m x else []]) ++ replicate (length ms) []) as ->.
  { rewrite <-app_assoc. destruct b; [|done]. rewrite insert_app_r_alt by lia.
    by replace (pos - length pre)%nat with 0%nat by lia. }
  destruct (Matches m x).
  - specialize (IH c (S pos) (pre ++ [if b then explanation m x else []])).
    destruct (examine _ _ _ _ _) as [[[es ep] rest] mm].
    destruct IH as (H1 & H2 & H3 & H4); [rewrite length_app; simpl; lia|].
    split_and!; [lia|done| |done]. intros Hf Hl. rewrite H3 by (done || lia).
    rewrite <-app_assoc. by destruct b.
  - split_and!; [done|done|done| |]; [done|]. intros ->. rewrite <-app_assoc.
    rewrite lookup_app_r by lia. by replace (pos - length pre)%nat with 0%nat by lia.
Qed.

(** What [ElementsAre] says of a container. *)
Definition ElementsAre_explanation (ms : list (Matcher A)) (c : list A) : list Z :=
  if decide (length c = length ms) then
    match mismatch 0 ms c with
    | Some (i, e) => text "whose element #" ++ show_size i ++ text " doesn't match" ++ after_comma e
    | None => separated and_newline (reasons 0 (zip_with explanation ms c))
    end
  else match c with [] => [] | _ => text "which has " ++ Matchers.Elements (length c) end.

Lemma ElementsAre_result ms c l :
  Forall Lawful ms →
  MatchAndExplain (ElementsAreMatcherImpl ms) c l =
  (bool_decide (length c = length ms) && bool_decide (mismatch 0 ms c = None),
   say (ElementsAre_explanation ms c) l).
Proof.
  intros Hms. cbn [MatchAndExplain ElementsAreMatcherImpl]. unfold ElementsAre_explanation.
  pose proof (examine_result (IsInterested l) ms c 0 [] Hms eq_refl) as Hx. cbn [app] in Hx.
  destruct (examine _ _ _ _ _) as [[[es ep] rest] mm]. destruct Hx as (H1 & -> & H3 & H4).
  assert ((ep + length rest)%nat = length c) as -> by lia.
  destruct (decide (length c = length ms)) as [E|E].
  - rewrite (proj2 (Nat.eqb_eq _ _) E), (bool_decide_true _ E). cbn [negb andb].
    destruct (mismatch 0 ms c) as [[j e]|].
    + destruct H4 as [-> He]. rewrite bool_decide_true by done. rewrite bool_decide_false by done.
      f_equal. destruct l as [t|]; [|done]. cbn [IsInterested] in *. rewrite He by done.
      cbn [default]. says. by rewrite <-!app_assoc.
    + rewrite bool_decide_false by (by intros []). rewrite bool_decide_true by done.
      f_equal. destruct l as [t|]; [|done]. cbn [IsInterested] in *.
      rewrite H3 by (by rewrite ?bool_decide_false by (by intros [])). by rewrite reasons_loop_say.
  - rewrite (proj2 (Nat.eqb_neq _ _) E), (bool_decide_false _ E). cbn [negb andb]. f_equal.
    destruct c as [|x c]; [by rewrite andb_false_r, say_nil|]. cbn [length Nat.eqb negb].
    rewrite andb_true_r. by destruct l.
Qed.

(** C35: [ElementsAre] matches the containers of as many elements as there are matchers, each
    matched by its own; else it says how many elements there are, if any, or which is the
    first that does not match, and why; on success it gives all explanations with the
    indices they belong to.  The result does not depend on who listens. *)
Theorem ElementsAre_decides ms c :
  Forall Lawful ms →
  (Matches (ElementsAreMatcherImpl ms) c = true ↔ Forall2 (λ m x, Matches m x = true) ms c) ∧
  ∀ l, MatchAndExplain (ElementsAreMatcherImpl ms) c l =
    (Matches (ElementsAreMatcherImpl ms) c, say (ElementsAre_explanation ms c) l).
Proof.
  intros Hms. unfold Matches at 1 3. split; [|intros l; by rewrite !ElementsAre_result].
  rewrite ElementsAre_result by done. cbn [fst]. rewrite andb_true_iff, !bool_decide_eq_true. split.
  - intros [Hl Hm]. by apply (mismatch_None 0).
  - intros Hf. pose proof (Forall2_length _ _ _ Hf) as Hl. split; [done|].
    by apply mismatch_None.
Qed.

End ElementsAre.

#[export] Instance ElementsAre_lawful {A} (ms : list (Matcher A)) :
  TCForall Lawful ms → Lawful (ElementsAreMatcherImpl ms).
Proof. intros Hms%TCForall_Forall c. eexists _, _. intros l. by apply ElementsAre_result. Qed.

Section Pointwise.
Context {A B : Type} `{Printer A} `{Printer B} `{Printer (list B)}.

Lemma pointwise_loop_result (m : Matcher (A * B)) `{!Lawful m} lhs rhs i :
  length lhs = length rhs →
  ∃ b e, (b = true ↔ Forall2 (λ x y, Matches m (x, y) = true) lhs rhs) ∧
    ∀ l, pointwise_loop m lhs rhs i l = (b, say e l).
Proof.
  revert rhs i. induction lhs as [|x lhs IH]; intros [|y rhs] i Hl; try done; cbn [pointwise_loop].
  - exists true, []. split; [by split; [constructor|]|]. intros l. by rewrite say_nil.
  - destruct (Matches m (x, y)) eqn:E.
    + destruct (IH rhs (S i)) as (b & e & Hb & He); [by injection Hl|]. exists b, e. split.
      * rewrite Hb, Forall2_cons. naive_solver.
      * intros l. rewrite (lawful_result m), E, He. by destruct (IsInterested l).
    + eexists false, _. split; [rewrite Forall2_cons; naive_solver|]. intros [t|]; [|reflexivity].
      cbn [IsInterested]. rewrite (lawful_result m), E. says. reflexivity.
Qed.

#[export] Instance Pointwise_lawful (m : Matcher (A * B)) (rhs : list B) :
  Lawful m → Lawful (PointwiseMatcher m rhs).
Proof.
  intros Hm lhs. cbn. destruct (length lhs =? length rhs)%nat eqn:E; cbn [negb]; [|by eexists _, _].
  apply Nat.eqb_eq in E. destruct (pointwise_loop_result m lhs rhs 0 E) as (b & e & _ & He).
  by exists b, e.
Qed.

(** [Pointwise] compares the elements at the same places of two containers of one length. *)
Theorem Pointwise_decides (m : Matcher (A * B)) lhs rhs :
  Lawful m →
  Matches (PointwiseMatcher m rhs) lhs = true ↔ Forall2 (λ x y, Matches m (x, y) = true) lhs rhs.
Proof.
  intros Hm. unfold Matches at 1. cbn. destruct (length lhs =? length rhs)%nat eqn:E; cbn [negb].
  - apply Nat.eqb_eq in E. destruct (pointwise_loop_result m lhs rhs 0 E) as (b & e & Hb & He).
    by rewrite He.
  - split; [done|]. intros Hf%Forall2_length. by apply Nat.eqb_neq in E.
Qed.
End Pointwise.

Section ContainerEq.
Context {A : Type} `{EqDecision A} `{Printer A} `{Printer (list A)}.

Definition missing (elements others : list A) : list A := filter (λ x, x ∉ others) elements.

Lemma missing_loop_say header elements others printed l :
  missing_loop header elements others printed l =
  (printed || bool_decide (missing elements others ≠ []),
   say (if printed then concat ((λ y, text ", " ++ y) <$> (UniversalPrint <$> missing elements others))
        else match missing elements others with
             | [] => []
             | ms => header ++ separated (text ", ") (UniversalPrint <$> ms)
             end) l).
Proof.
  unfold missing. revert printed l. induction elements as [|x elements IH]; intros printed l.
  - cbn. destruct printed; by rewrite say_nil.
  - cbn [missing_loop]. rewrite filter_cons. destruct (bool_decide (x ∈ others)) eqn:Hx.
    + apply bool_decide_eq_true in Hx. rewrite decide_False by (by intros Hn). apply IH.
    + apply bool_decide_eq_false in Hx. rewrite decide_True by done. rewrite IH, !say_say. f_equal.
      * rewrite (bool_decide_true (x :: _ ≠ [])) by done. by rewrite orb_true_r.
      * destruct printed; cbn; by rewrite <-?app_assoc.
Qed.

#[export] Instance ContainerEq_lawful (expected : list A) : Lawful (ContainerEqMatcher expected).
Proof.
  intros c. cbn. case_bool_decide; [exists true, []; intros l; by rewrite say_nil|].
  exists false. eexists. intros [l|]; [|reflexivity]. cbn [IsInterested].
  rewrite missing_loop_say. cbv beta iota. rewrite missing_loop_say. says. reflexivity.
Qed.

Lemma missing_nil c d : missing c d = [] ↔ c ⊆ d.
Proof.
  unfold missing. split.
  - intros Hn x Hx. destruct (decide (x ∈ d)) as [|Hd]; [done|].
    assert (x ∈ filter (λ x, x ∉ d) c) as Hf by (by apply list_elem_of_filter).
    rewrite Hn in Hf. by apply not_elem_of_nil in Hf.
  - intros Hs. destruct (filter _ c) as [|x l] eqn:E; [done|].
    assert (x ∈ filter (λ x, x ∉ d) c) as Hf by (rewrite E; by left).
    apply list_elem_of_filter in Hf as [Hn Hx]. by apply Hs in Hx.
Qed.

(** [ContainerEq] matches the equal container only.  It explains which elements are not
    expected and which are missing; of containers that differ in the order or in the
    multiplicity of their elements it says nothing. *)
Theorem ContainerEq_decides (expected c : list A) :
  (Matches (ContainerEqMatcher expected) c = true ↔ c = expected) ∧
  (explanation (ContainerEqMatcher expected) c = [] ↔ c = expected ∨ (c ⊆ expected ∧ expected ⊆ c)).
Proof.
  unfold Matches, explanation. cbn. case_bool_decide as E; cbn; [naive_solver|]. split; [naive_solver|].
  rewrite missing_loop_say. cbv beta iota. rewrite missing_loop_say. cbn [snd]. says.
  rewrite <-!missing_nil.
  destruct (missing c expected) as [|x xs], (missing expected c) as [|y ys]; cbn; naive_solver.
Qed.

(** ** [WhenSorted] *)

(** What [std::sort] promises, for an order. *)
Class Sorts (R : relation A) (sort : list A → list A) : Prop := {
  sort_permutes l : sort l ≡ₚ l;
  sort_sorts l : Sorted R (sort l)
}.

#[export] Instance WhenSortedBy_lawful sort (m : Matcher (list A)) :
  Lawful m → Lawful (WhenSortedByMatcher sort m).
Proof.
  intros Hm c. cbn. exists (Matches m (sort c)). eexists. intros [l|]; [|reflexivity].
  cbn [IsInterested]. rewrite (lawful_result m). says. reflexivity.
Qed.

(** [WhenSorted(ContainerEq(ys))] of a sorted container matches its permutations. *)
Theorem WhenSorted_permutations R sort `{!Sorts R sort, !Transitive R, !AntiSymm (=) R} ys xs :
  Sorted R ys → Matches (WhenSortedByMatcher sort (ContainerEqMatcher ys)) xs = true ↔ xs ≡ₚ ys.
Proof.
  intros Hys. unfold Matches at 1. cbn. destruct (ContainerEq_decides ys (sort xs)) as [-> _].
  split.
  - intros <-. symmetry. apply sort_permutes.
  - intros Hp. apply (Sorted_unique R); [apply sort_sorts|exact Hys|]. by rewrite sort_permutes.
Qed.
End ContainerEq.

(** * Strings *)

Lemma first_nul s n :
  find_char 0 s = Some n →
  tolower <$> s = (tolower <$> from_c_str s) ++ 0 :: (tolower <$> drop (n + 1) s) ∧ (n < length s)%nat.
Proof.
  revert n. induction s as [|c s IH]; intros n; simpl; [done|]. destruct (c =? 0) eqn:E.
  - apply Z.eqb_eq in E. intros [= <-]. subst. cbn. rewrite drop_0. split; [done|lia].
  - destruct (find_char 0 s) as [k|]; [|done]. intros [= <-]. destruct (IH k eq_refl) as [H ?].
    cbn. split; [by f_equal|lia].
Qed.

Lemma no_nul s : find_char 0 s = None → from_c_str s = s.
Proof.
  induction s as [|c s IH]; simpl; [done|]. destruct (c =? 0); [done|].
  destruct (find_char 0 s); [done|]. intros _. by rewrite IH.
Qed.

Lemma tolower_nul c : tolower c = 0 ↔ c = 0.
Proof. unfold tolower. destruct (_ && _) eqn:E; [|done]. apply andb_true_iff in E. lia. Qed.

Lemma lower_c_str s : 0 ∉ tolower <$> from_c_str s.
Proof.
  induction s as [|c s IH]; simpl; [set_solver|]. destruct (c =? 0) eqn:E; [set_solver|].
  apply Z.eqb_neq in E. rewrite <-tolower_nul in E. cbn. set_solver.
Qed.

(** Texts without [x] that end at their first [x]. *)
Lemma app_first {B} (x : B) l1 l2 k1 k2 :
  x ∉ l1 → x ∉ l2 → l1 ++ x :: k1 = l2 ++ x :: k2 → l1 = l2 ∧ k1 = k2.
Proof.
  revert l2. induction l1 as [|a l1 IH]; intros [|b l2] H1 H2; cbn; [naive_solver|set_solver..|].
  intros [= -> H]. destruct (IH l2) as [-> ->]; set_solver.
Qed.

(** Whole strings are compared, with the NULs they may hold: they are equal exactly when
    all their characters are, but for the case. *)
Theorem CaseInsensitiveStringEquals_decides s1 s2 :
  CaseInsensitiveStringEquals s1 s2 = true ↔ tolower <$> s1 = tolower <$> s2.
Proof.
  unfold CaseInsensitiveStringEquals.
  remember (length s1) as fuel eqn:Hl. apply eq_sym, Nat.eq_le_incl in Hl.
  revert fuel s1 s2 Hl. induction fuel as [fuel IH] using lt_wf_ind. intros s1 s2 Hl.
  assert (case_insensitive_loop fuel s1 s2 = true ↔
    tolower <$> from_c_str s1 = tolower <$> from_c_str s2 ∧
    match find_char 0 s1, find_char 0 s2 with
    | Some i1, Some i2 => tolower <$> drop (i1 + 1) s1 = tolower <$> drop (i2 + 1) s2
    | None, None => True
    | _, _ => False
    end) as ->.
  { destruct fuel as [|fuel]; cbn [case_insensitive_loop CaseInsensitiveCStringEquals]; unfold StrCaseEq;
      case_bool_decide; cbn [negb]; [|naive_solver| |naive_solver];
      destruct (find_char 0 s1) as [i1|] eqn:E1, (find_char 0 s2) as [i2|] eqn:E2; try naive_solver.
    - apply first_nul in E1 as [_ ?]. lia.
    - apply first_nul in E1 as [_ ?]. rewrite IH by (rewrite ?length_drop; lia). naive_solver. }
  pose proof (lower_c_str s1) as N1. pose proof (lower_c_str s2) as N2.
  destruct (find_char 0 s1) as [i1|] eqn:E1, (find_char 0 s2) as [i2|] eqn:E2;
    repeat match goal with
    | H : find_char 0 ?s = Some _ |- _ => apply first_nul in H as [-> _]
    | H : find_char 0 ?s = None |- _ => apply no_nul in H; rewrite H in *
    end.
  - split; [by intros [-> ->]|]. by apply app_first.
  - split; [by intros []|]. intros H. rewrite <-H in N2. set_solver.
  - split; [by intros []|]. intros H. rewrite H in N1. set_solver.
  - naive_solver.
Qed.

(** Which strings the matchers of strings match; of null pointers to characters none but
    [StrNe] and [StrCaseNe]. *)
Theorem string_matchers_decide (s x : list Z) :
  (Matches (StartsWithMatcher x) s = true ↔ ∃ r, s = x ++ r) ∧
  (Matches (EndsWithMatcher x) s = true ↔ ∃ r, s = r ++ x) ∧
  (Matches (HasSubstrMatcher x) s = true ↔ ∃ a b, s = a ++ x ++ b) ∧
  (∀ expect_eq case_sensitive,
     Matches (StrEqualityMatcher x expect_eq case_sensitive) s = expect_eq ↔
     if case_sensitive : bool then s = x else tolower <$> s = tolower <$> x) ∧
  (∀ expect_eq case_sensitive,
     Matches (StrEquality_c_string x expect_eq case_sensitive) None = negb expect_eq) ∧
  Matches (StartsWith_c_string x) None = false ∧ Matches (EndsWith_c_string x) None = false ∧
  Matches (HasSubstr_c_string x) None = false.
Proof.
  unfold Matches. cbn. split_and!; try done.
  - rewrite andb_true_iff, Nat.leb_le, bool_decide_eq_true. unfold substr. rewrite drop_0. split.
    + intros [_ H]. exists (drop (length x) s). by rewrite <-H at 1; rewrite take_drop.
    + intros [r ->]. rewrite length_app, take_app_length. split; [lia|done].
  - rewrite andb_true_iff, Nat.leb_le, bool_decide_eq_true. split.
    + intros [_ H]. exists (take (length s - length x) s). by rewrite <-H at 2; rewrite take_drop.
    + intros [r ->]. rewrite length_app. split; [lia|]. by rewrite drop_app_length' by lia.
  - apply find_text_spec.
  - intros expect_eq [].
    + case_bool_decide; destruct expect_eq; naive_solver.
    + rewrite <-CaseInsensitiveStringEquals_decides.
      destruct (CaseInsensitiveStringEquals s x), expect_eq; naive_solver.
Qed.

(** A string of C is matched by a regular expression up to its NUL, a null pointer never;
    which of the two operations is asked, and which words describe it, is the same choice. *)
Theorem MatchesRegex_decides {RE} (FullMatch PartialMatch : list Z → RE → bool) pattern (r : RE) full_match :
  let m := MatchesRegex_c_string FullMatch PartialMatch pattern r full_match in
  Matches m None = false ∧
  (∀ s, Matches m (Some s) = (if full_match : bool then FullMatch else PartialMatch) (from_c_str s) r) ∧
  DescribeTo m = text (if full_match : bool then "matches" else "contains") ++
                 text " regular expression " ++ print_string (pattern r).
Proof. by destruct full_match. Qed.

(** * Tuples *)

Lemma prefix_matches_spec n fields :
  prefix_matches n fields = true ↔
  Forall (λ f, Matches f.(field_matcher) f.(field_value) = true) (take n fields).
Proof.
  induction n as [|n IH]; cbn [prefix_matches]; [by rewrite take_0; split|].
  rewrite andb_true_iff, IH. destruct (fields !! n) as [f|] eqn:E.
  - rewrite (take_S_r _ _ _ E), Forall_app, Forall_singleton. done.
  - apply lookup_ge_None in E. rewrite !take_ge by lia. naive_solver.
Qed.

(** What is said of an argument at an index. *)
Definition field_explanation (n : nat) (f : Field) : list Z := explain_field n f [].

Lemma explain_field_app n f os : explain_field n f os = os ++ field_explanation n f.
Proof.
  unfold field_explanation, explain_field. destruct (MatchAndExplain _ _ _) as [[] ?]; [|done].
  by rewrite app_nil_r.
Qed.

Lemma prefix_explain_app n fields os :
  (n <= length fields)%nat →
  prefix_explain n fields os = os ++ concat (imap field_explanation (take n fields)).
Proof.
  induction n as [|n IH]; intros Hn; cbn [prefix_explain]; [by rewrite take_0, app_nil_r|].
  destruct (lookup_lt_is_Some_2 fields n Hn) as [f E]. rewrite E, IH by lia.
  rewrite (take_S_r _ _ _ E), imap_app, concat_app, explain_field_app, <-app_assoc. do 2 f_equal.
  cbn. rewrite app_nil_r. by rewrite length_take, Nat.add_0_r, Nat.min_l by lia.
Qed.

Lemma field_explanation_nil n f :
  Lawful f.(field_matcher) →
  Matches f.(field_matcher) f.(field_value) = true ↔ field_explanation n f = [].
Proof.
  intros Hf. unfold field_explanation, explain_field. rewrite (lawful_result f.(field_matcher)).
  destruct (Matches _ _); [done|]. split; [done|]. by intros [=].
Qed.

Lemma concat_nil_Forall {B} (ls : list (list B)) : concat ls = [] ↔ Forall (λ l, l = []) ls.
Proof.
  induction ls as [|l ls IH]; cbn; [done|]. rewrite Forall_cons, <-IH. split; [apply app_eq_nil|].
  by intros [-> ->].
Qed.

(** A tuple of matchers matches when every field does, and what is explained of it is what
    is said of the fields that do not match, in their order: nothing exactly when it
    matches. *)
Theorem tuple_failures_are_explained fields os :
  (∀ f, f ∈ fields → Lawful f.(field_matcher)) →
  ExplainMatchFailureTupleTo fields os = os ++ concat (imap field_explanation fields) ∧
  (TupleMatches fields = true ↔ ExplainMatchFailureTupleTo fields os = os).
Proof.
  intros Hf. unfold TupleMatches, ExplainMatchFailureTupleTo.
  rewrite prefix_explain_app, firstn_all by lia. split; [done|].
  rewrite prefix_matches_spec, firstn_all.
  transitivity (concat (imap field_explanation fields) = []).
  2: { split; [intros ->; apply app_nil_r|]. intros H. by apply (app_inv_head os); rewrite app_nil_r. }
  rewrite concat_nil_Forall, !Forall_lookup. split.
  - intros Hm i e. rewrite list_lookup_imap. intros (f & E & ->)%fmap_Some.
    apply field_explanation_nil; [by eapply Hf, list_elem_of_lookup_2|by eapply Hm].
  - intros He i f E. apply (field_explanation_nil i); [by eapply Hf, list_elem_of_lookup_2|].
    apply (He i). by rewrite list_lookup_imap, E.
Qed.

(** * [UnorderedElementsAre] *)

Section Unordered.
Context {A : Type} `{Printer A}.

Lemma Unordered_result (ms : list (Matcher A)) c l :
  ∃ b e, MatchAndExplain (UnorderedElementsAreMatcherImpl ms) c l = (b, say e l) ∧
    (b = true ↔ ∃ c', c' ≡ₚ c ∧ Forall2 (λ m x, Matches m x = true) ms c').
Proof.
  cbn. destruct (UnorderedElementsAre_permutation (λ x, of_text (UniversalPrint x)) c (Matches <$> ms)
    (λ i, of_text (default [] (DescribeTo <$> ms !! i))) (IsInterested l)) as (b & t & -> & Hb & _).
  eexists _, _. split; [done|]. rewrite Hb.
  unfold satisfied. apply exist_proper. intros c'. apply and_iff_compat_l.
  rewrite Forall2_fmap_r. split; intros Hf; by apply Forall2_flip in Hf.
Qed.

(** C34: [UnorderedElementsAre] matches a container exactly when its elements have an order in
    which each is matched by its own matcher, whatever the matchers are; the result does
    not depend on who listens, and the listener is only added to. *)
Theorem UnorderedElementsAre_decides (ms : list (Matcher A)) c :
  (Matches (UnorderedElementsAreMatcherImpl ms) c = true ↔
   ∃ c', c' ≡ₚ c ∧ Forall2 (λ m x, Matches m x = true) ms c') ∧
  ∀ l, ∃ e, MatchAndExplain (UnorderedElementsAreMatcherImpl ms) c l =
            (Matches (UnorderedElementsAreMatcherImpl ms) c, say e l).
Proof.
  unfold Matches at 1 3. destruct (Unordered_result ms c None) as (b & e & -> & Hb). cbn [fst].
  split; [done|]. intros l. destruct (Unordered_result ms c l) as (b' & e' & -> & Hb').
  exists e'. f_equal. rewrite <-Hb in Hb'. destruct b, b'; naive_solver.
Qed.

Context {B : Type} `{Printer B}.

(** [UnorderedPointwise(m, rhs)] matches what [Pointwise(m, rhs)] matches of some
    permutation. *)
Theorem UnorderedPointwise_permutes `{Printer (list B)} (m : Matcher (A * B)) lhs rhs :
  Lawful m →
  Matches (UnorderedPointwise m rhs) lhs = true ↔
  ∃ lhs', lhs' ≡ₚ lhs ∧ Matches (PointwiseMatcher m rhs) lhs' = true.
Proof.
  intros Hm. unfold Matches at 1, UnorderedPointwise.
  destruct (Unordered_result (BoundSecondMatcher m <$> rhs) lhs None) as (b & e & -> & ->).
  apply exist_proper. intros lhs'. apply and_iff_compat_l.
  rewrite (Pointwise_decides m lhs' rhs Hm), Forall2_fmap_l.
  split; intros Hf; by apply Forall2_flip in Hf.
Qed.
End Unordered.

(** * Names as words *)

(** The words that the comment of [ConvertIdentifierNameToWords] defines: the longest texts
    of a letter with small letters after it, or of digits.  The fuel is the length. *)
Fixpoint span (f : Z → bool) (s : list Z) : list Z * list Z :=
  match s with
  | c :: s' => if f c then let '(w, r) := span f s' in (c :: w, r) else ([], s)
  | [] => ([], [])
  end.
Fixpoint name_words (fuel : nat) (s : list Z) : list (list Z) :=
  match fuel, s with
  | S fuel, c :: s =>
      if IsAlpha c then let '(w, r) := span IsLower s in (c :: w) :: name_words fuel r
      else if IsDigit c then let '(w, r) := span IsDigit s in (c :: w) :: name_words fuel r
      else name_words fuel s
  | _, _ => []
  end.

Lemma span_ok f s :
  (span f s).1 ++ (span f s).2 = s ∧ Forall (λ c, f c = true) (span f s).1 ∧
  match (span f s).2 with [] => True | c :: _ => f c = false end.
Proof.
  induction s as [|c s (H1 & H2 & H3)]; cbn; [by split_and!|]. destruct (f c) eqn:E; [|by split_and!].
  destruct (span f s) as [w r]. cbn in *. split_and!; [by rewrite H1|by constructor|done].
Qed.

(** [p] and [c] belong to one word. *)
Definition joined_chars (p c : Z) : bool := (IsAlpha p && IsLower c) || (IsDigit p && IsDigit c).

Ltac chars := unfold joined_chars, starts_new_word, IsAlNum, IsAlpha, IsLower, IsUpper, IsDigit in *;
  repeat match goal with |- context [?a <=? ?b] => destruct (Z.leb_spec a b) end;
  cbn [andb orb negb] in *; try done; lia.

Lemma starts_new_word_joined p c : IsAlNum c = true → starts_new_word p c = negb (joined_chars p c).
Proof. chars. Qed.

(** A run of characters that stay in a word. *)
Lemma words_run (K f : Z → bool) w s p r :
  (∀ c, f c = true → K c = true ∧ IsAlNum c = true) →
  (∀ p c, K p = true → f c = true → joined_chars p c = true) →
  K p = true → Forall (λ c, f c = true) w →
  ∃ p', K p' = true ∧ words_loop p (w ++ s) r = words_loop p' s (r ++ (tolower <$> w)).
Proof.
  intros Hf Hj Hp Hw. revert p r Hp. induction Hw as [|c w Hc Hw IH]; intros p r Hp.
  { exists p. by rewrite app_nil_r. }
  destruct (Hf c Hc) as [HK Ha]. destruct (IH c (r ++ [tolower c]) HK) as (p' & Hp' & H).
  exists p'. split; [done|]. cbn [app words_loop]. rewrite Ha, starts_new_word_joined, (Hj p c) by done.
  cbn [negb andb]. by rewrite H, <-app_assoc.
Qed.

(** What the words add to a result. *)
Definition add_word (r w : list Z) : list Z :=
  (if bool_decide (r = []) then [] else r ++ text " ") ++ (tolower <$> w).

Definition new_word_next (p : Z) (s : list Z) : Prop :=
  match s with [] => True | c :: _ => joined_chars p c = false end.

(** A word, of which the first character is read. *)
Lemma words_first (K f : Z → bool) c s p r :
  (∀ c, f c = true → K c = true ∧ IsAlNum c = true) →
  (∀ p c, K p = true → joined_chars p c = f c) →
  K c = true → IsAlNum c = true → joined_chars p c = false →
  ∃ p', new_word_next p' (span f s).2 ∧
    words_loop p (c :: s) r = words_loop p' (span f s).2 (add_word r (c :: (span f s).1)).
Proof.
  intros Hf Hj Hc Ha Hn. cbn [words_loop]. rewrite Ha, starts_new_word_joined, Hn by done. cbn [negb andb].
  destruct (span_ok f s) as (Hs & Hw & Hr).
  edestruct (words_run K f (span f s).1 (span f s).2 c) as (p' & Hp' & H);
    [done|by intros; rewrite Hj|done|done|].
  rewrite Hs in H. exists p'. rewrite H. split.
  - destruct (span f s).2; [done|]. cbn. by rewrite Hj.
  - f_equal. unfold add_word. cbn [fmap list_fmap]. rewrite <-app_assoc. case_bool_decide; by subst.
Qed.

Lemma words_loop_words fuel s p r :
  (length s <= fuel)%nat → new_word_next p s →
  words_loop p s r = foldl add_word r (name_words fuel s).
Proof.
  revert s p r. induction fuel as [|fuel IH]; intros [|c s] p r Hl Hn; try done; [by cbn in Hl; lia|].
  cbn [name_words]. cbn in Hl, Hn.
  assert (∀ f, length (span f s).2 <= fuel)%nat as Hspan.
  { intros f. destruct (span_ok f s) as [Hs _]. apply (f_equal length) in Hs.
    rewrite length_app in Hs. lia. }
  destruct (IsAlpha c) eqn:Ea; [|destruct (IsDigit c) eqn:Ed].
  - destruct (words_first IsAlpha IsLower c s p r) as (p' & Hn' & ->); try done.
    + intros x. chars.
    + intros x y. chars.
    + unfold IsAlNum. by rewrite Ea.
    + specialize (Hspan IsLower). destruct (span IsLower s) as [w t]. by apply IH.
  - destruct (words_first IsDigit IsDigit c s p r) as (p' & Hn' & ->); try done.
    + intros x. chars.
    + intros x y. chars.
    + unfold IsAlNum. by rewrite Ea, Ed.
    + specialize (Hspan IsDigit). destruct (span IsDigit s) as [w t]. by apply IH.
  - cbn [words_loop]. unfold IsAlNum at 1. rewrite Ea, Ed. cbn [orb]. apply IH; [lia|].
    destruct s as [|d s]; [done|]. cbn. unfold joined_chars. by rewrite Ea, Ed.
Qed.

Lemma add_words r ws :
  r ≠ [] → foldl add_word r ws = r ++ concat ((λ w : list Z, text " " ++ (tolower <$> w)) <$> ws).
Proof.
  revert r. induction ws as [|w ws IH]; intros r Hr; cbn; [by rewrite app_nil_r|].
  rewrite IH by (unfold add_word; rewrite bool_decide_false by done; by destruct r).
  unfold add_word. rewrite bool_decide_false by done. by rewrite <-!app_assoc.
Qed.

(** A name is turned into its words as they are defined, in small letters, with a space
    between them. *)
Theorem ConvertIdentifierNameToWords_words id_name :
  let s := from_c_str id_name in
  ConvertIdentifierNameToWords id_name =
  separated (text " ") ((λ w : list Z, tolower <$> w) <$> name_words (length s) s).
Proof.
  intros s. unfold ConvertIdentifierNameToWords. fold s. rewrite (words_loop_words (length s)); [|done|by destruct s].
  assert (Forall (λ w, w ≠ []) (name_words (length s) s)) as Hw.
  { generalize (length s). intros fuel. generalize s. induction fuel as [|fuel IH]; intros [|c t]; cbn; try constructor.
    destruct (IsAlpha c); [destruct (span IsLower t); by constructor|].
    destruct (IsDigit c); [destruct (span IsDigit t); by constructor|done]. }
  destruct (name_words (length s) s) as [|w ws]; [done|]. apply Forall_cons in Hw as [Hw _].
  cbn [foldl fmap list_fmap separated]. rewrite add_words by (cbn; by destruct w).
  cbn. f_equal. f_equal. by rewrite <-list_fmap_compose.
Qed.

(** * Examples *)

Module Example_matchers.

#[export] Instance int_printer : Printer Z :=
  {| UniversalPrint := show64; GetTypeName := text "int" |}.
#[export] Instance ints_printer : Printer (list Z) :=
  {| UniversalPrint := λ l, text "{ " ++ separated (text ", ") (show64 <$> l) ++ text " }";
     GetTypeName := text "std::vector<int>" |}.

Definition gt (n : Z) : Matcher Z := GtMatcher n.

Lemma ElementsAre_decides_witness :
  Matches (ElementsAreMatcherImpl [gt 1; gt 2]) [5; 2] = false ∧
  (Matches (ElementsAreMatcherImpl [gt 1; gt 2]) [5; 2] = true ↔
   Forall2 (λ m x, Matches m x = true) [gt 1; gt 2] [5; 2]) ∧
  MatchAndExplain (ElementsAreMatcherImpl [gt 1; gt 2]) [5; 2] string_listener =
    (false, Some (text "whose element #1 doesn't match")).
Proof.
  assert (Forall Lawful [gt 1; gt 2]) as H.
  { constructor; [apply silent_lawful|]. constructor; [apply silent_lawful|constructor]. }
  destruct (ElementsAre_decides [gt 1; gt 2] [5; 2] H) as [H1 H2].
  split; [reflexivity|]. split; [exact H1|]. rewrite H2. vm_compute. reflexivity.
Defined.

(** What [EXPECT_THAT(v, ElementsAre(Gt(1), AllOf(Gt(2), Lt(9))))] reports. *)
Example expect_that :
  PredicateFormatterFromMatcher
    (ElementsAreMatcherImpl [gt 1; AllOfMatcher (gt 2) [LtMatcher 9]]) (text "v") [5; 2] =
  AssertionFailure
       (text "Value of: v" ++ newline ++
        text "Expected: has 2 elements where" ++ newline ++
        text "element #0 is > 1," ++ newline ++
        text "element #1 (is > 2) and (is < 9)" ++ newline ++
        text "  Actual: { 5, 2 } (of type std::vector<int>), whose element #1 doesn't match").
Proof. vm_compute. reflexivity. Qed.

End Example_matchers.
