(* ===== verification/Actions.v ===== *)
(** The actions of Google Mock ([src/lib/googlemock/include/gmock/gmock-actions.h],
    [gmock-more-actions.h], [gmock-generated-actions.h]).

    An [Action] is a handle of an [ActionInterface], shared between its copies: the store
    keeps these objects, in the order they are made in, next to the objects of the user in
    memory.  A polymorphic action makes new ones every time it is converted to the type of
    a mock function.  Functions of the user are functors with a state of their own, which
    read and write memory, return or throw, and leave actions alone.  Types are checked by
    the compiler: values of the wrong kind are undefined here. *)

From S2P Require Import Prelude Strings.
From stdpp Require Import base gmap sets list strings.
From Stdlib Require Import ZArith.

(** * Values, memory and outcomes *)

Section Actions.
Context {V : Type}.

(** What a function takes and returns; a reference is the address of an object. *)
Inductive Value :=
  | Void
  | Val (v : V)
  | Pointer (p : option nat)
  | Reference (p : nat).

Record Memory := mkMemory { cells : gmap nat V; errno : Z }.

(** [moved] is what a value leaves behind when it is moved; [call] is a call of a functor:
    its state, what it throws or returns, and memory afterwards. *)
Context {Fun : Type} (moved : V → V)
        (call : Fun → list Value → Memory → Fun * (V + Value) * Memory).

(** [Action<F>]; [None] is a null pointer, which is [DoDefault()]. *)
Notation Action := (option nat).

(** The classes that implement [ActionInterface]. *)
Inductive ActionInterface :=
  | ReturnImpl (value_ : V)
  | ByMoveImpl (performed_ : bool) (wrapper_ : nat)
  | ReturnNullImpl
  | ReturnVoidImpl
  | ReturnRefImpl (ref_ : nat)
  | ReturnRefOfCopyImpl (value_ : nat)
  | AssignImpl (ptr_ : option nat) (value_ : V)
  | SetErrnoAndReturnImpl (errno_ : Z) (result_ : V)
  | SetArgumentPointeeImpl (n : nat) (value_ : V)
  | InvokeWithoutArgsImpl (function_impl_ : Fun)
  | InvokeImpl (function_impl_ : Fun)
  | IgnoreResultImpl (action_ : Action)
  | DoBothImpl (action1_ action2_ : Action)
  | WithArgsImpl (ks : list nat) (action_ : Action)
  | ActionAdaptor (impl_ : Action)
  | ReturnArgImpl (k : nat)
  | SaveArgImpl (k : nat) (pointer : option nat)
  | SaveArgPointeeImpl (k : nat) (pointer : option nat)
  | SetArgRefereeImpl (k : nat) (value : V)
  | SetArrayArgumentImpl (k : nat) (first : nat) (count : nat)
  | DeleteArgImpl (k : nat)
  | ReturnPointeeImpl (pointer : option nat)
  | ThrowImpl (exception : V).

Record World := mkWorld { memory : Memory; objects : list ActionInterface }.

(** A value; an exception; the process aborted by a failed check, with its message;
    undefined behaviour; or more calls than the fuel allows. *)
Inductive Outcome (A : Type) :=
  | Done (a : A) (w : World)
  | Thrown (exception : V) (w : World)
  | Aborted (message : string) (w : World)
  | Undefined
  | OutOfFuel.
Arguments Done {A} a w.
Arguments Thrown {A} exception w.
Arguments Aborted {A} message w.
Arguments Undefined {A}.
Arguments OutOfFuel {A}.

Definition M (A : Type) : Type := World → Outcome A.
Definition ret {A} (a : A) : M A := λ w, Done a w.
Definition bind {A B} (x : M A) (k : A → M B) : M B := λ w,
  match x w with
  | Done a w => k a w
  | Thrown e w => Thrown e w
  | Aborted m w => Aborted m w
  | Undefined => Undefined
  | OutOfFuel => OutOfFuel
  end.
#[local] Notation "x <-- p ;; k" := (bind p (λ x, k)) (at level 100, p at next level, right associativity).
#[local] Notation "p ;;; k" := (bind p (λ _, k)) (at level 100, right associativity).

Definition abort {A} (message : string) : M A := λ w, Aborted message w.
Definition undefined {A} : M A := λ _, Undefined.
Definition defined {A} (o : option A) : M A := match o with Some a => ret a | None => undefined end.

Definition set_memory (f : Memory → Memory) : M unit := λ w, Done tt (mkWorld (f w.(memory)) w.(objects)).

(** An object of the user, through a pointer. *)
Definition read (p : option nat) : M V := λ w,
  match p ≫= λ a, w.(memory).(cells) !! a with Some v => Done v w | None => Undefined end.
Definition write (p : option nat) (v : V) : M unit :=
  read p ;;; a <-- defined p ;; set_memory (λ m, mkMemory (<[a := v]> m.(cells)) m.(errno)).
(** A new object. *)
Definition allocate (v : V) : M nat := λ w,
  let a := fresh (dom w.(memory).(cells)) in
  Done a (mkWorld (mkMemory (<[a := v]> w.(memory).(cells)) w.(memory).(errno)) w.(objects)).
Definition free (a : nat) : M unit :=
  read (Some a) ;;; set_memory (λ m, mkMemory (delete a m.(cells)) m.(errno)).

Definition object (o : nat) : M ActionInterface := λ w,
  match w.(objects) !! o with Some i => Done i w | None => Undefined end.
Definition set_object (o : nat) (i : ActionInterface) : M unit := λ w,
  Done tt (mkWorld w.(memory) (<[o := i]> w.(objects))).
(** [MakeAction(new Impl)]. *)
Definition MakeAction (i : ActionInterface) : M Action := λ w,
  Done (Some (length w.(objects))) (mkWorld w.(memory) (w.(objects) ++ [i])).

(** * Performing an action *)

Definition IsDoDefault (a : Action) : bool := match a with None => true | Some _ => false end.

Definition do_default_message : string :=
  "You are using DoDefault() inside a composite action like DoAll() or WithArgs().  This is not supported for technical reasons.  Please instead spell out the default action, or assign the default action to an Action variable and use the variable in various places.".
Definition by_move_message : string := "A ByMove() action should only be performed once.".

(** A call of a functor: its new state and what it returns. *)
Definition invoke (f : Fun) (args : list Value) : M (Fun * Value) := λ w,
  let '(f, r, m) := call f args w.(memory) in
  match r with
  | inl e => Thrown e (mkWorld m w.(objects))
  | inr v => Done (f, v) (mkWorld m w.(objects))
  end.
(** A functor that is a member keeps its new state, also when it throws. *)
Definition invoke_member (o : nat) (f : Fun) (args : list Value) : M Value := λ w,
  let '(f, r, m) := call f args w.(memory) in
  let w := mkWorld m (<[o := InvokeWithoutArgsImpl f]> w.(objects)) in
  match r with inl e => Thrown e w | inr v => Done v w end.

(** [std::copy] of [count] objects that follow each other. *)
Fixpoint copy_loop (count first out : nat) : M unit :=
  match count with
  | O => ret tt
  | S count => v <-- read (Some first) ;; write (Some out) v ;;; copy_loop count (S first) (S out)
  end.

(** [Action<F>::Perform], where [Perform] is the one of an object. *)
Definition action_Perform (Perform : nat → list Value → M Value) (a : Action) (args : list Value) : M Value :=
  match a with None => abort do_default_message | Some o => Perform o args end.

Definition argument (args : list Value) (k : nat) : M Value := defined (args !! k).
(** The value of an argument that is one or refers to one. *)
Definition argument_value (args : list Value) (k : nat) : M V :=
  x <-- argument args k ;;
  match x with Val v => ret v | Reference p => read (Some p) | _ => undefined end.
Definition argument_pointer (args : list Value) (k : nat) : M (option nat) :=
  x <-- argument args k ;; match x with Pointer p => ret p | _ => undefined end.

(** [SelectArgs::Select]. *)
Fixpoint Select (ks : list nat) (args : list Value) : M (list Value) :=
  match ks with
  | [] => ret []
  | k :: ks => x <-- argument args k ;; xs <-- Select ks args ;; ret (x :: xs)
  end.

(** ** The actions

    [Perform] of an action that has others gets the [Perform] of their objects. *)

(** [Return(ByMove(x))], of the [o]-th object. *)
Definition ByMove_Perform (o : nat) (performed_ : bool) (wrapper_ : nat) : M Value :=
  if performed_ then abort by_move_message
  else
    set_object o (ByMoveImpl true wrapper_) ;;;
    v <-- read (Some wrapper_) ;;
    write (Some wrapper_) (moved v) ;;;
    ret (Val v).

Definition Assign_Perform (ptr_ : option nat) (value_ : V) : M Value := write ptr_ value_ ;;; ret Void.

Definition SetErrnoAndReturn_Perform (errno_ : Z) (result_ : V) : M Value :=
  set_memory (λ m, mkMemory m.(cells) errno_) ;;; ret (Val result_).

Definition SetArgumentPointee_Perform (n : nat) (value_ : V) (args : list Value) : M Value :=
  p <-- argument_pointer args n ;; write p value_ ;;; ret Void.

(** [InvokeHelper::Invoke] takes the functor by value. *)
Definition Invoke_Perform (function_impl_ : Fun) (args : list Value) : M Value :=
  r <-- invoke function_impl_ args ;; ret r.2.

Definition IgnoreResult_Perform (Perform : nat → list Value → M Value) (action_ : Action)
    (args : list Value) : M Value :=
  action_Perform Perform action_ args ;;; ret Void.

Definition DoBoth_Perform (Perform : nat → list Value → M Value) (action1_ action2_ : Action)
    (args : list Value) : M Value :=
  action_Perform Perform action1_ args ;;; action_Perform Perform action2_ args.

Definition WithArgs_Perform (Perform : nat → list Value → M Value) (ks : list nat) (action_ : Action)
    (args : list Value) : M Value :=
  args <-- Select ks args ;; action_Perform Perform action_ args.

Definition ActionAdaptor_Perform (Perform : nat → list Value → M Value) (impl_ : Action)
    (args : list Value) : M Value :=
  o <-- defined impl_ ;; Perform o args.

Definition SaveArg_Perform (k : nat) (pointer : option nat) (args : list Value) : M Value :=
  v <-- argument_value args k ;; write pointer v ;;; ret Void.

Definition SaveArgPointee_Perform (k : nat) (pointer : option nat) (args : list Value) : M Value :=
  p <-- argument_pointer args k ;; v <-- read p ;; write pointer v ;;; ret Void.

Definition SetArgReferee_Perform (k : nat) (value : V) (args : list Value) : M Value :=
  x <-- argument args k ;;
  match x with Reference p => write (Some p) value ;;; ret Void | _ => undefined end.

Definition SetArrayArgument_Perform (k first count : nat) (args : list Value) : M Value :=
  p <-- argument_pointer args k ;; out <-- defined p ;; copy_loop count first out ;;; ret Void.

Definition DeleteArg_Perform (k : nat) (args : list Value) : M Value :=
  p <-- argument_pointer args k ;;
  match p with None => ret Void | Some a => free a ;;; ret Void end.

Definition ReturnPointee_Perform (pointer : option nat) : M Value := v <-- read pointer ;; ret (Val v).

(** [Perform] of the object [i], the [o]-th. *)
Definition impl_Perform (Perform : nat → list Value → M Value) (o : nat) (i : ActionInterface)
    (args : list Value) : M Value :=
  match i with
  | ReturnImpl value_ => ret (Val value_)
  | ByMoveImpl performed_ wrapper_ => ByMove_Perform o performed_ wrapper_
  | ReturnNullImpl => ret (Pointer None)
  | ReturnVoidImpl => ret Void
  | ReturnRefImpl ref_ => ret (Reference ref_)
  | ReturnRefOfCopyImpl value_ => ret (Reference value_)
  | AssignImpl ptr_ value_ => Assign_Perform ptr_ value_
  | SetErrnoAndReturnImpl errno_ result_ => SetErrnoAndReturn_Perform errno_ result_
  | SetArgumentPointeeImpl n value_ => SetArgumentPointee_Perform n value_ args
  | InvokeWithoutArgsImpl function_impl_ => invoke_member o function_impl_ []
  | InvokeImpl function_impl_ => Invoke_Perform function_impl_ args
  | IgnoreResultImpl action_ => IgnoreResult_Perform Perform action_ args
  | DoBothImpl action1_ action2_ => DoBoth_Perform Perform action1_ action2_ args
  | WithArgsImpl ks action_ => WithArgs_Perform Perform ks action_ args
  | ActionAdaptor impl_ => ActionAdaptor_Perform Perform impl_ args
  | ReturnArgImpl k => argument args k
  | SaveArgImpl k pointer => SaveArg_Perform k pointer args
  | SaveArgPointeeImpl k pointer => SaveArgPointee_Perform k pointer args
  | SetArgRefereeImpl k value => SetArgReferee_Perform k value args
  | SetArrayArgumentImpl k first count => SetArrayArgument_Perform k first count args
  | DeleteArgImpl k => DeleteArg_Perform k args
  | ReturnPointeeImpl pointer => ReturnPointee_Perform pointer
  | ThrowImpl exception => λ w, Thrown exception w
  end.

(** An object refers to older ones, so its number is fuel for them. *)
Fixpoint object_Perform (fuel : nat) (o : nat) (args : list Value) : M Value :=
  match fuel with
  | O => λ _, OutOfFuel
  | S fuel => i <-- object o ;; impl_Perform (object_Perform fuel) o i args
  end.

Definition Perform : Action → list Value → M Value :=
  action_Perform (λ o, object_Perform (S o) o).

(** * Polymorphic actions *)

(** [same_type] tells whether an action has the type it is converted to. *)
Inductive PolymorphicAction :=
  | DoDefault
  | AnAction (a : Action) (same_type : bool)
  | Return (value : V)
  | ReturnByMove (wrapper : nat)
  | ReturnRefOfCopy (value : V)
  | Polymorphic (impl : ActionInterface)
  | IgnoreResult (action : PolymorphicAction)
  | DoBoth (action1 action2 : PolymorphicAction)
  | WithArgs (ks : list nat) (action : PolymorphicAction).

(** [Return(ByMove(x))]: the wrapper is shared by all conversions. *)
Definition Return_ByMove (x : V) : M PolymorphicAction := a <-- allocate x ;; ret (ReturnByMove a).

(** [DoAll], of an action and those after it. *)
Fixpoint DoAll (a : PolymorphicAction) (rest : list PolymorphicAction) : PolymorphicAction :=
  match rest with [] => a | b :: rest => DoBoth a (DoAll b rest) end.

(** The conversions to [Action<F>]. *)
Fixpoint to_action (p : PolymorphicAction) : M Action :=
  match p with
  | DoDefault => ret None
  | AnAction a same_type => if same_type : bool then ret a else MakeAction (ActionAdaptor a)
  | Return value => MakeAction (ReturnImpl value)
  | ReturnByMove wrapper => MakeAction (ByMoveImpl false wrapper)
  | ReturnRefOfCopy value => a <-- allocate value ;; MakeAction (ReturnRefOfCopyImpl a)
  | Polymorphic impl => MakeAction impl
  | IgnoreResult action => a <-- to_action action ;; MakeAction (IgnoreResultImpl a)
  | DoBoth action1 action2 =>
      a1 <-- to_action action1 ;; a2 <-- to_action action2 ;; MakeAction (DoBothImpl a1 a2)
  | WithArgs ks action => a <-- to_action action ;; MakeAction (WithArgsImpl ks a)
  end.

(** * Default values *)

(** [DefaultValue<T>]: a value, or a factory of the user. *)
Inductive ValueProducer :=
  | FixedValueProducer (value_ : V)
  | FactoryValueProducer (factory_ : Memory → V * Memory).

Definition DefaultValue_Set (x : V) : option ValueProducer := Some (FixedValueProducer x).
Definition DefaultValue_SetFactory (factory : Memory → V * Memory) : option ValueProducer :=
  Some (FactoryValueProducer factory).
Definition DefaultValue_Clear : option ValueProducer := None.
Definition DefaultValue_IsSet (producer_ : option ValueProducer) : bool :=
  match producer_ with Some _ => true | None => false end.

Definition Produce (p : ValueProducer) : M V :=
  match p with
  | FixedValueProducer value_ => ret value_
  | FactoryValueProducer factory_ => λ w,
      let '(v, m) := factory_ w.(memory) in Done v (mkWorld m w.(objects))
  end.

(** [BuiltInDefaultValue<T>]: the default-constructed value, for types that have one. *)
Definition BuiltIn_Exists (built_in : option V) : bool :=
  match built_in with Some _ => true | None => false end.
Definition BuiltIn_Get (built_in : option V) : M V :=
  match built_in with
  | Some v => ret v
  | None => abort "Default action undefined for the function return type."
  end.

Definition DefaultValue_Exists (built_in : option V) (producer_ : option ValueProducer) : bool :=
  DefaultValue_IsSet producer_ || BuiltIn_Exists built_in.
Definition DefaultValue_Get (built_in : option V) (producer_ : option ValueProducer) : M V :=
  match producer_ with None => BuiltIn_Get built_in | Some p => Produce p end.

(** [DefaultValue<T&>]: no reference is default-constructed. *)
Definition DefaultValue_Reference_Get (address_ : option nat) : M Value :=
  match address_ with
  | None => abort "Default action undefined for the function return type."
  | Some a => ret (Reference a)
  end.
End Actions.

Arguments Done {V Fun A} a w.
Arguments Thrown {V Fun A} exception w.
Arguments Aborted {V Fun A} message w.
Arguments Undefined {V Fun A}.
Arguments OutOfFuel {V Fun A}.
