(* ===== verification/ActionsFacts.v ===== *)
(** Facts about the actions of Google Mock: performing one ends, [DoAll] performs its
    actions in order, what each action does to memory, who shares a value that is moved and
    the state of a functor, and default values. *)

From S2P Require Import Prelude Strings Actions.
From stdpp Require Import base gmap sets list strings.
From Stdlib Require Import ZArith Lia.

Create HintDb good.

(** Unfolds what an object does. *)
Ltac unfold_impl :=
  cbn [impl_Perform];
  unfold ByMove_Perform, Assign_Perform, SetErrnoAndReturn_Perform, SetArgumentPointee_Perform,
    Invoke_Perform, IgnoreResult_Perform, DoBoth_Perform, WithArgs_Perform, ActionAdaptor_Perform,
    SaveArg_Perform, SaveArgPointee_Perform, SetArgReferee_Perform, SetArrayArgument_Perform,
    DeleteArg_Perform, ReturnPointee_Perform.

Section Facts.
Context {V Fun : Type} (moved : V → V)
  (call : Fun → list (Value (V:=V)) → Memory (V:=V) → Fun * (V + Value (V:=V)) * Memory (V:=V)).

Notation World := (Actions.World (V:=V) (Fun:=Fun)).
Notation M := (Actions.M (V:=V) (Fun:=Fun)).
Notation Action := (option nat).
Notation object_Perform := (object_Perform moved call).
Notation Perform := (Perform moved call).

(** * The store of actions *)

(** The objects an object refers to. *)
Definition children (i : ActionInterface (V:=V) (Fun:=Fun)) : list nat :=
  match i with
  | IgnoreResultImpl a | WithArgsImpl _ a | ActionAdaptor a => option_list a
  | DoBothImpl a1 a2 => option_list a1 ++ option_list a2
  | _ => []
  end.

(** An object refers to older ones. *)
Definition wf (w : World) : Prop :=
  ∀ o i c, w.(objects) !! o = Some i → c ∈ children i → c < o.

(** What can become of an object while actions are performed, whatever happens to the
    memory in between. *)
Inductive becomes : ActionInterface (V:=V) (Fun:=Fun) → ActionInterface (V:=V) (Fun:=Fun) → Prop :=
  | becomes_same i : becomes i i
  | becomes_performed b x : becomes (ByMoveImpl b x) (ByMoveImpl true x)
  | becomes_called f g : becomes (InvokeWithoutArgsImpl f) (InvokeWithoutArgsImpl g).
#[local] Hint Constructors becomes : core.

Definition evolves (w w' : World) : Prop := Forall2 becomes w.(objects) w'.(objects).

#[local] Instance becomes_preorder : PreOrder becomes.
Proof. split; [intros i; constructor|]. intros i j k [] Hk; inversion Hk; subst; eauto. Qed.
#[local] Instance evolves_preorder : PreOrder evolves.
Proof.
  split; [intros w; unfold evolves; reflexivity|]. intros w1 w2 w3 H1 H2. unfold evolves in *. by etrans.
Qed.

Lemma becomes_children i j : becomes i j → children j = children i.
Proof. by intros []. Qed.

Lemma evolves_wf w w' : evolves w w' → wf w → wf w'.
Proof.
  intros He Hw o j c Hj Hc. destruct (Forall2_lookup_r _ _ _ _ _ He Hj) as (i & Hi & Hb).
  rewrite (becomes_children _ _ Hb) in Hc. by eapply Hw.
Qed.

Lemma evolves_memory (w : World) m : evolves w (mkWorld m w.(objects)).
Proof. unfold evolves. simpl. reflexivity. Qed.

Lemma evolves_object (w : World) m o i j :
  w.(objects) !! o = Some i → becomes i j → evolves w (mkWorld m (<[o := j]> w.(objects))).
Proof.
  intros Ho Hb. unfold evolves. simpl. rewrite <-(list_insert_id _ _ _ Ho) at 1.
  apply Forall2_insert; [reflexivity|done].
Qed.

(** * Computations that end and only let the actions evolve *)

Definition good_at {A} (w : World) (x : M A) : Prop :=
  match x w with
  | Done _ w' | Thrown _ w' | Aborted _ w' => evolves w w'
  | Undefined => True
  | OutOfFuel => False
  end.
Definition good {A} (x : M A) : Prop := ∀ w, good_at w x.

Lemma good_bind_at {A B} w (x : M A) (k : A → M B) :
  good_at w x → (∀ a w', x w = Done a w' → evolves w w' → good_at w' (k a)) → good_at w (bind x k).
Proof.
  unfold good_at, bind. intros Hx Hk. destruct (x w) as [a w'| | | |]; try done.
  specialize (Hk a w' eq_refl Hx). destruct (k a w'); try done; by etrans.
Qed.

Lemma good_bind {A B} (x : M A) (k : A → M B) : good x → (∀ a, good (k a)) → good (bind x k).
Proof. intros Hx Hk w. apply good_bind_at; [apply Hx|]. intros a w' _ _. apply Hk. Qed.

Lemma good_everywhere {A} w (x : M A) : good x → good_at w x.
Proof. intros Hx. apply Hx. Qed.

Lemma good_ret {A} (a : A) : good (ret a : M A).
Proof. intros w. unfold good_at. simpl. reflexivity. Qed.
Lemma good_abort {A} m : good (abort m : M A).
Proof. intros w. unfold good_at. simpl. reflexivity. Qed.
Lemma good_undefined {A} : good (undefined : M A).
Proof. done. Qed.
Lemma good_defined {A} (o : option A) : good (defined o : M A).
Proof. destruct o; [apply good_ret|apply good_undefined]. Qed.
Lemma good_set_memory f : good (set_memory f : M unit).
Proof. intros w. apply evolves_memory. Qed.
Lemma good_read p : good (read p : M V).
Proof. intros w. unfold good_at, read. destruct (_ ≫= _); [reflexivity|done]. Qed.
#[local] Hint Resolve good_bind good_ret good_abort good_undefined good_defined good_set_memory good_read : good.

Lemma good_write p v : good (write p v : M unit).
Proof. unfold write. eauto 10 with good. Qed.
Lemma good_free p : good (free p : M unit).
Proof. unfold free. eauto 10 with good. Qed.
Lemma good_invoke f args : good (invoke call f args : M _).
Proof.
  intros w. unfold good_at, invoke. destruct (call f args _) as [[g [e|v]] m]; apply evolves_memory.
Qed.
Lemma good_copy count first out : good (copy_loop count first out : M unit).
Proof.
  revert first out. induction count as [|count IH]; intros first out; simpl; eauto using good_write with good.
Qed.
Lemma good_argument args k : good (argument args k : M _).
Proof. apply good_defined. Qed.
#[local] Hint Resolve good_write good_free good_invoke good_copy good_argument : good.
Lemma good_argument_value args k : good (argument_value args k : M V).
Proof. unfold argument_value. apply good_bind; [auto with good|]. intros []; auto with good. Qed.
Lemma good_argument_pointer args k : good (argument_pointer args k : M _).
Proof. unfold argument_pointer. apply good_bind; [auto with good|]. intros []; auto with good. Qed.
Lemma good_Select ks args : good (Select ks args : M _).
Proof. induction ks; simpl; eauto with good. Qed.
#[local] Hint Resolve good_argument_value good_argument_pointer good_Select : good.

Lemma good_impl Perform o i args w :
  w.(objects) !! o = Some i →
  (∀ c args w, c ∈ children i → wf w → good_at w (Perform c args)) → wf w →
  good_at w (impl_Perform moved call Perform o i args).
Proof.
  intros Ho IH Hw.
  assert (∀ a args w, (∀ c, a = Some c → c ∈ children i) → wf w → good_at w (action_Perform Perform a args)) as IHa.
  { intros [c|] args' w' Hc Hw'; [by apply IH; auto|apply good_abort]. }
  destruct i; unfold_impl; try (apply good_everywhere; by eauto 10 with good).
  - destruct performed_; [apply good_abort|]. apply good_bind_at; [by eapply evolves_object|].
    intros _ w' _ _. apply good_everywhere. eauto 10 with good.
  - unfold good_at, invoke_member. destruct (call _ _ _) as [[g [e|v]] m]; by eapply evolves_object.
  - apply good_bind_at; [apply IHa; [intros c ->; simpl; by left|done]|].
    intros _ w' _ _. apply good_everywhere. eauto with good.
  - apply good_bind_at; [apply IHa; [intros c ->; simpl; by left|done]|].
    intros _ w' _ He. apply IHa; [intros c ->; simpl; set_solver|by eapply evolves_wf].
  - apply good_bind_at; [apply good_everywhere; eauto with good|]. intros xs w' _ He.
    apply IHa; [intros c ->; simpl; by left|by eapply evolves_wf].
  - destruct impl_ as [c|]; [|done]. apply IH; [simpl; by left|done].
  - apply good_everywhere, good_bind; [eauto with good|]. intros []; eauto 10 with good.
  - apply good_everywhere, good_bind; [eauto with good|]. intros []; eauto 10 with good.
  - unfold good_at. reflexivity.
Qed.

Lemma good_Perform fuel o args w : o < fuel → wf w → good_at w (object_Perform fuel o args).
Proof.
  revert o args w. induction fuel as [|fuel IH]; intros o args w Ho Hw; [lia|].
  cbn [Actions.object_Perform]. unfold good_at, bind, object.
  destruct (objects w !! o) as [i|] eqn:E; [|done]. fold (good_at w (impl_Perform moved call (object_Perform fuel) o i args)).
  apply good_impl; [done| |done]. intros c args' w' Hc Hw'. apply IH; [|done]. specialize (Hw o i c E Hc). lia.
Qed.
(** Performing an action ends, if objects refer to older ones, and lets the store evolve. *)
Lemma Perform_good a args w : wf w → good_at w (Perform a args).
Proof. intros Hw. destruct a as [o|]; [apply good_Perform; [lia|done]|apply good_abort]. Qed.

(** * Fuel *)

Lemma bind_ext {A B} (x x' : M A) (k k' : A → M B) w :
  x w = x' w → (∀ a w', x w = Done a w' → k a w' = k' a w') → bind x k w = bind x' k' w.
Proof. unfold bind. intros <- Hk. destruct (x w); auto. Qed.

Lemma bind_ret {A} (x : M A) w : bind x ret w = x w.
Proof. unfold bind. by destruct (x w). Qed.

(** A composite does the same with functions that do the same for the objects it has. *)
Lemma impl_ext P P' o i args w :
  (∀ c args w, c ∈ children i → wf w → P c args w = P' c args w ∧ good_at w (P c args)) → wf w →
  impl_Perform moved call P o i args w = impl_Perform moved call P' o i args w.
Proof.
  intros IH Hw.
  assert (∀ a args w, (∀ c, a = Some c → c ∈ children i) → wf w →
    action_Perform P a args w = action_Perform P' a args w ∧ good_at w (action_Perform P a args)) as IHa.
  { intros [c|] args' w' Hc Hw'; [by apply IH; auto|]. split; [done|apply good_abort]. }
  destruct i; try reflexivity; unfold_impl.
  - apply bind_ext; [|done]. apply IHa; [intros c ->; simpl; by left|done].
  - edestruct (IHa action1_) as [E G]; [intros c ->; simpl; by left|exact Hw|].
    apply bind_ext; [exact E|]. intros x w' Hx. unfold good_at in G. rewrite Hx in G.
    apply IHa; [intros c ->; simpl; set_solver|by eapply evolves_wf].
  - apply bind_ext; [done|]. intros xs w' Hx. pose proof (good_Select ks args w) as G. unfold good_at in G.
    rewrite Hx in G. apply IHa; [intros c ->; simpl; by left|by eapply evolves_wf].
  - destruct impl_ as [c|]; [|done]. apply IH; [simpl; by left|done].
Qed.

(** More fuel than the number of the object changes nothing. *)
Lemma fuel_enough o fuel args w : o < fuel → wf w → object_Perform fuel o args w = object_Perform (S o) o args w.
Proof.
  revert fuel args w. induction o as [o IH] using lt_wf_ind. intros [|fuel] args w Hf Hw; [lia|].
  cbn [Actions.object_Perform]. unfold bind, object. destruct (objects w !! o) as [i|] eqn:E; [|done].
  apply impl_ext; [|done]. intros c args' w' Hc Hw'. specialize (Hw o i c E Hc).
  rewrite (IH c Hw fuel), (IH c Hw o) by (done || lia). split; [done|].
  apply good_Perform; [lia|done].
Qed.

(** Performing an object is what its class does, with [Perform] for the objects it has. *)
Lemma Perform_object w o i args :
  wf w → w.(objects) !! o = Some i →
  Perform (Some o) args w = impl_Perform moved call (λ c, object_Perform (S c) c) o i args w.
Proof.
  intros Hw E. unfold Actions.Perform, action_Perform. cbn [Actions.object_Perform].
  unfold bind, object. rewrite E. apply impl_ext; [|done].
  intros c args' w' Hc Hw'. specialize (Hw o i c E Hc).
  rewrite (fuel_enough c o) by done. split; [done|]. by apply good_Perform.
Qed.

(** An object that keeps its class. *)
Lemma evolves_lookup w w' o i :
  evolves w w' → w.(objects) !! o = Some i → ∃ j, w'.(objects) !! o = Some j ∧ becomes i j.
Proof. intros He Ho. destruct (Forall2_lookup_l _ _ _ _ _ He Ho) as (j & ? & ?). eauto. Qed.

(** A later store: actions were performed and made, and memory changed. *)
Definition later (w w' : World) : Prop :=
  wf w' ∧ ∀ o i, w.(objects) !! o = Some i → ∃ j, w'.(objects) !! o = Some j ∧ becomes i j.

Lemma later_trans w1 w2 w3 : later w1 w2 → later w2 w3 → later w1 w3.
Proof.
  intros [_ H1] [Hw H2]. split; [done|]. intros o i Hi. destruct (H1 o i Hi) as (j & Hj & Hb).
  destruct (H2 o j Hj) as (k & Hk & Hb'). exists k. split; [done|]. by etrans.
Qed.

Lemma later_evolves w w' : wf w → evolves w w' → later w w'.
Proof. intros Hw He. split; [by eapply evolves_wf|]. intros o i. by apply evolves_lookup. Qed.

Lemma later_prefix (w w' w'' : World) new : w'.(objects) = w.(objects) ++ new → later w' w'' → later w w''.
Proof. intros E [Hw Hl]. split; [done|]. intros o i Hi. apply Hl. rewrite E. by apply lookup_app_l_Some. Qed.

Lemma Perform_later w w1 a args r w2 :
  later w w1 → Perform a args w1 = Done r w2 → later w w2.
Proof.
  intros Hl E. pose proof (Perform_good a args w1 (proj1 Hl)) as G. unfold good_at in G. rewrite E in G.
  eapply later_trans; [exact Hl|]. apply later_evolves; [apply Hl|done].
Qed.

(** * Conversions *)

(** The handles a polymorphic action holds are of objects that exist. *)
Fixpoint valid (n : nat) (p : PolymorphicAction (V:=V) (Fun:=Fun)) : Prop :=
  match p with
  | AnAction a _ => ∀ o, a = Some o → o < n
  | Polymorphic i => Forall (λ c, c < n) (children i)
  | IgnoreResult p | WithArgs _ p => valid n p
  | DoBoth p1 p2 => valid n p1 ∧ valid n p2
  | _ => True
  end.

Lemma valid_mono n n' p : n <= n' → valid n p → valid n' p.
Proof.
  intros Hn. induction p; simpl; try naive_solver.
  - intros H o Ho. specialize (H o Ho). lia.
  - intros H. eapply Forall_impl; [exact H|]. simpl. lia.
Qed.

Lemma wf_snoc m (w : World) i :
  wf w → Forall (λ c, c < length w.(objects)) (children i) → wf (mkWorld m (w.(objects) ++ [i])).
Proof.
  intros Hw Hi o j c Hj Hc. simpl in Hj. apply lookup_app_Some in Hj as [Hj|[Hlen Hj]]; [by eapply Hw|].
  apply list_lookup_singleton_Some in Hj as [Ho <-]. rewrite Forall_forall in Hi. specialize (Hi c Hc). lia.
Qed.

(** What a conversion comes to: new objects behind the others, in order, and a handle. *)
Definition converted (w : World) (r : Outcome (V:=V) (Fun:=Fun) Action) : Prop :=
  match r with
  | Done a w' => (∃ new, w'.(objects) = w.(objects) ++ new) ∧ wf w' ∧
                 Forall (λ c, c < length w'.(objects)) (option_list a)
  | _ => False
  end.

Lemma converted_make i m (w : World) :
  wf w → Forall (λ c, c < length w.(objects)) (children i) → converted w (MakeAction i (mkWorld m w.(objects))).
Proof.
  intros Hw Hi. split; [by exists [i]|]. split; [by apply wf_snoc|]. constructor; [|constructor].
  simpl. rewrite length_app. simpl. lia.
Qed.

Lemma converted_bind w x (k : Action → M Action) :
  converted w (x w) → (∀ a w', converted w (Done a w') → converted w' (k a w')) → converted w (bind x k w).
Proof.
  unfold bind. intros Hx Hk. destruct (x w) as [a w'| | | |]; try done. specialize (Hk a w' Hx).
  destruct (k a w') as [b w''| | | |]; try done. destruct Hx as ([n1 E1] & _), Hk as ([n2 E2] & Hw & Ha).
  split; [|done]. exists (n1 ++ n2). by rewrite E2, E1, app_assoc.
Qed.

(** Every conversion gives an action of a store in order, so that it can be performed. *)
Theorem to_action_converts p w :
  wf w → valid (length w.(objects)) p → converted w (to_action p w).
Proof.
  revert w. induction p as [|a same|v|x|v|i|p IH|p1 IH1 p2 IH2|ks p IH]; intros [m os] Hw Hv; simpl in Hv.
  - split; [by exists []; rewrite app_nil_r|]. split; [done|constructor].
  - destruct same; [split; [by exists []; rewrite app_nil_r|]; split; [done|]|apply (converted_make _ m (mkWorld m os)); [done|]];
      destruct a as [o|]; simpl; constructor; [by apply Hv|constructor|by apply Hv|constructor].
  - by apply (converted_make _ m (mkWorld m os)); [|constructor].
  - by apply (converted_make _ m (mkWorld m os)); [|constructor].
  - unfold to_action, bind, allocate. cbn [memory objects].
    by apply (converted_make _ _ (mkWorld m os)); [|constructor].
  - by apply (converted_make _ m (mkWorld m os)).
  - cbn [to_action]. apply converted_bind; [by apply IH|]. intros a [m' os'] (_ & Hw' & Ha).
    by apply (converted_make _ m' (mkWorld m' os')).
  - destruct Hv as [Hv1 Hv2]. cbn [to_action]. apply converted_bind; [by apply IH1|].
    intros a1 w1 ([n1 E1] & Hw1 & Ha1). apply converted_bind.
    { apply IH2; [done|]. eapply valid_mono; [|exact Hv2]. rewrite E1, length_app. simpl. lia. }
    intros a2 [m2 os2] ([n2 E2] & Hw2 & Ha2). apply (converted_make _ m2 (mkWorld m2 os2)); [done|].
    simpl. apply Forall_app. split; [|exact Ha2]. eapply Forall_impl; [exact Ha1|]. simpl in *.
    intros c Hc. rewrite E2, length_app. lia.
  - cbn [to_action]. apply converted_bind; [by apply IH|]. intros a [m' os'] (_ & Hw' & Ha).
    by apply (converted_make _ m' (mkWorld m' os')).
Qed.

(** An action made by a conversion is there at any later time, and performing it comes to an
    end. *)
Theorem converted_action_ends p w a w' args :
  wf w → valid (length w.(objects)) p → to_action p w = Done a w' →
  ∀ w'', later w' w'' → Perform a args w'' ≠ OutOfFuel ∧ (a ≠ None → ∃ o i, a = Some o ∧ w''.(objects) !! o = Some i).
Proof.
  intros Hw Hv E w'' [Hw'' Hl]. pose proof (to_action_converts p w Hw Hv) as Hc. rewrite E in Hc.
  destruct Hc as (_ & Hw' & Ha). split.
  - pose proof (Perform_good a args w'' Hw'') as G. unfold good_at in G. by intros Ho; rewrite Ho in G.
  - destruct a as [o|]; [|done]. intros _. apply Forall_cons in Ha as [Ho _].
    apply lookup_lt_is_Some_2 in Ho as [i Hi]. destruct (Hl o i Hi) as (j & Hj & _). eauto.
Qed.

(** * [DoAll] *)

(** All conversions of a list, one after the other. *)
Fixpoint to_actions (ps : list (PolymorphicAction (V:=V) (Fun:=Fun))) : M (list Action) :=
  match ps with
  | [] => ret []
  | p :: ps => bind (to_action p) (λ a, bind (to_actions ps) (λ l, ret (a :: l)))
  end.

(** All actions in order; the result is that of the last. *)
Fixpoint perform_all (a : Action) (rest : list Action) (args : list (Value (V:=V))) : M (Value (V:=V)) :=
  match rest with
  | [] => Perform a args
  | b :: rest => bind (Perform a args) (λ _, perform_all b rest args)
  end.

Lemma bind_done {A B} (x : M A) (k : A → M B) w b w' :
  bind x k w = Done b w' → ∃ a w1, x w = Done a w1 ∧ k a w1 = Done b w'.
Proof. unfold bind. destruct (x w) as [a w1| | | |]; try done. eauto. Qed.

Lemma Perform_DoBoth w o a1 a2 args :
  wf w → w.(objects) !! o = Some (DoBothImpl a1 a2) →
  Perform (Some o) args w = bind (Perform a1 args) (λ _, Perform a2 args) w.
Proof. intros Hw E. by rewrite (Perform_object w o _ args Hw E). Qed.

(** [DoAll] of some actions, converted, does all of them in order every time it is
    performed: it stops where one throws or fails, and its result is that of the last. *)
Theorem DoAll_performs_all p ps w a w' :
  wf w → Forall (valid (length w.(objects))) (p :: ps) → to_action (DoAll p ps) w = Done a w' →
  ∃ b rest w1, to_actions (p :: ps) w = Done (b :: rest) w1 ∧
    ∀ w'' args, later w' w'' → Perform a args w'' = perform_all b rest args w''.
Proof.
  revert p w a w'. induction ps as [|q ps IH]; intros p w a w' Hw Hv E.
  { exists a, [], w'. split; [|done]. cbn in *. unfold bind. by rewrite E. }
  apply Forall_cons in Hv as [Hp Hq]. cbn [DoAll to_action] in E.
  apply bind_done in E as (a1 & w1 & E1 & E). apply bind_done in E as (a2 & w2 & E2 & E).
  pose proof (to_action_converts p w Hw Hp) as C1. rewrite E1 in C1. destruct C1 as ([n1 O1] & Hw1 & _).
  assert (Forall (valid (length w1.(objects))) (q :: ps)) as Hq1.
  { eapply Forall_impl; [exact Hq|]. intros r. apply valid_mono. rewrite O1, length_app. lia. }
  destruct (IH q w1 a2 w2 Hw1 Hq1 E2) as (b & rest & w3 & E3 & Hperf).
  exists a1, (b :: rest), w3. split.
  { cbn [to_actions]. unfold bind at 1. rewrite E1. unfold bind at 1. cbn [to_actions] in E3. by rewrite E3. }
  unfold MakeAction in E. injection E as <- <-. intros w'' args Hl.
  assert (later w2 w'') as Hl2 by (eapply later_prefix; [|exact Hl]; done).
  destruct (proj2 Hl (length w2.(objects)) (DoBothImpl a1 a2)) as (j & Hj & Hb).
  { simpl. rewrite lookup_app_r, Nat.sub_diag by lia. done. }
  inversion Hb; subst. rewrite (Perform_DoBoth _ _ a1 a2 args (proj1 Hl) Hj). cbn [perform_all].
  apply bind_ext; [done|]. intros x w4 E4. apply Hperf. by eapply Perform_later.
Qed.

(** * What is returned *)

Ltac step := unfold write; unfold bind, ret, read, set_memory, set_object, MakeAction, allocate, defined;
  cbn [memory objects cells errno mbind option_bind fmap option_map].

(** [Return(x)] returns the value it was given, whatever happened in between; the value is
    not looked up again. *)
Theorem Return_is_fixed v w a w' :
  to_action (Return v) w = Done a w' →
  ∀ w'' args, later w' w'' → Perform a args w'' = Done (Val v) w''.
Proof.
  intros [= <- <-] w'' args Hl.
  destruct (proj2 Hl (length w.(objects)) (ReturnImpl v)) as (j & Hj & Hb).
  { simpl. by rewrite lookup_app_r, Nat.sub_diag by lia. }
  inversion Hb; subst. by rewrite (Perform_object _ _ _ args (proj1 Hl) Hj).
Qed.

(** Each conversion of [ReturnRefOfCopy(x)] has a copy of its own: the references that two
    of them return are of different objects, both with the value. *)
Theorem ReturnRefOfCopy_copies v w a1 w1 a2 w2 :
  to_action (ReturnRefOfCopy v) w = Done a1 w1 → to_action (ReturnRefOfCopy v) w1 = Done a2 w2 →
  wf w →
  ∃ x1 x2, x1 ≠ x2 ∧ w2.(memory).(cells) !! x1 = Some v ∧ w2.(memory).(cells) !! x2 = Some v ∧
    ∀ w'' args, later w2 w'' →
      Perform a1 args w'' = Done (Reference x1) w'' ∧ Perform a2 args w'' = Done (Reference x2) w''.
Proof.
  intros E1 E2 Hw. cbn in E1, E2. unfold bind, allocate, MakeAction in E1, E2. cbn in E1, E2.
  injection E1 as <- <-. injection E2 as <- <-. cbn [memory objects cells].
  set (x1 := fresh (dom (cells (memory w)))). set (m1 := <[x1:=v]> (cells (memory w))).
  set (x2 := fresh (dom m1)).
  assert (x2 ∉ dom m1) as Hf by apply is_fresh.
  assert (x1 ≠ x2) as Hne by (unfold m1 in Hf; rewrite dom_insert in Hf; set_solver).
  exists x1, x2. split; [done|]. split; [rewrite lookup_insert_ne by done; apply lookup_insert_eq|].
  split; [apply lookup_insert_eq|].
  intros w'' args Hl. split.
  - destruct (proj2 Hl (length w.(objects)) (ReturnRefOfCopyImpl x1)) as (j & Hj & Hb).
    { simpl. rewrite <-app_assoc, lookup_app_r, Nat.sub_diag by lia. done. }
    inversion Hb; subst. by rewrite (Perform_object _ _ _ args (proj1 Hl) Hj).
  - destruct (proj2 Hl (length (w.(objects) ++ [ReturnRefOfCopyImpl x1])) (ReturnRefOfCopyImpl x2)) as (j & Hj & Hb).
    { simpl. rewrite lookup_app_r, Nat.sub_diag by lia. done. }
    inversion Hb; subst. by rewrite (Perform_object _ _ _ args (proj1 Hl) Hj).
Qed.
(** * [ByMove] *)

Lemma Perform_ByMove w o b x args :
  wf w → w.(objects) !! o = Some (ByMoveImpl b x) →
  Perform (Some o) args w =
  if b : bool then Aborted by_move_message w
  else match w.(memory).(cells) !! x with
       | None => Undefined
       | Some v => Done (Val v)
           (mkWorld (mkMemory (<[x := moved v]> w.(memory).(cells)) w.(memory).(errno))
                    (<[o := ByMoveImpl true x]> w.(objects)))
       end.
Proof.
  intros Hw E. rewrite (Perform_object _ _ _ args Hw E). unfold_impl. destruct b; [done|].
  destruct (cells (memory w) !! x) as [v|] eqn:Ex; step; cbn; rewrite Ex; [|done].
  cbn [memory]. by rewrite Ex.
Qed.

(** An action [Return(ByMove(x))] gives [x] once: any copy of it aborts when it is performed
    at a later time. *)
Theorem ByMove_once x w p w0 a w1 :
  wf w → Return_ByMove x w = Done p w0 → to_action p w0 = Done a w1 →
  ∃ w2, (∀ args, Perform a args w1 = Done (Val x) w2) ∧
    ∀ w3 args, later w2 w3 → Perform a args w3 = Aborted by_move_message w3.
Proof.
  intros Hw E0 E1. cbn in E0. unfold Return_ByMove, bind, allocate, ret in E0. injection E0 as <- <-.
  cbn in E1. unfold MakeAction in E1. injection E1 as <- <-. cbn [memory objects cells errno].
  set (y := fresh _). set (w1 := mkWorld _ _).
  assert (wf w1) as Hw1 by (apply wf_snoc; [done|constructor]).
  assert (objects w1 !! length w.(objects) = Some (ByMoveImpl false y)) as Ho.
  { simpl. by rewrite lookup_app_r, Nat.sub_diag by lia. }
  eexists. split; [intros args; rewrite (Perform_ByMove _ _ _ _ _ Hw1 Ho); simpl; rewrite lookup_insert_eq; done|].
  intros w3 args Hl. edestruct (proj2 Hl (length w.(objects)) (ByMoveImpl true y)) as (j & Hj & Hb).
  { simpl. rewrite list_lookup_insert_eq; [done|]. rewrite length_app. simpl. lia. }
  inversion Hb; subst; by rewrite (Perform_ByMove _ _ _ _ _ (proj1 Hl) Hj).
Qed.

(** The check is made by each action made from [Return(ByMove(x))], while the value is one
    of all of them: of two actions the first that is performed gives [x], and the second
    gives what is left of it, unnoticed. *)
Theorem ByMove_of_two_actions x w p w0 a1 w1 a2 w2 :
  wf w → Return_ByMove x w = Done p w0 → to_action p w0 = Done a1 w1 → to_action p w1 = Done a2 w2 →
  ∀ args, ∃ w3 w4, Perform a1 args w2 = Done (Val x) w3 ∧ Perform a2 args w3 = Done (Val (moved x)) w4.
Proof.
  intros Hw E0 E1 E2 args. cbn in E0. unfold Return_ByMove, bind, allocate, ret in E0. injection E0 as <- <-.
  cbn in E1. unfold MakeAction in E1. injection E1 as <- <-. cbn in E2. unfold MakeAction in E2. injection E2 as <- <-.
  cbn [memory objects cells errno]. set (y := fresh _). set (w2 := mkWorld _ _).
  assert (wf w2) as Hw2.
  { apply (wf_snoc _ (mkWorld (memory w) (w.(objects) ++ [ByMoveImpl false y]))); [|constructor].
    apply wf_snoc; [done|constructor]. }
  set (n := length w.(objects)).
  assert (objects w2 !! n = Some (ByMoveImpl false y)) as Ho1.
  { simpl. unfold n. rewrite <-app_assoc. by rewrite lookup_app_r, Nat.sub_diag by lia. }
  assert (length (w.(objects) ++ [ByMoveImpl (V:=V) (Fun:=Fun) false y]) = S n) as ->
    by (rewrite length_app; simpl; unfold n; lia).
  assert (objects w2 !! S n = Some (ByMoveImpl false y)) as Ho2.
  { simpl. rewrite lookup_app_r by (rewrite length_app; simpl; unfold n; lia).
    rewrite length_app. simpl. by replace (S n - (length (objects w) + 1)) with 0 by (unfold n; lia). }
  pose proof (Perform_ByMove _ _ _ _ args Hw2 Ho1) as P1. cbn [memory cells w2] in P1. fold w2 in P1.
  rewrite lookup_insert_eq in P1. set (w3 := mkWorld (mkMemory _ _) (<[n:=_]> _)) in P1.
  assert (wf w3) as Hw3.
  { apply (evolves_wf w2); [|done]. by apply (evolves_object w2 _ _ _ _ Ho1), becomes_performed. }
  assert (objects w3 !! S n = Some (ByMoveImpl false y)) as Ho3 by (simpl; rewrite list_lookup_insert_ne by lia; exact Ho2).
  exists w3. pose proof (Perform_ByMove _ _ _ _ args Hw3 Ho3) as P2. cbn [memory cells w3] in P2. fold w3 in P2.
  rewrite lookup_insert_eq in P2. eexists. split; [exact P1|exact P2].
Qed.

(** * [DoDefault] inside other actions *)

Lemma Perform_made i w a w' args :
  wf w' → MakeAction i w = Done a w' →
  Perform a args w' = impl_Perform moved call (λ c, object_Perform (S c) c) (length w.(objects)) i args w'.
Proof.
  intros Hw [= <- <-]. apply Perform_object; [done|]. simpl. by rewrite lookup_app_r, Nat.sub_diag by lia.
Qed.

Lemma Select_ok ks args w : Forall (λ k, k < length args) ks → ∃ xs, Select ks args (w : World) = Done xs w.
Proof.
  induction 1 as [|k ks Hk _ [xs IH]]; simpl; [by eexists|]. unfold argument.
  destruct (lookup_lt_is_Some_2 _ _ Hk) as [x ->]. unfold bind, defined, ret. rewrite IH. by eexists.
Qed.

(** [DoDefault()] in [DoAll], [WithArgs] or [IgnoreResult] aborts with the message that says
    so, before anything after it is done. *)
Theorem DoDefault_in_composite_aborts q ks args w a w' :
  wf w → valid (length w.(objects)) q → Forall (λ k, k < length args) ks →
  to_action (DoBoth DoDefault q) w = Done a w' ∨ to_action (IgnoreResult DoDefault) w = Done a w' ∨
  to_action (WithArgs ks DoDefault) w = Done a w' →
  Perform a args w' = Aborted do_default_message w'.
Proof.
  intros Hw Hv Hks E.
  assert (wf w') as Hw'.
  { destruct E as [E|[E|E]];
      [pose proof (to_action_converts (DoBoth DoDefault q) w Hw) as C
      |pose proof (to_action_converts (IgnoreResult DoDefault) w Hw) as C
      |pose proof (to_action_converts (WithArgs ks DoDefault) w Hw) as C];
      rewrite E in C; by apply C. }
  destruct E as [E|[E|E]]; cbn [to_action] in E.
  - apply bind_done in E as (a1 & w1 & [= <- <-] & E). apply bind_done in E as (a2 & w2 & _ & E).
    by rewrite (Perform_made _ _ _ _ args Hw' E).
  - apply bind_done in E as (a1 & w1 & [= <- <-] & E). by rewrite (Perform_made _ _ _ _ args Hw' E).
  - apply bind_done in E as (a1 & w1 & [= <- <-] & E). rewrite (Perform_made _ _ _ _ args Hw' E).
    unfold_impl. unfold bind. destruct (Select_ok ks args w' Hks) as [xs ->]. done.
Qed.

(** An action that is [DoDefault()], converted to another type, no longer is: performing it
    follows a null pointer instead. *)
Theorem converted_DoDefault_is_lost w a w' :
  wf w → to_action (AnAction None false) w = Done a w' →
  IsDoDefault a = false ∧ ∀ w'' args, later w' w'' → Perform a args w'' = Undefined.
Proof.
  intros Hw [= <- <-]. split; [done|]. intros w'' args Hl.
  destruct (proj2 Hl (length w.(objects)) (ActionAdaptor None)) as (j & Hj & Hb).
  { simpl. by rewrite lookup_app_r, Nat.sub_diag by lia. }
  inversion Hb; subst. by rewrite (Perform_object _ _ _ args (proj1 Hl) Hj).
Qed.

(** * Functors *)

(** Calls of a functor by the same action, one after the other: the results. *)
Fixpoint calls (a : Action) (argss : list (list (Value (V:=V)))) : M (list (Value (V:=V))) :=
  match argss with
  | [] => ret []
  | args :: argss => bind (Perform a args) (λ v, bind (calls a argss) (λ vs, ret (v :: vs)))
  end.

(** What a functor returns to calls in a row, each in the state [keep] chooses of the one it
    was called in and the one it was left in; [None] where one throws. *)
Fixpoint functor_runs (keep : Fun → Fun → Fun) (f : Fun) (argss : list (list (Value (V:=V))))
    (m : Memory (V:=V)) : option (list (Value (V:=V))) :=
  match argss with
  | [] => Some []
  | args :: argss =>
      let '(g, r, m) := call f args m in
      match r with
      | inl _ => None
      | inr v => cons v <$> functor_runs keep (keep f g) argss m
      end
  end.

Definition results {A} (r : Outcome (V:=V) (Fun:=Fun) A) : option A :=
  match r with Done a _ => Some a | _ => None end.

(** [InvokeWithoutArgs(f)] calls the functor it has, so that [f] remembers the calls before;
    [Invoke(f)] hands a copy of it to every call, so that each call is of [f] as it was
    given. *)
Theorem functors_of_actions f w a1 w1 a2 w2 argss :
  wf w → MakeAction (InvokeWithoutArgsImpl f) w = Done a1 w1 → MakeAction (InvokeImpl f) w = Done a2 w2 →
  results (calls a1 argss w1) = functor_runs (λ _ g, g) f ((λ _, []) <$> argss) w.(memory) ∧
  results (calls a2 argss w2) = functor_runs (λ f _, f) f argss w.(memory).
Proof.
  intros Hw [= <- <-] [= <- <-]. set (o := length w.(objects)). split.
  - assert (∀ f w, wf w → w.(objects) !! o = Some (InvokeWithoutArgsImpl f) →
      results (calls (Some o) argss w) = functor_runs (λ _ g, g) f ((λ _, []) <$> argss) w.(memory)) as H.
    { clear Hw. clearbody o. clear w f. induction argss as [|args argss IH]; intros f w Hw Ho; [done|].
      cbn [calls functor_runs fmap list_fmap]. unfold bind at 1. rewrite (Perform_object _ _ _ args Hw Ho).
      unfold_impl. unfold invoke_member. destruct (call f [] (memory w)) as [[g [e|v]] m]; [done|].
      set (w1 := mkWorld m _).
      specialize (IH g w1). unfold bind. cbn [memory w1] in IH. rewrite <-IH.
      - by destruct (calls (Some o) argss w1).
      - eapply evolves_wf; [|exact Hw]. by apply (evolves_object w m _ _ _ Ho).
      - simpl. apply list_lookup_insert_eq. by eapply lookup_lt_Some. }
    apply (H f (mkWorld w.(memory) _)); [apply wf_snoc; [done|constructor]|].
    simpl. unfold o. by rewrite lookup_app_r, Nat.sub_diag by lia.
  - assert (∀ w, wf w → w.(objects) !! o = Some (InvokeImpl f) →
      results (calls (Some o) argss w) = functor_runs (λ f _, f) f argss w.(memory)) as H.
    { clear Hw. clearbody o. clear w. induction argss as [|args argss IH]; intros w Hw Ho; [done|].
      cbn [calls functor_runs fmap list_fmap]. unfold bind at 1. rewrite (Perform_object _ _ _ args Hw Ho).
      unfold_impl. unfold bind at 1, invoke. destruct (call f args (memory w)) as [[g [e|v]] m]; [done|].
      cbn [snd]. unfold bind, ret. specialize (IH (mkWorld m w.(objects)) Hw Ho). cbn [memory] in IH. rewrite <-IH.
      by destruct (calls (Some o) argss _). }
    apply (H (mkWorld w.(memory) _)); [apply wf_snoc; [done|constructor]|].
    simpl. unfold o. by rewrite lookup_app_r, Nat.sub_diag by lia.
Qed.

(** * Arguments *)

Definition cell (w : World) (a : nat) : option V := w.(memory).(cells) !! a.

Lemma write_cell (w : World) p v :
  write p v w = match p ≫= cell w with
    | Some _ => Done tt (mkWorld (mkMemory (<[default 0 p := v]> w.(memory).(cells)) w.(memory).(errno)) w.(objects))
    | None => Undefined
    end.
Proof. destruct p as [a|]; [|done]. unfold cell. step. by destruct (cells (memory w) !! a). Qed.

(** [std::copy] is right where it is defined: both ranges exist, and the output does not
    begin inside the input. *)
Lemma array_copies count first out (w : World) :
  (∀ i, i < count → is_Some (cell w (first + i)) ∧ is_Some (cell w (out + i))) →
  out <= first ∨ first + count <= out →
  ∃ w', copy_loop count first out w = Done tt w' ∧ w'.(objects) = w.(objects) ∧
    ∀ a, cell w' a = if decide (out <= a < out + count) then cell w (first + (a - out)) else cell w a.
Proof.
  revert first out w. induction count as [|count IH]; intros first out w Hr Hd.
  { exists w. split; [done|]. split; [done|]. intros a. rewrite decide_False by lia. done. }
  destruct (Hr 0 ltac:(lia)) as [[v Hv] [u Hu]]. rewrite Nat.add_0_r in Hv, Hu.
  cbn [copy_loop]. unfold bind at 1. unfold read at 1. cbn [mbind option_bind]. unfold cell in Hv. rewrite Hv.
  unfold bind at 1. rewrite write_cell. cbn [mbind option_bind]. rewrite Hu. cbn [default].
  set (w1 := mkWorld _ _).
  assert (∀ a, cell w1 a = if decide (a = out) then Some v else cell w a) as Hc.
  { intros a. unfold cell, w1. cbn. destruct (decide (a = out)) as [->|]; [apply lookup_insert_eq|].
    by apply lookup_insert_ne. }
  destruct (IH (S first) (S out) w1) as (w' & E & Ho & Hw').
  - intros i Hi. rewrite !Hc. destruct (Hr (S i) ltac:(lia)) as [H1 H2].
    rewrite Nat.add_succ_r in H1, H2. split; destruct (decide _); eauto.
  - lia.
  - exists w'. split; [exact E|]. split; [exact Ho|]. intros a. rewrite Hw', !Hc.
    destruct (decide (S out <= a < S out + count)).
    + rewrite decide_False by lia. rewrite decide_True by lia. f_equal. lia.
    + destruct (decide (a = out)) as [->|].
      * rewrite decide_True by lia. rewrite Nat.sub_diag, Nat.add_0_r. by symmetry.
      * rewrite decide_False by lia. done.
Qed.

(** [SetArrayArgument<k>(first, last)] copies the range to where its argument points, and
    nothing else in memory changes. *)
Theorem SetArrayArgument_copies k first count out args w a w' :
  wf w → MakeAction (SetArrayArgumentImpl k first count) w = Done a w' →
  args !! k = Some (Pointer (Some out)) →
  (∀ i, i < count → is_Some (cell w' (first + i)) ∧ is_Some (cell w' (out + i))) →
  out <= first ∨ first + count <= out →
  ∃ w'', Perform a args w' = Done Void w'' ∧
    ∀ x, cell w'' x = if decide (out <= x < out + count) then cell w' (first + (x - out)) else cell w' x.
Proof.
  intros Hw E Hk Hr Hd. assert (wf w') as Hw' by (injection E as <- <-; by apply wf_snoc; [|constructor]).
  rewrite (Perform_made _ _ _ _ args Hw' E). unfold_impl. unfold argument_pointer, argument.
  rewrite Hk. destruct (array_copies count first out w' Hr Hd) as (w'' & Ec & _ & Hc).
  exists w''. split; [|exact Hc]. unfold bind, defined, ret. by rewrite Ec.
Qed.

(** [SetArgPointee<n>(v)] changes the object its argument points to and returns; through a
    null pointer or one to no object it is undefined. *)
Theorem SetArgPointee_writes n v p args w a w' :
  wf w → MakeAction (SetArgumentPointeeImpl n v) w = Done a w' → args !! n = Some (Pointer p) →
  match p ≫= cell w' with
  | None => Perform a args w' = Undefined
  | Some _ => ∃ w'', Perform a args w' = Done Void w'' ∧
      ∀ x, cell w'' x = if decide (p = Some x) then Some v else cell w' x
  end.
Proof.
  intros Hw E Hn. assert (wf w') as Hw' by (injection E as <- <-; by apply wf_snoc; [|constructor]).
  rewrite (Perform_made _ _ _ _ args Hw' E). unfold_impl. unfold argument_pointer, argument.
  assert (bind (bind (defined (args !! n)) (λ x, match x with Pointer p => ret p | _ => undefined end))
            (λ p, bind (write p v) (λ _, ret Void)) w' = bind (write p v) (λ _, ret Void) w') as -> by (by rewrite Hn).
  unfold bind. rewrite write_cell.
  destruct (p ≫= cell w') as [u|] eqn:Ep; [|done]. eexists. split; [done|].
  intros x. unfold cell. cbn. destruct p as [b|]; [|done]. cbn [default]. destruct (decide (Some b = Some x)) as [[= ->]|Hne].
  - apply lookup_insert_eq.
  - apply lookup_insert_ne. simpl. intros ->. by apply Hne.
Qed.

(** * Default values *)

(** [DefaultValue<T>::Get] gives the value that was set last, or what the factory makes, or
    the built-in one; it aborts exactly where [Exists] is false. *)
Theorem DefaultValue_Get built_in producer v factory (w : World) :
  DefaultValue_Get built_in (DefaultValue_Set v) w = Done v w ∧
  DefaultValue_Get built_in (DefaultValue_SetFactory factory) w =
    Done (factory w.(memory)).1 (mkWorld (factory w.(memory)).2 w.(objects)) ∧
  DefaultValue_Get built_in DefaultValue_Clear w = BuiltIn_Get built_in w ∧
  (DefaultValue_Exists built_in producer = false ↔ ∃ m, DefaultValue_Get built_in producer w = Aborted m w).
Proof.
  split; [done|]. split; [by cbn; destruct (factory _)|]. split; [done|].
  destruct producer as [[x|fac]|]; cbn.
  - split; [done|by intros [m ?]].
  - split; [done|]. intros [m H]. by destruct (fac _).
  - destruct built_in as [x|]; cbn; [split; [done|by intros [m ?]]|]. split; [by eexists|done].
Qed.
End Facts.

(** * Examples *)

Module Example_actions.

(** A functor that counts its calls: it returns the count. *)
Definition counter (f : Z) (args : list (Value (V:=Z))) (m : Memory (V:=Z)) :
    Z * (Z + Value (V:=Z)) * Memory (V:=Z) := ((f + 1)%Z, inr (Val f), m).

Definition start : World (V:=Z) (Fun:=Z) := mkWorld (mkMemory {[ 0 := 7%Z ]} 0) [].

Lemma start_wf : wf start.
Proof. intros o i c H. done. Qed.

(** [DoAll(SetArgPointee<0>(5), Return(1))]. *)
Definition set_and_return : PolymorphicAction (V:=Z) (Fun:=Z) :=
  DoAll (Polymorphic (SetArgumentPointeeImpl 0 5%Z)) [Return 1%Z].

Lemma DoAll_performs_all_witness :
  ∃ a w', to_action set_and_return start = Done a w' ∧
  (∃ b rest w1,
    to_actions [Polymorphic (SetArgumentPointeeImpl 0 5%Z); Return 1%Z] start = Done (b :: rest) w1 ∧
    ∀ w'' args, later w' w'' →
      Perform (λ v, v) counter a args w'' = perform_all (λ v, v) counter b rest args w'').
Proof.
  eexists _, _. split; [reflexivity|].
  apply (DoAll_performs_all (λ v, v) counter (Polymorphic (SetArgumentPointeeImpl 0 5%Z)) [Return 1%Z] start).
  - exact start_wf.
  - repeat constructor.
  - reflexivity.
Defined.

(** [Invoke] of the counter counts to 0 only, [InvokeWithoutArgs] counts on. *)
Example counters :
  functor_runs counter (λ _ g, g) 0%Z [[]; []; []] (memory start) = Some [Val 0%Z; Val 1%Z; Val 2%Z] ∧
  functor_runs counter (λ f _, f) 0%Z [[]; []; []] (memory start) = Some [Val 0%Z; Val 0%Z; Val 0%Z].
Proof. done. Qed.

End Example_actions.
