(* ===== verification/MockFlags.v ===== *)
(** The flags of Google Mock and its initialisation ([src/lib/googlemock/src/gmock.cc]), over
    the flags of Google Test. *)

From S2P Require Import Prelude Strings Flags FlagsFacts.
From stdpp Require Import base gmap list strings.
From Stdlib Require Import ZArith Ascii Lia.

(** * State *)

Record MockFlags := mkMockFlags { catch_leaked_mocks : bool; verbose : string }.
Definition kWarningVerbosity : string := "warning".
Definition default_mock_flags : MockFlags := mkMockFlags true kWarningVerbosity.

(** * Parsing a flag *)

Definition ParseGoogleMockFlagValue (str flag : string) (def_optional : bool) : option string :=
  match SkipPrefix ("--gmock_" +:+ flag) str with
  | None => None
  | Some flag_end =>
      if def_optional && bool_decide (flag_end = "") then Some flag_end
      else match flag_end with
           | String c value => if decide (c = "="%char) then Some value else None
           | EmptyString => None
           end
  end.

Definition ParseGoogleMockBoolFlag (str flag : string) : option bool :=
  value_str ← ParseGoogleMockFlagValue str flag true;
  Some (match value_str with
        | String c _ => negb (bool_decide (c = "0"%char) || bool_decide (c = "f"%char)
                              || bool_decide (c = "F"%char))
        | EmptyString => true
        end).

Definition ParseGoogleMockStringFlag (str flag : string) : option string :=
  ParseGoogleMockFlagValue str flag false.

(** Whether an argument is a flag of Google Mock, and the flags afterwards. *)
Definition parse_mock_flag (arg : string) (m : MockFlags) : option MockFlags :=
  match ParseGoogleMockBoolFlag arg "catch_leaked_mocks" with
  | Some b => Some (mkMockFlags b m.(verbose))
  | None =>
      match ParseGoogleMockStringFlag arg "verbose" with
      | Some v => Some (mkMockFlags m.(catch_leaked_mocks) v)
      | None => None
      end
  end.

(** * Initialisation *)

(** The loop over the arguments; every round passes one or removes one.  A null pointer is
    printed as [(null)]. *)
Fixpoint mock_flags_loop (fuel : nat) (i argc : nat) (argv : list (option string)) (m : MockFlags)
    : option (nat * list (option string) * MockFlags) :=
  match fuel with
  | O => Some (argc, argv, m)
  | S fuel =>
      if (i =? argc)%nat then Some (argc, argv, m)
      else
        arg ← default "(null)" <$> argv !! i;
        match parse_mock_flag arg m with
        | Some m => mock_flags_loop fuel i (argc - 1) (shift_loop (argc - i) i argv) m
        | None => mock_flags_loop fuel (S i) argc argv m
        end
  end.

(** [InitGoogleTest], which does nothing when it is called again. *)
Definition InitGoogleTest (files : Files) (initialized : bool) (argc : nat) (argv : list (option string))
    (s : State) : option (nat * list (option string) * State) :=
  if initialized || (argc =? 0)%nat then Some (argc, argv, s)
  else ParseGoogleTestFlagsOnly files argc argv s.

Definition InitGoogleMockImpl (files : Files) (initialized : bool) (argc : nat)
    (argv : list (option string)) (s : State) (m : MockFlags)
    : option (nat * list (option string) * State * MockFlags) :=
  '(argc, argv, s) ← InitGoogleTest files initialized argc argv s;
  if (argc =? 0)%nat then Some (argc, argv, s, m)
  else '(argc, argv, m) ← mock_flags_loop argc 1 argc argv m; Some (argc, argv, s, m).

(** * Facts *)

(** What is to be made of the arguments: those that stay, and the flags. *)
Fixpoint read_mock_arguments (args : list string) (m : MockFlags) : list string * MockFlags :=
  match args with
  | [] => ([], m)
  | arg :: args =>
      match parse_mock_flag arg m with
      | Some m => read_mock_arguments args m
      | None => let '(kept, m) := read_mock_arguments args m in (arg :: kept, m)
      end
  end.

Lemma mock_flags_loop_spec fuel pre args rest m :
  length args <= fuel →
  let '(kept, m') := read_mock_arguments args m in
  ∃ rest', mock_flags_loop fuel (length pre) (length pre + length args)
             ((Some <$> pre ++ args) ++ None :: rest) m =
           Some (length pre + length kept, (Some <$> pre ++ kept) ++ None :: rest', m').
Proof.
  revert pre args rest m. induction fuel as [|fuel IH]; intros pre args rest m Hf.
  { destruct args as [|a args]; [|simpl in Hf; lia]. simpl. by exists rest. }
  cbn [mock_flags_loop]. destruct args as [|a args].
  { cbn. rewrite Nat.add_0_r, Nat.eqb_refl. by exists rest. }
  rewrite (proj2 (Nat.eqb_neq _ _)) by (simpl; lia).
  rewrite argument_lookup.
  cbn [read_mock_arguments default]. simpl. destruct (parse_mock_flag a m) as [m1|].
  - rewrite shift_removes. replace (length pre + S (length args) - 1) with (length pre + length args) by lia.
    apply IH. simpl in Hf. lia.
  - specialize (IH (pre ++ [a]) args rest m). rewrite length_app, <-!app_assoc in IH. cbn [length app] in IH.
    replace (length pre + 1) with (S (length pre)) in IH by lia.
    replace (S (length pre) + length args) with (length pre + S (length args)) in IH by lia.
    destruct (read_mock_arguments args m) as [kept m']. simpl in *.
    destruct IH as [rest' IH]; [lia|]. exists rest'. rewrite IH, <-!app_assoc. cbn [app].
    repeat f_equal. lia.
Qed.

(** [InitGoogleMock] leaves the name of the program and the arguments that are neither flags
    of Google Test nor of Google Mock, in their order, counted and ended by a null pointer;
    the flags are those of the arguments read one by one. *)
Theorem InitGoogleMock_filters files prog args s m :
  match read_arguments files args s with
  | None =>
      InitGoogleMockImpl files false (S (length args)) ((Some <$> prog :: args) ++ [None]) s m = None
  | Some (kept, s') =>
      let '(kept', m') := read_mock_arguments kept m in
      ∃ rest, InitGoogleMockImpl files false (S (length args)) ((Some <$> prog :: args) ++ [None]) s m =
        Some (S (length kept'), (Some <$> prog :: kept') ++ None :: rest, s', m')
  end.
Proof.
  unfold InitGoogleMockImpl, InitGoogleTest, ParseGoogleTestFlagsOnly. cbn [orb Nat.eqb].
  pose proof (flags_loop_spec files (S (length args)) [prog] args [] s ltac:(lia)) as Ht. cbn [length app Nat.add] in Ht.
  destruct (read_arguments files args s) as [[kept s']|]; [|by rewrite Ht].
  destruct Ht as [rest Ht]. rewrite Ht. cbn [mbind option_bind].
  pose proof (mock_flags_loop_spec (1 + length kept) [prog] kept rest m ltac:(lia)) as Hm.
  destruct (read_mock_arguments kept m) as [kept' m']. destruct Hm as [rest' Hm]. exists rest'.
  cbn [length app Nat.add Nat.eqb] in *. by rewrite Hm.
Qed.

Lemma parse_mock_flag_None arg m m' : parse_mock_flag arg m = None → parse_mock_flag arg m' = None.
Proof.
  unfold parse_mock_flag. destruct (ParseGoogleMockBoolFlag _ _); [done|].
  by destruct (ParseGoogleMockStringFlag _ _).
Qed.

Lemma read_mock_arguments_kept args m :
  Forall (λ a, ∀ m', parse_mock_flag a m' = None) (read_mock_arguments args m).1.
Proof.
  revert m. induction args as [|a args IH]; intros m; simpl; [constructor|].
  destruct (parse_mock_flag a m) as [m1|] eqn:E; [apply IH|].
  specialize (IH m). destruct (read_mock_arguments args m) as [kept m']. constructor; [|done].
  intros m2. by eapply parse_mock_flag_None.
Qed.

Lemma read_mock_arguments_none args m :
  Forall (λ a, ∀ m', parse_mock_flag a m' = None) args → read_mock_arguments args m = (args, m).
Proof. induction 1 as [|a args Ha _ IH]; simpl; [done|]. by rewrite Ha, IH. Qed.

(** [InitGoogleMock] that is called again changes nothing. *)
Theorem InitGoogleMock_idempotent files prog args rest s m m0 :
  let kept := (read_mock_arguments args m0).1 in
  ∃ rest', InitGoogleMockImpl files true (S (length kept)) ((Some <$> prog :: kept) ++ None :: rest) s m =
    Some (S (length kept), (Some <$> prog :: kept) ++ None :: rest', s, m).
Proof.
  intros kept. unfold InitGoogleMockImpl, InitGoogleTest. cbn [orb mbind option_bind Nat.eqb].
  pose proof (mock_flags_loop_spec (1 + length kept) [prog] kept rest m ltac:(lia)) as Hm.
  rewrite (read_mock_arguments_none kept) in Hm by apply read_mock_arguments_kept.
  destruct Hm as [rest' Hm]. exists rest'. cbn [length app Nat.add] in *. by rewrite Hm.
Qed.

(** A flag is read back from the argument that sets it. *)
Theorem mock_flags_read_back b v m :
  parse_mock_flag ("--gmock_catch_leaked_mocks=" +:+ (if b : bool then "1" else "0")) m =
    Some (mkMockFlags b m.(verbose)) ∧
  parse_mock_flag ("--gmock_verbose=" +:+ v) m = Some (mkMockFlags m.(catch_leaked_mocks) v).
Proof. by destruct b. Qed.
