(* ===== verification/ParamTest.v ===== *)
(** Value-parameterised tests of Google Test: generators of parameters, their products, and
    the tests that are made of them
    ([src/lib/googletest/include/gtest/internal/gtest-param-util.h] and
    [gtest-param-util-generated.h]).

    A generator is a record with the type of its iterators, the operations of
    [ParamGeneratorInterface] and those of [ParamIteratorInterface].  The parameters that
    [Combine] puts together have one type here, and a tuple is a list. *)

From S2P Require Import Prelude Strings.
From stdpp Require Import base gmap sets list strings.
From Stdlib Require Import ZArith Ascii.

(** * Generators *)

(** [Current] of an iterator at the end is undefined, [None]. *)
Record ParamGenerator (T : Type) := mkGenerator {
  iterator : Type;
  Begin : iterator;
  End_ : iterator;
  Advance : iterator → iterator;
  Current : iterator → option T;
  Equals : iterator → iterator → bool
}.
Arguments mkGenerator {T} iterator _ _ _ _ _.
Arguments iterator {T} _.
Arguments Begin {T} _.
Arguments End_ {T} _.
Arguments Advance {T} _ _.
Arguments Current {T} _ _.
Arguments Equals {T} _ _ _.

Section Generators.
Context {T : Type}.

(** ** [Range] *)

Definition INT_MAX : Z := 2147483647.

(** The loop of [CalculateEndIndex]: it need not end, and overflows behind [INT_MAX]
    elements; neither has a result. *)
Fixpoint CalculateEndIndex (fuel : nat) (lt : T → T → bool) (plus_step : T → T) (i end_ : T)
    (end_index : Z) : option Z :=
  match fuel with
  | O => None
  | S fuel =>
      if lt i end_ then
        if (end_index =? INT_MAX)%Z then None
        else CalculateEndIndex fuel lt plus_step (plus_step i) end_ (end_index + 1)
      else Some end_index
  end.

(** [RangeGenerator], with the index of its end. *)
Definition RangeGenerator (plus_step : T → T) (begin_ end_ : T) (end_index_ : Z) : ParamGenerator T :=
  mkGenerator (T * Z) (begin_, 0%Z) (end_, end_index_)
    (λ it, (plus_step it.1, (it.2 + 1)%Z))
    (λ it, Some it.1)
    (λ it other, (it.2 =? other.2)%Z).

Definition Range (fuel : nat) (lt : T → T → bool) (plus_step : T → T) (begin_ end_ : T)
    : option (ParamGenerator T) :=
  RangeGenerator plus_step begin_ end_ <$> CalculateEndIndex fuel lt plus_step begin_ end_ 0.

(** ** [ValuesIn] *)

(** An iterator of the vector is an index; the value that an iterator keeps is the one of
    the vector, which does not change. *)
Definition ValuesIn (container_ : list T) : ParamGenerator T :=
  mkGenerator nat 0 (length container_) S (λ it, container_ !! it) Nat.eqb.

(** ** [Combine] *)

(** The component iterators [current1_], [current2_], ... *)
Fixpoint Currents (gs : list (ParamGenerator T)) : Type :=
  match gs with [] => unit | g :: gs => iterator g * Currents gs end.

Fixpoint begins (gs : list (ParamGenerator T)) : Currents gs :=
  match gs with [] => tt | g :: gs => (Begin g, begins gs) end.
Fixpoint ends (gs : list (ParamGenerator T)) : Currents gs :=
  match gs with [] => tt | g :: gs => (End_ g, ends gs) end.

Fixpoint AtEnd (gs : list (ParamGenerator T)) : Currents gs → bool :=
  match gs with
  | [] => λ _, false
  | g :: gs => λ cs, Equals g cs.1 (End_ g) || AtEnd gs cs.2
  end.

Fixpoint current_values (gs : list (ParamGenerator T)) : Currents gs → option (list T) :=
  match gs with
  | [] => λ _, Some []
  | g :: gs => λ cs, x ← Current g cs.1; xs ← current_values gs cs.2; Some (x :: xs)
  end.

(** [ComputeCurrentValue]: [current_value_] before is kept at the end. *)
Definition ComputeCurrentValue (gs : list (ParamGenerator T)) (cs : Currents gs)
    (current_value_ : option (list T)) : option (list T) :=
  if AtEnd gs cs then current_value_ else current_values gs cs.

(** The components behind the first one: each that has come to its end starts again, and
    the one before it advances.  The last one advances always. *)
Fixpoint advance_tail (gs : list (ParamGenerator T)) : Currents gs → Currents gs * bool :=
  match gs with
  | [] => λ _, (tt, true)
  | g :: gs => λ cs,
      let '(rest, next) := advance_tail gs cs.2 in
      let current := if next : bool then Advance g cs.1 else cs.1 in
      if Equals g current (End_ g) then ((Begin g, rest), true) else ((current, rest), false)
  end.

Definition advance_currents (gs : list (ParamGenerator T)) : Currents gs → Currents gs :=
  match gs with
  | [] => λ cs, cs
  | g :: gs => λ cs,
      let '(rest, next) := advance_tail gs cs.2 in
      (if next : bool then Advance g cs.1 else cs.1, rest)
  end.

Fixpoint same_currents (gs : list (ParamGenerator T)) : Currents gs → Currents gs → bool :=
  match gs with
  | [] => λ _ _, true
  | g :: gs => λ cs ds, Equals g cs.1 ds.1 && same_currents gs cs.2 ds.2
  end.

(** [CartesianProductGenerator2] to [CartesianProductGenerator10]. *)
Definition CartesianProductGenerator (gs : list (ParamGenerator T)) : ParamGenerator (list T) :=
  mkGenerator (Currents gs * option (list T))
    (begins gs, ComputeCurrentValue gs (begins gs) None)
    (ends gs, ComputeCurrentValue gs (ends gs) None)
    (λ it, let cs := advance_currents gs it.1 in (cs, ComputeCurrentValue gs cs it.2))
    (λ it, it.2)
    (λ it other, AtEnd gs it.1 && AtEnd gs other.1 || same_currents gs it.1 other.1).
End Generators.

(** * Tests with parameters *)

Section Tests.
Context {T : Type} (PrintToString : T → string).

(** A test of [TEST_P]. *)
Record LocalTestInfo := mkTest { test_case_base_name : string; test_base_name : string }.

(** What [INSTANTIATE_TEST_CASE_P] gives: the generator and the name of a parameter with its
    index. *)
Record InstantiationInfo := mkInstantiation {
  inst_name : string;
  generator : ParamGenerator T;
  name_func : T → nat → string;
  inst_file : string;
  inst_line : Z
}.

(** [MakeAndRegisterTestInfo] is called with the names of the test case and the test, the
    text of the parameter, and the parameter. *)
Record RegisteredTest := mkRegistered {
  test_case_name : string;
  test_name : string;
  value_param : string;
  parameter_ : T
}.

(** The registration goes on, ends the program with a message, or does something undefined;
    [OutOfFuel] where a generator has more elements than the fuel. *)
Inductive Registration :=
  | Registered (tests : list RegisteredTest)
  | Fatal (message : string)
  | Undefined
  | OutOfFuel.

Definition DefaultParamName (_ : T) (index : nat) : string := decimal 20 (Z.of_nat index) "".

Definition in_ranges (c : ascii) (rs : list (Z * Z)) : bool :=
  existsb (λ r, (r.1 <=? code c)%Z && (code c <=? r.2)%Z) rs.
(** [isalnum] of the C locale. *)
Definition isalnum (c : ascii) : bool := in_ranges c [(48, 57); (65, 90); (97, 122)]%Z.

Fixpoint valid_chars (name : string) : bool :=
  match name with
  | EmptyString => true
  | String c name => if negb (isalnum c) && negb (bool_decide (c = "_"%char)) then false else valid_chars name
  end.
Definition IsValidParamName (name : string) : bool :=
  if decide (name = "") then false else valid_chars name.

(** The loop over the parameters. *)
Fixpoint param_loop (fuel : nat) (t : LocalTestInfo) (inst : InstantiationInfo) (case_name : string)
    (it : iterator (generator inst)) (i : nat) (test_param_names : gset string)
    (tests : list RegisteredTest) : Registration :=
  match fuel with
  | O => OutOfFuel
  | S fuel =>
      if Equals (generator inst) it (End_ (generator inst)) then Registered tests
      else
        match Current (generator inst) it with
        | None => Undefined
        | Some x =>
            let param_name := name_func inst x i in
            if negb (IsValidParamName param_name) then
              Fatal ("Parameterized test name '" +:+ param_name +:+ "' is invalid, in " +:+ inst_file inst
                     +:+ " line " +:+ to_string (inst_line inst) +:+ String "010"%char "")
            else if decide (param_name ∈ test_param_names) then
              Fatal ("Duplicate parameterized test name '" +:+ param_name +:+ "', in " +:+ inst_file inst
                     +:+ " line " +:+ to_string (inst_line inst) +:+ String "010"%char "")
            else
              param_loop fuel t inst case_name (Advance (generator inst) it) (S i)
                ({[ param_name ]} ∪ test_param_names)
                (tests ++ [mkRegistered case_name (test_base_name t +:+ "/" +:+ param_name)
                             (PrintToString x) x])
        end
  end.

Definition instantiated_case_name (t : LocalTestInfo) (inst : InstantiationInfo) : string :=
  (if decide (inst_name inst = "") then "" else inst_name inst +:+ "/") +:+ test_case_base_name t.

Fixpoint instantiation_loop (fuel : nat) (t : LocalTestInfo) (instantiations : list InstantiationInfo)
    (tests : list RegisteredTest) : Registration :=
  match instantiations with
  | [] => Registered tests
  | inst :: instantiations =>
      match param_loop fuel t inst (instantiated_case_name t inst) (Begin (generator inst)) 0 ∅ tests with
      | Registered tests => instantiation_loop fuel t instantiations tests
      | r => r
      end
  end.

(** [ParameterizedTestCaseInfo::RegisterTests], after the tests registered before. *)
Fixpoint RegisterTests (fuel : nat) (tests_ : list LocalTestInfo) (instantiations_ : list InstantiationInfo)
    (tests : list RegisteredTest) : Registration :=
  match tests_ with
  | [] => Registered tests
  | t :: tests_ =>
      match instantiation_loop fuel t instantiations_ tests with
      | Registered tests => RegisterTests fuel tests_ instantiations_ tests
      | r => r
      end
  end.

(** ** The registry *)

(** [ParameterizedTestCaseInfo]; the type of the fixture is its id. *)
Record ParameterizedTestCaseInfo := mkCaseInfo {
  test_case_name_ : string;
  type_id : nat;
  tests_ : list LocalTestInfo;
  instantiations_ : list InstantiationInfo
}.

Definition AddTestPattern (name base : string) (c : ParameterizedTestCaseInfo) : ParameterizedTestCaseInfo :=
  mkCaseInfo c.(test_case_name_) c.(type_id) (c.(tests_) ++ [mkTest name base]) c.(instantiations_).
Definition AddTestCaseInstantiation (i : InstantiationInfo) (c : ParameterizedTestCaseInfo)
    : ParameterizedTestCaseInfo :=
  mkCaseInfo c.(test_case_name_) c.(type_id) c.(tests_) (c.(instantiations_) ++ [i]).

(** [GetTestCasePatternHolder]: the index of the holder and the registry, or [None] where
    the program is aborted since the name is that of a case with another fixture. *)
Fixpoint find_holder (name : string) (infos : list ParameterizedTestCaseInfo)
    : option (nat * ParameterizedTestCaseInfo) :=
  match infos with
  | [] => None
  | c :: infos =>
      if decide (c.(test_case_name_) = name) then Some (0, c)
      else '(n, c) ← find_holder name infos; Some (S n, c)
  end.
Definition GetTestCasePatternHolder (name : string) (type : nat)
    (test_case_infos_ : list ParameterizedTestCaseInfo)
    : option (nat * list ParameterizedTestCaseInfo) :=
  match find_holder name test_case_infos_ with
  | Some (n, c) => if decide (c.(type_id) = type) then Some (n, test_case_infos_) else None
  | None => Some (length test_case_infos_, test_case_infos_ ++ [mkCaseInfo name type [] []])
  end.

(** [ParameterizedTestCaseRegistry::RegisterTests]. *)
Fixpoint RegisterAllTests (fuel : nat) (infos : list ParameterizedTestCaseInfo)
    (tests : list RegisteredTest) : Registration :=
  match infos with
  | [] => Registered tests
  | c :: infos =>
      match RegisterTests fuel c.(tests_) c.(instantiations_) tests with
      | Registered tests => RegisterAllTests fuel infos tests
      | r => r
      end
  end.
End Tests.
Arguments mkInstantiation {T} _ _ _ _ _.
