(* ===== verification/ParamTestFacts.v ===== *)
(** Facts about parameterised tests: what generators enumerate, products, and which tests
    are registered. *)

From S2P Require Import Prelude Strings ParamTest.
From stdpp Require Import base gmap sets list strings.
From Stdlib Require Import ZArith Ascii Lia.

Section Generators.
Context {T : Type}.

(** * What a generator enumerates *)

(** From an iterator on, a generator gives the elements of a list and then its end. *)
Fixpoint yields {U} (g : ParamGenerator U) (it : iterator g) (l : list U) : Prop :=
  match l with
  | [] => Equals g it (End_ g) = true
  | x :: l => Equals g it (End_ g) = false ∧ Current g it = Some x ∧ yields g (Advance g it) l
  end.

(** The contract of [ParamGeneratorInterface]. *)
Class Enumerates {U} (g : ParamGenerator U) (l : list U) : Prop := {
  enumerates : yields g (Begin g) l;
  end_is_end : Equals g (End_ g) (End_ g) = true
}.

(** What the loop of a client sees. *)
Fixpoint elements_loop {U} (fuel : nat) (g : ParamGenerator U) (it : iterator g) : option (list U) :=
  match fuel with
  | O => None
  | S fuel =>
      if Equals g it (End_ g) then Some []
      else x ← Current g it; l ← elements_loop fuel g (Advance g it); Some (x :: l)
  end.

Lemma yields_loop {U} (g : ParamGenerator U) it l fuel :
  yields g it l → length l < fuel → elements_loop fuel g it = Some l.
Proof.
  revert it fuel. induction l as [|x l IH]; intros it [|fuel] H Hf; try (simpl in Hf; lia); cbn in *.
  - by rewrite H.
  - destruct H as (-> & -> & H). cbn. by rewrite (IH _ _ H) by lia.
Qed.

#[export] Instance ValuesIn_enumerates (l : list T) : Enumerates (ValuesIn l) l.
Proof.
  assert (∀ pre, yields (ValuesIn (pre ++ l)) (length pre) l) as H;
    [|split; [apply (H [])|apply Nat.eqb_refl]].
  induction l as [|x l IH]; intros pre; cbn.
  - rewrite app_nil_r. apply Nat.eqb_refl.
  - split; [apply Nat.eqb_neq; rewrite length_app; simpl; lia|]. split; [by apply list_lookup_middle|].
    specialize (IH (pre ++ [x])). rewrite <-app_assoc, length_app in IH. simpl in IH.
    by rewrite Nat.add_1_r in IH.
Qed.

(** * [Range] *)

(** The elements of [Range(i, end, step)], where the loop ends. *)
Fixpoint range_elements (n : nat) (plus_step : T → T) (i : T) : list T :=
  match n with O => [] | S n => i :: range_elements n plus_step (plus_step i) end.

Lemma CalculateEndIndex_count fuel lt plus_step (i end_ : T) k e :
  CalculateEndIndex fuel lt plus_step i end_ k = Some e → (0 <= k)%Z →
  ∃ n, e = (k + Z.of_nat n)%Z ∧ Forall (λ x, lt x end_ = true) (range_elements n plus_step i) ∧
    lt (Nat.iter n plus_step i) end_ = false.
Proof.
  revert i k. induction fuel as [|fuel IH]; intros i k; [done|]. cbn. destruct (lt i end_) eqn:E.
  - destruct (k =? INT_MAX)%Z; [done|]. intros H Hk. destruct (IH _ _ H) as (n & -> & Hf & Hl); [lia|].
    exists (S n). split; [lia|]. split; [by constructor|]. by rewrite Nat.iter_succ_r.
  - intros [= <-] _. exists 0. split; [lia|]. by split; [constructor|].
Qed.

Lemma RangeGenerator_yields plus_step (b end_ i : T) n (e k : Z) :
  e = (k + Z.of_nat n)%Z → yields (RangeGenerator plus_step b end_ e) (i, k) (range_elements n plus_step i).
Proof.
  revert i k. induction n as [|n IH]; intros i k He; cbn.
  - apply Z.eqb_eq. lia.
  - split; [apply Z.eqb_neq; lia|]. split; [done|]. apply IH. lia.
Qed.

(** [Range] enumerates the values from its begin on, by its step, that are less than its
    end, up to the first that is not. *)
Theorem Range_enumerates fuel lt plus_step (b e : T) g :
  Range fuel lt plus_step b e = Some g →
  ∃ n, Enumerates g (range_elements n plus_step b) ∧
    Forall (λ x, lt x e = true) (range_elements n plus_step b) ∧ lt (Nat.iter n plus_step b) e = false.
Proof.
  unfold Range. intros (k & H & ->)%fmap_Some.
  destruct (CalculateEndIndex_count _ _ _ _ _ _ _ H) as (n & Hk & Hf & Hl); [lia|].
  exists n. split; [|done]. split; [by apply RangeGenerator_yields|apply Z.eqb_refl].
Qed.

(** * Products *)

Fixpoint product {U} (ls : list (list U)) : list (list U) :=
  match ls with [] => [[]] | l :: ls => l ≫= λ x, cons x <$> product ls end.

(** What is left of a product: the rest of the first list with all of the others, behind its
    head with the rests of the others. *)
Fixpoint rest_of {U} (ls rs : list (list U)) : list (list U) :=
  match ls, rs with
  | l :: ls, (x :: r) :: rs => (cons x <$> rest_of ls rs) ++ (r ≫= λ y, cons y <$> product ls)
  | [], [] => [[]]
  | _, _ => []
  end.

Lemma rest_of_all {U} (ls : list (list U)) : rest_of ls ls = product ls.
Proof. induction ls as [|[|x l] ls IH]; cbn; [done..|]. by rewrite IH. Qed.

(** The components stand at rests of the lists that their generators enumerate. *)
Fixpoint stand (gs : list (ParamGenerator T)) : Currents gs → list (list T) → list (list T) → Prop :=
  match gs with
  | [] => λ _ ls rs, ls = [] ∧ rs = []
  | g :: gs => λ cs ls rs, ∃ l ls' r rs', ls = l :: ls' ∧ rs = r :: rs' ∧
      Enumerates g l ∧ yields g cs.1 r ∧ stand gs cs.2 ls' rs'
  end.

Definition nonempty (rs : list (list T)) : Prop := Forall (λ r, r ≠ []) rs.

Lemma stand_begin gs ls cs : stand gs cs ls ls → stand gs (begins gs) ls ls.
Proof.
  revert ls. induction gs as [|g gs IH]; intros ls; [done|].
  intros (l & ls' & r & rs' & -> & [= <- <-] & He & _ & Hs). exists l, ls', l, ls'. split_and!; try done.
  - apply He.
  - by eapply IH.
Qed.

Lemma AtEnd_false gs cs ls rs : stand gs cs ls rs → AtEnd gs cs = false ↔ nonempty rs.
Proof.
  revert ls rs. induction gs as [|g gs IH]; intros ls rs; cbn.
  - intros [-> ->]. split; [by constructor|done].
  - intros (l & ls' & r & rs' & -> & -> & _ & Hy & Hs). unfold nonempty.
    rewrite orb_false_iff, Forall_cons, (IH _ _ _ Hs). destruct r as [|x r]; cbn in Hy; [|naive_solver].
    rewrite Hy. naive_solver.
Qed.

Lemma AtEnd_true gs cs ls rs : stand gs cs ls rs → AtEnd gs cs = true → [] ∈ rs.
Proof.
  revert ls rs. induction gs as [|g gs IH]; intros ls rs; cbn; [done|].
  intros (l & ls' & r & rs' & -> & -> & _ & Hy & Hs). destruct r as [|x r]; [by left|].
  cbn in Hy. destruct Hy as [-> _]. intros Ha. right. by eapply IH.
Qed.

Lemma stand_current gs cs ls rs :
  stand gs cs ls rs → nonempty rs →
  ∃ t rest, rest_of ls rs = t :: rest ∧ current_values gs cs = Some t.
Proof.
  revert ls rs. induction gs as [|g gs IH]; intros ls rs; cbn.
  - intros [-> ->] _. by exists [], [].
  - intros (l & ls' & r & rs' & -> & -> & _ & Hy & Hs) [Hr Hrs]%Forall_cons.
    destruct r as [|x r]; [done|]. destruct Hy as (_ & Hc & _).
    destruct (IH _ _ _ Hs Hrs) as (t & rest & E1 & E2). exists (x :: t), ((cons x <$> rest) ++ (r ≫= λ y, cons y <$> product ls')).
    cbn. rewrite E1, Hc, E2. done.
Qed.

(** Advancing the tail: it stands at the next tuple, or again at the first one, and then the
    component before it is to advance. *)
Lemma advance_tail_ok gs cs ls rs :
  stand gs cs ls rs → nonempty rs → nonempty ls →
  let '(ds, next) := advance_tail gs cs in
  if next : bool then stand gs ds ls ls ∧ ∃ t, rest_of ls rs = [t]
  else ∃ rs' t, stand gs ds ls rs' ∧ nonempty rs' ∧ rest_of ls rs = t :: rest_of ls rs'.
Proof.
  revert ls rs. induction gs as [|g gs IH]; intros ls rs; cbn.
  - intros [-> ->] _ _. split; [done|]. by exists [].
  - intros (l & ls' & r & rs' & -> & -> & He & Hy & Hs) [Hr Hrs]%Forall_cons [Hl Hls]%Forall_cons.
    specialize (IH cs.2 ls' rs' Hs Hrs Hls). destruct (advance_tail gs cs.2) as [ds next].
    destruct r as [|x r]; [done|]. destruct Hy as (Hn & Hc & Hy). destruct next.
    + destruct IH as [Hd [t Ht]]. destruct r as [|y r].
      * cbn in Hy. rewrite Hy. split; [exists l, ls', l, ls'; split_and!; try done; apply He|]. exists (x :: t). cbn. by rewrite Ht.
      * destruct Hy as (Hn' & Hc' & Hy). rewrite Hn'. exists ((y :: r) :: ls'), (x :: t).
        split; [exists l, ls', (y :: r), ls'; split_and!; done|]. split; [by constructor|].
        cbn. by rewrite Ht, rest_of_all.
    + destruct IH as (rs'' & t & Hd & Hne & Ht). rewrite Hn. exists ((x :: r) :: rs''), (x :: t).
      split; [exists l, ls', (x :: r), rs''; split_and!; done|]. split; [by constructor|].
      cbn. by rewrite Ht.
Qed.

(** The iterator of a product, whose first component may have come to its end. *)
Lemma Cartesian_yields g gs (cs : Currents (g :: gs)) v l ls r rs L :
  stand (g :: gs) cs (l :: ls) (r :: rs) → nonempty rs → nonempty ls →
  (r ≠ [] → v = current_values (g :: gs) cs) → rest_of (l :: ls) (r :: rs) = L →
  yields (CartesianProductGenerator (g :: gs)) (cs, v) L.
Proof.
  revert cs v r rs. induction L as [|t L IH]; intros cs v r rs Hs Hrs Hls Hv HL.
  - destruct r as [|x r].
    + destruct Hs as (l' & ls' & r' & rs' & [= <- <-] & [= <- <-] & He & Hy & _). cbn in Hy |- *.
      by rewrite Hy, (@end_is_end _ g l He).
    + destruct (stand_current _ _ _ _ Hs) as (t & rest & E & _); [by constructor|]. by rewrite HL in E.
  - destruct r as [|x r]; [done|]. rewrite Hv by done.
    assert (nonempty ((x :: r) :: rs)) as Hne by by constructor.
    destruct (stand_current _ _ _ _ Hs Hne) as (t' & rest & E & Ec).
    rewrite HL in E. injection E as <- <-. pose proof (proj2 (AtEnd_false _ _ _ _ Hs) Hne) as Ha.
    rewrite Ec. pose proof Hs as (l' & ls' & r' & rs' & [= <- <-] & [= <- <-] & He & Hy & Hs').
    cbn [yields]. split; [|split; [done|]].
    { cbn [Equals CartesianProductGenerator fst]. rewrite Ha. cbn [andb orb same_currents ends fst snd].
      destruct Hy as [Hn _]. change (Equals g cs.1 (End_ g) && same_currents gs cs.2 (ends gs) = false).
      by rewrite Hn. }
    cbn [Advance CartesianProductGenerator fst snd].
    set (cs' := advance_currents (g :: gs) cs).
    assert (∃ r1 rs1, stand (g :: gs) cs' (l :: ls) (r1 :: rs1) ∧ nonempty rs1 ∧
              rest_of (l :: ls) (r1 :: rs1) = L) as (r1 & rs1 & Hs1 & Hrs1 & HL1).
    { unfold cs'. cbn [advance_currents]. pose proof (advance_tail_ok gs cs.2 ls rs Hs' Hrs Hls) as Ht.
      destruct (advance_tail gs cs.2) as [ds next]. destruct Hy as (_ & _ & Hy). destruct next.
      - destruct Ht as [Hd [t2 Ht]]. exists r, ls. split; [exists l, ls, r, ls; by split_and!|]. split; [done|].
        cbn in HL. rewrite Ht in HL. injection HL as _ <-. destruct r as [|y r]; [done|]. cbn. by rewrite rest_of_all.
      - destruct Ht as (rs2 & t2 & Hd & Hne2 & Ht). exists (x :: r), rs2.
        split; [exists l, ls, (x :: r), rs2; split_and!; try done; by destruct Hs as (? & ? & ? & ? & [= <- <-] & [= <- <-] & _ & ? & _)|].
        split; [done|]. cbn in HL |- *. rewrite Ht in HL. by injection HL as _ <-. }
    apply (IH cs' _ r1 rs1); try done. intros Hr1.
    unfold ComputeCurrentValue. by rewrite (proj2 (AtEnd_false _ _ _ _ Hs1)) by by constructor.
Qed.

Lemma product_empty {U} (ls : list (list U)) : [] ∈ ls → product ls = [].
Proof.
  induction ls as [|l ls IH]; [by intros ?%not_elem_of_nil|]. intros [<-|H]%elem_of_cons; [done|]. cbn.
  rewrite (IH H). by induction l.
Qed.

Lemma stand_begins gs ls : Forall2 Enumerates gs ls → stand gs (begins gs) ls ls.
Proof.
  induction 1 as [|g l gs ls He _ IH]; [done|]. exists l, ls, l, ls. split_and!; try done. apply He.
Qed.

(** [Combine] enumerates the product of what its generators enumerate, every tuple once, the
    last component running fastest; nothing at all if one of them is empty. *)
Theorem Cartesian_enumerates (gs : list (ParamGenerator T)) (ls : list (list T)) :
  gs ≠ [] → Forall2 Enumerates gs ls → Enumerates (CartesianProductGenerator gs) (product ls).
Proof.
  intros Hgs Hf. pose proof (stand_begins _ _ Hf) as Hs. destruct Hf as [|g l gs ls He Hf]; [done|].
  split; [|cbn; by rewrite (@end_is_end _ g l He)].
  destruct (AtEnd (g :: gs) (begins (g :: gs))) eqn:Ha.
  - rewrite product_empty by (by eapply AtEnd_true).
    cbn [yields Begin End_ Equals CartesianProductGenerator fst]. rewrite Ha. cbn.
    by rewrite (@end_is_end _ g l He).
  - pose proof (proj1 (AtEnd_false _ _ _ _ Hs) Ha) as Hne. unfold nonempty in Hne.
    apply Forall_cons in Hne as [Hl Hls].
    eapply (Cartesian_yields g gs _ _ l ls l ls); try done.
    + intros _. unfold ComputeCurrentValue. by rewrite Ha.
    + apply (rest_of_all (l :: ls)).
Qed.
End Generators.

(** * Registration *)

Section Tests.
Context {T : Type} (PrintToString : T → string).

(** The names of the parameters of an instantiation, from an index on. *)
Definition param_names (inst : InstantiationInfo (T:=T)) (k : nat) (l : list T) : list string :=
  imap (λ i x, name_func inst x (k + i)) l.

(** The tests of an instantiation. *)
Definition tests_of (t : LocalTestInfo) (inst : InstantiationInfo (T:=T)) (k : nat) (l : list T)
    : list (RegisteredTest (T:=T)) :=
  imap (λ i x, mkRegistered (instantiated_case_name t inst)
                 (test_base_name t +:+ "/" +:+ name_func inst x (k + i)) (PrintToString x) x) l.

(** Names that may be registered together. *)
Definition good_names (seen : gset string) (ns : list string) : Prop :=
  Forall (λ n, IsValidParamName n = true) ns ∧ NoDup ns ∧ (∀ n, n ∈ ns → n ∉ seen).

Lemma good_names_cons seen n ns :
  good_names seen (n :: ns) ↔ IsValidParamName n = true ∧ n ∉ seen ∧ good_names ({[n]} ∪ seen) ns.
Proof. unfold good_names. rewrite Forall_cons, NoDup_cons. set_solver. Qed.

Lemma param_loop_result fuel t inst it k seen tests l :
  yields (generator inst) it l → length l < fuel →
  (good_names seen (param_names inst k l) →
     param_loop PrintToString fuel t inst (instantiated_case_name t inst) it k seen tests =
     Registered (tests ++ tests_of t inst k l)) ∧
  (¬ good_names seen (param_names inst k l) → ∃ message,
     param_loop PrintToString fuel t inst (instantiated_case_name t inst) it k seen tests = Fatal message).
Proof.
  revert fuel it k seen tests. induction l as [|x l IH]; intros [|fuel] it k seen tests Hy Hf;
    try (simpl in Hf; lia); cbn [param_loop].
  - cbn in Hy. rewrite Hy. split; [intros _; by rewrite app_nil_r|]. intros []. split; [constructor|].
    split; [constructor|set_solver].
  - destruct Hy as (-> & -> & Hy). cbn [param_names tests_of imap]. rewrite Nat.add_0_r.
    assert (∀ n, imap ((λ i y, name_func inst y (k + i)) ∘ S) n = param_names inst (S k) n) as En.
    { intros n. apply imap_ext. intros i y _. cbn. by rewrite Nat.add_succ_r. }
    assert (∀ n, imap ((λ i y, mkRegistered (instantiated_case_name t inst)
       (test_base_name t +:+ "/" +:+ name_func inst y (k + i)) (PrintToString y) y) ∘ S) n = tests_of t inst (S k) n) as Et.
    { intros n. apply imap_ext. intros i y _. cbn. by rewrite Nat.add_succ_r. }
    rewrite En, Et, good_names_cons. cbn in Hf. set (n := name_func inst x k).
    destruct (IsValidParamName n); cbn [negb].
    2: { split; [by intros (? & _)|eauto]. }
    destruct (decide (n ∈ seen)); [split; [by intros (_ & ? & _)|eauto]|].
    match goal with |- context [param_loop _ fuel t inst _ ?it' (S k) ?s ?ts] =>
      destruct (IH fuel it' (S k) s ts Hy ltac:(lia)) as [H1 H2] end.
    split.
    + intros (_ & _ & Hg). rewrite H1 by done. by rewrite <-app_assoc.
    + intros Hg. apply H2. intros Hg'. by apply Hg.
Qed.

(** An instantiation, what its generator enumerates, and names that are good. *)
Definition enumerated (fuel : nat) (inst : InstantiationInfo (T:=T)) (l : list T) : Prop :=
  Enumerates (generator inst) l ∧ length l < fuel.
Definition well_named (inst : InstantiationInfo (T:=T)) (l : list T) : Prop :=
  good_names ∅ (param_names inst 0 l).

Lemma instantiation_loop_registers fuel t insts ls tests :
  Forall2 (enumerated fuel) insts ls → Forall2 well_named insts ls →
  instantiation_loop PrintToString fuel t insts tests =
  Registered (tests ++ concat (zip_with (λ inst, tests_of t inst 0) insts ls)).
Proof.
  intros He. revert tests. induction He as [|inst l insts ls [[Hy _] Hl] _ IH]; intros tests Hn.
  { cbn. by rewrite app_nil_r. }
  apply Forall2_cons in Hn as [Hw Hn]. cbn [instantiation_loop zip_with concat].
  rewrite (proj1 (param_loop_result fuel t inst _ 0 ∅ tests l Hy Hl) Hw), IH by done.
  by rewrite <-app_assoc.
Qed.

(** With good names, every test is registered once for every instantiation and parameter, in
    their orders, with the names that the documentation gives: [inst/Case] and [Test/name]. *)
Theorem RegisterTests_registers_all fuel tests_ insts ls tests :
  Forall2 (enumerated fuel) insts ls → Forall2 well_named insts ls →
  RegisterTests PrintToString fuel tests_ insts tests =
  Registered (tests ++ (tests_ ≫= λ t, concat (zip_with (λ inst, tests_of t inst 0) insts ls))).
Proof.
  intros He Hn. revert tests. induction tests_ as [|t ts IH]; intros tests; cbn [RegisterTests mbind list_bind].
  { by rewrite app_nil_r. }
  rewrite (instantiation_loop_registers _ _ _ _ _ He Hn), IH. by rewrite <-app_assoc.
Qed.

(** An instantiation whose names are not good ends the program with a message, as soon as
    there is a test: no two parameters of it share a name. *)
Theorem bad_names_are_fatal fuel t ts inst insts l tests :
  enumerated fuel inst l → ¬ well_named inst l →
  ∃ message, RegisterTests PrintToString fuel (t :: ts) (inst :: insts) tests = Fatal message.
Proof.
  intros [[Hy _] Hl] Hn. cbn [RegisterTests instantiation_loop].
  destruct (proj2 (param_loop_result fuel t inst _ 0 ∅ tests l Hy Hl) Hn) as [m ->]. by exists m.
Qed.

(** ** Default names *)

Lemma digit_alnum c : is_digit c = true → isalnum c = true.
Proof. unfold is_digit, isalnum, in_ranges. cbn. by intros ->. Qed.

Lemma valid_digits s : all_chars is_digit s = true → valid_chars s = true.
Proof.
  induction s as [|c s IH]; cbn [all_chars valid_chars]; [done|]. rewrite andb_true_iff. intros [Hc Hs].
  rewrite (digit_alnum c Hc). cbn. by apply IH.
Qed.

Lemma index_inj n m :
  (Z.of_nat n < 10 ^ 20)%Z → (Z.of_nat m < 10 ^ 20)%Z →
  decimal 20 (Z.of_nat n) "" = decimal 20 (Z.of_nat m) "" → n = m.
Proof.
  intros Hn Hm E. pose proof (take_digits_decimal 20 (Z.of_nat n) "" ltac:(lia)) as E1.
  pose proof (take_digits_decimal 20 (Z.of_nat m) "" ltac:(lia)) as E2.
  rewrite E, E2 in E1. cbn in E1. injection E1. lia.
Qed.

(** The default names, the indices, are always good. *)
Theorem default_names_are_good inst l :
  name_func inst = DefaultParamName → (Z.of_nat (length l) < 2 ^ 64)%Z → well_named inst l.
Proof.
  intros Hd Hl. unfold well_named, param_names. rewrite Hd. split; [|split; [|set_solver]].
  - apply Forall_lookup. intros i n. rewrite list_lookup_imap. intros (x & _ & ->)%fmap_Some.
    cbn [Nat.add]. unfold DefaultParamName, IsValidParamName.
    pose proof (decimal_nonempty 19 (Z.of_nat i) ltac:(lia)) as Hne.
    pose proof (decimal_digits 20 (Z.of_nat i) ltac:(lia)) as Hds.
    rewrite decide_False by (intros E; by rewrite E in Hne). by apply valid_digits.
  - apply NoDup_alt. intros i j n. rewrite !list_lookup_imap.
    intros (x & Hx & ->)%fmap_Some (y & Hy & E)%fmap_Some.
    apply lookup_lt_Some in Hx, Hy. cbn [Nat.add] in E. apply index_inj; [lia..|exact E].
Qed.

(** * The registry *)

(** No two holders have one name. *)
Definition distinct_names (infos : list (ParameterizedTestCaseInfo (T:=T))) : Prop :=
  NoDup (test_case_name_ <$> infos).

Lemma find_holder_spec name (infos : list (ParameterizedTestCaseInfo (T:=T))) :
  match find_holder name infos with
  | Some (n, c) => infos !! n = Some c ∧ test_case_name_ c = name
  | None => name ∉ test_case_name_ <$> infos
  end.
Proof.
  induction infos as [|c infos IH]; cbn; [set_solver|]. destruct (decide _) as [E|E]; [done|].
  destruct (find_holder name infos) as [[n c']|]; cbn; [done|]. set_solver.
Qed.

(** A holder that is got has the name and the fixture it was got for; the others are as
    they were, and names stay distinct. *)
Theorem holder_of_a_case name type (infos : list (ParameterizedTestCaseInfo (T:=T))) :
  distinct_names infos →
  match GetTestCasePatternHolder name type infos with
  | Some (n, infos') => distinct_names infos' ∧ infos `prefix_of` infos' ∧
      ∃ c, infos' !! n = Some c ∧ test_case_name_ c = name ∧ type_id c = type
  | None => ∃ c, c ∈ infos ∧ test_case_name_ c = name ∧ type_id c ≠ type
  end.
Proof.
  intros Hd. unfold GetTestCasePatternHolder. pose proof (find_holder_spec name infos) as Hf.
  destruct (find_holder name infos) as [[n c]|].
  - destruct Hf as [Hn Hc]. destruct (decide (type_id c = type)).
    + split; [done|]. split; [done|]. by exists c.
    + exists c. split; [by eapply list_elem_of_lookup_2|done].
  - split; [|split; [by eexists|]].
    + unfold distinct_names. rewrite fmap_app. apply NoDup_app. split; [done|]. split; [set_solver|].
      apply NoDup_singleton.
    + eexists. split; [by apply list_lookup_middle|done].
Qed.
End Tests.

(** * Examples *)

Module Example_params.

(** [INSTANTIATE_TEST_CASE_P(I, C, Combine(Range(0, 2), Values(5, 6)))] with one [TEST_P]. *)
Definition params : ParamGenerator (list Z) :=
  CartesianProductGenerator
    [default (ValuesIn []) (Range 9 Z.ltb (Z.add 1) 0 2)%Z; ValuesIn [5; 6]%Z].
Definition inst : InstantiationInfo := mkInstantiation "I" params DefaultParamName "f.cc" 7.

Lemma params_enumerated : enumerated 9 inst [[0; 5]; [0; 6]; [1; 5]; [1; 6]]%Z.
Proof.
  split; [|cbn; lia]. change (Enumerates params (product [[0; 1]; [5; 6]]%Z)).
  apply Cartesian_enumerates; [done|]. repeat constructor.
Qed.

Lemma RegisterTests_registers_all_witness :
  RegisterTests (λ _, "p") 9 [mkTest "C" "T"] [inst] [] =
  Registered [mkRegistered "I/C" "T/0" "p" [0; 5]%Z; mkRegistered "I/C" "T/1" "p" [0; 6]%Z;
              mkRegistered "I/C" "T/2" "p" [1; 5]%Z; mkRegistered "I/C" "T/3" "p" [1; 6]%Z].
Proof.
  rewrite (RegisterTests_registers_all (λ _, "p") 9 [mkTest "C" "T"] [inst] [[[0; 5]; [0; 6]; [1; 5]; [1; 6]]%Z] []).
  - vm_compute. reflexivity.
  - constructor; [apply params_enumerated|constructor].
  - constructor; [|constructor]. apply default_names_are_good; [reflexivity|reflexivity].
Defined.

End Example_params.
