(* ===== verification/Console.v ===== *)
(** The console output of Google Test ([src/lib/googletest/src/gtest.cc]):
    [PrettyUnitTestResultPrinter], over the events of the runner, and the listing of
    [--gtest_list_tests].

    What is printed is a list of pieces, each with its colour; [render] gives the bytes.
    A piece of [printf] has [COLOR_DEFAULT].  Calls of [fflush] are left out. *)

From S2P Require Import Prelude Strings Utf8 Printers Assertions TestRun Runner Xml Flags.
From stdpp Require Import base gmap list strings.
From Stdlib Require Import ZArith Ascii.

Open Scope Z_scope.

Definition eol : list Z := [10].

(** * Colours *)

Definition Piece : Type := GTestColor * list Z.

Definition printf (s : list Z) : Piece := (COLOR_DEFAULT, s).

Definition GetAnsiColorCode (color : GTestColor) : option (list Z) :=
  match color with
  | COLOR_RED => Some (text "1")
  | COLOR_GREEN => Some (text "2")
  | COLOR_YELLOW => Some (text "3")
  | COLOR_DEFAULT => None
  end.

Definition color_terms : list string :=
  ["xterm"; "xterm-color"; "xterm-256color"; "screen"; "screen-256color"; "tmux"; "tmux-256color";
   "rxvt-unicode"; "rxvt-unicode-256color"; "linux"; "cygwin"].

(** Given the flag [color] and the variable [TERM]. *)
Definition ShouldUseColor (gtest_color : list Z) (term : option (list Z)) (stdout_is_tty : bool) : bool :=
  let same s := CaseInsensitiveCStringEquals (Some gtest_color) (Some (text s)) in
  if same "auto" then
    let term_supports_color := existsb (λ s, CStringEquals term (Some (text s))) color_terms in
    stdout_is_tty && term_supports_color
  else
    same "yes" || same "true" || same "t" || CStringEquals (Some gtest_color) (Some (text "1")).

(** [ColoredPrintf], where [in_color_mode] is what [ShouldUseColor] said at the first call. *)
Definition ColoredPrintf (in_color_mode : bool) (color : GTestColor) (s : list Z) : list Z :=
  match in_color_mode, GetAnsiColorCode color with
  | true, Some c => [27] ++ text "[0;3" ++ c ++ text "m" ++ s ++ [27] ++ text "[m"
  | _, _ => s
  end.

Definition render (in_color_mode : bool) (ps : list Piece) : list Z :=
  ps ≫= λ p, ColoredPrintf in_color_mode p.1 p.2.

(** * Words and counts *)

Definition FormatCountableNoun (count : Z) (singular_form plural_form : string) : list Z :=
  text (to_string count) ++ [32] ++ text (if count =? 1 then singular_form else plural_form).
Definition FormatTestCount (test_count : Z) : list Z := FormatCountableNoun test_count "test" "tests".
Definition FormatTestCaseCount (test_case_count : Z) : list Z :=
  FormatCountableNoun test_case_count "test case" "test cases".

Definition TestPartResultTypeToString (type : PartType) : list Z :=
  match type with
  | kSuccess => text "Success"
  | kNonFatalFailure | kFatalFailure => text "Failure" ++ eol
  end.

Definition PrintTestPartResultToString (p : TestPartResult) : list Z :=
  StringStreamToString
    (text (FormatFileLocation (part_file p) p.(line_number)) ++ [32] ++
     TestPartResultTypeToString p.(part_type) ++ from_c_str (text p.(message))).

Definition PrintTestPartResult (p : TestPartResult) : list Piece :=
  [printf (PrintTestPartResultToString p ++ eol)].

Definition kTypeParamLabel : list Z := text "TypeParam".
Definition kValueParamLabel : list Z := text "GetParam()".
Definition c_text (s : string) : list Z := from_c_str (text s).

Definition PrintFullTestCommentIfPresent (type_param value_param : option string) : list Z :=
  match type_param, value_param with
  | None, None => []
  | _, _ =>
      text ", where " ++
      (match type_param with
       | None => []
       | Some t => kTypeParamLabel ++ text " = " ++ c_text t ++
                   (match value_param with None => [] | Some _ => text " and " end)
       end) ++
      (match value_param with
       | None => []
       | Some v => kValueParamLabel ++ text " = " ++ c_text v
       end)
  end.

Definition test_to_run_count (c : TestCase) : Z := Z.of_nat (count_true should_run_ c.(test_info_list)).
Definition successful_test_count (u : Unit) (c : nat) (case : TestCase) : Z :=
  Z.of_nat (count_true (λ x, x.2.(should_run_) && negb (ResultFailed (result_of u (c, x.1))))
              (imap pair case.(test_info_list))).
Definition test_case_to_run_count (test_cases : list TestCase) : Z :=
  Z.of_nat (count_true should_run test_cases).

(** * The listener *)

(** The flags it reads. *)
Record Options := mkOptions {
  opt_repeat : Z;
  opt_filter : list Z;
  opt_shuffle : bool;
  opt_print_time : bool;
  opt_also_run_disabled_tests : bool
}.

Section Printer.
Variable env : Environment.
Variable options : Options.
Variable test_cases : list TestCase.
(** The type parameters of the test cases. *)
Variable case_type_param : nat → option string.

Definition case_name_text (c : nat) : list Z :=
  match test_cases !! c with Some case => name_text case.(case_name) | None => [] end.

(** The name of a test with that of its case. *)
Definition PrintTestName (t : TestId) : list Z :=
  case_name_text t.1 ++ text "." ++
  match test_cases !! t.1 ≫= λ case, case.(test_info_list) !! t.2 with
  | Some info => name_text info.(test_name)
  | None => []
  end.

(** [None] where the variables of sharding are bad, and the program exits. *)
Definition IterationStart (i : Info) (iteration : nat) : option (list Piece) :=
  shard ← ShouldShard env kTestTotalShards kTestShardIndex false;
  shard_note ← (if shard : bool then
                  shard_index ← Int32FromEnvOrDie env kTestShardIndex (-1);
                  Some [(COLOR_YELLOW, text "Note: This is test shard " ++ text (to_string (shard_index + 1)) ++
                          text " of " ++ c_text (default "(null)" (env kTestTotalShards)) ++ text "." ++ eol)]
                else Some []);
  Some
    ((if options.(opt_repeat) =? 1 then []
      else [printf (eol ++ text "Repeating all tests (iteration " ++
              text (to_string (Z.of_nat iteration + 1)) ++ text ") . . ." ++ eol ++ eol)]) ++
     (if CStringEquals (Some (from_c_str options.(opt_filter))) (Some (text "*")) then []
      else [(COLOR_YELLOW, text "Note: Google Test filter = " ++ from_c_str options.(opt_filter) ++ eol)]) ++
     shard_note ++
     (if options.(opt_shuffle) then
        [(COLOR_YELLOW, text "Note: Randomizing tests' orders with a seed of " ++
            text (to_string i.(random_seed)) ++ text " ." ++ eol)]
      else []) ++
     [(COLOR_GREEN, text "[==========] ");
      printf (text "Running " ++
        FormatTestCount (SumOverTestCaseList (λ _, test_to_run_count) test_cases) ++ text " from " ++
        FormatTestCaseCount (test_case_to_run_count test_cases) ++ text "." ++ eol)]).

Definition TestCaseStart (c : nat) : list Piece :=
  match test_cases !! c with
  | None => []
  | Some case =>
      [(COLOR_GREEN, text "[----------] ");
       printf (FormatCountableNoun (test_to_run_count case) "test" "tests" ++ text " from " ++
               case_name_text c ++
               match case_type_param c with
               | None => eol
               | Some t => text ", where " ++ kTypeParamLabel ++ text " = " ++ c_text t ++ eol
               end)]
  end.

Definition TestStart (t : TestId) : list Piece :=
  [(COLOR_GREEN, text "[ RUN      ] "); printf (PrintTestName t ++ eol)].

Definition TestPartResult_ (p : TestPartResult) : list Piece :=
  if failed p then PrintTestPartResult p else [].

Definition TestEnd (i : Info) (u : Unit) (t : TestId) : list Piece :=
  [if ResultFailed (result_of u t) then (COLOR_RED, text "[  FAILED  ] ")
   else (COLOR_GREEN, text "[       OK ] ");
   printf (PrintTestName t ++
     (if ResultFailed (result_of u t)
      then PrintFullTestCommentIfPresent (i.(type_param) t) (i.(value_param) t) else []) ++
     (if options.(opt_print_time) then text " (" ++ show64 (i.(elapsed_time) t) ++ text " ms)" ++ eol
      else eol))].

Definition TestCaseEnd (i : Info) (c : nat) : list Piece :=
  match test_cases !! c with
  | Some case =>
      if options.(opt_print_time) then
        [(COLOR_GREEN, text "[----------] ");
         printf (FormatCountableNoun (test_to_run_count case) "test" "tests" ++ text " from " ++
                 case_name_text c ++ text " (" ++ show64 (i.(case_elapsed_time) c) ++
                 text " ms total)" ++ eol ++ eol)]
      else []
  | None => []
  end.

(** The tests that the loops of [PrintFailedTests] print, in the order of the iteration; [None]
    is a null pointer that is read. *)
Fixpoint failed_of_case (u : Unit) (c : nat) (case : TestCase) (indices : list Z) : option (list TestId) :=
  match indices with
  | [] => Some []
  | index :: indices =>
      if index <? 0 then None
      else
        info ← case.(test_info_list) !! Z.to_nat index;
        rest ← failed_of_case u c case indices;
        Some (if negb info.(should_run_) || negb (ResultFailed (result_of u (c, Z.to_nat index))) then rest
              else (c, Z.to_nat index) :: rest)
  end.
Fixpoint failed_of_cases (o : Order) (u : Unit) (numbers : list nat) : option (list TestId) :=
  match numbers with
  | [] => Some []
  | c :: numbers =>
      case ← GetTestCase test_cases o (Z.of_nat c);
      tests ← (if negb case.(should_run) || (failed_test_count u c case =? 0) then Some []
               else
                 indices ← o.(test_indices_) !! c;
                 failed_of_case u c case (in_turn indices (length case.(test_info_list))));
      rest ← failed_of_cases o u numbers;
      Some (tests ++ rest)
  end.
Definition failed_tests (o : Order) (u : Unit) : option (list TestId) :=
  failed_of_cases o u (seq 0 (length test_cases)).

Definition PrintFailedTest (i : Info) (t : TestId) : list Piece :=
  [(COLOR_RED, text "[  FAILED  ] ");
   printf (PrintTestName t ++ PrintFullTestCommentIfPresent (i.(type_param) t) (i.(value_param) t));
   printf eol].
Definition unit_failed_test_count (u : Unit) : Z := SumOverTestCaseList (failed_test_count u) test_cases.
Definition PrintFailedTests (i : Info) (o : Order) (u : Unit) : option (list Piece) :=
  if unit_failed_test_count u =? 0 then Some []
  else tests ← failed_tests o u; Some (tests ≫= PrintFailedTest i).

(** [%2d]. *)
Definition width2 (n : Z) : list Z :=
  let s := text (to_string n) in replicate (2 - length s) 32 ++ s.

Definition IterationEnd (i : Info) (o : Order) (u : Unit) : option (list Piece) :=
  let num_failures := unit_failed_test_count u in
  let num_disabled := SumOverTestCaseList (λ _, reportable_disabled_test_count) test_cases in
  failures ← (if Failed test_cases u then PrintFailedTests i o u else Some []);
  Some ([(COLOR_GREEN, text "[==========] ");
   printf (FormatTestCount (SumOverTestCaseList (λ _, test_to_run_count) test_cases) ++ text " from " ++
           FormatTestCaseCount (test_case_to_run_count test_cases) ++ text " ran." ++
           (if options.(opt_print_time) then text " (" ++ show64 i.(unit_elapsed_time) ++ text " ms total)"
            else []) ++ eol);
   (COLOR_GREEN, text "[  PASSED  ] ");
   printf (FormatTestCount (SumOverTestCaseList (successful_test_count u) test_cases) ++ text "." ++ eol)] ++
  (if Failed test_cases u then
     [(COLOR_RED, text "[  FAILED  ] ");
      printf (FormatTestCount num_failures ++ text ", listed below:" ++ eol)] ++
     failures ++
     [printf (eol ++ width2 num_failures ++ text " FAILED " ++
              text (if num_failures =? 1 then "TEST" else "TESTS") ++ eol)]
   else []) ++
  (if negb (num_disabled =? 0) && negb options.(opt_also_run_disabled_tests) then
     (if num_failures =? 0 then [printf eol] else []) ++
     [(COLOR_YELLOW, text "  YOU HAVE " ++ text (to_string num_disabled) ++ text " DISABLED " ++
         text (if num_disabled =? 1 then "TEST" else "TESTS") ++ eol ++ eol)]
   else [])).

(** A method of the listener, given the order and the state the event is told in. *)
Definition printed (i : Info) (o : Order) (u : Unit) (e : Event) : option (list Piece) :=
  match e with
  | OnTestProgramStart | OnEnvironmentsSetUpEnd | OnEnvironmentsTearDownEnd | OnTestProgramEnd => Some []
  | OnTestIterationStart n => IterationStart i n
  | OnEnvironmentsSetUpStart =>
      Some [(COLOR_GREEN, text "[----------] "); printf (text "Global test environment set-up." ++ eol)]
  | OnTestCaseStart c => Some (TestCaseStart c)
  | OnTestStart t => Some (TestStart t)
  | OnTestPartResult p => Some (TestPartResult_ p)
  | OnTestEnd t => Some (TestEnd i u t)
  | OnTestCaseEnd c => Some (TestCaseEnd i c)
  | OnEnvironmentsTearDownStart =>
      Some [(COLOR_GREEN, text "[----------] "); printf (text "Global test environment tear-down" ++ eol)]
  | OnTestIterationEnd _ => IterationEnd i o u
  end.

(** The events of a run, each with the times, the order and the state it is told in. *)
Fixpoint console (l : list (Info * Order * Unit * Event)) : option (list Piece) :=
  match l with
  | [] => Some []
  | (i, o, u, e) :: l => ps ← printed i o u e; rest ← console l; Some (ps ++ rest)
  end.
End Printer.

(** * The listing *)

(** The loop of [PrintOnOneLine], with [i] characters so far. *)
Fixpoint one_line_loop (str : list Z) (i max_length : Z) : list Z :=
  match str with
  | [] => []
  | c :: str =>
      if max_length <=? i then text "..."
      else if c =? 10 then [92; 110] ++ one_line_loop str (i + 2) max_length
      else c :: one_line_loop str (i + 1) max_length
  end.
Definition PrintOnOneLine (str : list Z) (max_length : Z) : list Z := one_line_loop (from_c_str str) 0 max_length.

Definition kMaxParamLength : Z := 250.

Section Listing.
Variable case_type_param : nat → option string.
Variable test_value_param : TestId → option string.

Definition parameter_comment (label : list Z) (param : option string) : list Z :=
  match param with
  | None => []
  | Some p => text "  # " ++ label ++ text " = " ++ PrintOnOneLine (text p) kMaxParamLength
  end.

Definition list_case (c : nat) (case : TestCase) : list Z :=
  name_text case.(case_name) ++ text "." ++ parameter_comment kTypeParamLabel (case_type_param c) ++ eol.
Definition list_test (t : TestId) (info : TestInfo) : list Z :=
  text "  " ++ name_text info.(test_name) ++ parameter_comment kValueParamLabel (test_value_param t) ++ eol.

(** The loop over the tests of a case. *)
Fixpoint list_tests (c : nat) (case : TestCase) (j : nat) (tests : list TestInfo)
    (printed_test_case_name : bool) : list Z :=
  match tests with
  | [] => []
  | info :: tests =>
      if info.(matches_filter_) then
        (if printed_test_case_name then [] else list_case c case) ++
        list_test (c, j) info ++ list_tests c case (S j) tests true
      else list_tests c case (S j) tests printed_test_case_name
  end.

Definition ListTestsMatchingFilter (test_cases : list TestCase) : list Z :=
  imap pair test_cases ≫= λ x, list_tests x.1 x.2 0 x.2.(test_info_list) false.
End Listing.
