(* ===== verification/ConsoleFacts.v ===== *)
(** What the console output of Google Test tells, and the listing read back. *)

From S2P Require Import Prelude Strings Demangle Utf8 Utf8Facts Printers Assertions AssertionsFacts TestRun TestRunFacts Runner Xml Streaming StreamingFacts Flags RunnerFacts Console.
From stdpp Require Import base gmap sets list strings.
From Stdlib Require Import ZArith Lia Ascii.

Open Scope Z_scope.

(** * Colours *)

(** A reader that drops the escape sequences. *)
Fixpoint strip (inside : bool) (l : list Z) : list Z :=
  match l with
  | [] => []
  | c :: l =>
      if inside then strip (negb (c =? 109)) l
      else if c =? 27 then strip true l else c :: strip false l
  end.

Lemma strip_plain s l : 27 ∉ s → strip false (s ++ l) = s ++ strip false l.
Proof.
  induction s as [|c s IH]; intros Hs; [done|]. cbn [app strip].
  rewrite (proj2 (Z.eqb_neq c 27)) by set_solver. by rewrite IH by set_solver.
Qed.

Lemma strip_colored in_color_mode c s l :
  27 ∉ s → strip false (ColoredPrintf in_color_mode c s ++ l) = s ++ strip false l.
Proof.
  intros Hs. destruct in_color_mode, c; try by apply strip_plain.
  all: unfold ColoredPrintf; cbn [GetAnsiColorCode]; rewrite <-!app_assoc;
    change (strip false (s ++ [27; 91; 109] ++ l) = s ++ strip false l); by rewrite strip_plain.
Qed.

(** Colours add escape sequences and nothing else. *)
Theorem colors_only_add_escapes in_color_mode ps :
  Forall (λ p, 27 ∉ p.2) ps →
  strip false (render in_color_mode ps) = render false ps.
Proof.
  unfold render. induction 1 as [|[c s] ps Hs _ IH]; [done|]. cbn [fst snd] in Hs.
  rewrite !bind_cons. cbn [fst snd]. by rewrite strip_colored, IH.
Qed.

(** * Counts *)

Lemma SumOver_from (f : nat → TestCase → Z) l a :
  foldl Z.add a (imap f l) = a + SumOverTestCaseList f l.
Proof.
  unfold SumOverTestCaseList. revert f a. induction l as [|c l IH]; intros f a; [simpl; lia|].
  rewrite imap_cons. cbn [foldl]. rewrite IH, (IH _ (0 + f 0%nat c)). lia.
Qed.

Lemma SumOver_cons f c l :
  SumOverTestCaseList f (c :: l) = f 0%nat c + SumOverTestCaseList (λ n, f (S n)) l.
Proof.
  unfold SumOverTestCaseList at 1. rewrite imap_cons. cbn [foldl].
  by rewrite (SumOver_from (f ∘ S)), Z.add_0_l.
Qed.

Lemma SumOver_add f g h l :
  (∀ n c, f n c + g n c = h n c) →
  SumOverTestCaseList f l + SumOverTestCaseList g l = SumOverTestCaseList h l.
Proof.
  revert f g h. induction l as [|c l IH]; intros f g h H; [done|].
  rewrite !SumOver_cons, <-(IH (λ n, f (S n)) (λ n, g (S n)) (λ n, h (S n))) by (intros; apply H).
  rewrite <-(H 0%nat c). lia.
Qed.

Lemma count_true_split {A} (p q : A → bool) l :
  (count_true (λ x, p x && q x) l + count_true (λ x, p x && negb (q x)) l = count_true p l)%nat.
Proof.
  induction l as [|x l IH]; [done|]. rewrite !count_true_cons, <-IH.
  destruct (p x), (q x); simpl; lia.
Qed.

Lemma count_true_fmap {A B} (f : B → bool) (g : A → B) l : count_true f (g <$> l) = count_true (f ∘ g) l.
Proof. induction l as [|x l IH]; [done|]. by rewrite fmap_cons, !count_true_cons, IH. Qed.

Lemma fmap_snd_imap_pair {A} (l : list A) : (imap pair l).*2 = l.
Proof.
  rewrite fmap_imap. transitivity (imap (λ _ x, x) l); [by apply imap_ext|].
  induction l as [|x l IH]; [done|]. rewrite imap_cons. f_equal.
  etransitivity; [|exact IH]. by apply imap_ext.
Qed.

(** The tests that passed and those that failed, as they are announced at the end, are
    together the tests that "ran". *)
Theorem counts_add_up u test_cases :
  unit_failed_test_count test_cases u + SumOverTestCaseList (successful_test_count u) test_cases
  = SumOverTestCaseList (λ _, test_to_run_count) test_cases.
Proof.
  apply SumOver_add. intros n c. unfold failed_test_count, successful_test_count, test_to_run_count.
  rewrite <-(fmap_snd_imap_pair (test_info_list c)) at 3. rewrite count_true_fmap.
  rewrite <-(count_true_split (should_run_ ∘ snd) (λ x, ResultFailed (result_of u (n, x.1)))).
  unfold compose. cbn. lia.
Qed.

(** * The list of failed tests *)

(** A case runs when one of its tests does. *)
Definition consistent (c : TestCase) : Prop := c.(should_run) = existsb should_run_ c.(test_info_list).

Lemma existsb_fmap {A B} (p : B → bool) (f : A → B) l : existsb p (f <$> l) = existsb (λ x, p (f x)) l.
Proof. induction l as [|x l IH]; [done|]. cbn [existsb fmap list_fmap]. by rewrite IH. Qed.

Lemma filter_tests_any f shards name tests r s :
  let '(tests', any, _, _) := filter_tests f shards name tests r s in
  any = existsb should_run_ tests'.
Proof.
  revert r s. induction tests as [|t tests IH]; intros r s; [done|]. cbn [filter_tests]. cbv zeta.
  lazymatch goal with |- context [filter_tests f shards name tests ?r' ?s'] => specialize (IH r' s') end.
  destruct (filter_tests _ _ _ _ _ _) as [[[tests' any] r1] s1]. by rewrite IH.
Qed.

Lemma filter_cases_consistent f shards cases r s :
  Forall consistent (filter_cases f shards cases r s).1.1.
Proof.
  revert r s. induction cases as [|c cases IH]; intros r s; [constructor|]. cbn [filter_cases].
  pose proof (filter_tests_any f shards c.(case_name) c.(test_info_list) r s) as H.
  destruct (filter_tests _ _ _ _ _ _) as [[[tests any] r1] s1]. specialize (IH r1 s1).
  destruct (filter_cases _ _ _ _ _) as [[cases' r2] s2]. by constructor.
Qed.

Lemma FilterTests_consistent env f h cases cases' n :
  FilterTests env f h cases = Some (cases', n) → Forall consistent cases'.
Proof.
  unfold FilterTests. intros (shards & _ & H)%bind_Some.
  pose proof (filter_cases_consistent f shards cases 0 0) as Hc.
  destruct (filter_cases _ _ _ _ _) as [[cs r] s]. by simplify_eq.
Qed.

Lemma elem_of_numbered {A} (l : list A) n x : (n, x) ∈ imap pair l ↔ l !! n = Some x.
Proof.
  rewrite elem_of_lookup_imap. split; [intros (m & y & ? & ?); by simplify_eq|eauto].
Qed.

Lemma fmap_fst_imap_pair {A} (l : list A) : (imap pair l).*1 = seq 0 (length l).
Proof.
  apply list_eq. intros n. rewrite list_lookup_fmap, list_lookup_imap. symmetry.
  destruct (l !! n) eqn:E; simpl.
  - apply lookup_seq. split; [done|]. by eapply lookup_lt_Some.
  - apply lookup_seq_ge. by apply lookup_ge_None.
Qed.

Lemma count_true_ext {A} (f g : A → bool) l : (∀ x, x ∈ l → f x = g x) → count_true f l = count_true g l.
Proof.
  induction l as [|x l IH]; intros H; [done|]. rewrite !count_true_cons, H by set_solver.
  by rewrite IH by (intros; apply H; set_solver).
Qed.

Section Failed.
Variables (test_cases : list TestCase) (o : Order) (cases : list nat) (order : nat → list nat) (u : Unit).

(** A test that was to run and failed. *)
Definition test_failed (t : TestId) : bool :=
  match test_cases !! t.1 ≫= λ case, case.(test_info_list) !! t.2 with
  | Some info => info.(should_run_) && ResultFailed (result_of u t)
  | None => false
  end.
(** In the order of the cases and of the tests of each. *)
Definition all_failed : list TestId :=
  seq 0 (length test_cases) ≫= λ c, pair c <$> filter (λ j, test_failed (c, j) = true) (order c).

Context (Hcons : Forall consistent test_cases) (Ho : in_order_of test_cases o cases order)
  (Hord : orders test_cases cases order).

Lemma failed_of_case_filter c case js :
  test_cases !! c = Some case →
  (∀ j, j ∈ js → (j < length case.(test_info_list))%nat) →
  failed_of_case u c case (Z.of_nat <$> js) = Some (pair c <$> filter (λ j, test_failed (c, j) = true) js).
Proof.
  intros Hc Hjs. induction js as [|j js IH]; [done|]. rewrite fmap_cons. cbn [failed_of_case].
  rewrite (proj2 (Z.ltb_ge _ _)), Nat2Z.id by lia.
  destruct (lookup_lt_is_Some_2 (test_info_list case) j) as [info Hinfo]; [apply Hjs; set_solver|].
  rewrite Hinfo. cbn [mbind option_bind]. rewrite IH by (intros; apply Hjs; set_solver).
  cbn [mbind option_bind]. f_equal. rewrite filter_cons.
  assert (test_failed (c, j) = should_run_ info && ResultFailed (result_of u (c, j))) as Hf.
  { unfold test_failed. cbn [fst snd]. rewrite Hc. cbn [mbind option_bind]. by rewrite Hinfo. }
  destruct (decide (test_failed (c, j) = true)) as [E|E]; rewrite Hf in E;
    by destruct (should_run_ info), (ResultFailed (result_of u (c, j))).
Qed.

Lemma failed_test_count_filter c case :
  test_cases !! c = Some case →
  failed_test_count u c case = Z.of_nat (length (filter (λ j, test_failed (c, j) = true) (order c))).
Proof.
  intros Hc. unfold failed_test_count. f_equal.
  change (length (filter (λ j, test_failed (c, j) = true) (order c)))
    with (count_true (λ j, test_failed (c, j)) (order c)).
  rewrite (count_true_perm _ _ _ (or_tests _ _ _ Hord c case Hc)), <-fmap_fst_imap_pair, count_true_fmap.
  apply count_true_ext. intros [j info] Hin%elem_of_numbered. unfold compose, test_failed. cbn [fst snd].
  rewrite Hc. cbn [mbind option_bind]. by rewrite Hin.
Qed.

(** A case that is not entered has no failed tests. *)
Lemma skipped_case c case :
  test_cases !! c = Some case → should_run case = false →
  filter (λ j, test_failed (c, j) = true) (order c) = [].
Proof.
  intros Hc Hrun. apply elem_of_nil_inv. intros j [Hj _]%list_elem_of_filter.
  unfold test_failed in Hj. cbn [fst snd] in Hj. rewrite Hc in Hj. cbn [mbind option_bind] in Hj.
  destruct (test_info_list case !! j) as [info|] eqn:E; [|done]. apply andb_true_iff in Hj as [Hj _].
  eapply Forall_lookup_1 in Hc as Hs; [|exact Hcons]. unfold consistent in Hs. rewrite Hrun in Hs.
  symmetry in Hs. apply not_true_iff_false in Hs. apply Hs, existsb_exists. exists info.
  split; [|done]. apply list_elem_of_In. by eapply list_elem_of_lookup_2.
Qed.

Lemma failed_of_cases_filter numbers :
  (∀ c, c ∈ numbers → (c < length test_cases)%nat) →
  failed_of_cases test_cases o u numbers =
  Some (numbers ≫= λ c, pair c <$> filter (λ j, test_failed (c, j) = true) (order c)).
Proof.
  intros Hn. induction numbers as [|c numbers IH]; [done|]. cbn [failed_of_cases].
  assert (c < length test_cases)%nat as Hlt by (apply Hn; set_solver).
  destruct (lookup_lt_is_Some_2 _ _ Hlt) as [case Hc].
  assert (GetTestCase test_cases o (Z.of_nat c) = Some case) as ->.
  { pose proof (in_turn_id cases (length test_cases)) as Ht. unfold in_turn in Ht.
    assert (length cases = length test_cases) as Hl by (by rewrite (or_cases _ _ _ Hord), length_seq).
    specialize (Ht Hl). apply (f_equal (lookup c)) in Ht. rewrite !list_lookup_fmap, lookup_seq_lt in Ht by done.
    destruct (lookup_lt_is_Some_2 cases c) as [k Hk]; [lia|]. rewrite Hk in Ht. simplify_eq/=.
    unfold GetTestCase. rewrite (io_cases _ _ _ _ Ho), Ht, (proj2 (Z.ltb_ge _ _)), Nat2Z.id by lia. done. }
  cbn [mbind option_bind]. rewrite IH by (intros; apply Hn; set_solver). rewrite bind_cons.
  destruct (negb (should_run case) || _) eqn:E; cbn [mbind option_bind].
  - assert (filter (λ j, test_failed (c, j) = true) (order c) = []) as ->; [|done].
    apply orb_true_iff in E as [E%negb_true_iff|E]; [by eapply skipped_case|].
    rewrite (failed_test_count_filter c case Hc) in E. apply nil_length_inv. lia.
  - rewrite (io_tests _ _ _ _ Ho c Hlt). cbn [mbind option_bind].
    pose proof (or_tests _ _ _ Hord c case Hc) as Hp.
    rewrite in_turn_id by (by rewrite Hp, length_seq).
    rewrite (failed_of_case_filter c case _ Hc); [done|].
    intros j. rewrite Hp, elem_of_seq. lia.
Qed.

Lemma failed_tests_all : failed_tests test_cases o u = Some all_failed.
Proof. apply failed_of_cases_filter. intros c. rewrite elem_of_seq. lia. Qed.

Lemma elem_of_all_failed t :
  t ∈ all_failed ↔
  ∃ case info, test_cases !! t.1 = Some case ∧ case.(test_info_list) !! t.2 = Some info ∧
    info.(should_run_) = true ∧ ResultFailed (result_of u t) = true.
Proof.
  unfold all_failed. rewrite list_elem_of_bind. split.
  - intros (c & Ht & _). apply list_elem_of_fmap in Ht as (j & -> & [Hj _]%list_elem_of_filter).
    unfold test_failed in Hj. cbn [fst snd] in *. destruct (test_cases !! c) as [case|]; [|done].
    cbn [mbind option_bind] in Hj. destruct (test_info_list case !! j) as [info|] eqn:E; [|done].
    apply andb_true_iff in Hj as [? ?]. by exists case, info.
  - intros (case & info & H1 & H2 & H3 & H4). exists t.1.
    split; [|apply elem_of_seq; apply lookup_lt_Some in H1; lia].
    apply list_elem_of_fmap. exists t.2. split; [by destruct t|]. apply list_elem_of_filter. split.
    + unfold test_failed. rewrite <-surjective_pairing, H1. cbn [mbind option_bind]. by rewrite H2, H3, H4.
    + rewrite (or_tests _ _ _ Hord t.1 case H1). apply elem_of_seq. apply lookup_lt_Some in H2. lia.
Qed.

Lemma NoDup_all_failed : NoDup all_failed.
Proof.
  unfold all_failed. apply NoDup_bind; [| |apply NoDup_seq].
  - intros c d t _ _ Hc Hd. apply list_elem_of_fmap in Hc as (? & -> & _), Hd as (? & ? & _). by simplify_eq.
  - intros c Hc%elem_of_seq. apply NoDup_fmap_2; [intros ?? ?; by simplify_eq|]. apply NoDup_filter.
    destruct (lookup_lt_is_Some_2 test_cases c) as [case Hcase]; [lia|].
    rewrite (or_tests _ _ _ Hord c case Hcase). apply NoDup_seq.
Qed.
End Failed.

Lemma length_in_cases g (F : nat → list nat) test_cases d :
  (∀ c case, test_cases !! c = Some case → g c case = Z.of_nat (length (F (d + c)%nat))) →
  Z.of_nat (length (seq d (length test_cases) ≫= λ c, pair c <$> F c)) = SumOverTestCaseList g test_cases.
Proof.
  revert g d. induction test_cases as [|case cs IH]; intros g d H; [done|].
  cbn [length seq]. rewrite bind_cons, SumOver_cons, length_app, length_fmap, Nat2Z.inj_add.
  rewrite (H 0%nat case), Nat.add_0_r by done. f_equal. apply IH. intros c x Hx.
  rewrite (H (S c) x) by done. do 3 f_equal. lia.
Qed.

(** What the end of an iteration lists is, once each, the tests that were chosen to run and
    failed; they are as many as the two counts around the list say. *)
Theorem failed_tests_listed env f h registered test_cases n o cases order i u :
  FilterTests env f h registered = Some (test_cases, n) →
  in_order_of test_cases o cases order → orders test_cases cases order →
  ∃ tests,
    failed_tests test_cases o u = Some tests ∧
    PrintFailedTests test_cases i o u = Some (tests ≫= PrintFailedTest test_cases i) ∧
    NoDup tests ∧ Z.of_nat (length tests) = unit_failed_test_count test_cases u ∧
    (∀ t, t ∈ tests ↔
      ∃ case info, test_cases !! t.1 = Some case ∧ case.(test_info_list) !! t.2 = Some info ∧
        info.(should_run_) = true ∧ ResultFailed (result_of u t) = true).
Proof.
  intros Hc%FilterTests_consistent Ho Hord. exists (all_failed test_cases order u).
  pose proof (failed_tests_all test_cases o cases order u Hc Ho Hord) as Hall.
  assert (Z.of_nat (length (all_failed test_cases order u)) = unit_failed_test_count test_cases u) as Hl.
  { apply length_in_cases. intros c case Hcase. by eapply failed_test_count_filter. }
  split_and!; [done| |by eapply NoDup_all_failed|done|intros t; by eapply elem_of_all_failed].
  unfold PrintFailedTests. rewrite Hall. destruct (_ =? 0) eqn:E; [|done].
  by rewrite (nil_length_inv (all_failed test_cases order u)) by lia.
Qed.

(** * The listing *)

Lemma one_line_loop_ok max_length str i :
  0 <= i <= max_length + 1 →
  10 ∉ one_line_loop str i max_length ∧
  Z.of_nat (length (one_line_loop str i max_length)) <= max_length + 4 - i.
Proof.
  revert i. induction str as [|c str IH]; intros i Hi; cbn [one_line_loop]; [split; [set_solver|simpl; lia]|].
  destruct (max_length <=? i) eqn:E; [split; [by vm_compute; set_solver|simpl; lia]|].
  destruct (c =? 10) eqn:E10.
  - destruct (IH (i + 2)) as [H1 H2]; [lia|]. split; [set_solver|]. cbn [app length]. lia.
  - destruct (IH (i + 1)) as [H1 H2]; [lia|]. split; [|cbn [length]; lia].
    apply not_elem_of_cons. split; [lia|done].
Qed.

(** A parameter is printed on one line, in at most four characters more than the limit. *)
Theorem PrintOnOneLine_bounded str max_length :
  0 <= max_length →
  10 ∉ PrintOnOneLine str max_length ∧
  Z.of_nat (length (PrintOnOneLine str max_length)) <= max_length + 4.
Proof.
  intros H. destruct (one_line_loop_ok max_length (from_c_str str) 0) as [H1 H2]; [lia|].
  split; [done|]. unfold PrintOnOneLine. lia.
Qed.

(** The bound is met: a new line at the end of the limit, and the dots behind it. *)
Lemma PrintOnOneLine_exceeds :
  length (PrintOnOneLine (replicate 249 97 ++ [10; 97]) kMaxParamLength) = 254%nat.
Proof. vm_compute. reflexivity. Qed.

(** A program that reads the listing: two spaces are before the name of a test; what follows a
    name begins with a space. *)
Fixpoint until_blank (l : list Z) : list Z :=
  match l with [] => [] | c :: l => if c =? 32 then [] else c :: until_blank l end.

Fixpoint read_listed (lines : list (list Z)) : list (list Z) * list (list Z * list (list Z)) :=
  match lines with
  | [] => ([], [])
  | line :: lines =>
      let '(tests, cases) := read_listed lines in
      if decide (take 2 line = [32; 32]) then (until_blank (drop 2 line) :: tests, cases)
      else ([], (removelast (until_blank line), tests) :: cases)
  end.
Definition read_listing (l : list Z) : list (list Z * list (list Z)) :=
  (read_listed (removelast (SplitString l 10))).2.

(** What it should read. *)
Definition matching_tests (case : TestCase) : list (list Z) :=
  (name_text ∘ test_name) <$> filter (λ t, t.(matches_filter_) = true) case.(test_info_list).
Definition matching_cases (test_cases : list TestCase) : list (list Z * list (list Z)) :=
  test_cases ≫= λ case,
    match matching_tests case with
    | [] => []
    | tests => [(name_text case.(case_name), tests)]
    end.

(** Names of tests are identifiers, with slashes. *)
Definition simple (name : list ascii) : Prop := 32 ∉ name_text name ∧ 10 ∉ name_text name.

Section Listing.
Variable case_type_param : nat → option string.
Variable test_value_param : TestId → option string.

(** The lines of the listing. *)
Definition case_line (c : nat) (case : TestCase) : list Z :=
  name_text case.(case_name) ++ text "." ++ parameter_comment kTypeParamLabel (case_type_param c).
Definition test_line (t : TestId) (info : TestInfo) : list Z :=
  text "  " ++ name_text info.(test_name) ++ parameter_comment kValueParamLabel (test_value_param t).
Fixpoint test_lines (c j : nat) (tests : list TestInfo) : list (list Z) :=
  match tests with
  | [] => []
  | info :: tests =>
      if info.(matches_filter_) then test_line (c, j) info :: test_lines c (S j) tests
      else test_lines c (S j) tests
  end.
Definition headed (b : bool) (c : nat) (case : TestCase) (ls : list (list Z)) : list (list Z) :=
  match ls with [] => [] | _ => (if b then [] else [case_line c case]) ++ ls end.
Definition case_lines (c : nat) (case : TestCase) : list (list Z) :=
  headed false c case (test_lines c 0 case.(test_info_list)).

Lemma lines_cons m ms : lines (m :: ms) = m ++ 10 :: lines ms.
Proof. unfold lines. by rewrite bind_cons, <-app_assoc. Qed.
Lemma lines_app ms ns : lines (ms ++ ns) = lines ms ++ lines ns.
Proof. unfold lines. by rewrite bind_app. Qed.

Lemma list_tests_lines c case j tests b :
  list_tests case_type_param test_value_param c case j tests b =
  lines (headed b c case (test_lines c j tests)).
Proof.
  revert j b. induction tests as [|info tests IH]; intros j b; [done|].
  cbn [list_tests test_lines]. rewrite !IH. destruct (matches_filter_ info); [|done].
  cbn [headed]. rewrite lines_app, lines_cons.
  assert (lines (headed true c case (test_lines c (S j) tests)) = lines (test_lines c (S j) tests)) as ->
    by (by destruct (test_lines _ _ _)).
  f_equal; [destruct b; [done|]|].
  - rewrite lines_cons. unfold case_line, list_case. by rewrite <-!app_assoc.
  - unfold test_line, list_test. by rewrite <-!app_assoc.
Qed.

Lemma comment_ok label p :
  10 ∉ label →
  10 ∉ parameter_comment label p ∧
  (∀ name, 32 ∉ name → until_blank (name ++ parameter_comment label p) = name).
Proof.
  intros Hl. split.
  - destruct p as [p|]; [|set_solver]. unfold parameter_comment.
    destruct (PrintOnOneLine_bounded (text p) kMaxParamLength) as [H _]; [done|].
    rewrite !not_elem_of_app. repeat split; try done; by vm_compute; set_solver.
  - intros name. induction name as [|x name IH]; intros Hn; [by destruct p|].
    cbn [app until_blank]. rewrite (proj2 (Z.eqb_neq x 32)) by set_solver. by rewrite IH by set_solver.
Qed.

Lemma read_test_lines c j tests rest :
  Forall (λ t, simple t.(test_name)) tests →
  read_listed (test_lines c j tests ++ rest) =
  (((name_text ∘ test_name) <$> filter (λ t, t.(matches_filter_) = true) tests) ++ (read_listed rest).1,
   (read_listed rest).2).
Proof.
  intros Ht. revert j. induction Ht as [|info tests [Hs _] _ IH]; intros j; [by apply surjective_pairing|].
  cbn [test_lines]. rewrite filter_cons. destruct (matches_filter_ info); [|by apply IH].
  rewrite decide_True by done. cbn [app]. unfold test_line at 1.
  cbn [read_listed]. rewrite IH.
  set (l := name_text _ ++ _). change (take 2 (text "  " ++ l)) with [32; 32].
  rewrite decide_True by done. change (drop 2 (text "  " ++ l)) with l. unfold l.
  by rewrite (proj2 (comment_ok kValueParamLabel (test_value_param (c, j)) ltac:(by vm_compute; set_solver))).
Qed.

Lemma read_case_line c case rest :
  simple case.(case_name) →
  read_listed (case_line c case :: rest) =
  ([], (name_text case.(case_name), (read_listed rest).1) :: (read_listed rest).2).
Proof.
  intros [Hs _]. unfold case_line. rewrite app_assoc. set (name := name_text (case_name case)) in *.
  cbn [read_listed]. rewrite (surjective_pairing (read_listed rest)).
  rewrite (proj2 (comment_ok kTypeParamLabel (case_type_param c) ltac:(by vm_compute; set_solver))) by
    (rewrite not_elem_of_app; split; [done|by vm_compute; set_solver]).
  change (text ".") with [46]. rewrite removelast_last, decide_False; [done|].
  destruct name as [|x name]; [done|]. cbn. intros [= -> _]. set_solver.
Qed.

Lemma lines_without_breaks c j tests :
  Forall (λ t, simple t.(test_name)) tests → Forall (λ l, 10 ∉ l) (test_lines c j tests).
Proof.
  intros Ht. revert j. induction Ht as [|info tests [_ Hn] _ IH]; intros j; [constructor|].
  cbn [test_lines]. destruct (matches_filter_ info); [|done]. constructor; [|done].
  unfold test_line. rewrite !not_elem_of_app. split; [by vm_compute; set_solver|]. split; [done|].
  apply comment_ok. by vm_compute; set_solver.
Qed.

Lemma length_test_lines c j tests :
  length (test_lines c j tests) = length (filter (λ t, t.(matches_filter_) = true) tests).
Proof.
  revert j. induction tests as [|info tests IH]; intros j; [done|]. cbn [test_lines]. rewrite filter_cons.
  destruct (matches_filter_ info); [|by apply IH]. rewrite decide_True by done. cbn [length]. by rewrite IH.
Qed.

Lemma case_lines_ok c case rest :
  simple case.(case_name) → Forall (λ t, simple t.(test_name)) case.(test_info_list) →
  (read_listed rest).1 = [] →
  Forall (λ l, 10 ∉ l) (case_lines c case) ∧
  read_listed (case_lines c case ++ rest) =
  ([], match matching_tests case with
       | [] => []
       | tests => [(name_text case.(case_name), tests)]
       end ++ (read_listed rest).2).
Proof.
  intros Hc Ht Hrest. pose proof (lines_without_breaks c 0 _ Ht) as Hl.
  pose proof (read_test_lines c 0 _ rest Ht) as Hr. fold (matching_tests case) in Hr.
  pose proof (length_test_lines c 0 (test_info_list case)) as Hn.
  rewrite <-(length_fmap (name_text ∘ test_name)) in Hn. fold (matching_tests case) in Hn.
  unfold case_lines. destruct (test_lines c 0 (test_info_list case)) as [|l ls], (matching_tests case) as [|t ts];
    try done; cbn [headed].
  - split; [done|]. by rewrite Hr, Hrest.
  - split.
    + constructor; [|done]. unfold case_line. rewrite !not_elem_of_app.
      split; [by apply Hc|]. split; [by vm_compute; set_solver|]. apply comment_ok. by vm_compute; set_solver.
    + change (([case_line c case] ++ l :: ls) ++ rest) with (case_line c case :: ((l :: ls) ++ rest)).
      rewrite read_case_line, Hr, Hrest by done. by rewrite app_nil_r.
Qed.

Lemma listing_ok (xs : list (nat * TestCase)) :
  Forall (λ case, simple case.(case_name) ∧ Forall (λ t, simple t.(test_name)) case.(test_info_list)) xs.*2 →
  (xs ≫= λ x, list_tests case_type_param test_value_param x.1 x.2 0 x.2.(test_info_list) false) =
    lines (xs ≫= λ x, case_lines x.1 x.2) ∧
  Forall (λ l, 10 ∉ l) (xs ≫= λ x, case_lines x.1 x.2) ∧
  read_listed (xs ≫= λ x, case_lines x.1 x.2) = ([], matching_cases xs.*2).
Proof.
  induction xs as [|[c case] xs IH]; [by repeat constructor|].
  rewrite fmap_cons, !bind_cons. cbn [fst snd]. intros [[Hc Ht] Hxs]%Forall_cons.
  destruct (IH Hxs) as (IH1 & IH2 & IH3).
  destruct (case_lines_ok c case _ Hc Ht (f_equal fst IH3)) as [H1 H2].
  rewrite list_tests_lines, IH1, lines_app, H2, IH3.
  split; [done|]. split; [by apply Forall_app|]. done.
Qed.

(** The listing of [--gtest_list_tests] is read back by a program as the test cases with tests
    that match the filter, and these tests, in the order of their registration; whatever the
    parameters are that it shows. *)
Theorem listing_reads_back test_cases :
  Forall (λ case, simple case.(case_name) ∧ Forall (λ t, simple t.(test_name)) case.(test_info_list)) test_cases →
  read_listing (ListTestsMatchingFilter case_type_param test_value_param test_cases) =
  matching_cases test_cases.
Proof.
  intros H. rewrite <-(fmap_snd_imap_pair test_cases) in H. apply listing_ok in H as (H1 & H2 & H3).
  unfold read_listing, ListTestsMatchingFilter. rewrite H1, <-lines_joined, SplitString_of_joined.
  - rewrite removelast_last, H3. cbn [snd]. by rewrite fmap_snd_imap_pair.
  - apply Forall_app. split; [done|]. repeat constructor. apply not_elem_of_nil.
  - by intros [_ [=]]%app_eq_nil.
Qed.
End Listing.

(** * Examples *)

Module Example_console.
Import RunnerFacts.Example_runner.

Definition no_env : Environment := λ _, None.
Definition options : Options := mkOptions 1 (text "*") false false false.
Definition info : Info := mkInfo (λ _, None) (λ _, None) (λ _, 0) (λ _, 0) 0 0 false 0.

Definition three : list TestCase :=
  [mkCase (bytes "NodeTest") true
     [mkTest (bytes "Votes") false true true; mkTest (bytes "DISABLED_Slow") true true false];
   mkCase (bytes "LockTest") true [mkTest (bytes "Locks") false true true]].

Definition in_turn_order : Order := unshuffled 0 (test_counts three) 0.

(** A test failed: its name is listed between the counts. *)
Definition locks_failed : Unit :=
  set_results {[ (1, 0)%nat := mkResult [mkPart kFatalFailure (Some "lock.cc") 7 "no"] [] ]} start.

Lemma end_of_iteration :
  render false <$> IterationEnd options three info in_turn_order locks_failed = Some (
    text "[==========] 2 tests from 2 test cases ran." ++ eol ++
    text "[  PASSED  ] 1 test." ++ eol ++
    text "[  FAILED  ] 1 test, listed below:" ++ eol ++
    text "[  FAILED  ] LockTest.Locks" ++ eol ++ eol ++
    text " 1 FAILED TEST" ++ eol ++
    text "  YOU HAVE 1 DISABLED TEST" ++ eol ++ eol).
Proof. vm_compute. reflexivity. Qed.

(** An environment failed in its set-up: no test runs, all of them are said to have run and
    passed; no failed test is listed, and the empty line that stands for the banner of failures
    is behind the banner. *)
Definition failed_set_up : Unit :=
  (run_iteration (mkConfig true false false false 0 1 [0%nat] true
       [mkEnvironment (always [fails kFatalFailure "no network"]) quiet] [])
     0 three true in_turn_order start).2.

Theorem unrun_tests_are_counted_as_passed :
  failed_set_up.(calls) = [EnvSetUp 0; EnvTearDown 0] ∧
  render false <$> IterationEnd options three info in_turn_order failed_set_up = Some (
    text "[==========] 2 tests from 2 test cases ran." ++ eol ++
    text "[  PASSED  ] 2 tests." ++ eol ++
    text "[  FAILED  ] 0 tests, listed below:" ++ eol ++ eol ++
    text " 0 FAILED TESTS" ++ eol ++ eol ++
    text "  YOU HAVE 1 DISABLED TEST" ++ eol ++ eol).
Proof. vm_compute. by split. Qed.

Lemma colors_only_add_escapes_witness :
  strip false (render true (TestStart three (1, 0)%nat)) = text "[ RUN      ] LockTest.Locks" ++ eol.
Proof.
  rewrite (colors_only_add_escapes true); [by vm_compute|]. vm_compute. repeat constructor; set_solver.
Defined.

Lemma failed_tests_listed_witness :
  ∃ tests,
    failed_tests three in_turn_order locks_failed = Some tests ∧
    Z.of_nat (length tests) = unit_failed_test_count three locks_failed.
Proof.
  destruct (registered_orders three 0 0) as [Ho Hord].
  destruct (failed_tests_listed no_env (mkFlags (bytes "*") false) false three three 2 in_turn_order
    (seq 0 (length three)) (registered three) info locks_failed) as (tests & H1 & _ & _ & H2 & _);
    [by vm_compute|done|done|by exists tests].
Defined.

Lemma listing_reads_back_witness :
  read_listing (ListTestsMatchingFilter (λ _, Some "int") (λ _, Some "a b") three) =
  [(text "NodeTest", [text "Votes"; text "DISABLED_Slow"]); (text "LockTest", [text "Locks"])].
Proof.
  apply (listing_reads_back (λ _, Some "int") (λ _, Some "a b") three).
  unfold simple. repeat constructor; vm_compute; set_solver.
Defined.
End Example_console.
