(* ===== verification/TypedTests.v ===== *)
(** Typed and type-parameterised tests of Google Test
    ([src/lib/googletest/src/gtest-typed-test.cc] and
    [include/gtest/internal/gtest-internal.h]): the names that
    [REGISTER_TYPED_TEST_CASE_P] lists, and the tests that are made of names and types.

    A text is the list of its bytes, none of them a NUL.  The types of a list are the names
    that [GetTypeName] gives; the classes of the tests are as many as the list
    [Templates<...>] has. *)

From S2P Require Import Prelude Strings Utf8 Assertions TestRun Runner.
From stdpp Require Import base gmap sets list strings.
From Stdlib Require Import ZArith Ascii.

Open Scope Z_scope.

(** * Lists of names *)

(** [isspace] of the C locale. *)
Definition IsSpace (ch : Z) : bool := (ch =? 32) || ((9 <=? ch) && (ch <=? 13)).

Fixpoint SkipSpaces (str : list Z) : list Z :=
  match str with
  | [] => []
  | c :: rest => if IsSpace c then SkipSpaces rest else str
  end.

Definition StripTrailingSpaces (str : list Z) : list Z := reverse (SkipSpaces (reverse str)).

(** [None] is a null pointer. *)
Definition SkipComma (str : list Z) : option (list Z) :=
  comma ← find_char 44 str; Some (SkipSpaces (drop (S comma) str)).

Definition GetPrefixUntilComma (str : list Z) : list Z :=
  match find_char 44 str with None => str | Some comma => take comma str end.

(** The loop; every round but the last takes a comma. *)
Fixpoint names_loop (fuel : nat) (src : list Z) : list (list Z) :=
  StripTrailingSpaces (GetPrefixUntilComma src) ::
  match fuel, SkipComma src with
  | S fuel, Some src => names_loop fuel src
  | _, _ => []
  end.
Definition SplitIntoTestNames (src : list Z) : list (list Z) :=
  names_loop (length src) (SkipSpaces src).

(** * The state of a test case *)

Record CodeLocation := mkLocation { loc_file : string; loc_line : Z }.

(** Order of [std::string]. *)
Fixpoint str_lt (a b : list Z) : bool :=
  match a, b with
  | [], [] => false
  | [], _ :: _ => true
  | _ :: _, [] => false
  | x :: a, y :: b => if x <? y then true else if y <? x then false else str_lt a b
  end.

(** [RegisteredTestsMap]: a [std::map], in the order of its keys; [insert] does not replace. *)
Definition RegisteredTestsMap : Type := list (list Z * CodeLocation).

Fixpoint insert_key (k : list Z) (v : CodeLocation) (m : RegisteredTestsMap) : RegisteredTestsMap :=
  match m with
  | [] => [(k, v)]
  | (k', v') :: rest =>
      if str_lt k k' then (k, v) :: m
      else if str_lt k' k then (k', v') :: insert_key k v rest else m
  end.
Fixpoint map_find (k : list Z) (m : RegisteredTestsMap) : option CodeLocation :=
  match m with
  | [] => None
  | (k', v) :: m => if decide (k' = k) then Some v else map_find k m
  end.

Record TypedTestCasePState := mkState { registered_ : bool; registered_tests_ : RegisteredTestsMap }.
Definition new_state : TypedTestCasePState := mkState false [].

(** A result, an abort of the program behind what is on its standard error, or a null pointer
    that is read. *)
Inductive Verdict (A : Type) := Done (a : A) | Aborted (err : list Z) | NullRead.
Arguments Done {A} _.
Arguments Aborted {A} _.
Arguments NullRead {A}.

Definition location_text (file : string) (line : Z) : list Z := text (FormatFileLocation (Some file) line).

Definition AddTestName (file : string) (line : Z) (case_name test_name : list Z) (s : TypedTestCasePState)
    : Verdict TypedTestCasePState :=
  if s.(registered_) then
    Aborted (location_text file line ++ text " Test " ++ test_name ++
             text " must be defined before REGISTER_TYPED_TEST_CASE_P(" ++ case_name ++ text ", ...)." ++ [10])
  else Done (mkState s.(registered_) (insert_key test_name (mkLocation file line) s.(registered_tests_))).

Definition TestExists (s : TypedTestCasePState) (test_name : list Z) : bool :=
  match map_find test_name s.(registered_tests_) with Some _ => true | None => false end.
Definition GetCodeLocation (s : TypedTestCasePState) (test_name : list Z) : option CodeLocation :=
  map_find test_name s.(registered_tests_).

(** The loop over the names that are listed: the names found, and the errors. *)
Fixpoint check_listed (registered : RegisteredTestsMap) (name_vec : list (list Z))
    (tests : gset (list Z)) (errors : list Z) : gset (list Z) * list Z :=
  match name_vec with
  | [] => (tests, errors)
  | name :: name_vec =>
      if decide (name ∈ tests) then
        check_listed registered name_vec tests
          (errors ++ text "Test " ++ name ++ text " is listed more than once." ++ [10])
      else if existsb (λ it, bool_decide (name = it.1)) registered then
        check_listed registered name_vec ({[ name ]} ∪ tests) errors
      else
        check_listed registered name_vec tests
          (errors ++ text "No test named " ++ name ++ text " can be found in this test case." ++ [10])
  end.

(** The loop over the tests that were defined. *)
Fixpoint check_forgotten (registered : RegisteredTestsMap) (tests : gset (list Z)) (errors : list Z) : list Z :=
  match registered with
  | [] => errors
  | (name, _) :: registered =>
      check_forgotten registered tests
        (if decide (name ∈ tests) then errors
         else errors ++ text "You forgot to list test " ++ name ++ text "." ++ [10])
  end.

Definition VerifyRegisteredTestNames (file : string) (line : Z) (registered_tests : list Z)
    (s : TypedTestCasePState) : Verdict (list Z * TypedTestCasePState) :=
  let name_vec := SplitIntoTestNames registered_tests in
  let '(tests, errors) := check_listed s.(registered_tests_) name_vec ∅ [] in
  let errors := check_forgotten s.(registered_tests_) tests errors in
  let errors_str := StringStreamToString errors in
  if decide (errors_str = []) then Done (registered_tests, mkState true s.(registered_tests_))
  else Aborted (location_text file line ++ [32] ++ errors_str).

(** * Registration *)

(** What [MakeAndRegisterTestInfo] is called with. *)
Record TypedTest := mkTyped {
  typed_case_name : list Z;
  typed_name : list Z;
  type_name : list Z;
  code_location : CodeLocation
}.

Definition typed_case (prefix case_name : list Z) (index : nat) : list Z :=
  prefix ++ match prefix with [] => [] | _ => text "/" end ++ case_name ++ text "/" ++
  text (to_string (Z.of_nat index)).

(** [TypeParameterizedTest::Register]. *)
Fixpoint RegisterForTypes (prefix : list Z) (location : CodeLocation) (case_name test_names : list Z)
    (types : list (list Z)) (index : nat) : list TypedTest :=
  match types with
  | [] => []
  | type :: types =>
      mkTyped (typed_case prefix case_name index)
        (StripTrailingSpaces (GetPrefixUntilComma test_names)) type location ::
      RegisterForTypes prefix location case_name test_names types (S index)
  end.

(** [TypeParameterizedTestCase::Register], for [tests] classes. *)
Fixpoint RegisterCombinations (prefix : list Z) (location : CodeLocation) (state : TypedTestCasePState)
    (case_name : list Z) (test_names : option (list Z)) (tests : nat) (types : list (list Z))
    : Verdict (list TypedTest) :=
  match tests with
  | O => Done []
  | S tests =>
      match test_names with
      | None => NullRead
      | Some test_names =>
          let test_name := StripTrailingSpaces (GetPrefixUntilComma test_names) in
          if negb (TestExists state test_name) then
            Aborted (text "Failed to get code location for test " ++ case_name ++ text "." ++ test_name ++
                     text " at " ++ location_text location.(loc_file) location.(loc_line) ++ text ".")
          else
            match GetCodeLocation state test_name with
            | None => Aborted (text "Condition it != registered_tests_.end() failed. ")
            | Some test_location =>
                match RegisterCombinations prefix location state case_name (SkipComma test_names) tests types with
                | Done rest => Done (RegisterForTypes prefix test_location case_name test_names types 0 ++ rest)
                | v => v
                end
            end
      end
  end.
