(* ===== verification/TypedTestsFacts.v ===== *)
(** The lists of names of type-parameterised tests: how they are split, when they are accepted,
    and that an accepted list gives every combination of its tests and the types. *)

From S2P Require Import Prelude Strings Utf8 Utf8Facts Assertions AssertionsFacts TestRun Runner StreamingFacts TypedTests.
From stdpp Require Import base gmap sets list strings.
From Stdlib Require Import ZArith Lia Ascii Sorting.Sorted.

Open Scope Z_scope.

(** * Splitting *)

Definition trimmed (p : list Z) : list Z := StripTrailingSpaces (SkipSpaces p).

Lemma SkipSpaces_comma p rest : SkipSpaces (p ++ 44 :: rest) = SkipSpaces p ++ 44 :: rest.
Proof. induction p as [|c p IH]; [done|]. cbn [app SkipSpaces]. by destruct (IsSpace c). Qed.

Lemma SkipSpaces_sub p x : x ∈ SkipSpaces p → x ∈ p.
Proof. induction p as [|c p IH]; [done|]. cbn [SkipSpaces]. destruct (IsSpace c); set_solver. Qed.

Lemma length_SkipSpaces p : (length (SkipSpaces p) <= length p)%nat.
Proof. induction p as [|c p IH]; [done|]. cbn [SkipSpaces]. destruct (IsSpace c); simpl; lia. Qed.

Lemma prefix_comma p rest : 44 ∉ p → GetPrefixUntilComma (p ++ 44 :: rest) = p.
Proof. intros H. unfold GetPrefixUntilComma. by rewrite find_char_app, take_app_length. Qed.

Lemma SkipComma_comma p rest : 44 ∉ p → SkipComma (p ++ 44 :: rest) = Some (SkipSpaces rest).
Proof.
  intros H. unfold SkipComma. rewrite find_char_app by done. cbn [mbind option_bind].
  by rewrite (drop_app_ge _ _ (S _)), Nat.sub_succ_l, Nat.sub_diag by lia.
Qed.

Lemma last_piece p : 44 ∉ p → GetPrefixUntilComma p = p ∧ SkipComma p = None.
Proof. intros H. unfold GetPrefixUntilComma, SkipComma. by rewrite find_char_absent. Qed.

Lemma names_loop_joined ps fuel :
  Forall (λ p, 44 ∉ p) ps → ps ≠ [] → (length ps <= S fuel)%nat →
  names_loop fuel (SkipSpaces (joined 44 ps)) = trimmed <$> ps.
Proof.
  intros Hps. revert fuel. induction Hps as [|p ps Hp Hps IH]; intros fuel Hne Hf; [done|].
  assert (44 ∉ SkipSpaces p) as Hs by (by intros ?%SkipSpaces_sub).
  destruct ps as [|q ps].
  - cbn [joined]. destruct (last_piece _ Hs) as [H1 H2].
    destruct fuel; cbn [names_loop]; by rewrite H1, ?H2.
  - rewrite joined_cons, SkipSpaces_comma by done. destruct fuel as [|fuel]; [cbn in Hf; lia|].
    cbn [names_loop]. rewrite prefix_comma, SkipComma_comma, IH by (done || cbn in *; lia). done.
Qed.

Lemma length_joined d ps : ps ≠ [] → (length ps <= S (length (joined d ps)))%nat.
Proof.
  induction ps as [|p ps IH]; intros H; [done|]. destruct ps as [|q ps]; [cbn; lia|].
  rewrite joined_cons by done. rewrite length_app. cbn [length]. specialize (IH ltac:(done)). cbn in *. lia.
Qed.

Lemma split_names src : SplitIntoTestNames src = trimmed <$> SplitString src 44.
Proof.
  destruct (split_string_spec 44 src) as (H1 & H2 & H3). unfold SplitIntoTestNames.
  rewrite <-H1 at 1 2. apply names_loop_joined; [done|done|by apply length_joined].
Qed.

(** The names are the parts between the commas, without the spaces around them. *)
Theorem SplitIntoTestNames_parts src : SplitIntoTestNames src = trimmed <$> SplitString src 44.
Proof. apply split_names. Qed.

(** * The map *)

Lemma str_lt_irrefl a : str_lt a a = false.
Proof. induction a as [|x a IH]; [done|]. cbn [str_lt]. by rewrite Z.ltb_irrefl. Qed.

Lemma str_lt_trans a b c : str_lt a b = true → str_lt b c = true → str_lt a c = true.
Proof.
  revert b c. induction a as [|x a IH]; intros [|y b] [|z c]; cbn [str_lt]; try done.
  destruct (x <? y) eqn:E1, (y <? x) eqn:E2, (y <? z) eqn:E3, (z <? y) eqn:E4; try done; intros H1 H2;
    try lia; try (by rewrite (proj2 (Z.ltb_lt x z)) by lia).
  rewrite (proj2 (Z.ltb_ge x z)), (proj2 (Z.ltb_ge z x)) by lia. by eapply IH.
Qed.

Lemma str_lt_total a b : str_lt a b = false → str_lt b a = false → a = b.
Proof.
  revert b. induction a as [|x a IH]; intros [|y b]; cbn [str_lt]; try done.
  destruct (x <? y) eqn:E1, (y <? x) eqn:E2; try done. intros H1 H2.
  f_equal; [lia|by apply IH].
Qed.

(** The keys of a map go up. *)
Definition ordered (m : RegisteredTestsMap) : Prop := StronglySorted (λ a b, str_lt a b = true) m.*1.

Lemma elem_of_insert k v m x : x ∈ (insert_key k v m).*1 ↔ x = k ∨ x ∈ m.*1.
Proof.
  induction m as [|[k' v'] m IH]; cbn [insert_key]; [set_solver|].
  destruct (str_lt k k') eqn:E1; [set_solver|]. destruct (str_lt k' k) eqn:E2; [set_solver|].
  apply str_lt_total in E1; [|done]. set_solver.
Qed.

Lemma insert_key_ordered k v m : ordered m → ordered (insert_key k v m).
Proof.
  unfold ordered. induction m as [|[k' v'] m IH]; intros Hm; cbn [insert_key];
    [repeat constructor|].
  rewrite fmap_cons in Hm. apply StronglySorted_inv in Hm as [Hm Hk]. cbn [fst] in Hk.
  destruct (str_lt k k') eqn:E1.
  - rewrite !fmap_cons. constructor; [by constructor|]. constructor; [done|].
    eapply Forall_impl; [exact Hk|]. intros y Hy. by eapply str_lt_trans.
  - destruct (str_lt k' k) eqn:E2; rewrite fmap_cons; constructor; auto.
    apply Forall_forall. intros y [->|Hy]%elem_of_insert; [done|].
    by eapply Forall_forall in Hk.
Qed.

Lemma ordered_NoDup m : ordered m → NoDup m.*1.
Proof.
  unfold ordered. induction 1 as [|k ks _ IH Hk]; constructor; [|done].
  intros Hin. eapply Forall_forall in Hk; [|exact Hin]. by rewrite str_lt_irrefl in Hk.
Qed.

Lemma map_find_elem k m : is_Some (map_find k m) ↔ k ∈ m.*1.
Proof.
  induction m as [|[k' v] m IH]; cbn [map_find]; [split; [by intros []|set_solver]|].
  rewrite fmap_cons, elem_of_cons. cbn [fst]. destruct (decide (k' = k)) as [->|Hn]; [naive_solver|].
  rewrite IH. naive_solver.
Qed.

(** * The lists that are accepted *)

Lemma app_snoc_ne {A} (l r : list A) x : l ++ r ++ [x] ≠ [].
Proof. rewrite app_assoc. by intros [_ [=]]%app_eq_nil. Qed.

Lemma check_listed_grows registered names tests errors :
  errors ≠ [] → (check_listed registered names tests errors).2 ≠ [].
Proof.
  revert tests errors. induction names as [|n names IH]; intros tests errors H; [done|].
  cbn [check_listed]. destruct (decide _); [|destruct (existsb _ _)]; apply IH; try done;
    by intros [? _]%app_eq_nil.
Qed.

Lemma registered_key name registered :
  existsb (λ it, bool_decide (name = it.1)) registered = true ↔ name ∈ (registered : RegisteredTestsMap).*1.
Proof.
  rewrite existsb_exists, list_elem_of_fmap. split.
  - intros (it & Hin & H%bool_decide_eq_true). exists it. by split; [|apply list_elem_of_In].
  - intros (it & -> & Hin). exists it. split; [by apply list_elem_of_In|by apply bool_decide_eq_true].
Qed.

Lemma check_listed_spec registered names tests :
  (check_listed registered names tests []).2 = [] ↔
  NoDup names ∧ (∀ n, n ∈ names → n ∉ tests ∧ n ∈ registered.*1).
Proof.
  revert tests. induction names as [|n names IH]; intros tests.
  { cbn. split; [|done]. intros _. split; [constructor|]. set_solver. }
  cbn [check_listed]. rewrite NoDup_cons. destruct (decide (n ∈ tests)) as [Hn|Hn].
  { split; [|set_solver]. intros H. exfalso. revert H. apply check_listed_grows. done. }
  destruct (existsb _ _) eqn:E.
  - apply registered_key in E. rewrite IH. set_solver.
  - split; [|intros [_ H]; destruct (H n) as [_ Hr]; [set_solver|apply registered_key in Hr; congruence]].
    intros H. exfalso. revert H. apply check_listed_grows. done.
Qed.

Lemma check_listed_tests registered names tests :
  (check_listed registered names tests []).2 = [] →
  ∀ n, n ∈ (check_listed registered names tests []).1 ↔ n ∈ tests ∨ n ∈ names.
Proof.
  revert tests. induction names as [|n names IH]; intros tests; cbn [check_listed]; [set_solver|].
  destruct (decide _); [|destruct (existsb _ _)].
  - intros H. exfalso. revert H. apply check_listed_grows. done.
  - intros H x. rewrite IH by done. set_solver.
  - intros H. exfalso. revert H. apply check_listed_grows. done.
Qed.

Lemma check_forgotten_spec registered tests errors :
  check_forgotten registered tests errors = [] ↔ errors = [] ∧ ∀ n, n ∈ registered.*1 → n ∈ tests.
Proof.
  revert errors. induction registered as [|[n v] registered IH]; intros errors; cbn [check_forgotten]; [set_solver|].
  rewrite IH. destruct (decide (n ∈ tests)); [set_solver|]. split.
  - intros [[_ [=]]%app_eq_nil _].
  - intros [_ H]. exfalso. set_solver.
Qed.

Lemma StringStreamToString_nil l : StringStreamToString l = [] ↔ l = [].
Proof. unfold StringStreamToString. destruct l as [|c l]; [done|]. cbn. by destruct (_ =? _). Qed.

Lemma verified file line listed s :
  ordered s.(registered_tests_) →
  (SplitIntoTestNames listed ≡ₚ s.(registered_tests_).*1 ∧
   VerifyRegisteredTestNames file line listed s = Done (listed, mkState true s.(registered_tests_))) ∨
  (¬ SplitIntoTestNames listed ≡ₚ s.(registered_tests_).*1 ∧
   ∃ err, VerifyRegisteredTestNames file line listed s = Aborted err).
Proof.
  intros Hs%ordered_NoDup. unfold VerifyRegisteredTestNames. set (names := SplitIntoTestNames listed).
  pose proof (check_listed_spec s.(registered_tests_) names ∅) as H1.
  pose proof (check_listed_tests s.(registered_tests_) names ∅) as H2.
  destruct (check_listed _ _ _ _) as [tests errors]. cbn [fst snd] in *.
  pose proof (check_forgotten_spec s.(registered_tests_) tests errors) as H3.
  rewrite <-StringStreamToString_nil in H3.
  destruct (decide _) as [E|E]; [left|right].
  - apply H3 in E as [He Hf]. pose proof (H2 He) as Ht. apply H1 in He as [Hn He].
    split; [|done]. apply NoDup_Permutation; [done|done|]. set_solver.
  - split; [|by eexists]. intros Hp. apply E, H3.
    assert (errors = []) as He by (apply H1; split; [by rewrite Hp|intros n Hn; split; [set_solver|by rewrite <-Hp]]).
    split; [done|]. intros n Hn. apply (H2 He). right. by rewrite Hp.
Qed.

(** A map of tests is built by [AddTestName]. *)
Inductive built : TypedTestCasePState → Prop :=
  | built_new : built new_state
  | built_add s file line case_name test_name s' :
      built s → AddTestName file line case_name test_name s = Done s' → built s'.

Lemma built_ordered s : built s → ordered s.(registered_tests_).
Proof.
  induction 1 as [|s file line c t s' _ IH H]; [constructor|]. unfold AddTestName in H.
  destruct (registered_ s); simplify_eq. by apply insert_key_ordered.
Qed.

(** A list of names is accepted exactly if it has each test that was defined, and nothing else,
    once; in any other case the program ends.  After that no test can be defined. *)
Theorem list_is_accepted file line listed s :
  built s →
  ((∃ r, VerifyRegisteredTestNames file line listed s = Done r) ↔
   SplitIntoTestNames listed ≡ₚ s.(registered_tests_).*1) ∧
  (∀ r s', VerifyRegisteredTestNames file line listed s = Done (r, s') →
    r = listed ∧ s'.(registered_tests_) = s.(registered_tests_) ∧
    ∀ f l c t, ∃ err, AddTestName f l c t s' = Aborted err).
Proof.
  intros Hs%built_ordered. destruct (verified file line listed s Hs) as [[Hp ->]|[Hp [err ->]]].
  - split; [split; [done|by eexists]|]. intros r s' [= <- <-]. split_and!; try done. intros. by eexists.
  - split; [split; [by intros [? ?]|done]|done].
Qed.

(** * Every combination *)

(** The tests of one name. *)
Definition tests_of_name (m : RegisteredTestsMap) (prefix case_name : list Z) (types : list (list Z))
    (name : list Z) : list TypedTest :=
  imap (λ i type, mkTyped (typed_case prefix case_name i) name type
                    (default (mkLocation "" 0) (map_find name m))) types.

Lemma RegisterForTypes_imap prefix location case_name test_names types index :
  RegisterForTypes prefix location case_name test_names types index =
  imap (λ i type, mkTyped (typed_case prefix case_name (index + i))
          (StripTrailingSpaces (GetPrefixUntilComma test_names)) type location) types.
Proof.
  revert index. induction types as [|type types IH]; intros index; [done|].
  cbn [RegisterForTypes]. rewrite imap_cons, IH, Nat.add_0_r. f_equal.
  apply imap_ext. intros i t _. unfold compose. do 2 f_equal. lia.
Qed.

Lemma RegisterCombinations_ok prefix location s case_name types ps :
  Forall (λ p, 44 ∉ p) ps → Forall (λ p, trimmed p ∈ s.(registered_tests_).*1) ps → ps ≠ [] →
  RegisterCombinations prefix location s case_name (Some (SkipSpaces (joined 44 ps))) (length ps) types =
  Done (ps ≫= λ p, tests_of_name s.(registered_tests_) prefix case_name types (trimmed p)).
Proof.
  induction ps as [|p ps IH]; [done|]. intros [Hp Hps]%Forall_cons [Hin Hins]%Forall_cons _.
  assert (44 ∉ SkipSpaces p) as Hs by (by intros ?%SkipSpaces_sub).
  apply map_find_elem in Hin as [loc Hloc].
  assert (GetPrefixUntilComma (SkipSpaces (joined 44 (p :: ps))) = SkipSpaces p) as Hpre.
  { destruct (decide (ps = [])) as [->|Hn]; [by apply last_piece|].
    by rewrite joined_cons, SkipSpaces_comma, prefix_comma. }
  cbn [length RegisterCombinations]. rewrite bind_cons, Hpre.
  fold (trimmed p). unfold TestExists, GetCodeLocation. rewrite Hloc. cbn [negb].
  rewrite RegisterForTypes_imap, Hpre. fold (trimmed p).
  assert (RegisterCombinations prefix location s case_name (SkipComma (SkipSpaces (joined 44 (p :: ps))))
            (length ps) types =
          Done (ps ≫= λ p, tests_of_name s.(registered_tests_) prefix case_name types (trimmed p))) as ->.
  { destruct (decide (ps = [])) as [->|Hn]; [done|].
    by rewrite joined_cons, SkipSpaces_comma, SkipComma_comma, IH. }
  unfold tests_of_name at 2. by rewrite Hloc.
Qed.

(** [REGISTER_TYPED_TEST_CASE_P] and [INSTANTIATE_TYPED_TEST_CASE_P]: a list that was accepted
    gives each of its tests for each type, with the place where the test is defined; nothing
    aborts. *)
Theorem typed_tests_registered file line listed s s' prefix location case_name types :
  built s →
  VerifyRegisteredTestNames file line listed s = Done (listed, s') →
  SkipSpaces listed = listed →
  RegisterCombinations prefix location s' case_name (Some listed) (length (SplitIntoTestNames listed)) types =
  Done (SplitIntoTestNames listed ≫= tests_of_name s.(registered_tests_) prefix case_name types).
Proof.
  intros Hb%built_ordered Hv Hskip.
  destruct (verified file line listed s Hb) as [[Hp Hd]|[_ [err Hd]]]; rewrite Hd in Hv; [|done].
  injection Hv as <-.
  destruct (split_string_spec 44 listed) as (H1 & H2 & H3).
  rewrite split_names in Hp |- *. rewrite length_fmap, list_fmap_bind.
  rewrite <-Hskip at 1. rewrite <-H1 at 1.
  apply RegisterCombinations_ok; [done| |done].
  apply Forall_forall. intros p Hin. cbn [registered_tests_]. rewrite <-Hp. by apply list_elem_of_fmap_2.
Qed.

(** A space before the first name is skipped where the list is checked, and not where it is
    used. *)
Theorem leading_space_is_not_found :
  let s := mkState false [(text "A", mkLocation "f.cc" 1)] in
  let s' := mkState true (registered_tests_ s) in
  VerifyRegisteredTestNames "f.cc" 2 (text " A") s = Done (text " A", s') ∧
  RegisterCombinations (text "I") (mkLocation "f.cc" 3) s' (text "Case") (Some (text " A")) 1 [text "int"] =
  Aborted (text "Failed to get code location for test Case. A at f.cc:3:.").
Proof. vm_compute. by split. Qed.

(** * Examples *)

Module Example_typed.

Definition defined : TypedTestCasePState :=
  mkState false [(text "Appends", mkLocation "node.h" 20); (text "Votes", mkLocation "node.h" 10)].

Lemma defined_built : built defined.
Proof.
  apply (built_add (mkState false [(text "Votes", mkLocation "node.h" 10)]) "node.h" 20 (text "NodeTest")
    (text "Appends")); [|done].
  by apply (built_add new_state "node.h" 10 (text "NodeTest") (text "Votes")); [constructor|].
Qed.

Lemma list_is_accepted_witness :
  (∃ r, VerifyRegisteredTestNames "node.h" 30 (text "Votes, Appends") defined = Done r) ∧
  VerifyRegisteredTestNames "node.h" 30 (text "Votes, Votes ,Locks") defined =
    Aborted (text "node.h:30: Test Votes is listed more than once." ++ [10] ++
             text "No test named Locks can be found in this test case." ++ [10] ++
             text "You forgot to list test Appends." ++ [10]).
Proof.
  split; [|by vm_compute].
  apply (list_is_accepted "node.h" 30 (text "Votes, Appends") defined); [apply defined_built|].
  vm_compute. apply perm_swap.
Defined.

Lemma typed_tests_registered_witness :
  RegisterCombinations (text "My") (mkLocation "t.cc" 1) (mkState true defined.(registered_tests_))
    (text "NodeTest") (Some (text "Votes, Appends")) 2 [text "int"; text "char"] =
  Done [mkTyped (text "My/NodeTest/0") (text "Votes") (text "int") (mkLocation "node.h" 10);
        mkTyped (text "My/NodeTest/1") (text "Votes") (text "char") (mkLocation "node.h" 10);
        mkTyped (text "My/NodeTest/0") (text "Appends") (text "int") (mkLocation "node.h" 20);
        mkTyped (text "My/NodeTest/1") (text "Appends") (text "char") (mkLocation "node.h" 20)].
Proof.
  apply (typed_tests_registered "node.h" 30 (text "Votes, Appends") defined
    (mkState true defined.(registered_tests_)) (text "My") (mkLocation "t.cc" 1) (text "NodeTest")
    [text "int"; text "char"]); [apply defined_built|by vm_compute|done].
Defined.
End Example_typed.
